(* ===== verification/_CoqProject ===== *)
-Q . S2P
Prelude.v
Util.v
Intervals.v
FastVector.v
Metadata.v
Checker.v
Pmem.v
CheckerFacts.v
Soundness.v
Transactions.v
Engine.v
EngineProofs.v
EngineLive.v
Session.v
Kernel.v
Libpmem.v
LibpmemCopy.v
Instr.v
Log.v
Programs.v
Redo.v
RedoProofs.v
Memops.v
Ctree.v
Cuckoo.v
Pvector.v
Bucket.v
HeapLayout.v
HeapRun.v
Memblock.v
MemblockRun.v
HeapZone.v
HeapZoneProofs.v
HeapHuge.v
HeapTheorems.v
HeapCreate.v
MemblockCommit.v
HeapAlloc.v
HeapInv.v
HeapSteps.v
HeapScan.v
HeapBoot.v
HeapBestfit.v
Sync.v
SyncLocks.v
LaneInfo.v
Lanes.v
Plist.v
PlistLog.v
PlistRing.v
PlistProofs.v
PlistOps.v
PlistMove.v
PlistMove2.v
PlistAlloc.v
PlistExamples.v
Btt.v
BttMedia.v
BttProofs.v
BttAtomic.v
BttRuns.v
BttTable.v
BttCheck.v
BttLayout.v
BttFresh.v
BttExamples.v
