(* ===== verification/Prelude.v ===== *)
(** * PMTest and its instrumented NVML: a verification development

    PMTest finds crash-consistency bugs in programs that use persistent memory.
    The program records its writes, flushes and fences together with assertions
    about them; the traces go to worker threads, which check the assertions
    against a model of the memory.  The repository has the checker ([src/],
    [include/]), a kernel module with its client, and a copy of the NVML libraries
    ([nvml/]) whose writes go through macros that record them.  The development
    models both: the checker with everything between the recording of a call and
    the printing of a verdict, and the parts of NVML whose purpose is to survive a
    crash.

    ** The checker

    - [FastVector] ([include/common.hh]): the growable array of traces.
    - [Metadata] ([include/pmtest.hh], [include/global.h], [src/pmtest.cc]): trace
      entries and the functions [C_createMetadata_*] that record them.
    - [Intervals]: the two containers of boost::icl that the checker uses, as
      classes of operations with laws; boost is not part of the repository.
      [Shadow] is an instance, used to evaluate the checker.
    - [Checker] ([VeriProc] and the [VeriProc_*] functions of [src/pmtest.cc]): the
      state is the record of the local variables, the entries are shared objects.
      [VeriProc] is proved equal to [run], one pass over the values of the entries.
    - [CheckerFacts], [Soundness], [Transactions]: what the checks decide, address
      by address, and what this says about the machine of [Pmem].
    - [Engine], [EngineProofs], [EngineLive] ([VeriWorker], [execVeri], [getVeri],
      [termVeri]): the worker pool as a transition system that interleaves the
      threads at their accesses to shared data, its inductive invariant, and the
      runs by which the calls on it return.
    - [Session] (the [C_*] interface): recording, submitting and collecting, from
      the calls of a thread to the verdicts; the registry of variables.
    - [Kernel] ([src/kernel_module.c], [src/kernel_client.cc]): the recording
      functions in the kernel, the device and the client; the kfifo of Linux is a
      parameter with laws.

    ** NVML

    - [Pmem]: the machine.  A location has a durable value, pending stores and the
      number of these that are flushed; a crash keeps the durable value or one of
      the pending ones.  This is not code of the repository.
    - [Libpmem], [LibpmemCopy] ([libpmem/pmem.c]): flushing, copying and filling,
      in every configuration [pmem_init] can select.
    - [Instr] ([common/pm_instr.h]): the recording macros, and the composition of
      program, recorder, checker and machine.
    - [Util] ([common/util.c], [util_linux.c], [util.h]): checksums, bit arrays,
      feature checks, addresses for mappings.
    - [Log] ([libpmemlog/log.c]): append-only logs.
    - [Programs], [Redo], [RedoProofs] ([libpmemobj/redo.c]) and [Memops]
      ([libpmemobj/memops.c]): programs over words with a crash after any prefix;
      the redo log; sets of memory operations performed through it.
    - [Ctree], [Cuckoo], [Pvector] ([libpmemobj/ctree.c], [cuckoo.c], [pvector.c]):
      the containers of libpmemobj.
    - [Bucket] ([libpmemobj/bucket.c]): containers of free blocks over [Ctree].
      [HeapLayout] ([heap_layout.h], [heap.c]): sizes, zones, size classes.
      [HeapRun], [Memblock], [MemblockRun] ([memblock.c], [heap.c]): the bitmap of a
      run, the two kinds of blocks, and allocating and freeing blocks of runs.
      [HeapZone], [HeapZoneProofs], [HeapHuge], [HeapTheorems] ([heap.c]): the chunks
      of a zone, and allocating and freeing whole chunks.
      [MemblockCommit]: the bitmaps in memory after an allocation or a free.
      [HeapCreate], [HeapAlloc], [HeapBoot] ([heap.c]): making runs, the volatile state
      with its buckets and caches, taking blocks out of it, creating and opening a heap;
      [HeapInv]: how the volatile state agrees with the memory; [HeapSteps], [HeapScan],
      [HeapBestfit]: that the functions keep this and change nothing that is allocated.
    - [Plist] ([libpmemobj/list.c]): lists of objects that are changed through the
      redo log of a lane.  [PlistLog]: programs that write a log and let it store
      its words; [PlistRing], [PlistProofs]: circular lists in memory and what the
      parts of the operations log; [PlistOps], [PlistMove], [PlistMove2],
      [PlistAlloc]: the operations; [PlistExamples]: a concrete pool.
    - [Sync], [SyncLocks] ([libpmemobj/sync.c]): the protocol by which threads
      initialise a lock that lives in the pool, as a transition system, and the
      functions on locks over a class of POSIX locks.
    - [LaneInfo], [Lanes] ([libpmemobj/lane.c]): the records a thread keeps of its
      lanes, with the hash table of [Cuckoo]; holding and releasing lanes, as a
      transition system; opening the lanes of a pool, for any operations of their
      sections.
    - [Btt], [BttTable] ([libpmemblk/btt.c]): the block translation table, an
      arena and the whole table.  [BttMedia], [BttProofs], [BttAtomic], [BttRuns]:
      the invariant and the operations on blocks; [BttLayout], [BttFresh]: new
      layouts; [BttCheck]: the consistency check; [BttExamples]: a concrete table
      and runs that show errors.

    ** What the theorems show

    Soundness: if [VeriProc] prints no persistence error, a crash at the query
    keeps every byte of the query whose flushes have been fenced by then.  If it
    prints no order error, no crash up to the query keeps the last value of a byte
    of the late range, not flushed since it was assigned, without that of the
    early range.  Both are for queries and assignments that the checker does not
    skip: it skips entries of which a byte is under [PMTest_exclude].  Similar
    theorems hold for transactions.  The first is proved for traces ([Soundness])
    and for programs made of the recording macros ([Instr]).  The side conditions
    are needed, and this is shown as well: there are accepted traces that a crash
    can break, excluded ranges that hide errors, and macros that record less than
    they write.

    The pool, once its flags are initialised: [getVeri] returns only when every
    submitted trace has been verified; no wake-up is lost, a worker left alone
    empties its queue in a bounded number of steps, and from every state it can
    reach the call in progress can return, [termVeri] unless a worker is still in
    the loop it starts in; executions of the hazards of creating and stopping the
    pool are exhibited.  With [Session], the verdicts printed are those of the
    specification for the calls made.  The device of the kernel module loses and
    reorders nothing, and delivers everything unless its writer has missed its
    wake-up, which is characterised.

    Crash atomicity: the redo log, sets of memory operations, appends to logs,
    insertions, removals and moves in lists, writes and marks of blocks: after a
    crash at any point, and any number of
    crashes during recovery where there is one, the result is the old state or the
    new one.  Functional correctness: copying and filling for every overlap and
    alignment; trees, hash table and vector against sets, maps and lists; block
    reads; the consistency check; the sizes of a layout; the records of lanes as a
    map from pools; the calls that opening a pool makes of the sections of its lanes.

    The heap: every crash leaves a zone that is a sequence of chunks; the buckets hold
    exactly the free chunks and the free units of runs, before and after every
    allocation and free; a freed chunk is merged with exactly its free neighbours.  A
    request for a chunk fails only when no free chunk is large enough.  A request for
    units of a run fails only when there is no free chunk and no block of the bucket is
    large enough; there may be room in runs that were found during the request
    ([enomem_with_room]).  A heap that was created or that a crash left can be opened,
    with the same units allocated, and neither that nor the reservation of a block
    changes them.

    Threads in the libraries: a lock in the pool is initialised once in a run of
    the pool, whatever an earlier run left in it, and then behaves as a POSIX lock;
    no two threads hold the same lane, and a free lane is found.

    ** Conventions

    Integers have the widths of the source, as [Z] with [u64], [u32] and [i32]
    where the code converts.  Operations that the source leaves undefined (an
    access out of bounds, a null pointer, a failing assertion) have no result:
    [None], or an error in the monad of [Btt].  Allocation, the operating system
    and other libraries are arguments or classes with laws; where a theorem has
    such a hypothesis, an instance satisfies it.  The file systems and devices
    below the namespace of [Btt] are its callbacks.

    Fuel.  Loops that are not structural have fuel, and it is shown to be enough:
    [flush_loop] has one step for each line of its range, [walk_loop] at most one for
    each byte, the loops of [Redo] one for each entry of the log, those of [Pvector] one
    for each array or value, [layout_loop] and [read_layout_loop] one for each arena
    ([layout_loop_halts], [read_layout_loop_halts]).  [client_main] of [Kernel] has
    one for each entry of its stream.  The loops of the heap have one for each zone,
    chunk or unit; that of [heap_verify_zone] needs more on corrupt headers, and none
    is enough ([zone_verified]).  [read_loop] of [Btt] repeats only when
    another thread changes the map; with one thread, one round is enough.

    ** Not modelled

    In PMTest: the measurement of time, the test drivers, and the patches for other
    programs.  In NVML: the allocator that combines the functions of the heap
    ([pmalloc.c]) and the transactions of libpmemobj; the pool set code, the mapping of files, logging and the Windows
    port, which wrap the operating system; remote replication, the volatile
    allocators, offline tools, examples, benchmarks and tests.  The pool of
    workers, the kernel module, the initialisation of locks and the lanes are
    modelled for threads that interleave; the theorems about [Plist], [Btt],
    [Log] and the heap are about one thread, which holds the locks the code takes.
    The theorems about block writes are about arenas with at most 4 GB of data,
    because beyond that the code fails ([btt_write_clobbers]), and the theorem
    about new layouts is about one such arena.  [heap_init] is modelled with calls
    of [pmem_msync] that succeed; the code does not look at their results. *)

From Stdlib Require Export ZArith Lia.
From stdpp Require Export base numbers tactics option list.

#[global] Open Scope Z_scope.

(** ** Notations of the development *)

Declare Scope pmtest_scope.
Delimit Scope pmtest_scope with pmtest.

(** ** Fixed-width integers of the C code

    A [uint64_t] or [size_t] is a [Z] in [0, 2^64), an [unsigned int] a [Z] in
    [0, 2^32) and an [int] a [Z] in [-2^31, 2^31).  [u64], [u32] and [i32] are
    the conversions to these types: reduction modulo the width, and for [int]
    the two's complement reading of the result. *)

Definition u64 (z : Z) : Z := z mod 2 ^ 64.
Definition u32 (z : Z) : Z := z mod 2 ^ 32.
Definition i32 (z : Z) : Z := (z + 2 ^ 31) mod 2 ^ 32 - 2 ^ 31.

(** Values of [errno]. *)
Definition EIO : Z := 5.
Definition ENOMEM : Z := 12.
Definition EINVAL : Z := 22.
Definition ENOSPC : Z := 28.
Definition EROFS : Z := 30.

Definition INT_MAX : Z := 2147483647.

Lemma u64_range z : 0 <= u64 z < 2 ^ 64.
Proof. apply Z.mod_pos_bound. lia. Qed.

Lemma u32_range z : 0 <= u32 z < 2 ^ 32.
Proof. apply Z.mod_pos_bound. lia. Qed.

Lemma i32_range z : - 2 ^ 31 <= i32 z < 2 ^ 31.
Proof. unfold i32. pose proof (Z.mod_pos_bound (z + 2 ^ 31) (2 ^ 32)). lia. Qed.

Lemma u64_small z : 0 <= z < 2 ^ 64 -> u64 z = z.
Proof. apply Z.mod_small. Qed.

Lemma u32_small z : 0 <= z < 2 ^ 32 -> u32 z = z.
Proof. apply Z.mod_small. Qed.

Lemma i32_small z : - 2 ^ 31 <= z < 2 ^ 31 -> i32 z = z.
Proof. intros H. unfold i32. rewrite Z.mod_small; lia. Qed.

(** ** Integers in memory *)

(** The [n] bytes of a little-endian integer, and back. *)
Fixpoint le_bytes (n : nat) (v : Z) : list Z :=
  match n with O => [] | S n' => v mod 256 :: le_bytes n' (v / 256) end.
Fixpoint le_value (bs : list Z) : Z :=
  match bs with [] => 0 | b :: bs' => b + 256 * le_value bs' end.

Lemma le_bytes_length n v : length (le_bytes n v) = n.
Proof. revert v. induction n as [|n IH]; intros v; simpl; [done|]. by rewrite IH. Qed.

Lemma le_value_bytes n v : le_value (le_bytes n v) = v mod 2 ^ (8 * Z.of_nat n).
Proof.
  revert v. induction n as [|n IH]; intros v; [simpl; by rewrite Z.mod_1_r|].
  cbn [le_bytes le_value]. rewrite IH.
  replace (8 * Z.of_nat (S n)) with (8 + 8 * Z.of_nat n) by lia. rewrite Z.pow_add_r by lia.
  change (2 ^ 8) with 256. pose proof (Z.pow_pos_nonneg 2 (8 * Z.of_nat n)).
  rewrite Z.rem_mul_r by lia. lia.
Qed.

(** ** Tactics *)

(** Case analysis on every boolean or decision tested in the goal. *)
Ltac if_cases :=
  repeat match goal with |- context [if ?b then _ else _] => destruct b end.

(** ** Lists *)

Lemma tl_drop {A} (l : list A) n : List.tl (drop n l) = drop (S n) l.
Proof. revert n. induction l as [|x l IH]; intros [|n]; simpl; [done..|apply IH]. Qed.

Lemma last_cons_default {A} (l : list A) y d : List.last (y :: l) d = List.last l y.
Proof.
  revert y d. induction l as [|w l IH]; intros y d; [done|].
  change (List.last (w :: l) d = List.last (w :: l) y). by rewrite !IH.
Qed.

Lemma last_app_default {A} (l1 l2 : list A) d :
  List.last (l1 ++ l2) d = List.last l2 (List.last l1 d).
Proof.
  revert d. induction l1 as [|x l1 IH]; intros d; [done|].
  by rewrite <- app_comm_cons, !last_cons_default.
Qed.

(** The elements of a list, looked up one after the other. *)
Lemma omap_lookup_seq {A} (l : list A) : omap (fun k => l !! k) (seq 0 (length l)) = l.
Proof.
  induction l as [|x l IH] using rev_ind; [done|].
  rewrite length_app, Nat.add_1_r, seq_S, omap_app. simpl.
  rewrite lookup_app_r, Nat.sub_diag by done. simpl. f_equal.
  rewrite <- IH at 2. apply list_omap_ext, Forall2_same_length_lookup. split; [done|].
  intros i a b Ha Hb. apply lookup_seq in Ha as [-> Ha], Hb as [-> _]. simpl.
  by rewrite lookup_app_l.
Qed.

Lemma bind_join {A B} (f : A -> list B) (l : list A) : mbind f l = mjoin (f <$> l).
Proof. induction l as [|x l IH]; [done|]. simpl. f_equal. exact IH. Qed.
