(* ===== verification/Util.v ===== *)
(** * Helpers of NVML: [nvml/src/common/util.c], [util_linux.c], [util.h]

    The Fletcher-64 checksum that protects headers and info blocks, the search for
    an unused range of the address space, feature masks, architecture flags, bit
    arrays and page ranges.  The checksum works on the 32-bit words of the range.

    The theorems: a checksum that has been inserted checks, a change of any other
    single word is detected, and the loop that skips the checksum field computes
    the plain checksum of the range with the field zeroed; the address found for a
    mapping is the first aligned one whose range is free. *)

From Stdlib Require Import Sorted.
From S2P Require Import Prelude.

(** ** [util_checksum] *)

(** The loop, at word [i]; [ci] is the index of the checksum field. *)
Fixpoint checksum_loop (ci i : nat) (ws : list Z) (lo32 hi32 : Z) : Z * Z :=
  match ws with
  | [] => (lo32, hi32)
  | w :: ws' =>
      if (i =? ci)%nat then
        let hi32 := u32 (u32 (hi32 + lo32) + lo32) in
        match ws' with
        | _ :: ws'' => checksum_loop ci (S (S i)) ws'' lo32 hi32
        | [] => (lo32, hi32)
        end
      else
        let lo32 := u32 (lo32 + w) in
        checksum_loop ci (S i) ws' lo32 (u32 (hi32 + lo32))
  end.

Definition checksum (ci : nat) (ws : list Z) : Z :=
  let '(lo32, hi32) := checksum_loop ci 0 ws 0 0 in Z.lor (Z.shiftl hi32 32) lo32.

(** The range after the call and the result; the field is two words. *)
Definition util_checksum (ws : list Z) (ci : nat) (insert : bool) : bool * list Z :=
  let csum := checksum ci ws in
  if insert then (true, <[S ci := csum / 2 ^ 32]> (<[ci := csum mod 2 ^ 32]> ws))
  else (match ws !! ci, ws !! S ci with
        | Some lo, Some hi => Z.lor (Z.shiftl hi 32) lo =? csum
        | _, _ => false
        end, ws).

(** ** Bytes, bits, masks *)

(** [while (len-- > 0) if ( *a++) return 0; return 1]. *)
Fixpoint util_is_zeroed (bytes : list Z) : bool :=
  match bytes with [] => true | a :: bytes' => if a =? 0 then util_is_zeroed bytes' else false end.

(** Bit [i] of an array of bytes; [None] outside of it. *)
Definition util_isset (b : list Z) (i : Z) : option bool :=
  a ← b !! Z.to_nat (i / 8); Some (negb (Z.land a (Z.shiftl 1 (i mod 8)) =? 0)).
Definition util_setbit (b : list Z) (i : Z) : option (list Z) :=
  a ← b !! Z.to_nat (i / 8);
  Some (<[Z.to_nat (i / 8) := Z.lor a (Z.shiftl 1 (i mod 8)) mod 256]> b).
Definition util_clrbit (b : list Z) (i : Z) : option (list Z) :=
  a ← b !! Z.to_nat (i / 8);
  Some (<[Z.to_nat (i / 8) := Z.land a (Z.lnot (Z.shiftl 1 (i mod 8)) mod 256)]> b).

Record features := mkFeatures { incompat_features : Z; ro_compat_features : Z; compat_features : Z }.

(** -1 for an unknown incompatible feature, 0 for a forced read-only mode, 1 if
    all is known or harmless. *)
Definition util_feature_check (hdr : features) (incompat ro_compat compat : Z) : Z :=
  let unmasked x mask := Z.land x (u32 (Z.lnot mask)) in
  if negb (unmasked (incompat_features hdr) incompat =? 0) then -1
  else if negb (unmasked (ro_compat_features hdr) ro_compat =? 0) then 0
  else 1.

Record arch_flags := mkArch {
  alignment_desc : Z; ei_class : Z; ei_data : Z; af_reserved : list Z; e_machine : Z
}.

Definition util_compare_arch_flags (a c : arch_flags) : Z :=
  let ret := 0 in
  let ret := if util_is_zeroed (af_reserved a) then ret else -1 in
  let ret := if e_machine a =? e_machine c then ret else -1 in
  let ret := if ei_data a =? ei_data c then ret else -1 in
  let ret := if ei_class a =? ei_class c then ret else -1 in
  if alignment_desc a =? alignment_desc c then ret else -1.

(** ** Address ranges *)

Definition PAGE : Z := 4096.
Definition MAP_FAILED : Z := 2 ^ 64 - 1.
Definition UINTPTR_MAX : Z := 2 ^ 64 - 1.

(** [roundup] of [sys/param.h] on pointers. *)
Definition roundup64 (x y : Z) : Z := u64 (u64 (x + (y - 1)) / y * y).

(** The range [util_range_ro], [util_range_rw] and [util_range_none] pass to
    [mprotect]. *)
Definition page_range (addr len : Z) : Z * Z :=
  (Z.land addr (Z.lnot (PAGE - 1)), u64 (len + Z.land addr (PAGE - 1))).

(** The loop over the ranges of [/proc/self/maps]. *)
Fixpoint hint_loop (maps : list (Z * Z)) (raddr len align : Z) : Z :=
  match maps with
  | [] => raddr
  | (lo, hi) :: maps' =>
      if (raddr <? lo) && (len <=? lo - raddr) then raddr
      else
        let raddr := if raddr <? hi then roundup64 hi align else raddr in
        if raddr =? 0 then raddr else hint_loop maps' raddr len align
  end.

(** [maps] is [None] when the file cannot be opened. *)
Definition util_map_hint_unused (maps : option (list (Z * Z))) (minaddr len align : Z) : Z :=
  match maps with
  | None => MAP_FAILED
  | Some maps =>
      let raddr := if minaddr =? 0 then PAGE else minaddr in
      let raddr := hint_loop maps (roundup64 raddr align) len align in
      if negb (raddr =? 0) && (UINTPTR_MAX - raddr <? len) then MAP_FAILED else raddr
  end.

Definition MEGABYTE : Z := 2 ^ 20.
Definition GIGABYTE : Z := 2 ^ 30.

(** [hint] is the address of [PMEM_MMAP_HINT], if set; [system] the address of the
    dummy mapping. *)
Definition util_map_hint (hint : option Z) (maps : option (list (Z * Z))) (system : Z) (len req_align : Z) : Z :=
  let align :=
    if negb (req_align =? 0) then req_align
    else if 2 * GIGABYTE <=? len then GIGABYTE
    else if 4 * MEGABYTE <=? len then 2 * MEGABYTE
    else PAGE in
  match hint with
  | Some minaddr => util_map_hint_unused maps minaddr len align
  | None => if system =? MAP_FAILED then system else roundup64 system align
  end.

(** The bytes [util_tmpfile] reserves for the name (the template is a [char *]) and
    the bytes it writes. *)
Definition tmpfile_reserved (dir templ : list Z) : Z := Z.of_nat (length dir) + 8.
Definition tmpfile_written (dir templ : list Z) : Z := Z.of_nat (length dir) + Z.of_nat (length templ) + 1.

(** ** The checksum *)

(** The plain checksum. *)
Definition fletcher (ws : list Z) (lo hi : Z) : Z * Z :=
  foldl (fun s w => (u32 (s.1 + w), u32 (s.2 + u32 (s.1 + w)))) (lo, hi) ws.

(** The range with the field zeroed. *)
Definition zeroed (ci : nat) (ws : list Z) : list Z := <[S ci := 0]> (<[ci := 0]> ws).

Lemma u32_idem z : u32 (u32 z) = u32 z.
Proof. apply u32_small, u32_range. Qed.

Lemma zeroed_S ci w ws : zeroed (S ci) (w :: ws) = w :: zeroed ci ws.
Proof. done. Qed.

Lemma checksum_loop_past ci i ws lo hi : (ci < i)%nat -> checksum_loop ci i ws lo hi = fletcher ws lo hi.
Proof.
  revert i lo hi. induction ws as [|w ws IH]; intros i lo hi H; [done|]. cbn [checksum_loop].
  rewrite (proj2 (Nat.eqb_neq i ci)) by lia. by rewrite IH by lia.
Qed.

(** The loop is the plain checksum of the zeroed range. *)
Lemma checksum_loop_spec ci ws : forall i lo hi,
  u32 lo = lo -> (S ci < length ws)%nat ->
  checksum_loop (i + ci) i ws lo hi = fletcher (zeroed ci ws) lo hi.
Proof.
  revert ws. induction ci as [|ci IH]; intros [|w ws] i lo hi Hlo Hlen; simpl in Hlen; try lia.
  - cbn [checksum_loop]. rewrite Nat.add_0_r, Nat.eqb_refl. destruct ws as [|w' ws]; [simpl in Hlen; lia|].
    rewrite checksum_loop_past by lia. unfold fletcher, zeroed. simpl. by rewrite !Z.add_0_r, !Hlo.
  - cbn [checksum_loop]. rewrite (proj2 (Nat.eqb_neq i (i + S ci))) by lia.
    replace (i + S ci)%nat with (S i + ci)%nat by lia. rewrite IH; [|apply u32_idem|lia].
    by rewrite zeroed_S.
Qed.

Lemma checksum_zeroed ci ws :
  (S ci < length ws)%nat ->
  checksum ci ws = let '(lo, hi) := fletcher (zeroed ci ws) 0 0 in Z.lor (Z.shiftl hi 32) lo.
Proof. intros H. unfold checksum. by rewrite (checksum_loop_spec ci ws 0) by done. Qed.

Lemma fletcher_range ws lo hi :
  0 <= lo < 2 ^ 32 -> 0 <= hi < 2 ^ 32 ->
  0 <= (fletcher ws lo hi).1 < 2 ^ 32 /\ 0 <= (fletcher ws lo hi).2 < 2 ^ 32.
Proof.
  revert lo hi. induction ws as [|w ws IH]; intros lo hi Hlo Hhi; [done|].
  apply IH; apply u32_range.
Qed.

(** The low half is the sum of the words. *)
Lemma fletcher_lo ws lo hi : u32 lo = lo -> (fletcher ws lo hi).1 = u32 (foldr Z.add lo ws).
Proof.
  revert lo hi. induction ws as [|w ws IH]; intros lo hi Hlo; [done|].
  change (fletcher (w :: ws) lo hi) with (fletcher ws (u32 (lo + w)) (u32 (hi + u32 (lo + w)))).
  rewrite IH by apply u32_idem. simpl.
  assert (H : forall a b, foldr Z.add a ws + b = foldr Z.add (a + b) ws).
  { intros a b. clear. induction ws as [|v ws IH]; simpl; [lia|]. rewrite <- IH. lia. }
  assert (E : forall a, u32 (foldr Z.add (u32 a) ws) = u32 (foldr Z.add a ws)).
  { intros a. rewrite <- (Z.add_0_l (u32 a)), <- (Z.add_0_l a), <- !H. unfold u32.
    by rewrite Zplus_mod_idemp_r. }
  rewrite E, <- H. f_equal. lia.
Qed.

Lemma lor_words hi lo : 0 <= lo < 2 ^ 32 -> Z.lor (Z.shiftl hi 32) lo = hi * 2 ^ 32 + lo.
Proof.
  intros Hlo. rewrite <- Z.add_nocarry_lor.
  - rewrite Z.shiftl_mul_pow2 by lia. done.
  - apply Z.bits_inj'. intros n Hn. rewrite Z.land_spec, Z.bits_0. destruct (decide (n < 32)).
    + by rewrite Z.shiftl_spec_low.
    + rewrite andb_comm. destruct (decide (lo = 0)) as [->|]; [by rewrite Z.bits_0|].
      rewrite Z.bits_above_log2; [done|lia|]. assert (Z.log2 lo < 32) by (apply Z.log2_lt_pow2; lia). lia.
Qed.

Lemma checksum_split ci ws :
  (S ci < length ws)%nat -> exists lo hi, fletcher (zeroed ci ws) 0 0 = (lo, hi) /\
  checksum ci ws = hi * 2 ^ 32 + lo /\ 0 <= lo < 2 ^ 32 /\ 0 <= hi < 2 ^ 32.
Proof.
  intros H. rewrite checksum_zeroed by done.
  pose proof (fletcher_range (zeroed ci ws) 0 0 ltac:(lia) ltac:(lia)) as [Hlo Hhi].
  destruct (fletcher (zeroed ci ws) 0 0) as [lo hi]. simpl in *. exists lo, hi.
  split_and!; try done; try lia. by apply lor_words.
Qed.

Lemma zeroed_insert ci ws a b : zeroed ci (<[S ci := b]> (<[ci := a]> ws)) = zeroed ci ws.
Proof.
  unfold zeroed. rewrite (list_insert_insert_ne _ ci (S ci)) by lia.
  by rewrite !list_insert_insert_eq, (list_insert_insert_ne _ (S ci) ci) by lia.
Qed.

Lemma foldr_add_insert ws i (w w' : Z) :
  ws !! i = Some w -> foldr Z.add 0 (<[i := w']> ws) = foldr Z.add 0 ws + w' - w.
Proof.
  revert i. induction ws as [|v ws IH]; intros [|i] H; simpl in *; try done.
  - injection H as ->. lia.
  - rewrite (IH i) by done. lia.
Qed.

(** A checksum that was inserted is accepted. *)
Lemma checksum_accepted ws ci : (S ci < length ws)%nat -> (util_checksum (util_checksum ws ci true).2 ci false).1 = true.
Proof.
  intros Hci. unfold util_checksum at 2. cbn [snd]. destruct (checksum_split ci ws Hci) as (lo & hi & Ef & Ec & Hlo & Hhi).
  set (ws' := <[S ci := _]> (<[ci := _]> ws)). assert (Hz : zeroed ci ws' = zeroed ci ws) by apply zeroed_insert.
  assert (Hlo' : ws' !! ci = Some (checksum ci ws mod 2 ^ 32)) by (unfold ws'; rewrite list_lookup_insert_ne by lia; apply list_lookup_insert_eq; lia).
  assert (Hhi' : ws' !! S ci = Some (checksum ci ws / 2 ^ 32)) by (apply list_lookup_insert_eq; rewrite length_insert; lia).
  unfold util_checksum. rewrite Hlo', Hhi'. cbn [fst]. rewrite lor_words by (apply Z.mod_pos_bound; lia). apply Z.eqb_eq.
  rewrite (checksum_zeroed ci ws'), Hz, <-checksum_zeroed by (unfold ws'; rewrite ?length_insert; lia). pose proof (Z.div_mod (checksum ci ws) (2 ^ 32)). lia.
Qed.

(** C22: the checksum of headers and info blocks.  A checksum inserted by
    [util_checksum] is accepted by it, the other words are unchanged, and after a
    change of any one of them to another value it is rejected. *)
Theorem util_checksum_detects ws ci ws' :
  (S ci < length ws)%nat -> Forall (fun w => 0 <= w < 2 ^ 32) ws ->
  util_checksum ws ci true = (true, ws') ->
  util_checksum ws' ci false = (true, ws') /\
  (forall i, i <> ci -> i <> S ci -> ws' !! i = ws !! i) /\
  forall i w w', i <> ci -> i <> S ci -> ws' !! i = Some w -> 0 <= w' < 2 ^ 32 -> w' <> w ->
    (util_checksum (<[i := w']> ws') ci false).1 = false.
Proof.
  intros Hci Hws E. unfold util_checksum in E. injection E as E.
  destruct (checksum_split ci ws Hci) as (lo & hi & Ef & Ec & Hlo & Hhi).
  assert (Ed : checksum ci ws / 2 ^ 32 = hi /\ checksum ci ws mod 2 ^ 32 = lo).
  { rewrite Ec. split; [rewrite Z.div_add_l by lia; rewrite Z.div_small by lia; lia|].
    rewrite Z.add_comm, Z_mod_plus_full. apply Z.mod_small. lia. }
  destruct Ed as [Ehi Elo]. rewrite Ehi, Elo in E.
  assert (Hlen : length ws' = length ws) by (by rewrite <- E, !length_insert).
  assert (Hlo' : ws' !! ci = Some lo).
  { rewrite <- E, list_lookup_insert_ne by lia. apply list_lookup_insert_eq. lia. }
  assert (Hhi' : ws' !! S ci = Some hi).
  { rewrite <- E. apply list_lookup_insert_eq. rewrite length_insert. lia. }
  assert (Hz : zeroed ci ws' = zeroed ci ws) by (rewrite <- E; apply zeroed_insert).
  assert (Hsame : forall i, i <> ci -> i <> S ci -> ws' !! i = ws !! i).
  { intros i H1 H2. by rewrite <- E, !list_lookup_insert_ne by lia. }
  split_and!; [|done|].
  - unfold util_checksum. rewrite Hlo', Hhi', checksum_zeroed, Hz, Ef by lia. by rewrite Z.eqb_refl.
  - intros i w w' H1 H2 Hw Hr Hne. unfold util_checksum. cbn [fst].
    rewrite !list_lookup_insert_ne, Hlo', Hhi' by lia. apply Z.eqb_neq.
    destruct (checksum_split ci (<[i := w']> ws')) as (lo2 & hi2 & Ef2 & -> & Hlo2 & _); [rewrite length_insert; lia|].
    rewrite lor_words by lia. intros Heq. assert (lo = lo2) as <- by lia.
    pose proof (fletcher_lo (zeroed ci ws) 0 0 eq_refl) as Es. rewrite Ef in Es. simpl in Es.
    pose proof (fletcher_lo (zeroed ci (<[i := w']> ws')) 0 0 eq_refl) as Es2. rewrite Ef2 in Es2. simpl in Es2.
    unfold zeroed in Es2. rewrite (list_insert_insert_ne ws' ci i) in Es2 by lia.
    rewrite (list_insert_insert_ne _ (S ci) i) in Es2 by lia. fold (zeroed ci ws') in Es2. rewrite Hz in Es2.
    rewrite (foldr_add_insert _ i w w') in Es2.
    + rewrite Es in Es2. unfold u32 in Es2. pose proof (Hsame i H1 H2) as Hw2. rewrite Hw in Hw2. symmetry in Hw2.
      pose proof (proj1 (Forall_lookup _ _) Hws i w Hw2) as Hwr. simpl in Hwr.
      set (s := foldr Z.add 0 (zeroed ci ws)) in *.
      pose proof (Z.div_mod s (2 ^ 32)). pose proof (Z.div_mod (s + w' - w) (2 ^ 32)). lia.
    + unfold zeroed. rewrite !list_lookup_insert_ne by lia. by rewrite <- Hsame.
Qed.

Lemma util_checksum_detects_witness :
  util_checksum [7; 0; 0; 9] 1 true = (true, [7; 16; 37; 9]) /\
  (util_checksum [7; 16; 37; 10] 1 false).1 = false.
Proof.
  split; [vm_compute; reflexivity|].
  destruct (util_checksum_detects [7; 0; 0; 9] 1 [7; 16; 37; 9]) as (_ & _ & H).
  - simpl. lia.
  - repeat constructor; lia.
  - vm_compute. reflexivity.
  - apply (H 3%nat 9 10); [lia..|reflexivity|lia|lia].
Defined.

(** ** Free address ranges *)

Lemma roundup64_spec x y :
  0 < y -> 0 <= x < 2 ^ 64 -> roundup64 x y <> 0 -> y <= 2 ^ 64 ->
  x <= roundup64 x y < x + y /\ roundup64 x y mod y = 0.
Proof.
  intros Hy Hx Hne Hy2. unfold roundup64 in *. destruct (decide (x + (y - 1) < 2 ^ 64)) as [Hs|Hs].
  - rewrite (u64_small (x + _)) in * by lia. pose proof (Z.div_mod (x + (y - 1)) y ltac:(lia)).
    pose proof (Z.mod_pos_bound (x + (y - 1)) y ltac:(lia)).
    assert (0 <= (x + (y - 1)) / y) by (apply Z.div_pos; lia).
    rewrite u64_small in * by nia. split; [nia|]. by rewrite Z_mod_mult.
  - destruct Hne. unfold u64 at 2. rewrite <- (Z.mod_unique (x + (y - 1)) (2 ^ 64) 1 (x + (y - 1) - 2 ^ 64)) by lia.
    rewrite Z.div_small by lia. done.
Qed.

Section Hint.
Context (len align : Z) (Hlen : 0 < len) (Halign : 0 < align <= 2 ^ 64).

Definition meets (a : Z) (m : Z * Z) : Prop := a < m.2 /\ m.1 < a + len.

(** Aligned addresses below [r] and from [start] on are all in use. *)
Definition first_free (start r : Z) (maps : list (Z * Z)) : Prop :=
  forall a, start <= a < r -> a mod align = 0 -> exists m, m ∈ maps /\ meets a m.

Definition maps_ok (maps : list (Z * Z)) : Prop :=
  Forall (fun m => 0 <= m.1 < m.2 /\ m.2 < 2 ^ 64) maps /\
  StronglySorted (fun m m' => m.2 <= m'.1) maps.

Lemma aligned_gap a b k : 0 < k -> a mod k = 0 -> b mod k = 0 -> a < b -> a + k <= b.
Proof.
  intros Hk Ha Hb Hlt. apply Z.mod_divide in Ha as [x ->], Hb as [y ->]; [|lia..].
  assert (x < y) by (apply (Z.mul_lt_mono_pos_r k); lia). pose proof (Z.mul_le_mono_nonneg_r (x + 1) y k). lia.
Qed.

Lemma first_free_app start r seen maps :
  first_free start r seen -> first_free start r (seen ++ maps).
Proof.
  intros H a H1 H2. destruct (H a H1 H2) as (m & Hin & Hm). exists m. split; [|done].
  apply elem_of_app. by left.
Qed.

(** One range that does not end the search. *)
Lemma hint_step seen start r lo hi :
  0 <= lo < hi -> hi < 2 ^ 64 -> start <= r -> 0 < r < 2 ^ 64 -> r mod align = 0 ->
  Forall (fun m => m.2 <= r) seen -> first_free start r seen -> lo < r + len ->
  let r1 := if r <? hi then roundup64 hi align else r in
  r1 <> 0 -> start <= r1 /\ 0 < r1 < 2 ^ 64 /\ r1 mod align = 0 /\
    Forall (fun m => m.2 <= r1) (seen ++ [(lo, hi)]) /\ first_free start r1 (seen ++ [(lo, hi)]).
Proof using Hlen Halign.
  intros Hlh Hh Hst Hr Ha Hseen Hff Hno. cbn zeta. destruct (Z.ltb_spec r hi) as [Hrhi|Hrhi]; intros Hne.
  - destruct (roundup64_spec hi align ltac:(lia) ltac:(lia) Hne ltac:(lia)) as [Hru Hrm].
    pose proof (u64_range (u64 (hi + (align - 1)) / align * align)) as Hb. fold (roundup64 hi align) in Hb.
    split_and!; [lia..|done| |].
    + apply Forall_app. split; [eapply Forall_impl; [done|]; simpl; lia|]. apply Forall_singleton. simpl. lia.
    + intros a H1 H2. destruct (decide (a < r)) as [Hlt|Hge].
      * destruct (Hff a) as (m & Hin & Hmeet); [lia|done|]. exists m. split; [|done]. apply elem_of_app. by left.
      * exists (lo, hi). split; [apply elem_of_app; right; left|]. split; simpl; [|lia].
        pose proof (aligned_gap a (roundup64 hi align) align ltac:(lia) H2 Hrm ltac:(lia)). lia.
  - split_and!; [lia..|done| |].
    + apply Forall_app. split; [done|]. apply Forall_singleton. simpl. lia.
    + by apply first_free_app.
Qed.

Lemma hint_loop_spec maps : forall seen start r,
  maps_ok maps -> start <= r -> 0 < r < 2 ^ 64 -> r mod align = 0 ->
  Forall (fun m => m.2 <= r) seen -> first_free start r seen ->
  let r' := hint_loop maps r len align in
  r' <> 0 -> start <= r' < 2 ^ 64 /\ r' mod align = 0 /\ first_free start r' (seen ++ maps) /\
    forall m, m ∈ seen ++ maps -> ~ meets r' m.
Proof using Hlen Halign.
  induction maps as [|[lo hi] maps IH]; intros seen start r [Hm Hs] Hst Hr Ha Hseen Hff.
  { simpl. rewrite app_nil_r. intros _. split_and!; [lia..|done|done|].
    intros m Hin [H _]. pose proof (proj1 (Forall_forall _ _) Hseen m Hin). simpl in *. lia. }
  apply Forall_cons in Hm as [[Hlh Hh] Hm]. apply StronglySorted_inv in Hs as [Hs Hnext]. simpl in Hlh, Hh.
  cbn [hint_loop]. destruct ((r <? lo) && (len <=? lo - r)) eqn:Hfit.
  - intros _. apply andb_true_iff in Hfit as [H1 H2]. split_and!; [lia..|done|by apply first_free_app|].
    intros m Hin [Hm1 Hm2]. apply elem_of_app in Hin as [Hin|Hin].
    + pose proof (proj1 (Forall_forall _ _) Hseen m Hin). simpl in *. lia.
    + apply elem_of_cons in Hin as [->|Hin]; [simpl in *; lia|].
      pose proof (proj1 (Forall_forall _ _) Hnext m Hin). simpl in *. lia.
  - cbn zeta. assert (Hno : lo < r + len) by lia.
    pose proof (hint_step seen start r lo hi Hlh Hh Hst Hr Ha Hseen Hff Hno) as Hstep. cbn zeta in Hstep.
    set (r1 := if r <? hi then roundup64 hi align else r) in *.
    destruct (Z.eqb_spec r1 0) as [E|Hne]; [intros H; by destruct H|].
    destruct (Hstep Hne) as (H1 & H2 & H3 & H4 & H5). rewrite cons_middle, app_assoc. by apply IH.
Qed.

End Hint.

(** [util_map_hint_unused] returns the first suitable address: if it is neither
    NULL nor MAP_FAILED, it is aligned, not below [minaddr] (nor below the first
    page), its range of [len] bytes is within the address space and meets no
    mapping, and every smaller aligned address does meet one. *)
Theorem util_map_hint_unused_first maps minaddr len align :
  0 < len -> 0 < align <= 2 ^ 64 -> 0 <= minaddr < 2 ^ 64 -> maps_ok maps ->
  let start := roundup64 (if minaddr =? 0 then PAGE else minaddr) align in
  let r := util_map_hint_unused (Some maps) minaddr len align in
  start <> 0 -> r <> 0 -> r <> MAP_FAILED ->
  minaddr <= r /\ r + len < 2 ^ 64 /\ r mod align = 0 /\ (forall m, m ∈ maps -> ~ meets len r m) /\
  forall a, start <= a < r -> a mod align = 0 -> exists m, m ∈ maps /\ meets len a m.
Proof.
  intros Hlen Ha Hmin Hok start r Hs0 Hr0 Hrf. unfold r, util_map_hint_unused in *. fold start in Hr0, Hrf |- *.
  assert (Hst : minaddr <= start < 2 ^ 64 /\ 0 < start /\ start mod align = 0).
  { unfold start, PAGE in *. pose proof (u64_range (u64 ((if minaddr =? 0 then 4096 else minaddr) + (align - 1)) / align * align)) as Hb.
    fold (roundup64 (if minaddr =? 0 then 4096 else minaddr) align) in Hb.
    destruct (roundup64_spec (if minaddr =? 0 then 4096 else minaddr) align) as [H1 H2]; try done; try lia.
    - destruct (minaddr =? 0); lia.
    - destruct (Z.eqb_spec minaddr 0); lia. }
  destruct Hst as ([Hs1 Hs2] & Hs3 & Hs4).
  destruct (Z.eqb_spec (hint_loop maps start len align) 0) as [E|E]; [done|]. cbn [negb andb] in *.
  destruct (Z.ltb_spec (UINTPTR_MAX - hint_loop maps start len align) len) as [|Hfit]; [done|].
  destruct (hint_loop_spec len align Hlen Ha maps [] start start) as (H1 & H2 & H3 & H4); try done; try lia.
  { intros a H. lia. }
  unfold UINTPTR_MAX in *. split_and!; try done; lia.
Qed.

(** Two mappings with a gap that is too small between them. *)
Lemma util_map_hint_unused_first_witness :
  util_map_hint_unused (Some [(4096, 8192); (12288, 20480)]) 0 8192 4096 = 20480 /\
  forall m, m ∈ [(4096, 8192); (12288, 20480)] -> ~ meets 8192 20480 m.
Proof.
  split; [vm_compute; reflexivity|].
  apply (util_map_hint_unused_first [(4096, 8192); (12288, 20480)] 0 8192 4096); try lia.
  - split; repeat constructor; simpl; lia.
  - vm_compute. discriminate.
  - vm_compute. discriminate.
  - vm_compute. discriminate.
Defined.

(** The buffer for the name of a temporary file is too small for the template that
    [util_map_tmpfile] passes, a string of twelve characters. *)
Lemma tmpfile_overflow dir templ :
  length templ = 12%nat -> tmpfile_written dir templ = tmpfile_reserved dir templ + 5.
Proof. unfold tmpfile_written, tmpfile_reserved. lia. Qed.

(** Bits of a byte array. *)
Lemma util_setbit_isset b i j b' :
  0 <= i -> 0 <= j -> Forall (fun a => 0 <= a < 256) b -> util_setbit b i = Some b' ->
  util_isset b' j = if j =? i then Some true else util_isset b j.
Proof.
  intros Hi Hj Hb E. unfold util_setbit in E. destruct (b !! Z.to_nat (i / 8)) as [a|] eqn:Ea; [|done].
  injection E as <-. pose proof (proj1 (Forall_lookup _ _) Hb _ _ Ea) as Har. simpl in Har.
  unfold util_isset. pose proof (Z.mod_pos_bound i 8 ltac:(lia)). pose proof (Z.mod_pos_bound j 8 ltac:(lia)).
  assert (Hdiv : 0 <= i / 8 /\ 0 <= j / 8) by (split; apply Z.div_pos; lia).
  assert (Hbit : forall c k, 0 <= k -> (Z.land c (Z.shiftl 1 k) =? 0) = negb (Z.testbit c k)).
  { intros c k Hk. rewrite Z.shiftl_1_l. destruct (Z.testbit c k) eqn:Et; simpl.
    - apply Z.eqb_neq. intros E. apply (f_equal (fun z => Z.testbit z k)) in E.
      rewrite Z.land_spec, Et, Z.pow2_bits_true, Z.bits_0 in E by lia. done.
    - apply Z.eqb_eq. apply Z.bits_inj'. intros n Hn. rewrite Z.land_spec, Z.bits_0.
      destruct (decide (n = k)) as [->|]; [by rewrite Et|]. by rewrite Z.pow2_bits_false, andb_false_r. }
  rewrite list_lookup_insert. case_decide as Hd.
  - destruct Hd as [Hd Hl]. assert (Edj : j / 8 = i / 8) by lia. simpl. rewrite Hbit, negb_involutive by lia.
    change 256 with (2 ^ 8). rewrite Z.mod_pow2_bits_low, Z.lor_spec, Z.shiftl_1_l by lia.
    destruct (Z.eqb_spec j i) as [->|Hne].
    + by rewrite Z.pow2_bits_true, orb_true_r by lia.
    + rewrite Z.pow2_bits_false, orb_false_r by (pose proof (Z.div_mod i 8); pose proof (Z.div_mod j 8); lia).
      rewrite Edj, Ea. simpl. by rewrite Hbit, negb_involutive by lia.
  - destruct (Z.eqb_spec j i) as [->|Hne]; [|done]. destruct Hd. split; [done|].
    by eapply lookup_lt_Some.
Qed.
