(* ===== verification/Intervals.v ===== *)
(** * Address intervals and the interface of [boost::icl]

    [src/pmtest.cc] keeps the state of its checker in two containers of
    [boost::icl]: [interval_set<size_t>] and [interval_map<size_t, int,
    partial_enricher, std::less, inplace_assign>].  Boost is not part of the
    repository, so the containers are parameters of the model: the classes
    [IclSet] and [IclMap] list the operations the checker calls, and
    [IclSetLaws] and [IclMapLaws] what their documentation says of them.  The
    module [Shadow] gives one implementation that satisfies the laws, used
    only to evaluate the checker on concrete traces. *)

From S2P Require Import Prelude.

(** ** Right-open intervals of addresses *)

Record interval := right_open { lower : Z; upper : Z }.

Definition in_interval (x : Z) (I : interval) : Prop := lower I <= x < upper I.

Notation "x '∈i' I" := (in_interval x I) (at level 70) : pmtest_scope.
Open Scope pmtest_scope.

#[global] Instance interval_eq_dec : EqDecision interval.
Proof. solve_decision. Defined.

#[global] Instance in_interval_dec x I : Decision (x ∈i I).
Proof. unfold in_interval. apply _. Defined.

(** [is_empty] of an interval, and the intersection [I & J]. *)
Definition interval_empty (I : interval) : bool := upper I <=? lower I.

Definition interval_meet (I J : interval) : interval :=
  right_open (Z.max (lower I) (lower J)) (Z.min (upper I) (upper J)).

(** The pieces of [I] that lie outside [J], left and right of it. *)
Definition interval_left (I J : interval) : interval :=
  right_open (lower I) (Z.min (upper I) (lower J)).
Definition interval_right (I J : interval) : interval :=
  right_open (Z.max (lower I) (upper J)) (upper I).

(** ** The interface of the two containers *)

Class IclSet (S : Type) := {
  iset_empty : S;
  iset_add : S -> interval -> S;
  iset_sub : S -> interval -> S;
  iset_find : S -> interval -> option interval;
  iset_contains : Z -> S -> Prop;
}.

Class IclSetLaws (S : Type) `{IclSet S} : Prop := {
  iset_contains_empty x : ~ iset_contains x iset_empty;
  iset_contains_add x s I :
    iset_contains x (iset_add s I) <-> x ∈i I \/ iset_contains x s;
  iset_contains_sub x s I :
    iset_contains x (iset_sub s I) <-> ~ x ∈i I /\ iset_contains x s;
  (** [find] returns [end()] exactly when no element of the set is in the
      interval, and otherwise a segment of the set that meets it. *)
  iset_find_None s I :
    iset_find s I = None <-> (forall x, x ∈i I -> ~ iset_contains x s);
  iset_find_Some s I J :
    iset_find s I = Some J ->
    (exists x, x ∈i I /\ x ∈i J) /\ (forall x, x ∈i J -> iset_contains x s);
}.

Class IclMap (M : Type) := {
  imap_empty : M;
  imap_set : M -> interval -> Z -> M;
  imap_within : interval -> M -> bool;
  imap_cut : interval -> M -> list (interval * Z);
  imap_lookup : Z -> M -> option Z;
}.

Class IclMapLaws (M : Type) `{IclMap M} : Prop := {
  imap_lookup_empty x : imap_lookup x imap_empty = None;
  (** [m += (I, v)] with the combiner [inplace_assign] overwrites. *)
  imap_lookup_set x m I v :
    imap_lookup x (imap_set m I v) =
      if decide (x ∈i I) then Some v else imap_lookup x m;
  imap_within_spec I m :
    imap_within I m = true <->
    (forall x, x ∈i I -> is_Some (imap_lookup x m));
  (** The segments of [I & m]: each is a non-empty range inside [I] with the
      value the map has there, and together they cover what the map has. *)
  imap_cut_sound I m J v :
    (J, v) ∈ imap_cut I m ->
    (exists x, x ∈i J) /\
    (forall x, x ∈i J -> x ∈i I /\ imap_lookup x m = Some v);
  imap_cut_complete I m x v :
    x ∈i I -> imap_lookup x m = Some v ->
    exists J, (J, v) ∈ imap_cut I m /\ x ∈i J;
}.

#[global] Hint Mode IclSet + : typeclass_instances.
#[global] Hint Mode IclMap + : typeclass_instances.

(** ** Facts about intervals *)

Ltac interval_unfold :=
  unfold in_interval, interval_empty, interval_meet, interval_left,
    interval_right in *; simpl in *.

(** Decides goals about membership in explicit intervals. *)
Ltac interval_lia := interval_unfold; lia.

Lemma interval_empty_spec I : interval_empty I = true <-> (forall x, ~ x ∈i I).
Proof.
  interval_unfold. split; [lia|]. intros H.
  destruct (Z.leb_spec (upper I) (lower I)) as [|Hlt]; [done|].
  specialize (H (lower I)). lia.
Qed.

Lemma interval_nonempty_spec I :
  interval_empty I = false <-> (exists x, x ∈i I).
Proof.
  interval_unfold. split; [intros; exists (lower I); lia|].
  intros [x ?]. lia.
Qed.

Lemma in_interval_meet x I J : x ∈i interval_meet I J <-> x ∈i I /\ x ∈i J.
Proof. interval_lia. Qed.

Lemma in_interval_pieces x I J :
  x ∈i I <->
  x ∈i interval_meet I J \/ x ∈i interval_left I J \/ x ∈i interval_right I J.
Proof. interval_lia. Qed.

(** ** A reference implementation

    A container is the list of its updates, newest first; an update assigns a
    value to a range and hides older updates there.  [interval_set] is the case
    of boolean values: [true] for [+=], [false] for [-=]. *)

Module Shadow.

Definition shadow (V : Type) : Type := list (interval * V).

Fixpoint get {V} (x : Z) (m : shadow V) : option V :=
  match m with
  | [] => None
  | (J, v) :: m' => if decide (x ∈i J) then Some v else get x m'
  end.

(** The parts of [I] that have a value, newest update first. *)
Fixpoint cut {V} (I : interval) (m : shadow V) : list (interval * V) :=
  match m with
  | [] => []
  | (J, v) :: m' =>
      (if interval_empty (interval_meet I J) then []
       else [(interval_meet I J, v)])
      ++ cut (interval_left I J) m' ++ cut (interval_right I J) m'
  end.

Fixpoint covers {V} (I : interval) (m : shadow V) : bool :=
  match m with
  | [] => interval_empty I
  | (J, _) :: m' =>
      covers (interval_left I J) m' && covers (interval_right I J) m'
  end.

Definition first_true (l : list (interval * bool)) : option interval :=
  match List.filter snd l with
  | [] => None
  | (J, _) :: _ => Some J
  end.

#[global] Instance shadow_set : IclSet (shadow bool) := {|
  iset_empty := [];
  iset_add s I := (I, true) :: s;
  iset_sub s I := (I, false) :: s;
  iset_find s I := first_true (cut I s);
  iset_contains x s := get x s = Some true;
|}.

#[global] Instance shadow_map : IclMap (shadow Z) := {|
  imap_empty := [];
  imap_set m I v := (I, v) :: m;
  imap_within I m := covers I m;
  imap_cut I m := cut I m;
  imap_lookup x m := get x m;
|}.

Lemma get_cons_ne {V} x (J : interval) (v : V) m :
  ~ x ∈i J -> get x ((J, v) :: m) = get x m.
Proof. intros. simpl. by rewrite decide_False. Qed.

Lemma get_cons_eq {V} x (J : interval) (v : V) m :
  x ∈i J -> get x ((J, v) :: m) = Some v.
Proof. intros. simpl. by rewrite decide_True. Qed.

Lemma cut_sound {V} (m : shadow V) : forall I J v,
  (J, v) ∈ cut I m ->
  (exists x, x ∈i J) /\ (forall x, x ∈i J -> x ∈i I /\ get x m = Some v).
Proof.
  induction m as [|[K w] m IH]; intros I J v; simpl; [by rewrite elem_of_nil|].
  rewrite !elem_of_app. intros [HJ | [HJ | HJ]].
  - destruct (interval_empty (interval_meet I K)) eqn:E;
      [by apply elem_of_nil in HJ|].
    apply list_elem_of_singleton in HJ. injection HJ as -> ->.
    split; [by apply interval_nonempty_spec|].
    intros x [Hx1 Hx2]%in_interval_meet. by rewrite decide_True.
  - destruct (IH _ _ _ HJ) as [? H2]. split; [done|].
    intros x [Hx Hget]%H2. rewrite decide_False; [|interval_lia].
    split; [interval_lia|done].
  - destruct (IH _ _ _ HJ) as [? H2]. split; [done|].
    intros x [Hx Hget]%H2. rewrite decide_False; [|interval_lia].
    split; [interval_lia|done].
Qed.

Lemma cut_complete {V} (m : shadow V) : forall I x v,
  x ∈i I -> get x m = Some v -> exists J, (J, v) ∈ cut I m /\ x ∈i J.
Proof.
  induction m as [|[K w] m IH]; intros I x v Hx; simpl; [done|].
  case_decide as HK.
  - intros [= ->]. exists (interval_meet I K). split; [|by apply in_interval_meet].
    rewrite elem_of_app. left.
    replace (interval_empty (interval_meet I K)) with false;
      [by apply list_elem_of_singleton|].
    symmetry. apply interval_nonempty_spec. exists x. by apply in_interval_meet.
  - intros Hget. destruct (proj1 (in_interval_pieces x I K) Hx) as [H|[H|H]];
      [by apply in_interval_meet in H as [_ ?]| |];
      destruct (IH _ _ _ H Hget) as (J & HJ & ?); exists J;
      rewrite !elem_of_app; auto.
Qed.

Lemma covers_spec {V} (m : shadow V) : forall I,
  covers I m = true <-> (forall x, x ∈i I -> is_Some (get x m)).
Proof.
  induction m as [|[K w] m IH]; intros I; simpl.
  - rewrite interval_empty_spec. split.
    + intros H x Hx. by destruct (H x).
    + intros H x Hx. destruct (H x Hx) as [? [=]].
  - rewrite andb_true_iff, !IH. split.
    + intros [HL HR] x Hx. case_decide as HK; [eauto|].
      destruct (proj1 (in_interval_pieces x I K) Hx) as [H|[H|H]]; [|auto..].
      by apply in_interval_meet in H as [_ ?].
    + intros H. split; intros x Hx.
      all: assert (x ∈i I) as HI by interval_lia; specialize (H x HI);
        rewrite decide_False in H by interval_lia; done.
Qed.

Lemma first_true_None l :
  first_true l = None <-> (forall J, (J, true) ∉ l).
Proof.
  unfold first_true. induction l as [|[J []] l IH]; simpl.
  - split; [intros _ J; apply not_elem_of_nil|done].
  - split; [done|]. intros H. by destruct (H J); left.
  - rewrite IH. split.
    + intros H K HK. apply elem_of_cons in HK as [[=]|HK]. by apply (H K).
    + intros H K HK. apply (H K). by right.
Qed.

Lemma first_true_Some l J : first_true l = Some J -> (J, true) ∈ l.
Proof.
  unfold first_true. induction l as [|[K []] l IH]; simpl; [done| |].
  - intros [= ->]. by left.
  - intros H. right. auto.
Qed.

#[global] Instance shadow_set_laws : IclSetLaws (shadow bool).
Proof.
  split; simpl.
  - done.
  - intros x s I. case_decide; [by split; [left|]|by split; [right|intros [?|?]]].
  - intros x s I. case_decide; [by split; [|intros [? _]]|by split; [|intros [_ ?]]].
  - intros s I. rewrite first_true_None. split.
    + intros H x Hx Hget. destruct (cut_complete _ _ _ _ Hx Hget) as (J & HJ & _).
      by apply (H J).
    + intros H J HJ. destruct (cut_sound _ _ _ _ HJ) as [[x Hx] HJ2].
      destruct (HJ2 x Hx) as [HI Hget]. by apply (H x).
  - intros s I J HJ%first_true_Some%cut_sound.
    destruct HJ as [[x Hx] H]. split.
    + exists x. split; [by apply H|done].
    + intros y Hy. by apply H.
Qed.

#[global] Instance shadow_map_laws : IclMapLaws (shadow Z).
Proof.
  split; simpl; intros; [done|done|apply covers_spec|by apply cut_sound|].
  by apply cut_complete.
Qed.

End Shadow.
