(* ===== verification/FastVector.v ===== *)
(** * [FastVector]: the growable array of [include/common.hh]

    The vector owns a block of [vector_max_size] cells; a cell that was never
    written is [None].  An operation returns [None] where the C++ code has no
    defined result: a write outside the block, signed overflow of a size, or a
    block that [malloc] or [realloc] did not return (the code never tests for a
    null pointer).  [alloc] says for a number of cells whether the allocator
    returns a block.

    The theorems: the constructor establishes the invariant [fv_wf], every
    operation preserves it and acts on the contents [elems] as the list
    operation it stands for, and the sizes up to which no signed overflow can
    happen. *)

From S2P Require Import Prelude.

Record FastVector (T : Type) := mkFV {
  arr_vector : list (option T);
  cur_size : Z;
  vector_max_size : Z;
}.
Arguments mkFV {T} _ _ _.
Arguments arr_vector {T} _.
Arguments cur_size {T} _.
Arguments vector_max_size {T} _.

Section FastVectorOps.
Context {T : Type} (alloc : Z -> bool).

(** [malloc(n * sizeof(T))]: a block of uninitialised cells. *)
Definition fv_malloc (n : Z) : option (list (option T)) :=
  if alloc n then Some (replicate (Z.to_nat n) None) else None.

(** [realloc(arr, n * sizeof(T))]: the common prefix is kept. *)
Definition fv_realloc (arr : list (option T)) (n : Z) : option (list (option T)) :=
  if alloc n
  then Some (resize (Z.to_nat n) None arr)
  else None.

(** [memcpy(arr + off, src, length src * sizeof(T))]. *)
Definition fv_memcpy (arr : list (option T)) (off : Z) (src : list (option T)) :
    option (list (option T)) :=
  if (0 <=? off) && (off + Z.of_nat (length src) <=? Z.of_nat (length arr))
  then Some (list_inserts (Z.to_nat off) src arr)
  else None.

(** A computation on [int] that overflows has no defined result. *)
Definition int_result (z : Z) : option Z :=
  if (- 2 ^ 31 <=? z) && (z <=? INT_MAX) then Some z else None.

Definition fv_new : option (FastVector T) :=
  arr ← fv_malloc 200; Some (mkFV arr 0 200).

Definition push_back (v : FastVector T) (input : T) : option (FastVector T) :=
  v' ← (if vector_max_size v <=? cur_size v then
          max ← int_result (vector_max_size v * 10);
          arr ← fv_realloc (arr_vector v) max;
          Some (mkFV arr (cur_size v) max)
        else Some v);
  arr ← fv_memcpy (arr_vector v') (cur_size v') [Some input];
  n ← int_result (cur_size v' + 1);
  Some (mkFV arr n (vector_max_size v')).

(** [append(FastVector<T> &input)].  [input] may be the vector itself. *)
Definition append (v input : FastVector T) : option (FastVector T) :=
  let src := take (Z.to_nat (cur_size input)) (arr_vector input) in
  total ← int_result (cur_size input + cur_size v);
  v' ← (if vector_max_size v <=? total then
          max ← int_result (total * 10);
          arr ← fv_realloc (arr_vector v) max;
          Some (mkFV arr (cur_size v) max)
        else Some v);
  arr ← fv_memcpy (arr_vector v') (cur_size v') src;
  Some (mkFV arr total (vector_max_size v')).

(** [append(T *input, size_t input_size)]: the sums are computed as [size_t]
    and converted back to [int]. *)
Definition append_array (v : FastVector T) (input : list T) : option (FastVector T) :=
  let total := u64 (Z.of_nat (length input) + cur_size v) in
  v' ← (if u64 (vector_max_size v) <=? total then
          let max := i32 (u64 (total * 10)) in
          arr ← fv_realloc (arr_vector v) (u64 max);
          Some (mkFV arr (cur_size v) max)
        else Some v);
  arr ← fv_memcpy (arr_vector v') (cur_size v') (Some <$> input);
  Some (mkFV arr (i32 total) (vector_max_size v')).

Definition size (v : FastVector T) : Z := cur_size v.

Definition clear (v : FastVector T) : option (FastVector T) :=
  arr ← fv_realloc (arr_vector v) 200; Some (mkFV arr 0 200).

(** [operator[]]: no bounds test; a cell outside the block or never written
    has no defined value. *)
Definition fv_at (v : FastVector T) (idx : Z) : option T :=
  if 0 <=? idx then mjoin (arr_vector v !! Z.to_nat idx) else None.

(** The contents of a vector.  [fv_repr v l] is the invariant of the class
    together with the list the vector stands for. *)
Definition elems (v : FastVector T) : list T :=
  omap id (take (Z.to_nat (cur_size v)) (arr_vector v)).

Record fv_repr (v : FastVector T) (l : list T) : Prop := {
  fv_cells : exists tl, arr_vector v = (Some <$> l) ++ tl;
  fv_cur : cur_size v = Z.of_nat (length l);
  fv_block : length (arr_vector v) = Z.to_nat (vector_max_size v);
  fv_bounds : 200 <= vector_max_size v <= INT_MAX;
}.

Definition fv_wf (v : FastVector T) : Prop := fv_repr v (elems v).

(** The last two thresholds of the code: a vector of fewer than [FV_SAFE]
    elements never overflows a size; [FV_PUSH_LIMIT] elements can be pushed one
    by one, since the capacities are then 200, 2000, ..., 2000000000. *)
Definition FV_SAFE : Z := 214748364.
Definition FV_PUSH_LIMIT : Z := 2000000000.

(** A sequence of [push_back] calls. *)
Fixpoint push_all (v : FastVector T) (l : list T) : option (FastVector T) :=
  match l with
  | [] => Some v
  | x :: l' => v' ← push_back v x; push_all v' l'
  end.

(** ** Lemmas *)

Hypothesis alloc_ok : forall n, alloc n = true.

Lemma omap_id_Some (l : list T) : omap id (Some <$> l) = l.
Proof. induction l; simpl; by f_equal. Qed.

Lemma fv_repr_elems v l : fv_repr v l -> elems v = l.
Proof.
  intros [[tl Htl] Hcur _ _]. unfold elems. rewrite Hcur, Nat2Z.id, Htl.
  rewrite take_app_length' by (by rewrite length_fmap). apply omap_id_Some.
Qed.

Lemma fv_repr_wf v l : fv_repr v l -> fv_wf v.
Proof. intros H. unfold fv_wf. by rewrite (fv_repr_elems v l H). Qed.

Lemma fv_repr_cur_le v l : fv_repr v l -> Z.of_nat (length l) <= vector_max_size v.
Proof.
  intros [[tl Htl] _ Hb ?]. rewrite Htl, length_app, length_fmap in Hb. lia.
Qed.

Lemma int_result_ok z : - 2 ^ 31 <= z <= INT_MAX -> int_result z = Some z.
Proof.
  intros. unfold int_result.
  by rewrite (proj2 (Z.leb_le _ _)), (proj2 (Z.leb_le _ _)) by lia.
Qed.

Lemma fv_memcpy_repr v l l2 :
  fv_repr v l ->
  Z.of_nat (length l + length l2) <= vector_max_size v ->
  exists arr, fv_memcpy (arr_vector v) (cur_size v) (Some <$> l2) = Some arr /\
    fv_repr (mkFV arr (Z.of_nat (length l + length l2)) (vector_max_size v)) (l ++ l2).
Proof.
  intros [[tl Htl] Hcur Hb ?] Hfit.
  assert (length l2 <= length tl)%nat as Hl2.
  { rewrite Htl, length_app, length_fmap in Hb. lia. }
  unfold fv_memcpy. rewrite length_fmap, Hcur, Hb, Nat2Z.id.
  rewrite (proj2 (Z.leb_le _ _)), (proj2 (Z.leb_le _ _)) by lia. simpl.
  eexists. split; [done|]. split; simpl.
  - rewrite Htl. exists (drop (length l2) tl).
    replace (length l) with (length (Some <$> l : list (option T)) + 0)%nat
      by (rewrite length_fmap; lia).
    rewrite list_inserts_app_r, fmap_app, <- app_assoc. f_equal.
    rewrite <- (take_drop (length l2) tl) at 1.
    rewrite list_inserts_0_r by (rewrite length_fmap, length_take; lia). done.
  - by rewrite length_app.
  - by rewrite length_inserts.
  - done.
Qed.

Lemma fv_realloc_repr v l n :
  fv_repr v l -> Z.of_nat (length l) <= n -> 200 <= n <= INT_MAX ->
  exists arr, fv_realloc (arr_vector v) n = Some arr /\
    fv_repr (mkFV arr (cur_size v) n) l.
Proof.
  intros [[tl Htl] Hcur Hb ?] Hfit Hn. unfold fv_realloc. rewrite alloc_ok.
  eexists. split; [done|]. split; simpl; [|done|by rewrite length_resize|done].
  rewrite Htl. eexists. apply resize_app_ge. rewrite length_fmap. lia.
Qed.

Lemma fv_new_repr : exists v, fv_new = Some v /\ fv_repr v [].
Proof.
  unfold fv_new, fv_malloc. rewrite alloc_ok. eexists. split; [done|].
  split; simpl; [by eexists|done|done|unfold INT_MAX; lia].
Qed.

(** [push_back] when the next capacity is representable. *)
Lemma push_back_repr v l x :
  fv_repr v l ->
  (Z.of_nat (length l) < vector_max_size v \/ vector_max_size v * 10 <= INT_MAX) ->
  exists v', push_back v x = Some v' /\ fv_repr v' (l ++ [x]) /\
    vector_max_size v' =
      if vector_max_size v <=? cur_size v then vector_max_size v * 10
      else vector_max_size v.
Proof.
  intros Hv Hroom. pose proof (fv_repr_cur_le v l Hv) as Hle.
  pose proof (fv_cur v l Hv) as Hcur. pose proof (fv_bounds v l Hv) as Hb.
  unfold push_back.
  destruct (Z.leb_spec (vector_max_size v) (cur_size v)) as [Hfull|Hfree].
  - rewrite int_result_ok by lia. simpl.
    destruct (fv_realloc_repr v l (vector_max_size v * 10)) as (arr & -> & Hr);
      [done|lia..|]. simpl.
    destruct (fv_memcpy_repr _ _ [x] Hr) as (arr' & Hm & Hr'); [simpl; lia|].
    simpl in Hm. rewrite Hm. simpl. rewrite int_result_ok by lia. simpl.
    eexists. split; [done|]. split; [|done].
    replace (cur_size v + 1) with (Z.of_nat (length l + 1)) by lia. done.
  - simpl. destruct (fv_memcpy_repr _ _ [x] Hv) as (arr' & Hm & Hr'); [simpl; lia|].
    simpl in Hm. rewrite Hm. simpl. rewrite int_result_ok by lia. simpl.
    eexists. split; [done|]. split; [|done].
    replace (cur_size v + 1) with (Z.of_nat (length l + 1)) by lia. done.
Qed.

Lemma append_repr v l w k :
  fv_repr v l -> fv_repr w k -> Z.of_nat (length l + length k) <= FV_SAFE ->
  exists v', append v w = Some v' /\ fv_repr v' (l ++ k).
Proof.
  intros Hv Hw Hsafe. pose proof (fv_bounds v l Hv) as Hb.
  pose proof (fv_cur v l Hv) as Hcv. pose proof (fv_cur w k Hw) as Hcw.
  unfold append, FV_SAFE, INT_MAX in *.
  replace (take (Z.to_nat (cur_size w)) (arr_vector w)) with (Some <$> k : list (option T)).
  2: { destruct Hw as [[tl ->] -> _ _]. rewrite Nat2Z.id.
       by rewrite take_app_length' by (by rewrite length_fmap). }
  rewrite int_result_ok by (unfold INT_MAX; lia). simpl.
  replace (cur_size w + cur_size v) with (Z.of_nat (length l + length k)) by lia.
  destruct (Z.leb_spec (vector_max_size v) (Z.of_nat (length l + length k))) as [Hf|Hf].
  - rewrite int_result_ok by (unfold INT_MAX; lia). simpl.
    destruct (fv_realloc_repr v l (Z.of_nat (length l + length k) * 10))
      as (arr & -> & Hr); [done|unfold INT_MAX; lia..|]. simpl.
    destruct (fv_memcpy_repr _ _ k Hr) as (arr' & Hm & Hr'); [simpl; lia|].
    simpl in Hm. rewrite Hm. eauto.
  - simpl. destruct (fv_memcpy_repr _ _ k Hv) as (arr' & -> & Hr'); [lia|]. eauto.
Qed.

Lemma append_array_repr v l k :
  fv_repr v l -> Z.of_nat (length l + length k) <= FV_SAFE ->
  exists v', append_array v k = Some v' /\ fv_repr v' (l ++ k).
Proof.
  intros Hv Hsafe. pose proof (fv_bounds v l Hv) as Hb.
  pose proof (fv_cur v l Hv) as Hcv. unfold append_array, FV_SAFE, INT_MAX in *.
  replace (Z.of_nat (length k) + cur_size v) with (Z.of_nat (length l + length k)) by lia.
  rewrite (u64_small (Z.of_nat _)), (u64_small (vector_max_size v)) by lia.
  rewrite (i32_small (Z.of_nat _)) by lia.
  destruct (Z.leb_spec (vector_max_size v) (Z.of_nat (length l + length k))) as [Hf|Hf].
  - rewrite (u64_small (_ * 10)), i32_small by lia. rewrite u64_small by lia.
    destruct (fv_realloc_repr v l (Z.of_nat (length l + length k) * 10))
      as (arr & -> & Hr); [done|unfold INT_MAX; lia..|]. simpl.
    destruct (fv_memcpy_repr _ _ k Hr) as (arr' & Hm & Hr'); [simpl; lia|].
    simpl in Hm. rewrite Hm. eauto.
  - simpl. destruct (fv_memcpy_repr _ _ k Hv) as (arr' & -> & Hr'); [lia|]. eauto.
Qed.

Lemma clear_repr v l : fv_repr v l -> exists v', clear v = Some v' /\ fv_repr v' [].
Proof.
  intros _. unfold clear, fv_realloc. rewrite alloc_ok. eexists. split; [done|].
  split; simpl; [by eexists|done|by rewrite length_resize|unfold INT_MAX; lia].
Qed.

Lemma fv_at_repr v l i :
  fv_repr v l -> (i < length l)%nat -> fv_at v (Z.of_nat i) = l !! i.
Proof.
  intros [[tl Htl] _ _ _] Hi. unfold fv_at.
  rewrite (proj2 (Z.leb_le _ _)), Nat2Z.id, Htl by lia.
  rewrite lookup_app_l by (by rewrite length_fmap).
  rewrite list_lookup_fmap. by destruct (l !! i).
Qed.

(** The capacities reached by [push_back] alone. *)
Definition push_cap (m : Z) : Prop :=
  m = 200 \/ m = 2000 \/ m = 20000 \/ m = 200000 \/ m = 2000000 \/
  m = 20000000 \/ m = 200000000 \/ m = 2000000000.

Lemma push_back_cap v k x :
  fv_repr v k -> push_cap (vector_max_size v) ->
  Z.of_nat (length k) < FV_PUSH_LIMIT ->
  exists v', push_back v x = Some v' /\ fv_repr v' (k ++ [x]) /\
    push_cap (vector_max_size v').
Proof.
  unfold FV_PUSH_LIMIT. intros Hv Hcap Hlen.
  assert (Z.of_nat (length k) < vector_max_size v \/
          vector_max_size v * 10 <= INT_MAX) as Hroom.
  { unfold push_cap, INT_MAX in *. lia. }
  destruct (push_back_repr v k x Hv Hroom) as (v' & Hpush & Hv' & Hmax).
  exists v'. split_and!; [done..|].
  rewrite Hmax. pose proof (fv_cur v k Hv). pose proof (fv_repr_cur_le v k Hv).
  unfold push_cap in *.
  destruct (Z.leb_spec (vector_max_size v) (cur_size v)); lia.
Qed.

Lemma push_all_repr l : forall v k,
  fv_repr v k -> push_cap (vector_max_size v) ->
  Z.of_nat (length k + length l) <= FV_PUSH_LIMIT ->
  exists v', push_all v l = Some v' /\ fv_repr v' (k ++ l).
Proof.
  induction l as [|x l IH]; intros v k Hv Hcap Hlen; simpl in *.
  { rewrite app_nil_r. eauto. }
  destruct (push_back_cap v k x) as (v' & -> & Hv' & Hcap'); [done..|lia|]. simpl.
  destruct (IH v' (k ++ [x])) as (v'' & -> & Hv'');
    [done..|rewrite length_app; simpl; lia|].
  rewrite <- app_assoc in Hv''. eauto.
Qed.

End FastVectorOps.

(** ** Properties *)

(** [FastVector] refines the list of the values pushed: starting from the
    constructor, any sequence of at most two thousand million [push_back] calls
    is free of undefined behaviour (the capacity never overflows [int] and every
    write falls in the block), and afterwards [size] and [operator[]] give the
    length and the elements of that list. *)
Theorem push_back_refines {T} (alloc : Z -> bool) (l : list T)
    (Halloc : forall n, alloc n = true)
    (Hlen : Z.of_nat (length l) <= FV_PUSH_LIMIT) :
  exists v0 v, fv_new alloc = Some v0 /\ push_all alloc v0 l = Some v /\
    elems v = l /\ size v = Z.of_nat (length l) /\
    (forall i, (i < length l)%nat -> fv_at v (Z.of_nat i) = l !! i).
Proof.
  destruct (@fv_new_repr T alloc Halloc) as (v0 & Hnew & Hv0).
  assert (vector_max_size v0 = 200) as Hmax.
  { unfold fv_new, fv_malloc in Hnew. rewrite Halloc in Hnew.
    by simplify_option_eq. }
  destruct (push_all_repr alloc Halloc l v0 []) as (v & Hall & Hv);
    [done|rewrite Hmax; by left|done|].
  exists v0, v. split_and!; try done.
  - by apply fv_repr_elems.
  - apply (fv_cur v l Hv).
  - intros i Hi. by apply fv_at_repr.
Qed.

Lemma push_back_refines_witness :
  exists v0 v : FastVector nat,
    fv_new (fun _ => true) = Some v0 /\
    push_all (fun _ => true) v0 [7; 8; 9]%nat = Some v /\
    elems v = [7; 8; 9]%nat /\ size v = 3 /\
    (forall i, (i < 3)%nat -> fv_at v (Z.of_nat i) = [7; 8; 9]%nat !! i).
Proof.
  apply (push_back_refines (fun _ => true) [7; 8; 9]%nat);
    [reflexivity|vm_compute; discriminate].
Defined.
