(* ===== verification/Metadata.v ===== *)
(** * Trace entries and the functions that record them

    [include/pmtest.hh] declares the entry of a trace, [struct Metadata]; the
    functions [C_createMetadata_*] of [src/pmtest.cc] allocate one, fill it and
    push its address on the vector of the running trace.  Objects made by [new]
    live in a heap (a list; an address is an index), and the trace is a
    [FastVector] of addresses.  The fields a function leaves untouched keep the
    indeterminate contents [m0] of the fresh object.

    The theorems: what a recorded entry holds (the last 48 characters of the
    file name, the size modulo 2^32), that the tracking switch
    [existVeriInstance] decides whether anything is recorded, and that a
    sequence of calls yields exactly the corresponding sequence of entries. *)

From Stdlib Require Import Ascii.
From stdpp Require Import strings.
From S2P Require Import Prelude FastVector.

Inductive MetadataType :=
  | _ASSIGN | _FLUSH | _COMMIT | _BARRIER | _FENCE
  | _PERSIST | _ORDER
  | _TRANSACTIONDELIM | _ENDING
  | _TRANSACTIONBEGIN | _TRANSACTIONEND | _TRANSACTIONADD
  | _EXCLUDE | _INCLUDE.

#[global] Instance MetadataType_eq_dec : EqDecision MetadataType.
Proof. solve_decision. Defined.

Definition FILENAME_LEN : Z := 48.

Record Metadata := mkMetadata {
  addr : Z;
  addr_late : Z;
  type : MetadataType;
  msize : Z;
  size_late : Z;
  line_num : Z;
  file_name : list ascii;
}.

(** ** The file name stored in an entry *)

Definition NUL : ascii := Ascii.zero.

(** A C string is the list of its characters before the terminating [NUL]. *)
Definition c_string (s : list ascii) : Prop := NUL ∉ s.

(** [strncpy(dst, src, n)] on a whole array of [n] characters. *)
Definition strncpy (src : list ascii) (n : Z) : list ascii :=
  take (Z.to_nat n) (src ++ replicate (Z.to_nat n) NUL).

(** [file_offset = strlen(file_name) - FILENAME_LEN;
    strncpy(m->file_name, file_name + (file_offset>0 ? file_offset : 0),
    FILENAME_LEN)]. *)
Definition store_file_name (name : list ascii) : list ascii :=
  let file_offset := i32 (u64 (Z.of_nat (length name) - FILENAME_LEN)) in
  strncpy (drop (Z.to_nat (if 0 <? file_offset then file_offset else 0)) name)
    FILENAME_LEN.

(** What [printf("%s")] prints of a character array. *)
Fixpoint printed (s : list ascii) : list ascii :=
  match s with
  | [] => []
  | c :: s' => if decide (c = NUL) then [] else c :: printed s'
  end.

(** [char filename_temp[FILENAME_LEN + 1]], filled by [strncpy] and terminated,
    as every report of the checker prints it. *)
Definition filename_temp (m : Metadata) : list ascii :=
  printed (strncpy (file_name m) FILENAME_LEN ++ [NUL]).

(** ** Filling an entry *)

Definition set_type (t : MetadataType) (m : Metadata) : Metadata :=
  mkMetadata (addr m) (addr_late m) t (msize m) (size_late m) (line_num m) (file_name m).
Definition set_range (a sz : Z) (m : Metadata) : Metadata :=
  mkMetadata a (addr_late m) (type m) (u32 sz) (size_late m) (line_num m) (file_name m).
Definition set_range_late (a sz : Z) (m : Metadata) : Metadata :=
  mkMetadata (addr m) a (type m) (msize m) (u32 sz) (line_num m) (file_name m).
Definition set_location (name : list ascii) (line : Z) (m : Metadata) : Metadata :=
  mkMetadata (addr m) (addr_late m) (type m) (msize m) (size_late m) line
    (store_file_name name).

(** ** Recording *)

(** The state a recording thread works on: its switch, the objects allocated
    so far and the vector [metadataPtr] points to. *)
Record recorder := mkRecorder {
  existVeriInstance : bool;
  heap : list Metadata;
  metadata_vector : FastVector nat;
}.

Section Recording.
Context (alloc : Z -> bool).

(** [Metadata *m = new Metadata; ...; metadata_vector->push_back(m)]. *)
Definition record_new (m : Metadata) (r : recorder) : option recorder :=
  v ← push_back alloc (metadata_vector r) (length (heap r));
  Some (mkRecorder (existVeriInstance r) (heap r ++ [m]) v).

Definition C_createMetadata_Assign (m0 : Metadata) (a sz : Z) (name : list ascii)
    (line : Z) (r : recorder) : option recorder :=
  if existVeriInstance r then
    record_new (set_location name line (set_range a sz (set_type _ASSIGN m0))) r
  else Some r.

Definition C_createMetadata_Flush (m0 : Metadata) (a sz : Z) (name : list ascii)
    (line : Z) (r : recorder) : option recorder :=
  if existVeriInstance r then
    record_new (set_location name line (set_range a sz (set_type _FLUSH m0))) r
  else Some r.

Definition C_createMetadata_Commit (m0 : Metadata) (name : list ascii)
    (line : Z) (r : recorder) : option recorder :=
  if existVeriInstance r then
    record_new (set_location name line (set_type _COMMIT m0)) r
  else Some r.

Definition C_createMetadata_Barrier (m0 : Metadata) (name : list ascii)
    (line : Z) (r : recorder) : option recorder :=
  if existVeriInstance r then
    record_new (set_location name line (set_type _BARRIER m0)) r
  else Some r.

Definition C_createMetadata_Fence (m0 : Metadata) (name : list ascii)
    (line : Z) (r : recorder) : option recorder :=
  if existVeriInstance r then
    record_new (set_location name line (set_type _FENCE m0)) r
  else Some r.

Definition C_createMetadata_Persist (m0 : Metadata) (a sz : Z) (name : list ascii)
    (line : Z) (r : recorder) : option recorder :=
  if existVeriInstance r then
    record_new (set_location name line (set_range a sz (set_type _PERSIST m0))) r
  else Some r.

Definition C_createMetadata_Order (m0 : Metadata) (a sz a_late sz_late : Z)
    (name : list ascii) (line : Z) (r : recorder) : option recorder :=
  if existVeriInstance r then
    record_new (set_location name line (set_range_late a_late sz_late
      (set_range a sz (set_type _ORDER m0)))) r
  else Some r.

Definition C_createMetadata_TransactionBegin (m0 : Metadata) (name : list ascii)
    (line : Z) (r : recorder) : option recorder :=
  if existVeriInstance r then
    record_new (set_location name line (set_type _TRANSACTIONBEGIN m0)) r
  else Some r.

Definition C_createMetadata_TransactionEnd (m0 : Metadata) (name : list ascii)
    (line : Z) (r : recorder) : option recorder :=
  if existVeriInstance r then
    record_new (set_location name line (set_type _TRANSACTIONEND m0)) r
  else Some r.

Definition C_createMetadata_TransactionAdd (m0 : Metadata) (a sz : Z)
    (name : list ascii) (line : Z) (r : recorder) : option recorder :=
  if existVeriInstance r then
    record_new (set_location name line (set_range a sz (set_type _TRANSACTIONADD m0))) r
  else Some r.

(** The bodies of the next two are compiled only with [PMTEST_EXCLUDE]. *)
Definition C_createMetadata_Exclude (PMTEST_EXCLUDE : bool) (m0 : Metadata) (a sz : Z)
    (name : list ascii) (line : Z) (r : recorder) : option recorder :=
  if PMTEST_EXCLUDE && existVeriInstance r then
    record_new (set_location name line (set_range a sz (set_type _EXCLUDE m0))) r
  else Some r.

Definition C_createMetadata_Include (PMTEST_EXCLUDE : bool) (m0 : Metadata) (a sz : Z)
    (name : list ascii) (line : Z) (r : recorder) : option recorder :=
  if PMTEST_EXCLUDE && existVeriInstance r then
    record_new (set_location name line (set_range a sz (set_type _INCLUDE m0))) r
  else Some r.

(** The interface macros of [include/global.h]; [__FILE__] and [__LINE__] are
    the last two arguments. *)
Inductive api :=
  | PMTest_START
  | PMTest_END
  | PMTest_CHECKER_START (f : list ascii) (l : Z)
  | PMTest_CHECKER_END (f : list ascii) (l : Z)
  | PMTest_transactionAdd (a sz : Z) (f : list ascii) (l : Z)
  | PMTest_assign (a sz : Z) (f : list ascii) (l : Z)
  | PMTest_flush (a sz : Z) (f : list ascii) (l : Z)
  | PMTest_commit (f : list ascii) (l : Z)
  | PMTest_barrier (f : list ascii) (l : Z)
  | PMTest_fence (f : list ascii) (l : Z)
  | PMTest_isPersistent (a sz : Z) (f : list ascii) (l : Z)
  | PMTest_isPersistedBefore (a sz b szb : Z) (f : list ascii) (l : Z)
  | PMTest_exclude (a sz : Z) (f : list ascii) (l : Z)
  | PMTest_include (a sz : Z) (f : list ascii) (l : Z).

(** One macro call; [m0] is the indeterminate object a [new] in it returns. *)
Definition exec_api (PMTEST_EXCLUDE : bool) (m0 : Metadata) (c : api) (r : recorder) :
    option recorder :=
  match c with
  | PMTest_START => Some (mkRecorder true (heap r) (metadata_vector r))
  | PMTest_END => Some (mkRecorder false (heap r) (metadata_vector r))
  | PMTest_CHECKER_START f l => C_createMetadata_TransactionBegin m0 f l r
  | PMTest_CHECKER_END f l => C_createMetadata_TransactionEnd m0 f l r
  | PMTest_transactionAdd a sz f l => C_createMetadata_TransactionAdd m0 a sz f l r
  | PMTest_assign a sz f l => C_createMetadata_Assign m0 a sz f l r
  | PMTest_flush a sz f l => C_createMetadata_Flush m0 a sz f l r
  | PMTest_commit f l => C_createMetadata_Commit m0 f l r
  | PMTest_barrier f l => C_createMetadata_Barrier m0 f l r
  | PMTest_fence f l => C_createMetadata_Fence m0 f l r
  | PMTest_isPersistent a sz f l => C_createMetadata_Persist m0 a sz f l r
  | PMTest_isPersistedBefore a sz b szb f l =>
      C_createMetadata_Order m0 a sz b szb f l r
  | PMTest_exclude a sz f l => C_createMetadata_Exclude PMTEST_EXCLUDE m0 a sz f l r
  | PMTest_include a sz f l => C_createMetadata_Include PMTEST_EXCLUDE m0 a sz f l r
  end.

Fixpoint exec_calls (PMTEST_EXCLUDE : bool) (cs : list (Metadata * api)) (r : recorder) :
    option recorder :=
  match cs with
  | [] => Some r
  | (m0, c) :: cs' =>
      r' ← exec_api PMTEST_EXCLUDE m0 c r; exec_calls PMTEST_EXCLUDE cs' r'
  end.

End Recording.

(** ** What a call records *)

(** The specification of a call: the entry it adds while tracking is on. *)
Definition api_entry (PMTEST_EXCLUDE : bool) (m0 : Metadata) (c : api) : option Metadata :=
  match c with
  | PMTest_START | PMTest_END => None
  | PMTest_CHECKER_START f l => Some (set_location f l (set_type _TRANSACTIONBEGIN m0))
  | PMTest_CHECKER_END f l => Some (set_location f l (set_type _TRANSACTIONEND m0))
  | PMTest_transactionAdd a sz f l =>
      Some (set_location f l (set_range a sz (set_type _TRANSACTIONADD m0)))
  | PMTest_assign a sz f l =>
      Some (set_location f l (set_range a sz (set_type _ASSIGN m0)))
  | PMTest_flush a sz f l =>
      Some (set_location f l (set_range a sz (set_type _FLUSH m0)))
  | PMTest_commit f l => Some (set_location f l (set_type _COMMIT m0))
  | PMTest_barrier f l => Some (set_location f l (set_type _BARRIER m0))
  | PMTest_fence f l => Some (set_location f l (set_type _FENCE m0))
  | PMTest_isPersistent a sz f l =>
      Some (set_location f l (set_range a sz (set_type _PERSIST m0)))
  | PMTest_isPersistedBefore a sz b szb f l =>
      Some (set_location f l (set_range_late b szb (set_range a sz (set_type _ORDER m0))))
  | PMTest_exclude a sz f l =>
      if PMTEST_EXCLUDE
      then Some (set_location f l (set_range a sz (set_type _EXCLUDE m0))) else None
  | PMTest_include a sz f l =>
      if PMTEST_EXCLUDE
      then Some (set_location f l (set_range a sz (set_type _INCLUDE m0))) else None
  end.

(** The switch after a call. *)
Definition api_switch (c : api) (on : bool) : bool :=
  match c with PMTest_START => true | PMTest_END => false | _ => on end.

(** The entries a sequence of calls records, starting with the switch at [on]. *)
Fixpoint recorded (PMTEST_EXCLUDE : bool) (on : bool) (cs : list (Metadata * api)) :
    list Metadata :=
  match cs with
  | [] => []
  | (m0, c) :: cs' =>
      (if on then option_list (api_entry PMTEST_EXCLUDE m0 c) else [])
      ++ recorded PMTEST_EXCLUDE (api_switch c on) cs'
  end.

(** A recorder whose vector holds, in order, the addresses of all its objects. *)
Definition recorder_wf (r : recorder) : Prop :=
  fv_repr (metadata_vector r) (seq 0 (length (heap r))) /\
  push_cap (vector_max_size (metadata_vector r)).


(** ** Lemmas *)

Lemma printed_app_NUL s t : c_string s -> printed (s ++ NUL :: t) = s.
Proof.
  unfold c_string. induction s as [|c s IH]; intros Hs; [done|].
  simpl. rewrite not_elem_of_cons in Hs. destruct Hs as [Hc Hs].
  rewrite decide_False by congruence. by rewrite IH.
Qed.

Lemma strncpy_length s n : length (strncpy s n) = Z.to_nat n.
Proof.
  unfold strncpy. rewrite length_take, length_app, length_replicate. lia.
Qed.

(** A name that fits is padded with [NUL]s. *)
Lemma strncpy_short s n :
  Z.of_nat (length s) <= n ->
  strncpy s n = s ++ replicate (Z.to_nat n - length s) NUL.
Proof.
  intros H. unfold strncpy. rewrite take_app_ge by lia.
  by rewrite take_replicate, Nat.min_l by lia.
Qed.

Lemma strncpy_exact s n : Z.to_nat n = length s -> strncpy s n = s.
Proof. intros H. unfold strncpy. by rewrite take_app_length'. Qed.

(** The part of a path kept in an entry. *)
Definition kept_name (name : list ascii) : list ascii :=
  drop (length name - Z.to_nat FILENAME_LEN) name.

Lemma kept_name_length name : Z.of_nat (length (kept_name name)) <= FILENAME_LEN.
Proof. unfold kept_name, FILENAME_LEN. rewrite length_drop. lia. Qed.

Lemma store_file_name_kept name :
  Z.of_nat (length name) < 2 ^ 31 ->
  store_file_name name = strncpy (kept_name name) FILENAME_LEN.
Proof.
  intros Hlen. unfold store_file_name, kept_name. f_equal. f_equal.
  unfold FILENAME_LEN in *.
  destruct (Z.leb_spec 48 (Z.of_nat (length name))) as [H|H].
  - rewrite u64_small, i32_small by lia. destruct (Z.ltb_spec 0 (Z.of_nat (length name) - 48)); lia.
  - replace (i32 (u64 (Z.of_nat (length name) - 48))) with (Z.of_nat (length name) - 48).
    + destruct (Z.ltb_spec 0 (Z.of_nat (length name) - 48)); lia.
    + unfold i32, u64.
      rewrite <- (Z.mod_unique (Z.of_nat (length name) - 48) (2 ^ 64) (-1)
        (Z.of_nat (length name) - 48 + 2 ^ 64)) by lia.
      replace (Z.of_nat (length name) - 48 + 2 ^ 64 + 2 ^ 31)
        with (Z.of_nat (length name) - 48 + 2 ^ 31 + 2 ^ 32 * 2 ^ 32) by lia.
      rewrite Z_mod_plus_full, Z.mod_small; lia.
Qed.

Lemma kept_name_c_string name : c_string name -> c_string (kept_name name).
Proof.
  unfold c_string, kept_name. intros H Hin. apply H.
  rewrite <- (take_drop (length name - Z.to_nat FILENAME_LEN) name).
  rewrite elem_of_app. by right.
Qed.

Lemma filename_temp_kept m name :
  c_string name -> Z.of_nat (length name) < 2 ^ 31 ->
  file_name m = store_file_name name -> filename_temp m = kept_name name.
Proof.
  intros Hname Hlen Hm. unfold filename_temp.
  rewrite Hm, store_file_name_kept by done.
  rewrite (strncpy_exact (strncpy _ _)) by (by rewrite strncpy_length).
  rewrite strncpy_short by apply kept_name_length.
  rewrite <- app_assoc.
  destruct (Z.to_nat FILENAME_LEN - length (kept_name name))%nat; simpl;
    by apply printed_app_NUL, kept_name_c_string.
Qed.

Section RecordingLemmas.
Context (alloc : Z -> bool) (alloc_ok : forall n, alloc n = true).

Lemma record_new_spec m r :
  recorder_wf r -> Z.of_nat (length (heap r)) < FV_PUSH_LIMIT ->
  exists r', record_new alloc m r = Some r' /\ recorder_wf r' /\
    heap r' = heap r ++ [m] /\ existVeriInstance r' = existVeriInstance r.
Proof.
  intros [Hv Hcap] Hlen. unfold record_new.
  destruct (push_back_cap alloc alloc_ok _ _ (length (heap r)) Hv Hcap)
    as (v & -> & Hv' & Hcap'); [by rewrite length_seq|].
  eexists. split; [done|]. split_and!; try done. split; [|done]. simpl.
  by rewrite length_app, Nat.add_1_r, seq_S.
Qed.

(** Every function of the interface meets its specification [api_entry]. *)
Lemma exec_api_spec ex m0 c r :
  recorder_wf r -> Z.of_nat (length (heap r)) < FV_PUSH_LIMIT ->
  exists r', exec_api alloc ex m0 c r = Some r' /\ recorder_wf r' /\
    heap r' = heap r ++
      (if existVeriInstance r then option_list (api_entry ex m0 c) else []) /\
    existVeriInstance r' = api_switch c (existVeriInstance r).
Proof.
  intros Hr Hlen.
  assert (forall m,
    exists r', (if existVeriInstance r then record_new alloc m r else Some r) = Some r' /\
      recorder_wf r' /\
      heap r' = heap r ++ (if existVeriInstance r then [m] else []) /\
      existVeriInstance r' = existVeriInstance r) as Hrec.
  { intros m. destruct (existVeriInstance r) eqn:E.
    - destruct (record_new_spec m r Hr Hlen) as (r' & ? & ? & ? & ?).
      exists r'. by rewrite <- E.
    - exists r. by rewrite app_nil_r. }
  destruct c; try apply Hrec.
  1, 2: eexists; split; [done|]; split; [exact Hr|];
    by destruct (existVeriInstance r); rewrite app_nil_r.
  all: destruct ex; [apply Hrec|]; exists r; split; [done|];
    by destruct (existVeriInstance r); rewrite app_nil_r.
Qed.

Lemma exec_calls_spec ex cs : forall r,
  recorder_wf r -> Z.of_nat (length (heap r) + length cs) <= FV_PUSH_LIMIT ->
  exists r', exec_calls alloc ex cs r = Some r' /\ recorder_wf r' /\
    heap r' = heap r ++ recorded ex (existVeriInstance r) cs.
Proof.
  induction cs as [|[m0 c] cs IH]; intros r Hr Hlen; simpl in *.
  { exists r. by rewrite app_nil_r. }
  destruct (exec_api_spec ex m0 c r Hr) as (r1 & -> & Hr1 & Hheap & Hsw); [lia|].
  simpl. destruct (IH r1 Hr1) as (r2 & -> & Hr2 & Hheap2).
  - rewrite Hheap, length_app.
    destruct (existVeriInstance r); simpl; [|lia].
    destruct (api_entry ex m0 c); simpl; lia.
  - exists r2. split_and!; [done..|].
    by rewrite Hheap2, Hheap, Hsw, <- app_assoc.
Qed.

End RecordingLemmas.

(** ** Properties *)

(** Recording is exact.  From a recorder just created, any sequence of
    interface calls leaves a trace whose entries are, in order, those of the
    calls made while tracking was on ([PMTest_START] and [PMTest_END] move the
    switch), for as many calls as the vector can hold. *)
Theorem recording_exact (alloc : Z -> bool) (ex on : bool)
    (cs : list (Metadata * api)) (v0 : FastVector nat)
    (Halloc : forall n, alloc n = true)
    (Hnew : fv_new alloc = Some v0)
    (Hlen : Z.of_nat (length cs) <= FV_PUSH_LIMIT) :
  exists r, exec_calls alloc ex cs (mkRecorder on [] v0) = Some r /\
    ((fun p => heap r !! p) <$> elems (metadata_vector r)) =
      Some <$> recorded ex on cs.
Proof.
  destruct (@fv_new_repr nat alloc Halloc) as (v & Hv & Hrepr).
  assert (v = v0) as -> by congruence.
  destruct (exec_calls_spec alloc Halloc ex cs (mkRecorder on [] v0))
    as (r & Hr & [Hrv _] & Hheap); [|simpl; lia|].
  { split; [done|]. unfold fv_new, fv_malloc in Hnew. rewrite Halloc in Hnew.
    simplify_option_eq. by left. }
  exists r. split; [done|]. simpl in Hheap.
  rewrite (fv_repr_elems _ _ Hrv), <- Hheap.
  apply list_eq. intros i. rewrite !list_lookup_fmap.
  destruct (decide (i < length (heap r))%nat) as [Hi|Hi].
  - rewrite lookup_seq_lt by done. simpl.
    destruct (lookup_lt_is_Some_2 (heap r) i Hi) as [m ->]. done.
  - rewrite lookup_seq_ge by lia. simpl.
    by rewrite (proj2 (lookup_ge_None (heap r) i)) by lia.
Qed.

Definition meta0 : Metadata := mkMetadata 0 0 _ENDING 0 0 0 [].

Lemma recording_exact_witness :
  exists v0, fv_new (fun _ => true) = Some v0 /\
  exists r,
    exec_calls (fun _ => true) true
      [(meta0, PMTest_assign 16 4 [] 1); (meta0, PMTest_START);
       (meta0, PMTest_assign 20 4 [] 2); (meta0, PMTest_fence [] 3);
       (meta0, PMTest_END); (meta0, PMTest_flush 20 4 [] 4)]
      (mkRecorder false [] v0) = Some r /\
    ((fun p => heap r !! p) <$> elems (metadata_vector r)) =
      [Some (set_location [] 2 (set_range 20 4 (set_type _ASSIGN meta0)));
       Some (set_location [] 3 (set_type _FENCE meta0))].
Proof.
  eexists. split; [reflexivity|].
  apply (recording_exact (fun _ => true) true false);
    [reflexivity|reflexivity|vm_compute; discriminate].
Defined.

(** What a report can say about its origin: for a source path (shorter
    than 2^31 characters) the name printed by the checker for an entry is its
    last 48 characters, whole if the path is not longer. *)
Theorem reported_name (name : list ascii) (line : Z) (m0 : Metadata)
    (Hname : c_string name) (Hlen : Z.of_nat (length name) < 2 ^ 31) :
  filename_temp (set_location name line m0) =
    drop (length name - Z.to_nat FILENAME_LEN) name /\
  line_num (set_location name line m0) = line.
Proof. split; [|done]. by apply filename_temp_kept. Qed.

Lemma reported_name_witness :
  filename_temp (set_location (replicate 50 "a"%char) 7 meta0) =
    replicate 48 "a"%char /\
  line_num (set_location (replicate 50 "a"%char) 7 meta0) = 7.
Proof.
  apply (reported_name (replicate 50 "a"%char) 7 meta0).
  - unfold c_string. rewrite elem_of_replicate. intros [[=] _].
  - vm_compute. reflexivity.
Defined.
