(* ===== verification/Checker.v ===== *)
(** * The checking engine: [VeriProc] of [src/pmtest.cc]

    [PMTest::VeriProc] runs over one trace and reports violations.  Its local
    variables are the fields of [VeriState]; each [VeriProc_*] function is a
    definition that returns the C result, the new state and what it prints.
    The entries of the trace are shared objects: [VeriProc_TransactionEnd]
    overwrites the type of the entries it checks, so the store of entries is
    part of the state and the trace is a list of addresses into it.

    [VeriProc] itself processes the trace in frames that end at a [_FENCE],
    with the last frame handled apart; [run] is the specification: one pass
    over the entries' values, in which the flushes after the last fence are
    left out. *)

From Stdlib Require Import Ascii.
From stdpp Require Import strings.
From S2P Require Import Prelude Intervals Metadata.

(** The two macros that change the code of the checker. *)
Record config := mkConfig { PMTEST_EXCLUDE : bool; PMTEST_WARN : bool }.

(** What the checker prints. *)
Inductive report :=
  | AssignError (file : list ascii) (line lo hi : Z)
  | FlushWarning (file : list ascii) (line lo hi : Z)
  | PersistError (file : list ascii) (line lo hi : Z)
  | OrderError (file : list ascii) (line lo hi lo_late hi_late : Z)
  | OrderUnassigned (file : list ascii) (line : Z)
  | TransactionAddWarning (file : list ascii) (line lo hi : Z)
  | TransactionEndError.

(** Messages that say the program under test is wrong, as opposed to slow. *)
Definition is_error (r : report) : bool :=
  match r with
  | FlushWarning _ _ _ _ | TransactionAddWarning _ _ _ _ => false
  | _ => true
  end.

(** ** Timestamps: a negative one stands for "at least" *)

Definition timestamp_atleast (t : Z) : Z := if 0 <=? t then - t else t.
Definition timestamp_exactly (t : Z) : Z := if t <=? 0 then - t else t.
Definition timestamp_isexacttime (t : Z) : bool := 0 <=? t.

(** [size_t startaddr = addr, endaddr = startaddr + size;
    right_open(startaddr, endaddr)]. *)
Definition addrinterval (a sz : Z) : interval := right_open a (u64 (a + sz)).

(** ** The state of one run; [P] is the type of the elements kept in
    [TransactionPersistInfo]: addresses in the code, entries in the
    specification. *)

Record VeriState (S M P : Type) := mkVeriState {
  ExcludeInfo : S;
  PersistInfo : S;
  TransactionAddInfo : S;
  OrderInfo : M;
  TransactionPersistInfo : list P;
  timestamp : Z;
  transactionCount : Z;
}.
Arguments mkVeriState {S M P} _ _ _ _ _ _ _.
Arguments ExcludeInfo {S M P} _.
Arguments PersistInfo {S M P} _.
Arguments TransactionAddInfo {S M P} _.
Arguments OrderInfo {S M P} _.
Arguments TransactionPersistInfo {S M P} _.
Arguments timestamp {S M P} _.
Arguments transactionCount {S M P} _.

Section Checker.
Context {S M : Type} `{!IclSet S} `{!IclMap M} (cfg : config).

Section Functions.
Context {P : Type}.
Local Abbreviation state := (VeriState S M P).

(** [it = ExcludeInfo.find(...); it != ExcludeInfo.end()] under
    [#ifdef PMTEST_EXCLUDE]. *)
Definition excluded (st : state) (I : interval) : bool :=
  PMTEST_EXCLUDE cfg && bool_decide (is_Some (iset_find (ExcludeInfo st) I)).

Definition VeriProc_Assign (p : P) (cur : Metadata) (st : state) :
    Z * state * list report :=
  if 0 <? msize cur then
    let I := addrinterval (addr cur) (msize cur) in
    if excluded st I then (-2, st, []) else
    let st1 := mkVeriState (ExcludeInfo st) (iset_add (PersistInfo st) I)
      (TransactionAddInfo st)
      (imap_set (OrderInfo st) I (timestamp_atleast (timestamp st)))
      (if 0 <? transactionCount st
       then TransactionPersistInfo st ++ [p] else TransactionPersistInfo st)
      (timestamp st) (transactionCount st) in
    if (0 <? transactionCount st) &&
       bool_decide (iset_find (TransactionAddInfo st) I = None)
    then (-1, st1,
      [AssignError (filename_temp cur) (line_num cur) (lower I) (upper I)])
    else (0, st1, [])
  else (0, st, []).

Definition VeriProc_Flush (cur : Metadata) (st : state) : Z * state * list report :=
  if 0 <? msize cur then
    let I := addrinterval (addr cur) (msize cur) in
    if excluded st I then (-2, st, []) else
    let clean := PMTEST_WARN cfg &&
      bool_decide (iset_find (PersistInfo st) I = None) in
    let st1 := mkVeriState (ExcludeInfo st)
      (if clean then PersistInfo st else iset_sub (PersistInfo st) I)
      (TransactionAddInfo st)
      (imap_set (OrderInfo st) I (timestamp_exactly (timestamp st)))
      (TransactionPersistInfo st) (timestamp st) (transactionCount st) in
    (0, st1,
      if clean
      then [FlushWarning (filename_temp cur) (line_num cur) (lower I) (upper I)]
      else [])
  else (0, st, []).

Definition VeriProc_Fence (st : state) : Z * state * list report :=
  (0, mkVeriState (ExcludeInfo st) (PersistInfo st) (TransactionAddInfo st)
        (OrderInfo st) (TransactionPersistInfo st) (timestamp st + 1)
        (transactionCount st), []).

(** Reads only the two sets, so its callers see no change of state. *)
Definition VeriProc_Persist (cur : Metadata) (st : state) : Z * list report :=
  if 0 <? msize cur then
    let I := addrinterval (addr cur) (msize cur) in
    if excluded st I then (-2, []) else
    match iset_find (PersistInfo st) I with
    | Some J =>
        let K := interval_meet I J in
        (-1, [PersistError (filename_temp cur) (line_num cur) (lower K) (upper K)])
    | None => (0, [])
    end
  else (0, []).

(** The loop over [intersec]: the largest timestamp, or [INT_MAX] as soon as
    one is not exact. *)
Fixpoint order_early_max (l : list (interval * Z)) (early_max : Z) : Z :=
  match l with
  | [] => early_max
  | (_, t) :: l' =>
      if timestamp_isexacttime t then order_early_max l' (Z.max early_max t)
      else INT_MAX
  end.

(** The loop over [intersec_late]. *)
Fixpoint order_late_min (l : list (interval * Z)) (late_min : Z) : Z :=
  match l with
  | [] => late_min
  | (_, t) :: l' => order_late_min l' (Z.min late_min (timestamp_exactly t))
  end.

Definition VeriProc_Order (cur : Metadata) (st : state) : Z * list report :=
  if (0 <? msize cur) && (0 <? size_late cur) then
    let I := addrinterval (addr cur) (msize cur) in
    let I_late := addrinterval (addr_late cur) (size_late cur) in
    if excluded st I then (-2, []) else
    if excluded st I_late then (-2, []) else
    if imap_within I (OrderInfo st) && imap_within I_late (OrderInfo st) then
      let early_max := order_early_max (imap_cut I (OrderInfo st)) 0 in
      let late_min := order_late_min (imap_cut I_late (OrderInfo st)) INT_MAX in
      if late_min <=? early_max then
        (-1, [OrderError (filename_temp cur) (line_num cur)
                (addr cur) (u64 (addr cur + msize cur))
                (addr_late cur) (u64 (addr_late cur + size_late cur))])
      else (0, [])
    else (-1, [OrderUnassigned (filename_temp cur) (line_num cur)])
  else (0, []).

Definition VeriProc_TransactionBegin (st : state) : state :=
  mkVeriState (ExcludeInfo st) (PersistInfo st) (TransactionAddInfo st) (OrderInfo st)
    (if transactionCount st =? 0 then [] else TransactionPersistInfo st)
    (timestamp st) (transactionCount st + 1).

Definition VeriProc_TransactionAdd (cur : Metadata) (st : state) : state * list report :=
  if 0 <? transactionCount st then
    if 0 <? msize cur then
      let I := addrinterval (addr cur) (msize cur) in
      let dup := PMTEST_WARN cfg &&
        bool_decide (is_Some (iset_find (TransactionAddInfo st) I)) in
      (mkVeriState (ExcludeInfo st) (PersistInfo st)
         (iset_add (TransactionAddInfo st) I) (OrderInfo st)
         (TransactionPersistInfo st) (timestamp st) (transactionCount st),
       if dup
       then [TransactionAddWarning (filename_temp cur) (line_num cur) (lower I) (upper I)]
       else [])
    else (st, [])
  else (st, []).

Definition VeriProc_Exclude (cur : Metadata) (st : state) : state :=
  if 0 <? msize cur then
    mkVeriState (iset_add (ExcludeInfo st) (addrinterval (addr cur) (msize cur)))
      (PersistInfo st) (TransactionAddInfo st) (OrderInfo st)
      (TransactionPersistInfo st) (timestamp st) (transactionCount st)
  else st.

Definition VeriProc_Include (cur : Metadata) (st : state) : state :=
  if 0 <? msize cur then
    mkVeriState (iset_sub (ExcludeInfo st) (addrinterval (addr cur) (msize cur)))
      (PersistInfo st) (TransactionAddInfo st) (OrderInfo st)
      (TransactionPersistInfo st) (timestamp st) (transactionCount st)
  else st.

(** The state of a run before its first entry. *)
Definition VeriState_init : state :=
  mkVeriState iset_empty iset_empty iset_empty imap_empty [] 1 0.

(** The last test of [VeriProc]. *)
Definition VeriProc_final (st : state) : list report :=
  if 0 <? transactionCount st then [TransactionEndError] else [].

End Functions.

(** ** [VeriProc] over shared entries *)

Record run_state := mkRun {
  store : list Metadata;
  vstate : VeriState S M nat;
  printed_out : list report;
}.

(** The loop of [VeriProc_TransactionEnd] at the outermost level. *)
Fixpoint transaction_end_loop (ps : list nat) (store : list Metadata)
    (st : VeriState S M nat) : list Metadata * list report :=
  match ps with
  | [] => (store, [])
  | p :: ps' =>
      match store !! p with
      | Some m =>
          let m' := set_type _PERSIST m in
          let out := snd (VeriProc_Persist m' st) in
          let '(store', out') := transaction_end_loop ps' (<[p := m']> store) st in
          (store', out ++ out')
      | None => transaction_end_loop ps' store st
      end
  end.

Definition VeriProc_TransactionEnd (s : run_state) : run_state :=
  let st := vstate s in
  let st1 := mkVeriState (ExcludeInfo st) (PersistInfo st) (TransactionAddInfo st)
    (OrderInfo st) (TransactionPersistInfo st) (timestamp st)
    (transactionCount st - 1) in
  if transactionCount st1 =? 0 then
    let '(store', out) := transaction_end_loop (TransactionPersistInfo st) (store s) st1 in
    mkRun store' st1 (printed_out s ++ out)
  else mkRun (store s) st1 (printed_out s).

(** The [switch] of the two loops; [tail] is true in the second one, where
    [_FLUSH] does nothing. *)
Definition dispatch (tail : bool) (p : nat) (s : run_state) : run_state :=
  match store s !! p with
  | None => s
  | Some m =>
      let st := vstate s in
      let ret '(_, st', out) := mkRun (store s) st' (printed_out s ++ out) in
      match type m with
      | _ASSIGN => ret (VeriProc_Assign p m st)
      | _FLUSH => if tail then s else ret (VeriProc_Flush m st)
      | _FENCE => ret (VeriProc_Fence st)
      | _PERSIST => mkRun (store s) st (printed_out s ++ snd (VeriProc_Persist m st))
      | _ORDER => mkRun (store s) st (printed_out s ++ snd (VeriProc_Order m st))
      | _TRANSACTIONBEGIN =>
          mkRun (store s) (VeriProc_TransactionBegin st) (printed_out s)
      | _TRANSACTIONEND => VeriProc_TransactionEnd s
      | _TRANSACTIONADD =>
          let '(st', out) := VeriProc_TransactionAdd m st in
          mkRun (store s) st' (printed_out s ++ out)
      | _EXCLUDE => mkRun (store s) (VeriProc_Exclude m st) (printed_out s)
      | _INCLUDE => mkRun (store s) (VeriProc_Include m st) (printed_out s)
      | _COMMIT | _BARRIER | _TRANSACTIONDELIM | _ENDING => s
      end
  end.

(** [for (i = prev; i != cur; i++) switch (...)], as [n] iterations from
    [prev]. *)
Fixpoint frame_loop (tail : bool) (veriptr : list nat) (prev n : nat) (s : run_state) :
    run_state :=
  match n with
  | O => s
  | Datatypes.S n' =>
      match veriptr !! prev with
      | Some p => frame_loop tail veriptr (Datatypes.S prev) n' (dispatch tail p s)
      | None => s
      end
  end.

(** The outer loop from index [cur], with [n] entries left; it returns the
    final value of [prev] too. *)
Fixpoint fence_loop (veriptr : list nat) (prev cur n : nat) (s : run_state) :
    nat * run_state :=
  match n with
  | O => (prev, s)
  | Datatypes.S n' =>
      match veriptr !! cur ≫= (fun p => store s !! p) with
      | Some m =>
          if decide (type m = _FENCE)
          then fence_loop veriptr cur (Datatypes.S cur) n'
                 (frame_loop false veriptr prev (cur - prev) s)
          else fence_loop veriptr prev (Datatypes.S cur) n' s
      | None => (prev, s)
      end
  end.

Definition VeriProc (veriptr : list nat) (objects : list Metadata) : run_state :=
  let size := length veriptr in
  let '(prev, s) := fence_loop veriptr 0 0 size (mkRun objects VeriState_init []) in
  let s' := frame_loop true veriptr prev (size - prev) s in
  mkRun (store s') (vstate s') (printed_out s' ++ VeriProc_final (vstate s')).

(** ** The specification: one pass over the values of the entries *)

Local Abbreviation vst := (VeriState S M Metadata).

Definition end_reports (st : vst) : list report :=
  mbind (fun m => snd (VeriProc_Persist m st)) (TransactionPersistInfo st).

(** One entry; [late] says that no fence follows. *)
Definition step (late : bool) (m : Metadata) (st : vst) : vst * list report :=
  match type m with
  | _ASSIGN => let '(_, st', out) := VeriProc_Assign m m st in (st', out)
  | _FLUSH => if late then (st, [])
              else let '(_, st', out) := VeriProc_Flush m st in (st', out)
  | _FENCE => let '(_, st', out) := VeriProc_Fence st in (st', out)
  | _PERSIST => (st, snd (VeriProc_Persist m st))
  | _ORDER => (st, snd (VeriProc_Order m st))
  | _TRANSACTIONBEGIN => (VeriProc_TransactionBegin st, [])
  | _TRANSACTIONEND =>
      let st1 := mkVeriState (ExcludeInfo st) (PersistInfo st) (TransactionAddInfo st)
        (OrderInfo st) (TransactionPersistInfo st) (timestamp st)
        (transactionCount st - 1) in
      (st1, if transactionCount st1 =? 0 then end_reports st1 else [])
  | _TRANSACTIONADD => VeriProc_TransactionAdd m st
  | _EXCLUDE => (VeriProc_Exclude m st, [])
  | _INCLUDE => (VeriProc_Include m st, [])
  | _COMMIT | _BARRIER | _TRANSACTIONDELIM | _ENDING => (st, [])
  end.

(** A fence occurs in the rest of the trace. *)
Definition fence_ahead (tr : list Metadata) : bool :=
  existsb (fun m => bool_decide (type m = _FENCE)) tr.

Fixpoint run (tr : list Metadata) (st : vst) : vst * list report :=
  match tr with
  | [] => (st, [])
  | m :: tr' =>
      let '(st1, out) := step (negb (fence_ahead tr')) m st in
      let '(st2, out') := run tr' st1 in
      (st2, out ++ out')
  end.

Definition check (tr : list Metadata) : list report :=
  let '(st, out) := run tr VeriState_init in out ++ VeriProc_final st.

(** ** [VeriProc] refines the one-pass specification *)

(** An entry of the store against its original: only the type of an
    assignment may have become [_PERSIST]. *)
Definition same_entry (m' m : Metadata) : Prop :=
  m' = m \/ (type m = _ASSIGN /\ m' = set_type _PERSIST m).

(** The simulation between a run over addresses and one over values, when the
    entries at [rest] are still to come. *)
Record sim (objs : list Metadata) (rest : list nat) (s : run_state) (st : vst)
    (out : list report) : Prop := {
  sim_exclude : ExcludeInfo (vstate s) = ExcludeInfo st;
  sim_persist : PersistInfo (vstate s) = PersistInfo st;
  sim_add : TransactionAddInfo (vstate s) = TransactionAddInfo st;
  sim_order : OrderInfo (vstate s) = OrderInfo st;
  sim_time : timestamp (vstate s) = timestamp st;
  sim_count : transactionCount (vstate s) = transactionCount st;
  sim_tx : Forall2 (fun p m => objs !! p = Some m /\ type m = _ASSIGN)
    (TransactionPersistInfo (vstate s)) (TransactionPersistInfo st);
  sim_disjoint p : p ∈ TransactionPersistInfo (vstate s) -> p ∉ rest;
  sim_store p m : objs !! p = Some m ->
    exists m', store s !! p = Some m' /\ same_entry m' m;
  sim_rest p : p ∈ rest -> store s !! p = objs !! p;
  sim_out : printed_out s = out;
}.

Lemma VeriProc_Persist_congr {P Q} m m' (st : VeriState S M P) (st' : VeriState S M Q) :
  same_entry m' m ->
  ExcludeInfo st = ExcludeInfo st' -> PersistInfo st = PersistInfo st' ->
  VeriProc_Persist m' st = VeriProc_Persist m st'.
Proof.
  intros Hm Hex Hp. unfold VeriProc_Persist, excluded. rewrite Hex, Hp.
  by destruct Hm as [->|[_ ->]].
Qed.

Lemma same_entry_persist m' m :
  same_entry m' m -> type m = _ASSIGN -> same_entry (set_type _PERSIST m') m.
Proof. intros [->|[_ ->]] Ht; right; by destruct m. Qed.

(** The store after the loop of [VeriProc_TransactionEnd]. *)
Lemma transaction_end_loop_sim (objs : list Metadata) (st : VeriState S M nat) (st' : vst) ps ms :
  ExcludeInfo st = ExcludeInfo st' -> PersistInfo st = PersistInfo st' ->
  Forall2 (fun p m => objs !! p = Some m /\ type m = _ASSIGN) ps ms ->
  forall sto : list Metadata,
  (forall p m, objs !! p = Some m -> exists m', sto !! p = Some m' /\ same_entry m' m) ->
  exists sto' : list Metadata, transaction_end_loop ps sto st =
      (sto', mbind (fun m => snd (VeriProc_Persist m st')) ms) /\
    (forall p m, objs !! p = Some m -> exists m', sto' !! p = Some m' /\ same_entry m' m) /\
    (forall p, p ∉ ps -> sto' !! p = sto !! p).
Proof.
  intros Hex Hp Hps. induction Hps as [|p m ps ms [Hpm Htm] _ IH]; intros sto Hsto.
  { exists sto. split_and!; done. }
  simpl. destruct (Hsto p m Hpm) as (m' & Hm' & Hsame). rewrite Hm'.
  destruct (IH (<[p := set_type _PERSIST m']> sto)) as (sto' & Hloop & Hsto' & Hfr).
  - intros q mq Hq. destruct (decide (p = q)) as [<-|Hne].
    + rewrite list_lookup_insert_eq by (by eapply lookup_lt_Some).
      assert (mq = m) as -> by congruence.
      eexists. split; [done|]. by apply same_entry_persist.
    + rewrite list_lookup_insert_ne by done. auto.
  - rewrite Hloop. exists sto'. split_and!; [|done|].
    + do 3 f_equal. apply VeriProc_Persist_congr; [|done..].
      by apply same_entry_persist.
    + intros q Hq. rewrite not_elem_of_cons in Hq. destruct Hq as [Hne Hq].
      rewrite Hfr by done. by rewrite list_lookup_insert_ne by congruence.
Qed.

(** Moves to the shared fields of two related states. *)
Ltac sim_open H :=
  let sto := fresh "sto" in let out := fresh "out" in
  match type of H with
  | sim _ _ ?s ?st _ =>
      destruct s as [sto [? ? ? ? ? ? ?] out];
      destruct st as [? ? ? ? ? ? ?];
      destruct H; simpl in *; subst
  end.

Lemma sim_weaken objs p rest s st out : sim objs (p :: rest) s st out -> sim objs rest s st out.
Proof.
  intros []. split; try done.
  - intros q Hq Hin. apply (sim_disjoint0 q Hq). by right.
  - intros q Hq. apply sim_rest0. by right.
Qed.

Lemma dispatch_sim (objs : list Metadata) tail p rest m s st out :
  objs !! p = Some m -> p ∉ rest ->
  sim objs (p :: rest) s st out ->
  sim objs rest (dispatch tail p s)
    (fst (step tail m st)) (out ++ snd (step tail m st)).
Proof.
  intros Hpm Hfresh Hsim.
  assert (store s !! p = Some m) as Hs.
  { rewrite (sim_rest _ _ _ _ _ Hsim p) by left. done. }
  apply sim_weaken in Hsim.
  unfold dispatch. rewrite Hs. unfold step. destruct (type m) eqn:Ht.
  - (* _ASSIGN *)
    sim_open Hsim. unfold VeriProc_Assign, excluded; simpl.
    repeat case_match; simplify_eq/=; split; simpl; rewrite ?app_nil_r; try done.
    all: try (apply Forall2_app; [done|]; by repeat constructor).
    all: intros q [Hq|Hq%list_elem_of_singleton]%elem_of_app; [auto|by subst].
  - (* _FLUSH *)
    destruct tail; [by rewrite app_nil_r|].
    sim_open Hsim. unfold VeriProc_Flush, excluded; simpl.
    repeat case_match; simplify_eq/=; split; simpl; rewrite ?app_nil_r; done.
  - sim_open Hsim. rewrite ?app_nil_r. by split.
  - sim_open Hsim. rewrite ?app_nil_r. by split.
  - sim_open Hsim. rewrite ?app_nil_r. by split.
  - sim_open Hsim. by split.
  - sim_open Hsim. by split.
  - sim_open Hsim. rewrite ?app_nil_r. by split.
  - sim_open Hsim. rewrite ?app_nil_r. by split.
  - (* _TRANSACTIONBEGIN *)
    sim_open Hsim. rewrite ?app_nil_r. split; simpl; try done.
    + by case_match.
    + intros q. case_match; [by rewrite elem_of_nil|auto].
  - (* _TRANSACTIONEND *)
    unfold VeriProc_TransactionEnd, end_reports. sim_open Hsim.
    case_match; [|rewrite app_nil_r; by split].
    match goal with |- context [transaction_end_loop ?ps ?sto ?st1] =>
      match goal with |- context [VeriProc_Persist _ ?st2] =>
        destruct (transaction_end_loop_sim objs st1 st2 ps _ eq_refl eq_refl sim_tx0 sto sim_store0)
          as (sto' & -> & Hsto' & Hfr)
      end
    end.
    split; simpl; try done.
    intros q Hq. rewrite Hfr; [auto|]. intros Hin. by apply (sim_disjoint0 q).
  - (* _TRANSACTIONADD *)
    sim_open Hsim. unfold VeriProc_TransactionAdd; simpl.
    repeat case_match; simplify_eq/=; split; simpl; rewrite ?app_nil_r; done.
  - sim_open Hsim. rewrite ?app_nil_r. unfold VeriProc_Exclude. case_match; by split.
  - sim_open Hsim. rewrite ?app_nil_r. unfold VeriProc_Include. case_match; by split.
Qed.

(** A run in which every entry is treated alike. *)
Fixpoint run_const (late : bool) (tr : list Metadata) (st : vst) : vst * list report :=
  match tr with
  | [] => (st, [])
  | m :: tr' =>
      let '(st1, out) := step late m st in
      let '(st2, out') := run_const late tr' st1 in
      (st2, out ++ out')
  end.

Section Frames.
Context (objs : list Metadata) (veriptr : list nat) (tr : list Metadata).
Context (Hnodup : NoDup veriptr).
Context (Htr : Forall2 (fun p m => objs !! p = Some m) veriptr tr).

Lemma trace_length : length veriptr = length tr.
Proof using Htr. by eapply Forall2_length. Qed.

Lemma trace_lookup i p m : veriptr !! i = Some p -> tr !! i = Some m -> objs !! p = Some m.
Proof using Htr. intros Hp Hm. by eapply (Forall2_lookup_lr _ _ _ _ _ _ Htr). Qed.

Lemma veriptr_drop i p :
  veriptr !! i = Some p -> p ∉ drop (Datatypes.S i) veriptr.
Proof using Hnodup.
  intros Hp. assert (NoDup (drop i veriptr)) as Hnd.
  { rewrite <- (take_drop i veriptr) in Hnodup. by apply list.NoDup_app in Hnodup as (_ & _ & ?). }
  rewrite (drop_S _ _ _ Hp) in Hnd. by apply list.NoDup_cons in Hnd as [? _].
Qed.

Lemma frame_loop_sim tail n : forall prev s st out,
  (prev + n <= length tr)%nat ->
  sim objs (drop prev veriptr) s st out ->
  sim objs (drop (prev + n) veriptr) (frame_loop tail veriptr prev n s)
    (fst (run_const tail (take n (drop prev tr)) st))
    (out ++ snd (run_const tail (take n (drop prev tr)) st)).
Proof using Hnodup Htr.
  induction n as [|n IH]; intros prev s st out Hlen Hsim; simpl.
  { by rewrite Nat.add_0_r, app_nil_r. }
  destruct (lookup_lt_is_Some_2 veriptr prev) as [p Hp]; [rewrite trace_length; lia|].
  destruct (lookup_lt_is_Some_2 tr prev) as [m Hm]; [lia|].
  rewrite (drop_S veriptr p prev Hp) in Hsim.
  pose proof (dispatch_sim objs tail p _ m s st out (trace_lookup _ _ _ Hp Hm)
    (veriptr_drop _ _ Hp) Hsim) as Hd.
  rewrite Hp, (drop_S tr m prev Hm). simpl.
  destruct (step tail m st) as [st1 o1]. simpl in Hd.
  pose proof (IH (Datatypes.S prev) _ _ _ ltac:(lia) Hd) as Hrec.
  destruct (run_const tail (take n (drop (Datatypes.S prev) tr)) st1) as [st2 o2].
  simpl in *. rewrite Nat.add_succ_r. by rewrite app_assoc.
Qed.

End Frames.

Lemma run_cons m tr st :
  run (m :: tr) st =
    (let '(st1, out) := step (negb (fence_ahead tr)) m st in
     let '(st2, out') := run tr st1 in (st2, out ++ out')).
Proof. done. Qed.

(** Before a fence, every flush counts. *)
Lemma run_frame slice f rest st :
  type f = _FENCE ->
  run (slice ++ f :: rest) st =
    (let '(st1, o1) := run_const false slice st in
     let '(st2, o2) := run (f :: rest) st1 in (st2, o1 ++ o2)).
Proof.
  intros Hf. revert st. induction slice as [|m slice IH]; intros st.
  { cbn [app run_const]. by destruct (run (f :: rest) st). }
  rewrite <- app_comm_cons, run_cons. cbn [run_const].
  replace (fence_ahead (slice ++ f :: rest)) with true; cycle 1.
  { unfold fence_ahead. rewrite existsb_app. simpl. rewrite (bool_decide_true _ Hf).
    simpl. by rewrite orb_true_r. }
  cbn [negb]. destruct (step false m st) as [st1 o1]. rewrite IH.
  destruct (run_const false slice st1) as [st2 o2].
  destruct (run (f :: rest) st2) as [st3 o3]. by rewrite app_assoc.
Qed.

Lemma fence_ahead_false tr :
  (forall m, m ∈ tr -> type m <> _FENCE) -> fence_ahead tr = false.
Proof.
  induction tr as [|m tr IH]; intros H; [done|]. simpl.
  rewrite bool_decide_false by (apply H; left). apply IH. intros m' Hm'. apply H. by right.
Qed.

(** After the last fence none does. *)
Lemma run_tail tr : forall st,
  (forall m, m ∈ List.tl tr -> type m <> _FENCE) -> run tr st = run_const true tr st.
Proof.
  induction tr as [|m tr IH]; intros st H; [done|]. simpl in *.
  rewrite fence_ahead_false by done. cbn [negb].
  destruct (step true m st) as [st1 o1]. rewrite IH; [done|].
  intros m' Hm'. apply H. destruct tr; [done|by right].
Qed.

Section Loops.
Context (objs : list Metadata) (veriptr : list nat) (tr : list Metadata).
Context (Hnodup : NoDup veriptr).
Context (Htr : Forall2 (fun p m => objs !! p = Some m) veriptr tr).

(** No fence strictly between two positions. *)
Definition no_fence_in (i j : nat) : Prop :=
  forall k m, (i < k < j)%nat -> tr !! k = Some m -> type m <> _FENCE.

Lemma fence_loop_sim n : forall prev cur s st out prev' s',
  (prev <= cur)%nat -> (cur + n = length tr)%nat ->
  sim objs (drop prev veriptr) s st out -> no_fence_in prev cur ->
  fence_loop veriptr prev cur n s = (prev', s') ->
  exists st' o', sim objs (drop prev' veriptr) s' st' (out ++ o') /\
    (prev' <= length tr)%nat /\ no_fence_in prev' (length tr) /\
    run (drop prev tr) st =
      (let '(st2, o2) := run (drop prev' tr) st' in (st2, o' ++ o2)).
Proof using Hnodup Htr.
  induction n as [|n IH]; intros prev cur s st out prev' s' Hle Hlen Hsim Hno; simpl.
  { intros [= <- <-]. exists st, []. rewrite app_nil_r.
    split_and!; [done|lia|by replace (length tr) with cur by lia|].
    by destruct (run (drop prev tr) st). }
  destruct (lookup_lt_is_Some_2 veriptr cur) as [p Hp];
    [rewrite (trace_length objs veriptr tr Htr); lia|].
  destruct (lookup_lt_is_Some_2 tr cur) as [m Hm]; [lia|].
  pose proof (trace_lookup objs veriptr tr Htr cur p m Hp Hm) as Hobj.
  assert (store s !! p = Some m) as Hs.
  { rewrite (sim_rest _ _ _ _ _ Hsim p), Hobj; [done|].
    apply list_elem_of_lookup. exists (cur - prev)%nat.
    rewrite lookup_drop. by replace (prev + (cur - prev))%nat with cur by lia. }
  rewrite Hp. simpl. rewrite Hs. case_decide as Hf.
  - pose proof (frame_loop_sim objs veriptr tr Hnodup Htr false (cur - prev) prev
      s st out ltac:(lia) Hsim) as Hfr.
    replace (prev + (cur - prev))%nat with cur in Hfr by lia.
    intros Hloop.
    destruct (IH cur (Datatypes.S cur) _ _ _ prev' s' ltac:(lia) ltac:(lia) Hfr)
      as (st' & o' & Hsim' & Hle' & Hno' & Hrun); [intros k m' Hk; lia|done|].
    exists st', (snd (run_const false (take (cur - prev) (drop prev tr)) st) ++ o').
    split_and!; [by rewrite app_assoc|done|done|].
    assert (drop prev tr = take (cur - prev) (drop prev tr) ++ m :: drop (Datatypes.S cur) tr)
      as Hsplit.
    { rewrite <- (drop_S tr m cur Hm), <- (take_drop (cur - prev) (drop prev tr)) at 1.
      f_equal. rewrite drop_drop. f_equal. lia. }
    rewrite Hsplit at 1. rewrite run_frame by done.
    rewrite <- (drop_S tr m cur Hm).
    destruct (run_const false (take (cur - prev) (drop prev tr)) st) as [st1 o1].
    simpl in *. rewrite Hrun.
    destruct (run (drop prev' tr) st'). by rewrite app_assoc.
  - intros Hloop. apply (IH prev (Datatypes.S cur) s st out prev' s'); [lia|lia|done| |done].
    intros k m' Hk Hm'. destruct (decide (k = cur)) as [->|]; [congruence|].
    apply (Hno k); [lia|done].
Qed.

(** The reports and the final store of [VeriProc], for a trace of distinct
    entries with values [tr]. *)
Lemma VeriProc_spec :
  printed_out (VeriProc veriptr objs) = check tr /\
  (forall p m, objs !! p = Some m ->
     exists m', store (VeriProc veriptr objs) !! p = Some m' /\ same_entry m' m).
Proof using Hnodup Htr.
  unfold VeriProc, check.
  destruct (fence_loop veriptr 0 0 (length veriptr) (mkRun objs VeriState_init []))
    as [prev s] eqn:Hloop.
  destruct (fence_loop_sim (length veriptr) 0 0 (mkRun objs VeriState_init []) VeriState_init [] prev s ltac:(lia)
    (trace_length objs veriptr tr Htr)) as (st' & o' & Hsim & Hle & Hno & Hrun);
    [|intros k m Hk; lia|done|].
  { split; try done; [intros p Hp; by apply elem_of_nil in Hp|].
    intros p m Hp. exists m. split; [done|by left]. }
  pose proof (frame_loop_sim objs veriptr tr Hnodup Htr true (length veriptr - prev) prev
      s st' o') as Hfr.
  rewrite (trace_length objs veriptr tr Htr) in *.
  specialize (Hfr ltac:(lia) Hsim).
  rewrite take_ge in Hfr by (rewrite length_drop; lia).
  rewrite drop_0 in Hrun. rewrite Hrun, run_tail; cycle 1.
  { intros m [k Hk]%list_elem_of_lookup. rewrite tl_drop in Hk.
    apply (Hno (Datatypes.S prev + k)%nat); [|by rewrite <- lookup_drop].
    apply lookup_lt_Some in Hk. rewrite length_drop in Hk. lia. }
  destruct (run_const true (drop prev tr) st') as [st2 o2]. simpl in *.
  rewrite (sim_out _ _ _ _ _ Hfr). split; [|apply (sim_store _ _ _ _ _ Hfr)].
  f_equal. unfold VeriProc_final. by rewrite (sim_count _ _ _ _ _ Hfr).
Qed.

End Loops.

End Checker.

(** ** Property *)

(** C1: [VeriProc] is correct against the one-pass specification.  For a trace
    of distinct entries, its frames between fences, its separate treatment of
    the last frame and its overwriting of the entries print exactly what one
    pass over the values of the entries prints; and the only change it makes to
    an entry is the type of an assignment, to [_PERSIST]. *)
Theorem VeriProc_refines_check {S M} `{!IclSet S} `{!IclMap M} (cfg : config)
    (objs : list Metadata) (veriptr : list nat) (tr : list Metadata)
    (Hnodup : NoDup veriptr)
    (Htr : Forall2 (fun p m => objs !! p = Some m) veriptr tr) :
  printed_out (VeriProc (S:=S) (M:=M) cfg veriptr objs) = check (S:=S) (M:=M) cfg tr /\
  (forall p m, objs !! p = Some m ->
     exists m', store (VeriProc (S:=S) (M:=M) cfg veriptr objs) !! p = Some m' /\
       same_entry m' m).
Proof. by apply VeriProc_spec. Qed.

(** A transaction whose assignment is never flushed. *)
Definition sample_trace : list Metadata :=
  [mkMetadata 0 0 _TRANSACTIONBEGIN 0 0 1 []; mkMetadata 16 0 _TRANSACTIONADD 4 0 2 [];
   mkMetadata 16 0 _ASSIGN 4 0 3 []; mkMetadata 0 0 _FENCE 0 0 4 [];
   mkMetadata 0 0 _TRANSACTIONEND 0 0 5 []].

Lemma VeriProc_refines_check_witness :
  printed_out (VeriProc (S:=Shadow.shadow bool) (M:=Shadow.shadow Z)
    (mkConfig true false) [0; 1; 2; 3; 4]%nat sample_trace) =
      [PersistError [] 3 16 20] /\
  check (S:=Shadow.shadow bool) (M:=Shadow.shadow Z) (mkConfig true false) sample_trace =
      [PersistError [] 3 16 20].
Proof.
  destruct (VeriProc_refines_check (S:=Shadow.shadow bool) (M:=Shadow.shadow Z)
    (mkConfig true false) sample_trace [0; 1; 2; 3; 4]%nat sample_trace) as [H _].
  - apply (NoDup_seq 0 5).
  - repeat constructor.
  - rewrite H. split; reflexivity.
Defined.
