(* ===== verification/Pmem.v ===== *)
(** * Persistent memory

    The memory the traces of PMTest and the NVML code run on.  A location holds
    the value that survives a crash, the stores issued since then that may or
    may not have reached the medium (oldest first), and how many of these a
    flush instruction has covered.  [pm_store], [pm_flush] and [pm_fence] are
    the store, [clwb]/[clflushopt] and [sfence] of the processor; a crash keeps
    of each location either the durable value or one of the pending ones,
    independently of the other locations (stores can be evicted from the cache
    at any time and in any order).  Nothing here is code of the repository: it
    is the machine the properties of the other files speak about. *)

From S2P Require Import Prelude.

Record cell := mkCell {
  c_durable : Z;
  c_pending : list Z;
  c_flushed : nat;
}.

Definition pmem : Type := Z -> cell.

Definition pm_read (m : pmem) (a : Z) : Z :=
  List.last (c_pending (m a)) (c_durable (m a)).

Definition pm_store (m : pmem) (a v : Z) : pmem := fun x =>
  if decide (x = a)
  then mkCell (c_durable (m a)) (c_pending (m a) ++ [v]) (c_flushed (m a))
  else m x.

(** A store of [v] to every location of [r]. *)
Definition pm_store_range (m : pmem) (r : Z -> bool) (v : Z) : pmem := fun x =>
  if r x then mkCell (c_durable (m x)) (c_pending (m x) ++ [v]) (c_flushed (m x))
  else m x.

(** A flush covers every store issued so far to the locations of [r]. *)
Definition pm_flush (m : pmem) (r : Z -> bool) : pmem := fun x =>
  if r x then mkCell (c_durable (m x)) (c_pending (m x)) (length (c_pending (m x)))
  else m x.

Definition fence_cell (c : cell) : cell :=
  mkCell (List.last (take (c_flushed c) (c_pending c)) (c_durable c))
    (drop (c_flushed c) (c_pending c)) 0.

Definition pm_fence (m : pmem) : pmem := fun x => fence_cell (m x).

(** [pmem_persist]: flush the range, then fence. *)
Definition pm_persist (m : pmem) (r : Z -> bool) : pmem := pm_fence (pm_flush m r).

(** [image] is a memory a crash in state [m] can leave. *)
Definition pm_crash (m : pmem) (image : Z -> Z) : Prop :=
  forall a, image a ∈ c_durable (m a) :: c_pending (m a).

(** The memory after a restart from an image. *)
Definition pm_boot (image : Z -> Z) : pmem := fun a => mkCell (image a) [] 0.

(** A location is durable when a crash cannot lose its last store. *)
Definition pm_durable (m : pmem) (a : Z) : Prop := c_pending (m a) = [].

(** Locations read the same and crash the same. *)
Definition pm_equiv (m1 m2 : pmem) : Prop := forall a, m1 a = m2 a.

#[global] Instance pm_equiv_equivalence : Equivalence pm_equiv.
Proof.
  split; [done|by intros m1 m2 H a; symmetry|].
  intros m1 m2 m3 H1 H2 a. by rewrite (H1 a).
Qed.

#[global] Instance pm_read_proper : Proper (pm_equiv ==> eq ==> eq) pm_read.
Proof. intros m1 m2 H a ? <-. unfold pm_read. by rewrite (H a). Qed.

#[global] Instance pm_store_proper : Proper (pm_equiv ==> eq ==> eq ==> pm_equiv) pm_store.
Proof.
  intros m1 m2 H a ? <- v ? <- x. unfold pm_store. by rewrite (H a), (H x).
Qed.

#[global] Instance pm_flush_proper : Proper (pm_equiv ==> eq ==> pm_equiv) pm_flush.
Proof. intros m1 m2 H r ? <- x. unfold pm_flush. by rewrite (H x). Qed.

#[global] Instance pm_fence_proper : Proper (pm_equiv ==> pm_equiv) pm_fence.
Proof. intros m1 m2 H x. unfold pm_fence. by rewrite (H x). Qed.

#[global] Instance pm_crash_proper : Proper (pm_equiv ==> eq ==> iff) pm_crash.
Proof.
  intros m1 m2 H i ? <-. unfold pm_crash.
  split; intros Hc a; specialize (Hc a); [by rewrite <- (H a)|by rewrite (H a)].
Qed.

(** ** Facts *)

Lemma pm_read_store_eq m a v : pm_read (pm_store m a v) a = v.
Proof. unfold pm_read, pm_store. rewrite decide_True by done. simpl. apply List.last_last. Qed.

Lemma pm_store_ne m a b v : b <> a -> pm_store m a v b = m b.
Proof. intros. unfold pm_store. by rewrite decide_False. Qed.

Lemma pm_read_store_ne m a b v : b <> a -> pm_read (pm_store m a v) b = pm_read m b.
Proof. intros. unfold pm_read. by rewrite pm_store_ne. Qed.

Lemma pm_read_flush m r a : pm_read (pm_flush m r) a = pm_read m a.
Proof. unfold pm_read, pm_flush. by destruct (r a). Qed.

Lemma pm_read_fence m a : pm_read (pm_fence m) a = pm_read m a.
Proof.
  unfold pm_read, pm_fence, fence_cell. simpl.
  by rewrite <- last_app_default, take_drop.
Qed.

Lemma pm_read_persist m r a : pm_read (pm_persist m r) a = pm_read m a.
Proof. unfold pm_persist. by rewrite pm_read_fence, pm_read_flush. Qed.

Lemma pm_persist_durable m r a : r a = true -> pm_durable (pm_persist m r) a.
Proof.
  intros Hr. unfold pm_durable, pm_persist, pm_fence, fence_cell, pm_flush.
  rewrite Hr. simpl. by rewrite drop_all.
Qed.

(** The last store to a durable location is what every crash leaves. *)
Lemma pm_durable_crash m a image :
  pm_durable m a -> pm_crash m image -> image a = pm_read m a.
Proof.
  unfold pm_durable, pm_read. intros Hd Hc. specialize (Hc a). rewrite Hd in *.
  by apply list_elem_of_singleton in Hc.
Qed.

Lemma pm_durable_fence m a : pm_durable m a -> pm_durable (pm_fence m) a.
Proof.
  unfold pm_durable, pm_fence, fence_cell. intros H. simpl. by rewrite H, drop_nil.
Qed.

Lemma pm_crash_boot image image' : pm_crash (pm_boot image) image' <-> forall a, image' a = image a.
Proof.
  unfold pm_crash, pm_boot. simpl.
  split; intros H a; specialize (H a); by apply list_elem_of_singleton.
Qed.

(** What a crash can leave at a location. *)
Lemma pm_crash_exists m : exists image, pm_crash m image.
Proof. exists (fun a => c_durable (m a)). intros a. left. Qed.

Create HintDb pmem.
Create Rewrite HintDb pmem.
#[global] Hint Rewrite pm_read_store_eq pm_read_flush pm_read_fence pm_read_persist : pmem.
#[global] Hint Rewrite pm_read_store_ne using congruence : pmem.
#[global] Hint Resolve pm_persist_durable pm_durable_fence : pmem.

(** The values a crash can leave after a fence. *)
Lemma fence_cell_suffix c :
  (c_flushed c <= length (c_pending c))%nat ->
  c_durable (fence_cell c) :: c_pending (fence_cell c) =
    drop (c_flushed c) (c_durable c :: c_pending c).
Proof.
  unfold fence_cell. simpl. generalize (c_flushed c) as n.
  generalize (c_durable c) as d. induction (c_pending c) as [|v l IH]; intros d n Hn.
  { by destruct n; [|simpl in Hn; lia]. }
  destruct n as [|n]; [done|]. simpl in Hn. cbn [take drop].
  rewrite last_cons_default. apply IH. lia.
Qed.

(** ** Flushing loses nothing *)

(** What a crash can leave of a cell. *)
Definition values (c : cell) : list Z := c_durable c :: c_pending c.
Definition cell_ok (c : cell) : Prop := (c_flushed c <= length (c_pending c))%nat.

Lemma values_length c : length (values c) = S (length (c_pending c)).
Proof. done. Qed.

Lemma values_snoc c v n :
  values (mkCell (c_durable c) (c_pending c ++ [v]) n) = values c ++ [v].
Proof. done. Qed.

(** [c'] is [c] with more of its stores flushed or durable. *)
Record shrinks (c c' : cell) : Prop := {
  shrinks_values : cell_ok c -> cell_ok c' /\ exists k, values c' = drop k (values c) /\
    (k <= length (c_pending c))%nat /\ (c_flushed c <= k + c_flushed c')%nat;
  shrinks_durable : c_pending c = [] -> c_pending c' = [] /\ c_durable c' = c_durable c;
}.

Lemma shrinks_refl c : shrinks c c.
Proof.
  split; [|done]. intros H. split; [done|]. exists 0%nat. split_and!; [done|lia..].
Qed.

Lemma drop_values_length k c c' :
  values c' = drop k (values c) -> (k <= length (c_pending c))%nat ->
  length (c_pending c') = (length (c_pending c) - k)%nat.
Proof.
  intros E Hk. pose proof (f_equal length E) as El. rewrite length_drop, !values_length in El. lia.
Qed.

Lemma shrinks_trans c1 c2 c3 : shrinks c1 c2 -> shrinks c2 c3 -> shrinks c1 c3.
Proof.
  intros [H12 D12] [H23 D23]. split.
  - intros H1. destruct (H12 H1) as (H2 & k & E & Hk & Hf).
    destruct (H23 H2) as (H3 & k' & E' & Hk' & Hf'). split; [done|].
    pose proof (drop_values_length _ _ _ E Hk).
    exists (k + k')%nat. rewrite E', E, drop_drop. split_and!; [done|lia..].
  - intros H1. destruct (D12 H1) as [H2 <-]. by apply D23.
Qed.

Lemma shrinks_fence c : shrinks c (fence_cell c).
Proof.
  split.
  - unfold cell_ok, values. intros H. split; [simpl; lia|].
    exists (c_flushed c). rewrite fence_cell_suffix by done. split_and!; [done|lia|simpl; lia].
  - intros H. unfold fence_cell. simpl. rewrite H. by rewrite drop_nil, take_nil.
Qed.
