(* ===== verification/CheckerFacts.v ===== *)
(** * What the checks of [VeriProc] decide

    Address-level characterisations of the functions of [Checker], for any
    containers that satisfy the laws of [Intervals]: exactly when the
    persistence and order checks pass, what they report otherwise, how the
    state evolves along a trace, and the invariants of the timestamps. *)

From Stdlib Require Import Ascii.
From stdpp Require Import strings.
From S2P Require Import Prelude Intervals Metadata Checker.

Lemma timestamp_exactly_pos t : 1 <= t -> timestamp_exactly t = t.
Proof. intros H. unfold timestamp_exactly. case_match; lia. Qed.

Lemma timestamp_atleast_pos t : 1 <= t -> timestamp_atleast t = - t.
Proof. intros H. unfold timestamp_atleast. case_match; lia. Qed.

Lemma timestamp_exactly_abs t : timestamp_exactly t = Z.abs t.
Proof. unfold timestamp_exactly. case_match; lia. Qed.

Section Facts.
Context {S M : Type} `{!IclSet S, !IclSetLaws S} `{!IclMap M, !IclMapLaws M}.
Context (cfg : config).
Local Abbreviation vst := (VeriState S M Metadata).

(** Address [x] is modified and not known to be written back. *)
Definition dirty {P} (st : VeriState S M P) (x : Z) : Prop :=
  iset_contains x (PersistInfo st).

(** The timestamp of an address. *)
Definition time {P} (st : VeriState S M P) (x : Z) : option Z :=
  imap_lookup x (OrderInfo st).

(** The set of addresses under [PMTest_exclude]. *)
Definition hidden {P} (st : VeriState S M P) (x : Z) : Prop :=
  PMTEST_EXCLUDE cfg = true /\ iset_contains x (ExcludeInfo st).

Lemma iset_find_is_Some (s : S) I :
  is_Some (iset_find s I) <-> exists x, x ∈i I /\ iset_contains x s.
Proof using IclSetLaws0.
  split.
  - intros [J HJ]. destruct (iset_find_Some s I J HJ) as [[x [HI HJx]] Hs]. eauto.
  - intros (x & HI & Hx). destruct (iset_find s I) eqn:E; [eauto|].
    by destruct (proj1 (iset_find_None s I) E x HI).
Qed.

Lemma excluded_true {P} (st : VeriState S M P) I :
  excluded cfg st I = true <-> exists x, x ∈i I /\ hidden st x.
Proof using IclSetLaws0.
  unfold excluded, hidden.
  rewrite andb_true_iff, bool_decide_eq_true, iset_find_is_Some.
  split; [intros (? & x & ? & ?)|intros (x & ? & ? & ?)]; eauto.
Qed.

Lemma excluded_false {P} (st : VeriState S M P) I :
  excluded cfg st I = false <-> forall x, x ∈i I -> ~ hidden st x.
Proof using IclSetLaws0.
  split.
  - intros H x HI Hx. assert (excluded cfg st I = true) by (apply excluded_true; eauto).
    congruence.
  - intros H. destruct (excluded cfg st I) eqn:E; [|done].
    apply excluded_true in E as (x & HI & Hx). by destruct (H x HI).
Qed.

(** ** The persistence check *)

Lemma VeriProc_Persist_cases {P} m (st : VeriState S M P) :
  let I := addrinterval (addr m) (msize m) in
  0 < msize m ->
  (VeriProc_Persist cfg m st = (-2, []) /\ exists x, x ∈i I /\ hidden st x) \/
  (VeriProc_Persist cfg m st = (0, []) /\
     (forall x, x ∈i I -> ~ hidden st x /\ ~ dirty st x)) \/
  (exists lo hi, VeriProc_Persist cfg m st =
       (-1, [PersistError (filename_temp m) (line_num m) lo hi]) /\
     lo < hi /\ (forall x, lo <= x < hi -> x ∈i I /\ dirty st x) /\
     (forall x, x ∈i I -> ~ hidden st x)).
Proof using IclSetLaws0.
  intros I Hsz. unfold VeriProc_Persist.
  rewrite (proj2 (Z.ltb_lt _ _)) by done.
  change (addrinterval (addr m) (msize m)) with I.
  destruct (excluded cfg st I) eqn:Hex.
  { left. split; [done|]. by apply excluded_true. }
  rewrite excluded_false in Hex. right.
  destruct (iset_find (PersistInfo st) I) as [J|] eqn:Hfind.
  - right. destruct (iset_find_Some _ _ _ Hfind) as [[x [HIx HJx]] HJ].
    do 2 eexists. split; [done|]. split_and!; [interval_lia| |done].
    intros y Hy. assert (y ∈i interval_meet I J) as [HyI HyJ]%in_interval_meet by done.
    split; [done|by apply HJ].
  - left. split; [done|]. intros x HI. split; [auto|].
    by apply (proj1 (iset_find_None _ _) Hfind).
Qed.

(** ** The order check *)

(** The timestamps of the segments of a range are those of its addresses. *)
Lemma imap_cut_values I (m : M) t :
  t ∈ (imap_cut I m).*2 <-> exists x, x ∈i I /\ imap_lookup x m = Some t.
Proof using IclMapLaws0.
  rewrite list_elem_of_fmap. split.
  - intros ([J t'] & -> & HJ). destruct (imap_cut_sound I m J t' HJ) as [[x Hx] H].
    exists x. by apply H.
  - intros (x & HI & Hx). destruct (imap_cut_complete I m x t HI Hx) as (J & HJ & _).
    by exists (J, t).
Qed.

Lemma order_early_max_lt l : forall e b,
  b <= INT_MAX ->
  order_early_max l e < b <->
  e < b /\ Forall (fun t => 0 <= t < b) l.*2.
Proof.
  induction l as [|[J t] l IH]; intros e b Hb; simpl.
  { split; [intros; split; [done|constructor]|by intros [? _]]. }
  unfold timestamp_isexacttime. destruct (Z.leb_spec 0 t).
  - rewrite IH, Forall_cons by done.
    split; intros; destruct_and?; split_and?; done || lia.
  - rewrite Forall_cons. split; intros; destruct_and?; lia.
Qed.

Lemma order_late_min_gt l : forall e b,
  b < order_late_min l e <->
  b < e /\ Forall (fun t => b < timestamp_exactly t) l.*2.
Proof.
  induction l as [|[J t] l IH]; intros e b; simpl.
  { split; [intros; split; [done|constructor]|by intros [? _]]. }
  rewrite IH, Forall_cons. split; intros; destruct_and?; split_and?; done || lia.
Qed.

(** Timestamps never reach [INT_MAX]: the invariant [times_ok]. *)
Definition times_ok {P} (st : VeriState S M P) : Prop :=
  1 <= timestamp st /\
  (forall x t, time st x = Some t -> 1 <= Z.abs t <= timestamp st).

(** Exactly when the order check accepts two ranges, neither of them hidden. *)
Definition ordered {P} (st : VeriState S M P) (I J : interval) : Prop :=
  (forall x, x ∈i I -> exists t, time st x = Some t /\ 0 <= t) /\
  (forall y, y ∈i J -> is_Some (time st y)) /\
  (forall x y t u, x ∈i I -> y ∈i J -> time st x = Some t -> time st y = Some u ->
     t < timestamp_exactly u).

Lemma VeriProc_Order_ordered {P} m (st : VeriState S M P) :
  let I := addrinterval (addr m) (msize m) in
  let J := addrinterval (addr_late m) (size_late m) in
  0 < msize m -> 0 < size_late m ->
  times_ok st -> timestamp st < INT_MAX ->
  (forall x, x ∈i I \/ x ∈i J -> ~ hidden st x) ->
  VeriProc_Order cfg m st = (0, []) <-> ordered st I J.
Proof using IclSetLaws0 IclMapLaws0.
  intros I J Hsz Hszl [Hts Htimes] Hmax Hhid. unfold VeriProc_Order.
  rewrite (proj2 (Z.ltb_lt _ _)), (proj2 (Z.ltb_lt 0 (size_late m))) by done. simpl.
  change (addrinterval (addr m) (msize m)) with I.
  change (addrinterval (addr_late m) (size_late m)) with J.
  rewrite (proj2 (excluded_false st I)), (proj2 (excluded_false st J)) by auto.
  destruct (imap_within I (OrderInfo st) && imap_within J (OrderInfo st)) eqn:Hw.
  2: { split; [done|]. intros (H1 & H2 & _). apply andb_false_iff in Hw.
       assert (imap_within I (OrderInfo st) = true).
       { apply imap_within_spec. intros x Hx. destruct (H1 x Hx) as (t & Ht & _). by exists t. }
       assert (imap_within J (OrderInfo st) = true) by (by apply imap_within_spec).
       destruct Hw; congruence. }
  apply andb_true_iff in Hw as [HwI HwJ].
  rewrite imap_within_spec in HwI, HwJ.
  set (em := order_early_max (imap_cut I (OrderInfo st)) 0).
  set (lm := order_late_min (imap_cut J (OrderInfo st)) INT_MAX).
  assert (em < lm <-> ordered st I J) as Hiff.
  { split.
    - intros Hlt. unfold lm in Hlt. apply order_late_min_gt in Hlt as [Hem Hlate].
      rewrite Forall_forall in Hlate.
      assert (Forall (fun t => 0 <= t < em + 1) (imap_cut I (OrderInfo st)).*2) as He.
      { apply (order_early_max_lt _ 0); fold em; lia. }
      rewrite Forall_forall in He. unfold ordered. split_and!.
      + intros x Hx. destruct (HwI x Hx) as [t Ht]. exists t. split; [done|].
        apply He, imap_cut_values. eauto.
      + done.
      + intros x y t u Hx Hy Ht Hu.
        assert (0 <= t < em + 1) by (apply He, imap_cut_values; eauto).
        assert (em < timestamp_exactly u) by (apply Hlate, imap_cut_values; eauto). lia.
    - intros (H1 & H2 & H3).
      assert (em < INT_MAX) as HemM.
      { apply (order_early_max_lt _ 0); [done|]. split; [done|].
        apply Forall_forall. intros t (x & Hx & Ht)%imap_cut_values.
        destruct (H1 x Hx) as (t' & Ht' & ?). specialize (Htimes x t Ht).
        assert (t = t') by (unfold time in *; congruence). lia. }
      apply order_late_min_gt. split; [done|]. apply Forall_forall.
      intros u (y & Hy & Hu)%imap_cut_values.
      assert (timestamp_exactly u <= INT_MAX /\ 1 <= timestamp_exactly u) as [HuM Hu1].
      { specialize (Htimes y u Hu). unfold timestamp_exactly. case_match; lia. }
      apply (order_early_max_lt _ 0 _ HuM). split; [lia|]. apply Forall_forall.
      intros t (x & Hx & Ht)%imap_cut_values.
      destruct (H1 x Hx) as (t' & Ht' & ?).
      assert (t = t') as <- by (unfold time in *; congruence).
      split; [done|]. by apply (H3 x y). }
  rewrite <- Hiff. destruct (Z.leb_spec lm em); split; intros; simplify_eq; try done; lia.
Qed.

(** ** How an entry changes the state *)

(** The addresses an entry is about. *)
Definition covers (e : Metadata) (x : Z) : Prop :=
  0 < msize e /\ x ∈i addrinterval (addr e) (msize e).

#[global] Instance covers_dec e x : Decision (covers e x).
Proof. unfold covers. apply _. Defined.

(** The checker takes an assignment, a flush or a query into account only when no
    byte of its range is excluded. *)
Definition counted {P} (st : VeriState S M P) (e : Metadata) : bool :=
  negb (excluded cfg st (addrinterval (addr e) (msize e))).

(** The state left by an assignment, and by a flush that counts. *)
Lemma VeriProc_Assign_state {P} (p : P) e (st : VeriState S M P) :
  0 < msize e -> counted st e = true ->
  PersistInfo (snd (fst (VeriProc_Assign cfg p e st))) =
    iset_add (PersistInfo st) (addrinterval (addr e) (msize e)) /\
  OrderInfo (snd (fst (VeriProc_Assign cfg p e st))) =
    imap_set (OrderInfo st) (addrinterval (addr e) (msize e))
      (timestamp_atleast (timestamp st)).
Proof.
  intros Hsz Hv%negb_true_iff. unfold VeriProc_Assign.
  rewrite (proj2 (Z.ltb_lt _ _)), Hv by done.
  by destruct ((0 <? transactionCount st) && _).
Qed.

Lemma VeriProc_Flush_state {P} e (st : VeriState S M P) x :
  0 < msize e -> counted st e = true ->
  (iset_contains x (PersistInfo (snd (fst (VeriProc_Flush cfg e st)))) <->
    ~ x ∈i addrinterval (addr e) (msize e) /\ iset_contains x (PersistInfo st)) /\
  OrderInfo (snd (fst (VeriProc_Flush cfg e st))) =
    imap_set (OrderInfo st) (addrinterval (addr e) (msize e))
      (timestamp_exactly (timestamp st)).
Proof using IclSetLaws0.
  intros Hsz Hv%negb_true_iff. unfold VeriProc_Flush.
  rewrite (proj2 (Z.ltb_lt _ _)), Hv by done. simpl. split; [|done].
  destruct (PMTEST_WARN cfg && _) eqn:Hc; [|apply iset_contains_sub].
  apply andb_true_iff in Hc as [_ Hc%bool_decide_eq_true].
  pose proof (proj1 (iset_find_None _ _) Hc x). tauto.
Qed.

(** The function of an assignment or a flush, as the step calls it. *)
Lemma step_assign_eq late e (st : vst) :
  type e = _ASSIGN -> fst (step cfg late e st) = snd (fst (VeriProc_Assign cfg e e st)).
Proof. intros He. unfold step. rewrite He. by destruct (VeriProc_Assign cfg e e st) as [[??]?]. Qed.

Lemma step_flush_eq e (st : vst) :
  type e = _FLUSH -> fst (step cfg false e st) = snd (fst (VeriProc_Flush cfg e st)).
Proof. intros He. unfold step. rewrite He. by destruct (VeriProc_Flush cfg e st) as [[??]?]. Qed.

(** Entries of no size, entries that do not count and the other kinds change
    neither component. *)
Lemma step_other late e (st : vst) :
  match type e with
  | _ASSIGN => ~ (0 < msize e /\ counted st e = true)
  | _FLUSH => ~ (late = false /\ 0 < msize e /\ counted st e = true)
  | _ => True
  end ->
  PersistInfo (fst (step cfg late e st)) = PersistInfo st /\
  OrderInfo (fst (step cfg late e st)) = OrderInfo st.
Proof.
  unfold step, counted. destruct (type e); intros H; try done.
  - unfold VeriProc_Assign. destruct (Z.ltb_spec 0 (msize e)); [|done].
    destruct (excluded _ _ _); [done|]. tauto.
  - destruct late; [done|]. unfold VeriProc_Flush. destruct (Z.ltb_spec 0 (msize e)); [|done].
    destruct (excluded _ _ _); [done|]. tauto.
  - unfold VeriProc_TransactionAdd. by repeat case_match; simplify_eq/=.
  - unfold VeriProc_Exclude. by case_match.
  - unfold VeriProc_Include. by case_match.
Qed.

Lemma step_dirty late e (st : vst) x :
  dirty (fst (step cfg late e st)) x <->
  match type e with
  | _ASSIGN => (covers e x /\ counted st e = true) \/ dirty st x
  | _FLUSH => ~ (late = false /\ covers e x /\ counted st e = true) /\ dirty st x
  | _ => dirty st x
  end.
Proof using IclSetLaws0.
  unfold dirty, covers.
  destruct (type e) eqn:He;
    try (rewrite (proj1 (step_other late e st ltac:(by rewrite He))); done).
  - destruct (decide (0 < msize e /\ counted st e = true)) as [[Hsz Hv]|Hno].
    + rewrite step_assign_eq, (proj1 (VeriProc_Assign_state e e st Hsz Hv)) by done.
      rewrite iset_contains_add. tauto.
    + rewrite (proj1 (step_other late e st ltac:(by rewrite He))). tauto.
  - destruct (decide (late = false /\ 0 < msize e /\ counted st e = true)) as [(-> & Hsz & Hv)|Hno].
    + rewrite step_flush_eq, (proj1 (VeriProc_Flush_state e st x Hsz Hv)) by done. tauto.
    + rewrite (proj1 (step_other late e st ltac:(by rewrite He))). tauto.
Qed.

Lemma step_time late e (st : vst) x :
  time (fst (step cfg late e st)) x =
  match type e with
  | _ASSIGN =>
      if decide (covers e x /\ counted st e = true)
      then Some (timestamp_atleast (timestamp st)) else time st x
  | _FLUSH =>
      if decide (late = false /\ covers e x /\ counted st e = true)
      then Some (timestamp_exactly (timestamp st)) else time st x
  | _ => time st x
  end.
Proof using IclSetLaws0 IclMapLaws0.
  unfold time, covers.
  destruct (type e) eqn:He;
    try (rewrite (proj2 (step_other late e st ltac:(by rewrite He))); done).
  - destruct (decide (0 < msize e /\ counted st e = true)) as [[Hsz Hv]|Hno].
    + rewrite step_assign_eq, (proj2 (VeriProc_Assign_state e e st Hsz Hv)) by done.
      rewrite imap_lookup_set. repeat case_decide; tauto.
    + rewrite (proj2 (step_other late e st ltac:(by rewrite He))), decide_False by tauto. done.
  - destruct (decide (late = false /\ 0 < msize e /\ counted st e = true)) as [(-> & Hsz & Hv)|Hno].
    + rewrite step_flush_eq, (proj2 (VeriProc_Flush_state e st x Hsz Hv)) by done.
      rewrite imap_lookup_set. repeat case_decide; tauto.
    + rewrite (proj2 (step_other late e st ltac:(by rewrite He))), decide_False by tauto. done.
Qed.

Lemma step_timestamp late e (st : vst) :
  timestamp (fst (step cfg late e st)) =
    timestamp st + (if decide (type e = _FENCE) then 1 else 0).
Proof.
  unfold step. destruct (type e); simpl; try lia.
  - unfold VeriProc_Assign. if_cases; simpl; lia.
  - unfold VeriProc_Flush. destruct late; simpl; if_cases; simpl; lia.
  - unfold VeriProc_TransactionAdd. if_cases; simpl; lia.
  - unfold VeriProc_Exclude. if_cases; simpl; lia.
  - unfold VeriProc_Include. if_cases; simpl; lia.
Qed.

(** Only [_EXCLUDE] hides addresses and only [_INCLUDE] shows them again. *)
Lemma step_exclude late e (st : vst) x :
  iset_contains x (ExcludeInfo (fst (step cfg late e st))) <->
  match type e with
  | _EXCLUDE => covers e x \/ iset_contains x (ExcludeInfo st)
  | _INCLUDE => ~ covers e x /\ iset_contains x (ExcludeInfo st)
  | _ => iset_contains x (ExcludeInfo st)
  end.
Proof using IclSetLaws0.
  unfold step, covers. destruct (type e); try done.
  - unfold VeriProc_Assign. by if_cases.
  - unfold VeriProc_Flush. by if_cases.
  - unfold VeriProc_TransactionAdd. by if_cases.
  - unfold VeriProc_Exclude. destruct (Z.ltb_spec 0 (msize e)); simpl.
    + rewrite iset_contains_add. tauto.
    + split; [auto|]. intros [[? _]|?]; [lia|done].
  - unfold VeriProc_Include. destruct (Z.ltb_spec 0 (msize e)); simpl.
    + rewrite iset_contains_sub. tauto.
    + split; [|tauto]. intros ?. split; [|done]. intros [? _]. lia.
Qed.

Lemma step_times_ok late e (st : vst) :
  times_ok st -> times_ok (fst (step cfg late e st)).
Proof using IclSetLaws0 IclMapLaws0.
  intros [Hts Ht]. unfold times_ok. rewrite step_timestamp.
  assert (0 <= if decide (type e = _FENCE) then 1 else 0) as Hd by (case_decide; lia).
  revert Hd. generalize (if decide (type e = _FENCE) then 1 else 0). intros d Hd.
  split; [lia|]. intros x t. rewrite step_time by done.
  assert (time st x = Some t -> 1 <= Z.abs t <= timestamp st + d) as Hold.
  { intros H. specialize (Ht x t H). lia. }
  destruct (type e); try exact Hold; (case_decide; [|exact Hold]); intros [= <-];
    rewrite ?timestamp_atleast_pos, ?timestamp_exactly_pos by done; lia.
Qed.

(** ** States along a trace *)

(** The state before entry [k] of a trace. *)
Fixpoint state_at (tr : list Metadata) (k : nat) : vst :=
  match k with
  | O => VeriState_init
  | Datatypes.S k' =>
      match tr !! k' with
      | Some e => fst (step cfg (negb (fence_ahead (drop k tr))) e (state_at tr k'))
      | None => state_at tr k'
      end
  end.

(** What entry [e] at [k] prints. *)
Definition out_at (tr : list Metadata) (k : nat) (e : Metadata) : list report :=
  snd (step cfg (negb (fence_ahead (drop (Datatypes.S k) tr))) e (state_at tr k)).

Lemma run_state_at tr k :
  (k <= length tr)%nat ->
  exists o, run cfg tr VeriState_init =
    (let '(st, o') := run cfg (drop k tr) (state_at tr k) in (st, o ++ o')).
Proof.
  induction k as [|k IH]; intros Hk.
  { exists []. rewrite drop_0. simpl. by destruct (run cfg tr VeriState_init). }
  destruct IH as [o Ho]; [lia|].
  destruct (lookup_lt_is_Some_2 tr k) as [e He]; [lia|].
  rewrite (drop_S tr e k He), run_cons in Ho. simpl. rewrite He.
  destruct (step cfg (negb (fence_ahead (drop (Datatypes.S k) tr))) e (state_at tr k))
    as [st1 o1]. simpl in *.
  exists (o ++ o1). rewrite Ho. destruct (run cfg (drop (Datatypes.S k) tr) st1).
  by rewrite app_assoc.
Qed.

(** Every message of an entry is part of the output of the checker. *)
Lemma out_at_check tr k e r :
  tr !! k = Some e -> r ∈ out_at tr k e -> r ∈ check (S:=S) (M:=M) cfg tr.
Proof.
  intros He Hr. pose proof (lookup_lt_Some _ _ _ He).
  destruct (run_state_at tr k) as [o Ho]; [lia|].
  unfold check. rewrite Ho, (drop_S tr e k He), run_cons. unfold out_at in Hr.
  destruct (step cfg (negb (fence_ahead (drop (Datatypes.S k) tr))) e (state_at tr k))
    as [st1 o1]. simpl in *.
  destruct (run cfg (drop (Datatypes.S k) tr) st1) as [st2 o2].
  rewrite !elem_of_app. auto.
Qed.

(** Entries that respect the address space. *)
Definition entry_ok (e : Metadata) : Prop :=
  0 <= addr e /\ 0 <= msize e /\ addr e + msize e < 2 ^ 64.

Lemma covers_ok e x : entry_ok e -> covers e x <-> addr e <= x < addr e + msize e.
Proof.
  intros (? & ? & ?). unfold covers, addrinterval, in_interval. simpl.
  rewrite u64_small by lia. lia.
Qed.

(** ** Exclusion along a trace *)

(** Byte [x] is under [PMTest_exclude] before entry [k]: of the entries
    [_EXCLUDE] and [_INCLUDE] about it, the last is an [_EXCLUDE]. *)
Fixpoint under_exclude (tr : list Metadata) (k : nat) (x : Z) : Prop :=
  match k with
  | O => False
  | Datatypes.S k' =>
      match tr !! k' with
      | Some e =>
          match type e with
          | _EXCLUDE => covers e x \/ under_exclude tr k' x
          | _INCLUDE => ~ covers e x /\ under_exclude tr k' x
          | _ => under_exclude tr k' x
          end
      | None => under_exclude tr k' x
      end
  end.

(** Entry [e] at [k] is skipped: a byte of it is excluded there. *)
Definition skipped (tr : list Metadata) (k : nat) (e : Metadata) : Prop :=
  PMTEST_EXCLUDE cfg = true /\ exists x, covers e x /\ under_exclude tr k x.

(** No entry of type [t] about [x] before [k] is skipped. *)
Definition seen (t : MetadataType) (tr : list Metadata) (k : nat) (x : Z) : Prop :=
  forall j e, (j < k)%nat -> tr !! j = Some e -> type e = t -> covers e x -> ~ skipped tr j e.

Lemma seen_mono t tr j k x : (j <= k)%nat -> seen t tr k x -> seen t tr j x.
Proof. intros Hjk H i e Hi. apply H. lia. Qed.

Lemma state_at_exclude tr k x :
  iset_contains x (ExcludeInfo (state_at tr k)) <-> under_exclude tr k x.
Proof using IclSetLaws0.
  induction k as [|k IH]; simpl.
  - split; [|done]. apply iset_contains_empty.
  - destruct (tr !! k) as [e|]; [|done]. rewrite step_exclude. destruct (type e); tauto.
Qed.

Lemma state_at_hidden tr k x :
  hidden (state_at tr k) x <-> PMTEST_EXCLUDE cfg = true /\ under_exclude tr k x.
Proof using IclSetLaws0. unfold hidden. by rewrite state_at_exclude. Qed.

Lemma state_at_counted tr k e :
  0 < msize e -> counted (state_at tr k) e = true <-> ~ skipped tr k e.
Proof using IclSetLaws0.
  intros Hsz. unfold counted. rewrite negb_true_iff, excluded_false. split.
  - intros H (Hc & x & [_ Hx] & Hu). apply (H x Hx). by rewrite state_at_hidden.
  - intros H x Hx [Hc Hu]%state_at_hidden. apply H. split; [done|]. by exists x.
Qed.

(** An entry about [x] of a type that is always seen counts. *)
Lemma seen_counted t tr k x j e :
  seen t tr k x -> (j < k)%nat -> tr !! j = Some e -> type e = t -> covers e x ->
  counted (state_at tr j) e = true.
Proof using IclSetLaws0.
  intros Hseen Hj He Ht Hc. apply state_at_counted; [apply Hc|]. by apply Hseen.
Qed.

Lemma state_at_times_ok tr k : times_ok (state_at tr k).
Proof using IclSetLaws0 IclMapLaws0.
  induction k as [|k IH]; simpl.
  - split; [simpl; lia|]. intros x t. unfold time. simpl. by rewrite imap_lookup_empty.
  - destruct (tr !! k) as [e|] eqn:He; [|done]. by apply step_times_ok.
Qed.

(** The clock counts the fences. *)
Definition n_fences (tr : list Metadata) : nat :=
  length (List.filter (fun e => bool_decide (type e = _FENCE)) tr).

Lemma state_at_timestamp tr k :
  (k <= length tr)%nat ->
  timestamp (state_at tr k) = 1 + Z.of_nat (n_fences (take k tr)).
Proof.
  induction k as [|k IH]; intros Hk; [done|].
  destruct (lookup_lt_is_Some_2 tr k) as [e He]; [lia|]. simpl. rewrite He.
  rewrite step_timestamp, IH, (take_S_r _ _ _ He) by lia.
  unfold n_fences. rewrite List.filter_app, length_app. simpl.
  case_decide; [rewrite bool_decide_true by done|rewrite bool_decide_false by done];
    simpl; lia.
Qed.

End Facts.

(** ** Properties *)

(** The persistence check is exact.  Over a range no byte of which is
    excluded, [VeriProc_Persist] answers 0 and prints nothing exactly when no
    byte is dirty; otherwise it answers -1 and names a non-empty part of the
    range all of whose bytes are dirty. *)
Theorem persist_check_exact {S M P} `{!IclSet S, !IclSetLaws S} (cfg : config)
    (m : Metadata) (st : VeriState S M P) (Hsz : 0 < msize m)
    (Hvis : forall x, covers m x -> ~ hidden cfg st x) :
  (VeriProc_Persist cfg m st = (0, []) <-> forall x, covers m x -> ~ dirty st x) /\
  ((exists x, covers m x /\ dirty st x) <->
   exists lo hi, VeriProc_Persist cfg m st =
       (-1, [PersistError (filename_temp m) (line_num m) lo hi]) /\
     lo < hi /\ forall x, lo <= x < hi -> covers m x /\ dirty st x).
Proof.
  destruct (VeriProc_Persist_cases cfg m st Hsz)
    as [(_ & y & Hy & Hh)|[(-> & Hall)|(lo & hi & -> & Hlt & Hd & _)]].
  - exfalso. by apply (Hvis y).
  - split; split.
    + intros _ x [_ Hx]. by apply Hall.
    + done.
    + intros (x & [_ Hx] & Hdx). by destruct (Hall x Hx) as [_ []].
    + by intros (lo & hi & [=] & _).
  - assert (covers m lo /\ dirty st lo) as [Hc Hdl].
    { destruct (Hd lo) as [H1 H2]; [lia|]. done. }
    split; split.
    + done.
    + intros H. by destruct (H lo Hc).
    + intros _. exists lo, hi. split; [done|]. split; [done|]. intros x Hx.
      by destruct (Hd x Hx).
    + intros _. by exists lo.
Qed.

(** The order check is exact.  Over two ranges no byte of which is
    excluded, and as long as the epoch counter is below [INT_MAX],
    [VeriProc_Order] answers 0 exactly when every byte of the early range has
    an exact timestamp, every byte of the late range has been assigned, and each
    early timestamp is strictly below each late one. *)
Theorem order_check_exact {S M P} `{!IclSet S, !IclSetLaws S} `{!IclMap M, !IclMapLaws M}
    (cfg : config) (m : Metadata) (st : VeriState S M P)
    (Hsz : 0 < msize m) (Hsz_late : 0 < size_late m)
    (Htimes : times_ok st) (Hmax : timestamp st < INT_MAX)
    (Hvis : forall x, x ∈i addrinterval (addr m) (msize m) \/
      x ∈i addrinterval (addr_late m) (size_late m) -> ~ hidden cfg st x) :
  VeriProc_Order cfg m st = (0, []) <->
  ordered st (addrinterval (addr m) (msize m)) (addrinterval (addr_late m) (size_late m)).
Proof. by apply VeriProc_Order_ordered. Qed.

(** States for the two checks above: [16, 20) exact at 1, [32, 36) open at 2. *)
Definition sample_state : VeriState (Shadow.shadow bool) (Shadow.shadow Z) Metadata :=
  mkVeriState iset_empty (iset_add iset_empty (right_open 32 36)) iset_empty
    (imap_set (imap_set imap_empty (right_open 16 20) 1) (right_open 32 36) (-2))
    [] 2 0.

Lemma sample_state_visible cfg x : ~ hidden cfg sample_state x.
Proof. intros [_ H]. by apply (iset_contains_empty x) in H. Qed.

Lemma persist_check_exact_witness :
  VeriProc_Persist (mkConfig true false) (mkMetadata 30 0 _PERSIST 4 0 0 []) sample_state =
    (-1, [PersistError [] 0 32 34]) /\
  exists x, covers (mkMetadata 30 0 _PERSIST 4 0 0 []) x /\ dirty sample_state x.
Proof.
  split; [reflexivity|].
  apply (persist_check_exact (mkConfig true false)
    (mkMetadata 30 0 _PERSIST 4 0 0 []) sample_state).
  - reflexivity.
  - intros x _. apply sample_state_visible.
  - exists 32, 34. split; [reflexivity|]. split; [reflexivity|].
    intros x Hx. split.
    + split; [reflexivity|]. change (30 <= x < 34). lia.
    + apply iset_contains_add. left. change (32 <= x < 36). lia.
Defined.

Lemma sample_state_times x t : time sample_state x = Some t -> t = 1 \/ t = -2.
Proof.
  unfold time, sample_state, OrderInfo. rewrite !imap_lookup_set, imap_lookup_empty.
  repeat case_decide; naive_solver.
Qed.

Lemma order_check_exact_witness :
  VeriProc_Order (mkConfig true false) (mkMetadata 16 32 _ORDER 4 4 0 []) sample_state =
    (0, []) /\
  ordered sample_state (right_open 16 20) (right_open 32 36).
Proof.
  split; [reflexivity|].
  apply (order_check_exact (mkConfig true false)
    (mkMetadata 16 32 _ORDER 4 4 0 []) sample_state).
  - reflexivity.
  - reflexivity.
  - split; [simpl; lia|]. intros x t [->| ->]%sample_state_times; simpl; lia.
  - reflexivity.
  - intros x _. apply sample_state_visible.
  - reflexivity.
Defined.
