(* ===== verification/Soundness.v ===== *)
(** * The checker against the machine

    A trace is executed on the persistent memory of [Pmem]: an assignment
    stores its own position in the trace to every byte it covers, so that the
    value of a byte names the assignment that wrote it.  The theorems relate
    what [VeriProc] reports about a query to what a crash at the query, or
    anywhere before it, can leave in memory. *)

From Stdlib Require Import Ascii Sorted.
From stdpp Require Import strings.
From S2P Require Import Prelude Intervals Metadata Checker CheckerFacts Pmem.

(** ** Executing a trace *)

Definition in_range (e : Metadata) (x : Z) : bool :=
  (addr e <=? x) && (x <? addr e + msize e).

Definition hw_step (n : nat) (e : Metadata) (m : pmem) : pmem :=
  match type e with
  | _ASSIGN => pm_store_range m (in_range e) (Z.of_nat n)
  | _FLUSH => pm_flush m (in_range e)
  | _FENCE => pm_fence m
  | _ => m
  end.

(** The memory before entry [k]; bytes never written hold -1. *)
Fixpoint hw_at (tr : list Metadata) (k : nat) : pmem :=
  match k with
  | O => pm_boot (fun _ => -1)
  | S k' =>
      match tr !! k' with
      | Some e => hw_step k' e (hw_at tr k')
      | None => hw_at tr k'
      end
  end.

(** Every flush of [x] before position [k] is followed by a fence before [k]. *)
Definition settled (tr : list Metadata) (k : nat) (x : Z) : Prop :=
  forall j e, (j < k)%nat -> tr !! j = Some e -> type e = _FLUSH -> covers e x ->
  exists i f, (j < i < k)%nat /\ tr !! i = Some f /\ type f = _FENCE.

(** [x] is assigned before [k] and not flushed since. *)
Definition unflushed (tr : list Metadata) (k : nat) (x : Z) : Prop :=
  exists j e, (j < k)%nat /\ tr !! j = Some e /\ type e = _ASSIGN /\ covers e x /\
  forall i f, (j < i < k)%nat -> tr !! i = Some f -> type f = _FLUSH -> ~ covers f x.

(** ** Facts about the machine *)

Lemma in_range_covers e x : entry_ok e -> in_range e x = true <-> covers e x.
Proof. intros He. rewrite covers_ok by done. unfold in_range. lia. Qed.

Lemma in_range_not_covers e x : entry_ok e -> in_range e x = false <-> ~ covers e x.
Proof. intros He. rewrite covers_ok by done. unfold in_range. lia. Qed.

(** The effect of an entry on a byte. *)
Lemma hw_step_cell n e m x :
  entry_ok e ->
  hw_step n e m x =
    match type e with
    | _ASSIGN => if decide (covers e x)
        then mkCell (c_durable (m x)) (c_pending (m x) ++ [Z.of_nat n]) (c_flushed (m x))
        else m x
    | _FLUSH => if decide (covers e x)
        then mkCell (c_durable (m x)) (c_pending (m x)) (length (c_pending (m x)))
        else m x
    | _FENCE => fence_cell (m x)
    | _ => m x
    end.
Proof.
  intros He. unfold hw_step, pm_store_range, pm_flush, pm_fence.
  destruct (type e); try done; (case_decide as Hc;
    [by rewrite (proj2 (in_range_covers e x He))|by rewrite (proj2 (in_range_not_covers e x He))]).
Qed.

(** Values of a byte: the durable one first, then the pending ones, increase. *)
Definition cell_wf (n : nat) (c : cell) : Prop :=
  StronglySorted Z.lt (c_durable c :: c_pending c) /\
  Forall (fun v => -1 <= v < Z.of_nat n) (c_durable c :: c_pending c) /\
  (c_flushed c <= length (c_pending c))%nat.

Lemma StronglySorted_snoc (l : list Z) v :
  StronglySorted Z.lt l -> Forall (fun w => w < v) l -> StronglySorted Z.lt (l ++ [v]).
Proof.
  induction 1 as [|w l Hs IH Hw]; intros Hv; simpl.
  - repeat constructor.
  - apply Forall_cons in Hv as [Hwv Hv]. constructor; [auto|].
    apply Forall_app. split; [done|]. by repeat constructor.
Qed.

Lemma StronglySorted_drop (l : list Z) n : StronglySorted Z.lt l -> StronglySorted Z.lt (drop n l).
Proof.
  intros Hs. revert n. induction Hs as [|w l Hs IH Hw]; intros [|n]; simpl;
    [constructor..|by constructor|auto].
Qed.

Lemma hw_at_wf tr k x : Forall entry_ok tr -> cell_wf k (hw_at tr k x).
Proof.
  intros Hok. induction k as [|k IH]; simpl.
  { unfold cell_wf. simpl. split_and!; [repeat constructor|repeat constructor; lia|lia]. }
  assert (cell_wf (S k) (hw_at tr k x)) as Hmono.
  { destruct IH as (? & Hb & ?). split_and!; [done| |done].
    eapply Forall_impl; [exact Hb|]. simpl. lia. }
  destruct (tr !! k) as [e|] eqn:He; [|done].
  rewrite hw_step_cell by (by apply (Forall_lookup_1 _ _ _ _ Hok He)).
  destruct (type e); try done.
  - case_decide; [|done]. destruct IH as (Hs & Hb & Hf), Hmono as (_ & Hb' & _).
    unfold cell_wf. simpl. rewrite app_comm_cons. split_and!.
    + apply StronglySorted_snoc; [done|]. eapply Forall_impl; [exact Hb|]. simpl. lia.
    + apply Forall_app. split; [done|]. repeat constructor; lia.
    + rewrite length_app. lia.
  - case_decide; [|done]. destruct Hmono as (? & ? & ?). split_and!; simpl; done || lia.
  - destruct Hmono as (Hs & Hb & Hf). unfold cell_wf.
    rewrite fence_cell_suffix by done. split_and!.
    + by apply StronglySorted_drop.
    + by apply Forall_drop.
    + simpl. lia.
Qed.

Lemma hw_at_read_S tr k e x :
  Forall entry_ok tr -> tr !! k = Some e ->
  pm_read (hw_at tr (S k)) x =
    if decide (type e = _ASSIGN /\ covers e x) then Z.of_nat k
    else pm_read (hw_at tr k) x.
Proof.
  intros Hok He. simpl. rewrite He. unfold pm_read at 1.
  rewrite hw_step_cell by (by apply (Forall_lookup_1 _ _ _ _ Hok He)).
  destruct (decide (type e = _ASSIGN /\ covers e x)) as [[Ht Hc]|Hno].
  - rewrite Ht, decide_True by done. simpl. apply List.last_last.
  - destruct (type e) eqn:Ht; try done.
    + by rewrite decide_False by tauto.
    + by case_decide.
    + apply (pm_read_fence (hw_at tr k) x).
Qed.

(** A byte no flush of which is still waiting for a fence. *)
Lemma settled_flushed tr k x :
  Forall entry_ok tr -> settled tr k x -> c_flushed (hw_at tr k x) = 0%nat.
Proof.
  intros Hok. induction k as [|k IH]; intros Hset; simpl; [done|].
  destruct (tr !! k) as [e|] eqn:He; cycle 1.
  { apply IH. intros j f Hj Hf Ht Hc. destruct (Hset j f) as (i & g & Hi & Hg & ?); [lia|done..|].
    exists i, g. split; [|done]. assert (i <> k) by congruence. lia. }
  rewrite hw_step_cell by (by apply (Forall_lookup_1 _ _ _ _ Hok He)).
  destruct (decide (type e = _FENCE)) as [->|Hnf]; [done|].
  assert (settled tr k x) as Hset'.
  { intros j f Hj Hf Ht Hc. destruct (Hset j f) as (i & g & Hi & Hg & Htg); [lia|done..|].
    exists i, g. split; [|done]. assert (i <> k) by congruence. lia. }
  destruct (type e) eqn:Ht; try (by apply IH).
  - case_decide; by apply IH.
  - case_decide as Hc; [|by apply IH].
    destruct (Hset k e) as (i & _ & ? & _); [lia|done..|lia].
  - done.
Qed.

(** ** The checker's state against the machine's *)

Section Link.
Context {S M : Type} `{!IclSet S, !IclSetLaws S} `{!IclMap M, !IclMapLaws M}.
Context (cfg : config) (tr : list Metadata) (Hok : Forall entry_ok tr).
Local Abbreviation st_at := (state_at (S:=S) (M:=M) cfg tr).

Lemma entry_ok_at k e : tr !! k = Some e -> entry_ok e.
Proof using Hok. intros He. by apply (Forall_lookup_1 _ _ _ _ Hok He). Qed.

(** Rewrites the state and the memory after entry [k]. *)
Lemma st_at_S k e :
  tr !! k = Some e ->
  st_at (Datatypes.S k) =
    fst (step cfg (negb (fence_ahead (drop (Datatypes.S k) tr))) e (st_at k)).
Proof. intros He. simpl. by rewrite He. Qed.

Lemma hw_at_S k e x :
  tr !! k = Some e -> hw_at tr (Datatypes.S k) x = hw_step k e (hw_at tr k) x.
Proof. intros He. simpl. by rewrite He. Qed.

Lemma past_end k : tr !! k = None ->
  st_at (Datatypes.S k) = st_at k /\ forall x, hw_at tr (Datatypes.S k) x = hw_at tr k x.
Proof. intros He. simpl. by rewrite He. Qed.

(** All stores to a byte that is not dirty are covered by a flush. *)
Lemma clean_flushed k x :
  seen cfg _ASSIGN tr k x -> ~ dirty (st_at k) x ->
  c_flushed (hw_at tr k x) = length (c_pending (hw_at tr k x)).
Proof using Hok IclSetLaws0.
  induction k as [|k IH]; intros Hseen Hd; [done|].
  assert (seen cfg _ASSIGN tr k x) as Hseen' by (by eapply seen_mono; [|exact Hseen]; lia).
  destruct (tr !! k) as [e|] eqn:He; cycle 1.
  { destruct (past_end k He) as [Hs ->]. rewrite Hs in Hd. auto. }
  rewrite (st_at_S k e He), step_dirty in Hd.
  rewrite (hw_at_S k e x He), hw_step_cell by (by eapply entry_ok_at).
  destruct (type e) eqn:Ht; try (by auto).
  - case_decide as Hc; [|apply IH; tauto].
    destruct Hd. left. split; [done|]. eapply seen_counted; [exact Hseen|lia|done..].
  - case_decide; [done|]. apply IH; tauto.
  - simpl. rewrite (IH Hseen' Hd). by rewrite drop_all.
Qed.

(** A dirty byte has a store that no fence has made durable. *)
Lemma dirty_pending k x :
  seen cfg _FLUSH tr k x -> dirty (st_at k) x ->
  c_pending (hw_at tr k x) <> [] /\
  ((c_flushed (hw_at tr k x) < length (c_pending (hw_at tr k x)))%nat \/
   fence_ahead (drop k tr) = false).
Proof using Hok IclSetLaws0.
  induction k as [|k IH]; intros Hseen Hd.
  { unfold dirty in Hd. simpl in Hd. by apply iset_contains_empty in Hd. }
  specialize (IH ltac:(by eapply seen_mono; [|exact Hseen]; lia)).
  destruct (tr !! k) as [e|] eqn:He; cycle 1.
  { destruct (past_end k He) as [Hs ->]. rewrite Hs in Hd.
    apply lookup_ge_None in He.
    rewrite !drop_ge in * by lia. auto. }
  pose proof (hw_at_wf tr k x Hok) as (_ & _ & Hfl).
  rewrite (st_at_S k e He), step_dirty in Hd.
  rewrite (hw_at_S k e x He), hw_step_cell by (by eapply entry_ok_at).
  rewrite (drop_S tr e k He) in IH. unfold fence_ahead in IH. simpl in IH.
  fold (fence_ahead (drop (Datatypes.S k) tr)) in IH.
  destruct (decide (type e = _FENCE)) as [Hf|Hf].
  - rewrite Hf in *. rewrite bool_decide_true in IH by done.
    destruct (IH Hd) as [_ [Hlt|[=]]]. simpl.
    split; [|left; rewrite length_drop; lia].
    intros Hnil%(f_equal length). rewrite length_drop in Hnil. simpl in Hnil. lia.
  - rewrite bool_decide_false in IH by done. simpl in IH.
    destruct (type e) eqn:Ht; try (by auto).
    + case_decide as Hc; [|apply IH; tauto]. simpl. split; [by destruct (c_pending _)|].
      left. rewrite length_app. simpl. lia.
    + destruct Hd as [Hlate Hd]. destruct (IH Hd) as [Hne Hor].
      case_decide as Hc; [|done]. simpl. split; [done|]. right.
      destruct (fence_ahead (drop (Datatypes.S k) tr)); [|done].
      exfalso. apply Hlate. split; [reflexivity|]. split; [exact Hc|].
      eapply seen_counted; [exact Hseen|lia|done..].
Qed.

(** An exact timestamp: everything is flushed, and durable once the epoch of
    the flush is over. *)
Lemma exact_flushed k x t :
  seen cfg _ASSIGN tr k x -> time (st_at k) x = Some t -> 0 <= t ->
  c_flushed (hw_at tr k x) = length (c_pending (hw_at tr k x)) /\
  (t < timestamp (st_at k) -> c_pending (hw_at tr k x) = []).
Proof using Hok IclSetLaws0 IclMapLaws0.
  revert t. induction k as [|k IH]; intros t Hseen Ht H0; [done|].
  specialize (fun t => IH t ltac:(by eapply seen_mono; [|exact Hseen]; lia)).
  destruct (tr !! k) as [e|] eqn:He; cycle 1.
  { destruct (past_end k He) as [Hs ->]. rewrite Hs in *. eauto. }
  pose proof (state_at_times_ok (S:=S) (M:=M) cfg tr k) as [Hts _].
  rewrite (st_at_S k e He) in *. rewrite step_timestamp.
  rewrite step_time in Ht.
  rewrite (hw_at_S k e x He), hw_step_cell by (by eapply entry_ok_at).
  destruct (decide (type e = _FENCE)) as [Hf|Hf].
  - rewrite Hf in *. destruct (IH t Ht H0) as [Hfl _]. simpl. rewrite Hfl, drop_all. done.
  - rewrite Z.add_0_r. destruct (type e) eqn:Hty; try (by eauto).
    + destruct (decide (covers e x)) as [Hc|Hc]; cycle 1.
      { rewrite decide_False in Ht by tauto. by eauto. }
      rewrite decide_True in Ht
        by (split; [done|]; eapply seen_counted; [exact Hseen|lia|done..]).
      injection Ht as <-. rewrite timestamp_atleast_pos in H0 by done. lia.
    + case_decide as Hl; cycle 1.
      { destruct (IH t Ht H0) as [Hfl Hdr]. by case_decide. }
      destruct Hl as (_ & Hc & _). rewrite decide_True by done. simpl. split; [done|].
      injection Ht as <-. rewrite timestamp_exactly_pos by done. lia.
Qed.

(** A byte assigned and not flushed since has an open timestamp. *)
Lemma unflushed_open k x :
  seen cfg _ASSIGN tr k x -> unflushed tr k x -> exists t, time (st_at k) x = Some t /\ t < 0.
Proof using Hok IclSetLaws0 IclMapLaws0.
  induction k as [|k IH]; intros Hseen (j & e & Hj & He & Ht & Hc & Hno); [lia|].
  specialize (IH ltac:(by eapply seen_mono; [|exact Hseen]; lia)).
  destruct (tr !! k) as [f|] eqn:Hf; cycle 1.
  { rewrite (proj1 (past_end k Hf)). apply IH.
    assert (j <> k) by congruence. exists j, e. split_and!; [lia|done..|].
    intros i g Hi. apply Hno. lia. }
  pose proof (state_at_times_ok (S:=S) (M:=M) cfg tr k) as [Hts _].
  rewrite (st_at_S k f Hf), step_time.
  destruct (decide (j = k)) as [->|Hne].
  - assert (f = e) as -> by congruence. rewrite Ht, decide_True
      by (split; [done|]; eapply seen_counted; [exact Hseen|lia|done..]).
    eexists. split; [done|]. rewrite timestamp_atleast_pos by done. lia.
  - destruct IH as (t & Hti & Hlt).
    { exists j, e. split_and!; [lia|done..|]. intros i g Hi. apply Hno. lia. }
    destruct (type f) eqn:Htf; try (by eauto).
    + case_decide; [|by eauto]. eexists. split; [done|].
      rewrite timestamp_atleast_pos by done. lia.
    + rewrite decide_False; [by eauto|]. intros (_ & Hcov & _).
      apply (Hno k f); [lia|done..].
Qed.

(** The heart of the order check: bytes [a] and [b] with timestamps [ta]
    (exact) and [tb] (open), [ta] before [tb].  At no crash point so far is the
    last store to [b] in memory while the last store to [a] is not. *)
Lemma order_history k a b ta tb :
  seen cfg _ASSIGN tr k a -> seen cfg _ASSIGN tr k b ->
  time (st_at k) a = Some ta -> 0 <= ta ->
  time (st_at k) b = Some tb -> tb < 0 -> ta < - tb ->
  forall j image, (j <= k)%nat -> pm_crash (hw_at tr j) image ->
    image b = pm_read (hw_at tr k) b -> image a = pm_read (hw_at tr k) a.
Proof using Hok IclSetLaws0 IclMapLaws0.
  revert ta tb. induction k as [|k IH]; intros ta tb Hsa Hsb Ha Ha0 Hb Hb0 Hlt j image Hj Hcrash Himg.
  { unfold time in Ha. simpl in Ha. by rewrite imap_lookup_empty in Ha. }
  destruct (decide (j = Datatypes.S k)) as [->|Hne].
  { apply pm_durable_crash; [|done]. unfold pm_durable.
    pose proof (state_at_times_ok (S:=S) (M:=M) cfg tr (Datatypes.S k)) as [_ Hle].
    specialize (Hle b tb Hb). apply (exact_flushed (Datatypes.S k) a ta); [done..|lia]. }
  specialize (fun ta tb => IH ta tb ltac:(by eapply seen_mono; [|exact Hsa]; lia)
    ltac:(by eapply seen_mono; [|exact Hsb]; lia)).
  destruct (tr !! k) as [e|] eqn:He; cycle 1.
  { destruct (past_end k He) as [Hs Hm]. rewrite Hs in *.
    assert (forall x, pm_read (hw_at tr (Datatypes.S k)) x = pm_read (hw_at tr k) x) as Hr
      by (intros x; unfold pm_read; by rewrite Hm).
    rewrite Hr in *. apply (IH ta tb Ha Ha0 Hb Hb0 Hlt j); [lia|done..]. }
  revert Himg. rewrite !(hw_at_read_S tr k e) by done.
  pose proof (state_at_times_ok (S:=S) (M:=M) cfg tr k) as [Hts Hle].
  rewrite (st_at_S k e He), step_time in Ha, Hb.
  destruct (decide (type e = _ASSIGN /\ covers e b)) as [Hab|Hnb].
  { (* the last store to [b] comes after every crash point considered *)
    intros Himg. pose proof (hw_at_wf tr j b Hok) as (_ & Hbound & _).
    specialize (Hcrash b). rewrite Himg in Hcrash.
    rewrite Forall_forall in Hbound. specialize (Hbound _ Hcrash). simpl in Hbound. lia. }
  destruct (decide (type e = _ASSIGN /\ covers e a)) as [[Haa1 Haa2]|Hna].
  { rewrite Haa1, decide_True in Ha
      by (split; [done|]; eapply seen_counted; [exact Hsa|lia|done..]).
    injection Ha as <-.
    rewrite timestamp_atleast_pos in Ha0 by done. lia. }
  assert (time (st_at k) b = Some tb) as Hb'.
  { clear Ha. destruct (type e); try done.
    - by rewrite decide_False in Hb by tauto.
    - case_decide; [|done]. injection Hb as <-.
      rewrite timestamp_exactly_pos in Hb0 by done. lia. }
  clear Hb. assert (time (st_at k) a = Some ta) as Ha'.
  { destruct (type e); try done.
    - by rewrite decide_False in Ha by tauto.
    - case_decide; [|done]. injection Ha as <-. specialize (Hle b tb Hb').
      rewrite timestamp_exactly_pos in Hlt by done. lia. }
  apply (IH ta tb Ha' Ha0 Hb' Hb0 Hlt j); [lia|done..].
Qed.

End Link.

(** ** Properties *)

Section Verdicts.
Context {S M : Type} `{!IclSet S, !IclSetLaws S} `{!IclMap M, !IclMapLaws M}.
Context (cfg : config) (tr : list Metadata).

(** A persistence query that is not skipped and prints nothing: no byte of it is
    dirty. *)
Lemma persist_silent k q x :
  tr !! k = Some q -> type q = _PERSIST -> covers q x -> ~ skipped cfg tr k q ->
  (forall f l lo hi, PersistError f l lo hi ∉ check (S:=S) (M:=M) cfg tr) ->
  ~ dirty (state_at (S:=S) (M:=M) cfg tr k) x.
Proof using IclSetLaws0.
  intros Hq Ht [Hsz Hx] Hskip Hno.
  destruct (VeriProc_Persist_cases cfg q (state_at (S:=S) (M:=M) cfg tr k) Hsz)
    as [(_ & y & HyI & Hy)|[(_ & Hall)|(lo & hi & Hp & _)]].
  - destruct Hskip. apply state_at_hidden in Hy as [? ?]. split; [done|]. by exists y.
  - by apply Hall.
  - exfalso. eapply Hno, (out_at_check (S:=S) (M:=M) cfg tr k q _ Hq).
    unfold out_at, step. rewrite Ht, Hp. left.
Qed.

(** The late range of an order query as a range of its own. *)
Definition late_part (q : Metadata) : Metadata :=
  mkMetadata (addr_late q) 0 (type q) (size_late q) 0 (line_num q) (file_name q).

(** An order query that is not skipped and prints nothing: the ranges are
    [ordered]. *)
Lemma order_silent k q :
  tr !! k = Some q -> type q = _ORDER -> 0 < msize q -> 0 < size_late q ->
  ~ skipped cfg tr k q -> ~ skipped cfg tr k (late_part q) ->
  Z.of_nat (length tr) < INT_MAX - 1 ->
  (forall f l a b c d, OrderError f l a b c d ∉ check (S:=S) (M:=M) cfg tr) ->
  (forall f l, OrderUnassigned f l ∉ check (S:=S) (M:=M) cfg tr) ->
  ordered (state_at (S:=S) (M:=M) cfg tr k)
    (addrinterval (addr q) (msize q)) (addrinterval (addr_late q) (size_late q)).
Proof using IclSetLaws0 IclMapLaws0.
  intros Hq Ht Hsz Hszl Hsk Hskl Hlen Hno1 Hno2.
  assert (snd (VeriProc_Order cfg q (state_at (S:=S) (M:=M) cfg tr k)) =
    out_at (S:=S) (M:=M) cfg tr k q) as Hout by (unfold out_at, step; by rewrite Ht).
  assert (forall x, x ∈i addrinterval (addr q) (msize q) \/
      x ∈i addrinterval (addr_late q) (size_late q) ->
    ~ hidden cfg (state_at (S:=S) (M:=M) cfg tr k) x) as Hhid.
  { intros x Hx [Hc Hu]%state_at_hidden. destruct Hx; [apply Hsk|apply Hskl];
      (split; [done|]; exists x; split; [by split|done]). }
  apply (VeriProc_Order_ordered cfg q); [done..|apply state_at_times_ok| |by auto|].
  - pose proof (lookup_lt_Some _ _ _ Hq). rewrite state_at_timestamp by lia.
    unfold n_fences.
    pose proof (List.filter_length_le (fun e => bool_decide (type e = _FENCE)) (take k tr)).
    rewrite length_take in *. lia.
  - assert (forall r, r ∈ snd (VeriProc_Order cfg q (state_at (S:=S) (M:=M) cfg tr k)) ->
      r ∈ check (S:=S) (M:=M) cfg tr) as Hin.
    { intros r. rewrite Hout. by apply out_at_check. }
    revert Hin. unfold VeriProc_Order.
    rewrite !(proj2 (excluded_false cfg _ _)) by (intros x Hx; apply Hhid; auto).
    rewrite (proj2 (Z.ltb_lt _ _)), (proj2 (Z.ltb_lt 0 (size_late q))) by done. simpl.
    if_cases; [|done|]; intros Hin; exfalso.
    + eapply Hno1, Hin. left.
    + eapply Hno2, Hin. left.
Qed.

End Verdicts.

(** A query about which nothing is printed is durable, where its flushes have been
    fenced. *)
Lemma persist_durable_at {S M} `{!IclSet S, !IclSetLaws S} `{!IclMap M, !IclMapLaws M}
    (cfg : config) (objs : list Metadata) (veriptr : list nat) (tr : list Metadata)
    (k : nat) (q : Metadata) (x : Z) :
  NoDup veriptr -> Forall2 (fun p m => objs !! p = Some m) veriptr tr -> Forall entry_ok tr ->
  tr !! k = Some q -> type q = _PERSIST -> covers q x ->
  ~ skipped cfg tr k q -> seen cfg _ASSIGN tr k x -> settled tr k x ->
  (forall f l lo hi,
     PersistError f l lo hi ∉ printed_out (VeriProc (S:=S) (M:=M) cfg veriptr objs)) ->
  pm_durable (hw_at tr k) x.
Proof.
  intros Hnodup Htr Hok Hq Htype Hx Hskip Hseen Hsettled Hsilent.
  destruct (VeriProc_spec (S:=S) (M:=M) cfg objs veriptr tr Hnodup Htr) as [Hout _].
  rewrite Hout in Hsilent. apply nil_length_inv.
  rewrite <- (clean_flushed (S:=S) (M:=M) cfg tr Hok k x Hseen); [by apply settled_flushed|].
  by eapply persist_silent.
Qed.

(** C3: soundness of [PMTest_isPersistent].  If a run of [VeriProc] prints no
    PERSIST ERROR, take a persistence query of the trace and a byte of it.  Suppose
    every flush of the byte has been fenced by then, and that neither the query nor
    an assignment to the byte before it has a byte that is under [PMTest_exclude]
    at that point (the checker skips such entries).  Then a crash at the query
    leaves the value of the last assignment to the byte: the data is persistent. *)
Theorem persist_sound {S M} `{!IclSet S, !IclSetLaws S} `{!IclMap M, !IclMapLaws M}
    (cfg : config) (objs : list Metadata) (veriptr : list nat) (tr : list Metadata)
    (k : nat) (q : Metadata) (x : Z) (image : Z -> Z)
    (Hnodup : NoDup veriptr)
    (Htr : Forall2 (fun p m => objs !! p = Some m) veriptr tr)
    (Hok : Forall entry_ok tr)
    (Hq : tr !! k = Some q) (Htype : type q = _PERSIST) (Hx : covers q x)
    (Hskip : ~ skipped cfg tr k q) (Hseen : seen cfg _ASSIGN tr k x)
    (Hsettled : settled tr k x)
    (Hsilent : forall f l lo hi,
       PersistError f l lo hi ∉ printed_out (VeriProc (S:=S) (M:=M) cfg veriptr objs))
    (Hcrash : pm_crash (hw_at tr k) image) :
  image x = pm_read (hw_at tr k) x.
Proof.
  apply pm_durable_crash; [|done]. by eapply persist_durable_at.
Qed.

(** C4: soundness of [PMTest_isPersistedBefore].  If a run of [VeriProc] prints
    no ORDER ERROR, take an order query of the trace, a byte [a] of its early range
    and a byte [b] of its late range that has not been flushed since its last
    assignment.  Suppose neither the query nor an assignment to [a] or [b] before
    it has a byte that is under [PMTest_exclude] at that point.  Then at no point
    of the execution up to the query can a crash leave the last value of [b] in
    memory without the last value of [a]. *)
Theorem order_sound {S M} `{!IclSet S, !IclSetLaws S} `{!IclMap M, !IclMapLaws M}
    (cfg : config) (objs : list Metadata) (veriptr : list nat) (tr : list Metadata)
    (k : nat) (q : Metadata) (a b : Z) (j : nat) (image : Z -> Z)
    (Hnodup : NoDup veriptr)
    (Htr : Forall2 (fun p m => objs !! p = Some m) veriptr tr)
    (Hok : Forall entry_ok tr) (Hlen : Z.of_nat (length tr) < INT_MAX - 1)
    (Hq : tr !! k = Some q) (Htype : type q = _ORDER)
    (Ha : covers q a) (Hb : covers (late_part q) b)
    (Hskip : ~ skipped cfg tr k q) (Hskip_late : ~ skipped cfg tr k (late_part q))
    (Hseen_a : seen cfg _ASSIGN tr k a) (Hseen_b : seen cfg _ASSIGN tr k b)
    (Hopen : unflushed tr k b)
    (Hsilent1 : forall f l a b c d,
       OrderError f l a b c d ∉ printed_out (VeriProc (S:=S) (M:=M) cfg veriptr objs))
    (Hsilent2 : forall f l,
       OrderUnassigned f l ∉ printed_out (VeriProc (S:=S) (M:=M) cfg veriptr objs))
    (Hj : (j <= k)%nat) (Hcrash : pm_crash (hw_at tr j) image)
    (Hlate : image b = pm_read (hw_at tr k) b) :
  image a = pm_read (hw_at tr k) a.
Proof.
  destruct (VeriProc_spec (S:=S) (M:=M) cfg objs veriptr tr Hnodup Htr) as [Hout _].
  rewrite Hout in Hsilent1, Hsilent2.
  destruct Ha as [Hsz Ha], Hb as [Hszl Hb].
  destruct (order_silent (S:=S) (M:=M) cfg tr k q) as (H1 & _ & H3); [done..|].
  destruct (H1 a Ha) as (ta & Hta & Hta0).
  destruct (unflushed_open (S:=S) (M:=M) cfg tr Hok k b Hseen_b Hopen) as (tb & Htb & Htb0).
  specialize (H3 a b ta tb Ha Hb Hta Htb). rewrite timestamp_exactly_abs in H3.
  apply (order_history (S:=S) (M:=M) cfg tr Hok k a b ta tb Hseen_a Hseen_b) with (j := j);
    done || lia.
Qed.

(** C20: no false alarm from [PMTest_isPersistent].  When every byte of a query
    is durable at the point of the query, and no flush of one of these bytes was
    skipped because a byte of its range was under [PMTest_exclude], the checker
    prints nothing for the query. *)
Theorem persist_no_false_alarm {S M} `{!IclSet S, !IclSetLaws S}
    `{!IclMap M, !IclMapLaws M} (cfg : config) (tr : list Metadata) (k : nat) (q : Metadata)
    (Hok : Forall entry_ok tr) (Hq : tr !! k = Some q) (Htype : type q = _PERSIST)
    (Hseen : forall x, covers q x -> seen cfg _FLUSH tr k x)
    (Hdur : forall x, covers q x -> pm_durable (hw_at tr k) x) :
  out_at (S:=S) (M:=M) cfg tr k q = [].
Proof.
  unfold out_at, step. rewrite Htype. simpl.
  destruct (decide (0 < msize q)) as [Hsz|Hsz]; cycle 1.
  { unfold VeriProc_Persist. by rewrite (proj2 (Z.ltb_ge _ _)) by lia. }
  destruct (VeriProc_Persist_cases cfg q (state_at (S:=S) (M:=M) cfg tr k) Hsz)
    as [(-> & _)|[(-> & _)|(lo & hi & _ & Hlt & Hd & _)]]; [done..|].
  destruct (Hd lo) as [Hlo Hdirty]; [lia|].
  apply (dirty_pending (S:=S) (M:=M) cfg tr Hok) in Hdirty as [Hne _].
  - by destruct Hne; apply Hdur.
  - by apply Hseen.
Qed.

(** ** Concrete traces *)

(** Entries without a source location, and the trace of distinct entries. *)
Definition ev (t : MetadataType) (a sz : Z) : Metadata := mkMetadata a 0 t sz 0 0 [].
Definition ev_order (a sz b szb : Z) : Metadata := mkMetadata a b _ORDER sz szb 0 [].
Definition default_config : config := mkConfig true false.

Lemma seq_trace (tr : list Metadata) :
  Forall2 (fun p m => tr !! p = Some m) (seq 0 (length tr)) tr.
Proof.
  apply Forall2_same_length_lookup. split; [by rewrite length_seq|].
  intros i p m Hp Hm. apply lookup_seq in Hp as [-> _]. done.
Qed.

(** [Exclude C; Assign C; Assign A; Flush A; Fence; isPersistent A]. *)
Definition trace_persisted : list Metadata :=
  [ev _EXCLUDE 48 4; ev _ASSIGN 48 4; ev _ASSIGN 16 4; ev _FLUSH 16 4; ev _FENCE 0 0;
   ev _PERSIST 16 4].

Lemma trace_persisted_ok : Forall entry_ok trace_persisted.
Proof. repeat constructor; done. Qed.

(** A trace whose only exclusion is its first entry. *)
Lemma excluded_head e0 l k x :
  Forall (fun e => type e <> _EXCLUDE) l -> under_exclude (e0 :: l) k x -> covers e0 x.
Proof.
  intros Hl. induction k as [|k IH]; [done|].
  destruct k as [|k]; cbn [under_exclude lookup list_lookup].
  - destruct (type e0); intros H; try done; [by destruct H as [H|[]]|by destruct H as [_ []]].
  - destruct (l !! k) as [e|] eqn:He; [|exact IH].
    pose proof (Forall_lookup_1 _ _ _ _ Hl He) as Hne. cbv beta in Hne.
    destruct (type e) eqn:Ht; try exact IH; [congruence|]. intros [_ H']. exact (IH H').
Qed.

(** Away from the excluded range nothing is skipped. *)
Lemma not_skipped_48 l k e :
  Forall (fun e => type e <> _EXCLUDE) l -> entry_ok e -> addr e + msize e <= 48 ->
  ~ skipped default_config (ev _EXCLUDE 48 4 :: l) k e.
Proof.
  intros Hl He Hend (_ & x & Hx & Hu). apply excluded_head, covers_ok in Hu; [|done..].
  apply covers_ok in Hx; [|done]. simpl in Hu. lia.
Qed.

Lemma seen_48 t l k x :
  Forall (fun e => type e <> _EXCLUDE) l ->
  Forall (fun e => entry_ok e /\ (type e = t -> addr e + msize e <= 48 \/ 48 <= addr e)) l ->
  t <> _EXCLUDE -> x < 48 -> seen default_config t (ev _EXCLUDE 48 4 :: l) k x.
Proof.
  intros Hl Hok Ht Hx j e _ He Hte Hc. destruct j as [|j].
  - injection He as <-. by simpl in Hte.
  - pose proof (Forall_lookup_1 _ _ _ _ Hok He) as [Hoke Hend].
    apply not_skipped_48; [done..|]. apply covers_ok in Hc; [|done]. destruct (Hend Hte); lia.
Qed.

Lemma trace_persisted_settled : settled trace_persisted 5 17.
Proof.
  intros j e Hj He Ht _. exists 4%nat, (ev _FENCE 0 0).
  destruct j as [|[|[|[|[|j]]]]]; try (injection He as <-; discriminate Ht); [|lia].
  split; [lia|done].
Qed.

Lemma persist_sound_witness :
  c_durable (hw_at trace_persisted 5 17) = 2 /\
  c_durable (hw_at trace_persisted 5 17) = pm_read (hw_at trace_persisted 5) 17.
Proof.
  split; [reflexivity|].
  apply (persist_sound (S:=Shadow.shadow bool) (M:=Shadow.shadow Z) default_config
    trace_persisted (seq 0 6) trace_persisted 5 (ev _PERSIST 16 4) 17
    (fun a => c_durable (hw_at trace_persisted 5 a))).
  - apply NoDup_seq.
  - apply seq_trace.
  - apply trace_persisted_ok.
  - reflexivity.
  - reflexivity.
  - split; [reflexivity|]. split; vm_compute; [discriminate|reflexivity].
  - apply not_skipped_48; [repeat constructor; discriminate|repeat constructor; done|simpl; lia].
  - apply seen_48; [repeat constructor; discriminate| |discriminate|lia].
    repeat constructor; simpl; (done || lia).
  - apply trace_persisted_settled.
  - intros f l lo hi H. vm_compute in H. by apply elem_of_nil in H.
  - intros a. left.
Defined.

(** [Exclude C; Assign A; Flush A; Fence; Assign B; isPersistedBefore A B]. *)
Definition trace_ordered : list Metadata :=
  [ev _EXCLUDE 48 4; ev _ASSIGN 16 4; ev _FLUSH 16 4; ev _FENCE 0 0; ev _ASSIGN 32 4;
   ev_order 16 4 32 4].

Lemma trace_ordered_ok : Forall entry_ok trace_ordered.
Proof. repeat constructor; done. Qed.

Lemma trace_ordered_open : unflushed trace_ordered 5 33.
Proof.
  exists 4%nat, (ev _ASSIGN 32 4).
  split; [lia|]. split; [done|]. split; [done|]. split.
  - split; [reflexivity|]. split; vm_compute; [discriminate|reflexivity].
  - intros i f Hi. lia.
Qed.

(** A crash before the query in which only the last store to byte 33 made it. *)
Definition image_late (a : Z) : Z :=
  if decide (a = 33) then 4 else c_durable (hw_at trace_ordered 5 a).

Lemma order_sound_witness :
  pm_crash (hw_at trace_ordered 5) image_late /\
  image_late 33 = pm_read (hw_at trace_ordered 5) 33 /\
  image_late 17 = pm_read (hw_at trace_ordered 5) 17.
Proof.
  assert (pm_crash (hw_at trace_ordered 5) image_late) as Hc.
  { intros a. unfold image_late. case_decide as Ha; [subst; right; left|left]. }
  split; [exact Hc|]. split; [reflexivity|].
  apply (order_sound (S:=Shadow.shadow bool) (M:=Shadow.shadow Z) default_config
    trace_ordered (seq 0 6) trace_ordered 5 (ev_order 16 4 32 4) 17 33 5).
  - apply NoDup_seq.
  - apply seq_trace.
  - apply trace_ordered_ok.
  - reflexivity.
  - reflexivity.
  - reflexivity.
  - split; [reflexivity|]. split; vm_compute; [discriminate|reflexivity].
  - split; [reflexivity|]. split; vm_compute; [discriminate|reflexivity].
  - apply not_skipped_48; [repeat constructor; discriminate|repeat constructor; done|simpl; lia].
  - apply not_skipped_48; [repeat constructor; discriminate|repeat constructor; done|simpl; lia].
  - apply seen_48; [repeat constructor; discriminate| |discriminate|lia].
    repeat constructor; simpl; (done || lia).
  - apply seen_48; [repeat constructor; discriminate| |discriminate|lia].
    repeat constructor; simpl; (done || lia).
  - apply trace_ordered_open.
  - intros f l a b c d H. vm_compute in H. by apply elem_of_nil in H.
  - intros f l H. vm_compute in H. by apply elem_of_nil in H.
  - lia.
  - exact Hc.
  - reflexivity.
Defined.

Lemma persist_no_false_alarm_witness :
  out_at (S:=Shadow.shadow bool) (M:=Shadow.shadow Z) default_config trace_persisted 5
    (ev _PERSIST 16 4) = [].
Proof.
  apply persist_no_false_alarm; [apply trace_persisted_ok|reflexivity|reflexivity| |];
    intros x Hx; (apply covers_ok in Hx; [|repeat constructor; done]); simpl in Hx.
  - apply seen_48; [repeat constructor; discriminate| |discriminate|lia].
    repeat constructor; simpl; (done || lia).
  - unfold pm_durable. simpl. unfold hw_step, pm_fence, pm_flush, pm_store_range, in_range. simpl.
    replace (16 <=? x) with true by lia. replace (x <? 16 + 4) with true by lia.
    replace (48 <=? x) with false by lia. done.
Defined.

(** ** Limits of the checks

    The hypotheses of the theorems cannot be dropped. *)

(** [Assign B; Fence; Assign A; Flush A; Fence; Flush B; Fence;
    isPersistedBefore A B]: the late range is flushed before the query. *)
Definition trace_late_flushed : list Metadata :=
  [ev _ASSIGN 32 4; ev _FENCE 0 0; ev _ASSIGN 16 4; ev _FLUSH 16 4; ev _FENCE 0 0;
   ev _FLUSH 32 4; ev _FENCE 0 0; ev_order 16 4 32 4].

(** A flush of the late range gives it the epoch of the flush, although its
    assignment may have reached memory before.  On [trace_late_flushed] the
    checker accepts the order, and a crash after entry 2 can leave the last
    value of the late byte 32 without that of the early byte 16. *)
Theorem order_accepts_early_eviction :
  printed_out (VeriProc (S:=Shadow.shadow bool) (M:=Shadow.shadow Z) default_config
    (seq 0 8) trace_late_flushed) = [] /\
  exists image, pm_crash (hw_at trace_late_flushed 3) image /\
    image 32 = pm_read (hw_at trace_late_flushed 7) 32 /\
    image 16 <> pm_read (hw_at trace_late_flushed 7) 16.
Proof.
  split; [reflexivity|].
  exists (fun a => if decide (a = 32) then 0 else c_durable (hw_at trace_late_flushed 3 a)).
  split; [|done].
  intros a. case_decide as Ha; [subst; right; left|left].
Qed.

(** [Assign A; Flush A; isPersistent A; Fence]. *)
Definition trace_not_fenced : list Metadata :=
  [ev _ASSIGN 16 4; ev _FLUSH 16 4; ev _PERSIST 16 4; ev _FENCE 0 0].

(** A flush counts as soon as some fence follows it in the trace, even when
    the query stands between the two: on [trace_not_fenced] the checker accepts
    the query, and a crash at that point can lose the assignment. *)
Theorem persist_accepts_unfenced :
  printed_out (VeriProc (S:=Shadow.shadow bool) (M:=Shadow.shadow Z) default_config
    (seq 0 4) trace_not_fenced) = [] /\
  exists image, pm_crash (hw_at trace_not_fenced 2) image /\
    image 16 <> pm_read (hw_at trace_not_fenced 2) 16.
Proof.
  split; [reflexivity|].
  exists (fun a => c_durable (hw_at trace_not_fenced 2 a)). split; [|done].
  intros a. left.
Qed.

(** What the checker skips.  With one byte of the range under [PMTest_exclude], an
    assignment that is never flushed is accepted by a query that itself touches no
    excluded byte, and a crash can lose it; a flush that is skipped makes the
    checker report bytes that are durable. *)
Definition trace_skipped_assign : list Metadata :=
  [ev _EXCLUDE 16 1; ev _ASSIGN 16 8; ev _FENCE 0 0; ev _PERSIST 17 7].
Definition trace_skipped_flush : list Metadata :=
  [ev _ASSIGN 16 8; ev _EXCLUDE 16 8; ev _FLUSH 16 8; ev _INCLUDE 16 8; ev _FENCE 0 0;
   ev _PERSIST 16 8].

Theorem exclude_hides :
  printed_out (VeriProc (S:=Shadow.shadow bool) (M:=Shadow.shadow Z) default_config
    (seq 0 4) trace_skipped_assign) = [] /\
  (exists image, pm_crash (hw_at trace_skipped_assign 3) image /\
    image 17 <> pm_read (hw_at trace_skipped_assign 3) 17) /\
  printed_out (VeriProc (S:=Shadow.shadow bool) (M:=Shadow.shadow Z) default_config
    (seq 0 6) trace_skipped_flush) = [PersistError [] 0 16 24] /\
  (forall x, 16 <= x < 24 -> pm_durable (hw_at trace_skipped_flush 5) x).
Proof.
  split; [reflexivity|]. split; [|split; [reflexivity|]].
  - exists (fun a => c_durable (hw_at trace_skipped_assign 3 a)). split; [|done].
    intros a. left.
  - intros x Hx. unfold pm_durable. simpl.
    unfold hw_step, pm_fence, pm_flush, pm_store_range, in_range. simpl.
    replace (16 <=? x) with true by lia. replace (x <? 16 + 8) with true by lia. done.
Qed.
