(* ===== verification/Transactions.v ===== *)
(** * The transaction checks of [VeriProc]

    [PMTest_CHECKER_START] and [PMTest_CHECKER_END] delimit a transaction and
    [PMTest_transactionAdd] says what its undo log holds.  The checker reports
    an assignment inside a transaction that meets no logged range, assignments
    still dirty when the outermost transaction ends, and transactions left open
    at the end of the trace.  The theorems say what follows from the absence of
    each message; the last section shows, on concrete traces, what the messages
    do not cover. *)

From Stdlib Require Import Ascii.
From stdpp Require Import strings.
From S2P Require Import Prelude Intervals Metadata Checker CheckerFacts Pmem Soundness.

Section Transactions.
Context {S M : Type} `{!IclSet S, !IclSetLaws S} `{!IclMap M, !IclMapLaws M}.
Context (cfg : config).
Local Abbreviation vst := (VeriState S M Metadata).
Local Abbreviation st_at := (state_at (S:=S) (M:=M) cfg).

(** The change of the nesting depth by an entry. *)
Definition depth_change (e : Metadata) : Z :=
  match type e with
  | _TRANSACTIONBEGIN => 1 | _TRANSACTIONEND => -1 | _ => 0
  end.

Definition depth (tr : list Metadata) : Z := foldr Z.add 0 (depth_change <$> tr).

Lemma step_count late e (st : vst) :
  transactionCount (fst (step cfg late e st)) = transactionCount st + depth_change e.
Proof.
  unfold step, depth_change. destruct (type e); simpl; try lia.
  - unfold VeriProc_Assign. if_cases; simpl; lia.
  - unfold VeriProc_Flush. destruct late; simpl; if_cases; simpl; lia.
  - unfold VeriProc_TransactionAdd. if_cases; simpl; lia.
  - unfold VeriProc_Exclude. if_cases; simpl; lia.
  - unfold VeriProc_Include. if_cases; simpl; lia.
Qed.

Lemma state_at_count tr k :
  (k <= length tr)%nat -> transactionCount (st_at tr k) = depth (take k tr).
Proof.
  induction k as [|k IH]; intros Hk; [done|].
  destruct (lookup_lt_is_Some_2 tr k) as [e He]; [lia|]. simpl. rewrite He.
  rewrite step_count, IH, (take_S_r _ _ _ He) by lia. unfold depth.
  rewrite fmap_app, foldr_app. simpl. rewrite Z.add_0_r.
  generalize (depth_change <$> take k tr) as l. intros l.
  induction l as [|d l IHl]; simpl; lia.
Qed.

(** The final state and output of the checker. *)
Lemma run_final tr :
  exists o, run cfg tr VeriState_init = (st_at tr (length tr), o).
Proof.
  destruct (run_state_at (S:=S) (M:=M) cfg tr (length tr)) as [o Ho]; [done|].
  rewrite drop_all in Ho. simpl in Ho. eauto.
Qed.

(** No function but the last test prints [TransactionEndError]. *)
Ltac not_printed :=
  if_cases; simpl;
  try match goal with
      | |- context [match iset_find ?s ?I with _ => _ end] => destruct (iset_find s I); simpl
      end;
  first [apply not_elem_of_nil | intros H%list_elem_of_singleton; discriminate H].

Lemma persist_not_end m (st : vst) : TransactionEndError ∉ snd (VeriProc_Persist cfg m st).
Proof.
  unfold VeriProc_Persist. not_printed.
Qed.

Lemma step_not_end late e (st : vst) : TransactionEndError ∉ snd (step cfg late e st).
Proof.
  unfold step. destruct (type e); simpl;
    try apply not_elem_of_nil; try apply persist_not_end.
  - unfold VeriProc_Assign. not_printed.
  - destruct late; [apply not_elem_of_nil|]. unfold VeriProc_Flush. not_printed.
  - unfold VeriProc_Order. not_printed.
  - if_cases; [|apply not_elem_of_nil]. unfold end_reports.
    rewrite list_elem_of_bind. intros (m & Hm & _). by apply persist_not_end in Hm.
  - unfold VeriProc_TransactionAdd. not_printed.
Qed.

Lemma run_not_end tr : forall st : vst, TransactionEndError ∉ snd (run cfg tr st).
Proof.
  induction tr as [|e tr IH]; intros st; [apply not_elem_of_nil|]. rewrite run_cons.
  pose proof (step_not_end (negb (fence_ahead tr)) e st) as Hs.
  destruct (step cfg (negb (fence_ahead tr)) e st) as [st1 o1]. specialize (IH st1).
  destruct (run cfg tr st1) as [st2 o2]. simpl in *. by rewrite not_elem_of_app.
Qed.

Lemma check_end_error tr :
  TransactionEndError ∈ check (S:=S) (M:=M) cfg tr <-> 0 < depth tr.
Proof.
  unfold check. pose proof (run_not_end tr VeriState_init) as Hno.
  destruct (run_final tr) as [o Ho]. rewrite Ho in *. simpl in Hno.
  rewrite elem_of_app. unfold VeriProc_final.
  rewrite state_at_count, take_ge by done.
  destruct (Z.ltb_spec 0 (depth tr)) as [H|H].
  - split; [done|]. intros _. right. left.
  - split; [|lia]. intros [?|?%elem_of_nil]; done.
Qed.

(** ** Assignments recorded for the end of the transaction *)

Lemma step_tx_persist late e (st : vst) m :
  0 < transactionCount st -> m ∈ TransactionPersistInfo st ->
  m ∈ TransactionPersistInfo (fst (step cfg late e st)).
Proof.
  intros Hc Hm. unfold step. destruct (type e); simpl; try done.
  - unfold VeriProc_Assign. if_cases; simpl; try done; rewrite elem_of_app; auto.
  - unfold VeriProc_Flush. destruct late; simpl; if_cases; done.
  - by rewrite (proj2 (Z.eqb_neq _ _)) by lia.
  - unfold VeriProc_TransactionAdd. if_cases; done.
  - unfold VeriProc_Exclude. if_cases; done.
  - unfold VeriProc_Include. if_cases; done.
Qed.

Lemma step_tx_assign late e (st : vst) :
  type e = _ASSIGN -> 0 < transactionCount st -> 0 < msize e -> counted cfg st e = true ->
  e ∈ TransactionPersistInfo (fst (step cfg late e st)).
Proof.
  intros Ht Hc Hsz Hv%negb_true_iff. rewrite step_assign_eq by done. unfold VeriProc_Assign.
  rewrite (proj2 (Z.ltb_lt _ _)), Hv by done.
  rewrite (proj2 (Z.ltb_lt 0 (transactionCount st))) by done.
  if_cases; simpl; rewrite elem_of_app; right; left.
Qed.

(** An assignment at [j] is still recorded at [k] when the transaction around
    it has not ended in between. *)
Lemma tx_persist_recorded tr j e k :
  tr !! j = Some e -> type e = _ASSIGN -> 0 < msize e -> ~ skipped cfg tr j e ->
  (j < k)%nat -> (forall i, (j <= i < k)%nat -> 0 < transactionCount (st_at tr i)) ->
  e ∈ TransactionPersistInfo (st_at tr k).
Proof using IclSetLaws0.
  intros Hj Ht Hsz Hskip. induction k as [|k IH]; intros Hlt Hin; [lia|].
  destruct (decide (j = k)) as [<-|Hne].
  - simpl. rewrite Hj. apply step_tx_assign; [done|by apply Hin; lia|done|].
    by apply state_at_counted.
  - assert (e ∈ TransactionPersistInfo (st_at tr k)) as Hk.
    { apply IH; [lia|]. intros i Hi. apply Hin. lia. }
    simpl. destruct (tr !! k) as [f|] eqn:Hf; [|done].
    apply step_tx_persist; [apply Hin; lia|done].
Qed.

(** The outermost end of a transaction, silent: nothing recorded is dirty. *)
Lemma tx_end_silent tr k e x m :
  tr !! k = Some e -> type e = _TRANSACTIONEND -> ~ skipped cfg tr k m ->
  transactionCount (st_at tr k) = 1 ->
  (forall f l lo hi, PersistError f l lo hi ∉ check (S:=S) (M:=M) cfg tr) ->
  m ∈ TransactionPersistInfo (st_at tr k) -> covers m x ->
  ~ dirty (st_at tr k) x.
Proof using IclSetLaws0.
  intros Hk Ht Hskip Hc Hno Hm [Hsz Hx].
  set (st1 := mkVeriState (ExcludeInfo (st_at tr k)) (PersistInfo (st_at tr k))
    (TransactionAddInfo (st_at tr k)) (OrderInfo (st_at tr k))
    (TransactionPersistInfo (st_at tr k)) (timestamp (st_at tr k))
    (transactionCount (st_at tr k) - 1)).
  destruct (VeriProc_Persist_cases cfg m st1 Hsz)
    as [(_ & y & HyI & Hy)|[(_ & Hall)|(lo & hi & Hp & _)]].
  - destruct Hskip. change (hidden cfg (st_at tr k) y) in Hy.
    apply state_at_hidden in Hy as [? ?]. split; [done|]. by exists y.
  - intros Hd. by apply (Hall x Hx).
  - exfalso. eapply Hno, (out_at_check (S:=S) (M:=M) cfg tr k e _ Hk).
    unfold out_at, step. rewrite Ht. simpl. rewrite Hc. simpl.
    apply list_elem_of_bind. exists m. split; [|exact Hm].
    rewrite (VeriProc_Persist_congr cfg m m _ st1); [|by left|done|done].
    rewrite Hp. left.
Qed.

(** ** What is logged *)

(** Byte [x] was added to the log by a [PMTest_transactionAdd] made inside a
    transaction before entry [k].  The log is never emptied. *)
Definition logged (tr : list Metadata) (k : nat) (x : Z) : Prop :=
  exists i e, (i < k)%nat /\ tr !! i = Some e /\ type e = _TRANSACTIONADD /\
    0 < depth (take i tr) /\ covers e x.

Lemma step_logged late e (st : vst) x :
  iset_contains x (TransactionAddInfo (fst (step cfg late e st))) <->
  (type e = _TRANSACTIONADD /\ 0 < transactionCount st /\ covers e x) \/
  iset_contains x (TransactionAddInfo st).
Proof using IclSetLaws0.
  unfold step, covers. destruct (type e); try (simpl; naive_solver).
  - unfold VeriProc_Assign. if_cases; naive_solver.
  - unfold VeriProc_Flush. if_cases; naive_solver.
  - unfold VeriProc_TransactionAdd.
    destruct (Z.ltb_spec 0 (transactionCount st)), (Z.ltb_spec 0 (msize e)); simpl.
    + rewrite iset_contains_add. tauto.
    + split; [auto|]. intros [(_ & _ & ? & _)|?]; [lia|done].
    + split; [auto|]. intros [(_ & ? & _)|?]; [lia|done].
    + split; [auto|]. intros [(_ & ? & _)|?]; [lia|done].
  - unfold VeriProc_Exclude. if_cases; naive_solver.
  - unfold VeriProc_Include. if_cases; naive_solver.
Qed.

Lemma state_at_logged tr k x :
  (k <= length tr)%nat ->
  iset_contains x (TransactionAddInfo (st_at tr k)) <-> logged tr k x.
Proof using IclSetLaws0.
  unfold logged. induction k as [|k IH]; intros Hk.
  { simpl. split; [|intros (i & e & ? & _); lia]. intros H. by apply iset_contains_empty in H. }
  destruct (lookup_lt_is_Some_2 tr k) as [e He]; [lia|]. cbn [state_at]. rewrite He.
  rewrite step_logged, IH, state_at_count by lia. split.
  - intros [(Ht & Hd & Hc)|(i & f & Hi & H)].
    + exists k, e. split_and!; done || lia.
    + exists i, f. split; [lia|done].
  - intros (i & f & Hi & Hf & Ht & Hd & Hc). destruct (decide (i = k)) as [->|Hne].
    + assert (f = e) as -> by congruence. by left.
    + right. exists i, f. split_and!; done || lia.
Qed.

(** What an assignment inside a transaction prints, when it is not skipped. *)
Lemma assign_report tr j a :
  tr !! j = Some a -> type a = _ASSIGN -> 0 < msize a -> ~ skipped cfg tr j a ->
  0 < depth (take j tr) ->
  (out_at (S:=S) (M:=M) cfg tr j a = [] /\ exists x, covers a x /\ logged tr j x) \/
  (out_at (S:=S) (M:=M) cfg tr j a =
     [AssignError (filename_temp a) (line_num a) (addr a) (u64 (addr a + msize a))] /\
   forall x, covers a x -> ~ logged tr j x).
Proof using IclSetLaws0.
  intros Ha Hta Hsz Hskip Hin. pose proof (lookup_lt_Some _ _ _ Ha) as Hj.
  apply (state_at_counted (S:=S) (M:=M)), negb_true_iff in Hskip; [|done].
  unfold out_at, step. rewrite Hta. unfold VeriProc_Assign.
  rewrite (proj2 (Z.ltb_lt _ _)), Hskip by done.
  rewrite state_at_count, (proj2 (Z.ltb_lt 0 (depth _))) by (done || lia). simpl.
  destruct (iset_find (TransactionAddInfo (st_at tr j)) (addrinterval (addr a) (msize a)))
    as [J|] eqn:Hfind.
  - left. split; [done|].
    destruct (proj1 (iset_find_is_Some (TransactionAddInfo (st_at tr j))
      (addrinterval (addr a) (msize a)))) as (x & Hx & Hs); [by rewrite Hfind|].
    exists x. split; [done|]. apply state_at_logged; [lia|done].
  - right. split; [by rewrite bool_decide_true by done|]. intros x [_ Hx] Hl.
    apply (proj1 (iset_find_None _ _) Hfind x Hx). apply state_at_logged; [lia|done].
Qed.

End Transactions.

(** ** Properties *)

(** C5: a silent transaction is durable.  If a run of [VeriProc] prints no
    PERSIST ERROR, take an outermost end of a transaction and a byte assigned
    inside that transaction.  Suppose every flush of the byte has been fenced by
    the end, that no assignment to the byte was skipped because a byte of its
    range was under [PMTest_exclude], and that the range of this assignment is not
    excluded at the end either.  Then the byte survives a crash at the end with
    its last value. *)
Theorem tx_end_durable {S M} `{!IclSet S, !IclSetLaws S} `{!IclMap M, !IclMapLaws M}
    (cfg : config) (objs : list Metadata) (veriptr : list nat) (tr : list Metadata)
    (j k : nat) (a e : Metadata) (x : Z) (image : Z -> Z)
    (Hnodup : NoDup veriptr)
    (Htr : Forall2 (fun p m => objs !! p = Some m) veriptr tr)
    (Hok : Forall entry_ok tr)
    (Ha : tr !! j = Some a) (Hta : type a = _ASSIGN) (Hx : covers a x)
    (He : tr !! k = Some e) (Hte : type e = _TRANSACTIONEND)
    (Hjk : (j < k)%nat) (Hlast : depth (take k tr) = 1)
    (Hinside : forall i, (j <= i < k)%nat -> 0 < depth (take i tr))
    (Hseen : seen cfg _ASSIGN tr k x) (Hskip : ~ skipped cfg tr k a)
    (Hsettled : settled tr k x)
    (Hsilent : forall f l lo hi,
       PersistError f l lo hi ∉ printed_out (VeriProc (S:=S) (M:=M) cfg veriptr objs))
    (Hcrash : pm_crash (hw_at tr k) image) :
  image x = pm_read (hw_at tr k) x.
Proof.
  destruct (VeriProc_spec (S:=S) (M:=M) cfg objs veriptr tr Hnodup Htr) as [Hout _].
  rewrite Hout in Hsilent. pose proof (lookup_lt_Some _ _ _ He) as Hk.
  apply pm_durable_crash; [|done]. apply nil_length_inv. unfold pm_durable.
  rewrite <- (clean_flushed (S:=S) (M:=M) cfg tr Hok k x Hseen); [by apply settled_flushed|].
  apply (tx_end_silent (S:=S) (M:=M) cfg tr k e x a); try done.
  - by rewrite state_at_count by lia.
  - apply (tx_persist_recorded (S:=S) (M:=M) cfg tr j a k Ha Hta); [apply Hx| |done|].
    + by apply (Hseen j a).
    + intros i Hi. rewrite state_at_count by lia. by apply Hinside.
Qed.

(** C6: the check of the undo log.  Take an assignment inside a transaction no byte
    of whose range is under [PMTest_exclude].  The checker prints ASSIGN ERROR for
    it, with its range, exactly when no byte of it was named by a
    [PMTest_transactionAdd] made before it inside a transaction, this one or an
    earlier one; in particular, if a run of [VeriProc] prints no ASSIGN ERROR at
    all, at least one byte of the assignment was named. *)
Theorem tx_assign_logged {S M} `{!IclSet S, !IclSetLaws S} `{!IclMap M, !IclMapLaws M}
    (cfg : config) (objs : list Metadata) (veriptr : list nat) (tr : list Metadata)
    (j : nat) (a : Metadata)
    (Hnodup : NoDup veriptr)
    (Htr : Forall2 (fun p m => objs !! p = Some m) veriptr tr)
    (Ha : tr !! j = Some a) (Hta : type a = _ASSIGN) (Hsz : 0 < msize a)
    (Hskip : ~ skipped cfg tr j a) (Hin : 0 < depth (take j tr)) :
  (out_at (S:=S) (M:=M) cfg tr j a =
     [AssignError (filename_temp a) (line_num a) (addr a) (u64 (addr a + msize a))] <->
   forall x, covers a x -> ~ logged tr j x) /\
  (out_at (S:=S) (M:=M) cfg tr j a = [] <-> exists x, covers a x /\ logged tr j x) /\
  ((forall f l lo hi,
      AssignError f l lo hi ∉ printed_out (VeriProc (S:=S) (M:=M) cfg veriptr objs)) ->
   exists x, covers a x /\ logged tr j x).
Proof.
  destruct (VeriProc_spec (S:=S) (M:=M) cfg objs veriptr tr Hnodup Htr) as [-> _].
  destruct (assign_report (S:=S) (M:=M) cfg tr j a Ha Hta Hsz Hskip Hin)
    as [[Hout Hl]|[Hout Hno]]; rewrite Hout.
  - split; [|done]. split; [done|]. destruct Hl as (x & Hx & Hl). intros H. by destruct (H x).
  - split; [done|]. split; [split; [done|]; intros (x & Hx & Hl); by destruct (Hno x)|].
    intros Hsilent. exfalso. eapply Hsilent, (out_at_check (S:=S) (M:=M) cfg tr j a _ Ha).
    rewrite Hout. left.
Qed.

(** The balance of transactions.  [VeriProc] prints TRANSACTIONEND ERROR
    exactly when the trace has more [PMTest_CHECKER_START]s than
    [PMTest_CHECKER_END]s; surplus ends are accepted. *)
Theorem tx_balance_report {S M} `{!IclSet S, !IclSetLaws S} `{!IclMap M, !IclMapLaws M}
    (cfg : config) (objs : list Metadata) (veriptr : list nat) (tr : list Metadata)
    (Hnodup : NoDup veriptr)
    (Htr : Forall2 (fun p m => objs !! p = Some m) veriptr tr) :
  TransactionEndError ∈ printed_out (VeriProc (S:=S) (M:=M) cfg veriptr objs) <->
  0 < depth tr.
Proof.
  destruct (VeriProc_spec (S:=S) (M:=M) cfg objs veriptr tr Hnodup Htr) as [-> _].
  apply check_end_error.
Qed.

(** ** Concrete transactions *)

Local Abbreviation verdict tr :=
  (printed_out (VeriProc (S:=Shadow.shadow bool) (M:=Shadow.shadow Z) default_config
    (seq 0 (length tr)) tr)).

(** [exclude C; START; transactionAdd A; Assign A; Flush A; Fence; END]. *)
Definition trace_tx : list Metadata :=
  [ev _EXCLUDE 48 4; ev _TRANSACTIONBEGIN 0 0; ev _TRANSACTIONADD 16 4; ev _ASSIGN 16 4;
   ev _FLUSH 16 4; ev _FENCE 0 0; ev _TRANSACTIONEND 0 0].

Lemma trace_tx_ok : Forall entry_ok trace_tx.
Proof. repeat constructor; done. Qed.

Lemma trace_tx_settled : settled trace_tx 6 17.
Proof.
  intros j e Hj He Ht _. exists 5%nat, (ev _FENCE 0 0).
  destruct j as [|[|[|[|[|[|j]]]]]]; try (injection He as <-; discriminate Ht); [|lia].
  split; [lia|done].
Qed.

Lemma trace_tx_not_skipped k : ~ skipped default_config trace_tx k (ev _ASSIGN 16 4).
Proof.
  apply not_skipped_48; [repeat constructor; discriminate|repeat constructor; done|simpl; lia].
Qed.

Lemma tx_end_durable_witness :
  c_durable (hw_at trace_tx 6 17) = 3 /\
  c_durable (hw_at trace_tx 6 17) = pm_read (hw_at trace_tx 6) 17.
Proof.
  split; [reflexivity|].
  apply (tx_end_durable (S:=Shadow.shadow bool) (M:=Shadow.shadow Z) default_config
    trace_tx (seq 0 7) trace_tx 3 6 (ev _ASSIGN 16 4) (ev _TRANSACTIONEND 0 0) 17
    (fun a => c_durable (hw_at trace_tx 6 a))).
  - apply NoDup_seq.
  - apply seq_trace.
  - apply trace_tx_ok.
  - reflexivity.
  - reflexivity.
  - split; [reflexivity|]. split; vm_compute; [discriminate|reflexivity].
  - reflexivity.
  - reflexivity.
  - lia.
  - reflexivity.
  - intros i Hi. destruct i as [|[|[|[|[|[|i]]]]]]; try lia; vm_compute; reflexivity.
  - apply seen_48; [repeat constructor; discriminate| |discriminate|lia].
    repeat constructor; simpl; (done || lia).
  - apply trace_tx_not_skipped.
  - apply trace_tx_settled.
  - intros f l lo hi H. vm_compute in H. by apply elem_of_nil in H.
  - intros a. left.
Defined.

Lemma tx_assign_logged_witness :
  exists x, covers (ev _ASSIGN 16 4) x /\ logged trace_tx 3 x.
Proof.
  apply (tx_assign_logged (S:=Shadow.shadow bool) (M:=Shadow.shadow Z) default_config
    trace_tx (seq 0 7) trace_tx 3 (ev _ASSIGN 16 4)).
  - apply NoDup_seq.
  - apply seq_trace.
  - reflexivity.
  - reflexivity.
  - reflexivity.
  - apply trace_tx_not_skipped.
  - reflexivity.
  - intros f l lo hi H. vm_compute in H. by apply elem_of_nil in H.
Defined.

Lemma tx_balance_report_witness :
  TransactionEndError ∈ verdict (take 6 trace_tx) <-> 0 < depth (take 6 trace_tx).
Proof.
  apply (tx_balance_report (S:=Shadow.shadow bool) (M:=Shadow.shadow Z) default_config
    (take 6 trace_tx) (seq 0 6) (take 6 trace_tx)).
  - apply NoDup_seq.
  - apply seq_trace.
Defined.

(** What the transaction checks accept.  An assignment of 8 bytes of which
    only one was logged; an assignment in a second transaction whose range was
    logged in the first one only; a [PMTest_CHECKER_END] without its start; and
    an unlogged, never flushed assignment of 8 bytes of which one is under
    [PMTest_exclude]. *)
Theorem tx_checks_accept :
  verdict [ev _TRANSACTIONBEGIN 0 0; ev _TRANSACTIONADD 16 1; ev _ASSIGN 16 8;
           ev _FLUSH 16 8; ev _FENCE 0 0; ev _TRANSACTIONEND 0 0] = [] /\
  verdict [ev _TRANSACTIONBEGIN 0 0; ev _TRANSACTIONADD 16 8; ev _TRANSACTIONEND 0 0;
           ev _TRANSACTIONBEGIN 0 0; ev _ASSIGN 16 8; ev _FLUSH 16 8; ev _FENCE 0 0;
           ev _TRANSACTIONEND 0 0] = [] /\
  verdict [ev _TRANSACTIONEND 0 0; ev _FENCE 0 0] = [] /\
  verdict [ev _EXCLUDE 16 1; ev _TRANSACTIONBEGIN 0 0; ev _ASSIGN 16 8; ev _FENCE 0 0;
           ev _TRANSACTIONEND 0 0; ev _PERSIST 16 8] = [].
Proof. repeat split; reflexivity. Qed.

(** The three examples of [src/README.md], with [A] at 16 and [B] at 32:
    the queries the document marks false are the ones reported. *)
Theorem readme_examples :
  verdict [ev _ASSIGN 16 4; ev _FENCE 0 0; ev _ASSIGN 32 4; ev _FLUSH 16 4;
           ev _PERSIST 16 4; ev_order 16 4 32 4] =
    [PersistError [] 0 16 20; OrderError [] 0 16 20 32 36] /\
  verdict [ev _ASSIGN 16 4; ev _FENCE 0 0; ev _ASSIGN 32 4; ev _ASSIGN 16 4;
           ev _FLUSH 16 4; ev _FENCE 0 0; ev _PERSIST 16 4; ev_order 16 4 32 4] =
    [OrderError [] 0 16 20 32 36] /\
  verdict [ev _ASSIGN 16 4; ev _ASSIGN 32 4; ev _FENCE 0 0; ev _ASSIGN 32 4;
           ev _PERSIST 32 4; ev_order 16 4 32 4] =
    [PersistError [] 0 32 36; OrderError [] 0 16 20 32 36].
Proof. repeat split; reflexivity. Qed.
