(* ===== verification/Engine.v ===== *)
(** * The worker pool of [src/pmtest.cc]

    A [PMTest] object owns [MAX_THREAD_POOL_SIZE] worker threads, each with a
    queue of traces guarded by a mutex and a condition variable, and three
    atomic flags.  The main thread submits traces round robin ([execVeri]),
    waits for all verdicts ([getVeri]) and stops the workers ([termVeri]); a
    worker runs [VeriWorker].  The model interleaves the threads at the accesses
    to shared data: program counters of [wpc] and [mpc] name the places between
    two accesses, in the order of the source.  A critical section whose body is
    one access (the pushes to a result vector, the notifications under a lock)
    is one step, enabled when the mutex is free; the other critical sections
    hold the mutex across steps.  A waiting worker is woken by a notification
    or, as the language allows, spuriously.

    [N] stands for [MAX_THREAD_POOL_SIZE], a trace is of any type [T], and
    [verify] is what [VeriProc] prints for it.  One thread calls the interface
    of the object: [assignTo] is not protected against several callers. *)

From Stdlib Require Import Ascii.
From stdpp Require Import strings.
From S2P Require Import Prelude Intervals Metadata Checker.

(** The places of a worker in [VeriWorker]. *)
Inductive wpc (T : Type) :=
  | W_none                                            (* thread not created *)
  | W_spin                                            (* while (termSignal == true); *)
  | W_lock                                            (* unique_lock veri_lock *)
  | W_while_term | W_while_get | W_while_size         (* while (!.. && !.. && ..) *)
  | W_wait                                            (* asleep in wait *)
  | W_woken                                           (* about to take the lock again *)
  | W_term                                            (* if (termSignal) break *)
  | W_if_completed | W_if_get | W_if_size             (* if (!.. && .. && ..) *)
  | W_complete                                        (* completedStateMap = true *)
  | W_front                                           (* if (size() > 0) front, pop *)
  | W_unlock (t : T)                                  (* veri_lock.unlock() *)
  | W_proc (t : T)                                    (* VeriProc(veriptr) *)
  | W_result                                          (* ResultVector.push_back *)
  | W_exit.                                           (* returned *)
Arguments W_none {T}.
Arguments W_spin {T}.
Arguments W_lock {T}.
Arguments W_while_term {T}.
Arguments W_while_get {T}.
Arguments W_while_size {T}.
Arguments W_wait {T}.
Arguments W_woken {T}.
Arguments W_term {T}.
Arguments W_if_completed {T}.
Arguments W_if_get {T}.
Arguments W_if_size {T}.
Arguments W_complete {T}.
Arguments W_front {T}.
Arguments W_unlock {T} t.
Arguments W_proc {T} t.
Arguments W_result {T}.
Arguments W_exit {T}.

(** The places of the main thread. *)
Inductive mpc (T : Type) :=
  | M_init_thread (i : nat) | M_init_term (i : nat)
  | M_init_get (i : nat) | M_init_completed (i : nat)
  | M_idle
  | M_exec_lock (t : T) | M_exec_push (t : T)
  | M_exec_unlock | M_exec_notify | M_exec_next
  | M_get_signal (i : nat) | M_get_count (i tmp : nat) | M_get_test (tmp : nat)
  | M_get_notify (i : nat) | M_get_merge (i : nat) | M_get_reset (i : nat)
  | M_get_wake (i : nat) | M_get_clear (i : nat)
  | M_delete
  | M_term_signal (i : nat) | M_term_notify (i : nat) | M_term_join (i : nat)
  | M_done.
Arguments M_init_thread {T} i.
Arguments M_init_term {T} i.
Arguments M_init_get {T} i.
Arguments M_init_completed {T} i.
Arguments M_idle {T}.
Arguments M_exec_lock {T} t.
Arguments M_exec_push {T} t.
Arguments M_exec_unlock {T}.
Arguments M_exec_notify {T}.
Arguments M_exec_next {T}.
Arguments M_get_signal {T} i.
Arguments M_get_count {T} i tmp.
Arguments M_get_test {T} tmp.
Arguments M_get_notify {T} i.
Arguments M_get_merge {T} i.
Arguments M_get_reset {T} i.
Arguments M_get_wake {T} i.
Arguments M_get_clear {T} i.
Arguments M_delete {T}.
Arguments M_term_signal {T} i.
Arguments M_term_notify {T} i.
Arguments M_term_join {T} i.
Arguments M_done {T}.

(** Calls of the interface.  [C_exitVeri] is [deleteVectors; termVeri]. *)
Inductive call (T : Type) :=
  | execVeri (input : T)
  | getVeri
  | deleteVectors
  | termVeri.
Arguments execVeri {T} input.
Arguments getVeri {T}.
Arguments deleteVectors {T}.
Arguments termVeri {T}.

Inductive owner := Main_thread | Worker_thread.

(** [VeriResult]; the [result] of a pushed one is never assigned. *)
Inductive ResultType := PASS | FAIL.
Definition VeriResult : Type := option ResultType.

(** A worker and its slots of the arrays of [PMTest].  [printed_w] is what it
    has printed; [verified], a ghost, the traces it has run [VeriProc] on. *)
Record worker (T R : Type) := mkWorker {
  pc : wpc T;
  termSignal : bool;
  getResultSignal : bool;
  completedStateMap : bool;
  VeriQueue : list T;
  VeriQueueMutex : option owner;
  ResultVector : list VeriResult;
  printed_w : list R;
  verified : list T;
}.
Arguments mkWorker {T R} _ _ _ _ _ _ _ _ _.
Arguments pc {T R} _.
Arguments termSignal {T R} _.
Arguments getResultSignal {T R} _.
Arguments completedStateMap {T R} _.
Arguments VeriQueue {T R} _.
Arguments VeriQueueMutex {T R} _.
Arguments ResultVector {T R} _.
Arguments printed_w {T R} _.
Arguments verified {T R} _.

(** The whole system.  [submitted], a ghost, lists the traces pushed so far;
    [freed] says that [C_exitVeri] has deleted the traces and [uaf] that a
    worker has run [VeriProc] on a deleted one. *)
Record pool (T R : Type) := mkPool {
  workers : nat -> worker T R;
  main : mpc T;
  todo : list (call T);
  assignTo : nat;
  output : list VeriResult;
  submitted : list T;
  freed : bool;
  uaf : bool;
}.
Arguments mkPool {T R} _ _ _ _ _ _ _ _.
Arguments workers {T R} _.
Arguments main {T R} _.
Arguments todo {T R} _.
Arguments assignTo {T R} _.
Arguments output {T R} _.
Arguments submitted {T R} _.
Arguments freed {T R} _.
Arguments uaf {T R} _.

Section Pool.
Context {T R : Type} (N : nat) (verify : T -> list R).
Local Abbreviation worker := (worker T R).
Local Abbreviation pool := (pool T R).

(** ** Field updates *)

Definition at_pc (p : wpc T) (w : worker) : worker :=
  mkWorker p (termSignal w) (getResultSignal w) (completedStateMap w) (VeriQueue w)
    (VeriQueueMutex w) (ResultVector w) (printed_w w) (verified w).
Definition with_mutex (o : option owner) (w : worker) : worker :=
  mkWorker (pc w) (termSignal w) (getResultSignal w) (completedStateMap w) (VeriQueue w)
    o (ResultVector w) (printed_w w) (verified w).
Definition with_term (b : bool) (w : worker) : worker :=
  mkWorker (pc w) b (getResultSignal w) (completedStateMap w) (VeriQueue w)
    (VeriQueueMutex w) (ResultVector w) (printed_w w) (verified w).
Definition with_get (b : bool) (w : worker) : worker :=
  mkWorker (pc w) (termSignal w) b (completedStateMap w) (VeriQueue w)
    (VeriQueueMutex w) (ResultVector w) (printed_w w) (verified w).
Definition with_completed (b : bool) (w : worker) : worker :=
  mkWorker (pc w) (termSignal w) (getResultSignal w) b (VeriQueue w)
    (VeriQueueMutex w) (ResultVector w) (printed_w w) (verified w).
Definition with_queue (q : list T) (w : worker) : worker :=
  mkWorker (pc w) (termSignal w) (getResultSignal w) (completedStateMap w) q
    (VeriQueueMutex w) (ResultVector w) (printed_w w) (verified w).

Definition upd (i : nat) (f : worker -> worker) (ws : nat -> worker) : nat -> worker :=
  fun j => if decide (j = i) then f (ws i) else ws j.

(** [VeriQueueCV[i].notify_one()] and [notify_all()]: worker [i] is the only
    thread that waits. *)
Definition notify (w : worker) : worker :=
  match pc w with W_wait => at_pc W_woken w | _ => w end.

(** ** [VeriWorker] *)

(** Acquires the mutex of the worker, or blocks. *)
Definition acquire (p : wpc T) (w : worker) : option worker :=
  match VeriQueueMutex w with
  | None => Some (at_pc p (with_mutex (Some Worker_thread) w))
  | Some _ => None
  end.

(** Leaves the scope of [veri_lock]. *)
Definition release (p : wpc T) (w : worker) : worker := at_pc p (with_mutex None w).

Definition goto (p : wpc T) (w : worker) : option worker := Some (at_pc p w).

Definition VeriWorker (w : worker) : option worker :=
  match pc w with
  | W_none | W_wait | W_exit => None
  | W_spin => goto (if termSignal w then W_spin else W_lock) w
  | W_lock => acquire W_while_term w
  | W_while_term => goto (if termSignal w then W_term else W_while_get) w
  | W_while_get => goto (if getResultSignal w then W_term else W_while_size) w
  | W_while_size =>
      match VeriQueue w with
      | [] => Some (release W_wait w)
      | _ => goto W_term w
      end
  | W_woken => acquire W_while_term w
  | W_term => if termSignal w then Some (release W_exit w) else goto W_if_completed w
  | W_if_completed => goto (if completedStateMap w then W_front else W_if_get) w
  | W_if_get => goto (if getResultSignal w then W_if_size else W_front) w
  | W_if_size =>
      match VeriQueue w with [] => goto W_complete w | _ => goto W_front w end
  | W_complete => Some (release W_lock (with_completed true w))
  | W_front =>
      match VeriQueue w with
      | [] => Some (release W_lock w)
      | t :: q => goto (W_unlock t) (with_queue q w)
      end
  | W_unlock t => Some (release (W_proc t) w)
  | W_proc t =>
      Some (mkWorker W_result (termSignal w) (getResultSignal w) (completedStateMap w)
        (VeriQueue w) (VeriQueueMutex w) (ResultVector w)
        (printed_w w ++ verify t) (verified w ++ [t]))
  | W_result =>
      Some (mkWorker W_lock (termSignal w) (getResultSignal w) (completedStateMap w)
        (VeriQueue w) (VeriQueueMutex w) (ResultVector w ++ [None])
        (printed_w w) (verified w))
  end.

(** A step of worker [i]; [VeriProc] on a deleted trace is a use after free. *)
Definition worker_step (i : nat) (s : pool) : option pool :=
  w ← VeriWorker (workers s i);
  Some (mkPool (upd i (fun _ => w) (workers s)) (main s) (todo s) (assignTo s) (output s)
    (submitted s) (freed s)
    (uaf s || match pc (workers s i) with W_proc _ => freed s | _ => false end)).

Definition spurious_wakeup (i : nat) (s : pool) : option pool :=
  match pc (workers s i) with
  | W_wait =>
      Some (mkPool (upd i notify (workers s)) (main s) (todo s) (assignTo s) (output s)
        (submitted s) (freed s) (uaf s))
  | _ => None
  end.

(** ** The main thread *)

Definition to (m : mpc T) (s : pool) : pool :=
  mkPool (workers s) m (todo s) (assignTo s) (output s) (submitted s) (freed s) (uaf s).
Definition on_worker (i : nat) (f : worker -> worker) (s : pool) : pool :=
  mkPool (upd i f (workers s)) (main s) (todo s) (assignTo s) (output s) (submitted s)
    (freed s) (uaf s).

(** [for (i = 0; i < N; i++) { lock(VeriQueueMutex[i]); notify_all }]. *)
Definition notify_locked (i : nat) (next : mpc T) (s : pool) : option pool :=
  match VeriQueueMutex (workers s i) with
  | None => Some (to next (on_worker i notify s))
  | Some _ => None
  end.

(** [PMTest::initVeri]. *)
Definition initVeri_step (s : pool) : option pool :=
  match main s with
  | M_init_thread i =>
      if (i <? N)%nat
      then Some (to (M_init_thread (S i)) (on_worker i (at_pc W_spin) s))
      else Some (to (M_init_term 0) s)
  | M_init_term i =>
      if (i <? N)%nat
      then Some (to (M_init_term (S i)) (on_worker i (with_term false) s))
      else Some (to (M_init_get 0) s)
  | M_init_get i =>
      if (i <? N)%nat
      then Some (to (M_init_get (S i)) (on_worker i (with_get false) s))
      else Some (to (M_init_completed 0) s)
  | M_init_completed i =>
      if (i <? N)%nat
      then Some (to (M_init_completed (S i)) (on_worker i (with_completed false) s))
      else Some (mkPool (workers s) M_idle (todo s) 0 (output s) (submitted s)
                   (freed s) (uaf s))
  | _ => None
  end.

(** [PMTest::execVeri]. *)
Definition execVeri_step (s : pool) : option pool :=
  let a := assignTo s in
  match main s with
  | M_exec_lock t =>
      match VeriQueueMutex (workers s a) with
      | None => Some (to (M_exec_push t) (on_worker a (with_mutex (Some Main_thread)) s))
      | Some _ => None
      end
  | M_exec_push t =>
      Some (mkPool (upd a (fun w => with_queue (VeriQueue w ++ [t]) w) (workers s))
        M_exec_unlock (todo s) a (output s) (submitted s ++ [t]) (freed s) (uaf s))
  | M_exec_unlock => Some (to M_exec_notify (on_worker a (with_mutex None) s))
  | M_exec_notify => Some (to M_exec_next (on_worker a notify s))
  | M_exec_next =>
      Some (mkPool (workers s) M_idle (todo s) ((a + 1) mod N)%nat (output s)
        (submitted s) (freed s) (uaf s))
  | _ => None
  end.

(** [PMTest::getVeri]. *)
Definition getVeri_step (s : pool) : option pool :=
  match main s with
  | M_get_signal i =>
      if (i <? N)%nat
      then Some (to (M_get_signal (S i)) (on_worker i (with_get true) s))
      else Some (to (M_get_count 0 0) s)
  | M_get_count i tmp =>
      if (i <? N)%nat
      then Some (to (M_get_count (S i) (tmp + Nat.b2n (completedStateMap (workers s i)))) s)
      else Some (to (M_get_test tmp) s)
  | M_get_test tmp =>
      if (tmp =? N)%nat then Some (to (M_get_merge 0) s) else Some (to (M_get_notify 0) s)
  | M_get_notify i =>
      if (i <? N)%nat then notify_locked i (M_get_notify (S i)) s
      else Some (to (M_get_count 0 0) s)
  | M_get_merge i =>
      if (i <? N)%nat
      then Some (mkPool (workers s) (M_get_merge (S i)) (todo s) (assignTo s)
        (output s ++ ResultVector (workers s i)) (submitted s) (freed s) (uaf s))
      else Some (to (M_get_reset 0) s)
  | M_get_reset i =>
      if (i <? N)%nat
      then Some (to (M_get_reset (S i)) (on_worker i (with_get false) s))
      else Some (to (M_get_wake 0) s)
  | M_get_wake i =>
      if (i <? N)%nat then notify_locked i (M_get_wake (S i)) s
      else Some (to (M_get_clear 0) s)
  | M_get_clear i =>
      if (i <? N)%nat
      then Some (to (M_get_clear (S i)) (on_worker i (with_completed false) s))
      else Some (to M_idle s)
  | _ => None
  end.

(** [PMTest::termVeri], called by the destructor. *)
Definition termVeri_step (s : pool) : option pool :=
  match main s with
  | M_term_signal i =>
      if (i <? N)%nat
      then Some (to (M_term_signal (S i)) (on_worker i (with_term true) s))
      else Some (to (M_term_notify 0) s)
  | M_term_notify i =>
      if (i <? N)%nat then notify_locked i (M_term_notify (S i)) s
      else Some (to (M_term_join 0) s)
  | M_term_join i =>
      if (i <? N)%nat
      then match pc (workers s i) with
           | W_exit => Some (to (M_term_join (S i)) s)
           | _ => None
           end
      else Some (to M_done s)
  | _ => None
  end.

(** The next call of the client; [C_getVeri] passes an empty vector. *)
Definition client_step (s : pool) : option pool :=
  match todo s with
  | [] => None
  | c :: cs =>
      let s' m o := mkPool (workers s) m cs (assignTo s) o (submitted s) (freed s) (uaf s) in
      Some match c with
           | execVeri t => s' (M_exec_lock t) (output s)
           | getVeri => s' (M_get_signal 0) []
           | deleteVectors => s' M_delete (output s)
           | termVeri => s' (M_term_signal 0) (output s)
           end
  end.

(** The loop of [C_exitVeri] that deletes the traces. *)
Definition deleteVectors_step (s : pool) : pool :=
  mkPool (workers s) M_idle (todo s) (assignTo s) (output s) (submitted s) true (uaf s).

Definition main_step (s : pool) : option pool :=
  match main s with
  | M_init_thread _ | M_init_term _ | M_init_get _ | M_init_completed _ => initVeri_step s
  | M_idle => client_step s
  | M_exec_lock _ | M_exec_push _ | M_exec_unlock | M_exec_notify | M_exec_next =>
      execVeri_step s
  | M_get_signal _ | M_get_count _ _ | M_get_test _ | M_get_notify _ | M_get_merge _
  | M_get_reset _ | M_get_wake _ | M_get_clear _ => getVeri_step s
  | M_delete => Some (deleteVectors_step s)
  | M_term_signal _ | M_term_notify _ | M_term_join _ => termVeri_step s
  | M_done => None
  end.

(** ** Executions *)

Inductive choice := Main | Worker (i : nat) | Wakeup (i : nat).

Definition pool_step (c : choice) (s : pool) : option pool :=
  match c with
  | Main => main_step s
  | Worker i => if (i <? N)%nat then worker_step i s else None
  | Wakeup i => if (i <? N)%nat then spurious_wakeup i s else None
  end.

(** The object before its constructor runs; the flags, atomics without an
    initialiser, hold anything. *)
Definition pool_init (flags : nat -> bool * bool * bool) (cs : list (call T)) : pool :=
  mkPool (fun i => let '(t, g, c) := flags i in
            mkWorker W_none t g c [] None [] [] [])
    (M_init_thread 0) cs 0 [] [] false false.

Inductive reachable (s0 : pool) : pool -> Prop :=
  | reachable_refl : reachable s0 s0
  | reachable_step c s s' :
      reachable s0 s -> pool_step c s = Some s' -> reachable s0 s'.

(** A run along a schedule. *)
Fixpoint pool_run (sched : list choice) (s : pool) : option pool :=
  match sched with
  | [] => Some s
  | c :: sched' => s' ← pool_step c s; pool_run sched' s'
  end.

Lemma pool_run_reachable sched : forall s0 s s',
  reachable s0 s -> pool_run sched s = Some s' -> reachable s0 s'.
Proof.
  induction sched as [|c sched IH]; intros s0 s s' Hr; simpl.
  { by intros [= <-]. }
  destruct (pool_step c s) as [s1|] eqn:Hc; [|done]. simpl. apply IH.
  by eapply reachable_step.
Qed.

End Pool.
