(* ===== verification/EngineProofs.v ===== *)
(** * What the worker pool guarantees

    The inductive invariant of the pool of [Engine] and its consequences:
    [getVeri] returns only when every submitted trace has been verified, traces
    are deleted safely by a client that asks for the results first; and executions
    that show what happens without these precautions.  That the calls come to an
    end is in [EngineLive]. *)

From Stdlib Require Import Ascii.
From stdpp Require Import strings.
From S2P Require Import Prelude Intervals Metadata Checker Engine.

Section Invariant.
Context {T R : Type} (N : nat) (verify : T -> list R).
Local Abbreviation worker := (worker T R).
Local Abbreviation pool := (pool T R).

(** ** What a place says about the shared data *)

(** The worker holds its queue's mutex. *)
Definition holding (p : wpc T) : bool :=
  match p with
  | W_while_term | W_while_get | W_while_size | W_term | W_if_completed | W_if_get
  | W_if_size | W_complete | W_front | W_unlock _ => true
  | _ => false
  end.

(** The trace taken from the queue and not yet verified. *)
Definition inflight (p : wpc T) : list T :=
  match p with W_unlock t | W_proc t => [t] | _ => [] end.

(** A verdict not yet pushed to the result vector. *)
Definition owed (p : wpc T) : nat := match p with W_result => 1 | _ => 0 end.

(** The main thread holds the mutex of queue [i]. *)
Definition main_holds (m : mpc T) (a i : nat) : bool :=
  match m with M_exec_push _ | M_exec_unlock => bool_decide (a = i) | _ => false end.

(** A trace was pushed to queue [i] and its worker not yet notified. *)
Definition push_pending (m : mpc T) (a i : nat) : Prop :=
  match m with M_exec_unlock | M_exec_notify => a = i | _ => False end.

(** Termination was requested and worker [i] not yet notified. *)
Definition term_pending (m : mpc T) (i : nat) : Prop :=
  match m with M_term_signal _ => True | M_term_notify j => (j <= i)%nat | _ => False end.

(** The thread of worker [i] does not exist yet. *)
Definition not_created (m : mpc T) (i : nat) : Prop :=
  match m with M_init_thread j => (j <= i)%nat | _ => False end.

(** The value of [getResultSignal]. *)
Definition get_expected (m : mpc T) (i : nat) : bool :=
  match m with
  | M_get_signal j => (i <? j)%nat
  | M_get_count _ _ | M_get_test _ | M_get_notify _ | M_get_merge _ => true
  | M_get_reset j => negb (i <? j)%nat
  | _ => false
  end.

(** What is known of [completedStateMap]. *)
Definition completed_ok (m : mpc T) (i : nat) (b : bool) : Prop :=
  match m with
  | M_init_thread _ | M_init_term _ | M_init_get _ => True
  | M_init_completed j => (i < j)%nat -> b = false
  | M_get_signal j => b = true -> (i < j)%nat
  | M_get_count j tmp => tmp = j -> (i < j)%nat -> b = true
  | M_get_test tmp => tmp = N -> b = true
  | M_get_notify _ => True
  | M_get_merge _ | M_get_reset _ | M_get_wake _ => b = true
  | M_get_clear j => b = negb (i <? j)%nat
  | _ => b = false
  end.

(** What is known of [termSignal]. *)
Definition term_ok (m : mpc T) (i : nat) (b : bool) : Prop :=
  match m with
  | M_init_thread _ => True
  | M_init_term j => (i < j)%nat -> b = false
  | M_term_signal j => b = (i <? j)%nat
  | M_term_notify _ | M_term_join _ | M_done => b = true
  | _ => b = false
  end.

(** The traces given to worker [i]: those at positions [i], [i + N], ... *)
Definition share (i : nat) (l : list T) : list T :=
  omap id (imap (fun k t => if decide (k mod N = i)%nat then Some t else None) l).

Lemma share_snoc i l t :
  share i (l ++ [t]) =
    share i l ++ (if decide (length l mod N = i)%nat then [t] else []).
Proof.
  unfold share. rewrite imap_app. rewrite omap_app. f_equal. simpl.
  rewrite Nat.add_0_r. by case_decide.
Qed.

(** ** The invariant of a worker, with the main thread at [m], [a] the next
    queue and [d] telling that no trace is queued or in flight. *)

Record winv (d : bool) (m : mpc T) (a : nat) (sub : list T) (i : nat) (w : worker) : Prop := {
  i_mutex : VeriQueueMutex w =
    if holding (pc w) then Some Worker_thread
    else if main_holds m a i then Some Main_thread else None;
  i_exclusive : holding (pc w) = true -> main_holds m a i = false;
  i_share : share i sub = verified w ++ inflight (pc w) ++ VeriQueue w;
  i_printed : printed_w w = mbind verify (verified w);
  i_results : (length (ResultVector w) + owed (pc w))%nat = length (verified w);
  i_get : getResultSignal w = get_expected m i;
  i_completed : completed_ok m i (completedStateMap w);
  i_quiet : completedStateMap w = true \/ d = true ->
    VeriQueue w = [] /\ inflight (pc w) = [] /\ owed (pc w) = 0%nat;
  i_checking : match pc w with
    | W_if_get => completedStateMap w = false
    | W_if_size => completedStateMap w = false /\ getResultSignal w = true
    | W_complete =>
        completedStateMap w = false /\ getResultSignal w = true /\ VeriQueue w = []
    | _ => True end;
  i_term : term_ok m i (termSignal w);
  i_sleep : match pc w with
    | W_while_get | W_while_size => termSignal w = false \/ term_pending m i
    | W_wait => (VeriQueue w = [] \/ push_pending m a i) /\
                (termSignal w = false \/ term_pending m i)
    | _ => True end;
  i_created : pc w = W_none <-> not_created m i;
}.

(** Where the main thread is in step with the log of submissions. *)
Definition lag (m : mpc T) : nat :=
  match m with M_exec_unlock | M_exec_notify | M_exec_next => 1 | _ => 0 end.

(** The number of results collected from the first [j] workers. *)
Definition collected (sub : list T) (j : nat) : nat :=
  sum_list_with (fun i => length (share i sub)) (seq 0 j).

Definition minv (d : bool) (s : pool) : Prop :=
  assignTo s = ((length (submitted s) - lag (main s)) mod N)%nat /\
  (lag (main s) <= length (submitted s))%nat /\
  match main s with
  | M_init_thread _ | M_init_term _ | M_init_get _ | M_init_completed _ => submitted s = []
  | M_exec_push _ | M_exec_unlock | M_exec_notify | M_exec_next => d = false
  | M_get_signal _ | M_get_notify _ => output s = []
  | M_get_count j tmp => (tmp <= j <= N)%nat /\ output s = []
  | M_get_test tmp => (tmp <= N)%nat /\ output s = []
  | M_get_merge j =>
      d = true /\ (j <= N)%nat /\ length (output s) = collected (submitted s) j
  | M_get_reset _ | M_get_wake _ | M_get_clear _ =>
      d = true /\ length (output s) = collected (submitted s) N
  | _ => True
  end.

Definition inv (d : bool) (s : pool) : Prop :=
  minv d s /\
  forall i, (i < N)%nat -> winv d (main s) (assignTo s) (submitted s) i (workers s i).

(** How [d] evolves. *)
Definition next_drained (s : pool) (d : bool) : bool :=
  match main s with
  | M_exec_lock _ => false
  | M_get_test tmp => if (tmp =? N)%nat then true else d
  | _ => d
  end.

(** ** Preservation *)

(** A worker that finds its queue empty while results are asked for. *)
Lemma completed_ok_set m i : completed_ok m i false -> get_expected m i = true -> completed_ok m i true.
Proof.
  destruct m; simpl; try done. intros _ H _. by apply Nat.ltb_lt.
Qed.

Ltac inv_open H := destruct H as [Hmx Hex Hsh Hpr Hre Hg Hc Hq Hck Ht Hsl Hcr].

Lemma winv_worker d m a sub i (w w' : worker) :
  winv d m a sub i w -> VeriWorker verify w = Some w' -> winv d m a sub i w'.
Proof.
  intros H Hstep. inv_open H.
  unfold VeriWorker, goto, acquire, release in Hstep.
  destruct w as [p tm g c q mx rv pr vf]; simpl in *.
  destruct p; simpl in *; repeat case_match; simplify_eq/=; split; simpl;
    try done; try tauto; try (intuition congruence);
    try (first [by rewrite (Hex eq_refl)
               |match goal with H : main_holds _ _ _ = _ |- _ => by rewrite H end]);
    try (rewrite length_app; simpl; lia).
  all: try (by rewrite bind_app; simpl; rewrite app_nil_r).
  all: try (by rewrite <- app_assoc).
  destruct Hck as (-> & Hget & _). apply completed_ok_set; congruence.
Qed.

Lemma winv_notify d m a sub i (w : worker) :
  winv d m a sub i w -> winv d m a sub i (notify w).
Proof.
  intros H. unfold notify. destruct (pc w) eqn:Hp; try done.
  inv_open H. rewrite Hp in *. split; simpl; try done. intuition congruence.
Qed.

Lemma notify_awake (w : worker) : pc (notify w) <> W_wait.
Proof. unfold notify. by destruct (pc w) eqn:Hp; simpl; rewrite ?Hp. Qed.

Lemma notify_holding (w : worker) : holding (pc (notify w)) = holding (pc w).
Proof. unfold notify. by destruct (pc w) eqn:Hp; simpl; rewrite ?Hp. Qed.

(** Places of the main thread that look alike to a worker. *)
Lemma winv_move d d' m m' a sub i (w : worker) :
  winv d m a sub i w ->
  (d' = true -> d = true \/ completedStateMap w = true) ->
  main_holds m' a i = main_holds m a i ->
  getResultSignal w = get_expected m' i ->
  completed_ok m' i (completedStateMap w) ->
  term_ok m' i (termSignal w) ->
  (push_pending m a i -> push_pending m' a i \/ pc w <> W_wait) ->
  (term_pending m i -> term_pending m' i \/
    (pc w <> W_wait /\ holding (pc w) = false)) ->
  (not_created m' i <-> not_created m i) ->
  winv d' m' a sub i w.
Proof.
  intros H Hd Hmh Hg' Hc' Ht' Hpp Htp Hn. inv_open H. split; try done.
  - by rewrite Hmh.
  - by rewrite Hmh.
  - intros [?|?]; [auto|]. destruct Hd; auto.
  - clear Hmx Hex Hsh Hpr Hre Hg Hc Hq Hck Ht Hcr Hn Hmh Hg' Hc' Ht' Hd.
    destruct (pc w) eqn:Hpc; try done; simpl in *; intuition congruence.
  - by rewrite Hn.
Qed.

(** The bookkeeping of a main step: comparisons of loop indices become
    propositions, and each field is tried with the facts of the old state. *)
Ltac idx :=
  repeat match goal with
  | H : context [bool_decide (?x = ?y)] |- _ =>
      first [rewrite (bool_decide_eq_true_2 (x = y)) in H by done
            |rewrite (bool_decide_eq_false_2 (x = y)) in H by congruence]
  | |- context [bool_decide (?x = ?y)] =>
      first [rewrite (bool_decide_eq_true_2 (x = y)) by done
            |rewrite (bool_decide_eq_false_2 (x = y)) by congruence]
  | H : context [(?x <? ?y)%nat] |- _ => destruct (Nat.ltb_spec x y)
  | H : context [(?x <=? ?y)%nat] |- _ => destruct (Nat.leb_spec x y)
  | |- context [(?x <? ?y)%nat] => destruct (Nat.ltb_spec x y)
  | |- context [(?x <=? ?y)%nat] => destruct (Nat.leb_spec x y)
  end.

Ltac by_move H :=
  apply (winv_move _ _ _ _ _ _ _ _ H); inv_open H; simpl in *; idx;
  try done; try lia; try congruence; try (intuition (congruence || lia));
  try (intros; match goal with H : _ -> _ = false |- _ = false => apply H; lia end).

Ltac by_set H :=
  inv_open H; split; simpl in *; idx;
  try done; try lia; try congruence; try (intuition (congruence || lia));
  try (intros; match goal with H : _ -> _ = false |- _ = false => apply H; lia end);
  try (match goal with |- context [match ?p with _ => _ end] => destruct p end;
       simpl in *; intuition (congruence || lia)).

(** Splits a main step into the log and the workers, [k] being the worker. *)
Ltac main_split Hm Hw Hmain k :=
  split;
  [ unfold minv in *; rewrite ?Hmain in Hm; simpl in *; destruct_and?; split_and?;
    try done; try lia
  | intros k Hk; specialize (Hw k Hk); rewrite ?Hmain in Hw; simpl; unfold upd;
    try (case_decide; [subst k|]); try (by_move Hw); try (by_set Hw) ].

Ltac notify_split Hm Hw Hmain k :=
  split;
  [ unfold minv in *; rewrite ?Hmain in Hm; simpl in *; destruct_and?; split_and?;
    try done; try lia
  | intros k Hk; specialize (Hw k Hk); rewrite ?Hmain in Hw; simpl; unfold upd;
    case_decide;
    [subst k; apply winv_notify in Hw;
     match type of Hw with winv _ _ _ _ _ (notify ?w) =>
       pose proof (notify_awake w); pose proof (notify_holding w) end|];
    by_move Hw ].

Lemma initVeri_inv d s s' :
  inv d s -> initVeri_step N s = Some s' -> inv (next_drained s d) s'.
Proof.
  intros [Hm Hw] Hstep. unfold initVeri_step, next_drained in *.
  assert (match main s with M_init_completed _ => assignTo s = 0%nat | _ => True end) as Ha.
  { destruct (main s) eqn:E; try done. destruct Hm as (-> & _ & Hs). rewrite E in Hs.
    rewrite Hs. apply Nat.Div0.mod_0_l. }
  destruct (main s) as [i|i|i|i| | | | | | | | | | | | | | | | | | | ] eqn:Hmain; try done;
    [assert (i < N -> pc (workers s i) = W_none)%nat as Hnone
       by (intros Hi; rewrite (i_created _ _ _ _ _ _ (Hw i Hi)); simpl; lia)|..];
    destruct (Nat.ltb_spec i N) as [Hi|Hi]; injection Hstep as <-; main_split Hm Hw Hmain k.
  all: by rewrite (Hnone Hi) in *.
Qed.

Lemma succ_mod n : (1 <= n)%nat -> (((n - 1) mod N + 1) mod N = (n - 0) mod N)%nat.
Proof. intros Hn. rewrite Nat.Div0.add_mod_idemp_l. f_equal. lia. Qed.

Lemma execVeri_inv d s s' :
  (0 < N)%nat -> inv d s -> execVeri_step N s = Some s' -> inv (next_drained s d) s'.
Proof.
  intros HN [Hm Hw] Hstep. unfold execVeri_step, next_drained in *.
  assert (assignTo s < N)%nat as Ha.
  { destruct Hm as (-> & _). apply Nat.mod_upper_bound. lia. }
  destruct (main s) eqn:Hmain; try done.
  - destruct (VeriQueueMutex (workers s (assignTo s))) eqn:Hmx0; [done|].
    assert (holding (pc (workers s (assignTo s))) = false) as Hnh.
    { rewrite (i_mutex _ _ _ _ _ _ (Hw _ Ha)) in Hmx0. by destruct (holding _). }
    injection Hstep as <-; main_split Hm Hw Hmain k.
  - pose proof Hm as (Hlen & _ & Hd). rewrite Hmain in Hlen, Hd. simpl in Hlen.
    rewrite Nat.sub_0_r in Hlen.
    injection Hstep as <-; main_split Hm Hw Hmain k.
    + rewrite length_app. simpl. rewrite Hlen. f_equal. lia.
    + rewrite length_app. simpl. lia.
    + rewrite share_snoc, <- Hlen, decide_True, Hsh by done. by rewrite !app_assoc.
    + rewrite share_snoc, <- Hlen, decide_False, app_nil_r by done. done.
  - injection Hstep as <-; main_split Hm Hw Hmain k.
  - injection Hstep as <-; notify_split Hm Hw Hmain k.
  - pose proof Hm as (Hlen & Hle & _). rewrite Hmain in Hlen, Hle. simpl in Hlen, Hle.
    injection Hstep as <-. split.
    + unfold minv in *. simpl. rewrite Hlen. split; [by apply succ_mod|lia].
    + intros k Hk. specialize (Hw k Hk). simpl. inv_open Hw.
      split; simpl in *; try done.
Qed.

Lemma collected_S sub j : collected sub (S j) = (collected sub j + length (share j sub))%nat.
Proof.
  unfold collected. rewrite seq_S, sum_list_with_app. simpl. lia.
Qed.

(** A completed worker has pushed all its results. *)
Lemma winv_all_pushed d m a sub i (w : worker) :
  winv d m a sub i w -> completedStateMap w = true \/ d = true ->
  length (ResultVector w) = length (share i sub) /\ verified w = share i sub.
Proof.
  intros H Hdone. inv_open H. destruct (Hq Hdone) as (Hq1 & Hq2 & Hq3).
  rewrite Hsh, Hq1, Hq2, app_nil_r. split; [lia|done].
Qed.

Lemma notify_locked_Some i m (s s' : pool) :
  notify_locked i m s = Some s' ->
  VeriQueueMutex (workers s i) = None /\ s' = to m (on_worker i notify s).
Proof.
  unfold notify_locked. destruct (VeriQueueMutex (workers s i)); [done|]. by intros [= <-].
Qed.

Lemma getVeri_inv d s s' :
  (0 < N)%nat -> inv d s -> getVeri_step N s = Some s' -> inv (next_drained s d) s'.
Proof.
  intros HN [Hm Hw] Hstep. unfold getVeri_step, next_drained in *.
  destruct (main s) eqn:Hmain; try done.
  - destruct (Nat.ltb_spec i N); injection Hstep as <-; main_split Hm Hw Hmain k.
  - assert (tmp <= i <= N)%nat as Htmp.
    { destruct Hm as (_ & _ & Hx). rewrite Hmain in Hx. apply Hx. }
    destruct (Nat.ltb_spec i N) as [Hi|Hi]; injection Hstep as <-.
    + destruct (completedStateMap (workers s i)) eqn:Hci; simpl; main_split Hm Hw Hmain k.
      intros ??. destruct (decide (k = i)) as [->|]; [done|]. apply Hc; lia.
    + main_split Hm Hw Hmain k. intros ->. apply Hc; lia.
  - destruct (Nat.eqb_spec tmp N) as [->|Hne]; injection Hstep as <-; main_split Hm Hw Hmain k.
    by replace (output s) with (@nil VeriResult).
  - destruct (Nat.ltb_spec i N) as [Hi|Hi].
    + apply notify_locked_Some in Hstep as [Hmx0 ->]. notify_split Hm Hw Hmain k.
    + injection Hstep as <-. main_split Hm Hw Hmain k.
  - pose proof Hm as (_ & _ & Hx). rewrite Hmain in Hx. destruct Hx as (Hd & Hle & Hout).
    destruct (Nat.ltb_spec i N) as [Hi|Hi]; injection Hstep as <-; main_split Hm Hw Hmain k.
    + rewrite length_app, collected_S, Hout. f_equal.
      by apply (winv_all_pushed _ _ _ _ _ _ (Hw i Hi)); right.
    + by replace N with i by lia.
  - destruct (Nat.ltb_spec i N) as [Hi|Hi]; injection Hstep as <-; main_split Hm Hw Hmain k.
  - destruct (Nat.ltb_spec i N) as [Hi|Hi].
    + apply notify_locked_Some in Hstep as [Hmx0 ->]. notify_split Hm Hw Hmain k.
    + injection Hstep as <-. main_split Hm Hw Hmain k.
  - destruct (Nat.ltb_spec i N) as [Hi|Hi]; injection Hstep as <-; main_split Hm Hw Hmain k.
Qed.

Lemma termVeri_inv d s s' :
  (0 < N)%nat -> inv d s -> termVeri_step N s = Some s' -> inv (next_drained s d) s'.
Proof.
  intros HN [Hm Hw] Hstep. unfold termVeri_step, next_drained in *.
  destruct (main s) eqn:Hmain; try done.
  - destruct (Nat.ltb_spec i N); injection Hstep as <-; main_split Hm Hw Hmain k.
  - destruct (Nat.ltb_spec i N) as [Hi|Hi].
    + apply notify_locked_Some in Hstep as [Hmx0 ->].
      assert (holding (pc (workers s i)) = false) as Hnh.
      { rewrite (i_mutex _ _ _ _ _ _ (Hw _ Hi)) in Hmx0. by destruct (holding _). }
      notify_split Hm Hw Hmain k.
    + injection Hstep as <-. main_split Hm Hw Hmain k.
  - destruct (Nat.ltb_spec i N) as [Hi|Hi].
    + destruct (pc (workers s i)); try done. injection Hstep as <-. main_split Hm Hw Hmain k.
    + injection Hstep as <-. main_split Hm Hw Hmain k.
Qed.

Lemma client_inv d s s' :
  main s = M_idle -> inv d s -> client_step s = Some s' -> inv d s'.
Proof.
  intros Hmain [Hm Hw] Hstep. unfold client_step in *.
  destruct (todo s) as [|[t| | |] cs]; try done; injection Hstep as <-;
    main_split Hm Hw Hmain k.
Qed.

Lemma main_inv d s s' :
  (0 < N)%nat -> inv d s -> main_step N s = Some s' -> inv (next_drained s d) s'.
Proof.
  intros HN Hinv Hstep. unfold main_step in Hstep.
  destruct (main s) eqn:Hmain;
    first [by apply initVeri_inv|by apply execVeri_inv|by apply getVeri_inv
          |by apply termVeri_inv|idtac].
  - unfold next_drained. rewrite Hmain. by apply (client_inv d s).
  - injection Hstep as <-. unfold next_drained. rewrite Hmain.
    destruct Hinv as [Hm Hw]. main_split Hm Hw Hmain k.
Qed.

Lemma worker_step_inv d i s s' :
  inv d s -> worker_step verify i s = Some s' -> inv d s'.
Proof.
  intros [Hm Hw] Hstep. unfold worker_step in Hstep.
  destruct (VeriWorker verify (workers s i)) as [w'|] eqn:Hwk; [|done].
  injection Hstep as <-. split; [done|]. intros k Hk. simpl. unfold upd.
  case_decide; [|by apply Hw]. subst. by eapply winv_worker; [apply Hw|].
Qed.

Lemma wakeup_inv d i s s' : inv d s -> spurious_wakeup i s = Some s' -> inv d s'.
Proof.
  intros [Hm Hw] Hstep. unfold spurious_wakeup in Hstep.
  destruct (pc (workers s i)); try done. injection Hstep as <-. split; [done|].
  intros k Hk. simpl. unfold upd. case_decide; [|by apply Hw]. subst.
  by apply winv_notify, Hw.
Qed.

Lemma pool_step_inv d c s s' :
  (0 < N)%nat -> inv d s -> pool_step N verify c s = Some s' ->
  inv (match c with Main => next_drained s d | _ => d end) s'.
Proof.
  intros HN Hinv Hstep. destruct c as [|i|i]; simpl in Hstep.
  - by apply main_inv.
  - case_match; [|done]. by eapply worker_step_inv.
  - case_match; [|done]. by eapply wakeup_inv.
Qed.

(** Flags that the allocation left at zero where it matters. *)
Definition flags_clear (flags : nat -> bool * bool * bool) : Prop :=
  forall i, (i < N)%nat -> (flags i).1.2 = false.

Lemma init_inv flags cs : flags_clear flags -> inv true (pool_init flags cs).
Proof.
  intros Hf. split.
  - unfold minv. simpl. split; [by rewrite Nat.Div0.mod_0_l|]. done.
  - intros i Hi. specialize (Hf i Hi). unfold pool_init. simpl.
    destruct (flags i) as [[t g] c]. simpl in Hf. subst g.
    split; simpl; try done; try (split; [intros; lia|done]).
Qed.

Lemma reachable_inv flags cs s :
  (0 < N)%nat -> flags_clear flags -> reachable N verify (pool_init flags cs) s ->
  exists d, inv d s.
Proof.
  intros HN Hf Hr. induction Hr as [|c s s' _ [d IH] Hstep].
  - exists true. by apply init_inv.
  - eexists. by eapply pool_step_inv.
Qed.

(** ** The end of [getVeri] *)

Lemma collected_snoc l t j :
  collected (l ++ [t]) j =
    (collected l j + (if decide (length l mod N < j)%nat then 1 else 0))%nat.
Proof.
  induction j as [|j IH]; [by rewrite decide_False by lia|].
  rewrite !collected_S, IH, share_snoc, length_app.
  repeat case_decide; simpl; try lia.
Qed.

Lemma collected_all l : (0 < N)%nat -> collected l N = length l.
Proof.
  intros HN. induction l as [|t l IH] using rev_ind.
  - unfold collected, share. simpl. induction (seq 0 N); simpl; done.
  - rewrite collected_snoc, IH, length_app, decide_True; [done|].
    apply Nat.mod_upper_bound. lia.
Qed.

Lemma inv_get_returns d s :
  (0 < N)%nat -> inv d s -> main s = M_get_clear N ->
  length (output s) = length (submitted s) /\
  forall i, (i < N)%nat ->
    verified (workers s i) = share i (submitted s) /\
    printed_w (workers s i) = mbind verify (share i (submitted s)).
Proof.
  intros HN [Hm Hw] Hmain. destruct Hm as (_ & _ & Hx). rewrite Hmain in Hx.
  destruct Hx as (-> & Hout). rewrite collected_all in Hout by done.
  split; [done|]. intros i Hi.
  destruct (winv_all_pushed _ _ _ _ _ _ (Hw i Hi)) as [_ Hv]; [by right|].
  split; [done|]. by rewrite (i_printed _ _ _ _ _ _ (Hw i Hi)), Hv.
Qed.

(** ** Enabled workers *)

(** A worker can move unless it sleeps, waits for its mutex, or is not running. *)
Lemma worker_enabled (w : worker) :
  holding (pc w) = true \/
  (VeriQueueMutex w = None /\ pc w <> W_none /\ pc w <> W_wait /\ pc w <> W_exit) ->
  is_Some (VeriWorker verify w).
Proof.
  unfold VeriWorker, goto, acquire. intros [H|(-> & H1 & H2 & H3)];
    destruct (pc w); try done; repeat case_match; eauto.
Qed.

(** ** Deleting the traces *)

Definition is_exec (c : call T) : bool := match c with execVeri _ => true | _ => false end.

Definition no_exec (cs : list (call T)) : bool := forallb (fun c => negb (is_exec c)) cs.

(** A client that asks for the results between its last submission and the
    deletion of the traces. *)
Fixpoint safe_calls (drained : bool) (cs : list (call T)) : bool :=
  match cs with
  | [] => true
  | execVeri _ :: cs' => safe_calls false cs'
  | getVeri :: cs' => safe_calls true cs'
  | deleteVectors :: cs' => drained && no_exec cs'
  | termVeri :: _ => true
  end.

(** What remains to be called, from the place of the main thread. *)
Definition calls_ok (d : bool) (s : pool) : Prop :=
  uaf s = false /\
  (freed s = true -> d = true /\ no_exec (todo s) = true /\
     match main s with
     | M_exec_lock _ | M_exec_push _ | M_exec_unlock | M_exec_notify | M_exec_next => False
     | _ => True
     end) /\
  match main s with
  | M_exec_lock _ | M_exec_push _ | M_exec_unlock | M_exec_notify | M_exec_next =>
      safe_calls false (todo s) = true
  | M_get_signal _ | M_get_count _ _ | M_get_test _ | M_get_notify _ | M_get_merge _
  | M_get_reset _ | M_get_wake _ | M_get_clear _ =>
      freed s = true \/ safe_calls true (todo s) = true
  | M_delete => d = true /\ no_exec (todo s) = true
  | M_term_signal _ | M_term_notify _ | M_term_join _ | M_done => True
  | _ => freed s = true \/ safe_calls d (todo s) = true
  end.

Lemma worker_step_calls_ok d i s s' :
  (i < N)%nat -> inv d s -> calls_ok d s -> worker_step verify i s = Some s' ->
  calls_ok d s'.
Proof.
  intros Hi [_ Hw] (Hu & Hf & Hc) Hstep. unfold worker_step in Hstep.
  destruct (VeriWorker verify (workers s i)) as [w'|]; [|done]. injection Hstep as <-.
  split_and!; simpl; [|done|done]. rewrite Hu. simpl.
  destruct (pc (workers s i)) eqn:Hp; try done.
  destruct (freed s); [|done]. destruct Hf as (-> & _); [done|].
  destruct (i_quiet _ _ _ _ _ _ (Hw i Hi)) as (_ & Hfl & _); [by right|].
  by rewrite Hp in Hfl.
Qed.

Lemma main_step_calls_ok d s s' :
  (0 < N)%nat -> inv d s -> calls_ok d s -> main_step N s = Some s' ->
  calls_ok (next_drained s d) s'.
Proof.
  intros HN [(_ & _ & Hm) _] (Hu & Hf & Hc) Hstep. unfold main_step, next_drained in *.
  destruct (main s) eqn:Hmain;
    unfold initVeri_step, execVeri_step, getVeri_step, termVeri_step, notify_locked in Hstep;
    rewrite ?Hmain in Hstep.
  all: repeat match type of Hstep with context [if ?x then _ else _] => destruct x eqn:? end.
  all: repeat match type of Hstep with context [match VeriQueueMutex ?x with _ => _ end] =>
         destruct (VeriQueueMutex x) end.
  all: try (injection Hstep as <-; split; [exact Hu|split; [exact Hf|exact Hc]]).
  all: try done.
  - unfold client_step in Hstep. destruct (todo s) as [|c cs] eqn:Ht; [done|].
    injection Hstep as <-.
    destruct c; simpl in *; unfold calls_ok; simpl; (split; [done|]); rewrite ?andb_true_iff in *;
      intuition congruence.
  - injection Hstep as <-. split; [exact Hu|]. split; [|exact Hc]. intros Hfr.
    by apply Hf in Hfr as (_ & _ & []).
  - injection Hstep as <-. split; [exact Hu|]. split; [|right; simpl; congruence].
    intros Hfr. by apply Hf in Hfr as (? & ? & ?).
  - injection Hstep as <-. split; [exact Hu|]. split; [|exact Hc]. intros Hfr.
    by apply Hf in Hfr as (? & ? & ?).
  - injection Hstep as <-. destruct Hm as [-> _]. split; [exact Hu|]. split; [exact Hf|exact Hc].
  - injection Hstep as <-. destruct Hc as [-> Hne]. split; [exact Hu|].
    split; [by intros _|by left].
  - destruct (pc (workers s i)); try done. injection Hstep as <-.
    split; [exact Hu|]. split; [exact Hf|exact Hc].
Qed.

Lemma reachable_calls_ok flags cs s :
  (0 < N)%nat -> flags_clear flags -> safe_calls true cs = true ->
  reachable N verify (pool_init flags cs) s -> exists d, inv d s /\ calls_ok d s.
Proof.
  intros HN Hf Hcs Hr. induction Hr as [|c s s' _ (d & Hinv & Hok) Hstep].
  { exists true. split; [by apply init_inv|]. split; [done|]. split; [done|]. by right. }
  exists (match c with Main => next_drained s d | _ => d end).
  split; [by eapply pool_step_inv|]. destruct c as [|i|i]; simpl in Hstep.
  - by eapply main_step_calls_ok.
  - destruct (Nat.ltb_spec i N) as [Hi|]; [|done]. by eapply worker_step_calls_ok.
  - destruct (Nat.ltb_spec i N) as [Hi|]; [|done]. unfold spurious_wakeup in Hstep.
    destruct (pc (workers s i)); try done. by injection Hstep as <-.
Qed.

(** ** What the client has asked for *)

Definition exec_args (cs : list (call T)) : list T :=
  mbind (fun c => match c with execVeri t => [t] | _ => [] end) cs.

(** The trace of a call of [execVeri] that has not pushed it yet. *)
Definition pending (m : mpc T) : list T :=
  match m with M_exec_lock t | M_exec_push t => [t] | _ => [] end.

Definition in_get (m : mpc T) : bool :=
  match m with
  | M_get_signal _ | M_get_count _ _ | M_get_test _ | M_get_notify _ | M_get_merge _
  | M_get_reset _ | M_get_wake _ | M_get_clear _ => true
  | _ => false
  end.

(** [pre] has been called: its traces are submitted or about to be. *)
Definition called (cs : list (call T)) (s : pool) : Prop :=
  exists pre, cs = pre ++ todo s /\
    exec_args pre = submitted s ++ pending (main s) /\
    (in_get (main s) = true -> exists pre', pre = pre' ++ [getVeri]).

Lemma main_step_called cs s s' : called cs s -> main_step N s = Some s' -> called cs s'.
Proof.
  intros (pre & Hcs & Hargs & Hget) Hstep. unfold main_step in Hstep.
  destruct (main s) eqn:Hmain;
    unfold initVeri_step, execVeri_step, getVeri_step, termVeri_step, notify_locked in Hstep;
    rewrite ?Hmain in Hstep.
  all: repeat match type of Hstep with context [if ?x then _ else _] => destruct x end.
  all: repeat match type of Hstep with context [match VeriQueueMutex ?x with _ => _ end] =>
         destruct (VeriQueueMutex x) end.
  all: repeat match type of Hstep with context [match pc ?x with _ => _ end] =>
         destruct (pc x) end.
  all: try done.
  all: try (injection Hstep as <-; exists pre; simpl in *; rewrite ?app_nil_r in *;
            split_and!; by auto).
  unfold client_step in Hstep. destruct (todo s) as [|c td]; [done|]. injection Hstep as <-.
  exists (pre ++ [c]). simpl in Hargs. rewrite app_nil_r in Hargs.
  unfold exec_args in *. rewrite bind_app, Hargs. simpl.
  destruct c; simpl; rewrite <- app_assoc, ?app_nil_r; split_and!; eauto; done.
Qed.

Lemma reachable_called flags cs s :
  reachable N verify (pool_init flags cs) s -> called cs s.
Proof.
  intros Hr. induction Hr as [|c s s' _ IH Hstep].
  { by exists []. }
  destruct c as [|i|i]; simpl in Hstep.
  - by eapply main_step_called.
  - case_match; [|done]. unfold worker_step in Hstep.
    destruct (VeriWorker verify (workers s i)); [|done]. by injection Hstep as <-.
  - case_match; [|done]. unfold spurious_wakeup in Hstep.
    destruct (pc (workers s i)); try done. by injection Hstep as <-.
Qed.

(** When the only [getVeri] of a client is its last call, everything has been
    submitted when it returns. *)
Lemma called_all ts s :
  called ((execVeri <$> ts) ++ [getVeri]) s -> in_get (main s) = true ->
  submitted s = ts.
Proof.
  intros (pre & Hcs & Hargs & Hget) Hin. destruct (Hget Hin) as [pre' ->].
  assert (pending (main s) = []) as Hp by (by destruct (main s)).
  rewrite Hp, app_nil_r in Hargs. rewrite <- Hargs.
  assert (pre' = execVeri <$> ts) as ->.
  { destruct (todo s) as [|c td _] using rev_ind.
    - rewrite app_nil_r in Hcs. by apply app_inj_tail in Hcs as [? _].
    - rewrite app_assoc in Hcs. apply app_inj_tail in Hcs as [Hcs _].
      assert (getVeri ∈ (execVeri <$> ts)) as Hin'.
      { rewrite Hcs, !elem_of_app. left. right. by apply list_elem_of_singleton. }
      apply list_elem_of_fmap in Hin' as (? & ? & _). done. }
  unfold exec_args. rewrite bind_app. simpl. rewrite app_nil_r.
  clear. induction ts as [|t ts IH]; [done|]. simpl. f_equal. exact IH.
Qed.

End Invariant.

Lemma get_return_step {T R} (N : nat) (verify : T -> list R) (s : pool T R) :
  main s = M_get_clear N -> pool_step N verify Main s = Some (to M_idle s).
Proof.
  intros H. simpl. unfold main_step, getVeri_step. by rewrite H, Nat.ltb_irrefl.
Qed.

Lemma share_fmap {A B} (N : nat) (f : A -> B) i l : share N i (f <$> l) = f <$> share N i l.
Proof.
  induction l as [|x l IH] using rev_ind; [done|].
  rewrite fmap_app. simpl. rewrite !share_snoc, IH, fmap_app, length_fmap.
  by case_decide.
Qed.

Lemma share_bind {A B C} (N : nat) (f : A -> list C) (g : B -> list C) i l k :
  f <$> l = g <$> k -> mbind f (share N i l) = mbind g (share N i k).
Proof.
  intros H. rewrite !bind_join, <- !share_fmap. by rewrite H.
Qed.

(** ** Properties *)

(** C7: [getVeri] waits for everything.  For any number of workers, any calls
    of the client and any schedule, when [getVeri] returns it has collected one
    result per trace submitted so far, and worker [i] has verified exactly the
    traces [i], [i + N], [i + 2N], ... in the order of submission, printing what
    [VeriProc] prints for them.  ([getResultSignal] is assumed to be clear in
    the memory the object is built in.) *)
Theorem getVeri_complete {T R} (N : nat) (verify : T -> list R)
    (flags : nat -> bool * bool * bool) (cs : list (call T)) (s s' : pool T R)
    (HN : (0 < N)%nat) (Hflags : flags_clear N flags)
    (Hreach : reachable N verify (pool_init flags cs) s)
    (Hlast : main s = M_get_clear N) (Hstep : pool_step N verify Main s = Some s') :
  main s' = M_idle /\ length (output s') = length (submitted s') /\
  forall i, (i < N)%nat ->
    verified (workers s' i) = share N i (submitted s') /\
    printed_w (workers s' i) = mbind verify (share N i (submitted s')).
Proof.
  destruct (reachable_inv N verify flags cs s HN Hflags Hreach) as [d Hinv].
  destruct (inv_get_returns N verify d s HN Hinv Hlast) as [Hout Hws].
  rewrite get_return_step in Hstep by done. by injection Hstep as <-.
Qed.

(** Memory safety of the exit.  A client that calls [getVeri] between its
    last submission and [C_exitVeri] never has a worker run [VeriProc] on a
    deleted trace. *)
Theorem exit_after_get_safe {T R} (N : nat) (verify : T -> list R)
    (flags : nat -> bool * bool * bool) (cs : list (call T)) (s : pool T R)
    (HN : (0 < N)%nat) (Hflags : flags_clear N flags) (Hcs : safe_calls true cs = true)
    (Hreach : reachable N verify (pool_init flags cs) s) :
  uaf s = false.
Proof.
  destruct (reachable_calls_ok N verify flags cs s HN Hflags Hcs Hreach) as (d & _ & Hu & _).
  exact Hu.
Qed.

(** ** Concrete executions with one worker *)

Definition echo (t : nat) : list nat := [t].
Definition no_flags (i : nat) : bool * bool * bool := (false, false, false).
Definition main_times (n : nat) : list choice := replicate n Main.
Definition worker_times (n : nat) : list choice := replicate n (Worker 0).

(** [execVeri 7; getVeri]: the worker verifies the trace, then reports; the
    main thread stands before the return of [getVeri]. *)
Definition sched_get : list choice :=
  main_times 14 ++ worker_times 12 ++ main_times 3 ++ worker_times 8 ++ main_times 10.

Definition pool_after {T R} (verify : T -> list R) (flags : nat -> bool * bool * bool)
    (cs : list (call T)) (sched : list choice) : pool T R :=
  match pool_run 1 verify sched (pool_init flags cs) with
  | Some s => s
  | None => pool_init flags cs
  end.

Lemma pool_after_reachable {T R} (verify : T -> list R) flags cs sched :
  bool_decide (is_Some (pool_run 1 verify sched (pool_init flags cs))) = true ->
  reachable 1 verify (pool_init flags cs) (pool_after verify flags cs sched).
Proof.
  unfold pool_after. destruct (pool_run 1 verify sched (pool_init flags cs)) eqn:Hrun; [|done].
  intros _. eapply pool_run_reachable; [constructor|exact Hrun].
Qed.

Definition pool_get : pool nat nat := pool_after echo no_flags [execVeri 7%nat; getVeri] sched_get.

Lemma pool_get_reachable : reachable 1 echo (pool_init no_flags [execVeri 7%nat; getVeri]) pool_get.
Proof. apply pool_after_reachable. vm_compute. reflexivity. Qed.

Lemma getVeri_complete_witness :
  verified (workers (to M_idle pool_get) 0) = [7%nat] /\
  length (output (to M_idle pool_get)) = length (submitted (to M_idle pool_get)).
Proof.
  destruct (getVeri_complete 1 echo no_flags [execVeri 7%nat; getVeri] pool_get
    (to M_idle pool_get)) as (_ & H & _).
  - lia.
  - intros i _. reflexivity.
  - apply pool_get_reachable.
  - vm_compute. reflexivity.
  - apply get_return_step. vm_compute. reflexivity.
  - split; [vm_compute; reflexivity|exact H].
Defined.

Lemma exit_after_get_safe_witness :
  uaf (pool_after echo no_flags [execVeri 7%nat; getVeri; deleteVectors; termVeri]
    (sched_get ++ main_times 3)) = false.
Proof.
  apply (exit_after_get_safe 1 echo no_flags
    [execVeri 7%nat; getVeri; deleteVectors; termVeri]).
  - lia.
  - intros i _. reflexivity.
  - reflexivity.
  - apply pool_after_reachable. vm_compute. reflexivity.
Defined.

(** What the hypotheses of the theorems above are for.  With the flag
    [getResultSignal] set in the memory the object is built in (the workers are
    started before the flags are initialised), [getVeri] can return before the
    submitted trace is verified.  A client that exits without asking for the
    results can have a worker read a deleted trace, and one that only destroys
    the object loses the submitted trace. *)
Theorem pool_hazards :
  (exists s, reachable 1 echo (pool_init (fun _ => (false, true, false))
       [execVeri 7%nat; getVeri]) s /\
     main s = M_idle /\ todo s = [] /\ submitted s = [7%nat] /\ output s = [] /\
     verified (workers s 0) = []) /\
  (exists s, reachable 1 echo (pool_init no_flags
       [execVeri 7%nat; deleteVectors; termVeri]) s /\ uaf s = true) /\
  (exists s, reachable 1 echo (pool_init no_flags [execVeri 7%nat; termVeri]) s /\
     main s = M_done /\ VeriQueue (workers s 0) = [7%nat] /\ verified (workers s 0) = []).
Proof.
  split_and!.
  - exists (pool_after echo (fun _ => (false, true, false)) [execVeri 7%nat; getVeri]
      (main_times 1 ++ worker_times 8 ++ main_times 7 ++ worker_times 1 ++ main_times 20)).
    split; [apply pool_after_reachable; vm_compute; reflexivity|].
    split_and?; vm_compute; reflexivity.
  - exists (pool_after echo no_flags [execVeri 7%nat; deleteVectors; termVeri]
      (main_times 16 ++ worker_times 11)).
    split; [apply pool_after_reachable; vm_compute; reflexivity|].
    split_and?; vm_compute; reflexivity.
  - exists (pool_after echo no_flags [execVeri 7%nat; termVeri]
      (main_times 14 ++ worker_times 1 ++ main_times 5 ++ worker_times 3 ++ main_times 2)).
    split; [apply pool_after_reachable; vm_compute; reflexivity|].
    split_and?; vm_compute; reflexivity.
Qed.

(** The state in which [termVeri] waits for a worker that has not passed the
    spin loop at the top of [VeriWorker]. *)
Definition stuck (s : pool nat nat) : Prop :=
  main s = M_term_join 0 /\ pc (workers s 0) = W_spin /\ termSignal (workers s 0) = true.

Lemma stuck_step c s s' : stuck s -> pool_step 1 echo c s = Some s' -> stuck s'.
Proof.
  intros (Hm & Hp & Ht) Hstep. destruct c as [|i|i]; simpl in Hstep.
  - unfold main_step, termVeri_step in Hstep. rewrite Hm in Hstep. simpl in Hstep.
    by rewrite Hp in Hstep.
  - destruct i as [|i]; [|done]. simpl in Hstep. unfold worker_step, VeriWorker in Hstep.
    rewrite Hp, Ht in Hstep. simpl in Hstep. injection Hstep as <-.
    split; [done|]. by split.
  - destruct i as [|i]; [|done]. simpl in Hstep. unfold spurious_wakeup in Hstep.
    by rewrite Hp in Hstep.
Qed.

(** [termVeri] can hang.  If the object is destroyed before a worker has
    run at all, the worker finds [termSignal] set and spins in its first loop
    for ever: from the state reached, no execution ever leaves the join. *)
Theorem termVeri_can_hang :
  exists s, reachable 1 echo (pool_init no_flags [termVeri]) s /\
    forall s', reachable 1 echo s s' -> main s' = M_term_join 0.
Proof.
  exists (pool_after echo no_flags [termVeri] (main_times 13)).
  split; [apply pool_after_reachable; vm_compute; reflexivity|]. intros s' Hr.
  assert (stuck s') as [? _]; [|done]. unfold stuck.
  induction Hr as [|c s1 s2 _ IH Hstep]; [|by eapply stuck_step].
  split_and!; vm_compute; reflexivity.
Qed.
