(* ===== verification/EngineLive.v ===== *)
(** * What the worker pool gets done

    The invariant of [EngineProofs] says what cannot go wrong; this file says that
    the calls come to an end.  A worker that is left alone verifies its queue and
    goes to sleep, in a number of steps bounded by the length of the queue; no
    worker sleeps on a trace; and from every state in which a call is in progress
    the threads can finish it without a spurious wake-up.  Each notification of
    the code is needed for this. *)

From Stdlib Require Import Ascii.
From stdpp Require Import strings.
From S2P Require Import Prelude Intervals Metadata Checker Engine EngineProofs.

Section Live.
Context {T R : Type} (N : nat) (verify : T -> list R).
Local Abbreviation worker := (worker T R).
Local Abbreviation pool := (pool T R).

(** ** When a worker can have left *)

Definition terminating (m : mpc T) : bool :=
  match m with M_term_signal _ | M_term_notify _ | M_term_join _ | M_done => true | _ => false end.

(** A worker has passed its first loop only with [termSignal] clear, and returns
    only with [termSignal] set. *)
Definition exit_inv (m : mpc T) (w : worker) : Prop :=
  (pc w = W_exit -> termSignal w = true) /\
  (pc w = W_none \/ pc w = W_spin \/ termSignal w = false \/ terminating m = true).

Lemma exit_inv_worker m (w w' : worker) :
  exit_inv m w -> VeriWorker verify w = Some w' -> exit_inv m w'.
Proof.
  unfold exit_inv, VeriWorker, goto, acquire, release. intros [H1 H2].
  destruct w as [p tm g c q mx rv pr vf]; simpl in *.
  destruct p; simpl in *; repeat case_match; intros; simplify_eq/=; try done;
    (split; [done|]); intuition congruence.
Qed.

Lemma exit_inv_notify m (w : worker) : exit_inv m w -> exit_inv m (notify w).
Proof.
  unfold exit_inv, notify. intros [H1 H2]. destruct (pc w) eqn:Hp; simpl; rewrite ?Hp; try done.
  split; [done|]. intuition congruence.
Qed.

Lemma exit_inv_main s s' :
  (forall i, (i < N)%nat -> exit_inv (main s) (workers s i)) ->
  main_step N s = Some s' -> forall i, (i < N)%nat -> exit_inv (main s') (workers s' i).
Proof.
  intros H Hstep i Hi. specialize (H i Hi). unfold main_step in Hstep.
  destruct (main s) eqn:Hm;
    unfold initVeri_step, execVeri_step, getVeri_step, termVeri_step, client_step, notify_locked in Hstep;
    rewrite ?Hm in Hstep; repeat case_match; simplify_eq/=; unfold upd; try exact H;
    try (case_decide; [subst|exact H]); try exact H; try (by apply exit_inv_notify).
  all: unfold exit_inv in *; simpl in *; intuition congruence.
Qed.

(** ** A worker left alone *)

(** What a run of worker [i] leaves as it is. *)
Definition frame (i : nat) (s s' : pool) : Prop :=
  main s' = main s /\ todo s' = todo s /\ assignTo s' = assignTo s /\
  submitted s' = submitted s /\ forall j, j <> i -> workers s' j = workers s j.

Lemma worker_moves s i (w' : worker) :
  (i < N)%nat -> VeriWorker verify (workers s i) = Some w' ->
  exists s', pool_step N verify (Worker i) s = Some s' /\ frame i s s' /\ workers s' i = w'.
Proof.
  intros Hi Hw. simpl. rewrite (proj2 (Nat.ltb_lt _ _) Hi). unfold worker_step. rewrite Hw. simpl.
  eexists. split; [done|]. unfold frame, upd. simpl. split.
  - split_and!; try done. intros j Hj. by rewrite decide_False.
  - by rewrite decide_True.
Qed.

(** A worker whose steps decrease a measure reaches its goal by itself. *)
Lemma solo_until (P goal : worker -> Prop) (mu : worker -> nat) i :
  (i < N)%nat ->
  (forall w, P w -> goal w \/
     exists w', VeriWorker verify w = Some w' /\ P w' /\ (mu w' < mu w)%nat) ->
  forall s, P (workers s i) ->
  exists n s', (n <= mu (workers s i))%nat /\
    pool_run N verify (replicate n (Worker i)) s = Some s' /\ frame i s s' /\
    P (workers s' i) /\ goal (workers s' i).
Proof.
  intros Hi Hstep s. remember (mu (workers s i)) as k eqn:Hk. revert s Hk.
  induction (lt_wf k) as [k _ IH]; intros s Hk HP.
  destruct (Hstep _ HP) as [Hg|(w' & Hw & HP' & Hlt)].
  { exists 0%nat, s. split; [lia|]. split; [done|]. by split. }
  destruct (worker_moves s i w' Hi Hw) as (s1 & Hs1 & Hf1 & Hw1). subst w'.
  destruct (IH (mu (workers s1 i)) ltac:(lia) s1 eq_refl HP')
    as (n & s2 & Hn & Hrun & Hf2 & HP2 & Hg).
  exists (S n), s2. split; [lia|]. cbn [replicate pool_run]. rewrite Hs1. split; [exact Hrun|].
  split; [|done]. destruct Hf1 as (? & ? & ? & ? & Ho1), Hf2 as (? & ? & ? & ? & Ho2).
  split_and!; try congruence. intros j Hj. by rewrite Ho2, Ho1.
Qed.

(** A worker that is not blocked: it has been created, has not returned, and the
    main thread is not in its critical section. *)
Record runnable (d : bool) (m : mpc T) (a : nat) (sub : list T) (i : nat) (w : worker) : Prop := {
  f_winv : winv N verify d m a sub i w;
  f_exit : exit_inv m w;
  f_main : main_holds m a i = false;
  f_created : ~ not_created m i;
}.

Lemma free_step d m a sub i (w w' : worker) :
  runnable d m a sub i w -> VeriWorker verify w = Some w' -> runnable d m a sub i w'.
Proof.
  intros [H1 H2 H3 H4] Hw. split; [by eapply winv_worker|by eapply exit_inv_worker|done..].
Qed.

Lemma free_moves d m a sub i (w : worker) :
  runnable d m a sub i w -> pc w <> W_wait -> pc w <> W_exit -> is_Some (VeriWorker verify w).
Proof.
  intros [H1 H2 H3 H4] Hp1 Hp2. apply worker_enabled.
  destruct (holding (pc w)) eqn:Hh; [by left|right]. split_and!; try done.
  - by rewrite (i_mutex _ _ _ _ _ _ _ _ H1), Hh, H3.
  - intros Hn. by apply (i_created _ _ _ _ _ _ _ _ H1) in Hn.
Qed.

(** The measures: places in the order in which a worker passes them. *)
Definition to_release (w : worker) : nat :=
  match pc w with
  | W_while_term => 9 | W_while_get => 8 | W_while_size => 7 | W_term => 6 | W_if_completed => 5
  | W_if_get => 4 | W_if_size => 3 | W_front => 2 | W_complete | W_unlock _ => 1
  | _ => 0
  end.

Definition queue_rank (p : wpc T) : nat :=
  match p with
  | W_front => 1 | W_if_size => 2 | W_if_get => 3 | W_if_completed => 4 | W_term => 5
  | W_while_size => 6 | W_while_get => 7 | W_while_term => 8 | W_lock | W_woken => 9
  | W_spin | W_result | W_complete => 10 | W_proc _ => 11 | W_unlock _ => 12
  | _ => 0
  end.

Definition empty_rank (get : bool) (p : wpc T) : nat :=
  if get then
    match p with
    | W_while_size | W_complete => 1 | W_if_size => 2 | W_if_get => 3 | W_if_completed => 4
    | W_term => 5 | W_while_get => 6 | W_while_term => 7 | W_lock | W_woken => 8
    | W_spin | W_front | W_result => 9 | W_proc _ => 10 | W_unlock _ => 11
    | _ => 0
    end
  else
    match p with
    | W_while_size => 1 | W_while_get => 2 | W_while_term => 3 | W_lock | W_woken => 4
    | W_spin | W_front | W_complete | W_result => 5 | W_proc _ | W_if_size => 6
    | W_unlock _ | W_if_get => 7 | W_if_completed => 8 | W_term => 9
    | _ => 0
    end.

Definition work (w : worker) : nat :=
  (13 * length (VeriQueue w) +
   match VeriQueue w with
   | [] => empty_rank (getResultSignal w) (pc w)
   | _ => queue_rank (pc w)
   end)%nat.

Definition to_exit (w : worker) : nat :=
  match pc w with
  | W_term => 1 | W_while_term => 2 | W_lock | W_woken => 3 | W_result | W_complete => 4
  | W_proc _ => 5 | W_unlock _ => 6 | W_front => 7 | W_if_size => 8 | W_if_get => 9
  | W_if_completed => 10
  | _ => 0
  end.

Lemma work_bound w : (work w <= 13 * length (VeriQueue w) + 12)%nat.
Proof.
  unfold work. destruct (VeriQueue w); unfold queue_rank, empty_rank;
    repeat case_match; simpl; lia.
Qed.

Ltac worker_cases w :=
  let p := fresh "p" in
  destruct w as [p ? ? ? [|? ?] ? ? ? ?]; destruct p; simpl in *; simplify_eq/=;
  repeat case_match; simplify_eq/=; try done; try lia.

Lemma release_step w w' :
  holding (pc w) = true -> VeriWorker verify w = Some w' ->
  (to_release w' < to_release w)%nat.
Proof.
  unfold VeriWorker, goto, acquire, release, to_release. intros Hh Hs. worker_cases w.
Qed.

Lemma idle_step w w' :
  getResultSignal w = false -> termSignal w = false -> VeriWorker verify w = Some w' ->
  getResultSignal w' = false /\ termSignal w' = false /\ (work w' < work w)%nat.
Proof.
  unfold VeriWorker, goto, acquire, release, work. intros Hg Ht Hs.
  worker_cases w; split_and!; try done; try lia.
Qed.

(** Past the notification of [getVeri], a worker does not go back to sleep. *)
Definition asked (w : worker) : Prop :=
  getResultSignal w = true /\ termSignal w = false /\
  pc w <> W_wait /\ pc w <> W_while_size.

Lemma asked_step w w' :
  asked w -> completedStateMap w = false ->
  (pc w = W_complete -> VeriQueue w = []) -> VeriWorker verify w = Some w' ->
  completedStateMap w' = true \/ (asked w' /\ (work w' < work w)%nat).
Proof.
  unfold asked, VeriWorker, goto, acquire, release, work.
  intros (Hg & Ht & H1 & H2) Hc Hq Hs.
  worker_cases w; try (by left); right; split_and!; done || lia.
Qed.

(** After [termVeri] has notified it, a worker past its first loop returns. *)
Definition stopped (w : worker) : Prop :=
  termSignal w = true /\
  pc w <> W_wait /\ pc w <> W_while_size /\ pc w <> W_while_get /\ pc w <> W_spin.

Lemma stopped_step w w' :
  stopped w -> VeriWorker verify w = Some w' -> stopped w' /\ (to_exit w' < to_exit w)%nat.
Proof.
  unfold stopped, VeriWorker, goto, acquire, release, to_exit.
  intros (Ht & H1 & H2 & H3 & H4) Hs. worker_cases w; split_and!; done || lia.
Qed.

(** ** Runs of the pool *)

Definition linv (s : pool) : Prop :=
  (exists d, inv N verify d s) /\ forall i, (i < N)%nat -> exit_inv (main s) (workers s i).

Definition no_wakeup (c : choice) : Prop := forall i, c <> Wakeup i.

(** [s'] can be reached without a spurious wake-up and without a new call. *)
Definition reaches (s s' : pool) : Prop :=
  exists sched, Forall no_wakeup sched /\ pool_run N verify sched s = Some s' /\
    todo s' = todo s.

Lemma pool_run_app l1 l2 (s : pool) :
  pool_run N verify (l1 ++ l2) s = pool_run N verify l1 s ≫= pool_run N verify l2.
Proof.
  revert s. induction l1 as [|c l1 IH]; intros s; [done|]. simpl.
  destruct (pool_step N verify c s); simpl; [apply IH|done].
Qed.

Lemma reaches_refl s : reaches s s.
Proof. by exists []. Qed.

Lemma reaches_trans s1 s2 s3 : reaches s1 s2 -> reaches s2 s3 -> reaches s1 s3.
Proof.
  intros (l1 & H1 & E1 & T1) (l2 & H2 & E2 & T2). exists (l1 ++ l2).
  rewrite pool_run_app, E1. split_and!; [by apply Forall_app|done|congruence].
Qed.

Context (HN : (0 < N)%nat).

Lemma linv_step c s s' : linv s -> pool_step N verify c s = Some s' -> linv s'.
Proof using HN.
  intros [[d Hinv] Hex] Hstep. split; [eexists; by eapply pool_step_inv|].
  destruct c as [|j|j]; simpl in Hstep; intros i Hi.
  - by apply (exit_inv_main s).
  - case_match; [|done]. unfold worker_step in Hstep.
    destruct (VeriWorker verify (workers s j)) as [w|] eqn:Hw; [|done]. injection Hstep as <-.
    simpl. unfold upd. case_decide; [subst|by apply Hex]. eapply exit_inv_worker; [by apply Hex|done].
  - case_match; [|done]. unfold spurious_wakeup in Hstep.
    destruct (pc (workers s j)); try done. injection Hstep as <-. simpl. unfold upd.
    case_decide; [subst|by apply Hex]. by apply exit_inv_notify, Hex.
Qed.

Lemma reachable_linv flags cs s :
  flags_clear N flags -> reachable N verify (pool_init flags cs) s -> linv s.
Proof using HN.
  intros Hf Hr. induction Hr as [|c s s' _ IH Hstep]; [|by eapply linv_step].
  split; [exists true; by apply init_inv|]. intros i Hi.
  unfold exit_inv. simpl. destruct (flags i) as [[??]?]. simpl. split; [done|auto].
Qed.

Lemma linv_run sched : forall s s', linv s -> pool_run N verify sched s = Some s' -> linv s'.
Proof using HN.
  induction sched as [|c sched IH]; intros s s' Hl; simpl; [by intros [= <-]|].
  destruct (pool_step N verify c s) as [s1|] eqn:Hc; [|done]. simpl. apply IH.
  by eapply linv_step.
Qed.

Lemma reaches_linv s s' : linv s -> reaches s s' -> linv s'.
Proof using HN. intros Hl (l & _ & E & _). by eapply linv_run. Qed.

(** A step of the main thread inside a call. *)
Lemma main_reaches s s1 s2 :
  main_step N s = Some s1 -> todo s1 = todo s -> reaches s1 s2 -> reaches s s2.
Proof.
  intros Hm Ht. apply reaches_trans. exists [Main]. cbn [pool_run pool_step]. rewrite Hm.
  split_and!; [|done|done]. by apply Forall_singleton.
Qed.

Lemma solo_reaches n i s s' :
  pool_run N verify (replicate n (Worker i)) s = Some s' -> frame i s s' -> reaches s s'.
Proof.
  intros Hr (_ & Ht & _). exists (replicate n (Worker i)). split_and!; [|done|done].
  by apply Forall_replicate.
Qed.

Lemma linv_free s i :
  linv s -> (i < N)%nat -> main_holds (main s) (assignTo s) i = false ->
  ~ not_created (main s) i ->
  exists d, runnable d (main s) (assignTo s) (submitted s) i (workers s i).
Proof. intros [[d [_ Hw]] Hex] Hi Hm Hn. exists d. split; auto. Qed.

(** The mutex of a worker becomes free. *)
Lemma release_reaches s i :
  linv s -> (i < N)%nat -> main_holds (main s) (assignTo s) i = false ->
  ~ not_created (main s) i ->
  exists s', reaches s s' /\ frame i s s' /\ linv s' /\ holding (pc (workers s' i)) = false /\
    VeriQueueMutex (workers s' i) = None.
Proof using HN.
  intros Hl Hi Hm Hn. destruct (linv_free s i Hl Hi Hm Hn) as [d Hf].
  destruct (solo_until (runnable d (main s) (assignTo s) (submitted s) i)
    (fun w => holding (pc w) = false) to_release i Hi) with (s := s)
    as (n & s' & _ & Hrun & Hfr & Hf' & Hg); [|done|].
  - intros w Hw. destruct (holding (pc w)) eqn:Hh; [right|by left].
    destruct (free_moves _ _ _ _ _ _ Hw) as [w' Hw']; [by intros E; rewrite E in Hh..|].
    exists w'. split_and!; [done|by eapply free_step|by eapply release_step].
  - exists s'. split; [by eapply solo_reaches|]. split; [done|]. split; [by eapply linv_run|].
    split; [done|]. by rewrite (i_mutex _ _ _ _ _ _ _ _ (f_winv _ _ _ _ _ _ Hf')), Hg, Hm.
Qed.

(** [main] takes the next turn of one of its loops that notify under the lock. *)
Lemma notify_reaches s i m :
  linv s -> (i < N)%nat -> main_holds (main s) (assignTo s) i = false ->
  ~ not_created (main s) i ->
  (forall s' : pool, main s' = main s -> main_step N s' = notify_locked i m s') ->
  exists s', reaches s s' /\ linv s' /\ main s' = m /\ assignTo s' = assignTo s /\
    (forall j, j <> i -> workers s' j = workers s j) /\
    exists w, holding (pc w) = false /\ workers s' i = notify w.
Proof using HN.
  intros Hl Hi Hm Hn Hstep.
  destruct (release_reaches s i Hl Hi Hm Hn) as (s1 & Hr1 & (Hm1 & Ht1 & Ha1 & _ & Ho1) & Hl1 & Hh & Hmx).
  specialize (Hstep s1 Hm1). unfold notify_locked in Hstep. rewrite Hmx in Hstep.
  assert (pool_step N verify Main s1 = Some (to m (on_worker i notify s1))) as Hp by exact Hstep.
  exists (to m (on_worker i notify s1)). split_and!; simpl; try done.
  - eapply reaches_trans; [exact Hr1|]. eapply main_reaches; [exact Hstep|done|]. apply reaches_refl.
  - by eapply linv_step.
  - intros j Hj. unfold upd. rewrite decide_False by done. by apply Ho1.
  - exists (workers s1 i). split; [done|]. unfold upd. by rewrite decide_True.
Qed.

(** Progress towards a goal, by a measure on the states of the pool. *)
Lemma progress_until (P goal : pool -> Prop) (mu : pool -> nat) :
  (forall s, linv s -> P s -> goal s \/
     exists s1, reaches s s1 /\ linv s1 /\ P s1 /\ (mu s1 < mu s)%nat) ->
  forall s, linv s -> P s -> exists s', reaches s s' /\ linv s' /\ P s' /\ goal s'.
Proof.
  intros Hstep s. remember (mu s) as k eqn:Hk. revert s Hk.
  induction (lt_wf k) as [k _ IH]; intros s Hk Hl HP.
  destruct (Hstep s Hl HP) as [Hg|(s1 & Hr & Hl1 & HP1 & Hlt)].
  { exists s. split; [apply reaches_refl|done]. }
  destruct (IH (mu s1) ltac:(lia) s1 eq_refl Hl1 HP1) as (s2 & Hr2 & H2).
  exists s2. split; [by eapply reaches_trans|done].
Qed.

(** One step of the main thread as progress. *)
Lemma main_progress (P : pool -> Prop) (mu : pool -> nat) k s s1 :
  linv s -> main_step N s = Some s1 -> todo s1 = todo s -> P s1 -> (mu s1 < k)%nat ->
  exists s1, reaches s s1 /\ linv s1 /\ P s1 /\ (mu s1 < k)%nat.
Proof using HN.
  intros Hl Hm Ht HP Hmu. exists s1. split_and!; [|by eapply (linv_step Main)|done..].
  eapply main_reaches; [exact Hm|done|apply reaches_refl].
Qed.

(** ** [execVeri] returns *)

Definition exec_rank (s : pool) : nat :=
  match main s with
  | M_exec_lock _ => 5 | M_exec_push _ => 4 | M_exec_unlock => 3 | M_exec_notify => 2
  | M_exec_next => 1 | _ => 0
  end.

Definition in_exec (m : mpc T) : bool :=
  match m with
  | M_exec_lock _ | M_exec_push _ | M_exec_unlock | M_exec_notify | M_exec_next => true
  | _ => false
  end.

(** The next queue exists. *)
Lemma assign_bound s : linv s -> (assignTo s < N)%nat.
Proof using HN.
  intros [[d [(-> & _) _]] _]. apply Nat.mod_upper_bound. lia.
Qed.

Ltac main_only :=
  eapply main_progress;
  [eassumption
  |unfold main_step, initVeri_step, execVeri_step, getVeri_step, termVeri_step;
   repeat match goal with H : main _ = _ |- _ => rewrite !H end;
   repeat match goal with
          | H : (?i < ?n)%nat |- context [(?i <? ?n)%nat] => rewrite (proj2 (Nat.ltb_lt i n) H)
          | H : (?n <= ?i)%nat |- context [(?i <? ?n)%nat] => rewrite (proj2 (Nat.ltb_ge i n) H)
          end; reflexivity
  |reflexivity
  |simpl; eauto
  |simpl; repeat match goal with H : main _ = _ |- _ => rewrite !H end; simpl; lia].

Lemma exec_returns s :
  linv s -> in_exec (main s) = true -> exists s', reaches s s' /\ linv s' /\ main s' = M_idle.
Proof using HN.
  intros Hl Hin. destruct (progress_until
    (fun s => in_exec (main s) = true \/ main s = M_idle) (fun s => main s = M_idle) exec_rank)
    with (s := s) as (s' & Hr & Hl' & _ & Hg); [|done|by left|by exists s'].
  clear s Hl Hin. intros s Hl [Hin|Hm]; [|by left]. right.
  destruct (main s) as [| | | | |t|t| | | | | | | | | | | | | | | | ] eqn:Hm; try done; unfold exec_rank; try (by main_only).
  destruct (release_reaches s (assignTo s) Hl) as (s1 & Hr1 & (Hm1 & _ & Ha1 & _) & Hl1 & _ & Hmx);
    [by apply assign_bound|by rewrite Hm|rewrite Hm; intros []|]. rewrite <- Ha1 in Hmx.
  assert (main_step N s1 =
    Some (to (M_exec_push t) (on_worker (assignTo s1) (with_mutex (Some Main_thread)) s1))) as Hs.
  { unfold main_step, execVeri_step. by rewrite !Hm1, Hm, Hmx. }
  eexists. split; [eapply reaches_trans; [exact Hr1|];
    eapply main_reaches; [exact Hs|done|apply reaches_refl]|].
  split; [by eapply (linv_step Main)|]. simpl. rewrite Hm. split; [by left|lia].
Qed.

(** ** [getVeri] returns *)

Definition all_completed (s : pool) (j k : nat) : Prop :=
  forall i, (j <= i < k)%nat -> completedStateMap (workers s i) = true.

(** A worker that has been notified after the request reports. *)
Lemma asked_completes s i :
  linv s -> (i < N)%nat -> (exists j, main s = M_get_notify j) ->
  pc (workers s i) <> W_wait -> holding (pc (workers s i)) = false ->
  exists s', reaches s s' /\ linv s' /\ frame i s s' /\
    completedStateMap (workers s' i) = true.
Proof using HN.
  intros Hl Hi [j Hm] Hnw Hh.
  destruct (linv_free s i Hl Hi) as [d Hf]; [by rewrite Hm|rewrite Hm; intros []|].
  set (mu w := if completedStateMap w then 0%nat else S (work w)).
  destruct (solo_until (fun w => runnable d (main s) (assignTo s) (submitted s) i w /\
      (completedStateMap w = true \/ asked w))
    (fun w => completedStateMap w = true) mu i Hi) with (s := s)
    as (n & s' & _ & Hrun & Hfr & _ & Hg).
  - intros w [Hw Ha]. destruct (completedStateMap w) eqn:Hc; [by left|]. right.
    destruct Ha as [|Ha]; [done|]. pose proof Ha as (_ & Ht & Hp1 & _).
    destruct (free_moves _ _ _ _ _ _ Hw Hp1) as [w' Hw'].
    { intros He. apply (f_exit _ _ _ _ _ _ Hw) in He. congruence. }
    exists w'. split; [done|].
    destruct (asked_step w w' Ha Hc) as [Hc'|[Ha' Hlt]]; [|done| |].
    + intros Hp. pose proof (i_checking _ _ _ _ _ _ _ _ (f_winv _ _ _ _ _ _ Hw)) as Hck.
      rewrite Hp in Hck. apply Hck.
    + split; [split; [by eapply free_step|by left]|]. unfold mu. rewrite Hc, Hc'. lia.
    + split; [split; [by eapply free_step|by right]|]. unfold mu. rewrite Hc.
      destruct (completedStateMap w'); lia.
  - split; [done|]. right. pose proof (f_winv _ _ _ _ _ _ Hf) as Hw. rewrite Hm in Hw.
    pose proof (i_get _ _ _ _ _ _ _ _ Hw). pose proof (i_term _ _ _ _ _ _ _ _ Hw).
    split_and!; try done. intros E. by rewrite E in Hh.
  - exists s'. split; [by eapply solo_reaches|]. split; [by eapply linv_run|done].
Qed.

(** The round of notifications from worker [k] on makes all of these report. *)
Lemma notify_round s k :
  linv s -> main s = M_get_notify k -> (k <= N)%nat ->
  exists s', reaches s s' /\ linv s' /\ main s' = M_get_count 0 0 /\ all_completed s' k N.
Proof using HN.
  intros Hl Hm Hk. destruct (progress_until
    (fun s => (exists i, main s = M_get_notify i /\ (k <= i <= N)%nat /\ all_completed s k i) \/
              (main s = M_get_count 0 0 /\ all_completed s k N))
    (fun s => main s = M_get_count 0 0)
    (fun s => match main s with M_get_notify i => S (N - i) | _ => 0%nat end))
    with (s := s) as (s' & Hr & Hl' & [(i & Hm' & _)|[_ HP]] & Hg); [| | |congruence|by exists s'].
  2: done.
  2: { left. exists k. split_and!; [done|lia|lia|]. intros i Hi. lia. }
  clear s Hl Hm. intros s Hl [(i & Hm & Hi & Hall)|[Hm _]]; [right|by left].
  destruct (decide (i < N)%nat) as [Hlt|Hge]; cycle 1.
  { assert (N <= i)%nat as Hge' by lia. main_only. right. split; [done|].
    replace N with i by lia. exact Hall. }
  destruct (notify_reaches s i (M_get_notify (S i)) Hl Hlt) as (s1 & Hr1 & Hl1 & Hm1 & _ & Ho1 & w & Hw & Hwi);
    [by rewrite Hm|rewrite Hm; intros []| |].
  { intros s' Hs'. unfold main_step, getVeri_step. by rewrite Hs', Hm, (proj2 (Nat.ltb_lt _ _) Hlt). }
  destruct (asked_completes s1 i Hl1 Hlt) as (s2 & Hr2 & Hl2 & (Hm2 & _ & _ & _ & Ho2) & Hc).
  { by eexists. }
  { rewrite Hwi. apply notify_awake. }
  { by rewrite Hwi, notify_holding. }
  exists s2. split; [by eapply reaches_trans|]. split; [done|]. rewrite Hm2, Hm1, Hm.
  split; [|lia]. left. exists (S i). split_and!; [done|lia|lia|]. intros j Hj.
  destruct (decide (j = i)) as [->|Hne]; [done|]. rewrite Ho2, Ho1 by done. apply Hall. lia.
Qed.

(** Before the notifications and after the results the main thread does not wait. *)
Lemma count_done s :
  linv s -> (match main s with M_get_signal _ | M_get_count _ _ | M_get_test _ => True | _ => False end) ->
  exists s', reaches s s' /\ linv s' /\ (main s' = M_get_merge 0 \/ main s' = M_get_notify 0).
Proof using HN.
  intros Hl Hin. destruct (progress_until
    (fun s => match main s with
       | M_get_signal _ | M_get_count _ _ | M_get_test _ => True
       | M_get_merge i | M_get_notify i => i = 0%nat | _ => False end)
    (fun s => main s = M_get_merge 0 \/ main s = M_get_notify 0)
    (fun s => match main s with
       | M_get_signal i => (N + 4 + S (N - i))%nat | M_get_count i _ => (2 + S (N - i))%nat
       | M_get_test _ => 1%nat | _ => 0%nat end))
    with (s := s) as (s' & Hr & Hl' & _ & Hg); [|done| |by exists s'].
  2: by destruct (main s).
  clear s Hl Hin. intros s Hl Hin. destruct (main s) eqn:Hm; try done.
  - right. destruct (decide (i < N)%nat); [main_only|assert (N <= i)%nat by lia; main_only].
  - right. destruct (decide (i < N)%nat); [main_only|assert (N <= i)%nat by lia; main_only].
  - right. destruct (Nat.eqb_spec tmp N) as [->|Hne].
    + eapply main_progress; [done|unfold main_step, getVeri_step; rewrite !Hm, Nat.eqb_refl; reflexivity
        |done|done|simpl; lia].
    + eapply main_progress; [done
        |unfold main_step, getVeri_step; rewrite !Hm, (proj2 (Nat.eqb_neq _ _) Hne); reflexivity
        |done|done|simpl; lia].
  - left. right. by subst.
  - left. left. by subst.
Qed.

Lemma count_all s :
  linv s -> main s = M_get_count 0 0 -> all_completed s 0 N ->
  exists s', reaches s s' /\ linv s' /\ main s' = M_get_merge 0.
Proof using HN.
  intros Hl Hm Hall. destruct (progress_until
    (fun s => all_completed s 0 N /\
       ((exists i, main s = M_get_count i i /\ (i <= N)%nat) \/ main s = M_get_test N \/
        main s = M_get_merge 0))
    (fun s => main s = M_get_merge 0)
    (fun s => match main s with M_get_count i _ => (2 + S (N - i))%nat | M_get_test _ => 1%nat
       | _ => 0%nat end))
    with (s := s) as (s' & Hr & Hl' & _ & Hg); [|done| |by exists s'].
  2: { split; [done|]. left. exists 0%nat. split; [done|lia]. }
  clear s Hl Hm Hall. intros s Hl [Hall [(i & Hm & Hi)|[Hm|Hm]]]; [right|right|by left].
  - destruct (decide (i < N)%nat) as [Hlt|Hge].
    + main_only. split; [done|]. left. exists (S i). rewrite Hall by lia. simpl.
      rewrite Nat.add_1_r. split; [done|lia].
    + assert (i = N) as -> by lia. assert (N <= N)%nat by lia. main_only.
  - eapply main_progress; [done|unfold main_step, getVeri_step; rewrite !Hm, Nat.eqb_refl; reflexivity
      |done|by auto|simpl; rewrite Hm; lia].
Qed.

Lemma merge_returns s :
  linv s ->
  (match main s with M_get_merge _ | M_get_reset _ | M_get_wake _ | M_get_clear _ => True | _ => False end) ->
  exists s', reaches s s' /\ linv s' /\ main s' = M_idle.
Proof using HN.
  intros Hl Hin. destruct (progress_until
    (fun s => match main s with
       | M_get_merge _ | M_get_reset _ | M_get_wake _ | M_get_clear _ | M_idle => True
       | _ => False end)
    (fun s => main s = M_idle)
    (fun s => match main s with
       | M_get_merge i => (3 * (N + 2) + S (N - i))%nat | M_get_reset i => (2 * (N + 2) + S (N - i))%nat
       | M_get_wake i => (N + 2 + S (N - i))%nat | M_get_clear i => S (N - i) | _ => 0%nat end))
    with (s := s) as (s' & Hr & Hl' & _ & Hg); [|done| |by exists s'].
  2: by destruct (main s).
  clear s Hl Hin. intros s Hl Hin. destruct (main s) eqn:Hm; try done; [by left|right..].
  1, 2, 4: destruct (decide (i < N)%nat); [main_only|assert (N <= i)%nat by lia; main_only].
  destruct (decide (i < N)%nat) as [Hlt|]; [|assert (N <= i)%nat by lia; main_only].
  destruct (notify_reaches s i (M_get_wake (S i)) Hl Hlt) as (s1 & Hr1 & Hl1 & Hm1 & _);
    [by rewrite Hm|rewrite Hm; intros []| |].
  { intros s' Hs'. unfold main_step, getVeri_step. by rewrite Hs', Hm, (proj2 (Nat.ltb_lt _ _) Hlt). }
  exists s1. rewrite Hm1. split_and!; [done..|lia].
Qed.

Lemma get_returns s :
  linv s -> in_get (main s) = true -> exists s', reaches s s' /\ linv s' /\ main s' = M_idle.
Proof using HN.
  assert (forall s, linv s -> main s = M_get_merge 0 \/ main s = M_get_notify 0 ->
    exists s', reaches s s' /\ linv s' /\ main s' = M_idle) as Hround.
  { intros s1 Hl1 [Hm1|Hm1]; [apply merge_returns; [done|by rewrite Hm1]|].
    destruct (notify_round s1 0 Hl1 Hm1) as (s2 & Hr2 & Hl2 & Hm2 & Hc2); [lia|].
    destruct (count_all s2 Hl2 Hm2 Hc2) as (s3 & Hr3 & Hl3 & Hm3).
    destruct (merge_returns s3 Hl3) as (s4 & Hr4 & H4); [by rewrite Hm3|].
    exists s4. split; [|done]. eauto using reaches_trans. }
  assert (forall s, linv s ->
    (match main s with M_get_signal _ | M_get_count _ _ | M_get_test _ => True | _ => False end) ->
    exists s', reaches s s' /\ linv s' /\ main s' = M_idle) as Hstart.
  { intros s1 Hl1 Hin1. destruct (count_done s1 Hl1 Hin1) as (s2 & Hr2 & Hl2 & Hm2).
    destruct (Hround s2 Hl2 Hm2) as (s3 & Hr3 & H3). exists s3. split; [|done].
    by eapply reaches_trans. }
  intros Hl Hin. destruct (main s) eqn:Hm; try done;
    try (apply Hstart; [done|by rewrite Hm]); try (apply merge_returns; [done|by rewrite Hm]).
  assert (exists s1, reaches s s1 /\ linv s1 /\ main s1 = M_get_count 0 0) as (s1 & Hr1 & Hl1 & Hm1).
  { destruct (decide (i <= N)%nat) as [Hi|Hi].
    - destruct (notify_round s i Hl Hm Hi) as (s1 & ? & ? & ? & _). by exists s1.
    - assert (main_step N s = Some (to (M_get_count 0 0) s)) as Hs.
      { unfold main_step, getVeri_step. rewrite !Hm, (proj2 (Nat.ltb_ge _ _)) by lia. done. }
      exists (to (M_get_count 0 0) s). split; [|split; [by eapply (linv_step Main)|done]].
      eapply main_reaches; [exact Hs|done|apply reaches_refl]. }
  destruct (Hstart s1 Hl1) as (s2 & Hr2 & H2); [by rewrite Hm1|].
  exists s2. split; [by eapply reaches_trans|done].
Qed.

(** ** [termVeri] returns when every worker has started *)

Definition started (s : pool) : Prop :=
  (match main s with M_init_thread _ => False | _ => True end) /\
  forall i, (i < N)%nat -> pc (workers s i) <> W_spin.

Lemma VeriWorker_no_spin (w w' : worker) :
  pc w <> W_spin -> VeriWorker verify w = Some w' -> pc w' <> W_spin.
Proof.
  unfold VeriWorker, goto, acquire, release. intros Hp Hs. destruct w as [p ? ? ? ? ? ? ? ?].
  destruct p; simpl in *; repeat case_match; by simplify_eq/=.
Qed.

Lemma notify_no_spin (w : worker) : pc w <> W_spin -> pc (notify w) <> W_spin.
Proof. unfold notify. destruct (pc w) eqn:Hp; simpl; by rewrite ?Hp. Qed.

Lemma started_step c s s' : started s -> pool_step N verify c s = Some s' -> started s'.
Proof.
  intros [Hm Hs] Hstep. destruct c as [|j|j]; simpl in Hstep.
  - unfold main_step in Hstep.
    destruct (main s) eqn:E;
      unfold initVeri_step, execVeri_step, getVeri_step, termVeri_step, client_step, notify_locked in Hstep;
      rewrite ?E in Hstep; try done; repeat case_match; simplify_eq/=; (split; [done|]);
      intros k Hk; simpl; unfold upd; try (by apply Hs);
      (case_decide; [subst|by apply Hs]); try (by apply notify_no_spin, Hs); simpl; by apply Hs.
  - case_match; [|done]. unfold worker_step in Hstep.
    destruct (VeriWorker verify (workers s j)) as [w|] eqn:Hw; [|done]. injection Hstep as <-.
    split; [done|]. intros k Hk. simpl. unfold upd. case_decide; [subst|by apply Hs].
    eapply VeriWorker_no_spin; [by apply Hs|done].
  - case_match; [|done]. unfold spurious_wakeup in Hstep.
    destruct (pc (workers s j)); try done. injection Hstep as <-. split; [done|].
    intros k Hk. simpl. unfold upd. case_decide; [subst|by apply Hs]. by apply notify_no_spin, Hs.
Qed.

Lemma started_reaches s s' : started s -> reaches s s' -> started s'.
Proof.
  intros Hs (l & _ & E & _). revert s Hs E. induction l as [|c l IH]; intros s Hs; simpl.
  { by intros [= <-]. }
  destruct (pool_step N verify c s) as [s1|] eqn:Hc; [|done]. simpl. apply IH.
  by eapply started_step.
Qed.

(** A worker that [termVeri] waits for returns. *)
Lemma stopped_exits s i :
  linv s -> started s -> main s = M_term_join i -> (i < N)%nat ->
  exists s', reaches s s' /\ linv s' /\ main s' = M_term_join i /\ pc (workers s' i) = W_exit.
Proof using HN.
  intros Hl [_ Hs] Hm Hi.
  destruct (linv_free s i Hl Hi) as [d Hf]; [by rewrite Hm|rewrite Hm; intros []|].
  destruct (solo_until (fun w => runnable d (main s) (assignTo s) (submitted s) i w /\ stopped w)
    (fun w => pc w = W_exit) to_exit i Hi) with (s := s) as (n & s' & _ & Hrun & Hfr & _ & Hg).
  - intros w [Hw Hst]. destruct (decide (VeriWorker verify w = None)) as [Hn|Hn].
    + left. destruct Hst as (_ & Hp & _).
      destruct (pc w) eqn:E; try done; exfalso;
        (destruct (free_moves _ _ _ _ _ _ Hw) as [w' Hw']; [by rewrite E..|congruence]).
    + right. destruct (VeriWorker verify w) as [w'|] eqn:Hw'; [|done].
      destruct (stopped_step w w' Hst Hw') as [Hst' Hlt].
      exists w'. split_and!; [done|by eapply free_step|done|done].
  - split; [done|]. pose proof (f_winv _ _ _ _ _ _ Hf) as Hw. rewrite Hm in Hw.
    pose proof (i_term _ _ _ _ _ _ _ _ Hw) as Ht. pose proof (i_sleep _ _ _ _ _ _ _ _ Hw) as Hsl.
    simpl in Ht. split_and!; [done| | | |by apply Hs];
      intros E; rewrite E in Hsl; simpl in Hsl; intuition congruence.
  - exists s'. split; [by eapply solo_reaches|]. split; [by eapply linv_run|].
    split; [by destruct Hfr as (-> & _)|done].
Qed.

Definition term_rank (s : pool) : nat :=
  match main s with
  | M_term_signal i => 2 * (N + 2) + S (N - i) | M_term_notify i => N + 2 + S (N - i)
  | M_term_join i => S (N - i) | _ => 0
  end.

Lemma main_then s s1 s2 :
  reaches s s1 -> linv s1 -> main_step N s1 = Some s2 -> todo s2 = todo s1 ->
  reaches s s2 /\ linv s2.
Proof using HN.
  intros Hr1 Hl1 Hs2 Ht2. split; [|by eapply (linv_step Main)].
  eapply reaches_trans; [exact Hr1|]. eapply main_reaches; [exact Hs2|done|apply reaches_refl].
Qed.

(** A turn of one of the loops of [termVeri]. *)
Lemma term_turn s :
  linv s -> started s -> terminating (main s) = true ->
  main s = M_done \/ exists s1, (reaches s s1 /\ linv s1) /\ terminating (main s1) = true /\
    (term_rank s1 < term_rank s)%nat.
Proof using HN.
  intros Hl Hs Hin. destruct (main s) eqn:Hm; try done; [right..|by left]; unfold term_rank at 2; rewrite Hm;
    destruct (decide (i < N)%nat) as [Hlt|Hge];
    try (eexists; split; [apply (main_then s s); [apply reaches_refl|done| |]|];
         [unfold main_step, termVeri_step; rewrite !Hm;
          (rewrite (proj2 (Nat.ltb_lt _ _) Hlt); reflexivity) ||
          (rewrite (proj2 (Nat.ltb_ge _ _)) by lia; reflexivity)
         |done|split; [done|unfold term_rank; simpl; lia]]).
  - destruct (notify_reaches s i (M_term_notify (S i)) Hl Hlt) as (s1 & Hr1 & Hl1 & Hm1 & _);
      [by rewrite Hm|rewrite Hm; intros []| |].
    { intros s' Hs'. unfold main_step, termVeri_step. by rewrite Hs', Hm, (proj2 (Nat.ltb_lt _ _) Hlt). }
    exists s1. unfold term_rank. rewrite Hm1. split_and!; [done..|lia].
  - destruct (stopped_exits s i Hl Hs Hm Hlt) as (s1 & Hr1 & Hl1 & Hm1 & He).
    exists (to (M_term_join (S i)) s1). split; [|split; [done|unfold term_rank; simpl; lia]].
    apply (main_then s s1); [done..| |done].
    unfold main_step, termVeri_step. by rewrite !Hm1, (proj2 (Nat.ltb_lt _ _) Hlt), He.
Qed.

Lemma term_returns s :
  linv s -> started s -> terminating (main s) = true ->
  exists s', reaches s s' /\ linv s' /\ main s' = M_done.
Proof using HN.
  intros Hl Hs Hin. destruct (progress_until
    (fun s => started s /\ terminating (main s) = true) (fun s => main s = M_done) term_rank)
    with (s := s) as (s' & Hr & Hl' & _ & Hg); [|done|done|by exists s'].
  clear s Hl Hs Hin. intros s Hl [Hs Hin].
  destruct (term_turn s Hl Hs Hin) as [?|(s1 & [Hr1 Hl1] & Ht & Hlt)]; [by left|right].
  exists s1. split_and!; [done..|by eapply started_reaches|done|done].
Qed.

(** ** [initVeri] returns *)

Definition initialising (m : mpc T) : bool :=
  match m with
  | M_init_thread _ | M_init_term _ | M_init_get _ | M_init_completed _ => true | _ => false
  end.

Definition init_rank (s : pool) : nat :=
  match main s with
  | M_init_thread i => 3 * (N + 2) + S (N - i) | M_init_term i => 2 * (N + 2) + S (N - i)
  | M_init_get i => N + 2 + S (N - i) | M_init_completed i => S (N - i) | _ => 0
  end.

Lemma init_returns s :
  linv s -> initialising (main s) = true -> exists s', reaches s s' /\ linv s' /\ main s' = M_idle.
Proof using HN.
  intros Hl Hin. destruct (progress_until
    (fun s => initialising (main s) = true \/ main s = M_idle) (fun s => main s = M_idle) init_rank)
    with (s := s) as (s' & Hr & Hl' & _ & Hg); [|done|by left|by exists s'].
  clear s Hl Hin. intros s Hl [Hin|?]; [right|by left].
  destruct (main s) eqn:Hm; try done; unfold init_rank;
    (destruct (decide (i < N)%nat); [main_only|assert (N <= i)%nat by lia; main_only]).
Qed.

(** ** Workers between the calls *)

(** Left alone, a worker verifies its queue, pushes the results and goes to sleep. *)
Lemma idle_drains s i :
  linv s -> main s = M_idle -> (i < N)%nat ->
  exists n s', (n <= 13 * length (VeriQueue (workers s i)) + 12)%nat /\
    pool_run N verify (replicate n (Worker i)) s = Some s' /\ main s' = M_idle /\
    pc (workers s' i) = W_wait /\ verified (workers s' i) = share N i (submitted s) /\
    length (ResultVector (workers s' i)) = length (share N i (submitted s)) /\
    printed_w (workers s' i) = mbind verify (share N i (submitted s)).
Proof using HN.
  intros Hl Hm Hi.
  destruct (linv_free s i Hl Hi) as [d Hf]; [by rewrite Hm|rewrite Hm; intros []|].
  pose proof (f_winv _ _ _ _ _ _ Hf) as Hw. rewrite Hm in Hw.
  destruct (solo_until (fun w => runnable d (main s) (assignTo s) (submitted s) i w /\
      getResultSignal w = false /\ termSignal w = false)
    (fun w => pc w = W_wait) work i Hi) with (s := s)
    as (n & s' & Hn & Hrun & Hfr & [Hf' _] & Hg).
  - intros w (Hfw & Hgw & Htw). destruct (decide (VeriWorker verify w = None)) as [Hno|Hno].
    + left. destruct (pc w) eqn:E; try done; exfalso;
        (destruct (free_moves _ _ _ _ _ _ Hfw) as [w' Hw'];
         [by rewrite E| |congruence]); intros E'; try congruence.
      apply (f_exit _ _ _ _ _ _ Hfw) in E'. congruence.
    + right. destruct (VeriWorker verify w) as [w'|] eqn:Hw'; [|done].
      destruct (idle_step w w' Hgw Htw Hw') as (? & ? & ?).
      exists w'. split_and!; [done|by eapply free_step|done..].
  - split; [done|]. split; [exact (i_get _ _ _ _ _ _ _ _ Hw)|exact (i_term _ _ _ _ _ _ _ _ Hw)].
  - exists n, s'. split; [pose proof (work_bound (workers s i)); lia|]. split; [done|].
    split; [by destruct Hfr as (-> & _)|]. split; [done|].
    pose proof (f_winv _ _ _ _ _ _ Hf') as Hw'. rewrite Hm in Hw'.
    pose proof (i_sleep _ _ _ _ _ _ _ _ Hw') as Hsl. rewrite Hg in Hsl.
    destruct Hsl as [[Hq|[]] _].
    pose proof (i_share _ _ _ _ _ _ _ _ Hw') as Hsh. pose proof (i_results _ _ _ _ _ _ _ _ Hw') as Hre.
    rewrite Hg, Hq in Hsh. rewrite Hg in Hre. simpl in Hsh, Hre. rewrite app_nil_r in Hsh.
    rewrite Hsh. split_and!; [done|lia|apply Hw'].
Qed.

End Live.

(** ** Property *)

(** C9: the pool makes progress.  In every state it can reach:
    - no wake-up is lost: a worker asleep has an empty queue, except between the
      push and the notification of an [execVeri] for it;
    - between calls, a worker left alone verifies what is in its queue, pushes one
      result for each trace and goes back to sleep, in at most 13 steps for each
      trace and 12 more;
    - whatever call is in progress ([initVeri], [execVeri], [getVeri], the deletion
      of the traces), the threads can run, without a spurious wake-up, until it has
      returned; [termVeri] can be finished too, if every worker has left the loop
      it starts in. *)
Theorem pool_progress {T R} (N : nat) (verify : T -> list R)
    (flags : nat -> bool * bool * bool) (cs : list (call T)) (s : pool T R)
    (HN : (0 < N)%nat) (Hflags : flags_clear N flags)
    (Hreach : reachable N verify (pool_init flags cs) s) :
  (forall i, (i < N)%nat -> pc (workers s i) = W_wait ->
     VeriQueue (workers s i) = [] \/
     (assignTo s = i /\ (main s = M_exec_unlock \/ main s = M_exec_notify))) /\
  (main s = M_idle -> forall i, (i < N)%nat ->
     exists n s', (n <= 13 * length (VeriQueue (workers s i)) + 12)%nat /\
       pool_run N verify (replicate n (Worker i)) s = Some s' /\ main s' = M_idle /\
       pc (workers s' i) = W_wait /\ verified (workers s' i) = share N i (submitted s) /\
       length (ResultVector (workers s' i)) = length (share N i (submitted s)) /\
       printed_w (workers s' i) = mbind verify (share N i (submitted s))) /\
  (terminating (main s) = false ->
     exists sched s', Forall (fun c => forall i, c <> Wakeup i) sched /\
       pool_run N verify sched s = Some s' /\ main s' = M_idle /\ todo s' = todo s) /\
  (terminating (main s) = true -> (forall i, (i < N)%nat -> pc (workers s i) <> W_spin) ->
     exists sched s', Forall (fun c => forall i, c <> Wakeup i) sched /\
       pool_run N verify sched s = Some s' /\ main s' = M_done /\ todo s' = todo s).
Proof.
  pose proof (reachable_linv N verify HN flags cs s Hflags Hreach) as Hl.
  split; [|split; [|split]].
  - intros i Hi Hp. destruct Hl as [[d [_ Hw]] _].
    pose proof (i_sleep _ _ _ _ _ _ _ _ (Hw i Hi)) as Hsl. rewrite Hp in Hsl.
    destruct Hsl as [[Hq|Hq] _]; [by left|right]. destruct (main s); try done; auto.
  - intros Hm i Hi. by apply idle_drains.
  - intros Ht. assert (exists s', reaches N verify s s' /\ linv N verify s' /\ main s' = M_idle)
      as (s' & (l & H1 & H2 & H3) & _ & Hm'); [|by exists l, s'].
    destruct (main s) eqn:Hm; try done;
      first [apply init_returns; [done..|by rewrite Hm]|apply exec_returns; [done..|by rewrite Hm]
            |apply get_returns; [done..|by rewrite Hm]|idtac].
    + exists s. split; [apply reaches_refl|done].
    + exists (deleteVectors_step s). apply and_assoc. split; [|done].
      apply (main_then N verify HN s s); [apply reaches_refl|done| |done].
      unfold main_step. by rewrite Hm.
  - intros Ht Hs. destruct (term_returns N verify HN s Hl) as (s' & (l & H1 & H2 & H3) & _ & Hm');
      [|done|by exists l, s'].
    split; [by destruct (main s)|done].
Qed.

(** One worker, asleep after the pool was created, and a first trace pushed. *)
Definition pool_pushed : pool nat nat :=
  pool_after echo no_flags [execVeri 7%nat; getVeri]
    (main_times 9 ++ worker_times 5 ++ main_times 5).

Lemma pool_progress_witness :
  VeriQueue (workers pool_pushed 0) = [7%nat] /\
  exists n s', (n <= 25)%nat /\
    pool_run 1 echo (replicate n (Worker 0)) pool_pushed = Some s' /\
    verified (workers s' 0) = [7%nat].
Proof.
  split; [vm_compute; reflexivity|].
  destruct (pool_progress 1 echo no_flags [execVeri 7%nat; getVeri] pool_pushed)
    as (_ & H & _).
  - lia.
  - intros i _. reflexivity.
  - apply pool_after_reachable. vm_compute. reflexivity.
  - destruct (H ltac:(vm_compute; reflexivity) 0%nat ltac:(lia))
      as (n & s' & Hn & Hr & _ & _ & Hv & _).
    exists n, s'. split; [vm_compute in Hn; lia|]. split; [exact Hr|]. rewrite Hv.
    vm_compute. reflexivity.
Defined.
