(* ===== verification/Session.v ===== *)
(** * Sessions: the C interface of [src/pmtest.cc]

    [PMTest_init] builds a [PMTest] object and a vector of empty traces; a
    thread records into the trace [metadataPtr] points to, and [PMTest_sendTrace]
    hands that trace to the worker pool and moves to the next one.  The state of
    a thread is the record of its thread-local variables and the traces it owns;
    every trace has its own objects, so an address is an index into the objects
    of its trace.  The second half models the registry of variables, keyed by
    the name followed by the decimal thread id.

    The theorems: a session submits, segment by segment, exactly the traces its
    calls describe; what the workers print for them is the verdict of the
    specification of [Checker]; registered variables are found again, within
    limits that are exhibited. *)

From Stdlib Require Import Ascii.
From stdpp Require Import strings pretty gmap.
From S2P Require Import Prelude Intervals FastVector Metadata Checker Engine EngineProofs.

(** A trace: its objects and the vector of their addresses. *)
Record trace := mkTrace { objects : list Metadata; vec : FastVector nat }.

(** The thread-local variables, and what the pool has been given. *)
Record thread_state := mkThread {
  switch : bool;                    (* existVeriInstance *)
  pmtest_cur_idx : Z;
  metadataVectorPtr : FastVector nat;
  metadataPtr : option nat;         (* NULL, or a trace *)
  traces : list trace;
  sent : list nat;                  (* arguments of execVeri *)
  send_errors : nat;                (* SENDTRACE ERROR messages *)
}.

Section Session.
Context (alloc : Z -> bool).

(** [new FastVector<Metadata *>]. *)
Definition new_trace : option trace :=
  v ← fv_new alloc; Some (mkTrace [] v).

(** [C_initVeri]: the loop pushes [metadataVectorLen] new vectors; the read of
    the first one is outside the vector when there is none.  The constructor of [PMTest] turns
    the switch off. *)
Definition C_initVeri (metadataVectorLen : nat) : option thread_state :=
  p0 ← fv_new alloc;
  t ← new_trace;
  p ← push_all alloc p0 (seq 0 metadataVectorLen);
  first ← fv_at p 0;
  Some (mkThread false 0 p (Some first) (replicate metadataVectorLen t) [] 0).

(** [C_sendTrace]. *)
Definition C_sendTrace (s : thread_state) : option thread_state :=
  let p := metadataVectorPtr s in
  if size p <=? pmtest_cur_idx s then
    Some (mkThread (switch s) (pmtest_cur_idx s) p (metadataPtr s) (traces s) (sent s)
      (S (send_errors s)))
  else
    cur ← fv_at p (pmtest_cur_idx s);
    idx ← int_result (pmtest_cur_idx s + 1);
    next ← (if idx <? size p then Some <$> fv_at p idx else Some None);
    Some (mkThread (switch s) idx p next (traces s) (sent s ++ [cur]) (send_errors s)).

(** An interface macro, recording into the trace [metadataPtr] points to; a
    record through [NULL] is undefined behaviour. *)
Definition thread_api (PMTEST_EXCLUDE : bool) (m0 : Metadata) (c : api) (s : thread_state) :
    option thread_state :=
  match metadataPtr s ≫= (fun k => (fun t => (k, t)) <$> traces s !! k) with
  | Some (k, t) =>
      r ← exec_api alloc PMTEST_EXCLUDE m0 c (mkRecorder (switch s) (objects t) (vec t));
      Some (mkThread (existVeriInstance r) (pmtest_cur_idx s) (metadataVectorPtr s)
        (metadataPtr s) (<[k := mkTrace (heap r) (metadata_vector r)]> (traces s))
        (sent s) (send_errors s))
  | None =>
      if switch s && bool_decide (is_Some (api_entry PMTEST_EXCLUDE m0 c)) then None
      else Some (mkThread (api_switch c (switch s)) (pmtest_cur_idx s) (metadataVectorPtr s)
             (metadataPtr s) (traces s) (sent s) (send_errors s))
  end.

Fixpoint thread_calls (PMTEST_EXCLUDE : bool) (cs : list (Metadata * api))
    (s : thread_state) : option thread_state :=
  match cs with
  | [] => Some s
  | (m0, c) :: cs' =>
      s' ← thread_api PMTEST_EXCLUDE m0 c s; thread_calls PMTEST_EXCLUDE cs' s'
  end.

(** A client: segments of calls, each followed by [PMTest_sendTrace]. *)
Fixpoint send_segments (PMTEST_EXCLUDE : bool) (segs : list (list (Metadata * api)))
    (s : thread_state) : option thread_state :=
  match segs with
  | [] => Some s
  | cs :: segs' =>
      s1 ← thread_calls PMTEST_EXCLUDE cs s;
      s2 ← C_sendTrace s1;
      send_segments PMTEST_EXCLUDE segs' s2
  end.

(** The switch after a sequence of calls, and the entries each segment records. *)
Definition final_switch (on : bool) (cs : list (Metadata * api)) : bool :=
  foldl (fun on c => api_switch c.2 on) on cs.

Fixpoint recorded_segments (PMTEST_EXCLUDE : bool) (on : bool)
    (segs : list (list (Metadata * api))) : list (list Metadata) :=
  match segs with
  | [] => []
  | cs :: segs' =>
      recorded PMTEST_EXCLUDE on cs ::
      recorded_segments PMTEST_EXCLUDE (final_switch on cs) segs'
  end.

(** ** Lemmas *)

Context (Halloc : forall n, alloc n = true).

(** A trace holds the entries [l]. *)
Definition trace_holds (t : trace) (l : list Metadata) : Prop :=
  objects t = l /\ recorder_wf (mkRecorder false (objects t) (vec t)).

(** A call and a sequence of calls on one trace, inside a thread. *)
Lemma thread_calls_spec ex cs : forall s k t l,
  metadataPtr s = Some k -> traces s !! k = Some t -> trace_holds t l ->
  Z.of_nat (length l + length cs) <= FV_PUSH_LIMIT ->
  exists t', thread_calls ex cs s =
      Some (mkThread (final_switch (switch s) cs) (pmtest_cur_idx s) (metadataVectorPtr s)
        (metadataPtr s) (<[k := t']> (traces s)) (sent s) (send_errors s)) /\
    trace_holds t' (l ++ recorded ex (switch s) cs).
Proof using Halloc.
  induction cs as [|[m0 c] cs IH]; intros s k t l Hk Ht [<- Hwf] Hlen; simpl in *.
  { exists t. rewrite list_insert_id, app_nil_r by done. by destruct s. }
  unfold thread_api.
  replace (metadataPtr s ≫= (fun k => (fun t => (k, t)) <$> traces s !! k))
    with (Some (k, t)) by (by rewrite Hk; simpl; rewrite Ht).
  destruct (exec_api_spec alloc Halloc ex m0 c (mkRecorder (switch s) (objects t) (vec t)))
    as (r & -> & Hr & Hheap & Hsw); [done|simpl; lia|]. simpl in *.
  destruct (IH (mkThread (existVeriInstance r) (pmtest_cur_idx s) (metadataVectorPtr s)
    (metadataPtr s) (<[k := mkTrace (heap r) (metadata_vector r)]> (traces s))
    (sent s) (send_errors s)) k (mkTrace (heap r) (metadata_vector r)) (heap r))
    as (t' & Hrun & Hhold); simpl; [done| | | |].
  - apply list_lookup_insert_eq. by eapply lookup_lt_Some.
  - done.
  - rewrite Hheap, length_app. destruct (switch s); simpl; [|lia].
    destruct (api_entry ex m0 c); simpl; lia.
  - simpl in *. exists t'. rewrite Hrun, list_insert_insert_eq.
    rewrite Hsw, Hheap, <- app_assoc in *. done.
Qed.

(** A thread that has sent [k] of its [n] traces; those from [f] on are empty. *)
Record session_wf (n k f : nat) (s : thread_state) : Prop := {
  s_vector : fv_repr (metadataVectorPtr s) (seq 0 n);
  s_traces : length (traces s) = n;
  s_idx : pmtest_cur_idx s = Z.of_nat k;
  s_ptr : metadataPtr s = if decide (k < n)%nat then Some k else None;
  s_sent : sent s = seq 0 k;
  s_fresh j : (f <= j < n)%nat -> exists t, traces s !! j = Some t /\ trace_holds t [];
}.

Lemma new_trace_holds : exists t, new_trace = Some t /\ trace_holds t [].
Proof using Halloc.
  destruct (@fv_new_repr nat alloc Halloc) as (v & Hv & Hrepr).
  unfold new_trace. rewrite Hv. simpl. eexists. split; [done|]. split; [done|].
  split; [done|]. simpl. unfold fv_new, fv_malloc in Hv. rewrite Halloc in Hv.
  simplify_option_eq. by left.
Qed.

Lemma C_initVeri_spec n :
  (0 < n)%nat -> Z.of_nat n <= FV_PUSH_LIMIT ->
  exists s, C_initVeri n = Some s /\ session_wf n 0 0 s /\
    switch s = false /\ send_errors s = 0%nat.
Proof using Halloc.
  intros Hn Hlen. unfold C_initVeri.
  destruct (@fv_new_repr nat alloc Halloc) as (p0 & Hp0 & Hrepr0).
  destruct new_trace_holds as (t & -> & Ht).
  destruct (push_all_repr alloc Halloc (seq 0 n) p0 []) as (p & Hp & Hrepr).
  { done. }
  { unfold fv_new, fv_malloc in Hp0. rewrite Halloc in Hp0. simplify_option_eq. by left. }
  { rewrite length_seq. simpl. lia. }
  rewrite Hp0. simpl. rewrite Hp. simpl.
  pose proof (fv_at_repr p (seq 0 n) 0 Hrepr) as Hat. rewrite length_seq in Hat.
  change (fv_at p 0) with (fv_at p (Z.of_nat 0)).
  rewrite (Hat Hn), lookup_seq_lt by done. simpl.
  eexists. split; [done|]. split; [|done]. split; simpl; try done.
  - by rewrite length_replicate.
  - by rewrite decide_True.
  - intros j Hj. exists t. by rewrite lookup_replicate_2 by lia.
Qed.

Lemma C_sendTrace_spec n k s :
  (k < n)%nat -> Z.of_nat n <= FV_PUSH_LIMIT -> session_wf n k (S k) s ->
  exists s', C_sendTrace s = Some s' /\ session_wf n (S k) (S k) s' /\
    traces s' = traces s /\ switch s' = switch s /\ send_errors s' = send_errors s.
Proof.
  intros Hk Hlen []. unfold C_sendTrace, size, FV_PUSH_LIMIT in *.
  assert (cur_size (metadataVectorPtr s) = Z.of_nat n) as Hsz.
  { by rewrite (fv_cur _ _ s_vector0), length_seq. }
  assert (forall j, (j < n)%nat -> fv_at (metadataVectorPtr s) (Z.of_nat j) = Some j) as Hat.
  { intros j Hj. rewrite (fv_at_repr _ _ j s_vector0), lookup_seq_lt; [done..|].
    by rewrite length_seq. }
  rewrite Hsz, s_idx0. destruct (Z.leb_spec (Z.of_nat n) (Z.of_nat k)); [lia|].
  rewrite Hat by done. simpl. rewrite int_result_ok by (unfold INT_MAX; lia). simpl.
  replace (Z.of_nat k + 1) with (Z.of_nat (S k)) by lia.
  destruct (Z.ltb_spec (Z.of_nat (S k)) (Z.of_nat n)) as [Hlt|Hge];
    [rewrite Hat by lia|]; simpl; eexists; (split; [done|]); (split; [|done]);
    split; simpl; try done.
  - by rewrite decide_True by lia.
  - by rewrite s_sent0, <- seq_S.
  - by rewrite decide_False by lia.
  - by rewrite s_sent0, <- seq_S.
Qed.

(** A further [PMTest_sendTrace] is reported and sends nothing. *)
Lemma C_sendTrace_full n s :
  session_wf n n n s -> exists s', C_sendTrace s = Some s' /\ sent s' = sent s /\
    send_errors s' = S (send_errors s).
Proof.
  intros []. unfold C_sendTrace, size.
  rewrite (fv_cur _ _ s_vector0), length_seq, s_idx0, Z.leb_refl. eauto.
Qed.

Lemma send_segments_spec ex segs : forall n k s,
  (k + length segs = n)%nat -> Z.of_nat n <= FV_PUSH_LIMIT ->
  Forall (fun cs : list (Metadata * api) => Z.of_nat (length cs) <= FV_PUSH_LIMIT) segs ->
  session_wf n k k s ->
  exists s', send_segments ex segs s = Some s' /\ session_wf n n n s' /\
    send_errors s' = send_errors s /\
    (forall j, (j < k)%nat -> traces s' !! j = traces s !! j) /\
    (forall j l, recorded_segments ex (switch s) segs !! j = Some l ->
       exists t, traces s' !! (k + j)%nat = Some t /\ trace_holds t l).
Proof using Halloc.
  induction segs as [|cs segs IH]; intros n k s Hn Hlim Hall Hwf; simpl in *.
  { exists s. replace n with k in * by lia. by split_and!. }
  apply Forall_cons in Hall as [Hcs Hall].
  destruct (s_fresh _ _ _ _ Hwf k) as (t & Ht & Hhold); [lia|].
  pose proof (s_ptr _ _ _ _ Hwf) as Hptr. rewrite decide_True in Hptr by lia.
  destruct (thread_calls_spec ex cs s k t [] Hptr Ht Hhold) as (t' & -> & Hhold');
    [simpl; lia|]. simpl.
  match goal with |- context [C_sendTrace ?x] => set (s1 := x) end.
  assert (session_wf n k (S k) s1) as Hwf1.
  { destruct Hwf. split; try done; simpl; [by rewrite length_insert|].
    intros j Hj. rewrite list_lookup_insert_ne by lia. apply s_fresh0. lia. }
  destruct (C_sendTrace_spec n k s1) as (s2 & -> & Hwf2 & Htr & Hsw & Herr); [lia|done..|].
  destruct (IH n (S k) s2) as (s' & Hrun & Hwf' & Herr' & Hold & Hnew); [lia|done..|].
  simpl. exists s'. split_and!; [done|done|by rewrite Herr', Herr| |].
  - intros j Hj. rewrite Hold, Htr by lia. simpl. by rewrite list_lookup_insert_ne by lia.
  - intros [|j] l Hl; simpl in Hl.
    + injection Hl as <-. exists t'. split; [|done].
      rewrite Hold, Htr by lia. simpl. rewrite Nat.add_0_r.
      apply list_lookup_insert_eq. by eapply lookup_lt_Some.
    + rewrite Hsw in Hnew. destruct (Hnew j l Hl) as (t2 & Ht2 & Hh2).
      exists t2. by rewrite Nat.add_succ_r.
Qed.

End Session.

(** ** Properties *)

(** The entries of a trace, as [VeriProc] reads them. *)
Definition trace_entries (t : trace) : list (option Metadata) :=
  (fun p => objects t !! p) <$> elems (vec t).

Lemma trace_holds_entries t l :
  trace_holds t l -> elems (vec t) = seq 0 (length l) /\ objects t = l.
Proof. intros [<- [Hv _]]. split; [|done]. by apply fv_repr_elems. Qed.

Lemma seq_objects (l : list Metadata) :
  Forall2 (fun p m => l !! p = Some m) (seq 0 (length l)) l.
Proof.
  apply Forall2_same_length_lookup. split; [by rewrite length_seq|].
  intros i p m Hp Hm. by apply lookup_seq in Hp as [-> _].
Qed.

(** A session sends what was recorded.  After [PMTest_init] for [n] traces,
    [n] segments of interface calls, each followed by [PMTest_sendTrace], run
    without undefined behaviour, submit the traces [0 .. n-1] in order, and
    trace [j] holds exactly the entries segment [j] records (the tracking switch
    carries over from segment to segment).  One more [PMTest_sendTrace] only
    prints an error. *)
Theorem session_exact (alloc : Z -> bool) (ex : bool)
    (segs : list (list (Metadata * api))) (s0 : thread_state)
    (Halloc : forall n, alloc n = true)
    (Hn : (0 < length segs)%nat) (Hlim : Z.of_nat (length segs) <= FV_PUSH_LIMIT)
    (Hall : Forall (fun cs : list (Metadata * api) =>
       Z.of_nat (length cs) <= FV_PUSH_LIMIT) segs)
    (Hinit : C_initVeri alloc (length segs) = Some s0) :
  exists s, send_segments alloc ex segs s0 = Some s /\
    sent s = seq 0 (length segs) /\ send_errors s = 0%nat /\
    (forall j l, recorded_segments ex false segs !! j = Some l ->
       exists t, traces s !! j = Some t /\
         elems (vec t) = seq 0 (length l) /\ objects t = l) /\
    (exists s', C_sendTrace s = Some s' /\ sent s' = sent s /\ send_errors s' = 1%nat).
Proof.
  destruct (C_initVeri_spec alloc Halloc (length segs) Hn Hlim)
    as (s & Hs & Hwf & Hsw & Herr). assert (s = s0) as -> by congruence.
  destruct (send_segments_spec alloc Halloc ex segs (length segs) 0 s0)
    as (s' & Hrun & Hwf' & Herr' & _ & Hnew); [done..|].
  exists s'. split_and!; [done|by apply (s_sent _ _ _ _ Hwf')|congruence| |].
  - intros j l Hl. rewrite Hsw in Hnew. destruct (Hnew j l Hl) as (t & Ht & Hh).
    exists t. split; [done|]. by apply trace_holds_entries.
  - destruct (C_sendTrace_full _ _ Hwf') as (s2 & ? & ? & He). exists s2.
    split_and!; [done..|]. rewrite He. congruence.
Qed.

(** What a worker prints for a trace. *)
Definition verify_trace {S M} `{!IclSet S} `{!IclMap M} (cfg : config) (t : trace) :
    list report :=
  printed_out (VeriProc (S:=S) (M:=M) cfg (elems (vec t)) (objects t)).

Lemma verify_trace_check {S M} `{!IclSet S} `{!IclMap M} cfg t l :
  trace_holds t l -> verify_trace (S:=S) (M:=M) cfg t = check (S:=S) (M:=M) cfg l.
Proof.
  intros [Hel Hob]%trace_holds_entries. unfold verify_trace. rewrite Hel, Hob.
  apply VeriProc_spec; [apply NoDup_seq|apply seq_objects].
Qed.

Lemma recorded_segments_length ex segs : forall on,
  length (recorded_segments ex on segs) = length segs.
Proof. induction segs as [|cs segs IH]; intros on; simpl; [done|]. by rewrite IH. Qed.

(** C8: from the calls to the verdicts.  A client initialises a session, records
    and sends its segments and asks for the results; the pool of [N] workers
    runs under any schedule.  When [PMTest_getResult] returns, worker [i] has
    printed, in order, the verdicts the one-pass specification [check] gives to
    the entries recorded by segments [i], [i + N], [i + 2N], ... *)
Theorem session_verdicts {S M} `{!IclSet S} `{!IclMap M} (cfg : config)
    (alloc : Z -> bool) (ex : bool) (segs : list (list (Metadata * api)))
    (s0 s : thread_state) (N : nat) (flags : nat -> bool * bool * bool)
    (p : pool trace report)
    (Halloc : forall n, alloc n = true)
    (Hn : (0 < length segs)%nat) (Hlim : Z.of_nat (length segs) <= FV_PUSH_LIMIT)
    (Hall : Forall (fun cs : list (Metadata * api) =>
       Z.of_nat (length cs) <= FV_PUSH_LIMIT) segs)
    (Hinit : C_initVeri alloc (length segs) = Some s0)
    (Hrun : send_segments alloc ex segs s0 = Some s)
    (HN : (0 < N)%nat) (Hflags : flags_clear N flags)
    (Hreach : reachable N (verify_trace (S:=S) (M:=M) cfg)
       (pool_init flags ((execVeri <$> omap (fun k => traces s !! k) (sent s)) ++ [getVeri])) p)
    (Hlast : main p = M_get_clear N) :
  forall i, (i < N)%nat ->
    printed_w (workers p i) =
      mbind (check (S:=S) (M:=M) cfg) (share N i (recorded_segments ex false segs)).
Proof.
  destruct (C_initVeri_spec alloc Halloc (length segs) Hn Hlim)
    as (s1 & Hs & Hwf & Hsw & Herr). assert (s1 = s0) as -> by congruence.
  destruct (send_segments_spec alloc Halloc ex segs (length segs) 0 s0)
    as (s' & Hrun' & Hwf' & _ & _ & Hnew); [done..|]. assert (s' = s) as -> by congruence.
  rewrite Hsw in Hnew. rewrite (s_sent _ _ _ _ Hwf') in Hreach.
  assert (omap (fun k => traces s !! k) (seq 0 (length segs)) = traces s) as Htr.
  { rewrite <- (s_traces _ _ _ _ Hwf'). apply omap_lookup_seq. }
  rewrite Htr in Hreach.
  pose proof (reachable_called N _ flags _ p Hreach) as Hcalled.
  apply called_all in Hcalled; [|by rewrite Hlast].
  destruct (reachable_inv N _ flags _ p HN Hflags Hreach) as [d Hinv].
  destruct (inv_get_returns N _ d p HN Hinv Hlast) as [_ Hws].
  intros i Hi. destruct (Hws i Hi) as [_ ->]. rewrite Hcalled.
  apply share_bind. apply list_eq. intros j. rewrite !list_lookup_fmap.
  destruct (recorded_segments ex false segs !! j) as [l|] eqn:Hl.
  - destruct (Hnew j l Hl) as (t & Ht & Hh). simpl in Ht. rewrite Ht. simpl.
    f_equal. by apply verify_trace_check.
  - apply lookup_ge_None in Hl. rewrite recorded_segments_length in Hl.
    rewrite (proj2 (lookup_ge_None (traces s) j)); [done|].
    by rewrite (s_traces _ _ _ _ Hwf').
Qed.

(** ** A concrete session: one trace with an unflushed assignment *)

Definition sample_segment : list (Metadata * api) :=
  [(meta0, PMTest_START); (meta0, PMTest_assign 16 4 [] 1); (meta0, PMTest_fence [] 2);
   (meta0, PMTest_isPersistent 16 4 [] 3); (meta0, PMTest_END)].

Definition no_thread : thread_state := mkThread false 0 (mkFV [] 0 0) None [] [] 0.
Definition sample_init : thread_state :=
  default no_thread (C_initVeri (fun _ => true) 1).
Definition sample_sent : thread_state :=
  default no_thread (send_segments (fun _ => true) true [sample_segment] sample_init).

Lemma session_exact_witness :
  exists s, send_segments (fun _ => true) true [sample_segment] sample_init = Some s /\
    sent s = [0%nat] /\ send_errors s = 0%nat.
Proof.
  destruct (session_exact (fun _ => true) true [sample_segment] sample_init)
    as (s & Hs & Hsent & Herr & _).
  - reflexivity.
  - simpl. lia.
  - vm_compute. discriminate.
  - repeat constructor. vm_compute. discriminate.
  - vm_compute. reflexivity.
  - exists s. split; [exact Hs|]. split; [exact Hsent|exact Herr].
Defined.

Local Abbreviation sample_verify :=
  (verify_trace (S:=Shadow.shadow bool) (M:=Shadow.shadow Z) (mkConfig true false)).
Definition sample_pool : pool trace report :=
  pool_after sample_verify no_flags
    ((execVeri <$> omap (fun k => traces sample_sent !! k) (sent sample_sent)) ++ [getVeri])
    sched_get.

Lemma session_verdicts_witness :
  printed_w (workers sample_pool 0) = [PersistError [] 3 16 20].
Proof.
  rewrite (session_verdicts (S:=Shadow.shadow bool) (M:=Shadow.shadow Z) (mkConfig true false)
    (fun _ => true) true [sample_segment] sample_init sample_sent 1 no_flags).
  - vm_compute. reflexivity.
  - reflexivity.
  - simpl. lia.
  - vm_compute. discriminate.
  - repeat constructor. vm_compute. discriminate.
  - vm_compute. reflexivity.
  - vm_compute. reflexivity.
  - lia.
  - intros i _. reflexivity.
  - apply pool_after_reachable. vm_compute. reflexivity.
  - vm_compute. reflexivity.
  - lia.
Defined.

(** ** Thread ids and the registry of variables *)

(** [ThreadInfo] and the thread-local id; [C_initThread] runs under the lock of
    [thread_info]. *)
Record thread_ids := mkIds { cur_thread_id : Z; ids : list Z }.

Definition C_initThread (g : thread_ids) : option (thread_ids * Z) :=
  next ← int_result (cur_thread_id g + 1);
  Some (mkIds next (ids g ++ [cur_thread_id g]), cur_thread_id g).

Record VariableInfo := mkVariable { v_addr : Z; v_size : Z }.
Local Abbreviation variable_map := (gmap string VariableInfo).

(** [variableName += std::to_string(thread_id)]. *)
Definition variableName (name : string) (thread_id : Z) : string :=
  (name +:+ pretty thread_id)%string.

(** The functions work on the object [veriInstancePtr] points to; through [NULL]
    they are undefined.  The member [size] is an [int], which the code fills
    from and copies to a [size_t]. *)
Definition C_registerVariable (name : string) (a sz : Z) (thread_id : Z)
    (inst : option variable_map) : option variable_map :=
  m ← inst;
  Some (match m !! variableName name thread_id with
        | None => <[variableName name thread_id := mkVariable a (i32 sz)]> m
        | Some _ => m
        end).

Definition C_unregisterVariable (name : string) (thread_id : Z)
    (inst : option variable_map) : option variable_map :=
  m ← inst; Some (delete (variableName name thread_id) m).

(** The returned address and what is stored to the size parameter. *)
Definition C_getVariable (name : string) (thread_id : Z) (inst : option variable_map) :
    option (Z * Z) :=
  m ← inst;
  Some (match m !! variableName name thread_id with
        | None => (0, 0)
        | Some v => (v_addr v, u64 (v_size v))
        end).

(** [C_createVeriInstance] publishes its object, [C_initVeri] does not. *)
Definition C_createVeriInstance : option variable_map := Some ∅.
Definition veriInstance_after_init : option variable_map := None.

(** Variables are found again.  A variable registered by a thread under a
    name not in use, of less than 2 GiB, is returned with its address and size;
    registering the name again changes nothing; and once unregistered it is
    reported as absent, whatever happened to other keys in between. *)
Theorem variable_roundtrip (name : string) (tid a sz b szb : Z) (m : variable_map)
    (Hfresh : m !! variableName name tid = None) (Hsz : 0 <= sz < 2 ^ 31) :
  let m1 := C_registerVariable name a sz tid (Some m) in
  C_getVariable name tid m1 = Some (a, sz) /\
  C_registerVariable name b szb tid m1 = m1 /\
  (forall name2 tid2, variableName name2 tid2 <> variableName name tid ->
     C_getVariable name tid (C_unregisterVariable name2 tid2 m1) = Some (a, sz)) /\
  C_getVariable name tid (C_unregisterVariable name tid m1) = Some (0, 0).
Proof.
  intros m1. unfold m1, C_registerVariable, C_getVariable, C_unregisterVariable.
  set (k := variableName name tid) in *. clearbody k. cbn [mbind option_bind].
  rewrite Hfresh, !lookup_insert_eq, lookup_delete_eq. cbn [v_addr v_size].
  rewrite i32_small, u64_small by lia. split_and!; try done.
  intros name2 tid2 Hne. rewrite lookup_delete_ne, lookup_insert_eq by done. simpl. by rewrite u64_small by lia.
Qed.

Lemma variable_roundtrip_witness :
  C_getVariable "x" 3 (C_registerVariable "x" 4096 64 3 C_createVeriInstance) =
    Some (4096, 64).
Proof.
  apply (variable_roundtrip "x" 3 4096 64 0 0 ∅); [reflexivity|lia].
Defined.

(** The limits of the registry.  Thread 2 registering [a1] makes thread 12
    find a variable [a]; a variable of 2 GiB comes back with a size near 2^64;
    and after [PMTest_init] every function of the registry goes through [NULL]. *)
Theorem variable_limits :
  C_getVariable "a" 12 (C_registerVariable "a1" 4096 64 2 C_createVeriInstance) =
    Some (4096, 64) /\
  C_getVariable "x" 0 (C_registerVariable "x" 4096 (2 ^ 31) 0 C_createVeriInstance) =
    Some (4096, 2 ^ 64 - 2 ^ 31) /\
  (forall name a sz tid, C_registerVariable name a sz tid veriInstance_after_init = None).
Proof. split_and!; [vm_compute; reflexivity..|done]. Qed.
