(* ===== verification/Kernel.v ===== *)
(** * The kernel module and its client

    In the kernel, the recording functions [kC_createMetadata_*] of
    [src/kernel_module.c] hand entries to [PMTestFifoWrite], which puts them in a
    kfifo and sleeps while it is full; the process [src/kernel_client.cc] reads
    them through [PMTestDeviceRead], groups them into traces at
    [_TRANSACTIONDELIM] and submits these to a worker pool.

    The kfifo of Linux is a parameter with the laws the code relies on.  Writer
    and reader interleave at their accesses to the fifo and to the flag
    [asleep]; [wait_event_interruptible] queues the thread before it tests the
    condition, so its test and its going to sleep are one step.  The user buffer
    of a read is valid. *)

From Stdlib Require Import Ascii.
From stdpp Require Import strings.
From S2P Require Import Prelude FastVector Metadata.

Definition KFIFO_LEN : Z := 1024.

(** [kfifo_avail], [kfifo_put] and [kfifo_to_user] of one element, on a fifo of
    [len] elements; [kf_list] is its contents. *)
Class Kfifo (F : Type) := {
  kf_alloc : Z -> F;
  kf_len : F -> Z;
  kf_list : F -> list Metadata;
  kf_avail : F -> Z;
  kf_put : Metadata -> F -> F;
  kf_out : F -> option (Metadata * F);
}.

Class KfifoLaws (F : Type) `{Kfifo F} : Prop := {
  kf_alloc_len n : kf_len (kf_alloc n) = n;
  kf_alloc_list n : kf_list (kf_alloc n) = [];
  kf_avail_spec f : kf_avail f = kf_len f - Z.of_nat (length (kf_list f));
  kf_put_len m f : kf_len (kf_put m f) = kf_len f;
  kf_put_list m f : 0 < kf_avail f -> kf_list (kf_put m f) = kf_list f ++ [m];
  kf_out_None f : kf_out f = None <-> kf_list f = [];
  kf_out_Some f m f' : kf_out f = Some (m, f') ->
    kf_list f = m :: kf_list f' /\ kf_len f' = kf_len f;
}.

(** ** The recording functions of the kernel *)

(** The entry a function hands to [PMTestFifoWrite]; [input] is the structure on
    its stack. *)
Definition kC_createMetadata_Assign (existVeriInstance : bool) (input : Metadata)
    (a sz : Z) (name : list ascii) (line : Z) : option Metadata :=
  if existVeriInstance
  then Some (set_location name line (set_range a sz (set_type _ASSIGN input))) else None.

Definition kC_createMetadata_Flush (existVeriInstance : bool) (input : Metadata)
    (a sz : Z) (name : list ascii) (line : Z) : option Metadata :=
  if existVeriInstance
  then Some (set_location name line (set_range a sz (set_type _FLUSH input))) else None.

Definition kC_createMetadata_Commit (existVeriInstance : bool) (input : Metadata)
    (name : list ascii) (line : Z) : option Metadata :=
  if existVeriInstance
  then Some (set_location name line (set_type _COMMIT input)) else None.

Definition kC_createMetadata_Barrier (existVeriInstance : bool) (input : Metadata)
    (name : list ascii) (line : Z) : option Metadata :=
  if existVeriInstance
  then Some (set_location name line (set_type _BARRIER input)) else None.

Definition kC_createMetadata_Fence (existVeriInstance : bool) (input : Metadata)
    (name : list ascii) (line : Z) : option Metadata :=
  if existVeriInstance
  then Some (set_location name line (set_type _FENCE input)) else None.

Definition kC_createMetadata_Persist (existVeriInstance : bool) (input : Metadata)
    (a sz : Z) (name : list ascii) (line : Z) : option Metadata :=
  if existVeriInstance
  then Some (set_location name line (set_range a sz (set_type _PERSIST input))) else None.

Definition kC_createMetadata_Order (existVeriInstance : bool) (input : Metadata)
    (a sz a_late sz_late : Z) (name : list ascii) (line : Z) : option Metadata :=
  if existVeriInstance
  then Some (set_location name line
         (set_range_late a_late sz_late (set_range a sz (set_type _ORDER input))))
  else None.

Definition kC_createMetadata_TransactionDelim (existVeriInstance : bool) (input : Metadata) :
    option Metadata :=
  if existVeriInstance then Some (set_type _TRANSACTIONDELIM input) else None.

Definition kC_createMetadata_Ending (existVeriInstance : bool) (input : Metadata) :
    option Metadata :=
  if existVeriInstance then Some (set_type _ENDING input) else None.

Definition kC_createMetadata_TransactionBegin (existVeriInstance : bool) (input : Metadata)
    (name : list ascii) (line : Z) : option Metadata :=
  if existVeriInstance
  then Some (set_location name line (set_type _TRANSACTIONBEGIN input)) else None.

Definition kC_createMetadata_TransactionEnd (existVeriInstance : bool) (input : Metadata)
    (name : list ascii) (line : Z) : option Metadata :=
  if existVeriInstance
  then Some (set_location name line (set_type _TRANSACTIONEND input)) else None.

Definition kC_createMetadata_TransactionAdd (existVeriInstance : bool) (input : Metadata)
    (a sz : Z) (name : list ascii) (line : Z) : option Metadata :=
  if existVeriInstance
  then Some (set_location name line (set_range a sz (set_type _TRANSACTIONADD input)))
  else None.

Definition kC_createMetadata_Exclude (PMTEST_EXCLUDE existVeriInstance : bool)
    (input : Metadata) (a sz : Z) (name : list ascii) (line : Z) : option Metadata :=
  if PMTEST_EXCLUDE && existVeriInstance
  then Some (set_location name line (set_range a sz (set_type _EXCLUDE input))) else None.

Definition kC_createMetadata_Include (PMTEST_EXCLUDE existVeriInstance : bool)
    (input : Metadata) (a sz : Z) (name : list ascii) (line : Z) : option Metadata :=
  if PMTEST_EXCLUDE && existVeriInstance
  then Some (set_location name line (set_range a sz (set_type _INCLUDE input))) else None.

(** The interface macros of [include/kernel_module.h]: those of user space, and
    the two that delimit traces. *)
Inductive kapi :=
  | K_common (c : api)
  | PMTest_transactionDelim
  | PMTest_ending.

(** One macro: the new switch and the entry written, if any. *)
Definition exec_kapi (PMTEST_EXCLUDE on : bool) (input : Metadata) (c : kapi) :
    bool * option Metadata :=
  match c with
  | K_common PMTest_START => (true, None)
  | K_common PMTest_END => (false, None)
  | K_common (PMTest_CHECKER_START f l) =>
      (on, kC_createMetadata_TransactionBegin on input f l)
  | K_common (PMTest_CHECKER_END f l) =>
      (on, kC_createMetadata_TransactionEnd on input f l)
  | K_common (PMTest_transactionAdd a sz f l) =>
      (on, kC_createMetadata_TransactionAdd on input a sz f l)
  | K_common (PMTest_assign a sz f l) => (on, kC_createMetadata_Assign on input a sz f l)
  | K_common (PMTest_flush a sz f l) => (on, kC_createMetadata_Flush on input a sz f l)
  | K_common (PMTest_commit f l) => (on, kC_createMetadata_Commit on input f l)
  | K_common (PMTest_barrier f l) => (on, kC_createMetadata_Barrier on input f l)
  | K_common (PMTest_fence f l) => (on, kC_createMetadata_Fence on input f l)
  | K_common (PMTest_isPersistent a sz f l) =>
      (on, kC_createMetadata_Persist on input a sz f l)
  | K_common (PMTest_isPersistedBefore a sz b szb f l) =>
      (on, kC_createMetadata_Order on input a sz b szb f l)
  | K_common (PMTest_exclude a sz f l) =>
      (on, kC_createMetadata_Exclude PMTEST_EXCLUDE on input a sz f l)
  | K_common (PMTest_include a sz f l) =>
      (on, kC_createMetadata_Include PMTEST_EXCLUDE on input a sz f l)
  | PMTest_transactionDelim => (on, kC_createMetadata_TransactionDelim on input)
  | PMTest_ending => (on, kC_createMetadata_Ending on input)
  end.

(** The entries a sequence of macros hands to [PMTestFifoWrite]. *)
Fixpoint kernel_entries (PMTEST_EXCLUDE on : bool) (cs : list (Metadata * kapi)) :
    list Metadata :=
  match cs with
  | [] => []
  | (input, c) :: cs' =>
      let '(on', e) := exec_kapi PMTEST_EXCLUDE on input c in
      option_list e ++ kernel_entries PMTEST_EXCLUDE on' cs'
  end.

(** ** The device *)

Section Device.
Context {F : Type} `{!Kfifo F} (threshold : Z).

(** The places of the writer in [PMTestFifoWrite]. *)
Inductive writer_pc :=
  | KW_next                       (* between two calls *)
  | KW_put (input : Metadata)     (* if (kfifo_avail > 0) kfifo_put *)
  | KW_full                       (* if (kfifo_avail == 0) *)
  | KW_mark                       (* asleep = 1 *)
  | KW_wait                       (* queued, about to test the condition *)
  | KW_asleep.                    (* sleeping *)

(** The places of the reader in [PMTestDeviceRead]. *)
Inductive reader_pc :=
  | KR_read                       (* kfifo_to_user *)
  | KR_check                      (* if (asleep != 0 && kfifo_avail >= ..) *)
  | KR_wake                       (* wake_up_interruptible *)
  | KR_clear.                     (* asleep = 0 *)

(** [program] is what remains to be written, [consumed] what the client has
    received, [dropped] the entries [PMTestFifoWrite] did not put. *)
Record device := mkDevice {
  pmtest_dev : F;
  asleep : bool;
  wr : writer_pc;
  rd : reader_pc;
  program : list Metadata;
  consumed : list Metadata;
  dropped : list Metadata;
}.

Definition writer_to (p : writer_pc) (d : device) : device :=
  mkDevice (pmtest_dev d) (asleep d) p (rd d) (program d) (consumed d) (dropped d).
Definition reader_to (p : reader_pc) (d : device) : device :=
  mkDevice (pmtest_dev d) (asleep d) (wr d) p (program d) (consumed d) (dropped d).

Definition PMTestFifoWrite_step (d : device) : option device :=
  match wr d with
  | KW_next =>
      match program d with
      | [] => None
      | m :: ms => Some (mkDevice (pmtest_dev d) (asleep d) (KW_put m) (rd d) ms
                           (consumed d) (dropped d))
      end
  | KW_put input =>
      if 0 <? kf_avail (pmtest_dev d)
      then Some (mkDevice (kf_put input (pmtest_dev d)) (asleep d) KW_full (rd d)
                   (program d) (consumed d) (dropped d))
      else Some (mkDevice (pmtest_dev d) (asleep d) KW_full (rd d) (program d)
                   (consumed d) (dropped d ++ [input]))
  | KW_full =>
      Some (writer_to (if kf_avail (pmtest_dev d) =? 0 then KW_mark else KW_next) d)
  | KW_mark =>
      Some (mkDevice (pmtest_dev d) true KW_wait (rd d) (program d) (consumed d)
              (dropped d))
  | KW_wait =>
      Some (writer_to (if threshold <=? kf_avail (pmtest_dev d) then KW_next
                       else KW_asleep) d)
  | KW_asleep => None
  end.

Definition PMTestDeviceRead_step (d : device) : device :=
  match rd d with
  | KR_read =>
      match kf_out (pmtest_dev d) with
      | Some (m, f) => mkDevice f (asleep d) (wr d) KR_check (program d)
                         (consumed d ++ [m]) (dropped d)
      | None => reader_to KR_check d
      end
  | KR_check =>
      reader_to (if asleep d && (threshold <=? kf_avail (pmtest_dev d))
                 then KR_wake else KR_read) d
  | KR_wake =>
      reader_to KR_clear
        (match wr d with KW_asleep => writer_to KW_wait d | _ => d end)
  | KR_clear =>
      mkDevice (pmtest_dev d) false (wr d) KR_read (program d) (consumed d) (dropped d)
  end.

(** A signal ends the wait of the writer. *)
Definition signal_step (d : device) : option device :=
  match wr d with
  | KW_wait | KW_asleep => Some (writer_to KW_next d)
  | _ => None
  end.

Inductive kchoice := KWriter | KReader | KSignal.

Definition device_step (c : kchoice) (d : device) : option device :=
  match c with
  | KWriter => PMTestFifoWrite_step d
  | KReader => Some (PMTestDeviceRead_step d)
  | KSignal => signal_step d
  end.

(** [kC_initPMTestDevice] when its allocations succeed, with a writer about to
    record [ms] and a reader about to read. *)
Definition kC_initPMTestDevice (ms : list Metadata) : device :=
  mkDevice (kf_alloc KFIFO_LEN) false KW_next KR_read ms [] [].

(** The device after a schedule. *)
Fixpoint device_run (sched : list kchoice) (d : device) : option device :=
  match sched with
  | [] => Some d
  | c :: sched' => d' ← device_step c d; device_run sched' d'
  end.

(** ** Nothing is lost *)

Context `{!KfifoLaws F}.

(** The entry the writer has in hand. *)
Definition in_hand (p : writer_pc) : list Metadata :=
  match p with KW_put m => [m] | _ => [] end.

(** With one writer and no signal, there is room whenever an entry is put. *)
Record device_inv (ms : list Metadata) (d : device) : Prop := {
  d_order : consumed d ++ kf_list (pmtest_dev d) ++ in_hand (wr d) ++ program d = ms;
  d_dropped : dropped d = [];
  d_len : kf_len (pmtest_dev d) = KFIFO_LEN;
  d_room : match wr d with
    | KW_next | KW_put _ => 0 < kf_avail (pmtest_dev d) | _ => True end;
  d_cap : 0 <= kf_avail (pmtest_dev d);
  d_flag : match rd d with KR_wake | KR_clear => asleep d = true | _ => True end;
}.

Lemma kf_out_avail f m f' :
  kf_out f = Some (m, f') -> kf_avail f' = kf_avail f + 1.
Proof using KfifoLaws0.
  intros H. destruct (kf_out_Some f m f' H) as [Hl Hn].
  rewrite !kf_avail_spec, Hl, Hn. simpl. lia.
Qed.

Lemma kf_put_avail f m : 0 < kf_avail f -> kf_avail (kf_put m f) = kf_avail f - 1.
Proof using KfifoLaws0.
  intros H. rewrite !kf_avail_spec, kf_put_list, kf_put_len by done.
  rewrite length_app. simpl. lia.
Qed.

Lemma writer_inv ms d d' :
  0 < threshold -> device_inv ms d -> PMTestFifoWrite_step d = Some d' -> device_inv ms d'.
Proof using KfifoLaws0.
  intros Hthr [] Hstep. unfold PMTestFifoWrite_step in Hstep.
  destruct (wr d) as [|m| | | |] eqn:Hw; simpl in *.
  - destruct (program d) as [|m ms']; [done|]. injection Hstep as <-. by split.
  - destruct (Z.ltb_spec 0 (kf_avail (pmtest_dev d))); [|lia]. injection Hstep as <-.
    split; simpl; try done.
    + by rewrite kf_put_list, <- app_assoc by done.
    + by rewrite kf_put_len.
    + rewrite kf_put_avail by done. lia.
  - injection Hstep as <-. destruct (Z.eqb_spec (kf_avail (pmtest_dev d)) 0);
      split; simpl; done || lia.
  - injection Hstep as <-. split; simpl; try done. by destruct (rd d).
  - injection Hstep as <-. destruct (Z.leb_spec threshold (kf_avail (pmtest_dev d)));
      split; simpl; done || lia.
  - done.
Qed.

Lemma reader_inv ms d : device_inv ms d -> device_inv ms (PMTestDeviceRead_step d).
Proof using KfifoLaws0.
  intros []. unfold PMTestDeviceRead_step. destruct (rd d) eqn:Hr.
  - destruct (kf_out (pmtest_dev d)) as [[m f]|] eqn:Ho; [|by split].
    pose proof (kf_out_avail _ _ _ Ho). destruct (kf_out_Some _ _ _ Ho) as [Hl Hn].
    split; simpl; try done.
    + by rewrite <- d_order0, Hl, <- app_assoc.
    + by rewrite Hn.
    + destruct (wr d); done || lia.
    + lia.
  - split; simpl; try done. by destruct (asleep d); [destruct (threshold <=? _)|].
  - destruct (wr d) eqn:Hw; split; simpl in *; rewrite ?Hw in *; done.
  - by split.
Qed.

Lemma device_run_inv ms sched : forall d d',
  0 < threshold -> Forall (fun c => c <> KSignal) sched ->
  device_inv ms d -> device_run sched d = Some d' -> device_inv ms d'.
Proof using KfifoLaws0.
  induction sched as [|c sched IH]; intros d d' Hthr Hsig Hinv Hrun; simpl in Hrun.
  { by injection Hrun as <-. }
  apply Forall_cons in Hsig as [Hc Hsig].
  destruct (device_step c d) as [d1|] eqn:Hstep; [|done]. simpl in Hrun.
  apply (IH d1 d' Hthr Hsig); [|done]. destruct c; simpl in Hstep; [| |done].
  - by eapply writer_inv.
  - injection Hstep as <-. by apply reader_inv.
Qed.

(** ** Everything arrives, unless the wake-up is lost *)

(** The writer sleeps and nobody will wake it: [asleep] is clear, or about to be
    cleared. *)
Definition lost (d : device) : Prop :=
  wr d = KW_asleep /\ (asleep d = false \/ rd d = KR_clear).

Lemma lost_run ms sched : forall d d',
  0 < threshold -> Forall (fun c => c <> KSignal) sched -> device_inv ms d -> lost d ->
  device_run sched d = Some d' -> program d' = program d.
Proof using KfifoLaws0.
  induction sched as [|c sched IH]; intros d d' Hthr Hsig Hinv Hlost Hrun; simpl in Hrun.
  { by injection Hrun as <-. }
  apply Forall_cons in Hsig as [Hc Hsig]. destruct Hlost as [Hw Hor].
  destruct c; [|clear Hc|done]; simpl in Hrun.
  { unfold PMTestFifoWrite_step in Hrun. by rewrite Hw in Hrun. }
  assert (lost (PMTestDeviceRead_step d) /\ program (PMTestDeviceRead_step d) = program d) as [Hl <-].
  { pose proof (d_flag _ _ Hinv) as Hf. unfold PMTestDeviceRead_step, lost. destruct (rd d) eqn:Hr.
    - destruct Hor as [Ha|]; [|done]. destruct (kf_out _) as [[m f]|]; simpl; auto.
    - destruct Hor as [Ha|]; [|done]. rewrite Ha. simpl. auto.
    - destruct Hor as [Ha|]; [congruence|done].
    - simpl. auto. }
  eapply IH; [done|done|by apply reader_inv|done|done].
Qed.

Lemma device_run_app l1 l2 d : device_run (l1 ++ l2) d = device_run l1 d ≫= device_run l2.
Proof.
  revert d. induction l1 as [|c l1 IH]; intros d; [done|]. simpl.
  destruct (device_step c d); simpl; [apply IH|done].
Qed.

Definition signal_free (l : list kchoice) : Prop := Forall (fun c => c <> KSignal) l.

(** What the reader does alone: it empties the fifo, and wakes a writer that can
    still be woken. *)
Definition drains (d d' : device) : Prop :=
  exists n, device_run (replicate n KReader) d = Some d' /\ program d' = program d /\
    (lost d' -> lost d) /\ (wr d' = wr d \/ wr d = KW_asleep /\ wr d' = KW_wait).

Lemma drains_step d d' : drains (PMTestDeviceRead_step d) d' -> drains d d'.
Proof.
  intros (n & Hrun & Hp & Hl & Hw). exists (S n). split; [exact Hrun|].
  unfold PMTestDeviceRead_step, lost in *.
  destruct (rd d) eqn:Hr; simpl in *.
  - destruct (kf_out (pmtest_dev d)) as [[m f]|]; simpl in *; split_and!; try done;
      intros H; destruct (Hl H) as [? [?|?]]; auto; congruence.
  - split_and!; try done. intros H. destruct (Hl H) as [? [?|?]]; auto.
    destruct (asleep d && _); congruence.
  - destruct (wr d) eqn:Hwd; simpl in *; rewrite ?Hwd in *; split_and!; try done; try tauto;
      intros H; destruct (Hl H) as [? _]; congruence.
  - split_and!; try done. intros H. destruct (Hl H) as [? _]. auto.
Qed.

Lemma drain_empty : forall d, exists d',
  drains d d' /\ kf_list (pmtest_dev d') = [] /\ rd d' = KR_read.
Proof using KfifoLaws0.
  intros d. set (rank p := match p with KR_read => 0 | KR_clear => 1 | KR_wake => 2 | KR_check => 3 end%nat).
  remember (5 * length (kf_list (pmtest_dev d)) + rank (rd d))%nat as k eqn:Hk.
  revert d Hk. induction (lt_wf k) as [k _ IH]; intros d Hk.
  assert ((kf_list (pmtest_dev d) = [] /\ rd d = KR_read) \/
    ~ (kf_list (pmtest_dev d) = [] /\ rd d = KR_read)) as [[Hl Hr]|Hne]
    by (destruct (rd d), (kf_list (pmtest_dev d)); naive_solver).
  { exists d. split; [|done]. exists 0%nat. split_and!; try done. by left. }
  assert (5 * length (kf_list (pmtest_dev (PMTestDeviceRead_step d))) +
    rank (rd (PMTestDeviceRead_step d)) < k)%nat as Hlt.
  { subst k. unfold PMTestDeviceRead_step. destruct (rd d) eqn:Hr; simpl.
    - destruct (kf_out (pmtest_dev d)) as [[m f]|] eqn:Ho.
      + destruct (kf_out_Some _ _ _ Ho) as [-> _]. simpl. lia.
      + apply kf_out_None in Ho. tauto.
    - destruct (asleep d && _); simpl; lia.
    - destruct (wr d); simpl; lia.
    - lia. }
  destruct (IH _ Hlt _ eq_refl) as (d' & Hd & H). exists d'. split; [|done]. by apply drains_step.
Qed.

(** An emptied fifo, with the writer awake unless its wake-up is lost. *)
Lemma drain_awake ms d :
  threshold <= KFIFO_LEN -> device_inv ms d ->
  exists d', drains d d' /\ kf_list (pmtest_dev d') = [] /\ rd d' = KR_read /\
    (wr d' = KW_asleep -> lost d).
Proof using KfifoLaws0.
  intros Hthr Hinv. destruct (drain_empty d) as (d1 & Hd1 & Hl1 & Hr1).
  assert ((wr d1 = KW_asleep /\ asleep d1 = true) \/ ~ (wr d1 = KW_asleep /\ asleep d1 = true))
    as [[Hw Ha]|Hno] by (destruct (wr d1), (asleep d1); naive_solver); cycle 1.
  { exists d1. split_and!; try done. intros Hw. destruct Hd1 as (n & _ & _ & Hl & _).
    apply Hl. split; [done|]. left. destruct (asleep d1); tauto. }
  pose proof Hd1 as (n & Hrun & Hp & Hl & Hwr).
  assert (kf_len (pmtest_dev d1) = KFIFO_LEN) as Hlen.
  { clear -Hrun Hinv KfifoLaws0. revert d Hinv Hrun. induction n as [|n IH]; intros d Hinv Hrun; simpl in Hrun.
    - injection Hrun as <-. apply Hinv.
    - eapply IH; [|exact Hrun]. by apply reader_inv. }
  assert (kf_out (pmtest_dev d1) = None) as Ho by (by apply kf_out_None).
  assert ((threshold <=? kf_avail (pmtest_dev d1)) = true) as Hav.
  { apply Z.leb_le. rewrite kf_avail_spec, Hlen, Hl1. simpl. lia. }
  assert (PMTestDeviceRead_step d1 = reader_to KR_check d1) as E1
    by (unfold PMTestDeviceRead_step; by rewrite Hr1, Ho).
  assert (PMTestDeviceRead_step (reader_to KR_check d1) = reader_to KR_wake d1) as E2
    by (unfold PMTestDeviceRead_step, reader_to; simpl; by rewrite Ha, Hav).
  assert (PMTestDeviceRead_step (reader_to KR_wake d1) = reader_to KR_clear (writer_to KW_wait d1)) as E3
    by (unfold PMTestDeviceRead_step, reader_to; simpl; by rewrite Hw).
  exists (mkDevice (pmtest_dev d1) false KW_wait KR_read (program d1) (consumed d1) (dropped d1)).
  split; [|done]. exists (n + 4)%nat.
  rewrite replicate_add, device_run_app, Hrun. cbn [mbind option_bind].
  split_and!; simpl; try done.
  - rewrite E1, E2, E3. done.
  - intros [? _]. done.
  - right. split; [|done]. destruct Hwr as [?|[? _]]; congruence.
Qed.

(** The entries still with the writer. *)
Definition to_write (d : device) : nat :=
  (6 * length (program d) +
   match wr d with KW_put _ => 4 | KW_full => 3 | KW_mark => 2
   | KW_wait | KW_asleep => 1 | KW_next => 0 end)%nat.

Lemma write_step ms d :
  0 < threshold <= KFIFO_LEN -> device_inv ms d -> kf_list (pmtest_dev d) = [] ->
  wr d <> KW_asleep ->
  (program d = [] /\ wr d = KW_next) \/
  exists d', PMTestFifoWrite_step d = Some d' /\ wr d' <> KW_asleep /\ (to_write d' < to_write d)%nat.
Proof using KfifoLaws0.
  intros Hthr Hinv Hl Hw.
  assert (kf_avail (pmtest_dev d) = KFIFO_LEN) as Hav.
  { rewrite kf_avail_spec, (d_len _ _ Hinv), Hl. simpl. lia. }
  assert (KFIFO_LEN = 1024) as HL by done.
  unfold PMTestFifoWrite_step, to_write. destruct (wr d) as [|m| | | |] eqn:Hwd; rewrite ?Hav; try done.
  - destruct (program d) as [|m ms']; [by left|right]. eexists. split; [done|]. simpl. split; [done|lia].
  - right. rewrite HL. simpl. eexists. split; [done|]. simpl. split; [done|lia].
  - right. rewrite HL. simpl. eexists. split; [done|]. simpl. split; [done|lia].
  - right. eexists. split; [done|]. simpl. split; [done|lia].
  - right. rewrite (proj2 (Z.leb_le _ _)) by lia. eexists. split; [done|]. simpl. split; [done|lia].
Qed.

Lemma deliver ms d :
  0 < threshold <= KFIFO_LEN -> device_inv ms d -> (lost d -> program d = []) ->
  exists sched d', signal_free sched /\ device_run sched d = Some d' /\ consumed d' = ms.
Proof using KfifoLaws0.
  intros Hthr. remember (to_write d) as k eqn:Hk. revert d Hk.
  induction (lt_wf k) as [k _ IH]; intros d Hk Hinv Hlost.
  destruct (drain_awake ms d ltac:(lia) Hinv) as (d1 & (n & Hrun & Hp & Hl & Hwr) & Hl1 & Hr1 & Hw1).
  assert (signal_free (replicate n KReader)) as Hn by (by apply Forall_replicate).
  pose proof (device_run_inv ms _ _ _ (proj1 Hthr) Hn Hinv Hrun) as Hinv1.
  assert (to_write d1 <= k)%nat as Hle.
  { subst k. unfold to_write. rewrite Hp. destruct Hwr as [->|[-> ->]]; lia. }
  assert (wr d1 = KW_asleep \/ wr d1 <> KW_asleep) as [Hw|Hw]
    by (destruct (wr d1); (by left) || by right).
  { exists (replicate n KReader), d1. split_and!; [done..|].
    rewrite <- (d_order _ _ Hinv1), Hl1, Hw, Hp, (Hlost (Hw1 Hw)). simpl. by rewrite app_nil_r. }
  destruct (write_step ms d1 Hthr Hinv1 Hl1 Hw) as [[Hp1 Hw']|(d2 & Hs2 & Hw2 & Hlt)].
  { exists (replicate n KReader), d1. split_and!; [done..|].
    rewrite <- (d_order _ _ Hinv1), Hl1, Hw', Hp1. simpl. by rewrite app_nil_r. }
  destruct (IH (to_write d2) ltac:(lia) d2 eq_refl) as (l & d' & Hl' & Hrun' & Hc).
  { by eapply writer_inv; [lia|exact Hinv1|]. }
  { by intros [? _]. }
  exists (replicate n KReader ++ KWriter :: l), d'. split_and!; [|rewrite device_run_app, Hrun|done].
  - apply Forall_app. split; [done|]. by apply Forall_cons.
  - cbn [mbind option_bind device_run device_step]. by rewrite Hs2.
Qed.

Lemma device_init_inv ms : device_inv ms (kC_initPMTestDevice ms).
Proof using KfifoLaws0.
  split; simpl; rewrite ?kf_avail_spec, ?kf_alloc_list, ?kf_alloc_len; simpl;
    unfold KFIFO_LEN; try done; lia.
Qed.

End Device.
Arguments device F : clear implicits.

(** Half of the fifo. *)
Definition KFIFO_THRESHOLD_LEN : Z := KFIFO_LEN / 2.

(** ** The client *)

(** [read_transaction] on the entries still to come; [None] while it polls. *)
Fixpoint read_transaction (stream tx : list Metadata) :
    option (list Metadata * Z * list Metadata) :=
  match stream with
  | [] => None
  | buf :: stream' =>
      match type buf with
      | _TRANSACTIONDELIM => Some (tx, 0, stream')
      | _ENDING => Some (tx, -1, stream')
      | _ => read_transaction stream' (tx ++ [buf])
      end
  end.

(** The loop of [main]: the traces given to [execVeri], and the one read before
    the loop ends.  A transaction takes at least one entry, so the length of
    the stream is enough fuel. *)
Fixpoint client_main (fuel : nat) (stream : list Metadata) (submitted : list (list Metadata)) :
    option (list (list Metadata) * list Metadata) :=
  match fuel with
  | O => None
  | S fuel' =>
      match read_transaction stream [] with
      | None => None
      | Some (tx, flag, rest) =>
          if flag =? -1 then Some (submitted, tx)
          else client_main fuel' rest (submitted ++ [tx])
      end
  end.

(** Entries that belong to a trace. *)
Definition plain (m : Metadata) : Prop :=
  type m <> _TRANSACTIONDELIM /\ type m <> _ENDING.

Lemma read_transaction_plain l : forall tx rest,
  Forall plain l -> read_transaction (l ++ rest) tx = read_transaction rest (tx ++ l).
Proof.
  induction l as [|m l IH]; intros tx rest Hl; [by rewrite app_nil_r|].
  apply Forall_cons in Hl as [[Hd He] Hl]. simpl.
  destruct (type m) eqn:Ht; try done; rewrite IH, <- app_assoc; done.
Qed.

Lemma client_main_spec delim ending groups : forall last rest sub fuel,
  type delim = _TRANSACTIONDELIM -> type ending = _ENDING ->
  Forall (Forall plain) groups -> Forall plain last ->
  (length groups < fuel)%nat ->
  client_main fuel (mbind (fun g => g ++ [delim]) groups ++ last ++ ending :: rest) sub =
    Some (sub ++ groups, last).
Proof.
  induction groups as [|g groups IH]; intros last rest sub fuel Hd He Hg Hl Hfuel;
    (destruct fuel as [|fuel]; [simpl in Hfuel; lia|]); simpl in *.
  - rewrite read_transaction_plain by done. simpl. rewrite He. simpl.
    by rewrite app_nil_r.
  - apply Forall_cons in Hg as [Hg1 Hg]. rewrite <- !app_assoc. simpl.
    rewrite read_transaction_plain by done. simpl. rewrite Hd. simpl.
    unfold mbind in IH. rewrite IH; [|done..|lia]. by rewrite <- app_assoc.
Qed.

Lemma groups_length (delim : Metadata) (groups : list (list Metadata)) :
  (length groups <= length (mbind (fun g => g ++ [delim]) groups))%nat.
Proof.
  induction groups as [|g groups IH]; [done|].
  change (mbind (fun g => g ++ [delim]) (g :: groups))
    with ((g ++ [delim]) ++ mbind (fun g => g ++ [delim]) groups).
  rewrite !length_app. simpl. lia.
Qed.

(** ** Properties *)

(** The list fifo. *)
Record list_fifo := mkFifo { lf_len : Z; lf_list : list Metadata }.

#[global] Instance list_kfifo : Kfifo list_fifo := {
  kf_alloc n := mkFifo n [];
  kf_len := lf_len;
  kf_list := lf_list;
  kf_avail f := lf_len f - Z.of_nat (length (lf_list f));
  kf_put m f :=
    if 0 <? lf_len f - Z.of_nat (length (lf_list f))
    then mkFifo (lf_len f) (lf_list f ++ [m]) else f;
  kf_out f :=
    match lf_list f with [] => None | m :: l => Some (m, mkFifo (lf_len f) l) end;
}.

#[global] Instance list_kfifo_laws : KfifoLaws list_fifo.
Proof.
  split; simpl; try done.
  - intros m f. by case_match.
  - intros m f H. by rewrite (proj2 (Z.ltb_lt _ _)).
  - intros f. by destruct (lf_list f).
  - intros f m f'. by destruct (lf_list f) eqn:?; intros; simplify_eq/=.
Qed.

(** C19: what becomes of the entries, with one writer, one reader and no signal, for
    any implementation of the kfifo and after any schedule.  Nothing is dropped,
    duplicated or reordered: the entries the client has received, followed by those
    in the fifo, the one in hand and the ones still to be written, are the entries
    recorded, in order, and the fifo never overflows.  And all of them can still be
    delivered, exactly unless the writer, with entries still to write, is asleep
    while [asleep] is clear or about to be cleared: from such a state no schedule
    without a signal delivers everything. *)
Theorem device_no_loss {F} `{!Kfifo F, !KfifoLaws F} (ms : list Metadata)
    (sched : list kchoice) (d : device F)
    (Hsig : Forall (fun c => c <> KSignal) sched)
    (Hrun : device_run KFIFO_THRESHOLD_LEN sched (kC_initPMTestDevice ms) = Some d) :
  consumed d ++ kf_list (pmtest_dev d) ++ in_hand (wr d) ++ program d = ms /\
  dropped d = [] /\ Z.of_nat (length (kf_list (pmtest_dev d))) <= KFIFO_LEN /\
  ((exists sched' d', Forall (fun c => c <> KSignal) sched' /\
      device_run KFIFO_THRESHOLD_LEN sched' d = Some d' /\ consumed d' = ms) <->
   ~ (wr d = KW_asleep /\ (asleep d = false \/ rd d = KR_clear) /\ program d <> [])).
Proof.
  assert (device_inv ms d) as Hinv.
  { apply (device_run_inv KFIFO_THRESHOLD_LEN ms sched (kC_initPMTestDevice ms));
      [done|done|apply device_init_inv|done]. }
  pose proof Hinv as [Ho Hd Hlen _ Hcap _].
  split_and!; [done..| |split].
  - rewrite kf_avail_spec, Hlen in Hcap. lia.
  - intros (l & d' & Hl & Hr & Hc) (Hw & Ha & Hp).
    assert (program d' = program d) as Hp'.
    { by eapply (lost_run KFIFO_THRESHOLD_LEN ms l). }
    assert (device_inv ms d') as Hinv' by (by eapply (device_run_inv KFIFO_THRESHOLD_LEN ms l)).
    pose proof (d_order _ _ Hinv') as Ho'. rewrite Hc, Hp' in Ho'.
    apply (f_equal length) in Ho'. rewrite !length_app in Ho'.
    destruct (program d); [done|simpl in Ho'; lia].
  - intros Hno. apply (deliver KFIFO_THRESHOLD_LEN ms d); [done|done|].
    intros [Hw Ha]. destruct (program d); [done|]. by destruct Hno.
Qed.

Lemma device_no_loss_witness :
  exists d, device_run (F:=list_fifo) KFIFO_THRESHOLD_LEN [KWriter; KWriter; KReader; KWriter]
    (kC_initPMTestDevice [meta0; set_type _FENCE meta0]) = Some d /\
  consumed d ++ kf_list (pmtest_dev d) ++ in_hand (wr d) ++ program d =
    [meta0; set_type _FENCE meta0] /\
  exists sched' d', device_run KFIFO_THRESHOLD_LEN sched' d = Some d' /\
    consumed d' = [meta0; set_type _FENCE meta0].
Proof.
  eexists. split; [reflexivity|].
  destruct (device_no_loss (F:=list_fifo) [meta0; set_type _FENCE meta0]
    [KWriter; KWriter; KReader; KWriter] _ ltac:(repeat constructor; discriminate) eq_refl)
    as (H & _ & _ & H').
  split; [exact H|]. destruct (proj2 H') as (l & d' & _ & Hr & Hc).
  - intros (Hw & _). discriminate Hw.
  - exists l, d'. split; [exact Hr|exact Hc].
Defined.

(** The kernel records what user space records: for the macros the two
    interfaces share, the entry handed to the fifo is the one the user-space
    function pushes, under the same switch. *)
Theorem kernel_records_same (ex on : bool) (m0 : Metadata) (c : api) :
  exec_kapi ex on m0 (K_common c) =
    (api_switch c on, if on then api_entry ex m0 c else None).
Proof. destruct c; simpl; try (by destruct on); by destruct ex, on. Qed.

(** The client submits the delimited traces, in order, and stops at
    [_ENDING]; the entries after the last delimiter are read and never
    submitted. *)
Theorem client_submits (delim ending : Metadata) (groups : list (list Metadata))
    (last rest : list Metadata)
    (Hd : type delim = _TRANSACTIONDELIM) (He : type ending = _ENDING)
    (Hg : Forall (Forall plain) groups) (Hl : Forall plain last) :
  let stream := mbind (fun g => g ++ [delim]) groups ++ last ++ ending :: rest in
  client_main (S (length stream)) stream [] = Some (groups, last).
Proof.
  intros stream. unfold stream.
  rewrite (client_main_spec delim ending groups last rest []); try done.
  pose proof (groups_length delim groups). rewrite length_app. lia.
Qed.

Lemma client_submits_witness :
  client_main 5 [set_type _FENCE meta0; set_type _TRANSACTIONDELIM meta0;
    set_type _COMMIT meta0; meta0] [] =
  Some ([[set_type _FENCE meta0]], [set_type _COMMIT meta0]).
Proof.
  apply (client_submits (set_type _TRANSACTIONDELIM meta0) meta0
    [[set_type _FENCE meta0]] [set_type _COMMIT meta0] []).
  - reflexivity.
  - reflexivity.
  - repeat constructor; discriminate.
  - repeat constructor; discriminate.
Defined.

(** ** Two ways to lose entries *)

Local Abbreviation run_device ms sched :=
  (device_run (F:=list_fifo) KFIFO_THRESHOLD_LEN sched (kC_initPMTestDevice ms)).

(** The writer fills the fifo and goes to sleep. *)
Definition sched_fill : list kchoice := replicate (3 * 1024 + 2) KWriter.

(** The reader makes room and wakes the writer, which refills the fifo and goes
    to sleep again before the reader clears [asleep]; then the reader reads
    everything. *)
Definition sched_lost_wakeup : list kchoice :=
  sched_fill ++ replicate (2 * 512 + 1) KReader ++
  replicate (1 + 3 * 512 + 2) KWriter ++ replicate (1 + 2 * 1024) KReader.

(** Nobody will wake the writer. *)
Definition abandoned (d : device list_fifo) : Prop :=
  wr d = KW_asleep /\ asleep d = false /\ lf_list (pmtest_dev d) = [] /\
  match rd d with KR_read | KR_check => True | _ => False end.

Lemma abandoned_run sched : forall d d',
  abandoned d -> Forall (fun c => c <> KSignal) sched ->
  device_run KFIFO_THRESHOLD_LEN sched d = Some d' ->
  abandoned d' /\ consumed d' = consumed d /\ program d' = program d.
Proof.
  induction sched as [|c sched IH]; intros d d' Hab Hsig Hrun; simpl in Hrun.
  { by injection Hrun as <-. }
  apply Forall_cons in Hsig as [Hc Hsig]. destruct Hab as (Hw & Ha & Hl & Hr).
  destruct c; [|clear Hc|done]; simpl in Hrun.
  - unfold PMTestFifoWrite_step in Hrun. by rewrite Hw in Hrun.
  - destruct (IH (PMTestDeviceRead_step KFIFO_THRESHOLD_LEN d) d') as (H1 & H2 & H3); try done.
    + unfold PMTestDeviceRead_step. destruct (rd d); try done; simpl.
      * by rewrite Hl.
      * by rewrite Ha.
    + rewrite H2, H3. split; [done|]. unfold PMTestDeviceRead_step.
      destruct (rd d); try done; simpl; by rewrite ?Hl.
Qed.

(** What the schedules below are about. *)
Definition summary (d : device list_fifo) :=
  (wr d, asleep d, lf_list (pmtest_dev d), rd d, length (program d), dropped d).

Definition meta_list (n : nat) : list Metadata := replicate n meta0.

(** Entries can be lost.  When the writer refills the fifo between the
    reader's [wake_up_interruptible] and its [asleep = 0], it sleeps for ever:
    from that state the client never receives another entry, although one is
    still to be written.  And when a signal ends the writer's wait, its next
    entry is dropped. *)
Theorem device_hazards :
  (exists d, run_device (meta_list 1537) sched_lost_wakeup = Some d /\
     length (program d) = 1%nat /\
     forall sched d', Forall (fun c => c <> KSignal) sched ->
       device_run KFIFO_THRESHOLD_LEN sched d = Some d' ->
       length (program d') = 1%nat /\ consumed d' = consumed d) /\
  (exists d, run_device (meta_list 1025) (sched_fill ++ [KSignal; KWriter; KWriter]) = Some d /\
     dropped d = [meta0]).
Proof.
  split.
  - assert (option_map summary (run_device (meta_list 1537) sched_lost_wakeup) =
      Some (KW_asleep, false, [], KR_read, 1%nat, [])) as Hsum by (vm_compute; reflexivity).
    destruct (run_device (meta_list 1537) sched_lost_wakeup) as [d|]; [|done].
    injection Hsum as Hw Ha Hl Hr Hp _.
    exists d. split; [done|]. split; [done|]. intros sched d' Hsig Hrun.
    destruct (abandoned_run sched d d') as (_ & -> & ->); try done.
    unfold abandoned. by rewrite Hr.
  - assert (option_map summary (run_device (meta_list 1025)
        (sched_fill ++ [KSignal; KWriter; KWriter])) =
      Some (KW_full, true, meta_list 1024, KR_read, 0%nat, [meta0])) as Hsum
      by (vm_compute; reflexivity).
    destruct (run_device (meta_list 1025) _) as [d|]; [|done].
    injection Hsum as _ _ _ _ _ Hd. by exists d.
Qed.
