(* ===== verification/Libpmem.v ===== *)
(** * Flushing and copying: [nvml/src/libpmem/pmem.c]

    The low-level library of NVML on the memory of [Pmem], one location per
    byte.  [clwb] and [clflushopt] mark the lines of a range as flushed, to
    become durable at the next fence; [clflush] is ordered and makes a line
    durable by itself; a non-temporal store is a store that a fence alone makes
    durable.  The functions are those of the source, over explicit memories; a
    16-byte non-temporal store to an address that is not a multiple of 16 faults
    ([None]).  Function pointers are fields of a configuration computed by
    [pmem_get_cpuinfo].

    The theorems: [pmem_persist] makes its range durable in every configuration
    the library can select; [pmem_memmove_nodrain] and [pmem_memset_nodrain], for
    any overlap, alignment, length and threshold, do not fault, have the effect
    of [memmove] and [memset] on the memory, and a following [pmem_drain] leaves
    the whole destination durable. *)

From S2P Require Import Prelude Pmem.

Definition FLUSH_ALIGN : Z := 64.
Definition ALIGN_MASK : Z := FLUSH_ALIGN - 1.
Definition CHUNK_SIZE : Z := 128.
Definition CHUNK_SHIFT : Z := 7.
Definition CHUNK_MASK : Z := CHUNK_SIZE - 1.
Definition DWORD_SIZE : Z := 4.
Definition DWORD_SHIFT : Z := 2.
Definition DWORD_MASK : Z := DWORD_SIZE - 1.
Definition MOVNT_SIZE : Z := 16.
Definition MOVNT_MASK : Z := MOVNT_SIZE - 1.
Definition MOVNT_SHIFT : Z := 4.
Definition MOVNT_THRESHOLD : Z := 256.

(** ** Machine operations on bytes *)

Definition cell_flush (c : cell) : cell :=
  mkCell (c_durable c) (c_pending c) (length (c_pending c)).

(** The bytes of the cache line at [uptr]. *)
Definition in_line (uptr x : Z) : bool := (uptr <=? x) && (x <? uptr + FLUSH_ALIGN).

Definition mm_clwb (uptr : Z) (m : pmem) : pmem := fun x =>
  if in_line uptr x then cell_flush (m x) else m x.
Definition mm_clflushopt (uptr : Z) (m : pmem) : pmem := mm_clwb uptr m.
Definition mm_clflush (uptr : Z) (m : pmem) : pmem := fun x =>
  if in_line uptr x then fence_cell (cell_flush (m x)) else m x.
Definition mm_sfence (m : pmem) : pmem := pm_fence m.

(** [n] bytes from [s], and a store of the bytes [bs] at [d]; [nt] for a
    non-temporal one. *)
Definition load (m : pmem) (s n : Z) : list Z :=
  (fun i => pm_read m (s + Z.of_nat i)) <$> seq 0 (Z.to_nat n).

Definition write (nt : bool) (d : Z) (bs : list Z) (m : pmem) : pmem := fun x =>
  match (if d <=? x then bs !! Z.to_nat (x - d) else None) with
  | Some v =>
      let c := mkCell (c_durable (m x)) (c_pending (m x) ++ [v]) (c_flushed (m x)) in
      if nt then cell_flush c else c
  | None => m x
  end.

Definition mm_stream_si128 (d : Z) (xmm : list Z) (m : pmem) : option pmem :=
  if d mod 16 =? 0 then Some (write true d xmm m) else None.
Definition mm_stream_si32 (d : Z) (v : list Z) (m : pmem) : pmem := write true d v m.

(** [memmove] and [memset] of the C library. *)
Definition memmove (d s n : Z) (m : pmem) : pmem := write false d (load m s n) m.
Definition memset (d c n : Z) (m : pmem) : pmem :=
  write false d (replicate (Z.to_nat n) (c mod 256)) m.

(** ** The configuration *)

Inductive flush_func := flush_clflush_f | flush_clwb_f | flush_clflushopt_f.
Inductive fence_func := predrain_fence_empty_f | predrain_fence_sfence_f.

Record libpmem := mkLibpmem {
  Func_flush : flush_func;
  Func_predrain_fence : fence_func;
  Func_movnt : bool;
  Movnt_threshold : Z;
}.

(** What the processor and the environment offer. *)
Record cpu := mkCpu {
  is_cpu_clflushopt_present : bool;
  is_cpu_clwb_present : bool;
  is_cpu_sse2_present : bool;
  PMEM_NO_CLFLUSHOPT : bool;
  PMEM_NO_CLWB : bool;
  PMEM_NO_MOVNT : bool;
  PMEM_MOVNT_THRESHOLD : option Z;
}.

Definition pmem_get_cpuinfo (c : cpu) (l : libpmem) : libpmem :=
  let l1 :=
    if is_cpu_clflushopt_present c && negb (PMEM_NO_CLFLUSHOPT c)
    then mkLibpmem flush_clflushopt_f predrain_fence_sfence_f (Func_movnt l) (Movnt_threshold l)
    else l in
  let l2 :=
    if is_cpu_clwb_present c && negb (PMEM_NO_CLWB c)
    then mkLibpmem flush_clwb_f predrain_fence_sfence_f (Func_movnt l1) (Movnt_threshold l1)
    else l1 in
  if is_cpu_sse2_present c && negb (PMEM_NO_MOVNT c)
  then mkLibpmem (Func_flush l2) (Func_predrain_fence l2) true (Movnt_threshold l2)
  else l2.

(** The pointers before the constructor of the library runs. *)
Definition libpmem_static : libpmem :=
  mkLibpmem flush_clflush_f predrain_fence_empty_f false MOVNT_THRESHOLD.

Definition pmem_init (c : cpu) : libpmem :=
  let l := pmem_get_cpuinfo c libpmem_static in
  match PMEM_MOVNT_THRESHOLD c with
  | Some val =>
      if val <? 0 then l
      else mkLibpmem (Func_flush l) (Func_predrain_fence l) (Func_movnt l) val
  | None => l
  end.

(** ** Flush and drain *)

(** [for (uptr = addr & ~63; uptr < end; uptr += 64) line(uptr)]. *)
Fixpoint flush_loop (line : Z -> pmem -> pmem) (fuel : nat) (uptr end_ : Z) (m : pmem) :
    option pmem :=
  match fuel with
  | O => None
  | S fuel' =>
      if uptr <? end_
      then flush_loop line fuel' (u64 (uptr + FLUSH_ALIGN)) end_ (line uptr m)
      else Some m
  end.

(** Enough for any alignment: the range meets at most [len / 64 + 2] lines. *)
Definition flush_fuel (len : Z) : nat := Z.to_nat (len / FLUSH_ALIGN + 3).

Definition flush_clflush (addr len : Z) (m : pmem) : option pmem :=
  flush_loop mm_clflush (flush_fuel len) (Z.land addr (Z.lnot (FLUSH_ALIGN - 1)))
    (u64 (addr + len)) m.
Definition flush_clwb (addr len : Z) (m : pmem) : option pmem :=
  flush_loop mm_clwb (flush_fuel len) (Z.land addr (Z.lnot (FLUSH_ALIGN - 1)))
    (u64 (addr + len)) m.
Definition flush_clflushopt (addr len : Z) (m : pmem) : option pmem :=
  flush_loop mm_clflushopt (flush_fuel len) (Z.land addr (Z.lnot (FLUSH_ALIGN - 1)))
    (u64 (addr + len)) m.

Definition predrain_fence_empty (m : pmem) : pmem := m.
Definition predrain_fence_sfence (m : pmem) : pmem := mm_sfence m.

Section Library.
Context (lib : libpmem).

Definition pmem_flush (addr len : Z) (m : pmem) : option pmem :=
  match Func_flush lib with
  | flush_clflush_f => flush_clflush addr len m
  | flush_clwb_f => flush_clwb addr len m
  | flush_clflushopt_f => flush_clflushopt addr len m
  end.

Definition pmem_drain (m : pmem) : pmem :=
  match Func_predrain_fence lib with
  | predrain_fence_empty_f => predrain_fence_empty m
  | predrain_fence_sfence_f => predrain_fence_sfence m
  end.

Definition pmem_persist (addr len : Z) (m : pmem) : option pmem :=
  m1 ← pmem_flush addr len m; Some (pmem_drain m1).

(** ** [memmove] *)

Definition memmove_nodrain_normal (pmemdest src len : Z) (m : pmem) : option pmem :=
  pmem_flush pmemdest len (memmove pmemdest src len m).

(** The byte loops, forwards and backwards. *)
Fixpoint copy_bytes (n : nat) (d8 s8 : Z) (m : pmem) : pmem :=
  match n with
  | O => m
  | S n' => copy_bytes n' (d8 + 1) (s8 + 1) (write false d8 (load m s8 1) m)
  end.

Fixpoint copy_bytes_back (n : nat) (d8 s8 : Z) (m : pmem) : pmem :=
  match n with
  | O => m
  | S n' =>
      copy_bytes_back n' (d8 - 1) (s8 - 1) (write false (d8 - 1) (load m (s8 - 1) 1) m)
  end.

(** Eight loads of 16 bytes, then eight stores; [k i] is the displacement of the
    [i]-th one. *)
Definition chunk (k : Z -> Z) (d s : Z) (m : pmem) : option pmem :=
  let xmm i := load m (s + k i) MOVNT_SIZE in
  m0 ← mm_stream_si128 (d + k 0) (xmm 0) m;
  m1 ← mm_stream_si128 (d + k 1) (xmm 1) m0;
  m2 ← mm_stream_si128 (d + k 2) (xmm 2) m1;
  m3 ← mm_stream_si128 (d + k 3) (xmm 3) m2;
  m4 ← mm_stream_si128 (d + k 4) (xmm 4) m3;
  m5 ← mm_stream_si128 (d + k 5) (xmm 5) m4;
  m6 ← mm_stream_si128 (d + k 6) (xmm 6) m5;
  mm_stream_si128 (d + k 7) (xmm 7) m6.

Fixpoint copy_chunks (n : nat) (d s : Z) (m : pmem) : option pmem :=
  match n with
  | O => Some m
  | S n' =>
      m' ← chunk (fun i => MOVNT_SIZE * i) d s m;
      copy_chunks n' (d + CHUNK_SIZE) (s + CHUNK_SIZE) m'
  end.

Fixpoint copy_chunks_back (n : nat) (d s : Z) (m : pmem) : option pmem :=
  match n with
  | O => Some m
  | S n' =>
      m' ← chunk (fun i => - (MOVNT_SIZE * (i + 1))) d s m;
      copy_chunks_back n' (d - CHUNK_SIZE) (s - CHUNK_SIZE) m'
  end.

(** The loops over 16 and over 4 bytes. *)
Fixpoint copy_16 (n : nat) (d s : Z) (m : pmem) : option pmem :=
  match n with
  | O => Some m
  | S n' =>
      m' ← mm_stream_si128 d (load m s MOVNT_SIZE) m;
      copy_16 n' (d + MOVNT_SIZE) (s + MOVNT_SIZE) m'
  end.

Fixpoint copy_16_back (n : nat) (d s : Z) (m : pmem) : option pmem :=
  match n with
  | O => Some m
  | S n' =>
      m' ← mm_stream_si128 (d - MOVNT_SIZE) (load m (s - MOVNT_SIZE) MOVNT_SIZE) m;
      copy_16_back n' (d - MOVNT_SIZE) (s - MOVNT_SIZE) m'
  end.

Fixpoint copy_4 (n : nat) (d32 s32 : Z) (m : pmem) : pmem :=
  match n with
  | O => m
  | S n' =>
      copy_4 n' (d32 + DWORD_SIZE) (s32 + DWORD_SIZE)
        (mm_stream_si32 d32 (load m s32 DWORD_SIZE) m)
  end.

Fixpoint copy_4_back (n : nat) (d32 s32 : Z) (m : pmem) : pmem :=
  match n with
  | O => m
  | S n' =>
      copy_4_back n' (d32 - DWORD_SIZE) (s32 - DWORD_SIZE)
        (mm_stream_si32 (d32 - DWORD_SIZE) (load m (s32 - DWORD_SIZE) DWORD_SIZE) m)
  end.

(** The first branch: forwards, up to a line boundary and then the rest. *)
Definition forward_head (dest1 src len : Z) (m : pmem) : option (Z * Z * Z * pmem) :=
  let cnt := Z.land dest1 ALIGN_MASK in
  if 0 <? cnt then
    let cnt := FLUSH_ALIGN - cnt in
    let cnt := if len <? cnt then len else cnt in
    m' ← pmem_flush dest1 cnt (copy_bytes (Z.to_nat cnt) dest1 src m);
    Some (dest1 + cnt, src + cnt, len - cnt, m')
  else Some (dest1, src, len, m).

Definition forward_tail (d s len : Z) (m : pmem) : option pmem :=
  let cnt := Z.shiftr len CHUNK_SHIFT in
  m2 ← copy_chunks (Z.to_nat cnt) d s m;
  let d := d + CHUNK_SIZE * cnt in
  let s := s + CHUNK_SIZE * cnt in
  let len := Z.land len CHUNK_MASK in
  let cnt := if len =? 0 then 0 else Z.shiftr len MOVNT_SHIFT in
  m3 ← copy_16 (Z.to_nat cnt) d s m2;
  let d := d + MOVNT_SIZE * cnt in
  let s := s + MOVNT_SIZE * cnt in
  let len := Z.land len MOVNT_MASK in
  if len =? 0 then Some m3 else
  let cnt := Z.shiftr len DWORD_SHIFT in
  let m4 := copy_4 (Z.to_nat cnt) d s m3 in
  let d32 := d + DWORD_SIZE * cnt in
  let s32 := s + DWORD_SIZE * cnt in
  let cnt := Z.land len DWORD_MASK in
  pmem_flush d32 cnt (copy_bytes (Z.to_nat cnt) d32 s32 m4).

(** The second branch: backwards; the pointers are ends of ranges. *)
Definition backward_head (dest1 src len : Z) (m : pmem) : option (Z * Z * Z * pmem) :=
  let cnt := Z.land dest1 ALIGN_MASK in
  if 0 <? cnt then
    let cnt := if len <? cnt then len else cnt in
    m' ← pmem_flush (dest1 - cnt) cnt (copy_bytes_back (Z.to_nat cnt) dest1 src m);
    Some (dest1 - cnt, src - cnt, len - cnt, m')
  else Some (dest1, src, len, m).

Definition backward_tail (d s len : Z) (m : pmem) : option pmem :=
  let cnt := Z.shiftr len CHUNK_SHIFT in
  m2 ← copy_chunks_back (Z.to_nat cnt) d s m;
  let d := d - CHUNK_SIZE * cnt in
  let s := s - CHUNK_SIZE * cnt in
  let len := Z.land len CHUNK_MASK in
  let cnt := if len =? 0 then 0 else Z.shiftr len MOVNT_SHIFT in
  m3 ← copy_16_back (Z.to_nat cnt) d s m2;
  let d := d - MOVNT_SIZE * cnt in
  let s := s - MOVNT_SIZE * cnt in
  let len := Z.land len MOVNT_MASK in
  if len =? 0 then Some m3 else
  let cnt := Z.shiftr len DWORD_SHIFT in
  let m4 := copy_4_back (Z.to_nat cnt) d s m3 in
  let d32 := d - DWORD_SIZE * cnt in
  let s32 := s - DWORD_SIZE * cnt in
  let cnt := Z.land len DWORD_MASK in
  pmem_flush (d32 - cnt) cnt (copy_bytes_back (Z.to_nat cnt) d32 s32 m4).

Definition memmove_nodrain_movnt (pmemdest src len : Z) (m : pmem) : option pmem :=
  if (len =? 0) || (src =? pmemdest) then Some m else
  if len <? Movnt_threshold lib
  then pmem_flush pmemdest len (memmove pmemdest src len m) else
  m' ← (if len <=? u64 (pmemdest - src)
        then '(d, s, n, m1) ← forward_head pmemdest src len m; forward_tail d s n m1
        else '(d, s, n, m1) ← backward_head (pmemdest + len) (src + len) len m;
             backward_tail d s n m1);
  Some (predrain_fence_sfence m').

Definition pmem_memmove_nodrain (pmemdest src len : Z) (m : pmem) : option pmem :=
  if Func_movnt lib then memmove_nodrain_movnt pmemdest src len m
  else memmove_nodrain_normal pmemdest src len m.

Definition pmem_memcpy_nodrain (pmemdest src len : Z) (m : pmem) : option pmem :=
  pmem_memmove_nodrain pmemdest src len m.

Definition pmem_memmove_persist (pmemdest src len : Z) (m : pmem) : option pmem :=
  m' ← pmem_memmove_nodrain pmemdest src len m; Some (pmem_drain m').

Definition pmem_memcpy_persist (pmemdest src len : Z) (m : pmem) : option pmem :=
  m' ← pmem_memcpy_nodrain pmemdest src len m; Some (pmem_drain m').

(** ** [memset] *)

Definition memset_nodrain_normal (pmemdest c len : Z) (m : pmem) : option pmem :=
  pmem_flush pmemdest len (memset pmemdest c len m).

(** The loops over 128, 16 and 4 bytes, with [v] in every byte of [xmm0]. *)
Fixpoint set_chunks (n : nat) (d v : Z) (m : pmem) : option pmem :=
  match n with
  | O => Some m
  | S n' =>
      let xmm0 := replicate 16 v in
      m0 ← mm_stream_si128 d xmm0 m;
      m1 ← mm_stream_si128 (d + MOVNT_SIZE * 1) xmm0 m0;
      m2 ← mm_stream_si128 (d + MOVNT_SIZE * 2) xmm0 m1;
      m3 ← mm_stream_si128 (d + MOVNT_SIZE * 3) xmm0 m2;
      m4 ← mm_stream_si128 (d + MOVNT_SIZE * 4) xmm0 m3;
      m5 ← mm_stream_si128 (d + MOVNT_SIZE * 5) xmm0 m4;
      m6 ← mm_stream_si128 (d + MOVNT_SIZE * 6) xmm0 m5;
      m7 ← mm_stream_si128 (d + MOVNT_SIZE * 7) xmm0 m6;
      set_chunks n' (d + CHUNK_SIZE) v m7
  end.

Fixpoint set_16 (n : nat) (d v : Z) (m : pmem) : option pmem :=
  match n with
  | O => Some m
  | S n' =>
      m' ← mm_stream_si128 d (replicate 16 v) m; set_16 n' (d + MOVNT_SIZE) v m'
  end.

Fixpoint set_4 (n : nat) (d32 v : Z) (m : pmem) : pmem :=
  match n with
  | O => m
  | S n' => set_4 n' (d32 + DWORD_SIZE) v (mm_stream_si32 d32 (replicate 4 v) m)
  end.

Definition memset_head (dest1 c len : Z) (m : pmem) : option (Z * Z * pmem) :=
  let cnt := Z.land dest1 ALIGN_MASK in
  if cnt =? 0 then Some (dest1, len, m) else
  let cnt := FLUSH_ALIGN - cnt in
  let cnt := if len <? cnt then len else cnt in
  m' ← pmem_flush dest1 cnt (memset dest1 c cnt m);
  Some (dest1 + cnt, len - cnt, m').

Definition memset_tail (d c len : Z) (m : pmem) : option pmem :=
  let xmm0 := c mod 256 in
  let cnt := len / CHUNK_SIZE in
  m2 ← set_chunks (Z.to_nat cnt) d xmm0 m;
  let d := d + CHUNK_SIZE * cnt in
  let len := Z.land len CHUNK_MASK in
  let cnt := if len =? 0 then 0 else Z.shiftr len MOVNT_SHIFT in
  m3 ← set_16 (Z.to_nat cnt) d xmm0 m2;
  let d := d + MOVNT_SIZE * cnt in
  let len := Z.land len MOVNT_MASK in
  if len =? 0 then Some m3 else
  let cnt := Z.shiftr len DWORD_SHIFT in
  let m4 := set_4 (Z.to_nat cnt) d xmm0 m3 in
  let d32 := d + DWORD_SIZE * cnt in
  let cnt := Z.land len DWORD_MASK in
  if cnt =? 0 then Some m4 else pmem_flush d32 cnt (memset d32 c cnt m4).

Definition memset_nodrain_movnt (pmemdest c len : Z) (m : pmem) : option pmem :=
  if len <? Movnt_threshold lib
  then pmem_flush pmemdest len (memset pmemdest c len m) else
  '(d, n, m1) ← memset_head pmemdest c len m;
  m' ← memset_tail d c n m1;
  Some (predrain_fence_sfence m').

Definition pmem_memset_nodrain (pmemdest c len : Z) (m : pmem) : option pmem :=
  if Func_movnt lib then memset_nodrain_movnt pmemdest c len m
  else memset_nodrain_normal pmemdest c len m.

Definition pmem_memset_persist (pmemdest c len : Z) (m : pmem) : option pmem :=
  m' ← pmem_memset_nodrain pmemdest c len m; Some (pmem_drain m').

End Library.

(** ** [msync] *)

Definition Pagesize : Z := 4096.

(** The system call, when it succeeds: the range is on the medium. *)
Definition msync (uptr len : Z) (m : pmem) : pmem := fun x =>
  if (uptr <=? x) && (x <? uptr + len) then fence_cell (cell_flush (m x)) else m x.

(** [ok] is the outcome of the system call. *)
Definition pmem_msync (ok : bool) (addr len : Z) (m : pmem) : Z * pmem :=
  let len := u64 (len + Z.land addr (Pagesize - 1)) in
  let uptr := Z.land addr (Z.lnot (Pagesize - 1)) in
  if ok then (0, msync uptr len m) else (-1, m).

(** ** Flushed ranges *)

(** Every pending store of the byte is covered by a flush. *)
Definition settled (c : cell) : Prop := (length (c_pending c) <= c_flushed c)%nat.

Definition settled_on (lo hi : Z) (m : pmem) : Prop :=
  forall x, lo <= x < hi -> settled (m x).

(** What the flush of a library guarantees: with the empty fence, durable at
    once, otherwise durable at the next fence. *)
Definition flushed_by (lib : libpmem) (c : cell) : Prop :=
  match Func_predrain_fence lib with
  | predrain_fence_empty_f => c_pending c = []
  | predrain_fence_sfence_f => settled c
  end.

(** The configurations in which drain and flush fit together. *)
Definition lib_ok (lib : libpmem) : Prop :=
  Func_predrain_fence lib = predrain_fence_empty_f -> Func_flush lib = flush_clflush_f.

Lemma pmem_init_ok c : lib_ok (pmem_init c).
Proof.
  unfold lib_ok, pmem_init, pmem_get_cpuinfo. intros H.
  destruct (PMEM_MOVNT_THRESHOLD c) as [v|]; [destruct (v <? 0)|];
    destruct (is_cpu_sse2_present c && _), (is_cpu_clwb_present c && _),
      (is_cpu_clflushopt_present c && _); done.
Qed.

Lemma settled_fence c : settled c -> c_pending (fence_cell c) = [].
Proof. intros H. simpl. by apply drop_ge. Qed.

Lemma settled_flush c : settled (cell_flush c).
Proof. unfold settled. simpl. lia. Qed.

Lemma pending_settled c : c_pending c = [] -> settled c.
Proof. unfold settled. intros ->. simpl. lia. Qed.

Lemma flushed_settled lib c : flushed_by lib c -> settled c.
Proof. unfold flushed_by. destruct (Func_predrain_fence lib); auto using pending_settled. Qed.

#[local] Hint Resolve settled_flush pending_settled settled_fence : pmem.

Lemma in_line_spec u x : in_line u x = true <-> u <= x < u + 64.
Proof. unfold in_line, FLUSH_ALIGN. lia. Qed.

(** What one flush instruction does to the line: reads keep their value, the
    bytes of the line get [P], and nothing loses it. *)
Record line_spec (P : cell -> Prop) (line : Z -> pmem -> pmem) : Prop := {
  line_read u m x : pm_read (line u m) x = pm_read m x;
  line_flushed u m x : in_line u x = true -> P (line u m x);
  line_keeps u m x : P (m x) -> P (line u m x);
}.

Lemma read_cell_flush (m : pmem) x :
  List.last (c_pending (cell_flush (m x))) (c_durable (cell_flush (m x))) = pm_read m x.
Proof. done. Qed.

Lemma read_cell_clflush (m : pmem) x :
  List.last (c_pending (fence_cell (cell_flush (m x)))) (c_durable (fence_cell (cell_flush (m x))))
  = pm_read m x.
Proof. simpl. by rewrite drop_all, firstn_all. Qed.

Lemma mm_clwb_spec : line_spec settled mm_clwb.
Proof.
  split; intros u m x; unfold pm_read, mm_clwb; destruct (in_line u x);
    auto using read_cell_flush with pmem; done.
Qed.

Lemma mm_clflush_spec (P : cell -> Prop) :
  (forall c, c_pending c = [] -> P c) -> line_spec P mm_clflush.
Proof.
  intros HP. split; intros u m x; unfold mm_clflush; try (unfold pm_read at 1);
    destruct (in_line u x);
    try done; auto using read_cell_clflush with pmem.
Qed.

(** The loop covers the range when the addresses do not wrap around. *)
Lemma flush_loop_spec P line fuel uptr end_ m :
  line_spec P line -> 0 <= uptr -> end_ <= 2 ^ 64 - 64 ->
  end_ - uptr <= 64 * (Z.of_nat fuel - 1) -> (0 < fuel)%nat ->
  exists m', flush_loop line fuel uptr end_ m = Some m' /\
    (forall x, pm_read m' x = pm_read m x) /\
    (forall x, uptr <= x < end_ -> P (m' x)) /\
    (forall x, P (m x) -> P (m' x)).
Proof.
  intros HL. revert uptr m. induction fuel as [|fuel IH]; intros uptr m H0 Hend Hfuel Hpos; [lia|].
  simpl. destruct (Z.ltb_spec uptr end_) as [Hlt|Hge].
  - rewrite u64_small by (unfold FLUSH_ALIGN; lia). unfold FLUSH_ALIGN.
    destruct (IH (uptr + 64) (line uptr m)) as (m' & -> & Hr & Hp & Hk); [lia..|].
    exists m'. split_and!; [done| | |].
    + intros x. rewrite Hr. apply (line_read _ _ HL).
    + intros x Hx. destruct (decide (x < uptr + 64)); [|apply Hp; lia].
      apply Hk, (line_flushed _ _ HL), in_line_spec. lia.
    + intros x Hx. by apply Hk, (line_keeps _ _ HL).
  - exists m. split_and!; [done..| |done]. intros x Hx. lia.
Qed.

Lemma land_lnot_63 a : Z.land a (Z.lnot (FLUSH_ALIGN - 1)) = a - a mod 64.
Proof.
  change (FLUSH_ALIGN - 1) with (Z.ones 6). rewrite <- Z.ldiff_land, Z.ldiff_ones_r by lia.
  rewrite Z.shiftr_div_pow2, Z.shiftl_mul_pow2 by lia. change (2 ^ 6) with 64.
  pose proof (Z.div_mod a 64). lia.
Qed.

(** The address range a call can have: the last line does not wrap around. *)
Definition range_ok (a n : Z) : Prop := 0 <= a /\ 0 <= n /\ a + n <= 2 ^ 64 - 64.

(** Every flush function covers its range. *)
Lemma flush_func_spec P line addr len m :
  line_spec P line -> range_ok addr len ->
  exists m', flush_loop line (flush_fuel len) (Z.land addr (Z.lnot (FLUSH_ALIGN - 1)))
      (u64 (addr + len)) m = Some m' /\
    (forall x, pm_read m' x = pm_read m x) /\
    (forall x, addr <= x < addr + len -> P (m' x)) /\
    (forall x, P (m x) -> P (m' x)).
Proof.
  intros HL (Ha & Hl & Hr). rewrite land_lnot_63, u64_small by lia.
  pose proof (Z.mod_pos_bound addr 64). pose proof (Z.mod_le addr 64).
  pose proof (Z.div_mod len 64). pose proof (Z.mod_pos_bound len 64).
  assert (0 <= len / 64) by (apply Z.div_pos; lia).
  destruct (flush_loop_spec P line (flush_fuel len) (addr - addr mod 64) (addr + len) m)
    as (m' & E & Hrd & Hfl & Hk); unfold flush_fuel, FLUSH_ALIGN in *; try done; try lia.
  exists m'. split_and!; [done..| |done]. intros x Hx. apply Hfl. lia.
Qed.

Lemma pmem_flush_spec lib addr len m :
  lib_ok lib -> range_ok addr len ->
  exists m', pmem_flush lib addr len m = Some m' /\
    (forall x, pm_read m' x = pm_read m x) /\
    (forall x, addr <= x < addr + len -> flushed_by lib (m' x)) /\
    (forall x, settled (m x) -> settled (m' x)).
Proof.
  intros Hok Hr. unfold pmem_flush, flush_clflush, flush_clwb, flush_clflushopt, flushed_by.
  destruct (Func_flush lib) eqn:EF.
  - destruct (Func_predrain_fence lib).
    + (* durable at once, and settled kept: two readings of the same loop *)
      destruct (flush_func_spec (fun c => c_pending c = []) _ addr len m
        (mm_clflush_spec _ (fun c H => H)) Hr) as (m' & E & H1 & H2 & H3).
      destruct (flush_func_spec settled _ addr len m
        (mm_clflush_spec _ pending_settled) Hr) as (m'' & E' & _ & _ & H4).
      rewrite E in E'. injection E' as <-. eauto 10.
    + apply flush_func_spec; [apply mm_clflush_spec, pending_settled|done].
  - destruct (Func_predrain_fence lib) eqn:EP; [by rewrite Hok in EF|].
    apply flush_func_spec; [apply mm_clwb_spec|done].
  - destruct (Func_predrain_fence lib) eqn:EP; [by rewrite Hok in EF|].
    apply flush_func_spec; [apply mm_clwb_spec|done].
Qed.

Lemma pmem_drain_spec lib m :
  (forall x, pm_read (pmem_drain lib m) x = pm_read m x) /\
  (forall x, flushed_by lib (m x) -> pm_durable (pmem_drain lib m) x) /\
  (forall x, pm_durable m x -> pm_durable (pmem_drain lib m) x).
Proof.
  unfold pmem_drain, flushed_by, predrain_fence_sfence, mm_sfence, predrain_fence_empty.
  destruct (Func_predrain_fence lib); split_and!; try done; intros x;
    auto using pm_read_fence with pmem.
  apply settled_fence.
Qed.

(** Flushes only make more durable. *)
Lemma shrinks_flush c : shrinks c (cell_flush c).
Proof.
  split; [|done]. unfold cell_ok. intros H. split; [simpl; lia|].
  exists 0%nat. split_and!; [done|simpl; lia..].
Qed.

Lemma shrinks_clflush c : shrinks c (fence_cell (cell_flush c)).
Proof. eapply shrinks_trans; [apply shrinks_flush|apply shrinks_fence]. Qed.

Lemma flush_loop_shrinks line fuel uptr end_ m m' :
  (forall u m x, shrinks (m x) (line u m x)) ->
  flush_loop line fuel uptr end_ m = Some m' -> forall x, shrinks (m x) (m' x).
Proof.
  intros HL. revert uptr m. induction fuel as [|fuel IH]; intros uptr m E x; simpl in E; [done|].
  destruct (uptr <? end_); [|injection E as <-; apply shrinks_refl].
  eapply shrinks_trans; [apply (HL uptr)|]. eapply IH, E.
Qed.

Lemma pmem_flush_shrinks lib a len m m' :
  pmem_flush lib a len m = Some m' -> forall x, shrinks (m x) (m' x).
Proof.
  unfold pmem_flush, flush_clflush, flush_clwb, flush_clflushopt, mm_clflushopt.
  destruct (Func_flush lib); apply flush_loop_shrinks; intros u m0 x;
    unfold mm_clflush, mm_clwb; destruct (in_line u x);
    auto using shrinks_refl, shrinks_flush, shrinks_clflush.
Qed.

Lemma pmem_drain_shrinks lib m x : shrinks (m x) (pmem_drain lib m x).
Proof.
  unfold pmem_drain. destruct (Func_predrain_fence lib); [apply shrinks_refl|apply shrinks_fence].
Qed.

Lemma pmem_persist_spec lib addr len m :
  lib_ok lib -> range_ok addr len ->
  exists m', pmem_persist lib addr len m = Some m' /\
    (forall x, pm_read m' x = pm_read m x) /\
    (forall x, addr <= x < addr + len -> pm_durable m' x) /\
    (forall x, shrinks (m x) (m' x)).
Proof.
  intros Hok Hr. unfold pmem_persist.
  destruct (pmem_flush_spec lib addr len m Hok Hr) as (m1 & E & Hrd & Hfl & _). rewrite E. cbn [mbind option_bind].
  destruct (pmem_drain_spec lib m1) as (Hdr & Hd & _). eexists. split_and!; [done|..].
  - intros x. by rewrite Hdr, Hrd.
  - intros x Hx. by apply Hd, Hfl.
  - intros x. eapply shrinks_trans; [by eapply pmem_flush_shrinks|apply pmem_drain_shrinks].
Qed.

(** [msync] of the pages of a range. *)
Lemma land_lnot_4095 a : Z.land a (Z.lnot (Pagesize - 1)) = a - a mod 4096.
Proof.
  change (Pagesize - 1) with (Z.ones 12). rewrite <- Z.ldiff_land, Z.ldiff_ones_r by lia.
  rewrite Z.shiftr_div_pow2, Z.shiftl_mul_pow2 by lia. change (2 ^ 12) with 4096.
  pose proof (Z.div_mod a 4096). lia.
Qed.

Lemma pmem_msync_spec addr len m :
  0 <= addr -> 0 <= len -> addr + len < 2 ^ 64 ->
  exists m', pmem_msync true addr len m = (0, m') /\
    (forall x, pm_read m' x = pm_read m x) /\
    (forall x, addr <= x < addr + len -> pm_durable m' x) /\
    (forall x, shrinks (m x) (m' x)).
Proof.
  intros Ha Hl Hr. unfold pmem_msync. rewrite land_lnot_4095.
  change (Pagesize - 1) with (Z.ones 12). rewrite Z.land_ones by lia. change (2 ^ 12) with 4096.
  pose proof (Z.mod_pos_bound addr 4096 ltac:(lia)). pose proof (Z.mod_le addr 4096 ltac:(lia) ltac:(lia)).
  rewrite u64_small by lia. eexists. split; [done|]. unfold msync. split_and!; intros x.
  - unfold pm_read at 1. destruct (_ && _); [apply read_cell_clflush|done].
  - intros Hx. unfold pm_durable.
    rewrite (proj2 (Z.leb_le _ _)), (proj2 (Z.ltb_lt _ _)) by lia. simpl. apply drop_all.
  - destruct (_ && _); [apply shrinks_clflush|apply shrinks_refl].
Qed.
