(* ===== verification/LibpmemCopy.v ===== *)
(** * Copying and filling in [nvml/src/libpmem/pmem.c]: proofs

    A copy proceeds through a growing range [lo, hi) that already holds its
    final bytes ([filled]), all of them on their way to the medium ([settled_on],
    both together [placed]).  Every loop of the source extends the range at one
    end; the byte loops leave their part to the flush that follows them. *)

From S2P Require Import Prelude Pmem Libpmem.

(** ** Stores of bytes *)

Lemma read_write_in nt d bs m x v :
  d <= x -> bs !! Z.to_nat (x - d) = Some v -> pm_read (write nt d bs m) x = v.
Proof.
  intros Hx Hv. unfold pm_read, write. rewrite (proj2 (Z.leb_le _ _)), Hv by done.
  destruct nt; simpl; apply List.last_last.
Qed.

Lemma write_out nt d bs m x :
  ~ (d <= x < d + Z.of_nat (length bs)) -> write nt d bs m x = m x.
Proof.
  intros Hx. unfold write. destruct (Z.leb_spec d x); [|done].
  by rewrite lookup_ge_None_2 by lia.
Qed.

Lemma write_nt_settled d bs m x :
  d <= x < d + Z.of_nat (length bs) -> settled (write true d bs m x).
Proof.
  intros Hx. unfold write. rewrite (proj2 (Z.leb_le _ _)) by lia.
  destruct (lookup_lt_is_Some_2 bs (Z.to_nat (x - d))) as [v ->]; [lia|].
  apply settled_flush.
Qed.

Lemma write_ok nt d bs m x : cell_ok (m x) -> cell_ok (write nt d bs m x).
Proof.
  unfold cell_ok, write. intros H. destruct (if d <=? x then _ else None); [|done].
  destruct nt; simpl; rewrite length_app; simpl; lia.
Qed.

Section Fill.
Context (m0 : pmem) (val : Z -> Z).

(** The bytes of [lo, hi) have their final value, the others their first one, and
    nothing of these is less durable than before. *)
Record filled (lo hi : Z) (m : pmem) : Prop := {
  filled_read x : pm_read m x = if decide (lo <= x < hi) then val x else pm_read m0 x;
  filled_rest x : ~ (lo <= x < hi) -> shrinks (m0 x) (m x);
  filled_ok x : cell_ok (m0 x) -> cell_ok (m x);
}.

Definition placed (lo hi : Z) (m : pmem) : Prop := filled lo hi m /\ settled_on lo hi m.

(** The final bytes of [p, p + n). *)
Definition vals (p n : Z) : list Z :=
  (fun i => val (p + Z.of_nat i)) <$> seq 0 (Z.to_nat n).

Lemma vals_length p n : length (vals p n) = Z.to_nat n.
Proof. unfold vals. by rewrite length_fmap, length_seq. Qed.

Lemma vals_lookup p n x :
  p <= x < p + n -> vals p n !! Z.to_nat (x - p) = Some (val x).
Proof.
  intros Hx. unfold vals. rewrite list_lookup_fmap, lookup_seq_lt by lia. simpl.
  do 2 f_equal. lia.
Qed.

Lemma placed_start p : placed p p m0.
Proof.
  split; [|intros x Hx; lia]. split; intros x; [|intros _; apply shrinks_refl|done].
  rewrite decide_False by lia. done.
Qed.

(** A store next to the range extends it, upwards or downwards. *)
Lemma filled_up nt lo hi n m :
  0 <= n -> lo <= hi -> filled lo hi m -> filled lo (hi + n) (write nt hi (vals hi n) m).
Proof.
  intros Hn Hle H. split; intros x.
  - destruct (decide (hi <= x < hi + n)) as [Hx|Hx].
    + rewrite decide_True by lia. apply read_write_in, vals_lookup; lia.
    + unfold pm_read. rewrite write_out by (rewrite vals_length; lia).
      fold (pm_read m x). rewrite (filled_read _ _ _ H). by repeat case_decide; try lia.
  - intros Hx. rewrite write_out by (rewrite vals_length; lia). apply (filled_rest _ _ _ H). lia.
  - intros Hx. by apply write_ok, (filled_ok _ _ _ H).
Qed.

Lemma filled_down nt lo hi n m :
  0 <= n -> lo <= hi -> filled lo hi m ->
  filled (lo - n) hi (write nt (lo - n) (vals (lo - n) n) m).
Proof.
  intros Hn Hle H. split; intros x.
  - destruct (decide (lo - n <= x < lo)) as [Hx|Hx].
    + rewrite decide_True by lia. apply read_write_in, vals_lookup; lia.
    + unfold pm_read. rewrite write_out by (rewrite vals_length; lia).
      fold (pm_read m x). rewrite (filled_read _ _ _ H). by repeat case_decide; try lia.
  - intros Hx. rewrite write_out by (rewrite vals_length; lia). apply (filled_rest _ _ _ H). lia.
  - intros Hx. by apply write_ok, (filled_ok _ _ _ H).
Qed.

Lemma settled_write nt p n lo hi m :
  (hi <= p \/ p + n <= lo) -> 0 <= n ->
  settled_on lo hi m -> settled_on lo hi (write nt p (vals p n) m).
Proof.
  intros Hp Hn H x Hx. rewrite write_out by (rewrite vals_length; lia). by apply H.
Qed.

Lemma settled_nt p n m : 0 <= n -> settled_on p (p + n) (write true p (vals p n) m).
Proof. intros Hn x Hx. apply write_nt_settled. rewrite vals_length. lia. Qed.

Lemma settled_join lo mid hi m :
  settled_on lo mid m -> settled_on mid hi m -> settled_on lo hi m.
Proof. intros H1 H2 x Hx. destruct (decide (x < mid)); [apply H1|apply H2]; lia. Qed.

(** Non-temporal stores keep everything placed. *)
Lemma placed_up lo hi n m :
  0 <= n -> lo <= hi -> placed lo hi m -> placed lo (hi + n) (write true hi (vals hi n) m).
Proof.
  intros Hn Hle [Hf Hs]. split; [by apply filled_up|].
  eapply settled_join; [|by apply settled_nt]. apply settled_write; [lia..|done].
Qed.

Lemma placed_down lo hi n m :
  0 <= n -> lo <= hi -> placed lo hi m ->
  placed (lo - n) hi (write true (lo - n) (vals (lo - n) n) m).
Proof.
  intros Hn Hle [Hf Hs]. split; [by apply filled_down|].
  apply settled_join with (lo - n + n); [by apply settled_nt|].
  replace (lo - n + n) with lo by lia. apply settled_write; [lia..|done].
Qed.

Lemma stream_up lo hi d m :
  d = hi -> d mod 16 = 0 -> lo <= hi -> placed lo hi m ->
  exists m', mm_stream_si128 d (vals d 16) m = Some m' /\ placed lo (hi + 16) m'.
Proof.
  intros -> Hm Hle H. unfold mm_stream_si128. rewrite Hm. eexists. split; [done|].
  by apply placed_up.
Qed.

Lemma stream_down lo hi d m :
  d = lo - 16 -> d mod 16 = 0 -> lo <= hi -> placed lo hi m ->
  exists m', mm_stream_si128 d (vals d 16) m = Some m' /\ placed (lo - 16) hi m'.
Proof.
  intros -> Hm Hle H. unfold mm_stream_si128. rewrite Hm. eexists. split; [done|].
  by apply placed_down.
Qed.

(** The flush of the part the byte loops wrote. *)
Lemma placed_flush lib lo hi a n m :
  lib_ok lib -> range_ok a n -> filled lo hi m ->
  (forall x, lo <= x < hi -> settled (m x) \/ a <= x < a + n) ->
  exists m', pmem_flush lib a n m = Some m' /\ placed lo hi m' /\
    (forall x, a <= x < a + n -> flushed_by lib (m' x)).
Proof.
  intros Hok Hr Hf Hs.
  destruct (pmem_flush_spec lib a n m Hok Hr) as (m' & E & Hrd & Hfl & Hk).
  exists m'. split_and!; [done| |done]. split.
  - pose proof (pmem_flush_shrinks _ _ _ _ _ E) as Hsh. split; intros x; [rewrite Hrd; apply Hf|intros Hx..].
    + eapply shrinks_trans; [by apply (filled_rest _ _ _ Hf)|apply Hsh].
    + by apply (shrinks_values _ _ (Hsh x)), (filled_ok _ _ _ Hf).
  - intros x Hx. destruct (Hs x Hx) as [H|H]; [by apply Hk|].
    by apply flushed_settled with lib, Hfl.
Qed.

(** A fence makes everything placed durable. *)
Lemma placed_fence lo hi m :
  placed lo hi m ->
  filled lo hi (predrain_fence_sfence m) /\
  forall x, lo <= x < hi -> pm_durable (predrain_fence_sfence m) x.
Proof.
  intros [Hf Hs]. split.
  - unfold predrain_fence_sfence, mm_sfence.
    split; intros x; [rewrite pm_read_fence; apply Hf|intros Hx..].
    + eapply shrinks_trans; [by apply (filled_rest _ _ _ Hf)|apply shrinks_fence].
    + by apply (shrinks_values _ _ (shrinks_fence (m x))), (filled_ok _ _ _ Hf).
  - intros x Hx. apply settled_fence, Hs, Hx.
Qed.

End Fill.

(** Two adjacent ranges. *)
Lemma filled_join m0 m m' v v1 v2 lo mid hi :
  lo <= mid <= hi -> filled m0 v1 lo mid m -> filled m v2 mid hi m' ->
  (forall x, lo <= x < mid -> v x = v1 x) -> (forall x, mid <= x < hi -> v x = v2 x) ->
  filled m0 v lo hi m'.
Proof.
  intros Hle H1 H2 E1 E2. split; intros x.
  - rewrite (filled_read _ _ _ _ _ H2), (filled_read _ _ _ _ _ H1).
    repeat case_decide; try lia; try done; [by rewrite E2|by rewrite E1].
  - intros Hx. eapply shrinks_trans; [apply (filled_rest _ _ _ _ _ H1)|apply (filled_rest _ _ _ _ _ H2)]; lia.
  - intros Hx. by apply (filled_ok _ _ _ _ _ H2), (filled_ok _ _ _ _ _ H1).
Qed.

(** ** Lengths in chunks *)

Lemma land_127 n : Z.land n CHUNK_MASK = n mod 128.
Proof. apply (Z.land_ones n 7). lia. Qed.
Lemma land_63 n : Z.land n ALIGN_MASK = n mod 64.
Proof. apply (Z.land_ones n 6). lia. Qed.
Lemma land_15 n : Z.land n MOVNT_MASK = n mod 16.
Proof. apply (Z.land_ones n 4). lia. Qed.
Lemma land_3 n : Z.land n DWORD_MASK = n mod 4.
Proof. apply (Z.land_ones n 2). lia. Qed.
Lemma shiftr_7 n : Z.shiftr n CHUNK_SHIFT = n / 128.
Proof. apply (Z.shiftr_div_pow2 n 7). lia. Qed.
Lemma shiftr_4 n : Z.shiftr n MOVNT_SHIFT = n / 16.
Proof. apply (Z.shiftr_div_pow2 n 4). lia. Qed.
Lemma shiftr_2 n : Z.shiftr n DWORD_SHIFT = n / 4.
Proof. apply (Z.shiftr_div_pow2 n 2). lia. Qed.

Create Rewrite HintDb masks.
#[export] Hint Rewrite land_127 land_63 land_15 land_3 shiftr_7 shiftr_4 shiftr_2 : masks.

(** [lia] with the defining equations of division and remainder. *)
Ltac div_lia := Z.to_euclidean_division_equations; lia.

Lemma if_zero_div n : (if n =? 0 then 0 else n / 16) = n / 16.
Proof. by destruct (Z.eqb_spec n 0) as [->|]. Qed.

(** ** Copies *)

Section Copy.
Context (m0 : pmem) (dest src len : Z).

Local Abbreviation val := (fun x => pm_read m0 (x - dest + src)).

(** Loads see the first bytes as long as they stay clear of what is filled. *)
Lemma load_vals lo hi m p s n :
  filled m0 val lo hi m -> s = p - dest + src ->
  (forall x, p <= x < p + n -> ~ (lo <= x - dest + src < hi)) ->
  load m s n = vals val p n.
Proof.
  intros Hf -> Hc. unfold load, vals. apply list_fmap_ext. intros i k Hk.
  apply lookup_seq in Hk as [-> Hk]. simpl. rewrite (filled_read _ _ _ _ _ Hf), decide_False.
  - f_equal. lia.
  - replace (p - dest + src + Z.of_nat i) with (p + Z.of_nat i - dest + src) by lia.
    apply Hc. lia.
Qed.

(** *** Upwards *)

Section Up.
Context (Hup : dest < src \/ src + len <= dest).

Lemma load_up p s n m :
  filled m0 val dest p m -> s = p - dest + src -> dest <= p -> p + n <= dest + len ->
  load m s n = vals val p n.
Proof. intros Hf -> Hp Hn. eapply load_vals; [done..|]. intros x Hx. lia. Qed.

Lemma copy_bytes_up n p s m :
  filled m0 val dest p m -> settled_on dest p m -> s = p - dest + src -> dest <= p ->
  p + Z.of_nat n <= dest + len ->
  filled m0 val dest (p + Z.of_nat n) (copy_bytes n p s m) /\
  settled_on dest p (copy_bytes n p s m).
Proof.
  intros Hf Hs. assert (H : forall q, settled_on dest q m -> q <= p -> s = p - dest + src ->
    dest <= p -> p + Z.of_nat n <= dest + len ->
    filled m0 val dest (p + Z.of_nat n) (copy_bytes n p s m) /\
    settled_on dest q (copy_bytes n p s m)); [|intros; by apply H].
  intros q. clear Hs. revert p s m Hf. induction n as [|n IH]; intros p s m Hf Hs Hq Es Hp Hn.
  { simpl. by rewrite Z.add_0_r. }
  cbn [copy_bytes]. rewrite (load_up p) by (done || lia).
  replace (p + Z.of_nat (S n)) with (p + 1 + Z.of_nat n) by lia.
  apply IH; try lia; [apply filled_up; (done || lia)|apply settled_write; (done || lia)].
Qed.

Lemma copy_16_up n p s m :
  placed m0 val dest p m -> p mod 16 = 0 -> s = p - dest + src -> dest <= p ->
  p + 16 * Z.of_nat n <= dest + len ->
  exists m', copy_16 n p s m = Some m' /\ placed m0 val dest (p + 16 * Z.of_nat n) m'.
Proof.
  revert p s m. induction n as [|n IH]; intros p s m Hpl Hm Es Hp Hn.
  { exists m. by rewrite Z.add_0_r. }
  cbn [copy_16]. unfold MOVNT_SIZE. rewrite (load_up p) by (apply Hpl || lia).
  destruct (stream_up m0 val dest p p m) as (m1 & -> & H1); [done..|]. simpl.
  replace (p + 16 * Z.of_nat (S n)) with (p + 16 + 16 * Z.of_nat n) by lia.
  apply IH; (done || div_lia).
Qed.

Lemma copy_4_up n p s m :
  placed m0 val dest p m -> s = p - dest + src -> dest <= p ->
  p + 4 * Z.of_nat n <= dest + len ->
  placed m0 val dest (p + 4 * Z.of_nat n) (copy_4 n p s m).
Proof.
  revert p s m. induction n as [|n IH]; intros p s m Hpl Es Hp Hn.
  { simpl. by rewrite Z.add_0_r. }
  cbn [copy_4]. unfold DWORD_SIZE, mm_stream_si32. rewrite (load_up p) by (apply Hpl || lia).
  replace (p + 4 * Z.of_nat (S n)) with (p + 4 + 4 * Z.of_nat n) by lia.
  apply IH; try lia. apply placed_up; (done || lia).
Qed.

Lemma chunk_up p s m :
  placed m0 val dest p m -> p mod 16 = 0 -> s = p - dest + src -> dest <= p ->
  p + 128 <= dest + len ->
  exists m', chunk (fun i => MOVNT_SIZE * i) p s m = Some m' /\ placed m0 val dest (p + 128) m'.
Proof.
  intros Hpl Hm Es Hp Hn. unfold chunk, MOVNT_SIZE.
  assert (L : forall i, 0 <= i <= 7 ->
    load m (s + 16 * i) 16 = vals val (p + 16 * i) 16).
  { intros i Hi. eapply load_vals; [apply Hpl|lia|]. intros x Hx. lia. }
  rewrite !L by lia. clear L.
  do 8 match goal with
  | H : placed _ _ _ ?hi ?m |- context [mm_stream_si128 ?d _ ?m] =>
      let m' := fresh "m" in let E := fresh "E" in let H' := fresh "H" in
      destruct (stream_up m0 val dest hi d m) as (m' & E & H');
        [lia|div_lia|lia|done|]; rewrite E; clear E H; cbn [mbind option_bind]
  end.
  eexists. split; [done|]. by replace (p + 128) with (p+16+16+16+16+16+16+16+16) by lia.
Qed.

Lemma copy_chunks_up n p s m :
  placed m0 val dest p m -> p mod 16 = 0 -> s = p - dest + src -> dest <= p ->
  p + 128 * Z.of_nat n <= dest + len ->
  exists m', copy_chunks n p s m = Some m' /\ placed m0 val dest (p + 128 * Z.of_nat n) m'.
Proof.
  revert p s m. induction n as [|n IH]; intros p s m Hpl Hm Es Hp Hn.
  { exists m. by rewrite Z.add_0_r. }
  cbn [copy_chunks]. destruct (chunk_up p s m) as (m1 & -> & H1); [done || lia..|]. simpl.
  replace (p + 128 * Z.of_nat (S n)) with (p + 128 + 128 * Z.of_nat n) by lia.
  unfold CHUNK_SIZE. apply IH; (done || div_lia).
Qed.

Lemma forward_tail_ok lib p s n m :
  lib_ok lib -> range_ok dest len ->
  placed m0 val dest p m -> s = p - dest + src -> dest <= p -> p + n = dest + len ->
  0 <= n -> n = 0 \/ p mod 16 = 0 ->
  exists m', forward_tail lib p s n m = Some m' /\ placed m0 val dest (dest + len) m'.
Proof.
  intros Hok Hr Hpl Es Hp Hn Hpos [->|Hm].
  { exists m. split; [done|]. by rewrite <- Hn, Z.add_0_r. }
  unfold forward_tail. autorewrite with masks. rewrite if_zero_div.
  destruct (copy_chunks_up (Z.to_nat (n / 128)) p s m) as (m1 & -> & H1); [done || div_lia..|].
  cbn [mbind option_bind]. unfold CHUNK_SIZE, MOVNT_SIZE, DWORD_SIZE in *.
  rewrite Z2Nat.id in H1 by div_lia.
  destruct (copy_16_up (Z.to_nat (n mod 128 / 16)) (p + 128 * (n / 128))
    (s + 128 * (n / 128)) m1) as (m2 & -> & H2); [done || div_lia..|].
  cbn [mbind option_bind]. rewrite Z2Nat.id in H2 by div_lia.
  destruct (Z.eqb_spec (n mod 128 mod 16) 0) as [Hz|Hz].
  { exists m2. split; [done|]. by replace (dest + len)
      with (p + 128 * (n / 128) + 16 * (n mod 128 / 16)) by div_lia. }
  set (q := n mod 128 mod 16) in *. set (p2 := p + 128 * (n / 128) + 16 * (n mod 128 / 16)) in *.
  set (s2 := s + 128 * (n / 128) + 16 * (n mod 128 / 16)).
  assert (Es2 : s2 = p2 - dest + src) by (unfold s2, p2; lia).
  assert (Hp2 : dest <= p2 /\ p2 + q = dest + len /\ 0 <= q) by (unfold p2, q; div_lia).
  clearbody q p2 s2.
  pose proof (copy_4_up (Z.to_nat (q / 4)) p2 s2 m2) as H3.
  rewrite Z2Nat.id in H3 by div_lia. destruct H3 as [Hf Hs]; [done || div_lia..|].
  destruct (copy_bytes_up (Z.to_nat (q mod 4)) (p2 + 4 * (q / 4)) (s2 + 4 * (q / 4))
    (copy_4 (Z.to_nat (q / 4)) p2 s2 m2)) as [Hf' Hs']; [done || div_lia..|].
  rewrite Z2Nat.id in Hf' by div_lia.
  replace (p2 + 4 * (q / 4) + q mod 4) with (dest + len) in Hf' by div_lia.
  edestruct (placed_flush m0 val lib dest (dest + len) (p2 + 4 * (q / 4)) (q mod 4))
    as (m' & E & Hm' & _); [done| |exact Hf'| |by eauto].
  - unfold range_ok in *. div_lia.
  - intros x Hx. destruct (decide (x < p2 + 4 * (q / 4))); [left; apply Hs'; lia|right; div_lia].
Qed.

Lemma forward_head_ok lib :
  lib_ok lib -> range_ok dest len -> 
  exists p s n m', forward_head lib dest src len m0 = Some (p, s, n, m') /\
    placed m0 val dest p m' /\ s = p - dest + src /\ dest <= p /\ p + n = dest + len /\
    0 <= n /\ (n = 0 \/ p mod 16 = 0).
Proof.
  intros Hok Hr. unfold forward_head. autorewrite with masks.
  destruct (Z.ltb_spec 0 (dest mod 64)) as [Hc|Hc].
  2:{ do 4 eexists. split; [done|]. unfold range_ok in *.
      split_and!; [apply placed_start|lia..|div_lia]. }
  set (cnt := if len <? _ then _ else _).
  assert (Hcnt : 0 <= cnt <= len /\ (cnt = len \/ (dest + cnt) mod 16 = 0)).
  { unfold cnt, FLUSH_ALIGN, range_ok in *. destruct (Z.ltb_spec len (64 - dest mod 64)); div_lia. }
  clearbody cnt.
  destruct (copy_bytes_up (Z.to_nat cnt) dest src m0) as [Hf Hs];
    [apply placed_start|apply (placed_start m0 val)|lia..|].
  rewrite Z2Nat.id in Hf by lia.
  edestruct (placed_flush m0 val lib dest (dest + cnt) dest cnt) as (m' & E & Hm' & _);
    [done|unfold range_ok in *; lia|exact Hf|by intros; right|].
  rewrite E. cbn [mbind option_bind]. do 4 eexists. split; [done|].
  split_and!; [done|lia..|]. destruct Hcnt as [? [->|]]; [left; lia|by right].
Qed.

End Up.
(** *** Downwards *)

Section Down.
Context (Hdown : src < dest).

Local Abbreviation top := (dest + len).

Lemma load_down p s n m :
  filled m0 val (p + n) top m -> s = p - dest + src -> load m s n = vals val p n.
Proof. intros Hf ->. eapply load_vals; [done..|]. intros x Hx. lia. Qed.

Lemma copy_bytes_down n p s m q :
  filled m0 val p top m -> settled_on q top m -> p <= q -> s = p - dest + src -> p <= top ->
  filled m0 val (p - Z.of_nat n) top (copy_bytes_back n p s m) /\
  settled_on q top (copy_bytes_back n p s m).
Proof.
  revert p s m. induction n as [|n IH]; intros p s m Hf Hs Hq Es Hp.
  { simpl. by rewrite Z.sub_0_r. }
  cbn [copy_bytes_back]. rewrite (load_down (p - 1)); [|by replace (p - 1 + 1) with p by lia|lia].
  replace (p - Z.of_nat (S n)) with (p - 1 - Z.of_nat n) by lia.
  apply IH; try lia; [apply filled_down; (done || lia)|apply settled_write; (done || lia)].
Qed.

Lemma copy_16_down n p s m :
  placed m0 val p top m -> p mod 16 = 0 -> s = p - dest + src -> p <= top ->
  exists m', copy_16_back n p s m = Some m' /\ placed m0 val (p - 16 * Z.of_nat n) top m'.
Proof.
  revert p s m. induction n as [|n IH]; intros p s m Hpl Hm Es Hp.
  { exists m. by rewrite Z.sub_0_r. }
  cbn [copy_16_back]. unfold MOVNT_SIZE.
  rewrite (load_down (p - 16)); [|replace (p - 16 + 16) with p by lia; apply Hpl|lia].
  destruct (stream_down m0 val p top (p - 16) m) as (m1 & -> & H1); [done || div_lia..|]. simpl.
  replace (p - 16 * Z.of_nat (S n)) with (p - 16 - 16 * Z.of_nat n) by lia.
  apply IH; (done || div_lia).
Qed.

Lemma copy_4_down n p s m :
  placed m0 val p top m -> s = p - dest + src -> p <= top ->
  placed m0 val (p - 4 * Z.of_nat n) top (copy_4_back n p s m).
Proof.
  revert p s m. induction n as [|n IH]; intros p s m Hpl Es Hp.
  { simpl. by rewrite Z.sub_0_r. }
  cbn [copy_4_back]. unfold DWORD_SIZE, mm_stream_si32.
  rewrite (load_down (p - 4)); [|replace (p - 4 + 4) with p by lia; apply Hpl|lia].
  replace (p - 4 * Z.of_nat (S n)) with (p - 4 - 4 * Z.of_nat n) by lia.
  apply IH; try lia. apply placed_down; (done || lia).
Qed.

Lemma chunk_down p s m :
  placed m0 val p top m -> p mod 16 = 0 -> s = p - dest + src -> p <= top ->
  exists m', chunk (fun i => - (MOVNT_SIZE * (i + 1))) p s m = Some m' /\
    placed m0 val (p - 128) top m'.
Proof.
  intros Hpl Hm Es Hp. unfold chunk, MOVNT_SIZE.
  assert (L : forall i, 0 <= i <= 7 ->
    load m (s + - (16 * (i + 1))) 16 = vals val (p + - (16 * (i + 1))) 16).
  { intros i Hi. eapply load_vals; [apply Hpl|lia|]. intros x Hx. lia. }
  rewrite !L by lia. clear L.
  do 8 match goal with
  | H : placed _ _ ?lo _ ?m |- context [mm_stream_si128 ?d _ ?m] =>
      let m' := fresh "m" in let E := fresh "E" in let H' := fresh "H" in
      destruct (stream_down m0 val lo top d m) as (m' & E & H');
        [lia|div_lia|lia|done|]; rewrite E; clear E H; cbn [mbind option_bind]
  end.
  eexists. split; [done|]. by replace (p - 128) with (p-16-16-16-16-16-16-16-16) by lia.
Qed.

Lemma copy_chunks_down n p s m :
  placed m0 val p top m -> p mod 16 = 0 -> s = p - dest + src -> p <= top ->
  exists m', copy_chunks_back n p s m = Some m' /\ placed m0 val (p - 128 * Z.of_nat n) top m'.
Proof.
  revert p s m. induction n as [|n IH]; intros p s m Hpl Hm Es Hp.
  { exists m. by rewrite Z.sub_0_r. }
  cbn [copy_chunks_back]. destruct (chunk_down p s m) as (m1 & -> & H1); [done || lia..|]. simpl.
  replace (p - 128 * Z.of_nat (S n)) with (p - 128 - 128 * Z.of_nat n) by lia.
  unfold CHUNK_SIZE. apply IH; (done || div_lia).
Qed.

Lemma backward_tail_ok lib p s n m :
  lib_ok lib -> range_ok dest len ->
  placed m0 val p top m -> s = p - dest + src -> p <= top -> p - n = dest ->
  0 <= n -> n = 0 \/ p mod 16 = 0 ->
  exists m', backward_tail lib p s n m = Some m' /\ placed m0 val dest top m'.
Proof.
  intros Hok Hr Hpl Es Hp Hn Hpos [->|Hm].
  { exists m. split; [done|]. by rewrite Z.sub_0_r in Hn; subst p. }
  unfold backward_tail. autorewrite with masks. rewrite if_zero_div.
  destruct (copy_chunks_down (Z.to_nat (n / 128)) p s m) as (m1 & -> & H1); [done || div_lia..|].
  cbn [mbind option_bind]. unfold CHUNK_SIZE, MOVNT_SIZE, DWORD_SIZE in *.
  rewrite Z2Nat.id in H1 by div_lia.
  destruct (copy_16_down (Z.to_nat (n mod 128 / 16)) (p - 128 * (n / 128))
    (s - 128 * (n / 128)) m1) as (m2 & -> & H2); [done || div_lia..|].
  cbn [mbind option_bind]. rewrite Z2Nat.id in H2 by div_lia.
  destruct (Z.eqb_spec (n mod 128 mod 16) 0) as [Hz|Hz].
  { exists m2. split; [done|]. by replace (p - 128 * (n / 128) - 16 * (n mod 128 / 16))
      with dest in H2 by div_lia. }
  set (q := n mod 128 mod 16) in *. set (p2 := p - 128 * (n / 128) - 16 * (n mod 128 / 16)) in *.
  set (s2 := s - 128 * (n / 128) - 16 * (n mod 128 / 16)).
  assert (Es2 : s2 = p2 - dest + src) by (unfold s2, p2; lia).
  assert (Hp2 : p2 <= top /\ p2 - q = dest /\ 0 <= q) by (unfold p2, q; div_lia).
  clearbody q p2 s2.
  pose proof (copy_4_down (Z.to_nat (q / 4)) p2 s2 m2) as H3.
  rewrite Z2Nat.id in H3 by div_lia. destruct H3 as [Hf Hs]; [done || div_lia..|].
  destruct (copy_bytes_down (Z.to_nat (q mod 4)) (p2 - 4 * (q / 4)) (s2 - 4 * (q / 4))
    (copy_4_back (Z.to_nat (q / 4)) p2 s2 m2) (p2 - 4 * (q / 4))) as [Hf' Hs'];
    [done || div_lia..|].
  rewrite Z2Nat.id in Hf' by div_lia.
  replace (p2 - 4 * (q / 4) - q mod 4) with dest in Hf' |- * by div_lia.
  edestruct (placed_flush m0 val lib dest top dest (q mod 4))
    as (m' & E & Hm' & _); [done| |exact Hf'| |by eauto].
  - unfold range_ok in *. div_lia.
  - intros x Hx. destruct (decide (x < p2 - 4 * (q / 4))); [right; div_lia|left; apply Hs'; lia].
Qed.

Lemma backward_head_ok lib :
  lib_ok lib -> range_ok dest len ->
  exists p s n m', backward_head lib top (src + len) len m0 = Some (p, s, n, m') /\
    placed m0 val p top m' /\ s = p - dest + src /\ p <= top /\ p - n = dest /\
    0 <= n /\ (n = 0 \/ p mod 16 = 0).
Proof.
  intros Hok Hr. unfold backward_head. autorewrite with masks.
  destruct (Z.ltb_spec 0 (top mod 64)) as [Hc|Hc].
  2:{ do 4 eexists. split; [done|]. unfold range_ok in *.
      split_and!; [apply placed_start|lia..|div_lia]. }
  set (cnt := if len <? _ then _ else _).
  assert (Hcnt : 0 <= cnt <= len /\ (cnt = len \/ (top - cnt) mod 16 = 0)).
  { unfold cnt, range_ok in *. destruct (Z.ltb_spec len (top mod 64)); div_lia. }
  clearbody cnt.
  destruct (copy_bytes_down (Z.to_nat cnt) top (src + len) m0 top) as [Hf Hs];
    [apply placed_start|apply (placed_start m0 val)|lia..|].
  rewrite Z2Nat.id in Hf by lia.
  edestruct (placed_flush m0 val lib (top - cnt) top (top - cnt) cnt) as (m' & E & Hm' & _);
    [done|unfold range_ok in *; lia|exact Hf|intros; right; lia|].
  rewrite E. cbn [mbind option_bind]. do 4 eexists. split; [done|].
  split_and!; [done|lia..|]. destruct Hcnt as [? [->|]]; [left; lia|by right].
Qed.

End Down.
End Copy.

(** ** Fills *)

Section Set_.
Context (m0 : pmem) (dest c len : Z).

Local Abbreviation v := (c mod 256).
Local Abbreviation val := (fun _ : Z => v).

Lemma vals_const p n : vals val p n = replicate (Z.to_nat n) v.
Proof.
  unfold vals. generalize 0%nat. induction (Z.to_nat n) as [|k IH]; intros i; [done|].
  simpl. f_equal. apply IH.
Qed.

Lemma set_chunks_ok n p m :
  placed m0 val dest p m -> p mod 16 = 0 -> dest <= p ->
  exists m', set_chunks n p v m = Some m' /\ placed m0 val dest (p + 128 * Z.of_nat n) m'.
Proof.
  revert p m. induction n as [|n IH]; intros p m Hpl Hm Hp.
  { exists m. by rewrite Z.add_0_r. }
  cbn [set_chunks]. unfold MOVNT_SIZE, CHUNK_SIZE.
  do 8 match goal with
  | H : placed _ _ _ ?hi ?m |- context [mm_stream_si128 ?d _ ?m] =>
      let m' := fresh "m" in let E := fresh "E" in let H' := fresh "H" in
      destruct (stream_up m0 val dest hi d m) as (m' & E & H');
        [lia|div_lia|lia|done|]; rewrite vals_const in E;
        change (Z.to_nat 16) with 16%nat in E; rewrite E; clear E H; cbn [mbind option_bind]
  end.
  replace (p + 128 * Z.of_nat (S n)) with (p + 128 + 128 * Z.of_nat n) by lia.
  apply IH; [|div_lia..]. by replace (p + 128) with (p+16+16+16+16+16+16+16+16) by lia.
Qed.

Lemma set_16_ok n p m :
  placed m0 val dest p m -> p mod 16 = 0 -> dest <= p ->
  exists m', set_16 n p v m = Some m' /\ placed m0 val dest (p + 16 * Z.of_nat n) m'.
Proof.
  revert p m. induction n as [|n IH]; intros p m Hpl Hm Hp.
  { exists m. by rewrite Z.add_0_r. }
  cbn [set_16]. destruct (stream_up m0 val dest p p m) as (m1 & E & H1); [done..|].
  rewrite vals_const in E. change (Z.to_nat 16) with 16%nat in E. rewrite E. simpl.
  replace (p + 16 * Z.of_nat (S n)) with (p + 16 + 16 * Z.of_nat n) by lia.
  apply IH; unfold MOVNT_SIZE; (done || div_lia).
Qed.

Lemma set_4_ok n p m :
  placed m0 val dest p m -> dest <= p ->
  placed m0 val dest (p + 4 * Z.of_nat n) (set_4 n p v m).
Proof.
  revert p m. induction n as [|n IH]; intros p m Hpl Hp.
  { simpl. by rewrite Z.add_0_r. }
  cbn [set_4]. unfold mm_stream_si32, DWORD_SIZE.
  replace (p + 4 * Z.of_nat (S n)) with (p + 4 + 4 * Z.of_nat n) by lia.
  apply IH; [|lia]. rewrite <- (vals_const p 4 : _ = replicate 4 v). apply placed_up; (done || lia).
Qed.

(** [memset] of the C library and the flush that follows it. *)
Lemma memset_flush_ok lib p n m :
  lib_ok lib -> range_ok p n -> dest <= p -> placed m0 val dest p m ->
  exists m', pmem_flush lib p n (memset p c n m) = Some m' /\ placed m0 val dest (p + n) m' /\
    (forall x, p <= x < p + n -> flushed_by lib (m' x)).
Proof.
  intros Hok Hr Hp [Hf Hs]. pose proof Hr as (? & Hn & _). unfold memset.
  rewrite <- (vals_const p n). apply placed_flush; [done..|by apply filled_up|].
  intros x Hx. destruct (decide (x < p)); [left|right; lia].
  apply (settled_write val false p n dest p m); (done || lia).
Qed.

Lemma memset_tail_ok lib p n m :
  lib_ok lib -> range_ok dest len -> placed m0 val dest p m -> dest <= p ->
  p + n = dest + len -> 0 <= n -> n = 0 \/ p mod 16 = 0 ->
  exists m', memset_tail lib p c n m = Some m' /\ placed m0 val dest (dest + len) m'.
Proof.
  intros Hok Hr Hpl Hp Hn Hpos [->|Hm].
  { exists m. split; [done|]. by rewrite <- Hn, Z.add_0_r. }
  unfold memset_tail. autorewrite with masks. rewrite if_zero_div.
  unfold CHUNK_SIZE, MOVNT_SIZE, DWORD_SIZE.
  destruct (set_chunks_ok (Z.to_nat (n / 128)) p m) as (m1 & -> & H1); [done || lia..|].
  cbn [mbind option_bind]. rewrite Z2Nat.id in H1 by div_lia.
  destruct (set_16_ok (Z.to_nat (n mod 128 / 16)) (p + 128 * (n / 128)) m1)
    as (m2 & -> & H2); [done || div_lia..|].
  cbn [mbind option_bind]. rewrite Z2Nat.id in H2 by div_lia.
  set (q := n mod 128 mod 16) in *. set (p2 := p + 128 * (n / 128) + 16 * (n mod 128 / 16)) in *.
  assert (Hp2 : dest <= p2 /\ p2 + q = dest + len /\ 0 <= q) by (unfold p2, q; div_lia).
  clearbody q p2. destruct (Z.eqb_spec q 0) as [->|Hq].
  { exists m2. split; [done|]. replace (dest + len) with p2 by lia. done. }
  pose proof (set_4_ok (Z.to_nat (q / 4)) p2 m2 H2) as H3. rewrite Z2Nat.id in H3 by div_lia.
  destruct (Z.eqb_spec (q mod 4) 0) as [Hq4|Hq4].
  { eexists. split; [done|]. replace (dest + len) with (p2 + 4 * (q / 4)) by div_lia.
    apply H3. lia. }
  destruct (memset_flush_ok lib (p2 + 4 * (q / 4)) (q mod 4) (set_4 (Z.to_nat (q / 4)) p2 v m2))
    as (m' & -> & H4 & _); [done|unfold range_ok in *; div_lia|div_lia|apply H3; lia|].
  exists m'. split; [done|]. by replace (dest + len) with (p2 + 4 * (q / 4) + q mod 4) by div_lia.
Qed.

Lemma memset_head_ok lib :
  lib_ok lib -> range_ok dest len ->
  exists p n m', memset_head lib dest c len m0 = Some (p, n, m') /\
    placed m0 val dest p m' /\ dest <= p /\ p + n = dest + len /\
    0 <= n /\ (n = 0 \/ p mod 16 = 0).
Proof.
  intros Hok Hr. unfold memset_head. autorewrite with masks.
  destruct (Z.eqb_spec (dest mod 64) 0) as [Hc|Hc].
  { do 3 eexists. split; [done|]. unfold range_ok in *.
    split_and!; [apply placed_start|lia..|div_lia]. }
  set (cnt := if len <? _ then _ else _).
  assert (Hcnt : 0 <= cnt <= len /\ (cnt = len \/ (dest + cnt) mod 16 = 0)).
  { unfold cnt, FLUSH_ALIGN, range_ok in *. destruct (Z.ltb_spec len (64 - dest mod 64)); div_lia. }
  clearbody cnt.
  destruct (memset_flush_ok lib dest cnt m0) as (m' & -> & Hm' & _);
    [done|unfold range_ok in *; lia|lia|apply placed_start|].
  cbn [mbind option_bind]. do 3 eexists. split; [done|].
  split_and!; [done|lia..|]. destruct Hcnt as [? [->|]]; [left; lia|by right].
Qed.

End Set_.

(** ** The library functions *)

Section Library.
Context (lib : libpmem) (Hok : lib_ok lib).

Lemma durable_flushed c : c_pending c = [] -> flushed_by lib c.
Proof. intros H. unfold flushed_by. destruct (Func_predrain_fence lib); auto using pending_settled. Qed.

(** A flushed byte stays so. *)
Lemma flushed_shrinks c c' : cell_ok c -> flushed_by lib c -> shrinks c c' -> flushed_by lib c'.
Proof.
  intros Hc Hf Hs. unfold flushed_by, settled in *. destruct (Func_predrain_fence lib).
  - by apply (shrinks_durable _ _ Hs).
  - destruct (shrinks_values _ _ Hs Hc) as (_ & k & E & Hk & Hfl).
    rewrite (drop_values_length _ _ _ E Hk). lia.
Qed.

(** The end of the non-temporal paths. *)
Lemma placed_fence_flushed m0 val lo hi m :
  placed m0 val lo hi m ->
  filled m0 val lo hi (predrain_fence_sfence m) /\
  forall x, lo <= x < hi -> flushed_by lib (predrain_fence_sfence m x).
Proof.
  intros H. destruct (placed_fence _ _ _ _ _ H) as [Hf Hd]. split; [done|].
  intros x Hx. by apply durable_flushed, Hd.
Qed.

(** [memmove] of the C library and the flush that follows it. *)
Lemma memmove_flush_ok dest src len m :
  range_ok dest len ->
  exists m', pmem_flush lib dest len (memmove dest src len m) = Some m' /\
    filled m (fun x => pm_read m (x - dest + src)) dest (dest + len) m' /\
    forall x, dest <= x < dest + len -> flushed_by lib (m' x).
Proof.
  intros Hr. pose proof Hr as (_ & Hn & _). unfold memmove.
  rewrite (load_vals m dest src dest dest m dest) by (apply placed_start || lia).
  edestruct (placed_flush m (fun x => pm_read m (x - dest + src)) lib dest (dest + len) dest len)
    as (m' & E & [Hf _] & Hfl); [done|done| | |by eauto].
  - apply filled_up; [lia..|apply placed_start].
  - by intros; right.
Qed.

(** [memmove] alone. *)
Lemma memmove_filled dest src len m :
  0 <= len -> filled m (fun x => pm_read m (x - dest + src)) dest (dest + len) (memmove dest src len m).
Proof.
  intros Hn. unfold memmove.
  rewrite (load_vals m dest src dest dest m dest) by (apply placed_start || lia).
  apply filled_up; [lia..|apply placed_start].
Qed.

Lemma pmem_memmove_nodrain_ok dest src len m :
  range_ok dest len -> 0 <= src -> src + len <= 2 ^ 64 ->
  Func_movnt lib = false \/ src <> dest ->
  exists m', pmem_memmove_nodrain lib dest src len m = Some m' /\
    filled m (fun x => pm_read m (x - dest + src)) dest (dest + len) m' /\
    forall x, dest <= x < dest + len -> flushed_by lib (m' x).
Proof.
  intros Hr Hs0 Hs1 Hne. pose proof Hr as (Hd0 & Hn & Hd1). unfold pmem_memmove_nodrain.
  destruct (Func_movnt lib) eqn:Em; [|by apply memmove_flush_ok].
  destruct Hne as [|Hne]; [done|]. unfold memmove_nodrain_movnt.
  destruct (Z.eqb_spec len 0) as [->|Hlen].
  { exists m. split; [done|]. split; [|intros; lia].
    rewrite Z.add_0_r. apply placed_start. }
  rewrite (proj2 (Z.eqb_neq src dest)) by done. cbn [orb].
  destruct (len <? Movnt_threshold lib); [by apply memmove_flush_ok|].
  destruct (Z.leb_spec len (u64 (dest - src))) as [Hfw|Hbw].
  - assert (Hup : dest < src \/ src + len <= dest).
    { destruct (decide (dest < src)); [by left|right]. rewrite u64_small in Hfw; lia. }
    destruct (forward_head_ok m dest src len Hup lib) as (p & s & n & m1 & -> & Hh); [done..|].
    cbn [mbind option_bind].
    destruct (forward_tail_ok m dest src len Hup lib p s n m1) as (m' & -> & Hm'); try tauto.
    eexists. split; [done|]. by apply placed_fence_flushed.
  - assert (Hdown : src < dest).
    { destruct (decide (src < dest)) as [|Hge]; [done|exfalso].
      unfold u64 in Hbw. rewrite <- (Z_mod_plus_full _ 1), Z.mod_small in Hbw; lia. }
    destruct (backward_head_ok m dest src len Hdown lib) as (p & s & n & m1 & -> & Hh); [done..|].
    cbn [mbind option_bind].
    destruct (backward_tail_ok m dest src len Hdown lib p s n m1) as (m' & -> & Hm'); try tauto.
    eexists. split; [done|]. by apply placed_fence_flushed.
Qed.

Lemma pmem_memset_nodrain_ok dest c len m :
  range_ok dest len ->
  exists m', pmem_memset_nodrain lib dest c len m = Some m' /\
    filled m (fun _ => c mod 256) dest (dest + len) m' /\
    forall x, dest <= x < dest + len -> flushed_by lib (m' x).
Proof.
  intros Hr.
  assert (Hsmall : exists m', pmem_flush lib dest len (memset dest c len m) = Some m' /\
    filled m (fun _ => c mod 256) dest (dest + len) m' /\
    forall x, dest <= x < dest + len -> flushed_by lib (m' x)).
  { destruct (memset_flush_ok m dest c lib dest len m) as (m' & E & [Hf _] & Hfl);
      [done|done|lia|apply placed_start|eauto]. }
  unfold pmem_memset_nodrain. destruct (Func_movnt lib); [|done].
  unfold memset_nodrain_movnt. destruct (len <? Movnt_threshold lib); [done|].
  destruct (memset_head_ok m dest c len lib) as (p & n & m1 & -> & Hh); [done..|].
  cbn [mbind option_bind].
  destruct (memset_tail_ok m dest c len lib p n m1) as (m' & -> & Hm'); try tauto.
  cbn [mbind option_bind]. eexists. split; [done|]. by apply placed_fence_flushed.
Qed.

Lemma filled_drain m0 val lo hi m :
  filled m0 val lo hi m -> filled m0 val lo hi (pmem_drain lib m).
Proof.
  intros Hf. destruct (pmem_drain_spec lib m) as (Hr & _ & _).
  split; intros x; [rewrite Hr; apply Hf|intros Hx..].
  - eapply shrinks_trans; [by apply (filled_rest _ _ _ _ _ Hf)|apply pmem_drain_shrinks].
  - by apply (shrinks_values _ _ (pmem_drain_shrinks lib m x)), (filled_ok _ _ _ _ _ Hf).
Qed.

(** What a drain makes of a range that is filled and flushed. *)
Lemma drain_filled m0 val lo hi m :
  filled m0 val lo hi m -> (forall x, lo <= x < hi -> flushed_by lib (m x)) ->
  filled m0 val lo hi (pmem_drain lib m) /\
  (forall image x, pm_crash (pmem_drain lib m) image -> lo <= x < hi -> image x = val x).
Proof.
  intros Hf Hfl. destruct (pmem_drain_spec lib m) as (Hr & Hd & _).
  assert (Hf' : filled m0 val lo hi (pmem_drain lib m)) 
    by (by apply filled_drain).
  split; [done|]. intros image x Hc Hx.
  rewrite (pm_durable_crash _ _ _ (Hd x (Hfl x Hx)) Hc), (filled_read _ _ _ _ _ Hf'). by rewrite decide_True.
Qed.

End Library.

(** ** Properties *)

(** Whatever the processor and the environment make the library select
    (clflush, clflushopt or clwb, with or without a fence in the drain),
    [pmem_persist] terminates, changes no value, and every crash after it leaves
    the current value of every byte of its range. *)
Theorem pmem_persist_durable c addr len m :
  range_ok addr len ->
  exists m', pmem_persist (pmem_init c) addr len m = Some m' /\
    (forall x, pm_read m' x = pm_read m x) /\
    (forall image x, pm_crash m' image -> addr <= x < addr + len -> image x = pm_read m x).
Proof.
  intros Hr. pose proof (pmem_init_ok c) as Hok. unfold pmem_persist.
  destruct (pmem_flush_spec _ addr len m Hok Hr) as (m' & -> & Hrd & Hfl & _).
  cbn [mbind option_bind]. destruct (pmem_drain_spec (pmem_init c) m') as (Hdr & Hd & _).
  eexists. split_and!; [done|intros x; by rewrite Hdr, Hrd|].
  intros image x Hc Hx. by rewrite (pm_durable_crash _ _ _ (Hd x (Hfl x Hx)) Hc), Hdr, Hrd.
Qed.

(** C14: [pmem_memmove_persist], in every configuration, for every alignment,
    length, threshold and overlap, does not fault, moves the bytes the source had
    before the call and changes no other byte.  If source and destination differ, or
    the library does not use non-temporal stores, every crash after it leaves the
    moved bytes at the destination.  In the remaining case, a move onto itself with
    non-temporal stores, it flushes nothing: the memory is as after a drain. *)
Theorem pmem_memmove_persist_correct c dest src len m :
  range_ok dest len -> 0 <= src -> src + len <= 2 ^ 64 ->
  exists m', pmem_memmove_persist (pmem_init c) dest src len m = Some m' /\
    (forall x, pm_read m' x =
       if decide (dest <= x < dest + len) then pm_read m (x - dest + src) else pm_read m x) /\
    (src <> dest \/ Func_movnt (pmem_init c) = false ->
     forall image x, pm_crash m' image -> dest <= x < dest + len ->
       image x = pm_read m (x - dest + src)) /\
    (src = dest -> Func_movnt (pmem_init c) = true -> m' = pmem_drain (pmem_init c) m).
Proof.
  intros Hr Hs0 Hs1. pose proof (pmem_init_ok c) as Hok. unfold pmem_memmove_persist.
  destruct (decide (src = dest /\ Func_movnt (pmem_init c) = true)) as [[-> Hnt]|Hne].
  - unfold pmem_memmove_nodrain, memmove_nodrain_movnt. rewrite Hnt, Z.eqb_refl, orb_true_r.
    cbn [mbind option_bind]. destruct (pmem_drain_spec (pmem_init c) m) as (Hrd & _).
    eexists. split; [done|]. split_and!; [|by intros [?|?]; congruence|done].
    intros x. rewrite Hrd. case_decide; [|done]. f_equal. lia.
  - destruct (pmem_memmove_nodrain_ok _ Hok dest src len m) as (m' & -> & Hf & Hfl); [done..| |].
    { destruct (Func_movnt (pmem_init c)); [right; tauto|by left]. }
    destruct (drain_filled (pmem_init c) m _ _ _ m' Hf Hfl) as [Hf' Hc].
    eexists. split_and!; [done|apply Hf'|done|tauto].
Qed.

(** [pmem_memset_persist], in every configuration and for every alignment,
    length and threshold, does not fault, sets every byte of its range to the low
    byte of [c], changes no other byte, and every crash after it leaves the range
    set. *)
Theorem pmem_memset_persist_correct c dest v len m :
  range_ok dest len ->
  exists m', pmem_memset_persist (pmem_init c) dest v len m = Some m' /\
    (forall x, pm_read m' x =
       if decide (dest <= x < dest + len) then v mod 256 else pm_read m x) /\
    (forall image x, pm_crash m' image -> dest <= x < dest + len -> image x = v mod 256).
Proof.
  intros Hr. pose proof (pmem_init_ok c) as Hok. unfold pmem_memset_persist.
  destruct (pmem_memset_nodrain_ok _ Hok dest v len m Hr) as (m' & -> & Hf & Hfl).
  destruct (drain_filled (pmem_init c) m _ _ _ m' Hf Hfl) as [Hf' Hc].
  eexists. split_and!; [done|apply Hf'|done].
Qed.

(** A processor with clwb and SSE2, an old one, and a memory with byte [x mod 251]
    at [x]. *)
Definition cpu_clwb : cpu := mkCpu true true true false false false None.
Definition cpu_clflush : cpu := mkCpu false false true false false false (Some 0).
Definition ramp : pmem := pm_boot (fun x => x mod 251).

Lemma pmem_persist_durable_witness :
  exists m', pmem_persist (pmem_init cpu_clwb) 100 200 (pm_store ramp 150 7) = Some m' /\
    (forall image, pm_crash m' image -> image 150 = 7).
Proof.
  destruct (pmem_persist_durable cpu_clwb 100 200 (pm_store ramp 150 7)) as (m' & E & _ & H).
  - unfold range_ok. lia.
  - exists m'. split; [exact E|]. intros image Hc. apply (H image 150 Hc). lia.
Defined.

Lemma pmem_memmove_persist_correct_witness :
  exists m', pmem_memmove_persist (pmem_init cpu_clflush) 1030 1000 500 ramp = Some m' /\
    (forall image, pm_crash m' image -> image 1529 = 1499 mod 251).
Proof.
  destruct (pmem_memmove_persist_correct cpu_clflush 1030 1000 500 ramp) as (m' & E & _ & H & _).
  - unfold range_ok. lia.
  - lia.
  - lia.
  - exists m'. split; [exact E|]. intros image Hc. apply (H ltac:(left; lia) image 1529 Hc). lia.
Defined.

Lemma pmem_memset_persist_correct_witness :
  exists m', pmem_memset_persist (pmem_init cpu_clwb) 1030 (-1) 500 ramp = Some m' /\
    (forall image, pm_crash m' image -> image 1529 = 255).
Proof.
  destruct (pmem_memset_persist_correct cpu_clwb 1030 (-1) 500 ramp) as (m' & E & _ & H).
  - unfold range_ok. lia.
  - exists m'. split; [exact E|]. intros image Hc. apply (H image 1529 Hc). lia.
Defined.

(** With non-temporal stores a move onto itself returns before any flush: stores
    pending in the range stay pending, whereas [memmove_nodrain_normal] flushes
    them. *)
Lemma memmove_self_not_flushed :
  let m := pm_store ramp 1000 7 in
  (exists m' image, pmem_memmove_persist (pmem_init cpu_clwb) 1000 1000 8 m = Some m' /\
     pm_crash m' image /\ image 1000 <> 7) /\
  (exists m', memmove_nodrain_normal (pmem_init cpu_clwb) 1000 1000 8 m = Some m' /\
     forall image, pm_crash (pmem_drain (pmem_init cpu_clwb) m') image -> image 1000 = 7).
Proof.
  intros m. split.
  - eexists _, (fun x => x mod 251). split; [reflexivity|]. split; [|vm_compute; done].
    intros x. unfold pmem_drain, predrain_fence_sfence, mm_sfence, pm_fence, m, pm_store. simpl.
    case_decide as Hx; [subst x|]; simpl; left.
  - destruct (memmove_flush_ok (pmem_init cpu_clwb) (pmem_init_ok _) 1000 1000 8 m)
      as (m' & E & Hf & Hfl); [unfold range_ok; lia|].
    exists m'. split; [exact E|]. intros image Hc.
    destruct (drain_filled (pmem_init cpu_clwb) m _ _ _ m' Hf Hfl) as [_ H].
    by rewrite (H image 1000 Hc) by lia.
Qed.
