(* ===== verification/Instr.v ===== *)
(** * Instrumented programs: [nvml/src/common/pm_instr.h] with PMTest

    The macros through which the NVML code writes to persistent memory.  Each
    records an event for PMTest and performs the write; the flush and the drain of
    libpmem record theirs and execute the processor's instructions.  A command
    here is the whole expansion: it changes the memory and the recorder of the
    thread.  ([PM_TRACE], the textual trace of the macros, is not modelled.)

    The theorem connects the parts: a program made of recording macros, run on the
    processor in any configuration of libpmem, recorded by PMTest's interface and
    checked by [VeriProc].  If no persistence error is printed, then a crash of
    the program itself at a query keeps the bytes of the query whose flushes have
    been drained and whose writes the checker did not skip because of a
    [PMTest_exclude].  The macros that record nothing, or less than they write, are
    shown to break this. *)

From Stdlib Require Import Ascii.
From stdpp Require Import strings.
From S2P Require Import Prelude Intervals FastVector Metadata Checker Pmem CheckerFacts Libpmem Soundness.

(** ** The macros *)

(** Where a macro is used: the file and line it records, and the contents of the
    object that [new Metadata] returns there. *)
Record loc := mkLoc { l_file : list ascii; l_line : Z; l_new : Metadata }.

Definition cmd : Type := pmem * recorder -> option (pmem * recorder).

Section Macros.
Context (alloc : Z -> bool) (lib : libpmem) (ex : bool).

(** A call of PMTest's interface, and a write to memory. *)
Definition record_call (l : loc) (c : list ascii -> Z -> api) : cmd := fun s =>
  r ← exec_api alloc ex (l_new l) (c (l_file l) (l_line l)) s.2; Some (s.1, r).
Definition put (f : pmem -> pmem) : cmd := fun s => Some (f s.1, s.2).
Definition seq_cmd (c1 c2 : cmd) : cmd := fun s => s' ← c1 s; c2 s'.

Definition PM_EQU (l : loc) (pm_dst sz y : Z) : cmd :=
  seq_cmd (record_call l (PMTest_assign pm_dst sz)) (put (write false pm_dst (le_bytes (Z.to_nat sz) y))).
Definition PM_EQU_DW (l : loc) (pm_dst sz y : Z) : cmd :=
  seq_cmd (record_call l (PMTest_assign pm_dst sz)) (put (write false pm_dst (le_bytes (Z.to_nat sz) y))).
Definition PM_EQU_DI (l : loc) (pm_dst sz y : Z) : cmd :=
  put (write false pm_dst (le_bytes (Z.to_nat sz) y)).

(** [pm_dst op= y] on a variable of [sz] bytes. *)
Definition update (op : Z -> Z -> Z) (pm_dst sz y : Z) (m : pmem) : pmem :=
  write false pm_dst (le_bytes (Z.to_nat sz) (op (le_value (load m pm_dst sz)) y)) m.

Definition PM_OR_EQU (l : loc) (pm_dst sz y : Z) : cmd :=
  seq_cmd (record_call l (PMTest_assign pm_dst sz)) (put (update Z.lor pm_dst sz y)).
Definition PM_AND_EQU (l : loc) (pm_dst sz y : Z) : cmd := put (update Z.land pm_dst sz y).
Definition PM_ADD_EQU (l : loc) (pm_dst sz y : Z) : cmd :=
  seq_cmd (record_call l (PMTest_assign pm_dst sz)) (put (update Z.add pm_dst sz y)).
Definition PM_SUB_EQU (l : loc) (pm_dst sz y : Z) : cmd :=
  seq_cmd (record_call l (PMTest_assign pm_dst sz)) (put (update Z.sub pm_dst sz y)).

Definition PM_MEMSET (l : loc) (pm_dst val sz : Z) : cmd :=
  seq_cmd (record_call l (PMTest_assign pm_dst sz)) (put (memset pm_dst val sz)).
Definition PM_DMEMSET (l : loc) (pm_dst val sz : Z) : cmd :=
  seq_cmd (record_call l (PMTest_assign pm_dst sz)) (put (memset pm_dst val sz)).

(** [memcpy] of overlapping ranges is undefined. *)
Definition memcpy (pm_dst src sz : Z) : cmd := fun s =>
  if (pm_dst <? src + sz) && (src <? pm_dst + sz) then None
  else Some (memmove pm_dst src sz s.1, s.2).
Definition PM_MEMCPY (l : loc) (pm_dst src sz : Z) : cmd :=
  seq_cmd (record_call l (PMTest_assign pm_dst sz)) (memcpy pm_dst src sz).
Definition PM_MEMMOVE (l : loc) (pm_dst src sz : Z) : cmd :=
  seq_cmd (record_call l (PMTest_assign pm_dst sz)) (put (memmove pm_dst src sz)).
Definition PM_DMEMCPY (l : loc) (pm_dst src sz : Z) : cmd :=
  seq_cmd (record_call l (PMTest_assign pm_dst sz)) (memcpy pm_dst src sz).

(** The source string is given by its characters, without the terminator. *)
Definition PM_STRCPY (l : loc) (pm_dst : Z) (src : list Z) : cmd :=
  seq_cmd (record_call l (PMTest_assign pm_dst (Z.of_nat (length src)))) (put (write false pm_dst (src ++ [0]))).
Definition PM_STRNCPY (l : loc) (pm_dst : Z) (src : list Z) (len : Z) : cmd :=
  seq_cmd (record_call l (PMTest_assign pm_dst len))
    (put (write false pm_dst (take (Z.to_nat len) (src ++ replicate (Z.to_nat len) 0)))).

Definition PM_MOVNTI (l : loc) (pm_dst count copied : Z) : cmd := fun s => Some s.

Definition PM_FLUSH (l : loc) (pm_dst count done : Z) : cmd := record_call l (PMTest_flush pm_dst count).
Definition PM_COMMIT (l : loc) : cmd := record_call l PMTest_commit.
Definition PM_BARRIER (l : loc) : cmd := record_call l PMTest_barrier.
Definition PM_FENCE (l : loc) : cmd := record_call l PMTest_fence.

(** [pmem_flush] and [pmem_drain] with what they record, from the functions the
    library has selected. *)
Definition flush_recorded (l : loc) (addr len : Z) : cmd :=
  seq_cmd (PM_FLUSH l addr len len) (fun s => m ← pmem_flush lib addr len s.1; Some (m, s.2)).
Definition drain_recorded (l : loc) : cmd :=
  seq_cmd (PM_FENCE l) (put (pmem_drain lib)).

Fixpoint run_cmds (p : list cmd) (s : pmem * recorder) : option (pmem * recorder) :=
  match p with
  | [] => Some s
  | c :: p' => s' ← c s; run_cmds p' s'
  end.

(** ** Instrumented commands *)

(** Ranges that the recorder stores without truncation and the flush can cover. *)
Definition fits (a sz : Z) : Prop := 0 <= a /\ 0 <= sz < 2 ^ 32 /\ a + sz <= 2 ^ 64 - 64.

Definition loc_ok (l : loc) : Prop :=
  0 <= addr (l_new l) /\ 0 <= msize (l_new l) /\ addr (l_new l) + msize (l_new l) < 2 ^ 64.

(** The commands of a program whose writes are all recorded; the arguments may
    depend on the memory. *)
Inductive instrumented : cmd -> Prop :=
  | i_equ l a sz y : loc_ok l -> fits a sz -> instrumented (PM_EQU l a sz y)
  | i_equ_dw l a sz y : loc_ok l -> fits a sz -> instrumented (PM_EQU_DW l a sz y)
  | i_or l a sz y : loc_ok l -> fits a sz -> instrumented (PM_OR_EQU l a sz y)
  | i_add l a sz y : loc_ok l -> fits a sz -> instrumented (PM_ADD_EQU l a sz y)
  | i_sub l a sz y : loc_ok l -> fits a sz -> instrumented (PM_SUB_EQU l a sz y)
  | i_memset l a v sz : loc_ok l -> fits a sz -> instrumented (PM_MEMSET l a v sz)
  | i_dmemset l a v sz : loc_ok l -> fits a sz -> instrumented (PM_DMEMSET l a v sz)
  | i_memcpy l a b sz : loc_ok l -> fits a sz -> instrumented (PM_MEMCPY l a b sz)
  | i_memmove l a b sz : loc_ok l -> fits a sz -> instrumented (PM_MEMMOVE l a b sz)
  | i_dmemcpy l a b sz : loc_ok l -> fits a sz -> instrumented (PM_DMEMCPY l a b sz)
  | i_strncpy l a src sz : loc_ok l -> fits a sz -> instrumented (PM_STRNCPY l a src sz)
  | i_commit l : loc_ok l -> instrumented (PM_COMMIT l)
  | i_barrier l : loc_ok l -> instrumented (PM_BARRIER l)
  | i_flush l a len : loc_ok l -> fits a len -> instrumented (flush_recorded l a len)
  | i_drain l : loc_ok l -> instrumented (drain_recorded l)
  | i_persistent l a sz : loc_ok l -> fits a sz -> instrumented (record_call l (PMTest_isPersistent a sz))
  | i_before l a sz b szb : loc_ok l -> fits a sz ->
      instrumented (record_call l (PMTest_isPersistedBefore a sz b szb))
  | i_begin l : loc_ok l -> instrumented (record_call l PMTest_CHECKER_START)
  | i_end l : loc_ok l -> instrumented (record_call l PMTest_CHECKER_END)
  | i_add_tx l a sz : loc_ok l -> fits a sz -> instrumented (record_call l (PMTest_transactionAdd a sz))
  | i_exclude l a sz : loc_ok l -> fits a sz -> instrumented (record_call l (PMTest_exclude a sz))
  | i_include l a sz : loc_ok l -> fits a sz -> instrumented (record_call l (PMTest_include a sz))
  | i_dep (f : pmem -> cmd) : (forall m, instrumented (f m)) -> instrumented (fun s => f s.1 s).

End Macros.

(** ** The memory behind a trace *)

Section Tracks.
Context (lib : libpmem).

(** The byte [c] of the memory and the byte [hc] of the executed trace, whose
    values are positions: [f] gives what was stored at a position.  The memory
    may have made more durable than the trace shows, never less. *)
Definition tracks (f : Z -> Z) (hc c : cell) : Prop :=
  cell_ok c /\ exists k, values c = drop k (f <$> values hc) /\ (k <= length (c_pending hc))%nat /\
    (c_flushed hc <= k + match Func_predrain_fence lib with
                         | predrain_fence_empty_f => 0
                         | predrain_fence_sfence_f => c_flushed c
                         end)%nat.

Lemma tracks_length f hc c k :
  values c = drop k (f <$> values hc) -> (k <= length (c_pending hc))%nat ->
  length (c_pending c) = (length (c_pending hc) - k)%nat.
Proof.
  intros E Hk. pose proof (f_equal length E) as El.
  rewrite length_drop, length_fmap, !values_length in El. lia.
Qed.

Lemma tracks_durable f hc c : tracks f hc c -> c_pending hc = [] -> c_pending c = [].
Proof.
  intros (_ & k & E & Hk & _) H. apply nil_length_inv. rewrite (tracks_length _ _ _ _ E Hk), H. done.
Qed.

Lemma tracks_shrinks f hc c c' : tracks f hc c -> shrinks c c' -> tracks f hc c'.
Proof.
  intros (Hok & k & E & Hk & Hf) Hs. destruct (shrinks_values _ _ Hs Hok) as (Hok' & k' & E' & Hk' & Hf').
  pose proof (tracks_length _ _ _ _ E Hk). split; [done|]. exists (k + k')%nat.
  rewrite E', E, drop_drop. split_and!; [done|lia|]. destruct (Func_predrain_fence lib); lia.
Qed.

Lemma tracks_store f f' hc c n v :
  tracks f hc c -> (forall w, w ∈ values hc -> f' w = f w) -> f' n = v ->
  tracks f' (mkCell (c_durable hc) (c_pending hc ++ [n]) (c_flushed hc))
    (mkCell (c_durable c) (c_pending c ++ [v]) (c_flushed c)).
Proof.
  intros (Hok & k & E & Hk & Hf) Hf' <-. unfold cell_ok in *. split; [unfold cell_ok; simpl; rewrite length_app; lia|].
  exists k. split_and!; [|simpl; rewrite length_app; lia|done]. rewrite !values_snoc.
  rewrite fmap_app, drop_app_le by (rewrite length_fmap, values_length; lia). f_equal.
  rewrite E. f_equal. apply list_fmap_ext. intros i w Hw. symmetry. apply Hf'.
  by eapply list_elem_of_lookup_2.
Qed.

Lemma tracks_skip f f' hc c :
  tracks f hc c -> (forall w, w ∈ values hc -> f' w = f w) -> tracks f' hc c.
Proof.
  intros (Hok & k & E & Hk & Hf) Hf'. split; [done|]. exists k. split_and!; [|done..].
  rewrite E. f_equal. apply list_fmap_ext. intros i w Hw. symmetry. apply Hf'.
  by eapply list_elem_of_lookup_2.
Qed.

Lemma tracks_flush f hc c c' :
  tracks f hc c -> shrinks c c' -> flushed_by lib c' ->
  tracks f (mkCell (c_durable hc) (c_pending hc) (length (c_pending hc))) c'.
Proof.
  intros Ht Hs Hfl. destruct (tracks_shrinks _ _ _ _ Ht Hs) as (Hok & k & E & Hk & _).
  split; [done|]. exists k. simpl. split_and!; [done..|].
  pose proof (tracks_length _ _ _ _ E Hk) as Hl. revert Hfl. unfold flushed_by, Libpmem.settled.
  destruct (Func_predrain_fence lib); [|lia]. intros H. rewrite H in Hl. simpl in Hl. lia.
Qed.

Lemma tracks_fence f hc m x :
  cell_ok hc -> tracks f hc (m x) -> tracks f (fence_cell hc) (pmem_drain lib m x).
Proof.
  intros Hhc (Hok & k & E & Hk & Hf). pose proof (tracks_length _ _ _ _ E Hk) as Hl.
  unfold tracks, pmem_drain, cell_ok in *. destruct (Func_predrain_fence lib).
  - split; [done|]. exists (k - c_flushed hc)%nat. unfold predrain_fence_empty.
    unfold values at 2. rewrite fence_cell_suffix by done. rewrite fmap_drop, drop_drop. simpl.
    rewrite length_drop. split_and!; [|lia..]. rewrite E. f_equal. lia.
  - unfold predrain_fence_sfence, mm_sfence, pm_fence. split; [simpl; lia|].
    exists (k + c_flushed (m x) - c_flushed hc)%nat. unfold values at 2.
    rewrite fence_cell_suffix by done. unfold values at 1. rewrite fence_cell_suffix by done.
    change (c_durable (m x) :: c_pending (m x)) with (values (m x)). rewrite E.
    rewrite fmap_drop, !drop_drop. simpl. rewrite length_drop. split_and!; [|lia..]. f_equal. lia.
Qed.

End Tracks.

(** ** Running instrumented programs *)

Lemma hw_at_app tr l k : (k <= length tr)%nat -> hw_at (tr ++ l) k = hw_at tr k.
Proof.
  induction k as [|k IH]; intros Hk; [done|]. cbn [hw_at].
  by rewrite lookup_app_l, IH by lia.
Qed.

Lemma hw_at_snoc tr e :
  hw_at (tr ++ [e]) (S (length tr)) = hw_step (length tr) e (hw_at tr (length tr)).
Proof. cbn [hw_at]. by rewrite lookup_app_r, Nat.sub_diag, hw_at_app by lia. Qed.

Section Running.
Context (alloc : Z -> bool) (alloc_ok : forall n, alloc n = true).
Context (lib : libpmem) (Hlib : lib_ok lib) (ex : bool).

(** The memory and the recorder agree. *)
Record tracked (s : pmem * recorder) : Prop := {
  tk_wf : recorder_wf s.2;
  tk_on : existVeriInstance s.2 = true;
  tk_ok : Forall entry_ok (heap s.2);
  tk_val : exists val, forall x,
    tracks lib (val x) (hw_at (heap s.2) (length (heap s.2)) x) (s.1 x);
}.

Definition has_room (r : recorder) : Prop := Z.of_nat (length (heap r)) < FV_PUSH_LIMIT.

(** What a command adds to the trace. *)
Definition adds (s s' : pmem * recorder) (e : Metadata) : Prop :=
  tracked s' /\ heap s'.2 = heap s.2 ++ [e].

Lemma call_spec l c s e :
  tracked s -> has_room s.2 ->
  api_entry ex (l_new l) (c (l_file l) (l_line l)) = Some e ->
  api_switch (c (l_file l) (l_line l)) true = true ->
  exists r', record_call alloc ex l c s = Some (s.1, r') /\
    recorder_wf r' /\ existVeriInstance r' = true /\ heap r' = heap s.2 ++ [e].
Proof.
  intros T Hr He Hsw. unfold record_call.
  destruct (exec_api_spec alloc alloc_ok ex (l_new l) (c (l_file l) (l_line l)) s.2)
    as (r' & -> & Hwf & Hheap & Hon); [apply T|done|]. simpl.
  rewrite (tk_on _ T) in *. rewrite He in Hheap. rewrite Hsw in Hon. by exists r'.
Qed.

(** The machine state after the recorded entry is related to the memory after the
    command. *)
Lemma tracked_step s m' r' e (val' : Z -> Z -> Z) :
  tracked s -> recorder_wf r' -> existVeriInstance r' = true -> heap r' = heap s.2 ++ [e] -> entry_ok e ->
  (forall x, tracks lib (val' x) (hw_step (length (heap s.2)) e (hw_at (heap s.2) (length (heap s.2))) x) (m' x)) ->
  adds s (m', r') e.
Proof.
  intros T Hwf Hon Hheap He Hv. split; [|done]. split; simpl; [done..| |].
  - rewrite Hheap. apply Forall_app. split; [apply T|by apply Forall_singleton].
  - exists val'. intros x. rewrite Hheap, length_app, Nat.add_1_r.
    by rewrite hw_at_snoc.
Qed.

Lemma positions_below s w x :
  tracked s -> w ∈ values (hw_at (heap s.2) (length (heap s.2)) x) -> w < Z.of_nat (length (heap s.2)).
Proof.
  intros T Hw. destruct (hw_at_wf (heap s.2) (length (heap s.2)) x (tk_ok _ T)) as (_ & Hb & _).
  by eapply Forall_forall in Hb as [_ ?].
Qed.

(** A recorded write. *)
Lemma assign_spec l a bs s :
  tracked s -> has_room s.2 -> loc_ok l -> fits a (Z.of_nat (length bs)) ->
  exists r' e, record_call alloc ex l (PMTest_assign a (Z.of_nat (length bs))) s = Some (s.1, r') /\
    adds s (write false a bs s.1, r') e.
Proof.
  intros T Hr Hl (Ha & Hsz & Hend).
  destruct (call_spec l (PMTest_assign a (Z.of_nat (length bs))) s _ T Hr eq_refl eq_refl)
    as (r' & -> & Hwf & Hon & Hheap).
  eexists r', _. split; [done|]. destruct (tk_val _ T) as [val Hval].
  assert (He : entry_ok (set_location (l_file l) (l_line l)
    (set_range a (Z.of_nat (length bs)) (set_type _ASSIGN (l_new l))))).
  { split_and!; simpl; rewrite ?u32_small by lia; lia. }
  set (n := length (heap s.2)) in *.
  apply (tracked_step s _ r' _ (fun x w => if w =? Z.of_nat n then default 0 (bs !! Z.to_nat (x - a)) else val x w)
    T Hwf Hon Hheap He).
  intros x. assert (Hold : forall w, w ∈ values (hw_at (heap s.2) n x) ->
    (if w =? Z.of_nat n then default 0 (bs !! Z.to_nat (x - a)) else val x w) = val x w).
  { intros w Hw. pose proof (positions_below s w x T Hw). by rewrite (proj2 (Z.eqb_neq w _)) by lia. }
  rewrite hw_step_cell by done. simpl type. cbn match. unfold write.
  case_decide as Hc; apply covers_ok in Hc || (rewrite covers_ok in Hc by done); try done;
    simpl in Hc; rewrite u32_small in Hc by lia.
  - rewrite (proj2 (Z.leb_le a x)) by lia.
    destruct (lookup_lt_is_Some_2 bs (Z.to_nat (x - a)) ltac:(lia)) as [v Hv]. rewrite Hv in Hold |- *.
    apply tracks_store with (val x); [apply Hval|exact Hold|]. by rewrite Z.eqb_refl.
  - destruct (Z.leb_spec a x); [rewrite lookup_ge_None_2 in Hold |- * by lia|];
      (apply tracks_skip with (val x); [apply Hval|exact Hold]).
Qed.

(** A recorded event that is neither a write, a flush nor a fence. *)
Lemma event_spec l c s e :
  tracked s -> has_room s.2 ->
  api_entry ex (l_new l) (c (l_file l) (l_line l)) = Some e ->
  api_switch (c (l_file l) (l_line l)) true = true -> entry_ok e ->
  type e <> _ASSIGN -> type e <> _FLUSH -> type e <> _FENCE ->
  exists s', record_call alloc ex l c s = Some s' /\ adds s s' e.
Proof.
  intros T Hr Hent Hsw He H1 H2 H3. destruct (call_spec l c s e T Hr Hent Hsw) as (r' & -> & Hwf & Hon & Hheap).
  eexists. split; [done|]. destruct (tk_val _ T) as [val Hval]. apply (tracked_step s _ r' e val); try done.
  intros x. rewrite hw_step_cell by done. destruct (type e); try done; apply Hval.
Qed.

(** A call that records nothing. *)
Lemma silent_spec l c s :
  tracked s -> has_room s.2 -> api_entry ex (l_new l) (c (l_file l) (l_line l)) = None ->
  api_switch (c (l_file l) (l_line l)) true = true ->
  exists s', record_call alloc ex l c s = Some s' /\ tracked s' /\ heap s'.2 = heap s.2.
Proof.
  intros T Hr Hent Hsw. unfold record_call.
  destruct (exec_api_spec alloc alloc_ok ex (l_new l) (c (l_file l) (l_line l)) s.2)
    as (r' & -> & Hwf & Hheap & Hon); [apply T|done|]. simpl.
  rewrite (tk_on _ T), Hent in Hheap. simpl in Hheap. rewrite app_nil_r in Hheap.
  eexists. split; [done|]. split; [|done]. destruct T. split; simpl; rewrite ?Hheap; try done.
  by rewrite Hon, tk_on0.
Qed.

Lemma flush_spec l a len s :
  tracked s -> has_room s.2 -> loc_ok l -> fits a len ->
  exists s' e, flush_recorded alloc lib ex l a len s = Some s' /\ adds s s' e.
Proof.
  intros T Hr Hl (Ha & Hsz & Hend). unfold flush_recorded, seq_cmd, PM_FLUSH.
  destruct (call_spec l (PMTest_flush a len) s _ T Hr eq_refl eq_refl) as (r' & -> & Hwf & Hon & Hheap).
  cbn [mbind option_bind fst snd].
  destruct (pmem_flush_spec lib a len s.1 Hlib) as (m' & E & _ & Hfl & _); [split_and!; lia|].
  rewrite E. eexists _, _. split; [done|]. destruct (tk_val _ T) as [val Hval].
  assert (He : entry_ok (set_location (l_file l) (l_line l)
    (set_range a len (set_type _FLUSH (l_new l))))).
  { split_and!; simpl; rewrite ?u32_small by lia; lia. }
  apply (tracked_step s _ r' _ val T Hwf Hon Hheap He). intros x.
  pose proof (pmem_flush_shrinks _ _ _ _ _ E x) as Hs. rewrite hw_step_cell by done. simpl type. cbn match.
  case_decide as Hc.
  - apply covers_ok in Hc; [|done]. simpl in Hc. rewrite u32_small in Hc by lia.
    eapply tracks_flush; [apply Hval|done|]. by apply Hfl.
  - by eapply tracks_shrinks.
Qed.

Lemma drain_spec l s :
  tracked s -> has_room s.2 -> loc_ok l ->
  exists s' e, drain_recorded alloc lib ex l s = Some s' /\ adds s s' e.
Proof.
  intros T Hr Hl. unfold drain_recorded, seq_cmd, PM_FENCE.
  destruct (call_spec l PMTest_fence s _ T Hr eq_refl eq_refl) as (r' & -> & Hwf & Hon & Hheap).
  cbn [mbind option_bind put fst snd]. eexists _, _. split; [done|].
  destruct (tk_val _ T) as [val Hval].
  assert (He : entry_ok (set_location (l_file l) (l_line l) (set_type _FENCE (l_new l)))).
  { exact Hl. }
  apply (tracked_step s _ r' _ val T Hwf Hon Hheap He). intros x.
  rewrite hw_step_cell by done. simpl type. cbn match.
  apply tracks_fence; [|apply Hval]. apply (hw_at_wf (heap s.2) (length (heap s.2)) x (tk_ok _ T)).
Qed.

(** A macro that records a write of [sz] bytes and performs it. *)
Lemma write_spec l a sz (bs : pmem -> list Z) s s' :
  tracked s -> has_room s.2 -> loc_ok l -> fits a sz -> (forall m, length (bs m) = Z.to_nat sz) ->
  seq_cmd (record_call alloc ex l (PMTest_assign a sz)) (put (fun m => write false a (bs m) m)) s = Some s' ->
  exists e, adds s s' e.
Proof.
  intros T Hr Hl Hf Hlen. assert (Esz : sz = Z.of_nat (length (bs s.1))).
  { rewrite Hlen. destruct Hf. lia. }
  destruct (assign_spec l a (bs s.1) s T Hr Hl) as (r' & e & E & Hadd); [by rewrite <- Esz|].
  unfold seq_cmd. rewrite Esz, E. cbn [mbind option_bind put fst snd]. intros [= <-]. by exists e.
Qed.

Lemma memcpy_spec l a b sz s s' :
  tracked s -> has_room s.2 -> loc_ok l -> fits a sz ->
  seq_cmd (record_call alloc ex l (PMTest_assign a sz)) (memcpy a b sz) s = Some s' ->
  exists e, adds s s' e.
Proof.
  intros T Hr Hl Hf E. apply (write_spec l a sz (fun m => load m b sz) s s' T Hr Hl Hf).
  - intros m. unfold load. by rewrite length_fmap, length_seq.
  - unfold seq_cmd, memcpy, put, memmove in *. destruct (record_call _ _ _ _ s) as [[m r]|]; [|done].
    simpl in *. by destruct (_ && _).
Qed.

Ltac written bs :=
  let E := fresh "E" in
  intros E; apply (write_spec _ _ _ bs _ _) in E; [exact E|done..|];
  intros ?; unfold load; rewrite ?le_bytes_length, ?length_take, ?length_app, ?length_replicate, ?length_fmap, ?length_seq;
  lia.

Ltac event :=
  unfold PM_COMMIT, PM_BARRIER;
  match goal with T : tracked ?s, Hr : has_room _ |- record_call _ _ ?l ?c _ = _ -> _ =>
    let s1 := fresh in let Hadd := fresh in
    destruct (event_spec l c s _ T Hr eq_refl eq_refl) as (s1 & -> & Hadd);
    [split_and!; simpl; rewrite ?u32_small by (unfold fits in *; lia); unfold fits, loc_ok in *; done || lia
    |done..|];
    intros [= <-]; eauto
  end.

(** A command adds at most one entry to the trace. *)
Definition extends (s s' : pmem * recorder) : Prop :=
  tracked s' /\ exists l, heap s'.2 = heap s.2 ++ l /\ (length l <= 1)%nat.

Lemma adds_extends s s' : (exists e, adds s s' e) -> extends s s'.
Proof. intros (e & T & Hh). split; [done|]. exists [e]. split; [done|simpl; lia]. Qed.

(** [PMTest_exclude] and [PMTest_include], recorded only if the macro is set. *)
Lemma exclusion_spec l c t a sz s s' :
  c = PMTest_exclude /\ t = _EXCLUDE \/ c = PMTest_include /\ t = _INCLUDE ->
  tracked s -> has_room s.2 -> loc_ok l -> fits a sz ->
  record_call alloc ex l (c a sz) s = Some s' -> extends s s'.
Proof.
  intros Hc T Hr Hl Hf. assert (api_entry ex (l_new l) (c a sz (l_file l) (l_line l)) =
    if ex then Some (set_location (l_file l) (l_line l) (set_range a sz (set_type t (l_new l))))
    else None) as He by (by destruct Hc as [[-> ->]|[-> ->]]).
  assert (api_switch (c a sz (l_file l) (l_line l)) true = true) as Hsw
    by (by destruct Hc as [[-> ->]|[-> ->]]).
  destruct (decide (ex = true)) as [Hex|Hex%not_true_is_false]; rewrite Hex in He at 2.
  - destruct (event_spec l (c a sz) s _ T Hr He Hsw) as (s1 & -> & Hadd).
    { unfold fits in Hf. split_and!; simpl; rewrite ?u32_small by lia; lia. }
    1-3: simpl; by destruct Hc as [[-> ->]|[-> ->]].
    intros [= <-]. apply adds_extends. eauto.
  - destruct (silent_spec l (c a sz) s T Hr He Hsw) as (s1 & -> & T1 & Hh). intros [= <-].
    split; [done|]. exists []. rewrite app_nil_r. split; [done|simpl; lia].
Qed.

Lemma instrumented_step c s s' :
  instrumented alloc lib ex c -> tracked s -> has_room s.2 -> c s = Some s' -> extends s s'.
Proof.
  intros Hc T Hr. induction Hc as [l a sz y|l a sz y|l a sz y|l a sz y|l a sz y|l a v sz|l a v sz|
    l a b sz|l a b sz|l a b sz|l a src sz|l|l|l a len|l|l a sz|l a sz b szb|l|l|l a sz|l a sz|l a sz|
    f Hf IH];
    try (by eapply exclusion_spec; [|done..]; (by left) || by right);
    try apply IH; intros Hstep; apply adds_extends; revert Hstep.
  - written (fun _ : pmem => le_bytes (Z.to_nat sz) y).
  - written (fun _ : pmem => le_bytes (Z.to_nat sz) y).
  - written (fun m => le_bytes (Z.to_nat sz) (Z.lor (le_value (load m a sz)) y)).
  - written (fun m => le_bytes (Z.to_nat sz) (le_value (load m a sz) + y)).
  - written (fun m => le_bytes (Z.to_nat sz) (le_value (load m a sz) - y)).
  - written (fun _ : pmem => replicate (Z.to_nat sz) (v mod 256)).
  - written (fun _ : pmem => replicate (Z.to_nat sz) (v mod 256)).
  - by apply memcpy_spec.
  - written (fun m => load m b sz).
  - by apply memcpy_spec.
  - written (fun _ : pmem => take (Z.to_nat sz) (src ++ replicate (Z.to_nat sz) 0)).
  - event.
  - event.
  - destruct (flush_spec l a len s T Hr) as (s1 & e & -> & Hadd); [done..|]. intros [= <-]. eauto.
  - destruct (drain_spec l s T Hr) as (s1 & e & -> & Hadd); [done..|]. intros [= <-]. eauto.
  - event.
  - event.
  - event.
  - event.
  - event.
Qed.

Lemma run_cmds_spec p s s' :
  Forall (instrumented alloc lib ex) p -> tracked s ->
  Z.of_nat (length (heap s.2) + length p) <= FV_PUSH_LIMIT -> run_cmds p s = Some s' ->
  tracked s' /\ exists l, heap s'.2 = heap s.2 ++ l /\ (length l <= length p)%nat.
Proof.
  intros Hp. revert s. induction Hp as [|c p Hc Hp IH]; intros s T Hlen E; simpl in E.
  - injection E as <-. split; [done|]. exists []. by rewrite app_nil_r.
  - destruct (c s) as [s1|] eqn:E1; [|done]. simpl in E.
    destruct (instrumented_step c s s1 Hc T) as (T1 & l1 & Hheap & Hl1);
      [unfold has_room; simpl in Hlen; lia|done|].
    destruct (IH s1 T1) as (T' & l & Hheap' & Hl); [|done|].
    { rewrite Hheap, length_app. simpl in *. lia. }
    split; [done|]. exists (l1 ++ l). rewrite Hheap', Hheap, <- app_assoc. split; [done|].
    rewrite length_app. simpl. lia.
Qed.

Lemma tracked_start img v0 :
  fv_new (T := nat) alloc = Some v0 -> tracked (pm_boot img, mkRecorder true [] v0).
Proof using alloc_ok.
  intros Hnew. destruct (@fv_new_repr nat alloc alloc_ok) as (v & Hv & Hrepr).
  assert (v = v0) as -> by congruence. split; simpl.
  - split; [done|]. unfold fv_new, fv_malloc in Hnew. rewrite alloc_ok in Hnew.
    simplify_option_eq. by left.
  - done.
  - done.
  - exists (fun x _ => img x). intros x. split; [unfold cell_ok; simpl; lia|].
    exists 0%nat. simpl. split_and!; [done|lia|lia].
Qed.

(** The entry of a query. *)
Definition query (l : loc) (a sz : Z) : Metadata :=
  set_location (l_file l) (l_line l) (set_range a sz (set_type _PERSIST (l_new l))).

Lemma query_ok l a sz : loc_ok l -> fits a sz -> entry_ok (query l a sz).
Proof. unfold fits. intros Hl Hf. split_and!; simpl; rewrite ?u32_small by lia; lia. Qed.

Lemma query_covers l a sz x : loc_ok l -> fits a sz -> a <= x < a + sz -> covers (query l a sz) x.
Proof.
  intros Hl Hf Hx. apply covers_ok; [by apply query_ok|]. unfold fits in Hf. simpl.
  rewrite u32_small by lia. lia.
Qed.

Lemma query_spec l a sz s s' :
  tracked s -> has_room s.2 -> loc_ok l -> fits a sz ->
  record_call alloc ex l (PMTest_isPersistent a sz) s = Some s' -> adds s s' (query l a sz).
Proof.
  intros T Hr Hl Hf E.
  destruct (event_spec l (PMTest_isPersistent a sz) s (query l a sz) T Hr eq_refl eq_refl (query_ok l a sz Hl Hf))
    as (s1 & E1 & Hadd); [done..|]. rewrite E in E1. by injection E1 as <-.
Qed.

End Running.

(** ** The theorem *)

(** C2: PMTest is sound for instrumented programs.  A program whose writes all go
    through the recording macros (and whose flushes and drains are those of
    libpmem, in whatever configuration the processor selects) runs on the
    processor while PMTest records it.  Suppose [VeriProc] prints no PERSIST ERROR
    for the recorded trace.  Take a query [PMTest_isPersistent(a, sz)] of the
    program and a byte of it.  Suppose every flush of the byte has been drained by
    the query, and that neither the query nor a write to the byte recorded before
    it has a byte that is under [PMTest_exclude] at that point.  Then a crash of
    the program at the query keeps the current value of the byte. *)
Theorem instrumented_persist_sound {S M} `{!IclSet S, !IclSetLaws S} `{!IclMap M, !IclMapLaws M}
    (alloc : Z -> bool) (ex : bool) (c : cpu) (cfg : config) (img : Z -> Z) (v0 : FastVector nat)
    (p1 p2 : list cmd) (l : loc) (a sz x : Z) (s1 s2 : pmem * recorder) (image : Z -> Z) :
  (forall n, alloc n = true) -> fv_new alloc = Some v0 ->
  Forall (instrumented alloc (pmem_init c) ex) (p1 ++ p2) -> loc_ok l -> fits a sz ->
  Z.of_nat (length (p1 ++ p2)) < FV_PUSH_LIMIT ->
  run_cmds p1 (pm_boot img, mkRecorder true [] v0) = Some s1 ->
  run_cmds (record_call alloc ex l (PMTest_isPersistent a sz) :: p2) s1 = Some s2 ->
  a <= x < a + sz -> settled (heap s2.2) (length (heap s1.2)) x ->
  ~ skipped cfg (heap s2.2) (length (heap s1.2)) (query l a sz) ->
  seen cfg _ASSIGN (heap s2.2) (length (heap s1.2)) x ->
  (forall f n lo hi, PersistError f n lo hi ∉
     printed_out (VeriProc (S:=S) (M:=M) cfg (elems (metadata_vector s2.2)) (heap s2.2))) ->
  pm_crash s1.1 image ->
  image x = pm_read s1.1 x.
Proof.
  intros Halloc Hnew [Hp1 Hp2]%Forall_app Hl Hf Hlen E1 E2 Hx Hset Hskip Hseen Hsilent Hcrash.
  rewrite length_app in Hlen. pose proof (pmem_init_ok c) as Hlib.
  destruct (run_cmds_spec alloc Halloc _ Hlib ex p1 _ s1 Hp1 (tracked_start alloc Halloc _ img v0 Hnew))
    as (T1 & l1 & Hheap1 & Hl1); [simpl; lia|done|].
  simpl in Hheap1. assert (Hpos : (length (heap s1.2) <= length p1)%nat) by (by rewrite Hheap1).
  cbn [run_cmds] in E2. destruct (record_call _ _ _ _ s1) as [s'|] eqn:Eq; [|done]. cbn [mbind option_bind] in E2.
  destruct (query_spec alloc Halloc _ ex l a sz s1 s' T1) as [T' Hheap']; [unfold has_room; lia|done..|].
  destruct (run_cmds_spec alloc Halloc _ Hlib ex p2 _ s2 Hp2 T')
    as (T2 & l2 & Hheap2 & Hl2); [rewrite Hheap', length_app; simpl; lia|done|].
  rewrite Hheap', <- app_assoc in Hheap2.
  destruct (tk_val _ _ T1) as [val Hval]. apply pm_durable_crash; [|done].
  eapply tracks_durable; [apply Hval|].
  change (pm_durable (hw_at (heap s1.2) (length (heap s1.2))) x).
  rewrite <- (hw_at_app _ ([query l a sz] ++ l2)), <- Hheap2 by done.
  destruct (tk_wf _ _ T2) as [Hrepr _]. rewrite (fv_repr_elems _ _ Hrepr) in Hsilent.
  eapply persist_durable_at;
    [apply NoDup_seq|apply seq_trace|apply T2| | | |exact Hskip|done|done|exact Hsilent].
  - rewrite Hheap2, lookup_app_r, Nat.sub_diag by lia. done.
  - done.
  - by apply query_covers.
Qed.

(** ** Runs *)

(** A location, a processor with [clwb], and a recording thread. *)
Definition here : loc := mkLoc [] 1 (mkMetadata 0 0 _ENDING 0 0 0 []).
Definition clwb_cpu : cpu := mkCpu false true false false false false None.
Definition always (_ : Z) : bool := true.
Definition start (img : Z -> Z) : pmem * recorder :=
  (pm_boot img, mkRecorder true [] (from_option id (mkFV [] 0 0) (fv_new always))).

Definition ran (p : list cmd) (s : pmem * recorder) : pmem * recorder :=
  from_option id s (run_cmds p s).

Lemma ran_spec p s : bool_decide (is_Some (run_cmds p s)) = true -> run_cmds p s = Some (ran p s).
Proof. unfold ran. destruct (run_cmds p s); [done|]. vm_compute. discriminate. Qed.

(** A write to an excluded range; a store elsewhere, its flush and a drain. *)
Definition persisted : list cmd :=
  [record_call always true here (PMTest_exclude 128 8);
   PM_EQU always true here 128 8 1;
   PM_EQU always true here 64 8 42;
   flush_recorded always (pmem_init clwb_cpu) true here 64 8;
   drain_recorded always (pmem_init clwb_cpu) true here].
Definition ask (a sz : Z) : cmd := record_call always true here (PMTest_isPersistent a sz).

Lemma here_ok : loc_ok here.
Proof. split_and!; done. Qed.

(** The trace of that program with its query. *)
Definition persisted_trace : list Metadata :=
  let e a t sz := mkMetadata a 0 t sz 0 1 (store_file_name []) in
  [e 128 _EXCLUDE 8; e 128 _ASSIGN 8; e 64 _ASSIGN 8; e 64 _FLUSH 8; e 0 _FENCE 0; e 64 _PERSIST 8].

Definition persisted_end : pmem * recorder := ran persisted (start (fun _ => 255)).
Definition persisted_query : pmem * recorder := ran [ask 64 8] persisted_end.

Lemma persisted_heap :
  heap persisted_query.2 = persisted_trace /\ length (heap persisted_end.2) = 5%nat.
Proof. split; vm_compute; reflexivity. Qed.

(** Only the write to the excluded range is skipped. *)
Lemma persisted_not_skipped k e :
  entry_ok e -> addr e + msize e <= 128 -> ~ skipped default_config persisted_trace k e.
Proof.
  intros He Hend (_ & x & Hx & Hu). apply covers_ok in Hx; [|done].
  apply excluded_head, covers_ok in Hu; [simpl in Hu; lia|split_and!; done|].
  repeat constructor; discriminate.
Qed.

Lemma instrumented_persist_sound_witness :
  pm_read persisted_end.1 64 = 42 /\ c_durable (persisted_end.1 64) = pm_read persisted_end.1 64.
Proof.
  split; [vm_compute; reflexivity|]. destruct persisted_heap as [Hheap Hlen].
  apply (instrumented_persist_sound (S:=Shadow.shadow bool) (M:=Shadow.shadow Z) always true clwb_cpu
    default_config (fun _ => 255) (from_option id (mkFV [] 0 0) (fv_new always)) persisted [] here 64 8 64
    persisted_end persisted_query (fun a => c_durable (persisted_end.1 a))).
  - done.
  - vm_compute. reflexivity.
  - repeat constructor; vm_compute; try discriminate; reflexivity.
  - apply here_ok.
  - split_and!; done.
  - reflexivity.
  - apply ran_spec. vm_compute. reflexivity.
  - apply (ran_spec [ask 64 8]). vm_compute. reflexivity.
  - lia.
  - rewrite Hheap, Hlen. intros j e Hj He Ht _.
    exists 4%nat, (mkMetadata 0 0 _FENCE 0 0 1 (store_file_name [])).
    destruct j as [|[|[|[|[|j]]]]]; try (injection He as <-; discriminate Ht); [|lia].
    split; [lia|]. split; reflexivity.
  - rewrite Hheap. apply persisted_not_skipped; [split_and!; vm_compute; done|vm_compute; done].
  - rewrite Hheap, Hlen. intros j e Hj He Ht Hc.
    destruct j as [|[|[|[|[|j]]]]]; try (injection He as <-; discriminate Ht); [| |lia];
      injection He as <-.
    + exfalso. apply covers_ok in Hc; [|split_and!; vm_compute; done]. simpl in Hc. lia.
    + apply persisted_not_skipped; [split_and!; vm_compute; done|vm_compute; done].
  - intros f n lo hi H. vm_compute in H. by apply elem_of_nil in H.
  - intros a. left.
Defined.

(** [c] writes the byte [y], a query of it prints nothing, and a crash at the query
    loses the write. *)
Definition escapes (c : cmd) (y : Z) : Prop :=
  exists s1 s2 image,
    run_cmds [c] (start (fun _ => 255)) = Some s1 /\ run_cmds [ask y 1] s1 = Some s2 /\
    printed_out (VeriProc (S:=Shadow.shadow bool) (M:=Shadow.shadow Z) default_config
      (elems (metadata_vector s2.2)) (heap s2.2)) = [] /\
    pm_crash s1.1 image /\ image y <> pm_read s1.1 y.

Definition escapes_check (c : cmd) (y : Z) : bool :=
  let s1 := ran [c] (start (fun _ => 255)) in
  let s2 := ran [ask y 1] s1 in
  bool_decide (is_Some (run_cmds [c] (start (fun _ => 255)))) && bool_decide (is_Some (run_cmds [ask y 1] s1)) &&
  match printed_out (VeriProc (S:=Shadow.shadow bool) (M:=Shadow.shadow Z) default_config
    (elems (metadata_vector s2.2)) (heap s2.2)) with [] => true | _ => false end &&
  negb (c_durable (s1.1 y) =? pm_read s1.1 y).

Lemma escapes_checked c y : escapes_check c y = true -> escapes c y.
Proof.
  unfold escapes_check. rewrite !andb_true_iff. intros [[[H1 H2] H3] H4].
  exists (ran [c] (start (fun _ => 255))), (ran [ask y 1] (ran [c] (start (fun _ => 255)))),
    (fun a => c_durable ((ran [c] (start (fun _ => 255))).1 a)).
  split_and!; [by apply ran_spec|by apply ran_spec| |intros a; left|].
  - by destruct (printed_out _).
  - intros E. by rewrite E, Z.eqb_refl in H4.
Qed.

(** Writes that escape PMTest.  [PM_AND_EQU] and [PM_EQU_DI] record nothing, and
    [PM_STRCPY] does not record the terminator it writes: in each case a query of
    the written byte prints nothing although a crash can lose the write. *)
Theorem unrecorded_writes :
  escapes (PM_AND_EQU here 64 8 0) 64 /\
  escapes (PM_EQU_DI here 64 8 1) 64 /\
  escapes (PM_STRCPY always false here 64 [97; 98]) 66.
Proof. split_and!; apply escapes_checked; vm_compute; reflexivity. Qed.
