(* ===== verification/Log.v ===== *)
(** * Logs: [nvml/src/libpmemlog/log.c]

    A log pool: a descriptor of three 8-byte fields and a data area that is only
    appended to.  The memory has two parts, as the processor guarantees different
    things for them: the bytes of the data area, and the aligned words of the
    descriptor, which reach the medium as a whole.  The writes go through libpmem
    ([Libpmem]) or, when the pool is not on persistent memory, through [memcpy]
    and [msync].

    An operation returns its result, the memory after it and the moments at which
    a crash can find it.  While a copy is in progress, a crash may leave anything
    in the destination.  The theorems: an append (of one buffer or of several) is
    atomic with respect to crashes, leaves the log durable, and refuses data that
    does not fit; [pmemlog_rewind] is atomic; [pmemlog_walk] hands out the contents
    in order; a created descriptor passes the checks and they accept exactly
    consistent ones. *)

From S2P Require Import Prelude Pmem Libpmem LibpmemCopy.

Definition POOL_HDR_SIZE : Z := 4096.
Definition LOG_FORMAT_DATA_ALIGN : Z := 4096.
(** [sizeof(struct pmemlog)]: the header, three offsets, [addr], [size], two [int]s
    and [rwlockp]. *)
Definition sizeof_pmemlog : Z := POOL_HDR_SIZE + 3 * 8 + 8 + 8 + 4 + 4 + 8.
Definition roundup (x y : Z) : Z := (x + (y - 1)) / y * y.


(** ** State *)

Record log_mem := mkLog { bytes : pmem; words : pmem }.

(** The run-time part of [struct pmemlog]. *)
Record pmemlog := mkPlp { plp_addr : Z; plp_size : Z; is_pmem : bool; rdonly : bool }.

(** A point at which a crash can happen: the memory, and the range a copy is
    writing to. *)
Record moment := mkMoment { at_ : log_mem; w_lo : Z; w_hi : Z }.
Definition between (s : log_mem) : moment := mkMoment s 0 0.

Definition crash (mo : moment) (ib iw : Z -> Z) : Prop :=
  (forall x, ~ (w_lo mo <= x < w_hi mo) -> ib x ∈ values (bytes (at_ mo) x)) /\
  (forall x, iw x ∈ values (words (at_ mo) x)).

Section Log.
Context (lib : libpmem) (plp : pmemlog).

Definition start_offset : Z := plp_addr plp + POOL_HDR_SIZE.
Definition end_offset : Z := plp_addr plp + POOL_HDR_SIZE + 8.
Definition write_offset : Z := plp_addr plp + POOL_HDR_SIZE + 16.

(** ** The descriptor *)

Definition pmemlog_descr_create (sync : bool) (poolsize : Z) (s : log_mem) : option (Z * log_mem) :=
  if negb (poolsize mod Pagesize =? 0) then None else
  let w := pm_store (words s) start_offset (roundup sizeof_pmemlog LOG_FORMAT_DATA_ALIGN) in
  let w := pm_store w end_offset poolsize in
  let w := pm_store w write_offset (pm_read w start_offset) in
  Some (0, mkLog (bytes s) (pmem_msync sync start_offset (3 * 8) w).2).

Definition pmemlog_descr_check (poolsize : Z) (s : log_mem) : Z * Z :=
  let start := pm_read (words s) start_offset in
  let end_ := pm_read (words s) end_offset in
  let write := pm_read (words s) write_offset in
  if negb (start =? roundup sizeof_pmemlog LOG_FORMAT_DATA_ALIGN) || negb (end_ =? poolsize) ||
     (end_ <? start) then (-1, EINVAL)
  else if (end_ <? write) || (write <? start) then (-1, EINVAL)
  else (0, 0).

(** The checks of [pmemlog_check] on the opened pool. *)
Definition pmemlog_check (s : log_mem) : bool :=
  let hdr_start := pm_read (words s) start_offset in
  let hdr_end := pm_read (words s) end_offset in
  let hdr_write := pm_read (words s) write_offset in
  (hdr_start =? roundup sizeof_pmemlog LOG_FORMAT_DATA_ALIGN) && (hdr_end =? plp_size plp) &&
  negb (hdr_end <? hdr_start) && negb (hdr_write <? hdr_start) && negb (hdr_end <? hdr_write).

(** ** Operations *)

(** [lock] is what [pthread_rwlock_*lock] returns. *)
Definition pmemlog_nbyte (lock : Z) (s : log_mem) : Z :=
  if negb (lock =? 0) then u64 (-1)
  else u64 (pm_read (words s) end_offset - pm_read (words s) start_offset).

(** [sync] says whether the [msync] calls succeed; their results are ignored. *)
Definition persist_data (sync : bool) (off length : Z) (s : log_mem) : log_mem :=
  if is_pmem plp then mkLog (pmem_drain lib (bytes s)) (pmem_drain lib (words s))
  else mkLog (pmem_msync sync (plp_addr plp + off) length (bytes s)).2 (words s).

(** [pmem_persist] or [pmem_msync] of the write offset. *)
Definition persist_offset (sync : bool) (s : log_mem) : option log_mem :=
  if is_pmem plp then
    b ← pmem_persist lib write_offset 8 (bytes s);
    w ← pmem_persist lib write_offset 8 (words s);
    Some (mkLog b w)
  else Some (mkLog (bytes s) (pmem_msync sync write_offset 8 (words s)).2).

Definition pmemlog_persist (sync : bool) (new_write_offset : Z) (s : log_mem) :
    option (log_mem * list moment) :=
  let old_write_offset := pm_read (words s) write_offset in
  let length := u64 (new_write_offset - old_write_offset) in
  let s1 := persist_data sync old_write_offset length s in
  let s2 := mkLog (bytes s1) (pm_store (words s1) write_offset new_write_offset) in
  s3 ← persist_offset sync s2;
  Some (s3, [between s; between s1; between s2; between s3]).

(** The copy of one buffer. *)
Definition copy_in (dst buf count : Z) (s : log_mem) : option (log_mem * moment) :=
  b ← (if is_pmem plp then pmem_memcpy_nodrain lib dst buf count (bytes s)
       else Some (memmove dst buf count (bytes s)));
  Some (mkLog b (words s), mkMoment s dst (dst + count)).

Definition pmemlog_append (lock : Z) (sync : bool) (buf count : Z) (s : log_mem) :
    option ((Z * Z) * log_mem * list moment) :=
  if rdonly plp then Some ((-1, EROFS), s, []) else
  if negb (lock =? 0) then Some ((-1, lock), s, []) else
  let end_off := pm_read (words s) end_offset in
  let write_off := pm_read (words s) write_offset in
  if end_off <=? write_off then Some ((-1, ENOSPC), s, []) else
  if end_off - write_off <? count then Some ((-1, ENOSPC), s, []) else
  '(s1, mo) ← copy_in (plp_addr plp + write_off) buf count s;
  '(s2, ms) ← pmemlog_persist sync (u64 (write_off + count)) s1;
  Some ((0, 0), s2, mo :: ms).

(** The loop of [pmemlog_appendv]: the memory, the new offset and the moments. *)
Fixpoint append_iovs (iov : list (Z * Z)) (write_off : Z) (s : log_mem) :
    option (log_mem * Z * list moment) :=
  match iov with
  | [] => Some (s, write_off, [])
  | (buf, count) :: iov' =>
      '(s1, mo) ← copy_in (plp_addr plp + write_off) buf count s;
      '(s2, off, ms) ← append_iovs iov' (u64 (write_off + count)) s1;
      Some (s2, off, mo :: ms)
  end.

Definition iov_count (iov : list (Z * Z)) : Z := foldl (fun c v => u64 (c + v.2)) 0 iov.

Definition pmemlog_appendv (lock : Z) (sync : bool) (iov : list (Z * Z)) (s : log_mem) :
    option ((Z * Z) * log_mem * list moment) :=
  match iov with [] => None | _ =>
  if rdonly plp then Some ((-1, EROFS), s, []) else
  if negb (lock =? 0) then Some ((-1, lock), s, []) else
  let end_off := pm_read (words s) end_offset in
  let write_off := pm_read (words s) write_offset in
  if end_off <=? write_off then Some ((-1, ENOSPC), s, []) else
  if end_off - write_off <? iov_count iov then Some ((-1, ENOSPC), s, []) else
  '(s1, off, ms1) ← append_iovs iov write_off s;
  '(s2, ms2) ← pmemlog_persist sync off s1;
  Some ((0, 0), s2, ms1 ++ ms2)
  end.

(** [None] when the assertion fails. *)
Definition pmemlog_tell (lock : Z) (s : log_mem) : option Z :=
  if negb (lock =? 0) then Some (-1) else
  let write := pm_read (words s) write_offset in
  let start := pm_read (words s) start_offset in
  if write <? start then None else Some (write - start).

Definition pmemlog_rewind (lock : Z) (sync : bool) (s : log_mem) : option (log_mem * list moment) :=
  if rdonly plp then Some (s, []) else
  if negb (lock =? 0) then Some (s, []) else
  let s1 := mkLog (bytes s) (pm_store (words s) write_offset (pm_read (words s) start_offset)) in
  s2 ← persist_offset sync s1;
  Some (s2, [between s; between s1; between s2]).

(** ** Walking *)

(** [process_chunk] sees the bytes of the chunk and the state behind [arg]; it
    returns that state and whether to go on. *)
Section Walk.
Context {A : Type} (process_chunk : list Z -> A -> A * bool).

(** The loop; [None] when the fuel is not enough. *)
Fixpoint walk_loop (fuel : nat) (chunksize write_off data_off : Z) (s : log_mem) (arg : A) : option A :=
  match fuel with
  | O => None
  | S fuel' =>
      if data_off <? write_off then
        let len := Z.min chunksize (write_off - data_off) in
        let '(arg', more) := process_chunk (load (bytes s) (plp_addr plp + data_off) len) arg in
        if more : bool then walk_loop fuel' chunksize write_off (u64 (data_off + chunksize)) s arg'
        else Some arg'
      else Some arg
  end.

Definition pmemlog_walk (fuel : nat) (lock chunksize : Z) (s : log_mem) (arg : A) : option A :=
  if negb (lock =? 0) then Some arg else
  let write_off := pm_read (words s) write_offset in
  let data_off := pm_read (words s) start_offset in
  if chunksize =? 0 then
    Some (process_chunk (load (bytes s) (plp_addr plp + data_off) (u64 (write_off - data_off))) arg).1
  else walk_loop fuel chunksize write_off data_off s arg.

End Walk.
End Log.

(** ** Contents *)

Definition bytes_at (rb : Z -> Z) (a n : Z) : list Z :=
  (fun i => rb (a + Z.of_nat i)) <$> seq 0 (Z.to_nat n).

Lemma bytes_at_ext rb rb' a n :
  (forall x, a <= x < a + n -> rb x = rb' x) -> bytes_at rb a n = bytes_at rb' a n.
Proof.
  intros H. apply list_fmap_ext. intros i k Hk. apply lookup_seq in Hk as [-> Hk]. apply H. lia.
Qed.

Lemma bytes_at_app rb a n k :
  0 <= n -> 0 <= k -> bytes_at rb a (n + k) = bytes_at rb a n ++ bytes_at rb (a + n) k.
Proof.
  intros Hn Hk. unfold bytes_at. rewrite Z2Nat.inj_add, seq_app, fmap_app by done. f_equal. simpl.
  rewrite <- (Nat.add_0_r (Z.to_nat n)), <- fmap_add_seq, <- list_fmap_compose.
  apply list_fmap_ext. intros i j _. simpl. f_equal. lia.
Qed.

Lemma bytes_at_length rb a n : length (bytes_at rb a n) = Z.to_nat n.
Proof. unfold bytes_at. by rewrite length_fmap, length_seq. Qed.

Lemma bytes_at_take rb a n k :
  0 <= k -> take (Z.to_nat k) (bytes_at rb a n) = bytes_at rb a (Z.min k n).
Proof.
  intros Hk. unfold bytes_at. rewrite <- fmap_take. destruct (decide (k <= n)).
  - rewrite Z.min_l by done. rewrite <- (Nat.sub_add (Z.to_nat k) (Z.to_nat n)) by lia.
    rewrite (Nat.add_comm _ (Z.to_nat k)), seq_app, take_app_length' by (by rewrite length_seq). done.
  - rewrite Z.min_r by lia. rewrite take_ge by (rewrite length_seq; lia). done.
Qed.

Lemma bytes_at_drop rb a n k :
  0 <= k <= n -> drop (Z.to_nat k) (bytes_at rb a n) = bytes_at rb (a + k) (n - k).
Proof.
  intros Hk. replace n with (k + (n - k)) at 1 by lia. rewrite bytes_at_app by lia.
  by rewrite drop_app_length' by (by rewrite bytes_at_length).
Qed.

Lemma bytes_at_list rb a (d : list Z) :
  (forall x, a <= x < a + Z.of_nat (length d) -> rb x = default 0 (d !! Z.to_nat (x - a))) ->
  bytes_at rb a (Z.of_nat (length d)) = d.
Proof.
  intros H. apply list_eq_same_length with (length d); [done|by rewrite bytes_at_length, Nat2Z.id|].
  intros i v w Hi Hv Hw. unfold bytes_at in Hv. rewrite list_lookup_fmap, lookup_seq_lt in Hv by lia.
  injection Hv as <-. rewrite H by lia. replace (Z.to_nat _) with i by lia. simpl. by rewrite Hw.
Qed.

Section Proofs.
Context (lib : libpmem) (Hlib : lib_ok lib) (plp : pmemlog).

Abbreviation base := (plp_addr plp).
Abbreviation START := (start_offset plp).
Abbreviation END := (end_offset plp).
Abbreviation WRITE := (write_offset plp).

(** The data a memory image holds, and the descriptor being consistent. *)
Definition contents (rb rw : Z -> Z) : list Z :=
  bytes_at rb (base + rw START) (rw WRITE - rw START).
Definition log_contents (s : log_mem) : list Z :=
  contents (pm_read (bytes s)) (pm_read (words s)).

Definition descr (rw : Z -> Z) : Prop :=
  POOL_HDR_SIZE + 24 <= rw START <= rw WRITE /\ rw WRITE <= rw END /\ 0 <= base /\
  base + rw END <= 2 ^ 64 - 64.

(** The log is consistent and durable: the state between operations. *)
Record log_ok (s : log_mem) : Prop := {
  lo_descr : descr (pm_read (words s));
  lo_words a : a = START \/ a = END \/ a = WRITE -> pm_durable (words s) a;
  lo_bytes x : base + pm_read (words s) START <= x < base + pm_read (words s) WRITE ->
    pm_durable (bytes s) x;
  lo_cells x : cell_ok (bytes s x);
}.

(** A memory image agrees with a log. *)
Lemma image_word s a iw :
  pm_durable (words s) a -> iw a ∈ values (words s a) -> iw a = pm_read (words s) a.
Proof.
  unfold pm_durable, values, pm_read. intros -> H. by apply list_elem_of_singleton in H.
Qed.

Lemma image_contents s ib iw :
  log_ok s -> (forall x, base + pm_read (words s) START <= x < base + pm_read (words s) WRITE ->
    ib x = pm_read (bytes s) x) ->
  iw START = pm_read (words s) START -> iw WRITE = pm_read (words s) WRITE ->
  contents ib iw = log_contents s.
Proof.
  intros L Hb Hs Hw. unfold log_contents, contents. rewrite Hs, Hw. apply bytes_at_ext.
  intros x Hx. apply Hb. lia.
Qed.

Lemma shrinks_image c c' v : c_pending c = [] -> shrinks c c' -> v ∈ values c' -> v = c_durable c.
Proof.
  intros Hp Hs Hv. destruct (shrinks_durable _ _ Hs Hp) as [Hp' Hd'].
  unfold values in Hv. rewrite Hp', Hd' in Hv. by apply list_elem_of_singleton in Hv.
Qed.

Lemma read_in_values (m : pmem) x : pm_read m x ∈ values (m x).
Proof.
  unfold pm_read, values. destruct (c_pending (m x)) as [|v l] using rev_ind; [left|].
  rewrite List.last_last. right. apply elem_of_app. right. left.
Qed.

(** A durable word with a pending store. *)
Lemma stored_values w a v u : pm_durable w a -> u ∈ values (pm_store w a v a) -> u = pm_read w a \/ u = v.
Proof.
  unfold pm_durable, pm_store, values, pm_read. rewrite decide_True by done. intros ->. simpl. intros Hin.
  apply elem_of_cons in Hin as [->|Hin]; [by left|right]. by apply list_elem_of_singleton in Hin.
Qed.

Lemma durable_values w a u : pm_durable w a -> u ∈ values (w a) -> u = pm_read w a.
Proof. unfold pm_durable, values, pm_read. intros -> H. by apply list_elem_of_singleton in H. Qed.

(** The last step of an append or a rewind. *)
Lemma persist_offset_spec sync s :
  0 <= base -> base + POOL_HDR_SIZE + 24 <= 2 ^ 64 - 64 -> is_pmem plp = true \/ sync = true ->
  exists s', persist_offset lib plp sync s = Some s' /\
    (forall x, shrinks (bytes s x) (bytes s' x)) /\ (forall x, shrinks (words s x) (words s' x)) /\
    (forall a, pm_read (words s') a = pm_read (words s) a) /\ pm_durable (words s') WRITE.
Proof using Hlib.
  intros Hb0 Hb1 Hsync. unfold persist_offset, write_offset, POOL_HDR_SIZE in *. destruct (is_pmem plp).
  - destruct (pmem_persist_spec lib (base + 4096 + 16) 8 (bytes s) Hlib) as (b & -> & _ & _ & Hs);
      [unfold range_ok; lia|]. cbn [mbind option_bind].
    destruct (pmem_persist_spec lib (base + 4096 + 16) 8 (words s) Hlib) as (w & -> & Hr & Hd & Hs');
      [unfold range_ok; lia|]. cbn [mbind option_bind].
    eexists. split; [done|]. split_and!; [done..|]. apply Hd. lia.
  - destruct Hsync as [| ->]; [done|].
    destruct (pmem_msync_spec (base + 4096 + 16) 8 (words s)) as (w & -> & Hr & Hd & Hs); [lia..|].
    eexists. split; [done|]. simpl. split_and!; [intros x; apply shrinks_refl|done..|]. apply Hd. lia.
Qed.

(** ** Data on its way *)

Section Staged.
Context (s0 : log_mem) (L : log_ok s0).
Let lo := base + pm_read (words s0) WRITE.

Definition datum (d : list Z) (x : Z) : Z := default 0 (d !! Z.to_nat (x - lo)).

(** [d] has been written after the end of the log, and nothing else. *)
Record staged (d : list Z) (s : log_mem) : Prop := {
  st_words : words s = words s0;
  st_bytes : filled (bytes s0) (datum d) lo (lo + Z.of_nat (length d)) (bytes s);
  st_flushed x : is_pmem plp = true -> lo <= x < lo + Z.of_nat (length d) -> flushed_by lib (bytes s x);
}.

Lemma staged_start : staged [] s0.
Proof.
  split; [done| |intros; simpl in *; lia]. simpl. rewrite Z.add_0_r. apply placed_start.
Qed.

(** The bytes of the log are not touched. *)
Lemma staged_old d s x :
  staged d s -> base + pm_read (words s0) START <= x < lo ->
  pm_durable (bytes s) x /\ c_durable (bytes s x) = pm_read (bytes s0) x.
Proof using L.
  intros St Hx. pose proof (lo_bytes _ L x Hx) as Hd.
  assert (Hn : ~ (lo <= x < lo + Z.of_nat (length d))) by lia.
  destruct (shrinks_durable _ _ (filled_rest _ _ _ _ _ (st_bytes _ _ St) x Hn) Hd) as [Hp E].
  split; [done|]. rewrite E. unfold pm_read. by rewrite Hd.
Qed.

(** Until the offset is stored, a crash leaves the old log. *)
Lemma staged_crash d s w_lo w_hi ib iw :
  staged d s -> lo <= w_lo \/ w_hi <= w_lo -> crash (mkMoment s w_lo w_hi) ib iw ->
  contents ib iw = log_contents s0 /\ descr iw.
Proof using L.
  intros St Hw [Hb Hiw]. simpl in *. rewrite (st_words _ _ St) in Hiw.
  assert (Eiw : forall a, a = START \/ a = END \/ a = WRITE -> iw a = pm_read (words s0) a).
  { intros a Ha. apply image_word; [by apply (lo_words _ L)|apply Hiw]. }
  split.
  - apply image_contents; [done| |apply Eiw; tauto..]. intros x Hx.
    destruct (staged_old d s x St Hx) as [Hp Hd]. assert (Hin : ~ (w_lo <= x < w_hi)) by lia.
    specialize (Hb x Hin). unfold values in Hb. rewrite Hp, Hd in Hb. by apply list_elem_of_singleton in Hb.
  - unfold descr. rewrite !Eiw by tauto. apply (lo_descr _ L).
Qed.

(** The copy of a buffer that does not overlap the free part of the log. *)
Lemma copy_in_spec dst buf count s :
  range_ok dst count -> 0 <= buf -> buf + count <= 2 ^ 64 -> buf <> dst ->
  exists s1, copy_in lib plp dst buf count s = Some (s1, mkMoment s dst (dst + count)) /\
    words s1 = words s /\
    filled (bytes s) (fun x => pm_read (bytes s) (x - dst + buf)) dst (dst + count) (bytes s1) /\
    (is_pmem plp = true -> forall x, dst <= x < dst + count -> flushed_by lib (bytes s1 x)).
Proof using Hlib.
  intros Hr Hb Hb1 Hne. unfold copy_in, pmem_memcpy_nodrain. destruct (is_pmem plp).
  - destruct (pmem_memmove_nodrain_ok lib Hlib dst buf count (bytes s)) as (b & -> & Hf & Hfl); [done..|by right|].
    eexists. split; [done|]. split_and!; [done..|]. by intros _.
  - eexists. split; [done|]. split_and!; [done| |done].
    apply memmove_filled. apply Hr.
Qed.

Lemma staged_copy d s buf count :
  staged d s -> 0 <= count -> lo + Z.of_nat (length d) + count <= 2 ^ 64 - 64 ->
  0 <= buf -> buf + count <= 2 ^ 64 -> buf <> lo + Z.of_nat (length d) ->
  buf + count <= lo \/ lo + Z.of_nat (length d) + count <= buf ->
  exists s1, copy_in lib plp (lo + Z.of_nat (length d)) buf count s =
      Some (s1, mkMoment s (lo + Z.of_nat (length d)) (lo + Z.of_nat (length d) + count)) /\
    staged (d ++ load (bytes s0) buf count) s1.
Proof using Hlib L.
  intros St Hc Hr Hb Hb1 Hne Hdis. pose proof (lo_descr _ L) as (Hd1 & Hd2 & Hd3 & Hd4).
  assert (Hlo : 0 <= lo) by (unfold lo, POOL_HDR_SIZE in *; lia).
  destruct (copy_in_spec (lo + Z.of_nat (length d)) buf count s) as (s1 & E & Hw & Hf & Hfl);
    [unfold range_ok; lia|done..|].
  exists s1. split; [done|].
  assert (Hlen : length (load (bytes s0) buf count) = Z.to_nat count).
  { unfold load. by rewrite length_fmap, length_seq. }
  split; [by rewrite Hw; apply St| |]; rewrite length_app, Hlen, Nat2Z.inj_add, Z2Nat.id, Z.add_assoc by done.
  - eapply filled_join; [|apply (st_bytes _ _ St)|exact Hf|..]; [lia| |]; intros x Hx; unfold datum.
    + by rewrite lookup_app_l by lia.
    + rewrite lookup_app_r by lia. unfold load. rewrite list_lookup_fmap, lookup_seq_lt by lia. simpl.
      rewrite (filled_read _ _ _ _ _ (st_bytes _ _ St)), decide_False by lia. f_equal. lia.
  - intros x Hpm Hx. destruct (decide (x < lo + Z.of_nat (length d))) as [Hlt|]; [|apply Hfl; [done|lia]].
    eapply flushed_shrinks; [..|apply (filled_rest _ _ _ _ _ Hf); lia].
    + apply (filled_ok _ _ _ _ _ (st_bytes _ _ St)), L.
    + apply St; [done|lia].
Qed.

(** The buffers of an append: within memory, apart from the free part of the log,
    and fitting into it. *)
Definition iov_ok (room : Z) (v : Z * Z) : Prop :=
  0 <= v.2 /\ 0 <= v.1 /\ v.1 + v.2 <= 2 ^ 64 /\ (v.1 + v.2 < lo \/ lo + room < v.1).

Definition gather (iov : list (Z * Z)) : list Z :=
  mjoin ((fun v => load (bytes s0) v.1 v.2) <$> iov).

Lemma gather_cons v iov : gather (v :: iov) = load (bytes s0) v.1 v.2 ++ gather iov.
Proof. done. Qed.

Lemma gather_length iov room :
  Forall (iov_ok room) iov -> Z.of_nat (length (gather iov)) = foldr (fun v n => v.2 + n) 0 iov.
Proof.
  induction 1 as [|v iov Hv Hi IH]; [done|]. rewrite gather_cons. cbn [foldr].
  rewrite length_app, Nat2Z.inj_add, IH. unfold load. rewrite length_fmap, length_seq.
  destruct Hv. lia.
Qed.

Lemma append_iovs_spec room iov d s :
  Forall (iov_ok room) iov -> staged d s -> lo + room <= 2 ^ 64 - 64 ->
  Z.of_nat (length (d ++ gather iov)) <= room ->
  exists s' ms, append_iovs lib plp iov (pm_read (words s0) WRITE + Z.of_nat (length d)) s =
      Some (s', pm_read (words s0) WRITE + Z.of_nat (length (d ++ gather iov)), ms) /\
    staged (d ++ gather iov) s' /\
    forall mo ib iw, mo ∈ ms -> crash mo ib iw -> contents ib iw = log_contents s0 /\ descr iw.
Proof using Hlib L.
  intros Hi. revert d s. induction Hi as [|[buf count] iov (Hc & Hb & Hb1 & Hdis) Hi IH]; intros d s St Hr Hlen.
  { exists s, []. change (gather []) with (@nil Z). simpl. rewrite app_nil_r. split_and!; [done..|].
    intros mo ib iw H. by apply elem_of_nil in H. }
  rewrite gather_cons, app_assoc in Hlen |- *. cbn [fst snd append_iovs] in *.
  pose proof (lo_descr _ L) as (Hd1 & Hd2 & Hd3 & Hd4).
  assert (Hcl : Z.of_nat (length (d ++ load (bytes s0) buf count)) = Z.of_nat (length d) + count).
  { unfold load. rewrite length_app, length_fmap, length_seq. lia. }
  pose proof (length_app (d ++ load (bytes s0) buf count) (gather iov)).
  rewrite Z.add_assoc. fold lo.
  destruct (staged_copy d s buf count) as (s1 & -> & St1); [done|lia..|]. cbn [mbind option_bind].
  rewrite u64_small by (unfold lo, POOL_HDR_SIZE in *; lia).
  replace (pm_read (words s0) WRITE + Z.of_nat (length d) + count)
    with (pm_read (words s0) WRITE + Z.of_nat (length (d ++ load (bytes s0) buf count))) by lia.
  destruct (IH _ s1 St1 Hr Hlen) as (s' & ms & -> & St' & Hms). cbn [mbind option_bind].
  eexists _, _. split_and!; [done..|]. intros mo ib iw Hmo Hcr. apply elem_of_cons in Hmo as [->|Hmo]; [|eauto].
  eapply staged_crash; [exact St| |exact Hcr]. left. lia.
Qed.

(** The data is on the medium; the offset is not yet stored. *)
Definition ready (d : list Z) (b : pmem) : Prop :=
  forall x, base + pm_read (words s0) START <= x < lo + Z.of_nat (length d) ->
  pm_durable b x /\ pm_read b x = if decide (x < lo) then pm_read (bytes s0) x else datum d x.

Lemma ready_shrinks d b b' :
  ready d b -> (forall x, shrinks (b x) (b' x)) -> ready d b'.
Proof.
  intros R Hs x Hx. destruct (R x Hx) as [Hp Hd]. destruct (shrinks_durable _ _ (Hs x) Hp) as [Hp' Hd'].
  split; [done|]. rewrite <- Hd. unfold pm_durable, pm_read in *. by rewrite Hp, Hp', Hd'.
Qed.

Lemma ready_contents d b ib iw :
  ready d b -> (forall x, ib x ∈ values (b x)) -> iw START = pm_read (words s0) START ->
  (iw WRITE = pm_read (words s0) WRITE -> contents ib iw = log_contents s0) /\
  (iw WRITE = pm_read (words s0) WRITE + Z.of_nat (length d) -> contents ib iw = log_contents s0 ++ d).
Proof using L.
  intros R Hib Hs. pose proof (lo_descr _ L) as (Hd1 & _).
  assert (Eib : forall x, base + pm_read (words s0) START <= x < lo + Z.of_nat (length d) ->
    ib x = if decide (x < lo) then pm_read (bytes s0) x else datum d x).
  { intros x Hx. destruct (R x Hx) as [Hp <-]. specialize (Hib x). unfold values, pm_durable, pm_read in *.
    rewrite Hp in *. by apply list_elem_of_singleton in Hib. }
  assert (Hold : bytes_at ib (base + pm_read (words s0) START) (pm_read (words s0) WRITE - pm_read (words s0) START)
    = log_contents s0).
  { apply bytes_at_ext. intros x Hx. rewrite Eib by (unfold lo; lia). by rewrite decide_True by (unfold lo; lia). }
  unfold contents. rewrite Hs. split; intros ->; [done|].
  replace (_ + _ - _) with (pm_read (words s0) WRITE - pm_read (words s0) START + Z.of_nat (length d)) by lia.
  rewrite bytes_at_app, Hold by lia. f_equal. replace (_ + _ + _) with lo by (unfold lo; lia).
  apply bytes_at_list. intros x Hx. rewrite Eib by (unfold lo in *; lia). by rewrite decide_False by lia.
Qed.

(** Making the data durable. *)
Lemma staged_ready d s b :
  staged d s -> (forall x, pm_read b x = pm_read (bytes s) x) ->
  (forall x, pm_durable (bytes s) x -> pm_durable b x) ->
  (forall x, lo <= x < lo + Z.of_nat (length d) -> pm_durable b x) -> ready d b.
Proof using L.
  intros St Hrd Hk Hd x Hx. destruct (decide (x < lo)) as [Hlt|Hge].
  - destruct (staged_old d s x St) as [Hp _]; [unfold lo in *; lia|]. split; [by apply Hk|].
    rewrite Hrd, (filled_read _ _ _ _ _ (st_bytes _ _ St)), decide_False by lia. done.
  - split; [apply Hd; lia|]. rewrite Hrd, (filled_read _ _ _ _ _ (st_bytes _ _ St)), decide_True by lia. done.
Qed.

Lemma persist_data_spec sync d s :
  staged d s -> is_pmem plp = true \/ sync = true -> lo + Z.of_nat (length d) <= 2 ^ 64 - 64 ->
  let s1 := persist_data lib plp sync (pm_read (words s0) WRITE) (Z.of_nat (length d)) s in
  ready d (bytes s1) /\ (forall x, cell_ok (bytes s1 x)) /\
  (forall a, a = START \/ a = END \/ a = WRITE -> pm_durable (words s1) a) /\
  (forall a, pm_read (words s1) a = pm_read (words s0) a).
Proof using L.
  intros St Hsync Hr s1. pose proof (lo_descr _ L) as (Hd1 & _ & Hd3 & _).
  assert (Hok : forall x, cell_ok (bytes s x)) by (intros x; apply (filled_ok _ _ _ _ _ (st_bytes _ _ St)), L).
  subst s1. unfold persist_data. destruct (is_pmem plp) eqn:Epm; simpl; rewrite (st_words _ _ St).
  - destruct (pmem_drain_spec lib (bytes s)) as (Hrd & Hdr & Hk).
    destruct (pmem_drain_spec lib (words s0)) as (Hrd' & _ & Hk'). split_and!.
    + apply (staged_ready d s); [done..|]. intros x Hx. by apply Hdr, St.
    + intros x. by apply (shrinks_values _ _ (pmem_drain_shrinks lib (bytes s) x)).
    + intros a Ha. by apply Hk', L.
    + apply Hrd'.
  - destruct Hsync as [| ->]; [done|].
    destruct (pmem_msync_spec lo (Z.of_nat (length d)) (bytes s)) as (b & E & Hrd & Hdr & Hs);
      [unfold lo, POOL_HDR_SIZE in *; lia..|]. fold lo. rewrite E. simpl. split_and!.
    + apply (staged_ready d s); [done|done| |done]. intros x Hx. by apply (shrinks_durable _ _ (Hs x)).
    + intros x. by apply (shrinks_values _ _ (Hs x)).
    + intros a Ha. by apply L.
    + done.
Qed.

(** What a crash finds in the descriptor: the old or the new offset. *)
Lemma descr_either iw (d : list Z) :
  (forall a, a = START \/ a = END -> iw a = pm_read (words s0) a) ->
  pm_read (words s0) WRITE + Z.of_nat (length d) <= pm_read (words s0) END ->
  iw WRITE = pm_read (words s0) WRITE \/ iw WRITE = pm_read (words s0) WRITE + Z.of_nat (length d) ->
  descr iw.
Proof using L.
  intros H Hr Hw. pose proof (lo_descr _ L) as (H1 & H2 & H3 & H4). unfold descr.
  rewrite (H START), (H END) by tauto. split_and!; try tauto; lia.
Qed.

Lemma ready_crash d b w ib iw :
  ready d b -> pm_read (words s0) WRITE + Z.of_nat (length d) <= pm_read (words s0) END ->
  (forall a, a = START \/ a = END -> pm_durable w a /\ pm_read w a = pm_read (words s0) a) ->
  (forall v, v ∈ values (w WRITE) -> v = pm_read (words s0) WRITE \/
     v = pm_read (words s0) WRITE + Z.of_nat (length d)) ->
  crash (between (mkLog b w)) ib iw ->
  (contents ib iw = log_contents s0 \/ contents ib iw = log_contents s0 ++ d) /\ descr iw.
Proof using L.
  intros R Hr Hw Hwr [Hib Hiw]. simpl in *.
  assert (Eiw : forall a, a = START \/ a = END -> iw a = pm_read (words s0) a).
  { intros a Ha. destruct (Hw a Ha) as [Hd <-]. by apply (image_word (mkLog b w)). }
  assert (Hib' : forall x, ib x ∈ values (b x)) by (intros x; apply Hib; lia).
  destruct (ready_contents d b ib iw R Hib') as [Hc1 Hc2]; [apply Eiw; tauto|].
  pose proof (Hwr _ (Hiw WRITE)) as Hv. split; [destruct Hv; auto|by apply (descr_either iw d)].
Qed.

(** The log after an append. *)
Lemma ready_done d s :
  ready d (bytes s) -> pm_read (words s0) WRITE + Z.of_nat (length d) <= pm_read (words s0) END ->
  (forall a, a = START \/ a = END -> pm_durable (words s) a /\ pm_read (words s) a = pm_read (words s0) a) ->
  pm_durable (words s) WRITE -> pm_read (words s) WRITE = pm_read (words s0) WRITE + Z.of_nat (length d) ->
  (forall x, cell_ok (bytes s x)) ->
  log_ok s /\ log_contents s = log_contents s0 ++ d.
Proof using L.
  intros R Hr Hw Dw Rw Hok.
  assert (Es : pm_read (words s) START = pm_read (words s0) START) by (apply Hw; tauto). split.
  - split; [|intros a [-> |[-> | ->]]; [apply Hw; tauto..|done]| |done].
    + apply (descr_either _ d); [intros a Ha; by apply Hw|done|by right].
    + intros x. rewrite Es, Rw. intros Hx. apply R. unfold lo. lia.
  - apply (ready_contents d (bytes s)); [done|intros x; apply read_in_values|done..].
Qed.

(** The words after the new offset has been stored. *)
Lemma offset_stored (d : list Z) w :
  (forall a, a = START \/ a = END \/ a = WRITE -> pm_durable w a) ->
  (forall a, pm_read w a = pm_read (words s0) a) ->
  let w2 := pm_store w WRITE (pm_read (words s0) WRITE + Z.of_nat (length d)) in
  (forall a, a = START \/ a = END -> pm_durable w2 a /\ pm_read w2 a = pm_read (words s0) a) /\
  (forall v, v ∈ values (w2 WRITE) -> v = pm_read (words s0) WRITE \/
     v = pm_read (words s0) WRITE + Z.of_nat (length d)).
Proof.
  intros Dw Rw w2. split.
  - intros a Ha. rewrite <- Rw. unfold pm_durable, pm_read, w2.
    rewrite pm_store_ne by (unfold start_offset, end_offset, write_offset in *; lia).
    split; [apply Dw; tauto|done].
  - intros v Hv. apply stored_values in Hv as [-> | ->]; [left; apply Rw|by right|apply Dw; tauto].
Qed.

Lemma persist_spec sync d s :
  staged d s -> is_pmem plp = true \/ sync = true ->
  pm_read (words s0) WRITE + Z.of_nat (length d) <= pm_read (words s0) END ->
  exists s3 ms, pmemlog_persist lib plp sync (pm_read (words s0) WRITE + Z.of_nat (length d)) s = Some (s3, ms) /\
    log_ok s3 /\ log_contents s3 = log_contents s0 ++ d /\
    forall mo ib iw, mo ∈ ms -> crash mo ib iw ->
      (contents ib iw = log_contents s0 \/ contents ib iw = log_contents s0 ++ d) /\ descr iw.
Proof using Hlib L.
  intros St Hsync Hr. pose proof (lo_descr _ L) as (Hd1 & Hd2 & Hd3 & Hd4). unfold pmemlog_persist.
  rewrite (st_words _ _ St). replace (_ + _ - _) with (Z.of_nat (length d)) by lia.
  rewrite u64_small by (unfold POOL_HDR_SIZE in *; lia).
  destruct (persist_data_spec sync d s St Hsync) as (R1 & Ok1 & Dw1 & Rw1); [unfold lo; lia|].
  set (s1 := persist_data lib plp sync (pm_read (words s0) WRITE) (Z.of_nat (length d)) s) in *.
  destruct (offset_stored d (words s1) Dw1 Rw1) as [Hw2 Hv2].
  set (w2 := pm_store (words s1) WRITE (pm_read (words s0) WRITE + Z.of_nat (length d))) in *.
  destruct (persist_offset_spec sync (mkLog (bytes s1) w2)) as (s3 & -> & Sb & Sw & Rw & Dw);
    [done|unfold POOL_HDR_SIZE in *; lia|done|]. cbn [mbind option_bind]. simpl in Sb, Sw, Rw.
  pose proof (ready_shrinks d _ _ R1 Sb) as R3.
  assert (Hw3 : forall a, a = START \/ a = END ->
    pm_durable (words s3) a /\ pm_read (words s3) a = pm_read (words s0) a).
  { intros a Ha. destruct (Hw2 a Ha) as [Hp Hq]. split; [by apply (shrinks_durable _ _ (Sw a))|by rewrite Rw]. }
  destruct (ready_done d s3) as [Ok3 Hc3]; try done.
  { rewrite Rw. apply pm_read_store_eq. }
  { intros x. by apply (shrinks_values _ _ (Sb x)). }
  eexists _, _. split_and!; [done..|]. intros mo ib iw Hmo Hcr.
  repeat (apply elem_of_cons in Hmo as [->|Hmo]); [| | | |by apply elem_of_nil in Hmo].
  - destruct (staged_crash d s 0 0 ib iw St) as [H1 H2]; [lia|done|auto].
  - destruct s1 as [b1 w1]. apply (ready_crash d b1 w1); [done..| | |done].
    + intros a Ha. split; [apply Dw1; tauto|apply Rw1].
    + intros v Hv. left. rewrite <- Rw1. apply durable_values; [apply Dw1; tauto|done].
  - by apply (ready_crash d (bytes s1) w2).
  - destruct s3 as [b3 w3]. apply (ready_crash d b3 w3); [done..| |done].
    intros v Hv. right. rewrite <- (pm_read_store_eq (words s1) WRITE), <- Rw.
    by apply durable_values.
Qed.

End Staged.

(** An operation that appends [d] to [s]: it returns 0, the new log is durable, and
    at no moment can a crash leave anything but the old or the new log. *)
Definition appends (r : option ((Z * Z) * log_mem * list moment)) (s : log_mem) (d : list Z) : Prop :=
  exists s' ms, r = Some ((0, 0), s', ms) /\ log_ok s' /\ log_contents s' = log_contents s ++ d /\
    forall mo ib iw, mo ∈ ms -> crash mo ib iw ->
      (contents ib iw = log_contents s \/ contents ib iw = log_contents s ++ d) /\ descr iw.

Definition room (s : log_mem) : Z := pm_read (words s) END - pm_read (words s) WRITE.

Lemma iov_count_sum (iov : list (Z * Z)) : forall c,
  Forall (fun v => 0 <= v.2) iov -> 0 <= c -> c + foldr (fun v n => v.2 + n) 0 iov < 2 ^ 64 ->
  foldl (fun c v => u64 (c + v.2)) c iov = c + foldr (fun v n => v.2 + n) 0 iov.
Proof.
  induction iov as [|v iov IH]; intros c Hv Hc Hs; simpl in *; [lia|].
  apply Forall_cons in Hv as [Hv Hi].
  assert (Hpos : 0 <= foldr (fun v n => v.2 + n) 0 iov) by (clear IH Hs; induction Hi; simpl; lia).
  rewrite u64_small, IH by (done || lia). lia.
Qed.

Lemma appendv_spec sync iov s :
  log_ok s -> rdonly plp = false -> is_pmem plp = true \/ sync = true -> iov <> [] ->
  Forall (iov_ok s (room s)) iov -> foldr (fun v n => v.2 + n) 0 iov < 2 ^ 64 ->
  if decide (0 < room s /\ foldr (fun v n => v.2 + n) 0 iov <= room s)
  then appends (pmemlog_appendv lib plp 0 sync iov s) s (gather s iov)
  else pmemlog_appendv lib plp 0 sync iov s = Some ((-1, ENOSPC), s, []).
Proof using Hlib.
  intros L Hro Hsync Hne Hiov Hsum. pose proof (lo_descr _ L) as (Hd1 & Hd2 & Hd3 & Hd4).
  unfold pmemlog_appendv. destruct iov as [|v iov]; [done|]. set (vs := v :: iov) in *. rewrite Hro. simpl negb. cbn match.
  unfold iov_count. rewrite iov_count_sum, Z.add_0_l; [|by eapply Forall_impl; [done|intros ? (? & _)]|lia..].
  unfold room in *. set (W := pm_read (words s) WRITE) in *. set (E := pm_read (words s) END) in *.
  case_decide as Hr.
  - rewrite (proj2 (Z.leb_gt E W)), (proj2 (Z.ltb_ge _ _)) by lia.
    pose proof (gather_length s vs _ Hiov) as Hlen.
    destruct (append_iovs_spec s L (E - W) vs [] s Hiov (staged_start s)) as (s1 & ms1 & E1 & St & Hms1);
      [unfold W, E in *; lia|simpl; lia|].
    change ([] ++ gather s vs) with (gather s vs) in E1, St.
    change (Z.of_nat (length (@nil Z))) with 0 in E1. rewrite Z.add_0_r in E1. fold W in E1. rewrite E1.
    cbn [mbind option_bind].
    destruct (persist_spec s L sync (gather s vs) s1 St Hsync) as (s3 & ms & E3 & Ok3 & Hc3 & Hms); [lia|].
    fold W in E3. rewrite E3. cbn [mbind option_bind]. eexists _, _. split_and!; [done..|].
    intros mo ib iw Hmo Hcr. apply elem_of_app in Hmo as [Hmo|Hmo]; [|by apply (Hms mo)].
    destruct (Hms1 mo ib iw Hmo Hcr). auto.
  - destruct (Z.leb_spec E W); [done|]. by rewrite (proj2 (Z.ltb_lt _ _)) by lia.
Qed.

Lemma append_spec sync buf count s :
  log_ok s -> rdonly plp = false -> is_pmem plp = true \/ sync = true ->
  iov_ok s (room s) (buf, count) ->
  if decide (0 < room s /\ count <= room s)
  then appends (pmemlog_append lib plp 0 sync buf count s) s (load (bytes s) buf count)
  else pmemlog_append lib plp 0 sync buf count s = Some ((-1, ENOSPC), s, []).
Proof using Hlib.
  intros L Hro Hsync (Hc & Hb & Hb1 & Hdis). pose proof (lo_descr _ L) as (Hd1 & Hd2 & Hd3 & Hd4).
  unfold pmemlog_append. rewrite Hro. simpl negb. cbn match. unfold room in *. cbn [fst snd] in *.
  set (W := pm_read (words s) WRITE) in *. set (E := pm_read (words s) END) in *.
  case_decide as Hr.
  - rewrite (proj2 (Z.leb_gt E W)), (proj2 (Z.ltb_ge _ _)) by lia.
    destruct (staged_copy s L [] s buf count (staged_start s)) as (s1 & E1 & St); fold W; [simpl; lia..|].
    simpl in E1, St. rewrite Z.add_0_r in E1. fold W in E1. rewrite E1. cbn [mbind option_bind].
    assert (Hlen : Z.of_nat (length (load (bytes s) buf count)) = count).
    { unfold load. rewrite length_fmap, length_seq. lia. }
    destruct (persist_spec s L sync _ s1 St Hsync) as (s3 & ms & E3 & Ok3 & Hc3 & Hms); [fold W; fold E; lia|].
    rewrite Hlen in E3. fold W in E3. rewrite u64_small, E3 by (unfold W, E, POOL_HDR_SIZE in *; lia).
    cbn [mbind option_bind]. eexists _, _. split_and!; [done..|].
    intros mo ib iw Hmo Hcr. apply elem_of_cons in Hmo as [->|Hmo]; [|by apply (Hms mo)].
    edestruct (staged_crash s L [] s) as [H1 H2]; [apply staged_start| |exact Hcr|auto]. left. unfold W. lia.
  - destruct (Z.leb_spec E W); [done|]. by rewrite (proj2 (Z.ltb_lt _ _)) by lia.
Qed.

(** ** Rewinding *)

Lemma empty_contents ib iw v : iw START = v -> iw WRITE = v -> contents ib iw = [].
Proof. intros Hs Hw. unfold contents. by rewrite Hs, Hw, Z.sub_diag. Qed.

Lemma descr_rewound s iw :
  log_ok s -> (forall a, a = START \/ a = END -> iw a = pm_read (words s) a) ->
  iw WRITE = pm_read (words s) WRITE \/ iw WRITE = pm_read (words s) START -> descr iw.
Proof.
  intros L H Hw. pose proof (lo_descr _ L) as (Hd1 & Hd2 & Hd3 & Hd4).
  unfold descr. rewrite (H START), (H END) by tauto. split_and!; lia.
Qed.

Lemma rewind_crash s b w ib iw :
  log_ok s -> (forall x, shrinks (bytes s x) (b x)) ->
  (forall a, a = START \/ a = END -> pm_durable w a /\ pm_read w a = pm_read (words s) a) ->
  (forall v, v ∈ values (w WRITE) -> v = pm_read (words s) WRITE \/ v = pm_read (words s) START) ->
  crash (between (mkLog b w)) ib iw -> (contents ib iw = log_contents s \/ contents ib iw = []) /\ descr iw.
Proof.
  intros L Hb Hw Hv [Hib Hiw]. simpl in *.
  assert (Eiw : forall a, a = START \/ a = END -> iw a = pm_read (words s) a).
  { intros a Ha. destruct (Hw a Ha) as [Hd <-]. by apply (image_word (mkLog b w)). }
  pose proof (Hv _ (Hiw WRITE)) as HW. split; [|by apply (descr_rewound s)].
  destruct HW as [HW|HW]; [left|right; eapply empty_contents; [apply Eiw; tauto|done]].
  apply image_contents; [done| |apply Eiw; tauto|done]. intros x Hx. pose proof (lo_bytes _ L x Hx) as Hd.
  assert (Hin : ib x ∈ values (b x)) by (apply Hib; lia).
  rewrite (shrinks_image _ _ _ Hd (Hb x) Hin). unfold pm_read. by rewrite Hd.
Qed.

Lemma rewind_spec sync s :
  log_ok s -> rdonly plp = false -> is_pmem plp = true \/ sync = true ->
  exists s' ms, pmemlog_rewind lib plp 0 sync s = Some (s', ms) /\ log_ok s' /\ log_contents s' = [] /\
    forall mo ib iw, mo ∈ ms -> crash mo ib iw ->
      (contents ib iw = log_contents s \/ contents ib iw = []) /\ descr iw.
Proof using Hlib.
  intros L Hro Hsync. pose proof (lo_descr _ L) as (Hd1 & Hd2 & Hd3 & Hd4).
  unfold pmemlog_rewind. rewrite Hro. cbn match. simpl negb. cbn match.
  set (w1 := pm_store (words s) WRITE (pm_read (words s) START)).
  destruct (persist_offset_spec sync (mkLog (bytes s) w1)) as (s2 & -> & Sb & Sw & Rw & Dw);
    [done|unfold POOL_HDR_SIZE in *; lia|done|]. simpl in Sb, Sw, Rw.
  assert (Hne : forall a, a = START \/ a = END -> w1 a = words s a).
  { intros a Ha. apply pm_store_ne. unfold start_offset, end_offset, write_offset in *. lia. }
  assert (H2 : forall a, a = START \/ a = END -> pm_durable (words s2) a /\ pm_read (words s2) a = pm_read (words s) a).
  { intros a Ha. rewrite Rw. unfold pm_read. rewrite (Hne a Ha). split; [|done].
    apply (shrinks_durable _ _ (Sw a)). rewrite (Hne a Ha). apply L. tauto. }
  assert (HW2 : pm_read (words s2) WRITE = pm_read (words s) START) by (rewrite Rw; apply pm_read_store_eq).
  eexists s2, _. split; [done|]. split_and!.
  - split; [apply (descr_rewound s); [done|intros a Ha; by apply H2|by right]| | |].
    + intros a [-> |[-> | ->]]; [apply H2; tauto..|done].
    + intros x. rewrite HW2, (proj2 (H2 START (or_introl eq_refl))). lia.
    + intros x. apply (shrinks_values _ _ (Sb x)), L.
  - eapply empty_contents; [apply H2; tauto|done].
  - intros mo ib iw Hmo Hcr. repeat (apply elem_of_cons in Hmo as [->|Hmo]); [| | |by apply elem_of_nil in Hmo].
    + destruct s as [b w]. apply (rewind_crash (mkLog b w) b w); [done|intros x; apply shrinks_refl|..|done].
      * intros a Ha. split; [apply L; tauto|done].
      * intros v Hv. left. apply durable_values; [apply L; tauto|done].
    + apply (rewind_crash s (bytes s) w1); [done|intros x; apply shrinks_refl|..|done].
      * intros a Ha. unfold pm_durable, pm_read. rewrite (Hne a Ha). split; [apply L; tauto|done].
      * intros v. apply stored_values, L. tauto.
    + destruct s2 as [b2 w2]. apply (rewind_crash s b2 w2); [done..| |done].
      intros v Hv. right. rewrite <- HW2. by apply durable_values.
Qed.

(** ** Walking *)

(** A list in pieces of [k], and a callback applied to them until it stops. *)
Fixpoint pieces (fuel k : nat) (l : list Z) : list (list Z) :=
  match fuel, l with
  | S fuel', _ :: _ => take k l :: pieces fuel' k (drop k l)
  | _, _ => []
  end.

Lemma pieces_join fuel k l : (0 < k)%nat -> (length l <= fuel)%nat -> mjoin (pieces fuel k l) = l.
Proof.
  intros Hk. revert l. induction fuel as [|fuel IH]; intros [|x l] Hl; try done; [simpl in Hl; lia|].
  change (mjoin (pieces (S fuel) k (x :: l)))
    with (take k (x :: l) ++ mjoin (pieces fuel k (drop k (x :: l)))).
  rewrite IH; [apply take_drop|]. rewrite length_drop. simpl in *. lia.
Qed.

Fixpoint walk_pieces {A} (f : list Z -> A -> A * bool) (ps : list (list Z)) (arg : A) : A :=
  match ps with
  | [] => arg
  | c :: ps' => let '(arg', more) := f c arg in if more : bool then walk_pieces f ps' arg' else arg'
  end.

Lemma walk_loop_spec {A} (f : list Z -> A -> A * bool) cs W s fuel : forall off arg,
  0 < cs -> 0 <= off -> W + cs <= 2 ^ 64 -> W - off < Z.of_nat fuel -> (0 < fuel)%nat ->
  walk_loop plp f fuel cs W off s arg =
    Some (walk_pieces f (pieces fuel (Z.to_nat cs) (bytes_at (pm_read (bytes s)) (base + off) (W - off))) arg).
Proof.
  induction fuel as [|fuel IH]; intros off arg Hcs Hoff HW Hf Hpos; [lia|cbn [walk_loop]].
  destruct (Z.ltb_spec off W) as [Hlt|Hge].
  - assert (E : exists x l, bytes_at (pm_read (bytes s)) (base + off) (W - off) = x :: l).
    { destruct (bytes_at _ _ _) as [|x l] eqn:E; [|eauto]. apply (f_equal length) in E.
      rewrite bytes_at_length in E. simpl in E. lia. }
    destruct E as (x & l & E). rewrite E. cbn [pieces walk_pieces]. rewrite <- E. rewrite bytes_at_take by lia.
    change (load (bytes s) (base + off) (Z.min cs (W - off)))
      with (bytes_at (pm_read (bytes s)) (base + off) (Z.min cs (W - off))).
    destruct (f _ arg) as [arg' []]; [|done]. rewrite u64_small, IH by lia. do 3 f_equal.
    destruct (decide (cs <= W - off)).
    + rewrite bytes_at_drop by lia. f_equal; lia.
    + rewrite drop_ge by (rewrite bytes_at_length; lia). unfold bytes_at.
      by replace (Z.to_nat (W - (off + cs))) with 0%nat by lia.
  - unfold bytes_at. by replace (Z.to_nat (W - off)) with 0%nat by lia.
Qed.

End Proofs.

(** ** Properties *)

(** C13: appending to a log is atomic.  On a consistent log of a pool that can be
    written, and whose [msync]s succeed if it is not on persistent memory:
    [pmemlog_append] and [pmemlog_appendv] return 0 when the data fits, leave the
    log durable with the data added, and a crash at any moment leaves the log
    either without any of the data or with all of it; data that does not fit is
    refused with ENOSPC and nothing changes.  [pmemlog_rewind] is atomic in the
    same sense. *)
Theorem pmemlog_append_atomic c plp sync s buf count iov :
  log_ok plp s -> rdonly plp = false -> is_pmem plp = true \/ sync = true ->
  iov_ok plp s (room plp s) (buf, count) ->
  iov <> [] -> Forall (iov_ok plp s (room plp s)) iov -> foldr (fun v n => v.2 + n) 0 iov < 2 ^ 64 ->
  (if decide (0 < room plp s /\ count <= room plp s)
   then appends plp (pmemlog_append (pmem_init c) plp 0 sync buf count s) s (load (bytes s) buf count)
   else pmemlog_append (pmem_init c) plp 0 sync buf count s = Some ((-1, ENOSPC), s, [])) /\
  (if decide (0 < room plp s /\ foldr (fun v n => v.2 + n) 0 iov <= room plp s)
   then appends plp (pmemlog_appendv (pmem_init c) plp 0 sync iov s) s (gather s iov)
   else pmemlog_appendv (pmem_init c) plp 0 sync iov s = Some ((-1, ENOSPC), s, [])) /\
  exists s' ms, pmemlog_rewind (pmem_init c) plp 0 sync s = Some (s', ms) /\ log_ok plp s' /\
    log_contents plp s' = [] /\
    forall mo ib iw, mo ∈ ms -> crash mo ib iw ->
      (contents plp ib iw = log_contents plp s \/ contents plp ib iw = []) /\ descr plp iw.
Proof.
  intros L Hro Hsync Hv Hne Hiov Hsum. pose proof (pmem_init_ok c) as Hlib. split_and!.
  - by apply append_spec.
  - by apply appendv_spec.
  - by apply rewind_spec.
Qed.

(** Walking a log hands its contents to the callback in order, in pieces of the
    chunk size (or at once for 0), until the callback stops it; [pmemlog_tell]
    and [pmemlog_nbyte] give the length of the contents and of the data area; and
    the walk returns, provided that the chunk size added to the write offset does
    not wrap around. *)
Theorem pmemlog_walk_contents {A} plp (f : list Z -> A -> A * bool) s chunksize arg :
  log_ok plp s -> 0 <= chunksize -> pm_read (words s) (write_offset plp) + chunksize <= 2 ^ 64 ->
  let n := length (log_contents plp s) in
  let ps := if chunksize =? 0 then [log_contents plp s]
            else pieces (S n) (Z.to_nat chunksize) (log_contents plp s) in
  pmemlog_walk plp f (S n) 0 chunksize s arg = Some (walk_pieces f ps arg) /\
  mjoin ps = log_contents plp s /\
  pmemlog_tell plp 0 s = Some (Z.of_nat n) /\
  pmemlog_nbyte plp 0 s = Z.of_nat n + room plp s.
Proof.
  intros L Hcs HW n ps. pose proof (lo_descr _ _ L) as (Hd1 & Hd2 & Hd3 & Hd4).
  assert (En : Z.of_nat n = pm_read (words s) (write_offset plp) - pm_read (words s) (start_offset plp)).
  { unfold n, log_contents, contents. rewrite bytes_at_length. lia. }
  unfold POOL_HDR_SIZE in *. split_and!.
  - unfold pmemlog_walk, ps. simpl negb. cbn match. destruct (Z.eqb_spec chunksize 0) as [->|Hne].
    + rewrite u64_small by lia. simpl. unfold log_contents, contents. by destruct (f _ arg) as [? []].
    + rewrite walk_loop_spec by lia. done.
  - unfold ps. destruct (Z.eqb_spec chunksize 0); [apply app_nil_r|]. apply pieces_join; lia.
  - unfold pmemlog_tell. simpl negb. cbn match. rewrite (proj2 (Z.ltb_ge _ _)) by lia. by rewrite En.
  - unfold pmemlog_nbyte, room. simpl negb. cbn match. rewrite u64_small by lia. lia.
Qed.

(** ** Examples *)

Definition plp0 : pmemlog := mkPlp 65536 16384 true false.
Definition log0 : log_mem :=
  mkLog (pm_boot (fun x => x mod 251))
    (pm_boot (fun a => if a =? start_offset plp0 then 8192 else
                       if a =? end_offset plp0 then 16384 else 8195)).

Lemma log0_ok : log_ok plp0 log0.
Proof. split; [split_and!; vm_compute; discriminate|done..|]. intros x. apply Nat.le_0_l. Qed.

Lemma pmemlog_append_atomic_witness :
  appends plp0 (pmemlog_append (pmem_init cpu_clwb) plp0 0 true 100 5 log0) log0 [100; 101; 102; 103; 104].
Proof.
  apply (pmemlog_append_atomic cpu_clwb plp0 true log0 100 5 [(100, 5)] log0_ok); try done.
  - by left.
  - split_and!; [vm_compute; discriminate..|]. left. vm_compute. reflexivity.
  - repeat constructor; vm_compute; first [discriminate|reflexivity|left; reflexivity].
Defined.

Lemma pmemlog_walk_contents_witness :
  pmemlog_walk plp0 (fun c acc => (acc ++ [c], true)) 4 0 2 log0 [] =
    Some [[185; 186]; [187]].
Proof.
  apply (pmemlog_walk_contents plp0 (fun c acc => (acc ++ [c], true)) log0 2 []); [apply log0_ok|lia|].
  vm_compute. discriminate.
Defined.

(** A failed [msync] is not reported: the append returns 0, and a crash can leave
    the new offset without the data. *)
Lemma append_ignores_msync :
  let plp := mkPlp 65536 16384 false false in
  exists s' ms ib iw, pmemlog_append (pmem_init cpu_clwb) plp 0 false 100 1 log0 = Some ((0, 0), s', ms) /\
    crash (between s') ib iw /\ contents plp ib iw = [185; 186; 187; 188] /\
    log_contents plp s' = [185; 186; 187; 100].
Proof.
  eexists ?[s], _, (pm_read (bytes log0)), (pm_read (words ?s)). split; [reflexivity|]. split; [split|split].
  - intros x _. simpl. unfold memmove, write. case_match; left.
  - intros x. apply read_in_values.
  - vm_compute. reflexivity.
  - vm_compute. reflexivity.
Qed.

(** With the largest chunk size the offset wraps around and the callback is given
    bytes that are not in the log. *)
Lemma walk_wraps :
  pmemlog_walk plp0 (fun c acc => (acc ++ [c], negb (2 <=? length acc)%nat)) 4 0 (2 ^ 64 - 1) log0 [] =
    Some [[185; 186; 187]; [184; 185; 186; 187]; [183; 184; 185; 186; 187]].
Proof. vm_compute. reflexivity. Qed.

(** A created descriptor is durable and passes both checks. *)
Lemma descr_create_check plp s :
  0 <= plp_addr plp -> 8192 <= plp_size plp -> plp_addr plp + plp_size plp <= 2 ^ 64 - 64 ->
  plp_size plp mod 4096 = 0 ->
  exists s', pmemlog_descr_create plp true (plp_size plp) s = Some (0, s') /\
    (forall a, a = start_offset plp \/ a = end_offset plp \/ a = write_offset plp -> pm_durable (words s') a) /\
    pmemlog_descr_check plp (plp_size plp) s' = (0, 0) /\ pmemlog_check plp s' = true /\
    log_contents plp s' = [].
Proof.
  intros Ha Hsz Hr Hm. unfold pmemlog_descr_create. change Pagesize with 4096. rewrite Hm. simpl negb. cbn match.
  set (w := pm_store _ (write_offset plp) _).
  destruct (pmem_msync_spec (start_offset plp) (3 * 8) w) as (w' & E & Hrd & Hd & _);
    [unfold start_offset, POOL_HDR_SIZE; lia..|].
  rewrite E. eexists. split; [done|].
  assert (Es : pm_read w' (start_offset plp) = 8192 /\ pm_read w' (end_offset plp) = plp_size plp /\
    pm_read w' (write_offset plp) = 8192).
  { rewrite !Hrd. unfold w. rewrite pm_read_store_eq. unfold start_offset, end_offset, write_offset.
    rewrite !pm_read_store_ne by lia. rewrite !pm_read_store_eq.
    rewrite !pm_read_store_ne by lia. rewrite !pm_read_store_eq. done. }
  destruct Es as (E1 & E2 & E3). split_and!.
  - intros a H. apply Hd. unfold start_offset, end_offset, write_offset in *. lia.
  - unfold pmemlog_descr_check. cbn [words snd]. rewrite E1, E2, E3. change (roundup _ _) with 8192.
    rewrite Z.eqb_refl, Z.eqb_refl, (proj2 (Z.ltb_ge _ _)) by lia. done.
  - unfold pmemlog_check. cbn [words snd]. rewrite E1, E2, E3. change (roundup _ _) with 8192.
    rewrite Z.eqb_refl, Z.eqb_refl, (proj2 (Z.ltb_ge _ _)) by lia. done.
  - eapply empty_contents; [exact E1|exact E3].
Qed.
