(* ===== verification/Programs.v ===== *)
(** * Programs over persistent memory

    The NVML code works on 8-byte words: a location of [Pmem] stands for the
    aligned word at that address, and an aligned store is atomic.  A function
    issues a sequence of stores, flushes and fences that may depend on what it
    reads; a crash can come after any prefix of the sequence.  [prog] is the
    monad of such functions: from a memory to a result and the operations
    issued, or to nothing when an assertion of the code fails. *)

From S2P Require Import Prelude Pmem.

Inductive pm_op :=
| Store (a v : Z)
| Flush (a n : Z)
| Fence.

Definition in_range (a n x : Z) : bool := (a <=? x) && (x <? a + n).

Definition run1 (m : pmem) (o : pm_op) : pmem :=
  match o with
  | Store a v => pm_store m a v
  | Flush a n => pm_flush m (in_range a n)
  | Fence => pm_fence m
  end.

Definition run (ops : list pm_op) (m : pmem) : pmem := fold_left run1 ops m.

Definition prog (A : Type) : Type := pmem -> option (A * list pm_op).

Definition ret {A} (x : A) : prog A := fun _ => Some (x, []).
Definition bind {A B} (p : prog A) (f : A -> prog B) : prog B := fun m =>
  '(x, ops) ← p m;
  '(y, ops') ← f x (run ops m);
  Some (y, ops ++ ops').
Definition emit (o : pm_op) : prog unit := fun _ => Some (tt, [o]).
Definition read (a : Z) : prog Z := fun m => Some (pm_read m a, []).
(** [ASSERT]. *)
Definition check (b : bool) : prog unit := fun _ => if b then Some (tt, []) else None.

Notation "'let!' x := p 'in' q" := (bind p (fun x => q))
  (at level 10, x binder, p at level 100, q at level 200) : pmtest_scope.
Notation "p ;; q" := (bind p (fun _ => q)) (at level 100, right associativity) : pmtest_scope.

(** [pop->persist], [pop->flush] and a store. *)
Definition store (a v : Z) : prog unit := emit (Store a v).
Definition flush (a n : Z) : prog unit := emit (Flush a n).
Definition persist (a n : Z) : prog unit := fun _ => Some (tt, [Flush a n; Fence]).

(** The memory after a program that succeeds. *)
Definition exec {A} (p : prog A) (m : pmem) : option (A * pmem) :=
  '(x, ops) ← p m; Some (x, run ops m).

(** The memories a crash of the program can leave: after any prefix of its
    operations, any pending store may be lost. *)
Definition crash_image {A} (p : prog A) (m : pmem) (image : Z -> Z) : Prop :=
  exists x ops k, p m = Some (x, ops) /\ pm_crash (run (take k ops) m) image.

(** ** Running operations *)

Lemma run_app ops1 ops2 m : run (ops1 ++ ops2) m = run ops2 (run ops1 m).
Proof. apply fold_left_app. Qed.

Lemma pm_run_cons o ops m : run (o :: ops) m = run ops (run1 m o).
Proof. done. Qed.

(** A crash leaves one of these. *)
Definition cand (m : pmem) (a : Z) : list Z := c_durable (m a) :: c_pending (m a).

Lemma fence_cand m a v : v ∈ cand (pm_fence m) a -> v ∈ cand m a.
Proof.
  unfold cand, pm_fence, fence_cell. simpl. intros H.
  apply elem_of_cons in H as [->|H].
  - destruct (decide (take (c_flushed (m a)) (c_pending (m a)) = [])) as [E|E].
    + rewrite E. left.
    + right. destruct (exists_last E) as (l & y & E'). rewrite E', List.last_last.
      rewrite <- (take_drop (c_flushed (m a)) (c_pending (m a))), E'.
      apply elem_of_app. left. apply elem_of_app. right. by apply list_elem_of_singleton.
  - right. rewrite <- (take_drop (c_flushed (m a)) (c_pending (m a))).
    apply elem_of_app. by right.
Qed.

Lemma run1_cand m o a v : v ∈ cand (run1 m o) a -> v ∈ cand m a \/ o = Store a v.
Proof.
  destruct o as [b w|b n|]; simpl; [| |intros H; left; by apply fence_cand].
  - unfold cand, pm_store. case_decide as E; [subst b; simpl|by left].
    rewrite app_comm_cons, elem_of_app, list_elem_of_singleton.
    intros [H| ->]; [by left|by right].
  - unfold cand, pm_flush. by destruct (in_range b n a); left.
Qed.

(** A value a crash can leave was there before or has been stored since. *)
Lemma run_cand ops m a v :
  v ∈ cand (run ops m) a -> v ∈ cand m a \/ Store a v ∈ ops.
Proof.
  revert m. induction ops as [|o ops IH]; intros m H; [by left|].
  destruct (IH _ H) as [H1|H1]; [|right; by right].
  apply run1_cand in H1 as [H1| ->]; [by left|right; left].
Qed.

Definition no_store (a : Z) (ops : list pm_op) : Prop := forall v, Store a v ∉ ops.

Lemma no_store_take a ops k : no_store a ops -> no_store a (take k ops).
Proof.
  intros H v Hv. apply (H v). apply elem_of_take in Hv as (i & Hi & _).
  by eapply list_elem_of_lookup_2.
Qed.

Lemma no_store_cand ops m a v : no_store a ops -> v ∈ cand (run ops m) a -> v ∈ cand m a.
Proof. intros H Hv. destruct (run_cand _ _ _ _ Hv) as [|Hs]; [done|by destruct (H v)]. Qed.

Lemma no_store_read ops m a : no_store a ops -> pm_read (run ops m) a = pm_read m a.
Proof.
  revert m. induction ops as [|o ops IH]; intros m H; [done|].
  rewrite pm_run_cons, IH by (intros v Hv; apply (H v); by right).
  destruct o as [b w|b n|]; simpl; [|apply pm_read_flush|apply pm_read_fence].
  apply pm_read_store_ne. intros ->. apply (H w). left.
Qed.

Lemma no_store_durable ops m a : no_store a ops -> pm_durable m a -> pm_durable (run ops m) a.
Proof.
  revert m. induction ops as [|o ops IH]; intros m H Hd; [done|].
  rewrite pm_run_cons. apply IH; [intros v Hv; apply (H v); by right|].
  destruct o as [b w|b n|]; simpl; [| |by apply pm_durable_fence].
  - unfold pm_durable. rewrite pm_store_ne; [done|]. intros ->. apply (H w). left.
  - unfold pm_durable, pm_flush. by destruct (in_range b n a).
Qed.

(** Every pending store of the word is covered by a flush. *)
Definition covered (m : pmem) (a : Z) : Prop :=
  (length (c_pending (m a)) <= c_flushed (m a))%nat.

Lemma covered_fence m a : covered m a -> pm_durable (pm_fence m) a.
Proof. intros H. unfold pm_durable, pm_fence. simpl. by apply drop_ge. Qed.

Lemma covered_flush m r a : r a = true -> covered (pm_flush m r) a.
Proof. intros H. unfold covered, pm_flush. rewrite H. simpl. lia. Qed.

Lemma covered_flush_other m r a : covered m a -> covered (pm_flush m r) a.
Proof. intros H. unfold covered, pm_flush in *. destruct (r a); simpl; lia. Qed.

Lemma persist_durable m a n x :
  a <= x < a + n -> pm_durable (run [Flush a n; Fence] m) x.
Proof.
  intros H. apply covered_fence, covered_flush. unfold in_range. lia.
Qed.

(** What a crash leaves of a durable word. *)
Lemma durable_image m a image : pm_durable m a -> pm_crash m image -> image a = pm_read m a.
Proof. apply pm_durable_crash. Qed.

(** A crash within two sequences comes in the first or in the second. *)
Lemma take_app_cases {A} k (l1 l2 : list A) :
  take k (l1 ++ l2) = take k l1 \/ exists j, take k (l1 ++ l2) = l1 ++ take j l2.
Proof.
  destruct (decide (k <= length l1)%nat).
  - left. by rewrite take_app_le.
  - right. exists (k - length l1)%nat. rewrite take_app_ge by lia. done.
Qed.

(** ** Reasoning about programs *)

Lemma bind_Some {A B} (p : prog A) (f : A -> prog B) m x ops y ops' :
  p m = Some (x, ops) -> f x (run ops m) = Some (y, ops') ->
  bind p f m = Some (y, ops ++ ops').
Proof. intros H1 H2. unfold bind. rewrite H1. simpl. by rewrite H2. Qed.

Lemma bind_pure {A B} (p : prog A) (f : A -> prog B) m x : p m = Some (x, []) -> bind p f m = f x m.
Proof. intros H. unfold bind. rewrite H. simpl. by destruct (f x m) as [[y ops]|]. Qed.
