(* ===== verification/RedoProofs.v ===== *)
(** * Atomicity of the redo log

    The operations of an update fall into four phases: the entries are written
    and made durable; the finish flag is written; the flag is durable and the
    values are stored; the values are durable and the flag is cleared.  In the
    first phase every crash leaves a log without a flag ([clean]), from the third
    on a log with a flag ([flagged]) or, at the end, a clean log over the new
    values; in the second either.  [recovers_to] collects what recovery makes of
    an image and is kept by crashes during recovery. *)

From stdpp Require Import relations.
From S2P Require Import Prelude Pmem Programs Redo.

Local Open Scope pmtest_scope.

(** ** Flags *)

Definition even (o : Z) : Prop := Z.land o REDO_FINISH_FLAG = 0.
Definition with_flag (o : Z) : Z := Z.lor o REDO_FINISH_FLAG.

Lemma with_flag_odd o : (Z.land (with_flag o) REDO_FINISH_FLAG =? 0) = false.
Proof.
  apply Z.eqb_neq. unfold with_flag, REDO_FINISH_FLAG. intros H.
  apply (f_equal (fun z => Z.testbit z 0)) in H.
  by rewrite Z.land_spec, Z.lor_spec, orb_true_r in H.
Qed.

Lemma with_flag_mask o : even o -> Z.land (with_flag o) REDO_FLAG_MASK = o.
Proof.
  unfold even, with_flag, REDO_FLAG_MASK, REDO_FINISH_FLAG. intros H. apply Z.bits_inj'.
  intros i Hi. rewrite Z.land_spec, Z.lor_spec, Z.lnot_spec by done.
  destruct (decide (i = 0)) as [->|].
  - apply (f_equal (fun z => Z.testbit z 0)) in H. rewrite Z.land_spec, andb_true_r in H.
    rewrite H. done.
  - replace (Z.testbit 1 i) with false; [by rewrite orb_false_r, andb_true_r|].
    symmetry. change 1 with (2 ^ 0). by apply Z.pow2_bits_false.
Qed.

Lemma with_flag_not_even o : ~ even (with_flag o).
Proof. unfold even. pose proof (with_flag_odd o) as H. by apply Z.eqb_neq in H. Qed.

Section Log.
Context (pop : PMEMobjpool) (redo : Z) (N : nat).

Local Abbreviation entry := (Z * Z)%type.
Local Abbreviation ptr := (off_to_ptr pop).
Local Abbreviation off_word := (fun i : nat => redo_offset redo (Z.of_nat i)).
Local Abbreviation val_word := (fun i : nat => redo_value redo (Z.of_nat i)).

(** The words of the log. *)
Definition log_area (x : Z) : Prop := redo <= x < redo + sizeof_redo_log * Z.of_nat N.

Definition entry_ok (e : entry) : Prop :=
  even (e.1) /\ ~ log_area (ptr (e.1)) /\ redo_log_check_offset pop (e.1) = true.

(** ** What an update is meant to do *)

Definition new_value (l : list entry) (x : Z) : option Z :=
  fold_left (fun acc e => if x =? ptr (e.1) then Some (e.2) else acc) l None.
(** The words of [f], with the entries of [l] stored in order. *)
Definition apply (l : list entry) (f : Z -> Z) (x : Z) : Z := default (f x) (new_value l x).
Definition target (l : list entry) (x : Z) : Prop := is_Some (new_value l x).

Lemma new_value_snoc l e x :
  new_value (l ++ [e]) x = if x =? ptr (e.1) then Some (e.2) else new_value l x.
Proof. unfold new_value. by rewrite fold_left_app. Qed.

Lemma target_spec l x : target l x <-> exists e, e ∈ l /\ x = ptr (e.1).
Proof.
  unfold target. induction l as [|e l IH] using rev_ind.
  - split; [by intros [? ?]|]. by intros (e & ?%elem_of_nil & _).
  - rewrite new_value_snoc. setoid_rewrite elem_of_app. setoid_rewrite list_elem_of_singleton.
    destruct (Z.eqb_spec x (ptr (e.1))); [by split; eauto|]. rewrite IH. naive_solver.
Qed.

Lemma new_value_ok l x : Forall entry_ok l -> target l x -> ~ log_area x.
Proof.
  intros Hl (e & He & ->)%target_spec. rewrite Forall_forall in Hl. by apply Hl.
Qed.

Lemma apply_target l f g x : target l x -> apply l f x = apply l g x.
Proof. intros [v Hv]. unfold apply. by rewrite Hv. Qed.

Lemma apply_other l f x : ~ target l x -> apply l f x = f x.
Proof. unfold apply, target. destruct (new_value l x); [|done]. intros H. by destruct H. Qed.

(** ** Storing the values *)

Definition data_ops (l : list entry) : list pm_op :=
  mjoin ((fun e => [Store (ptr (e.1)) (e.2); Flush (ptr (e.1)) 8]) <$> l).

Lemma data_ops_snoc l e :
  data_ops (l ++ [e]) = data_ops l ++ [Store (ptr (e.1)) (e.2); Flush (ptr (e.1)) 8].
Proof. unfold data_ops. by rewrite fmap_app, join_app. Qed.

Lemma data_ops_read l m x : pm_read (run (data_ops l) m) x = apply l (pm_read m) x.
Proof.
  induction l as [|e l IH] using rev_ind; [done|].
  rewrite data_ops_snoc, run_app. simpl. rewrite pm_read_flush.
  unfold apply. rewrite new_value_snoc. destruct (Z.eqb_spec x (ptr (e.1))) as [->|].
  - by rewrite pm_read_store_eq.
  - by rewrite pm_read_store_ne.
Qed.

Lemma data_ops_covered l m x : target l x -> covered (run (data_ops l) m) x.
Proof.
  induction l as [|e l IH] using rev_ind; [by intros [? ?]|].
  rewrite data_ops_snoc, run_app. unfold target. rewrite new_value_snoc.
  cbn [run fold_left run1]. intros Hx. destruct (Z.eqb_spec x (ptr (e.1))) as [->|].
  - apply covered_flush. unfold in_range. lia.
  - apply covered_flush_other. unfold covered. rewrite pm_store_ne by done. by apply IH.
Qed.

Lemma data_ops_store l x v : Store x v ∈ data_ops l -> target l x.
Proof.
  unfold data_ops. rewrite target_spec, list_elem_of_join.
  setoid_rewrite list_elem_of_fmap. intros (ops & Hin & e & -> & He). exists e. split; [done|].
  apply elem_of_cons in Hin as [[= -> _]|Hin]; [done|]. by apply list_elem_of_singleton in Hin.
Qed.

Lemma data_ops_no_store l x : ~ target l x -> no_store x (data_ops l).
Proof. intros H v Hv. by apply H, data_ops_store with v. Qed.

Lemma log_no_store l x : Forall entry_ok l -> log_area x -> no_store x (data_ops l).
Proof. intros Hl Hx. apply data_ops_no_store. intros Ht. by apply (new_value_ok l x). Qed.

(** ** Logs in memory *)

(** The entries of a complete log: the last one with the flag. *)
Definition flag_last (l : list entry) : list entry :=
  match last l with
  | Some e => take (pred (length l)) l ++ [(with_flag (e.1), e.2)]
  | None => []
  end.

Definition log_at (f : Z -> Z) (r : Z) (l : list entry) : Prop :=
  forall i e, l !! i = Some e ->
    f (redo_offset r (Z.of_nat i)) = e.1 /\ f (redo_value r (Z.of_nat i)) = e.2.

Definition clean (f : Z -> Z) : Prop := forall i, (i < N)%nat -> even (f (off_word i)).

(** A log of the entries [l] with its flag, the entries after it without one. *)
Definition flagged (f : Z -> Z) (l : list entry) : Prop :=
  l <> [] /\ (length l <= N)%nat /\ Forall entry_ok l /\ log_at f redo (flag_last l) /\
  forall i, (length l <= i < N)%nat -> even (f (off_word i)).

Lemma flag_last_snoc l e : flag_last (l ++ [e]) = l ++ [(with_flag (e.1), e.2)].
Proof.
  unfold flag_last. rewrite last_snoc, length_app, Nat.add_1_r. cbn [pred].
  by rewrite take_app_length.
Qed.

(** The word cleared at the end. *)
Definition last_word (l : list entry) : Z := redo_offset redo (Z.of_nat (pred (length l))).

Definition process_ops (l : list entry) : list pm_op :=
  data_ops l ++ [Fence] ++ [Store (last_word l) 0; Flush (last_word l) 8; Fence].

Lemma off_word_area i : (i < N)%nat -> log_area (off_word i).
Proof. unfold log_area, redo_offset, sizeof_redo_log. lia. Qed.
Lemma val_word_area i : (i < N)%nat -> log_area (val_word i).
Proof. unfold log_area, redo_value, sizeof_redo_log. lia. Qed.

Lemma log_at_cons f r e l :
  log_at f r (e :: l) ->
  f (redo_offset r 0) = e.1 /\ f (redo_value r 0) = e.2 /\ log_at f (r + sizeof_redo_log) l.
Proof.
  intros H. destruct (H 0%nat e) as [H1 H2]; [done|]. split_and!; [done..|].
  intros i e' Hi. destruct (H (S i) e') as [H3 H4]; [done|].
  rewrite <- H3, <- H4. unfold redo_offset, redo_value, sizeof_redo_log.
  split; f_equal; lia.
Qed.

(** The loop of [redo_log_process] over the entries before the flag. *)
Lemma process_loop_runs l e fuel r m :
  (length l < fuel)%nat -> Forall (fun e => even (e.1)) l ->
  log_at (pm_read m) r (l ++ [(with_flag (e.1), e.2)]) ->
  (forall x, target l x -> x < r \/ r + sizeof_redo_log * (Z.of_nat (length l) + 1) <= x) ->
  process_loop pop fuel r m =
    Some (r + sizeof_redo_log * Z.of_nat (length l), data_ops l).
Proof.
  revert fuel r m. induction l as [|e0 l IH]; intros [|fuel] r m Hf Hl Hlog Ht; try (simpl in *; lia).
  - apply log_at_cons in Hlog as (H1 & _ & _). cbn [process_loop]. unfold bind, read. simpl.
    simpl in H1. rewrite H1, with_flag_odd. unfold ret. simpl. by rewrite Z.add_0_r.
  - simpl in Hlog. apply log_at_cons in Hlog as (H1 & H2 & Hlog).
    apply Forall_cons in Hl as [He Hl]. cbn [process_loop]. unfold bind, read. simpl.
    rewrite H1. unfold even in He. rewrite He. simpl. rewrite H2.
    setoid_rewrite target_spec in Ht.
    rewrite IH; [|simpl in Hf; lia|done| |].
    + simpl. do 2 f_equal. unfold sizeof_redo_log. simpl length. lia.
    + intros i e' Hi. pose proof (lookup_lt_Some _ _ _ Hi) as Hlen.
      rewrite length_app in Hlen. simpl in Hlen.
      destruct (Hlog i e' Hi) as [H3 H4].
      assert (Hx : forall x, r + sizeof_redo_log <= x <
        r + sizeof_redo_log * (Z.of_nat (length (e0 :: l)) + 1) -> x <> ptr (e0.1)).
      { intros x Hx ->. destruct (Ht (ptr (e0.1))); [by exists e0; split; [left|]|..];
          simpl in *; unfold sizeof_redo_log in *; lia. }
      simpl. rewrite !pm_read_flush, !pm_read_store_ne; [done|apply Hx..];
        unfold redo_offset, redo_value, sizeof_redo_log in *; simpl; lia.
    + intros x (e1 & He1 & ->)%target_spec.
      destruct (Ht (ptr (e1.1))) as [|H]; [by exists e1; split; [right|]|left; unfold sizeof_redo_log; lia|].
      right. unfold sizeof_redo_log in *. simpl length in H. lia.
Qed.


Lemma entry_ok_even l : Forall entry_ok l -> Forall (fun e => even (e.1)) l.
Proof. rewrite !Forall_forall. intros H e He. by apply H. Qed.

(** The words of the log keep their value while the data is stored. *)
Lemma data_ops_log l m x : Forall entry_ok l -> log_area x ->
  pm_read (run (data_ops l) m) x = pm_read m x.
Proof. intros Hl Hx. by apply no_store_read, log_no_store. Qed.

Lemma process_runs n l m :
  flagged (pm_read m) l -> (length l <= n)%nat ->
  redo_log_process pop redo (Z.of_nat n) m = Some (tt, process_ops l).
Proof.
  intros (Hne & HN & Hok & Hlog & _) Hn.
  destruct (exists_last Hne) as (l0 & e & ->). rewrite flag_last_snoc in Hlog.
  rewrite length_app in HN, Hn. simpl in HN, Hn.
  pose proof Hok as [Hok0 [He _]%Forall_singleton]%Forall_app.
  unfold redo_log_process, process_ops. rewrite data_ops_snoc, <- app_assoc.
  rewrite Nat2Z.id. eapply bind_Some.
  { apply process_loop_runs with e; [lia|by apply entry_ok_even|done|].
    intros x Hx. pose proof (new_value_ok l0 x Hok0 Hx) as H.
    unfold log_area, sizeof_redo_log in *. lia. }
  destruct (Hlog (length l0) (with_flag (e.1), e.2)) as [H1 H2]; [by rewrite lookup_app_r, Nat.sub_diag|].
  assert (E1 : redo_offset (redo + sizeof_redo_log * Z.of_nat (length l0)) 0 = off_word (length l0)).
  { unfold redo_offset. lia. }
  assert (E2 : redo_value (redo + sizeof_redo_log * Z.of_nat (length l0)) 0 = val_word (length l0)).
  { unfold redo_value. lia. }
  assert (E3 : last_word (l0 ++ [e]) = off_word (length l0)).
  { unfold last_word. rewrite length_app, Nat.add_1_r. done. }
  rewrite E1, E2, E3. unfold bind, read, store, emit, persist. simpl.
  rewrite !data_ops_log by (auto using off_word_area, val_word_area with lia).
  simpl in H1, H2. by rewrite H1, H2, with_flag_mask.
Qed.

(** ** Counting flags *)

Lemma nflags_loop_app m i a b :
  nflags_loop m redo i (a + b) = nflags_loop m redo i a + nflags_loop m redo (i + Z.of_nat a) b.
Proof.
  revert i. induction a as [|a IH]; intros i; [by rewrite Z.add_0_r|].
  cbn [nflags_loop Nat.add]. rewrite IH. replace (i + 1 + Z.of_nat a) with (i + Z.of_nat (S a)) by lia.
  lia.
Qed.

Lemma nflags_loop_even m i n :
  (forall j, (i <= j < i + n)%nat -> even (pm_read m (off_word j))) ->
  nflags_loop m redo (Z.of_nat i) n = 0.
Proof.
  revert i. induction n as [|n IH]; intros i H; [done|]. cbn [nflags_loop].
  pose proof (H i) as Hi. unfold even in Hi. rewrite Hi by lia. simpl.
  replace (Z.of_nat i + 1) with (Z.of_nat (S i)) by lia. apply IH. intros j Hj. apply H. lia.
Qed.

Lemma nflags_clean m : clean (pm_read m) -> redo_log_nflags m redo (Z.of_nat N) = 0.
Proof.
  intros H. unfold redo_log_nflags. rewrite Nat2Z.id. apply (nflags_loop_even m 0).
  intros j Hj. apply H. lia.
Qed.

Lemma nflags_flagged m l : flagged (pm_read m) l -> redo_log_nflags m redo (Z.of_nat N) = 1.
Proof.
  intros (Hne & HN & Hok & Hlog & Hrest). destruct (exists_last Hne) as (l0 & e & ->).
  rewrite flag_last_snoc in Hlog. rewrite length_app in *. simpl in *.
  unfold redo_log_nflags. rewrite Nat2Z.id.
  replace N with (length l0 + (1 + (N - length l0 - 1)))%nat by lia.
  rewrite !nflags_loop_app, (nflags_loop_even m 0).
  - replace (0 + Z.of_nat (length l0) + Z.of_nat 1) with (Z.of_nat (length l0 + 1)) by lia.
    rewrite nflags_loop_even by (intros; apply Hrest; lia). cbn [nflags_loop Nat.add].
    destruct (Hlog (length l0) (with_flag (e.1), e.2)) as [H1 _];
      [by rewrite lookup_app_r, Nat.sub_diag|].
    rewrite !Z.add_0_l, H1. simpl. by rewrite with_flag_odd.
  - intros j Hj. destruct (lookup_lt_is_Some_2 l0 j) as [e' He']; [lia|].
    destruct (Hlog j e') as [-> _]; [by apply lookup_app_l_Some|].
    apply Forall_app in Hok as [Hok _]. by apply (Forall_lookup_1 _ _ _ _ Hok He').
Qed.

Lemma check_loop_ok m l e fuel r :
  (length l < fuel)%nat -> Forall entry_ok l -> entry_ok e ->
  log_at (pm_read m) r (l ++ [(with_flag (e.1), e.2)]) ->
  check_loop pop m fuel r = Some 0.
Proof.
  revert fuel r. induction l as [|e0 l IH]; intros [|fuel] r Hf Hl He Hlog; try (simpl in *; lia);
    simpl in Hlog; apply log_at_cons in Hlog as (H1 & _ & Hlog); cbn [check_loop];
    rewrite H1; simpl.
  - rewrite with_flag_odd, with_flag_mask by apply He. by destruct He as (_ & _ & ->).
  - apply Forall_cons in Hl as [(E1 & _ & E2) Hl]. unfold even in E1. rewrite E1, E2. simpl.
    apply IH; [simpl in Hf; lia|done..].
Qed.

(** ** Recovery *)

Lemma check_flagged m l : flagged (pm_read m) l ->
  redo_log_check pop redo (Z.of_nat N) m = Some 0.
Proof.
  intros H. unfold redo_log_check. rewrite (nflags_flagged m l H). simpl.
  destruct H as (Hne & HN & Hok & Hlog & _). destruct (exists_last Hne) as (l0 & e & ->).
  rewrite flag_last_snoc in Hlog. rewrite length_app in HN. simpl in HN.
  apply Forall_app in Hok as [Hok [He _]%Forall_cons]. rewrite Nat2Z.id.
  apply check_loop_ok with l0 e; (done || lia).
Qed.

Lemma check_clean m : clean (pm_read m) -> redo_log_check pop redo (Z.of_nat N) m = Some 0.
Proof. intros H. unfold redo_log_check. by rewrite nflags_clean. Qed.

Lemma recover_flagged m l : flagged (pm_read m) l ->
  redo_log_recover pop redo (Z.of_nat N) m = Some (tt, process_ops l).
Proof.
  intros H. unfold redo_log_recover. rewrite (nflags_flagged m l H).
  unfold bind, check. simpl. rewrite (process_runs N l) by (done || apply H). done.
Qed.

Lemma recover_clean m : clean (pm_read m) ->
  redo_log_recover pop redo (Z.of_nat N) m = Some (tt, []).
Proof. intros H. unfold redo_log_recover. by rewrite nflags_clean. Qed.


(** ** What recovery makes of an image *)

Definition same_data (f g : Z -> Z) : Prop := forall x, ~ log_area x -> f x = g x.

#[local] Instance same_data_equivalence : Equivalence same_data.
Proof.
  split; [done|by intros f g H x Hx; rewrite H|].
  intros f g h H1 H2 x Hx. by rewrite H1, H2.
Qed.

#[local] Instance log_area_dec x : Decision (log_area x).
Proof. unfold log_area. apply _. Defined.
#[local] Instance target_dec l x : Decision (target l x).
Proof. unfold target. apply _. Defined.

(** The words [f] outside of the log are what recovery of [image] ends with. *)
Definition recovers_to (image f : Z -> Z) : Prop :=
  (exists l, flagged image l /\ same_data (apply l image) f) \/
  (clean image /\ same_data image f).

Lemma recovers_to_same image f g : same_data f g -> recovers_to image f -> recovers_to image g.
Proof.
  intros H [(l & Hl & Hf)|[Hc Hf]]; [left; exists l|right]; (split; [done|]); by rewrite <- H.
Qed.

Lemma last_word_area l : l <> [] -> (length l <= N)%nat -> log_area (last_word l).
Proof. intros Hne HN. apply (off_word_area (pred (length l))). destruct l; [done|simpl in *; lia]. Qed.

Lemma process_read l m x :
  pm_read (run (process_ops l) m) x =
  if decide (x = last_word l) then 0 else apply l (pm_read m) x.
Proof.
  unfold process_ops. rewrite !run_app. simpl. rewrite pm_read_fence, pm_read_flush.
  case_decide as E; [subst x; by rewrite pm_read_store_eq|].
  by rewrite pm_read_store_ne, pm_read_fence, data_ops_read.
Qed.

Lemma process_no_store l x :
  ~ target l x -> x <> last_word l -> no_store x (process_ops l).
Proof.
  intros Ht Hx v. unfold process_ops. rewrite !elem_of_app, !elem_of_cons.
  intros [H|[[H|H]|[H|[H|[H|H]]]]]; try done; [by apply (data_ops_no_store l x Ht v)|
    by apply elem_of_nil in H| |by apply elem_of_nil in H].
  by injection H.
Qed.

(** After the data has been fenced, its words are durable. *)
Lemma data_fenced l m x : target l x -> pm_durable (run (data_ops l ++ [Fence]) m) x.
Proof. intros H. rewrite run_app. apply covered_fence, data_ops_covered, H. Qed.

Lemma process_durable l m x :
  Forall entry_ok l -> l <> [] -> (length l <= N)%nat ->
  target l x \/ x = last_word l \/ pm_durable m x -> pm_durable (run (process_ops l) m) x.
Proof.
  intros Hok Hne HN H. destruct (decide (x = last_word l)) as [->|Hx].
  - unfold process_ops. rewrite !run_app.
    apply (persist_durable (run1 _ (Store (last_word l) 0)) (last_word l) 8). lia.
  - destruct (decide (target l x)) as [Ht|Ht].
    + unfold process_ops. rewrite app_assoc, run_app. apply no_store_durable; [|by apply data_fenced].
      intros v Hv. rewrite !elem_of_cons, elem_of_nil in Hv.
      destruct Hv as [Hv|[Hv|[Hv|Hv]]]; try done. by injection Hv.
    + apply no_store_durable; [by apply process_no_store|]. by destruct H as [|[|]].
Qed.

Lemma flagged_clean f g l :
  flagged f l -> (forall i, (i < N)%nat -> off_word i <> last_word l -> even (f (off_word i)) ->
    even (g (off_word i))) -> even (g (last_word l)) -> clean g.
Proof.
  intros (Hne & HN & Hok & Hlog & Hrest) Hg Hl i Hi.
  destruct (exists_last Hne) as (l0 & e & ->). rewrite flag_last_snoc in Hlog.
  rewrite length_app in HN, Hrest. simpl in HN, Hrest.
  assert (E : last_word (l0 ++ [e]) = off_word (length l0)).
  { unfold last_word. by rewrite length_app, Nat.add_1_r. }
  destruct (decide (i = length l0)) as [->|Hne']; [by rewrite <- E|].
  apply Hg; [done|rewrite E; unfold redo_offset, sizeof_redo_log; lia|].
  destruct (decide (i < length l0)%nat) as [Hlt|Hge]; [|apply Hrest; lia].
  destruct (lookup_lt_is_Some_2 l0 i Hlt) as [e' He'].
  destruct (Hlog i e') as [-> _]; [by apply lookup_app_l_Some|].
  apply Forall_app in Hok as [Hok _]. by apply (Forall_lookup_1 _ _ _ _ Hok He').
Qed.

(** Recovery succeeds, ends with the expected words, all durable, and a clean
    log. *)
Lemma recovers image f :
  recovers_to image f ->
  exists ops, redo_log_check pop redo (Z.of_nat N) (pm_boot image) = Some 0 /\
    redo_log_recover pop redo (Z.of_nat N) (pm_boot image) = Some (tt, ops) /\
    same_data (pm_read (run ops (pm_boot image))) f /\
    clean (pm_read (run ops (pm_boot image))) /\
    (forall x, pm_durable (run ops (pm_boot image)) x).
Proof.
  intros [(l & Hl & Hf)|[Hc Hf]].
  - exists (process_ops l). pose proof Hl as (Hne & HN & Hok & _ & _).
    split_and!; [by apply check_flagged with l|by apply recover_flagged| | |].
    + intros x Hx. rewrite process_read, decide_False; [by apply Hf|].
      intros ->. by apply Hx, last_word_area.
    + apply flagged_clean with image l; [done| |by rewrite process_read, decide_True].
      intros i Hi Hne' He. rewrite process_read, decide_False by done.
      rewrite apply_other; [done|]. intros Ht.
      by apply (new_value_ok l (off_word i) Hok Ht), off_word_area.
    + intros x. apply process_durable; auto. right. by right.
  - exists []. split_and!; [by apply check_clean|by apply recover_clean|done..].
Qed.

(** ** Crashes while the values are stored *)

(** The words of a complete log that a crash leaves unchanged. *)
Definition log_durable (m : pmem) (l : list entry) : Prop :=
  (forall i, (i < length l)%nat -> pm_durable m (off_word i) /\ pm_durable m (val_word i)) /\
  (forall i v, (length l <= i < N)%nat -> v ∈ cand m (off_word i) -> even v).

Lemma flag_last_length l : length (flag_last l) = length l.
Proof.
  destruct (decide (l = [])) as [->|Hne]; [done|].
  destruct (exists_last Hne) as (l0 & e & ->). by rewrite flag_last_snoc, !length_app.
Qed.

Lemma flagged_agree f g l :
  flagged f l ->
  (forall i, (i < length l)%nat -> g (off_word i) = f (off_word i) /\ g (val_word i) = f (val_word i)) ->
  (forall i, (length l <= i < N)%nat -> even (g (off_word i))) ->
  flagged g l.
Proof.
  intros (Hne & HN & Hok & Hlog & _) H1 H2. split_and!; try done.
  intros i e Hi. pose proof (lookup_lt_Some _ _ _ Hi) as Hlt. rewrite flag_last_length in Hlt.
  destruct (H1 i Hlt) as [-> ->]. by apply Hlog.
Qed.

(** Nothing stored to the log: its words are still there after the crash. *)
Lemma flagged_kept l m ops image :
  flagged (pm_read m) l -> log_durable m l -> (forall x, log_area x -> no_store x ops) ->
  pm_crash (run ops m) image -> flagged image l.
Proof.
  intros Hl [Hd He] Hns Hc. pose proof Hl as (_ & HN & _).
  apply flagged_agree with (pm_read m); [done| |].
  - intros i Hi. destruct (Hd i Hi) as [Hd1 Hd2].
    assert (Ho : no_store (off_word i) ops) by (apply Hns, off_word_area; lia).
    assert (Hv : no_store (val_word i) ops) by (apply Hns, val_word_area; lia).
    by rewrite !(durable_image _ _ _ (no_store_durable _ _ _ Ho Hd1) Hc),
      !(durable_image _ _ _ (no_store_durable _ _ _ Hv Hd2) Hc), !no_store_read.
  - intros i Hi. apply He with i; [done|].
    apply no_store_cand with ops; [apply Hns, off_word_area; lia|apply Hc].
Qed.

(** The operations that clear the flag. *)
Definition clear_ops (l : list entry) : list pm_op :=
  [Store (last_word l) 0; Flush (last_word l) 8; Fence].

Lemma clear_no_store l j x : x <> last_word l -> no_store x (take j (clear_ops l)).
Proof.
  intros Hx. apply no_store_take. intros v Hv. unfold clear_ops in Hv. set_unfold in Hv.
  naive_solver.
Qed.

Lemma clear_store l j v : Store (last_word l) v ∈ take j (clear_ops l) -> v = 0.
Proof.
  intros Hv. apply elem_of_take in Hv as (n & Hn & _).
  destruct n as [|[|[|n]]]; simpl in Hn; try rewrite lookup_nil in Hn; congruence.
Qed.

(** While the flag is cleared, the image has the flag, or it is clean. *)
Lemma clear_crash l m j image :
  flagged (pm_read m) l -> log_durable m l ->
  pm_crash (run (take j (clear_ops l)) m) image -> flagged image l \/ clean image.
Proof.
  intros Hl [Hd He] Hc. pose proof Hl as (Hne & HN & _).
  assert (Eq : forall x, x <> last_word l -> pm_durable m x -> image x = pm_read m x).
  { intros x Hx Hdx. pose proof (clear_no_store l j x Hx) as Hn.
    by rewrite (durable_image _ x _ (no_store_durable _ _ _ Hn Hdx) Hc), no_store_read. }
  assert (Hrest : forall i, (length l <= i < N)%nat -> even (image (off_word i))).
  { intros i Hi. apply He with i; [done|]. eapply no_store_cand; [apply clear_no_store|apply Hc].
    unfold last_word, redo_offset, sizeof_redo_log. destruct l; [done|simpl in *; lia]. }
  destruct (run_cand _ _ _ _ (Hc (last_word l))) as [Hv|Hv%clear_store].
  - left. apply flagged_agree with (pm_read m); [done| |done].
    assert (Hlw : image (last_word l) = pm_read m (last_word l)).
    { destruct (Hd (pred (length l))) as [Hlw _]; [destruct l; [done|simpl; lia]|].
      fold (last_word l) in Hlw. unfold pm_durable, cand, pm_read in *. rewrite Hlw in *.
      by apply list_elem_of_singleton in Hv. }
    intros i Hi. destruct (Hd i Hi) as [Ho Hv'].
    destruct (decide (off_word i = last_word l)) as [E|E].
    + rewrite E, Hlw, Eq; [done| |done].
      unfold last_word, redo_offset, redo_value, sizeof_redo_log. lia.
    + rewrite !Eq; [done| |done..]. unfold last_word, redo_offset, redo_value, sizeof_redo_log. lia.
  - right. apply flagged_clean with (pm_read m) l; [done| |by rewrite Hv].
    intros i Hi Hne' Hev. destruct (decide (i < length l)%nat); [|apply Hrest; lia].
    destruct (Hd i) as [Ho _]; [done|]. by rewrite Eq.
Qed.

Lemma log_no_store_fence l x : Forall entry_ok l -> log_area x -> no_store x (data_ops l ++ [Fence]).
Proof.
  intros Hok Hx v [Hv|Hv]%elem_of_app; [by eapply log_no_store|].
  by apply list_elem_of_singleton in Hv.
Qed.

(** The log is the same once the values are durable. *)
Lemma log_after_data l m :
  flagged (pm_read m) l -> log_durable m l ->
  let m1 := run (data_ops l ++ [Fence]) m in flagged (pm_read m1) l /\ log_durable m1 l.
Proof.
  intros Hl [Hd He] m1. pose proof Hl as (_ & HN & Hok & _).
  assert (Hns : forall x, log_area x -> no_store x (data_ops l ++ [Fence])).
  { intros x. by apply log_no_store_fence. }
  split; [|split].
  - apply flagged_agree with (pm_read m); [done| |]; intros i Hi; unfold m1;
      rewrite !no_store_read by (apply Hns; (apply off_word_area || apply val_word_area); lia);
      [done|]. apply Hl, Hi.
  - intros i Hi. destruct (Hd i Hi). split; apply no_store_durable; try done;
      apply Hns; [apply off_word_area|apply val_word_area]; lia.
  - intros i v Hi Hv. apply He with i; [done|]. eapply no_store_cand; [|exact Hv].
    apply Hns, off_word_area. lia.
Qed.

Lemma process_crash l m k image :
  flagged (pm_read m) l -> log_durable m l ->
  pm_crash (run (take k (process_ops l)) m) image ->
  recovers_to image (apply l image).
Proof.
  intros Hl Hd Hc. pose proof Hl as (Hne & HN & Hok & _).
  revert Hc. unfold process_ops. fold (clear_ops l). rewrite app_assoc.
  destruct (take_app_cases k (data_ops l ++ [Fence]) (clear_ops l)) as [->|[j ->]]; intros Hc.
  { left. exists l. split; [|done]. eapply flagged_kept; [done..| |exact Hc].
    intros x Hx. by apply no_store_take, log_no_store_fence. }
  rewrite run_app in Hc. destruct (log_after_data l m Hl Hd) as [Hl1 Hd1].
  destruct (clear_crash l _ j image Hl1 Hd1 Hc) as [H|H]; [left; by exists l|right].
  split; [done|]. intros x Hx. destruct (decide (target l x)) as [Ht|Ht]; [|by rewrite apply_other].
  assert (Hn : no_store x (take j (clear_ops l))).
  { apply clear_no_store. intros ->. by apply Hx, last_word_area. }
  rewrite (durable_image _ x _ (no_store_durable _ _ _ Hn (data_fenced l m x Ht)) Hc).
  rewrite no_store_read by done. rewrite run_app. simpl.
  rewrite pm_read_fence, data_ops_read. by apply apply_target.
Qed.

(** ** Crashes during recovery *)

Definition recovery_crash (image image' : Z -> Z) : Prop :=
  crash_image (redo_log_recover pop redo (Z.of_nat N)) (pm_boot image) image'.

Lemma boot_crash ops image image' x :
  no_store x ops -> pm_crash (run ops (pm_boot image)) image' -> image' x = image x.
Proof.
  intros H Hc. by rewrite (durable_image _ x _ (no_store_durable ops (pm_boot image) x H eq_refl) Hc),
    no_store_read.
Qed.

Lemma recovers_to_step image image' f :
  recovers_to image f -> recovery_crash image image' -> recovers_to image' f.
Proof.
  intros H ([] & ops & k & E & Hc). destruct H as [(l & Hl & Hf)|[Hcl Hf]].
  - rewrite (recover_flagged (pm_boot image) l) in E by done. injection E as <-.
    assert (Hd : log_durable (pm_boot image) l).
    { split; [done|]. intros i v Hi ->%list_elem_of_singleton. by apply Hl. }
    apply recovers_to_same with (apply l image'); [|by apply process_crash with (pm_boot image) k].
    rewrite <- Hf. intros x Hx. destruct (decide (target l x)) as [Ht|Ht]; [by apply apply_target|].
    rewrite !apply_other by done. eapply boot_crash; [|exact Hc].
    apply no_store_take, process_no_store; [done|]. intros ->. apply Hx, last_word_area; apply Hl.
  - rewrite (recover_clean (pm_boot image)) in E by done. injection E as <-.
    rewrite take_nil in Hc. assert (Eq : forall x, image' x = image x).
    { intros x. by eapply (boot_crash []); [intros v ?%elem_of_nil|]. }
    right. split; [intros i Hi; rewrite Eq; by apply Hcl|].
    intros x Hx. rewrite Eq. by apply Hf.
Qed.

Lemma recovers_to_steps image image' f :
  recovers_to image f -> rtc recovery_crash image image' -> recovers_to image' f.
Proof. intros H Hr. induction Hr; [done|]. eauto using recovers_to_step. Qed.

(** ** Crashes during an update *)

(** What is written before the first fence: entries in the log, no flag. *)
Record prepares (pre : list pm_op) (m : pmem) (l : list entry) : Prop := {
  pre_log x v : Store x v ∈ pre -> log_area x;
  pre_even i v : (i < N)%nat -> Store (off_word i) v ∈ pre -> even v;
  pre_off i e : l !! i = Some e -> (S i < length l)%nat -> pm_read (run pre m) (off_word i) = e.1;
  pre_val i e : l !! i = Some e -> pm_read (run pre m) (val_word i) = e.2;
}.

Definition persist_ops (l : list entry) : list pm_op :=
  [Flush redo (sizeof_redo_log * Z.of_nat (length l)); Fence].
Definition flag_ops (l : list entry) : list pm_op :=
  [Store (last_word l) (with_flag (from_option fst 0 (last l))); Flush (last_word l) 8; Fence].
Definition update_ops (pre : list pm_op) (l : list entry) : list pm_op :=
  (pre ++ persist_ops l) ++ flag_ops l ++ process_ops l.

Definition no_flags (m : pmem) : Prop :=
  forall i v, (i < N)%nat -> v ∈ cand m (off_word i) -> even v.

Lemma read_cand m x : pm_read m x ∈ cand m x.
Proof.
  unfold pm_read, cand. destruct (decide (c_pending (m x) = [])) as [->|E]; [left|].
  destruct (exists_last E) as (l & y & ->). rewrite List.last_last. right.
  apply elem_of_app. right. by apply list_elem_of_singleton.
Qed.

Lemma durable_cand m x v : pm_durable m x -> v ∈ cand m x -> v = pm_read m x.
Proof.
  unfold pm_durable, cand, pm_read. intros ->. by intros ->%list_elem_of_singleton.
Qed.

Section Update.
Context (pre : list pm_op) (m : pmem) (l : list entry).
Context (Hpre : prepares pre m l) (Hm : no_flags m).
Context (Hok : Forall entry_ok l) (Hne : l <> []) (HN : (length l <= N)%nat).

Local Abbreviation m1 := (run (pre ++ persist_ops l) m).
Local Abbreviation m2 := (run (flag_ops l) m1).

Lemma persist_store x v : Store x v ∈ pre ++ persist_ops l -> Store x v ∈ pre.
Proof.
  unfold persist_ops. rewrite elem_of_app, !elem_of_cons, elem_of_nil. naive_solver.
Qed.

Lemma before_flag_even k i v :
  (i < N)%nat -> v ∈ cand (run (take k (pre ++ persist_ops l)) m) (off_word i) -> even v.
Proof.
  intros Hi [Hv|Hv]%run_cand; [by apply Hm with i|].
  apply (pre_even _ _ _ Hpre i v Hi), persist_store.
  apply elem_of_take in Hv as (j & Hj & _). by eapply list_elem_of_lookup_2.
Qed.

Lemma before_flag_data k x :
  ~ log_area x -> no_store x (take k (pre ++ persist_ops l)).
Proof.
  intros Hx. apply no_store_take. intros v Hv%persist_store.
  by apply Hx, (pre_log _ _ _ Hpre x v).
Qed.

Lemma flag_no_store j x : x <> last_word l -> no_store x (take j (flag_ops l)).
Proof.
  intros Hx. apply no_store_take. intros v Hv. unfold flag_ops in Hv.
  rewrite !elem_of_cons, elem_of_nil in Hv. naive_solver.
Qed.

Lemma m1_durable i : (i < length l)%nat -> pm_durable m1 (off_word i) /\ pm_durable m1 (val_word i).
Proof.
  intros Hi. rewrite run_app. split; apply persist_durable;
    unfold redo_offset, redo_value, sizeof_redo_log; lia.
Qed.

Lemma m1_read x : pm_read m1 x = pm_read (run pre m) x.
Proof. rewrite run_app. simpl. by rewrite pm_read_fence, pm_read_flush. Qed.

Lemma m1_rest i v : (i < N)%nat -> v ∈ cand m1 (off_word i) -> even v.
Proof.
  intros Hi Hv. eapply (before_flag_even (length (pre ++ persist_ops l))); [exact Hi|].
  by rewrite firstn_all.
Qed.

(** An image with the flag holds the log, one without it is clean. *)
Lemma flag_crash j image :
  pm_crash (run (take j (flag_ops l)) m1) image -> flagged image l \/ clean image.
Proof.
  intros Hc.
  assert (Eq : forall x, x <> last_word l -> pm_durable m1 x -> image x = pm_read m1 x).
  { intros x Hx Hd. pose proof (flag_no_store j x Hx) as Hn.
    by rewrite (durable_image _ x _ (no_store_durable _ _ _ Hn Hd) Hc), no_store_read. }
  assert (Hev : forall i, (i < N)%nat -> off_word i <> last_word l -> even (image (off_word i))).
  { intros i Hi Hx. apply m1_rest with i; [done|]. eapply no_store_cand; [by apply flag_no_store|apply Hc]. }
  destruct (exists_last Hne) as (l0 & e & El).
  assert (E : last_word l = off_word (length l0)).
  { rewrite El. unfold last_word. by rewrite length_app, Nat.add_1_r. }
  assert (Hlen : length l = S (length l0)) by (rewrite El, length_app; simpl; lia).
  assert (Hv : image (last_word l) ∈ cand m1 (last_word l) \/ image (last_word l) = with_flag (e.1)).
  { destruct (run_cand _ _ _ _ (Hc (last_word l))) as [Hv|Hv]; [by left|right].
    apply elem_of_take in Hv as (n & Hn & _). unfold flag_ops in Hn. rewrite El, last_snoc in Hn.
    destruct n as [|[|[|n]]]; simpl in Hn; try rewrite lookup_nil in Hn; congruence. }
  destruct Hv as [Hv|Hv].
  - right. intros i Hi. destruct (decide (off_word i = last_word l)) as [Ei|Ei]; [|by apply Hev].
    rewrite E in Ei, Hv. apply m1_rest with (length l0); [lia|]. by rewrite Ei.
  - left. split_and!; [done..| |].
    + intros i e' Hi. rewrite El, flag_last_snoc in Hi. apply lookup_app_Some in Hi as [Hi|[Hi1 Hi2]].
      * pose proof (lookup_lt_Some _ _ _ Hi) as Hlt.
        assert (Hil : l !! i = Some e') by (rewrite El; by apply lookup_app_l_Some).
        destruct (m1_durable i) as [Hd1 Hd2]; [lia|].
        rewrite !Eq, !m1_read; try done.
        -- split; [apply (pre_off _ _ _ Hpre i e' Hil); lia|apply (pre_val _ _ _ Hpre i e' Hil)].
        -- rewrite E. unfold redo_value, redo_offset, sizeof_redo_log. lia.
        -- rewrite E. unfold redo_offset, sizeof_redo_log. lia.
      * destruct (i - length l0)%nat eqn:Ei; [|done]. injection Hi2 as <-.
        assert (i = length l0) as -> by lia. rewrite <- E, Hv. split; [done|].
        destruct (m1_durable (length l0)) as [_ Hd2]; [lia|]. rewrite Eq, m1_read; [| |done].
        -- apply (pre_val _ _ _ Hpre _ e). by rewrite El, lookup_app_r, Nat.sub_diag.
        -- rewrite E. unfold redo_value, redo_offset, sizeof_redo_log. lia.
    + intros i Hi. apply Hev; [lia|]. rewrite E. unfold redo_offset, sizeof_redo_log. lia.
Qed.

Lemma flag_value e l0 : l = l0 ++ [e] -> pm_read m2 (last_word l) = with_flag (e.1).
Proof.
  intros El. unfold flag_ops. simpl. rewrite pm_read_fence, pm_read_flush, pm_read_store_eq.
  by rewrite El, last_snoc.
Qed.

Lemma m2_flagged : flagged (pm_read m2) l.
Proof.
  destruct (flag_crash 3 (pm_read m2)) as [H|H]; [|done|exfalso].
  { intros x. apply read_cand. }
  destruct (exists_last Hne) as (l0 & e & El). pose proof (flag_value e l0 El) as Hv.
  apply (with_flag_not_even (e.1)). rewrite <- Hv. unfold last_word. apply H.
  destruct l; [done|simpl in *; lia].
Qed.

Lemma m2_durable : log_durable m2 l.
Proof.
  assert (Hns : forall x, x <> last_word l -> no_store x (flag_ops l)).
  { intros x Hx. apply (flag_no_store 3 x Hx). }
  split.
  - intros i Hi. destruct (m1_durable i Hi) as [H1 H2]. split.
    + destruct (decide (off_word i = last_word l)) as [->|E].
      * apply (persist_durable (run1 _ (Store (last_word l) _)) (last_word l) 8). lia.
      * by apply no_store_durable; [apply Hns|].
    + apply no_store_durable; [apply Hns|done].
      unfold last_word, redo_offset, redo_value, sizeof_redo_log. lia.
  - intros i v Hi Hv. apply m1_rest with i; [lia|]. eapply no_store_cand; [apply Hns|exact Hv].
    unfold last_word, redo_offset, sizeof_redo_log. destruct l; [done|simpl in *; lia].
Qed.

(** Words of the starting memory that explain an image. *)
Lemma explain_old image :
  (forall x, ~ log_area x -> image x ∈ cand m x) -> clean image ->
  exists start, pm_crash m start /\ recovers_to image start.
Proof.
  intros H Hc. exists (fun x => if decide (log_area x) then c_durable (m x) else image x). split.
  - intros x. case_decide; [left|by apply H].
  - right. split; [done|]. intros x Hx. by rewrite decide_False.
Qed.

Lemma explain_new image :
  (forall x, ~ log_area x -> ~ target l x -> image x ∈ cand m x) ->
  recovers_to image (apply l image) ->
  exists start, pm_crash m start /\ recovers_to image (apply l start).
Proof.
  intros H Hr. exists (fun x => if decide (log_area x \/ target l x) then c_durable (m x) else image x).
  split; [intros x; case_decide; [left|apply H; tauto]|].
  eapply recovers_to_same; [|exact Hr]. intros x Hx.
  destruct (decide (target l x)) as [Ht|Ht]; [by apply apply_target|].
  rewrite !apply_other by done. by rewrite decide_False by tauto.
Qed.

Lemma update_no_store x : ~ log_area x -> ~ target l x -> no_store x (update_ops pre l).
Proof.
  intros Hx Ht. assert (Hw : x <> last_word l) by (intros ->; by apply Hx, last_word_area).
  unfold update_ops. intros v [Hv|[Hv|Hv]%elem_of_app]%elem_of_app.
  - by apply Hx, (pre_log _ _ _ Hpre x v), persist_store.
  - by apply (flag_no_store 3 x Hw v).
  - by apply (process_no_store l x Ht Hw v).
Qed.

(** A crash at any point leaves nothing or everything of the update. *)
Lemma update_crash k image :
  pm_crash (run (take k (update_ops pre l)) m) image ->
  exists start, pm_crash m start /\
    (recovers_to image start \/ recovers_to image (apply l start)).
Proof.
  intros Hc.
  assert (Hother : forall x, ~ log_area x -> ~ target l x -> image x ∈ cand m x).
  { intros x Hx Ht. eapply no_store_cand; [|apply Hc]. by apply no_store_take, update_no_store. }
  assert (Hnew : recovers_to image (apply l image) -> exists start, pm_crash m start /\
    (recovers_to image start \/ recovers_to image (apply l start))).
  { intros Hr. destruct (explain_new image Hother Hr) as (start & ? & ?). eauto. }
  revert Hc. unfold update_ops.
  destruct (take_app_cases k (pre ++ persist_ops l) (flag_ops l ++ process_ops l)) as [->|[j ->]];
    intros Hc.
  { destruct (explain_old image) as (start & ? & ?); [| |by eauto].
    - intros x Hx. eapply no_store_cand; [by apply before_flag_data|apply Hc].
    - intros i Hi. apply before_flag_even with k i; [done|apply Hc]. }
  rewrite run_app in Hc. revert Hc.
  destruct (take_app_cases j (flag_ops l) (process_ops l)) as [->|[j' ->]]; intros Hc.
  - destruct (flag_crash j image Hc) as [H|H].
    { apply Hnew. left. by exists l. }
    destruct (explain_old image) as (start & ? & ?); [|done|by eauto]. intros x Hx.
    assert (Hw : x <> last_word l) by (intros ->; by apply Hx, last_word_area).
    eapply no_store_cand; [by apply (before_flag_data (length (pre ++ persist_ops l)))|].
    rewrite firstn_all. eapply no_store_cand; [by apply flag_no_store|apply Hc].
  - rewrite run_app in Hc. apply Hnew, process_crash with m2 j'; [|apply m2_durable|done].
    apply m2_flagged.
Qed.

(** The update without a crash: the words are stored and durable, and the log is
    ready for the next one. *)
Lemma update_done :
  let m' := run (update_ops pre l) m in
  (forall x, ~ log_area x -> pm_read m' x = apply l (pm_read m) x) /\
  (forall x, target l x -> pm_durable m' x) /\ no_flags m'.
Proof.
  unfold update_ops. rewrite !run_app. split_and!.
  - intros x Hx. assert (Hw : x <> last_word l) by (intros ->; by apply Hx, last_word_area).
    rewrite process_read, decide_False by done. unfold apply. f_equal.
    rewrite (no_store_read (flag_ops l)) by (by apply (flag_no_store 3)).
    rewrite <- run_app. pose proof (before_flag_data (length (pre ++ persist_ops l)) x Hx) as H.
    rewrite firstn_all in H. by rewrite no_store_read.
  - intros x Hx. apply process_durable; auto.
  - intros i v Hi Hv. destruct (decide (off_word i = last_word l)) as [E|E].
    + rewrite E in Hv.
      apply durable_cand in Hv as ->; [|by apply process_durable; auto].
      by rewrite process_read, decide_True.
    + apply m1_rest with i; [done|]. rewrite run_app.
      assert (Hn : no_store (off_word i) (flag_ops l ++ process_ops l)).
      { intros w [Hw|Hw]%elem_of_app; [by apply (flag_no_store 3 _ E w)|].
        eapply process_no_store; [|exact E|exact Hw]. intros Ht.
        by apply (new_value_ok l (off_word i) Hok Ht), off_word_area. }
      eapply no_store_cand; [exact Hn|]. by rewrite run_app.
Qed.

End Update.

(** ** The two ways the library writes a log *)

(** The entries [l], stored one after the other from index [i] on. *)
Fixpoint store_all (i : nat) (l : list entry) : prog unit :=
  match l with
  | [] => ret tt
  | e :: l' => redo_log_store redo (Z.of_nat i) (e.1) (e.2);; store_all (S i) l'
  end.

(** As [memops.c] does: all entries, then the flag. *)
Definition update_set_last (l : list entry) : prog unit :=
  store_all 0 l;;
  redo_log_set_last redo (Z.of_nat (length l) - 1);;
  redo_log_process pop redo (Z.of_nat (length l)).

(** As [list.c] does: all entries but one, then the last one with the flag. *)
Definition update_store_last (l : list entry) (e : entry) : prog unit :=
  store_all 0 l;;
  redo_log_store_last redo (Z.of_nat (length l)) (e.1) (e.2);;
  redo_log_process pop redo REDO_NUM_ENTRIES.

Definition entry_ops (i : nat) (e : entry) : list pm_op :=
  [Store (off_word i) (e.1); Store (val_word i) (e.2)].
Definition store_ops (l : list entry) : list pm_op := mjoin (imap entry_ops l).

Lemma store_ops_snoc l e : store_ops (l ++ [e]) = store_ops l ++ entry_ops (length l) e.
Proof.
  unfold store_ops. rewrite imap_app, join_app. simpl. by rewrite Nat.add_0_r, ?app_nil_r.
Qed.

Lemma store_all_snoc i l e m ops :
  store_all i l m = Some (tt, ops) -> even (e.1) ->
  Z.of_nat (i + length l) < REDO_NUM_ENTRIES ->
  store_all i (l ++ [e]) m = Some (tt, ops ++ entry_ops (i + length l) e).
Proof.
  revert i m ops. induction l as [|e0 l IH]; intros i m ops H He Hlt.
  - injection H as <-. simpl. unfold redo_log_store, bind, check. unfold even in He.
    rewrite He. simpl in *. rewrite Nat.add_0_r in *. by rewrite (proj2 (Z.ltb_lt _ _)).
  - cbn [store_all app] in *. unfold bind in H at 1.
    destruct (redo_log_store redo (Z.of_nat i) (e0.1) (e0.2) m) as [[[] o1]|] eqn:E1; [|done].
    simpl in H. destruct (store_all (S i) l (run o1 m)) as [[[] o2]|] eqn:E2; [|done].
    injection H as <-. rewrite <- app_assoc. eapply bind_Some; [exact E1|].
    replace (i + length (e0 :: l))%nat with (S i + length l)%nat in * by (simpl; lia).
    by apply IH.
Qed.

Lemma store_all_runs l m :
  Forall (fun e => even (e.1)) l -> Z.of_nat (length l) <= REDO_NUM_ENTRIES ->
  store_all 0 l m = Some (tt, store_ops l).
Proof.
  induction l as [|e l IH] using rev_ind; intros Hl Hlen; [done|].
  apply Forall_app in Hl as [Hl [He _]%Forall_cons]. rewrite length_app in Hlen. simpl in Hlen.
  rewrite store_ops_snoc. apply (store_all_snoc 0 l e); [apply IH; [done|lia]|done|lia].
Qed.

Lemma store_ops_elem l x v :
  Store x v ∈ store_ops l -> exists i e, l !! i = Some e /\
    (x = off_word i /\ v = e.1 \/ x = val_word i /\ v = e.2).
Proof.
  unfold store_ops. rewrite list_elem_of_join. intros (ops & Hin & Hops).
  apply elem_of_lookup_imap_1 in Hops as (i & e & -> & He). exists i, e. split; [done|].
  unfold entry_ops in Hin. rewrite !elem_of_cons, elem_of_nil in Hin. naive_solver.
Qed.

Lemma store_ops_read l m i e :
  l !! i = Some e ->
  pm_read (run (store_ops l) m) (off_word i) = e.1 /\
  pm_read (run (store_ops l) m) (val_word i) = e.2.
Proof.
  induction l as [|e0 l IH] using rev_ind; intros Hi; [done|].
  rewrite store_ops_snoc, run_app. unfold entry_ops. cbn [run fold_left run1].
  apply lookup_app_Some in Hi as [Hi|[Hge Hi]].
  - pose proof (lookup_lt_Some _ _ _ Hi).
    rewrite !pm_read_store_ne by (unfold redo_offset, redo_value, sizeof_redo_log; lia). by apply IH.
  - destruct (i - length l)%nat eqn:Ei; [|done]. injection Hi as ->.
    assert (i = length l) as -> by lia. rewrite pm_read_store_eq.
    rewrite pm_read_store_ne by (unfold redo_offset, redo_value, sizeof_redo_log; lia).
    by rewrite pm_read_store_eq.
Qed.

(** What holds of the entries written: the words are in the log and no offset
    has a flag. *)
Lemma store_ops_log l x v :
  Forall (fun e => even (e.1)) l -> (length l <= N)%nat -> Store x v ∈ store_ops l ->
  log_area x /\ forall i, x = off_word i -> even v.
Proof.
  intros Hl HN (i & e & Hi & H)%store_ops_elem. pose proof (lookup_lt_Some _ _ _ Hi).
  destruct H as [[-> ->]|[-> ->]]; (split; [(apply off_word_area || apply val_word_area); lia|]);
    intros j Hj; [by apply (Forall_lookup_1 _ _ _ _ Hl Hi)|].
  unfold redo_offset, redo_value, sizeof_redo_log in Hj. lia.
Qed.

Lemma prepares_set_last l m :
  Forall (fun e => even (e.1)) l -> (length l <= N)%nat -> prepares (store_ops l) m l.
Proof.
  intros Hl HN. split.
  - intros x v H. by eapply store_ops_log.
  - intros i v Hi H. by eapply store_ops_log.
  - intros i e Hi _. by apply store_ops_read.
  - intros i e Hi. by apply store_ops_read.
Qed.

Lemma prepares_store_last l e m :
  Forall (fun e => even (e.1)) l -> (length l < N)%nat ->
  prepares (store_ops l ++ [Store (val_word (length l)) (e.2)]) m (l ++ [e]).
Proof.
  intros Hl HN.
  assert (Hin : forall x v, Store x v ∈ store_ops l ++ [Store (val_word (length l)) (e.2)] ->
    Store x v ∈ store_ops l \/ x = val_word (length l)).
  { intros x v [H|H%list_elem_of_singleton]%elem_of_app; [by left|right]. by injection H. }
  split.
  - intros x v [H| ->]%Hin; [eapply store_ops_log; [done| |done]; lia|apply val_word_area; lia].
  - intros i v Hi [H|H]%Hin; [eapply (store_ops_log l); [done| |done..]; lia|].
    unfold redo_offset, redo_value, sizeof_redo_log in H. lia.
  - intros i e' Hi Hlt. rewrite length_app in Hlt. simpl in Hlt. rewrite run_app. simpl.
    rewrite pm_read_store_ne by (unfold redo_offset, redo_value, sizeof_redo_log; lia).
    rewrite lookup_app_l in Hi by lia. by apply store_ops_read.
  - intros i e' Hi. rewrite run_app. simpl. apply lookup_app_Some in Hi as [Hi|[Hge Hi]].
    + pose proof (lookup_lt_Some _ _ _ Hi).
      rewrite pm_read_store_ne by (unfold redo_value, sizeof_redo_log; lia). by apply store_ops_read.
    + destruct (i - length l)%nat eqn:Ei; [|done]. injection Hi as ->.
      assert (i = length l) as -> by lia. by rewrite pm_read_store_eq.
Qed.

(** Committing entries that are in the log: the flag, then the values. *)
Lemma commit_set_last_runs pre l e m n :
  prepares pre m (l ++ [e]) -> pm_read (run pre m) (last_word (l ++ [e])) = e.1 ->
  no_flags m -> Forall entry_ok (l ++ [e]) -> (length l < N)%nat -> (length l < n)%nat ->
  Z.of_nat (length l) < REDO_NUM_ENTRIES ->
  (redo_log_set_last redo (Z.of_nat (length l));; redo_log_process pop redo (Z.of_nat n)) (run pre m) =
    Some (tt, persist_ops (l ++ [e]) ++ flag_ops (l ++ [e]) ++ process_ops (l ++ [e])).
Proof.
  intros Hpre Hr Hm Hok HN Hn Hlen.
  assert (Hlw : redo_offset redo (Z.of_nat (length l)) = last_word (l ++ [e])).
  { unfold last_word. by rewrite length_app, Nat.add_1_r. }
  assert (El : length (l ++ [e]) = S (length l)) by (rewrite length_app; simpl; lia).
  rewrite app_assoc. eapply bind_Some.
  - unfold redo_log_set_last, bind, check, persist, read, store, emit.
    rewrite (proj2 (Z.ltb_lt _ _)) by lia. simpl. rewrite Hlw.
    replace ((Z.of_nat (length l) + 1) * sizeof_redo_log)
      with (sizeof_redo_log * Z.of_nat (length (l ++ [e]))) by lia.
    rewrite pm_read_fence, pm_read_flush, Hr. unfold flag_ops. by rewrite last_snoc.
  - apply process_runs; [|lia]. rewrite run_app, <- (run_app pre).
    apply m2_flagged; try done; [by destruct l|lia].
Qed.

Lemma commit_store_last_runs pre l e m :
  prepares (pre ++ [Store (val_word (length l)) (e.2)]) m (l ++ [e]) ->
  no_flags m -> Forall entry_ok (l ++ [e]) -> (length l < N)%nat ->
  Z.of_nat (length l) < REDO_NUM_ENTRIES ->
  (redo_log_store_last redo (Z.of_nat (length l)) (e.1) (e.2);; redo_log_process pop redo REDO_NUM_ENTRIES)
    (run pre m) =
    Some (tt, Store (val_word (length l)) (e.2) ::
      persist_ops (l ++ [e]) ++ flag_ops (l ++ [e]) ++ process_ops (l ++ [e])).
Proof.
  intros Hpre Hm Hok HN Hlen. pose proof (entry_ok_even _ Hok) as [_ [He _]%Forall_cons]%Forall_app.
  assert (Hlw : redo_offset redo (Z.of_nat (length l)) = last_word (l ++ [e])).
  { unfold last_word. by rewrite length_app, Nat.add_1_r. }
  assert (El : length (l ++ [e]) = S (length l)) by (rewrite length_app; simpl; lia).
  rewrite app_assoc, app_comm_cons. eapply bind_Some.
  - unfold redo_log_store_last, bind, check, persist, store, emit. unfold even in He.
    rewrite He, (proj2 (Z.ltb_lt _ _)) by lia. simpl. rewrite Hlw.
    replace ((Z.of_nat (length l) + 1) * sizeof_redo_log)
      with (sizeof_redo_log * Z.of_nat (length (l ++ [e]))) by lia.
    unfold flag_ops. by rewrite last_snoc.
  - change REDO_NUM_ENTRIES with (Z.of_nat 63). change REDO_NUM_ENTRIES with 63 in Hlen.
    apply process_runs; [|lia].
    rewrite pm_run_cons, !run_app.
    change (run1 (run pre m) ?o) with (run [o] (run pre m)).
    rewrite <- (run_app pre), <- (run_app (pre ++ _)). apply m2_flagged; try done; [by destruct l|lia].
Qed.

(** The programs issue the operations of an update. *)
Lemma update_set_last_runs l m :
  no_flags m -> Forall entry_ok l -> l <> [] -> (length l <= N)%nat ->
  Z.of_nat (length l) <= REDO_NUM_ENTRIES ->
  update_set_last l m = Some (tt, update_ops (store_ops l) l).
Proof.
  intros Hm Hok Hne HN Hlen. destruct (exists_last Hne) as (l0 & e & ->).
  pose proof (entry_ok_even _ Hok) as Hev.
  rewrite length_app in HN, Hlen. simpl in HN, Hlen.
  unfold update_set_last, update_ops. rewrite <- app_assoc.
  eapply bind_Some; [apply store_all_runs; [done|rewrite length_app; simpl; lia]|].
  replace (Z.of_nat (length (l0 ++ [e])) - 1) with (Z.of_nat (length l0)) by (rewrite length_app; simpl; lia).
  apply commit_set_last_runs; try done; try (rewrite ?length_app; simpl; lia).
  - apply prepares_set_last; [done|rewrite length_app; simpl; lia].
  - unfold last_word. apply (store_ops_read (l0 ++ [e]) m).
    rewrite length_app, Nat.add_1_r. simpl. by rewrite lookup_app_r, Nat.sub_diag.
Qed.

Lemma update_store_last_runs l e m :
  no_flags m -> Forall entry_ok (l ++ [e]) -> (length l < N)%nat ->
  Z.of_nat (length l) < REDO_NUM_ENTRIES ->
  update_store_last l e m =
    Some (tt, update_ops (store_ops l ++ [Store (val_word (length l)) (e.2)]) (l ++ [e])).
Proof.
  intros Hm Hok HN Hlen. pose proof (entry_ok_even _ Hok) as [Hev _]%Forall_app.
  unfold update_store_last, update_ops. rewrite <- !app_assoc.
  eapply bind_Some; [apply store_all_runs; [done|lia]|].
  apply commit_store_last_runs; [by apply prepares_store_last|done..].
Qed.

(** ** Atomic updates *)

(** The words outside of the log, but for the transient ones of [T]. *)
Definition agree (T : Z -> Prop) (f g : Z -> Z) : Prop :=
  forall x, ~ log_area x -> ~ T x -> f x = g x.

(** After a crash of [p] at any point and any number of crashes of recovery, the
    log passes its check, recovery succeeds and leaves every word durable; the
    words outside of the log and of [T] are those of a crash before [p], either
    with none of the entries of [l] stored or with all of them. *)
Definition atomic_update (T : Z -> Prop) (p : prog unit) (m : pmem) (l : list entry) : Prop :=
  forall image image', crash_image p m image -> rtc recovery_crash image image' ->
  exists ops start,
    redo_log_check pop redo (Z.of_nat N) (pm_boot image') = Some 0 /\
    redo_log_recover pop redo (Z.of_nat N) (pm_boot image') = Some (tt, ops) /\
    (forall x, pm_durable (run ops (pm_boot image')) x) /\
    clean (pm_read (run ops (pm_boot image'))) /\
    pm_crash m start /\
    (agree T (pm_read (run ops (pm_boot image'))) start \/
     agree T (pm_read (run ops (pm_boot image'))) (apply l start)).

(** The same of a list of operations, before recovery. *)
Definition crash_atomic (T : Z -> Prop) (ops : list pm_op) (m : pmem) (l : list entry) : Prop :=
  forall k image, pm_crash (run (take k ops) m) image ->
  exists start f, pm_crash m start /\ recovers_to image f /\
    (agree T f start \/ agree T f (apply l start)).

(** [p] returns with the entries of [l] stored and durable and the log ready. *)
Definition completes (p : prog unit) (m : pmem) (l : list entry) : Prop :=
  exists m', exec p m = Some (tt, m') /\
    (forall x, ~ log_area x -> pm_read m' x = apply l (pm_read m) x) /\
    (forall x, target l x -> pm_durable m' x) /\ no_flags m'.

Lemma crash_atomic_update T p m ops l :
  p m = Some (tt, ops) -> crash_atomic T ops m l -> atomic_update T p m l.
Proof.
  intros Hp Hca image image' (x & ops' & k & E & Hc) Hr. rewrite Hp in E. injection E as <- <-.
  destruct (Hca k image Hc) as (start & f & Hs & Hf & Hor).
  destruct (recovers image' f) as (ops' & H1 & H2 & H3 & H4 & H5); [by eapply recovers_to_steps|].
  exists ops', start. split_and!; try done.
  destruct Hor as [H|H]; [left|right]; intros y Hy HT; rewrite H3 by done; by apply H.
Qed.

Lemma update_crash_atomic pre m l :
  prepares pre m l -> no_flags m -> Forall entry_ok l -> l <> [] -> (length l <= N)%nat ->
  crash_atomic (fun _ => False) (update_ops pre l) m l.
Proof.
  intros Hpre Hm Hok Hne HN k image Hc.
  destruct (update_crash pre m l Hpre Hm Hok Hne HN k image Hc) as (start & Hs & [H|H]);
    eexists start, _; (split; [done|]); (split; [exact H|]); [left|right]; done.
Qed.

Lemma atomic_update_intro p m l pre :
  p m = Some (tt, update_ops pre l) -> prepares pre m l -> no_flags m ->
  Forall entry_ok l -> l <> [] -> (length l <= N)%nat -> atomic_update (fun _ => False) p m l.
Proof. eauto using crash_atomic_update, update_crash_atomic. Qed.

Lemma completes_intro p m l pre :
  p m = Some (tt, update_ops pre l) -> prepares pre m l -> no_flags m ->
  Forall entry_ok l -> l <> [] -> (length l <= N)%nat -> completes p m l.
Proof.
  intros Hp Hpre Hm Hok Hne HN. eexists. split; [unfold exec; by rewrite Hp|].
  by apply update_done.
Qed.

End Log.

(** ** Properties *)

(** C11: an update through the redo log is atomic, in both forms the library
    uses ([redo_log_set_last] after the last entry, or [redo_log_store_last]):
    after a crash at any point of storing, committing and processing, and after
    any number of crashes during recovery, [redo_log_check] accepts the log,
    [redo_log_recover] succeeds, leaves a clean log and every word durable, and
    outside of the log either no entry or every entry has been stored. *)
Theorem redo_update_atomic pop redo N l e m :
  no_flags redo N m -> Forall (entry_ok pop redo N) (l ++ [e]) ->
  (length l < N)%nat -> Z.of_nat (length l) < REDO_NUM_ENTRIES ->
  atomic_update pop redo N (fun _ => False) (update_set_last pop redo (l ++ [e])) m (l ++ [e]) /\
  atomic_update pop redo N (fun _ => False) (update_store_last pop redo l e) m (l ++ [e]).
Proof.
  intros Hm Hok HN Hlen. pose proof (entry_ok_even _ _ _ _ Hok) as Hev.
  assert (Hne : l ++ [e] <> []) by by destruct l.
  assert (HN' : (length (l ++ [e]) <= N)%nat) by (rewrite length_app; simpl; lia).
  split; eapply atomic_update_intro; try done.
  - apply update_set_last_runs with N; try done. rewrite length_app. simpl. lia.
  - by apply prepares_set_last.
  - by apply update_store_last_runs with N.
  - apply prepares_store_last; [by apply Forall_app in Hev as [? _]|done].
Qed.

(** Without a crash both forms of an update return, with exactly the words
    of the entries changed (a later entry for the same word wins), these words
    durable, and no finish flag left for a crash to find, so that the log is
    ready for the next update. *)
Theorem redo_update_done pop redo N l e m :
  no_flags redo N m -> Forall (entry_ok pop redo N) (l ++ [e]) ->
  (length l < N)%nat -> Z.of_nat (length l) < REDO_NUM_ENTRIES ->
  completes pop redo N (update_set_last pop redo (l ++ [e])) m (l ++ [e]) /\
  completes pop redo N (update_store_last pop redo l e) m (l ++ [e]).
Proof.
  intros Hm Hok HN Hlen. pose proof (entry_ok_even _ _ _ _ Hok) as Hev.
  assert (Hne : l ++ [e] <> []) by by destruct l.
  assert (HN' : (length (l ++ [e]) <= N)%nat) by (rewrite length_app; simpl; lia).
  split; eapply completes_intro; try done.
  - apply update_set_last_runs with N; try done. rewrite length_app. simpl. lia.
  - by apply prepares_set_last.
  - by apply update_store_last_runs with N.
  - apply prepares_store_last; [by apply Forall_app in Hev as [? _]|done].
Qed.

(** A pool with one lane at 8192 and a heap at 16384, mapped at 2^32, and its
    memory after creation. *)
Definition sample_pool : PMEMobjpool := mkPool (2 ^ 32) 8192 1 3072 16384 1048576 4096 77.
Definition sample_redo : Z := 2 ^ 32 + 8192 + 16.
Definition fresh : pmem := pm_boot (fun _ => 0).

Lemma redo_update_atomic_witness :
  atomic_update sample_pool sample_redo 63 (fun _ => False)
    (update_set_last sample_pool sample_redo [(16384, 5); (20000, 7)]) fresh [(16384, 5); (20000, 7)].
Proof.
  apply (redo_update_atomic sample_pool sample_redo 63 [(16384, 5)] (20000, 7) fresh).
  - intros i v _ Hv. apply list_elem_of_singleton in Hv as ->. reflexivity.
  - repeat apply Forall_cons_2; [| |apply Forall_nil_2];
      (split; [reflexivity|split; [vm_compute; intuition congruence|reflexivity]]).
  - simpl. lia.
  - vm_compute. reflexivity.
Defined.

Lemma redo_update_done_witness :
  completes sample_pool sample_redo 63
    (update_store_last sample_pool sample_redo [(16384, 5)] (20000, 7)) fresh
    [(16384, 5); (20000, 7)].
Proof.
  apply (redo_update_done sample_pool sample_redo 63 [(16384, 5)] (20000, 7) fresh).
  - intros i v _ Hv. apply list_elem_of_singleton in Hv as ->. reflexivity.
  - repeat apply Forall_cons_2; [| |apply Forall_nil_2];
      (split; [reflexivity|split; [vm_compute; intuition congruence|reflexivity]]).
  - simpl. lia.
  - vm_compute. reflexivity.
Defined.
