(* ===== verification/Memops.v ===== *)
(** * Aggregated memory operations: [nvml/src/libpmemobj/memops.c]

    An operation collects stores, ands and ors on words, at most one entry per
    word, separately for words of the pool and for transient ones, and performs
    them at once: a single word by an atomic store, several words of the pool
    through the redo log, transient words afterwards.  The entries are kept in
    the array [entries[2][10]] of the source, here one list of twenty.

    The theorems: the entries hold, word by word, the combination of the
    operations added; the operation is atomic with respect to crashes, whatever
    the number of its entries; and the bound on the entries that the source
    asserts allows one entry too many. *)

From stdpp Require Import relations.
From S2P Require Import Prelude Pmem Programs Redo RedoProofs.

Local Open Scope pmtest_scope.

Inductive operation_type := OPERATION_SET | OPERATION_AND | OPERATION_OR.

Record operation_entry := mkEntry {
  en_ptr : Z;
  en_value : Z;
  en_type : operation_type;
}.

Definition MAX_TRANSIENT_ENTRIES : nat := 10.
Definition MAX_PERSITENT_ENTRIES : nat := 10.

Inductive operation_entry_type := ENTRY_PERSISTENT | ENTRY_TRANSIENT.
Definition en_index (t : operation_entry_type) : nat :=
  match t with ENTRY_PERSISTENT => 0 | ENTRY_TRANSIENT => 1 end.

#[global] Instance operation_entry_type_eq_dec : EqDecision operation_entry_type.
Proof. solve_decision. Defined.

Record operation_context := mkContext {
  ctx_pop : PMEMobjpool;
  ctx_redo : Z;
  nentries : operation_entry_type -> nat;
  entries : list operation_entry;
}.

(** [&ctx->entries[t][i]] as an index of the list. *)
Definition slot (t : operation_entry_type) (i : nat) : nat :=
  (en_index t * MAX_PERSITENT_ENTRIES + i)%nat.

(** The array is not initialised: [raw] is what it holds. *)
Definition operation_init (pop : PMEMobjpool) (redo : Z) (raw : list operation_entry) :
    operation_context :=
  mkContext pop redo (fun _ => 0%nat) raw.

Definition operation_perform (field value : Z) (op_type : operation_type) : Z :=
  match op_type with
  | OPERATION_AND => Z.land field value
  | OPERATION_OR => Z.lor field value
  | OPERATION_SET => field
  end.

(** The loop over the existing entries: the array with the entry for [ptr]
    updated, or nothing if there is none. *)
Fixpoint update_existing (es : list operation_entry) (t : operation_entry_type) (i n : nat)
    (ptr value : Z) (type : operation_type) : option (list operation_entry) :=
  match n with
  | O => None
  | S n' =>
      match es !! slot t i with
      | Some e =>
          if en_ptr e =? ptr
          then Some (<[slot t i := mkEntry (en_ptr e) (operation_perform (en_value e) value type)
                      (en_type e)]> es)
          else update_existing es t (S i) n' ptr value type
      | None => None
      end
  end.

Definition operation_add_typed_entry (ctx : operation_context) (ptr value : Z)
    (type : operation_type) (t : operation_entry_type) (m : pmem) : option operation_context :=
  if (nentries ctx ENTRY_PERSISTENT <=? MAX_PERSITENT_ENTRIES)%nat
     && (nentries ctx ENTRY_TRANSIENT <=? MAX_TRANSIENT_ENTRIES)%nat then
    match update_existing (entries ctx) t 0 (nentries ctx t) ptr value type with
    | Some es => Some (mkContext (ctx_pop ctx) (ctx_redo ctx) (nentries ctx) es)
    | None =>
        let v := match type with
                 | OPERATION_SET => value
                 | _ => operation_perform (pm_read m ptr) value type
                 end in
        let i := slot t (nentries ctx t) in
        if (i <? length (entries ctx))%nat then
          Some (mkContext (ctx_pop ctx) (ctx_redo ctx)
                  (fun t' => if decide (t' = t) then S (nentries ctx t) else nentries ctx t')
                  (<[i := mkEntry ptr v OPERATION_SET]> (entries ctx)))
        else None
    end
  else None.

Definition operation_add_entry (ctx : operation_context) (ptr value : Z) (type : operation_type)
    (m : pmem) : option operation_context :=
  operation_add_typed_entry ctx ptr value type
    (if OBJ_PTR_IS_VALID (ctx_pop ctx) ptr then ENTRY_PERSISTENT else ENTRY_TRANSIENT) m.

Fixpoint operation_add_entries (ctx : operation_context) (es : list operation_entry) (m : pmem) :
    option operation_context :=
  match es with
  | [] => Some ctx
  | e :: es' =>
      ctx' ← operation_add_entry ctx (en_ptr e) (en_value e) (en_type e) m;
      operation_add_entries ctx' es' m
  end.

(** The entries of a kind, in order. *)
Definition listed (ctx : operation_context) (t : operation_entry_type) : list operation_entry :=
  take (nentries ctx t) (drop (slot t 0) (entries ctx)).

(** The loop over the persistent entries from index [i] on. *)
Fixpoint store_entries (pop : PMEMobjpool) (redo : Z) (i : nat) (es : list operation_entry) :
    prog unit :=
  match es with
  | [] => ret tt
  | e :: es' =>
      redo_log_store redo (Z.of_nat i) (OBJ_PTR_TO_OFF pop (en_ptr e)) (en_value e);;
      store_entries pop redo (S i) es'
  end.

Definition operation_process_persistent_redo (ctx : operation_context) : prog unit :=
  let i := Z.of_nat (nentries ctx ENTRY_PERSISTENT) in
  store_entries (ctx_pop ctx) (ctx_redo ctx) 0 (listed ctx ENTRY_PERSISTENT);;
  redo_log_set_last (ctx_redo ctx) (i - 1);;
  redo_log_process (ctx_pop ctx) (ctx_redo ctx) i.

(** The loop over the transient entries. *)
Fixpoint store_transient (es : list operation_entry) : prog unit :=
  match es with
  | [] => ret tt
  | e :: es' => store (en_ptr e) (en_value e);; store_transient es'
  end.

Definition operation_process (ctx : operation_context) : prog unit :=
  (if (nentries ctx ENTRY_PERSISTENT =? 1)%nat then
     match entries ctx !! slot ENTRY_PERSISTENT 0 with
     | Some e => store (en_ptr e) (en_value e);; persist (en_ptr e) 8
     | None => check false
     end
   else if negb (nentries ctx ENTRY_PERSISTENT =? 0)%nat
   then operation_process_persistent_redo ctx
   else ret tt);;
  store_transient (listed ctx ENTRY_TRANSIENT).

(** ** What adding entries is meant to do *)

Definition add1 (m : pmem) (es : list operation_entry) (a : operation_entry) :
    list operation_entry :=
  match list_find (fun e => en_ptr e = en_ptr a) es with
  | Some (i, e) =>
      <[i := mkEntry (en_ptr e) (operation_perform (en_value e) (en_value a) (en_type a))
               (en_type e)]> es
  | None =>
      es ++ [mkEntry (en_ptr a)
               match en_type a with
               | OPERATION_SET => en_value a
               | _ => operation_perform (pm_read m (en_ptr a)) (en_value a) (en_type a)
               end OPERATION_SET]
  end.

Definition add_all (m : pmem) (adds : list operation_entry) : list operation_entry :=
  fold_left (add1 m) adds [].

(** The value the operations of [adds] give to the word [p]: the first one
    applies to memory, of the later ones a store has no effect. *)
Definition combined (m : pmem) (adds : list operation_entry) (p : Z) : option Z :=
  fold_left (fun acc a =>
    if en_ptr a =? p then
      Some match acc with
           | Some v => operation_perform v (en_value a) (en_type a)
           | None => match en_type a with
                     | OPERATION_SET => en_value a
                     | _ => operation_perform (pm_read m p) (en_value a) (en_type a)
                     end
           end
    else acc) adds None.

(** ** The entries of a context *)

(** The context holds the entries [L t] of each kind. *)
Record holds (ctx : operation_context) (L : operation_entry_type -> list operation_entry) : Prop := {
  holds_n t : nentries ctx t = length (L t);
  holds_len : length (entries ctx) = 20%nat;
  holds_max t : (length (L t) <= 10)%nat;
  holds_get t i : (i < length (L t))%nat -> entries ctx !! slot t i = L t !! i;
}.

Lemma slot_inj t t' i j :
  (i < 10)%nat -> (j < 10)%nat -> slot t i = slot t' j -> t = t' /\ i = j.
Proof. unfold slot, MAX_PERSITENT_ENTRIES. destruct t, t'; simpl; intros; (split; [done|lia]) || lia. Qed.

Lemma slot_lt t i : (i < 10)%nat -> (slot t i < 20)%nat.
Proof. unfold slot, MAX_PERSITENT_ENTRIES. destruct t; simpl; lia. Qed.

Lemma holds_listed ctx L t : holds ctx L -> listed ctx t = L t.
Proof.
  intros H. unfold listed. rewrite (holds_n _ _ H). apply list_eq. intros i.
  destruct (decide (i < length (L t))%nat) as [Hi|Hi].
  - rewrite lookup_take_lt, lookup_drop by done. rewrite <- (holds_get _ _ H t i Hi).
    f_equal. unfold slot. lia.
  - rewrite (lookup_ge_None_2 (L t)) by lia. apply lookup_ge_None_2. rewrite length_take. lia.
Qed.

Lemma init_holds pop redo raw : length raw = 20%nat -> holds (operation_init pop redo raw) (fun _ => []).
Proof. intros H. split; simpl; try done; lia. Qed.

Lemma update_existing_spec es t l i p v ty :
  (forall j, (j < length l)%nat -> es !! slot t (i + j) = l !! j) ->
  update_existing es t i (length l) p v ty =
  match list_find (fun e => en_ptr e = p) l with
  | Some (j, e) =>
      Some (<[slot t (i + j) := mkEntry (en_ptr e) (operation_perform (en_value e) v ty) (en_type e)]> es)
  | None => None
  end.
Proof.
  revert i. induction l as [|e l IH]; intros i H; [done|]. simpl.
  pose proof (H 0%nat) as H0. rewrite Nat.add_0_r in H0. rewrite H0 by (simpl; lia). simpl.
  case_decide as E.
  - rewrite (proj2 (Z.eqb_eq _ _) E). by rewrite Nat.add_0_r.
  - rewrite (proj2 (Z.eqb_neq _ _) E), IH.
    + destruct (list_find _ l) as [[j e']|]; [|done]. simpl. by rewrite <- plus_n_Sm.
    + intros j Hj. replace (S i + j)%nat with (i + S j)%nat by lia. apply H. simpl. lia.
Qed.

(** Adding to a context is adding to the list of the kind. *)
Lemma add_typed_holds ctx L t a m :
  holds ctx L -> (length (add1 m (L t) a) <= 10)%nat ->
  exists ctx', operation_add_typed_entry ctx (en_ptr a) (en_value a) (en_type a) t m = Some ctx' /\
    ctx_pop ctx' = ctx_pop ctx /\ ctx_redo ctx' = ctx_redo ctx /\
    holds ctx' (fun t' => if decide (t' = t) then add1 m (L t) a else L t').
Proof.
  intros H Hmax. pose proof H as [Hn Hlen HL Hget].
  unfold operation_add_typed_entry, MAX_PERSITENT_ENTRIES, MAX_TRANSIENT_ENTRIES.
  rewrite !Hn, !(proj2 (Nat.leb_le _ _)) by done. cbn [andb].
  rewrite (update_existing_spec _ t (L t) 0) by (intros; by apply Hget).
  unfold add1 in *. destruct (list_find _ (L t)) as [[j e]|] eqn:E.
  - apply list_find_Some in E as (Ej & _ & _). pose proof (lookup_lt_Some _ _ _ Ej) as Hj.
    eexists. split_and!; [done..|]. pose proof (HL t).
    split; simpl; intros; rewrite ?length_insert; try done; repeat case_decide; subst;
      rewrite ?length_insert in *; try done.
    + destruct (decide (i = j)) as [->|Hij].
      * rewrite !list_lookup_insert_eq; [done|done|]. rewrite Hlen. apply slot_lt. lia.
      * rewrite !list_lookup_insert_ne; [by apply Hget|done|].
        intros Es. apply slot_inj in Es; lia.
    + rewrite list_lookup_insert_ne; [by apply Hget|]. pose proof (HL t0).
      intros Es. apply slot_inj in Es as [-> _]; [done|lia..].
  - rewrite length_app in Hmax. simpl in Hmax. rewrite Hlen.
    rewrite (proj2 (Nat.ltb_lt _ _)) by (apply slot_lt; lia).
    eexists. split_and!; [done..|].
    split; simpl; intros; rewrite ?length_insert; try done; repeat case_decide; subst;
      rewrite ?length_app in *; simpl in *; try (done || lia); try apply Hn.
    + destruct (decide (i = length (L t))) as [->|Hi].
      * rewrite list_lookup_insert_eq by (rewrite Hlen; apply slot_lt; lia).
        by rewrite lookup_app_r, Nat.sub_diag.
      * rewrite list_lookup_insert_ne by (intros Es; apply slot_inj in Es; lia).
        rewrite lookup_app_l by lia. apply Hget. lia.
    + rewrite list_lookup_insert_ne; [by apply Hget|]. pose proof (HL t0).
      intros Es. apply slot_inj in Es as [-> _]; [done|lia..].
Qed.

Lemma add1_length m es a : (length es <= length (add1 m es a))%nat.
Proof.
  unfold add1. destruct (list_find _ es) as [[i e]|]; [by rewrite length_insert|].
  rewrite length_app. lia.
Qed.

Lemma add_fold_length m adds es : (length es <= length (fold_left (add1 m) adds es))%nat.
Proof.
  revert es. induction adds as [|a adds IH]; intros es; [done|]. simpl.
  pose proof (add1_length m es a). pose proof (IH (add1 m es a)). lia.
Qed.

(** The kind of the entry for a word. *)
Definition kind (pop : PMEMobjpool) (a : operation_entry) : operation_entry_type :=
  if OBJ_PTR_IS_VALID pop (en_ptr a) then ENTRY_PERSISTENT else ENTRY_TRANSIENT.
Definition of_kind (pop : PMEMobjpool) (t : operation_entry_type) (adds : list operation_entry) :
    list operation_entry := filter (fun a => kind pop a = t) adds.

Lemma add_entries_holds ctx L adds m :
  holds ctx L ->
  (forall t, (length (fold_left (add1 m) (of_kind (ctx_pop ctx) t adds) (L t)) <= 10)%nat) ->
  exists ctx', operation_add_entries ctx adds m = Some ctx' /\
    ctx_pop ctx' = ctx_pop ctx /\ ctx_redo ctx' = ctx_redo ctx /\
    holds ctx' (fun t => fold_left (add1 m) (of_kind (ctx_pop ctx) t adds) (L t)).
Proof.
  revert ctx L. induction adds as [|a adds IH]; intros ctx L H Hmax; [by exists ctx|].
  cbn [operation_add_entries]. unfold operation_add_entry. fold (kind (ctx_pop ctx) a).
  set (t := kind (ctx_pop ctx) a) in *.
  assert (Hof : forall t', of_kind (ctx_pop ctx) t' (a :: adds) =
    if decide (t' = t) then a :: of_kind (ctx_pop ctx) t' adds else of_kind (ctx_pop ctx) t' adds).
  { intros t'. unfold of_kind. rewrite filter_cons. fold t. by repeat case_decide; subst. }
  destruct (add_typed_holds ctx L t a m H) as (ctx1 & E1 & Ep & Er & H1).
  { pose proof (Hmax t) as Ht. rewrite Hof, decide_True in Ht by done. simpl in Ht.
    pose proof (add_fold_length m (of_kind (ctx_pop ctx) t adds) (add1 m (L t) a)). lia. }
  rewrite E1. cbn [mbind option_bind].
  destruct (IH ctx1 _ H1) as (ctx' & E' & Ep' & Er' & H').
  { intros t'. pose proof (Hmax t') as Ht. rewrite Hof in Ht. rewrite Ep. by case_decide; subst. }
  exists ctx'. split_and!; [done|congruence..|].
  destruct H' as [Hn Hlen HL Hget]. rewrite Ep in *.
  split; [|done| |]; intros t'; specialize (Hn t'); specialize (HL t'); specialize (Hget t');
    rewrite Hof; by case_decide; subst.
Qed.

(** ** The values of the entries *)

Lemma combined_snoc m adds a p :
  combined m (adds ++ [a]) p =
  if en_ptr a =? p then
    Some match combined m adds p with
         | Some v => operation_perform v (en_value a) (en_type a)
         | None => match en_type a with
                   | OPERATION_SET => en_value a
                   | _ => operation_perform (pm_read m p) (en_value a) (en_type a)
                   end
         end
  else combined m adds p.
Proof. unfold combined. by rewrite fold_left_app. Qed.

Lemma add1_found m es a i e :
  list_find (fun e => en_ptr e = en_ptr a) es = Some (i, e) ->
  en_ptr <$> add1 m es a = en_ptr <$> es.
Proof.
  intros E. unfold add1. rewrite E. apply list_find_Some in E as (Ei & _ & _).
  rewrite list_fmap_insert. simpl. apply list_insert_id. by rewrite list_lookup_fmap, Ei.
Qed.

(** One entry per word, with the combined value. *)
Lemma add_all_spec m adds :
  NoDup (en_ptr <$> add_all m adds) /\
  forall p v, combined m adds p = Some v <->
    exists e, e ∈ add_all m adds /\ en_ptr e = p /\ en_value e = v.
Proof.
  induction adds as [|a adds [IHn IHc]] using rev_ind.
  { split; [apply NoDup_nil_2|]. intros p v. split; [done|]. by intros (e & ?%elem_of_nil & _). }
  assert (Efold : add_all m (adds ++ [a]) = add1 m (add_all m adds) a).
  { unfold add_all. by rewrite fold_left_app. }
  rewrite Efold. set (es := add_all m adds) in *.
  destruct (list_find (fun e => en_ptr e = en_ptr a) es) as [[i e]|] eqn:E.
  - split; [by rewrite (add1_found m es a i e)|]. unfold add1. rewrite E.
    apply list_find_Some in E as (Ei & Ep & _). intros p v. rewrite combined_snoc.
    assert (Huniq : forall j e', es !! j = Some e' -> en_ptr e' = en_ptr a -> j = i).
    { intros j e' Hj He'. eapply (NoDup_lookup _ j i (en_ptr a) IHn);
        rewrite list_lookup_fmap; [by rewrite Hj; simpl; f_equal|by rewrite Ei; simpl; f_equal]. }
    assert (Hval : combined m adds (en_ptr a) = Some (en_value e)).
    { apply IHc. exists e. split; [by eapply list_elem_of_lookup_2|done]. }
    setoid_rewrite list_elem_of_lookup. destruct (Z.eqb_spec (en_ptr a) p) as [<-|Hp].
    + rewrite Hval. split.
      * intros [= <-]. eexists. split; [exists i; apply list_lookup_insert_eq; by eapply lookup_lt_Some|].
        done.
      * intros (e' & [j Hj] & He' & <-). destruct (decide (j = i)) as [->|Hji].
        { rewrite list_lookup_insert_eq in Hj by by eapply lookup_lt_Some. by injection Hj as <-. }
        rewrite list_lookup_insert_ne in Hj by done. by apply Huniq in Hj.
    + rewrite IHc. setoid_rewrite list_elem_of_lookup. split; intros (e' & [j Hj] & He' & Hv).
      * exists e'. split; [|done]. exists j. rewrite list_lookup_insert_ne; [done|].
        intros ->. rewrite Ei in Hj. injection Hj as <-. congruence.
      * exists e'. split; [|done]. exists j. destruct (decide (j = i)) as [->|Hji].
        { rewrite list_lookup_insert_eq in Hj by by eapply lookup_lt_Some.
          injection Hj as <-. simpl in He'. congruence. }
        by rewrite list_lookup_insert_ne in Hj.
  - unfold add1. rewrite E. rewrite list_find_None, Forall_forall in E.
    assert (Hnone : combined m adds (en_ptr a) = None).
    { destruct (combined m adds (en_ptr a)) as [v|] eqn:Hc; [|done].
      apply IHc in Hc as (e & He & Hp & _). by destruct (E e He). }
    split.
    + rewrite fmap_app. apply NoDup_app. split_and!; [done| |apply NoDup_singleton].
      intros p (e & -> & He)%list_elem_of_fmap. simpl. intros Hp%list_elem_of_singleton.
      by destruct (E e He).
    + intros p v. rewrite combined_snoc. setoid_rewrite elem_of_app.
      setoid_rewrite list_elem_of_singleton. destruct (Z.eqb_spec (en_ptr a) p) as [<-|Hp].
      * rewrite Hnone. split.
        -- intros [= <-]. eexists. split; [by right|done].
        -- intros (e & [He| ->] & Hp & <-); [by destruct (E e He)|done].
      * rewrite IHc. split; [naive_solver|]. intros (e & [He| ->] & Hp' & Hv); [eauto|].
        simpl in Hp'. congruence.
Qed.

(** ** Processing an operation *)

Section Process.
Context (pop : PMEMobjpool) (redo : Z) (N : nat).

(** The entry of the redo log for a word. *)
Definition redo_entry (e : operation_entry) : Z * Z :=
  (OBJ_PTR_TO_OFF pop (en_ptr e), en_value e).

Lemma ptr_off p : 0 <= p < 2 ^ 64 -> off_to_ptr pop (OBJ_PTR_TO_OFF pop p) = p.
Proof.
  intros H. unfold off_to_ptr, OBJ_PTR_TO_OFF, u64. rewrite Zplus_mod_idemp_r.
  replace (addr pop + (p - addr pop)) with p by lia. by apply Z.mod_small.
Qed.

(** A word of the pool an operation may have an entry for. *)
Definition word_ok (e : operation_entry) : Prop :=
  0 <= en_ptr e < 2 ^ 64 /\ even (OBJ_PTR_TO_OFF pop (en_ptr e)) /\ ~ log_area redo N (en_ptr e) /\
  OBJ_PTR_IS_VALID pop (en_ptr e) = true.

Lemma word_ok_entry es : Forall word_ok es -> Forall (entry_ok pop redo N) (redo_entry <$> es).
Proof.
  rewrite Forall_fmap, !Forall_forall. intros H e He. destruct (H e He) as (H1 & H2 & H3 & H4).
  split_and!; simpl; [done|by rewrite ptr_off|done].
Qed.

Lemma store_entries_all i es :
  store_entries pop redo i es = store_all redo i (redo_entry <$> es).
Proof. revert i. induction es as [|e es IH]; intros i; [done|]. simpl. by rewrite IH. Qed.

(** The value of a word in a list with one entry per word. *)
Lemma new_value_elem es p v :
  Forall word_ok es -> NoDup (en_ptr <$> es) ->
  new_value pop (redo_entry <$> es) p = Some v <->
  exists e, e ∈ es /\ en_ptr e = p /\ en_value e = v.
Proof.
  induction es as [|e es IH] using rev_ind; intros Hok Hnd.
  { split; [done|]. by intros (e & ?%elem_of_nil & _). }
  apply Forall_app in Hok as [Hok [(He & _) _]%Forall_cons].
  rewrite fmap_app in Hnd. apply NoDup_app in Hnd as (Hnd & Hdis & _).
  rewrite fmap_app. simpl. rewrite new_value_snoc. simpl. rewrite ptr_off by done.
  setoid_rewrite elem_of_app. setoid_rewrite list_elem_of_singleton.
  destruct (Z.eqb_spec p (en_ptr e)) as [->|Hp].
  - split; [intros [= <-]; eauto|]. intros (e' & [He'| ->] & Hp & <-); [|done].
    exfalso. apply (Hdis (en_ptr e')); [by apply list_elem_of_fmap_2|]. simpl.
    rewrite Hp. by apply list_elem_of_singleton.
  - rewrite IH by done. split; [naive_solver|].
    intros (e' & [He'| ->] & Hp' & Hv); [eauto|congruence].
Qed.

(** *** The persistent entries *)

Definition persistent_ops (es : list operation_entry) : list pm_op :=
  match es with
  | [] => []
  | [e] => [Store (en_ptr e) (en_value e); Flush (en_ptr e) 8; Fence]
  | _ => update_ops pop redo (store_ops redo (redo_entry <$> es)) (redo_entry <$> es)
  end.

(** What the persistent part of an operation achieves. *)
Definition performs (ops : list pm_op) (m : pmem) (l : list (Z * Z)) : Prop :=
  crash_atomic pop redo N (fun _ => False) ops m l /\
  let m' := run ops m in
  (forall x, ~ log_area redo N x -> pm_read m' x = apply pop l (pm_read m) x) /\
  (forall x, target pop l x -> pm_durable m' x) /\ no_flags redo N m' /\
  (forall x, ~ log_area redo N x -> ~ target pop l x -> no_store x ops).

Lemma performs_none m : no_flags redo N m -> performs [] m [].
Proof.
  intros Hm. split; [|split_and!; [done|by intros x [? ?]|done|]].
  2: { intros x _ _ v Hv. by apply elem_of_nil in Hv. }
  intros k image. rewrite take_nil. intros Hc.
  destruct (explain_old pop redo N m image) as (start & Hs & Hr).
  - intros x _. apply Hc.
  - intros i Hi. apply (Hm i); [done|apply Hc].
  - exists start, start. split_and!; [done..|]. by left.
Qed.

(** A single word: one atomic store. *)
Lemma performs_one m e :
  no_flags redo N m -> word_ok e -> performs (persistent_ops [e]) m [redo_entry e].
Proof.
  intros Hm (Hr & _ & Hlog & _). set (ops := persistent_ops [e]).
  assert (Hns : forall x k, x <> en_ptr e -> no_store x (take k ops)).
  { intros x k Hx. apply no_store_take. intros v Hv. unfold ops in Hv. simpl in Hv.
    rewrite !elem_of_cons, elem_of_nil in Hv. naive_solver. }
  assert (Hoff : forall i, (i < N)%nat -> redo_offset redo (Z.of_nat i) <> en_ptr e).
  { intros i Hi E. apply Hlog. rewrite <- E. by apply off_word_area. }
  assert (Hap : forall f x, apply pop [redo_entry e] f x =
    if decide (x = en_ptr e) then en_value e else f x).
  { intros f x. unfold apply, new_value. simpl. rewrite ptr_off by done.
    case_decide as Ex; [by rewrite (proj2 (Z.eqb_eq _ _) Ex)|by rewrite (proj2 (Z.eqb_neq _ _) Ex)]. }
  split; [|split_and!].
  - intros k image Hc.
    assert (Hother : forall x, x <> en_ptr e -> image x ∈ cand m x).
    { intros x Hx. eapply no_store_cand; [by apply Hns|apply Hc]. }
    assert (Hcl : clean redo N image) by (intros i Hi; apply (Hm i); auto).
    destruct (run_cand _ _ _ _ (Hc (en_ptr e))) as [Hv|Hv].
    + destruct (explain_old pop redo N m image) as (start & Hs & Hrec); [|done|].
      { intros x _. destruct (decide (x = en_ptr e)) as [->|]; auto. }
      exists start, start. split_and!; [done..|]. by left.
    + assert (Ev : image (en_ptr e) = en_value e).
      { apply elem_of_take in Hv as (n & Hn & _).
        destruct n as [|[|[|n]]]; simpl in Hn; try rewrite lookup_nil in Hn; congruence. }
      destruct (explain_new pop redo N m [redo_entry e] image) as (start & Hs & Hrec).
      { intros x _ Hx. apply Hother. intros ->. apply Hx, target_spec. exists (redo_entry e).
        simpl. rewrite ptr_off by done. split; [left|done]. }
      { right. split; [done|]. intros x _. rewrite Hap. by case_decide as Ex; [rewrite Ex|]. }
      eexists start, _. split_and!; [done|exact Hrec|]. by right.
  - intros x Hx. rewrite Hap. simpl. rewrite pm_read_fence, pm_read_flush.
    case_decide as Ex; [subst; by rewrite pm_read_store_eq|by rewrite pm_read_store_ne].
  - intros x (e' & ->%list_elem_of_singleton & ->)%target_spec. simpl. rewrite ptr_off by done.
    apply (persist_durable (run1 m (Store (en_ptr e) (en_value e))) (en_ptr e) 8). lia.
  - intros i v Hi Hv. apply (Hm i v Hi). eapply no_store_cand; [|exact Hv].
    apply (Hns _ 3%nat). by apply Hoff.
  - intros x _ Hx. apply (Hns x 3%nat). intros ->. apply Hx, target_spec. exists (redo_entry e).
    simpl. rewrite ptr_off by done. split; [left|done].
Qed.

Lemma performs_persistent m es :
  no_flags redo N m -> Forall word_ok es -> (length es <= N)%nat ->
  performs (persistent_ops es) m (redo_entry <$> es).
Proof.
  intros Hm Hok HN. destruct es as [|e1 [|e2 es]]; [by apply performs_none| |].
  { apply performs_one; [done|]. by apply Forall_singleton. }
  set (es' := e1 :: e2 :: es) in *. pose proof (word_ok_entry es' Hok) as Hok'.
  assert (Hpre : prepares redo N (store_ops redo (redo_entry <$> es')) m (redo_entry <$> es')).
  { apply prepares_set_last; [by eapply entry_ok_even|rewrite length_fmap; exact HN]. }
  assert (Hne : redo_entry <$> es' <> []) by (unfold es'; simpl; discriminate).
  assert (HN' : (length (redo_entry <$> es') <= N)%nat) by (rewrite length_fmap; exact HN).
  split; [by apply update_crash_atomic|].
  destruct (update_done pop redo N _ m (redo_entry <$> es') Hpre Hm Hok' Hne HN') as (H1 & H2 & H3).
  split_and!; [done..|]. intros x Hx Ht. by apply (update_no_store pop redo N _ m).
Qed.

(** *** The transient entries *)

Definition transient_ops (ts : list operation_entry) : list pm_op :=
  (fun e => Store (en_ptr e) (en_value e)) <$> ts.

Lemma store_transient_runs ts m : store_transient ts m = Some (tt, transient_ops ts).
Proof.
  revert m. induction ts as [|e ts IH]; intros m; [done|]. simpl. unfold bind, store, emit. simpl.
  by rewrite IH.
Qed.

Definition transient (ts : list operation_entry) (x : Z) : Prop := x ∈ en_ptr <$> ts.
#[local] Instance transient_dec ts x : Decision (transient ts x).
Proof. unfold transient. apply _. Defined.

Lemma transient_no_store ts x : ~ transient ts x -> no_store x (transient_ops ts).
Proof.
  intros Hx v Hv. apply Hx.
  apply list_elem_of_fmap in Hv as (e & [= -> ->] & He). by apply list_elem_of_fmap_2.
Qed.

Lemma crash_atomic_transient ops m l ts :
  performs ops m l -> (forall x, transient ts x -> ~ log_area redo N x) ->
  crash_atomic pop redo N (transient ts) (ops ++ transient_ops ts) m l.
Proof.
  intros (Hca & _ & _ & Hnf & _) Hlog k image.
  destruct (take_app_cases k ops (transient_ops ts)) as [->|[j ->]]; intros Hc.
  { destruct (Hca k image Hc) as (start & f & Hs & Hf & Hor). exists start, f.
    split_and!; [done..|]. destruct Hor as [H|H]; [left|right]; intros x Hx _; apply H; tauto. }
  rewrite run_app in Hc. set (m' := run ops m) in *.
  assert (Hkeep : forall x, ~ transient ts x -> image x ∈ cand m' x).
  { intros x Hx. eapply no_store_cand; [by apply no_store_take, transient_no_store|apply Hc]. }
  set (image2 := fun x => if decide (transient ts x) then c_durable (m' x) else image x).
  assert (Hc2 : pm_crash m' image2).
  { intros x. unfold image2. case_decide; [left|by apply Hkeep]. }
  assert (Hoff : forall i, (i < N)%nat -> ~ transient ts (redo_offset redo (Z.of_nat i))).
  { intros i Hi Ht. by apply (Hlog _ Ht), off_word_area. }
  assert (Hcl : forall g, pm_crash m' g -> clean redo N g) by (intros g Hg i Hi; apply (Hnf i); auto).
  destruct (Hca (length ops) image2) as (start & f & Hs & Hf & Hor); [by rewrite firstn_all|].
  assert (Hf2 : same_data redo N image2 f).
  { destruct Hf as [(l' & Hl' & _)|[_ Hf]]; [exfalso|done].
    pose proof (nflags_flagged pop redo N (pm_boot image2) l' Hl') as E1.
    by rewrite (nflags_clean redo N (pm_boot image2) (Hcl _ Hc2)) in E1. }
  exists start, image. split_and!; [done| |].
  { right. split; [|done]. intros i Hi. apply (Hnf i); auto. }
  assert (Ei : forall x, ~ log_area redo N x -> ~ transient ts x -> image x = f x).
  { intros x Hx Ht. rewrite <- Hf2 by done. unfold image2. by rewrite decide_False. }
  destruct Hor as [H|H]; [left|right]; intros x Hx Ht; rewrite Ei by done; apply H; tauto.
Qed.

(** *** The whole operation *)

Lemma operation_process_runs ctx L m :
  holds ctx L -> ctx_pop ctx = pop -> ctx_redo ctx = redo -> (10 <= N)%nat ->
  no_flags redo N m -> Forall word_ok (L ENTRY_PERSISTENT) ->
  operation_process ctx m =
    Some (tt, persistent_ops (L ENTRY_PERSISTENT) ++ transient_ops (L ENTRY_TRANSIENT)).
Proof.
  intros H Ep Er HN Hm Hok. pose proof (holds_max _ _ H ENTRY_PERSISTENT) as Hmax.
  unfold operation_process. rewrite (holds_listed ctx L ENTRY_TRANSIENT H), (holds_n _ _ H).
  eapply bind_Some; [|apply store_transient_runs].
  pose proof (holds_get _ _ H ENTRY_PERSISTENT 0) as Hget.
  pose proof (holds_listed ctx L ENTRY_PERSISTENT H) as Hlist.
  pose proof (holds_n _ _ H ENTRY_PERSISTENT) as Hn.
  destruct (L ENTRY_PERSISTENT) as [|e1 [|e2 es]]; [done| |].
  { rewrite Hget by (simpl; lia). done. }
  set (es' := e1 :: e2 :: es) in *. change (length es' =? 1)%nat with false.
  change (length es' =? 0)%nat with false. cbn [negb].
  unfold operation_process_persistent_redo. rewrite Hlist, Ep, Er, Hn, store_entries_all.
  rewrite <- (length_fmap redo_entry es').
  apply (update_set_last_runs pop redo N (redo_entry <$> es') m); try done;
    [by apply word_ok_entry|rewrite length_fmap; lia|rewrite length_fmap].
  change REDO_NUM_ENTRIES with 63. lia.
Qed.

End Process.

(** ** Properties *)

(** The words of the pool and the transient words of a list of operations. *)
Definition persistent_adds (pop : PMEMobjpool) := of_kind pop ENTRY_PERSISTENT.
Definition transient_adds (pop : PMEMobjpool) := of_kind pop ENTRY_TRANSIENT.

(** The operations [adds] fit in a context: at most ten words of each kind, the
    log within the pool, no word of the log among them. *)
Record fits (pop : PMEMobjpool) (redo : Z) (N : nat) (adds : list operation_entry) (m : pmem) : Prop := {
  fits_n : (10 <= N)%nat;
  fits_flags : no_flags redo N m;
  fits_log x : log_area redo N x -> OBJ_PTR_IS_VALID pop x = true;
  fits_words : Forall (fun a => OBJ_PTR_IS_VALID pop (en_ptr a) = true -> word_ok pop redo N a) adds;
  fits_max t : (length (add_all m (of_kind pop t adds)) <= 10)%nat;
}.

Lemma add_all_ptr m adds e : e ∈ add_all m adds -> exists a, a ∈ adds /\ en_ptr a = en_ptr e.
Proof.
  intros He. destruct (add_all_spec m adds) as [_ H].
  assert (Hc : combined m adds (en_ptr e) = Some (en_value e)) by (apply H; eauto).
  clear -Hc. revert Hc. generalize (en_value e) as v. induction adds as [|a adds IH] using rev_ind; [done|].
  intros v. rewrite combined_snoc. setoid_rewrite elem_of_app. setoid_rewrite list_elem_of_singleton.
  destruct (Z.eqb_spec (en_ptr a) (en_ptr e)) as [E|E]; [by eauto|]. intros (a' & ? & ?)%IH. eauto.
Qed.

Lemma kind_valid pop t adds a :
  a ∈ of_kind pop t adds -> a ∈ adds /\ (OBJ_PTR_IS_VALID pop (en_ptr a) = true <-> t = ENTRY_PERSISTENT).
Proof.
  unfold of_kind. intros [Hk Ha]%list_elem_of_filter. split; [done|]. rewrite <- Hk. unfold kind.
  by destruct (OBJ_PTR_IS_VALID pop (en_ptr a)).
Qed.

Lemma fits_persistent pop redo N adds m :
  fits pop redo N adds m -> Forall (word_ok pop redo N) (add_all m (persistent_adds pop adds)).
Proof.
  intros H. apply Forall_forall. intros e (a & Ha & Ep)%add_all_ptr.
  apply kind_valid in Ha as [Ha Hv]. pose proof (fits_words _ _ _ _ _ H) as Hw.
  rewrite Forall_forall in Hw. destruct (Hw a Ha) as (H1 & H2 & H3 & H4); [by apply Hv|].
  unfold word_ok. by rewrite <- Ep.
Qed.

Lemma fits_transient pop redo N adds m x :
  fits pop redo N adds m -> transient (add_all m (transient_adds pop adds)) x ->
  OBJ_PTR_IS_VALID pop x = false /\ ~ log_area redo N x.
Proof.
  intros H (e & -> & (a & Ha & Ep)%add_all_ptr)%list_elem_of_fmap.
  apply kind_valid in Ha as [_ Hv]. rewrite Ep in Hv.
  destruct (OBJ_PTR_IS_VALID pop (en_ptr e)) eqn:E; [by pose proof (proj1 Hv eq_refl)|].
  split; [done|]. intros Hl%(fits_log _ _ _ _ _ H). congruence.
Qed.

(** What an operation does to the words of the pool. *)
Lemma apply_combined pop redo N adds m f x :
  fits pop redo N adds m ->
  apply pop (redo_entry pop <$> add_all m (persistent_adds pop adds)) f x =
  default (f x) (combined m (persistent_adds pop adds) x).
Proof.
  intros H. destruct (add_all_spec m (persistent_adds pop adds)) as [Hnd Hc].
  unfold apply. f_equal. apply option_eq. intros v. rewrite Hc.
  apply new_value_elem with redo N; [by apply fits_persistent|done].
Qed.

Lemma transient_read pop adds m m' x :
  pm_read (run (transient_ops (add_all m (transient_adds pop adds))) m') x =
  default (pm_read m' x) (combined m (transient_adds pop adds) x).
Proof.
  destruct (add_all_spec m (transient_adds pop adds)) as [Hnd Hc].
  assert (H : forall v, combined m (transient_adds pop adds) x = Some v <->
    exists e, e ∈ add_all m (transient_adds pop adds) /\ en_ptr e = x /\ en_value e = v) by auto.
  clear Hc. revert H. generalize (combined m (transient_adds pop adds) x) as c.
  induction (add_all m (transient_adds pop adds)) as [|e es IH] using rev_ind; intros c Hc.
  { destruct c as [v|]; [|done]. by destruct (proj1 (Hc v) eq_refl) as (e & ?%elem_of_nil & _). }
  unfold transient_ops. rewrite fmap_app, run_app. simpl. fold (transient_ops es).
  rewrite fmap_app in Hnd. apply NoDup_app in Hnd as (Hnd & Hdis & _).
  setoid_rewrite elem_of_app in Hc. setoid_rewrite list_elem_of_singleton in Hc.
  destruct (decide (en_ptr e = x)) as [<-|Hx].
  - rewrite pm_read_store_eq. by rewrite (proj2 (Hc (en_value e))) by eauto.
  - rewrite pm_read_store_ne by done. apply IH; [done|]. intros v. rewrite Hc. naive_solver.
Qed.

(** Words of the pool that an operation has an entry for are valid. *)
Lemma persistent_valid pop redo N adds m y w :
  fits pop redo N adds m -> combined m (persistent_adds pop adds) y = Some w ->
  OBJ_PTR_IS_VALID pop y = true /\ ~ log_area redo N y /\
  target pop (redo_entry pop <$> add_all m (persistent_adds pop adds)) y.
Proof.
  intros H Hy. destruct (add_all_spec m (persistent_adds pop adds)) as [Hnd Hc].
  pose proof Hy as Hy'. apply Hc in Hy as (e & He & <- & <-).
  pose proof (fits_persistent _ _ _ _ _ H) as Hw. rewrite Forall_forall in Hw.
  destruct (Hw e He) as (_ & _ & Hlog & Hvalid). split_and!; [done..|].
  exists (en_value e). apply new_value_elem with redo N; [by apply fits_persistent|done|by eauto].
Qed.

Lemma transient_not_target pop redo N adds m x :
  fits pop redo N adds m -> OBJ_PTR_IS_VALID pop x = false ->
  ~ target pop (redo_entry pop <$> add_all m (persistent_adds pop adds)) x.
Proof.
  intros H Hx [v Hv]. destruct (add_all_spec m (persistent_adds pop adds)) as [Hnd Hc].
  apply (new_value_elem pop redo N) in Hv; [|by apply fits_persistent|done].
  apply Hc, (persistent_valid pop redo N adds m) in Hv as [? _]; [congruence|done].
Qed.

(** The words of the pool stay as the persistent part leaves them while the transient
    ones are stored. *)
Lemma persistent_kept pop redo N adds m m' j y w :
  fits pop redo N adds m -> combined m (persistent_adds pop adds) y = Some w ->
  (forall x, ~ log_area redo N x ->
     pm_read m' x = apply pop (redo_entry pop <$> add_all m (persistent_adds pop adds)) (pm_read m) x) ->
  (forall x, target pop (redo_entry pop <$> add_all m (persistent_adds pop adds)) x ->
     pm_durable m' x) ->
  let m2 := run (take j (transient_ops (add_all m (transient_adds pop adds)))) m' in
  pm_durable m2 y /\ pm_read m2 y = w.
Proof.
  intros H Hy Hrd Hd. destruct (persistent_valid pop redo N adds m y w H Hy) as (Hv & Hlog & Ht).
  assert (no_store y (take j (transient_ops (add_all m (transient_adds pop adds))))) as Hns.
  { apply no_store_take, transient_no_store. intros [? _]%(fits_transient _ _ _ _ _ _ H). congruence. }
  split; [by apply no_store_durable; [|apply Hd]|].
  rewrite no_store_read, Hrd by done. rewrite (apply_combined pop redo N) by done. by rewrite Hy.
Qed.

(** A store to a transient word comes after the whole of the persistent part. *)
Lemma transient_last pop redo N m l ts ops k x v :
  performs pop redo N ops m l -> transient ts x -> ~ log_area redo N x -> ~ target pop l x ->
  Store x v ∈ take k (ops ++ transient_ops ts) ->
  exists j, take k (ops ++ transient_ops ts) = ops ++ take j (transient_ops ts).
Proof.
  intros (_ & _ & _ & _ & Hns) Hx Hlog Ht Hv.
  destruct (take_app_cases k ops (transient_ops ts)) as [E|[j E]]; rewrite E in *; [|by exists j].
  exfalso. by apply (no_store_take x ops k (Hns x Hlog Ht) v).
Qed.

(** C12: aggregated operations.  An operation built by adding any sequence of
    stores, ands and ors on at most ten words of the pool and ten transient words is
    accepted, and processing it returns.  It is atomic: after a crash at any point,
    and any crashes during recovery, the words of the pool have either all their
    combined new values or none of them, whether the operation took the single-store
    path or the redo log.  The transient words are stored last: by the time one of
    them is, every word of the pool has its new value and is durable.  In the end
    every word of the operation, persistent or transient, has the combination of the
    operations added for it (of the first one with the word in memory, later stores
    being ignored), no other word outside of the log has changed, the words of the
    pool are durable and the log is ready for the next operation. *)
Theorem operation_atomic pop redo N raw adds m :
  length raw = 20%nat -> fits pop redo N adds m ->
  exists ctx ops l, operation_add_entries (operation_init pop redo raw) adds m = Some ctx /\
    operation_process ctx m = Some (tt, ops) /\
    (forall f x, apply pop l f x = default (f x) (combined m (persistent_adds pop adds) x)) /\
    atomic_update pop redo N (transient (add_all m (transient_adds pop adds)))
      (operation_process ctx) m l /\
    (forall k x v, transient (add_all m (transient_adds pop adds)) x -> Store x v ∈ take k ops ->
       forall y w, combined m (persistent_adds pop adds) y = Some w ->
       pm_durable (run (take k ops) m) y /\ pm_read (run (take k ops) m) y = w) /\
    (forall x, ~ log_area redo N x ->
       pm_read (run ops m) x =
         default (default (pm_read m x) (combined m (persistent_adds pop adds) x))
           (combined m (transient_adds pop adds) x)) /\
    (forall x, is_Some (combined m (persistent_adds pop adds) x) -> pm_durable (run ops m) x) /\
    no_flags redo N (run ops m).
Proof.
  intros Hraw H. destruct (add_entries_holds (operation_init pop redo raw) (fun _ => []) adds m)
    as (ctx & E & Ep & Er & Hh); [by apply init_holds|apply (fits_max _ _ _ _ _ H)|].
  assert (performs pop redo N (persistent_ops pop redo (add_all m (persistent_adds pop adds))) m
    (redo_entry pop <$> add_all m (persistent_adds pop adds))) as Hp.
  { apply performs_persistent; [apply H|by apply fits_persistent|].
    pose proof (fits_max _ _ _ _ _ H ENTRY_PERSISTENT). pose proof (fits_n _ _ _ _ _ H).
    unfold add_all, persistent_adds in *. lia. }
  assert (operation_process ctx m = Some (tt,
    persistent_ops pop redo (add_all m (persistent_adds pop adds)) ++
    transient_ops (add_all m (transient_adds pop adds)))) as Hrun.
  { eapply (operation_process_runs pop redo N ctx _ m Hh); [done|done|apply H|apply H|].
    by apply fits_persistent. }
  eexists ctx, _, _. split; [done|]. split; [exact Hrun|].
  split; [intros; by apply (apply_combined pop redo N)|]. split.
  { eapply crash_atomic_update; [exact Hrun|]. apply crash_atomic_transient; [done|].
    intros x Hx. by apply (fits_transient pop redo N adds m x). }
  destruct Hp as (Hca & Hrd & Hd & Hnf & Hns).
  assert (forall j y w, combined m (persistent_adds pop adds) y = Some w ->
    let m' := run (take j (transient_ops (add_all m (transient_adds pop adds))))
      (run (persistent_ops pop redo (add_all m (persistent_adds pop adds))) m) in
    pm_durable m' y /\ pm_read m' y = w) as Hpers.
  { intros j y w Hy. by apply (persistent_kept pop redo N). }
  split_and!.
  - intros k x v Hx Hv y w Hy.
    destruct (fits_transient pop redo N adds m x H Hx) as [Hxv Hxl].
    destruct (transient_last pop redo N m _ _ _ k x v (conj Hca (conj Hrd (conj Hd (conj Hnf Hns)))) Hx Hxl)
      as [j ->]; [|done|rewrite run_app; by apply Hpers].
    by apply (transient_not_target pop redo N adds m).
  - intros x Hx. rewrite run_app, (transient_read pop adds m), Hrd by done. f_equal.
    by apply (apply_combined pop redo N).
  - intros y [w Hy]. pose proof (proj1 (Hpers (length (transient_ops (add_all m (transient_adds pop adds)))) y w Hy)) as Hy'.
    rewrite firstn_all in Hy'. by rewrite run_app.
  - rewrite run_app. intros i v Hi Hv. apply (Hnf i v Hi). eapply no_store_cand; [|exact Hv].
    apply transient_no_store. intros [_ Ht]%(fits_transient _ _ _ _ _ _ H).
    by apply Ht, off_word_area.
Qed.

(** Two operations on a word of the heap, one on the next word and one on a
    transient word. *)
Definition sample_adds : list operation_entry :=
  [mkEntry (2 ^ 32 + 16384) 5 OPERATION_SET; mkEntry (2 ^ 32 + 16392) 9 OPERATION_OR;
   mkEntry 64 1 OPERATION_SET; mkEntry (2 ^ 32 + 16384) 8 OPERATION_OR].
Definition sample_raw : list operation_entry := replicate 20 (mkEntry 0 0 OPERATION_SET).

Lemma sample_fits : fits sample_pool sample_redo 63 sample_adds fresh.
Proof.
  split.
  - lia.
  - intros i v _ ->%list_elem_of_singleton. reflexivity.
  - intros x Hx. unfold log_area, sample_redo, sizeof_redo_log in Hx.
    unfold OBJ_PTR_IS_VALID, OBJ_OFF_IS_VALID, OBJ_PTR_TO_OFF. simpl addr.
    rewrite u64_small by lia. unfold OBJ_OFF_FROM_LANES. simpl lanes_offset. simpl nlanes.
    simpl sizeof_lane_layout. rewrite u64_small by lia. lia.
  - repeat apply Forall_cons_2; [..|apply Forall_nil_2]; simpl; intros Hv;
      try (vm_compute in Hv; discriminate Hv);
      (split; [simpl; lia|split; [reflexivity|split; [vm_compute; intuition congruence|reflexivity]]]).
  - intros []; vm_compute; lia.
Qed.

Lemma operation_atomic_witness :
  exists ctx ops, operation_add_entries (operation_init sample_pool sample_redo sample_raw)
      sample_adds fresh = Some ctx /\ operation_process ctx fresh = Some (tt, ops) /\
    pm_read (run ops fresh) (2 ^ 32 + 16384) = 13 /\ pm_read (run ops fresh) 64 = 1.
Proof.
  destruct (operation_atomic sample_pool sample_redo 63 sample_raw sample_adds fresh)
    as (ctx & ops & l & E & E' & _ & _ & _ & Hr & _).
  - reflexivity.
  - apply sample_fits.
  - exists ctx, ops. split; [exact E|]. split; [exact E'|].
    split; (rewrite Hr; [vm_compute; reflexivity|]; vm_compute; intuition congruence).
Defined.

(** The assertion accepts a full table: an eleventh word of the pool is written
    over the first transient entry, which then has the address and the value of
    the other word. *)
Lemma eleventh_entry_overflows :
  let word i := mkEntry (2 ^ 32 + 16384 + 8 * Z.of_nat i) 1 OPERATION_SET in
  let ctx0 := operation_init sample_pool sample_redo sample_raw in
  (ctx ← operation_add_entries ctx0 (mkEntry 64 1 OPERATION_SET :: (word <$> seq 0 10)) fresh;
   ctx' ← operation_add_entry ctx (en_ptr (word 10%nat)) 1 OPERATION_SET fresh;
   Some (listed ctx ENTRY_TRANSIENT, listed ctx' ENTRY_TRANSIENT)) =
  Some ([mkEntry 64 1 OPERATION_SET], [word 10%nat]).
Proof. vm_compute. reflexivity. Qed.
