(* ===== verification/Ctree.v ===== *)
(** * Crit-bit trees: [nvml/src/libpmemobj/ctree.c]

    The trees in which the allocator of libpmemobj keeps its free blocks.  An
    internal node tests the most significant bit in which the keys below it
    differ; leaves hold a key and a value.  The tag bit of the pointers is the
    constructor of the tree; a reference [void **] into the tree is the path from
    the root to the slot it points to.  Whether an allocation succeeds is an
    argument.

    The theorems: the trees built are ordered by key and well-formed; insertion
    adds exactly the new pair or reports why not; searching finds a key, or the
    greatest one not above a bound; removal takes out a key, or the least one not
    below a bound. *)

From Stdlib Require Import Sorted.
From S2P Require Import Prelude.

Inductive tree :=
| Leaf (key value : Z)
| Node (diff : Z) (slot0 slot1 : tree).

(** [t->root]: [None] is a null pointer. *)
Definition ctree : Type := option tree.

Definition EEXIST : Z := 17.

Definition BIT_IS_SET (n i : Z) : bool := Z.testbit n i.

(** [64 - clzll(val) - 1]; the assertion that [val] is not zero is a
    precondition of its uses. *)
Definition find_crit_bit (lhs rhs : Z) : Z := Z.log2 (Z.lxor lhs rhs).

Definition ctree_new (malloc : bool) : option ctree := if malloc then Some None else None.

(** The nodes and leaves released. *)
Fixpoint ctree_free_internal_recursive (dst : tree) : nat :=
  match dst with
  | Node _ s0 s1 => ctree_free_internal_recursive s0 + ctree_free_internal_recursive s1 + 1
  | Leaf _ _ => 1
  end.
Definition ctree_delete (t : ctree) : nat :=
  match t with Some r => ctree_free_internal_recursive r | None => 0 end.

(** ** Insertion *)

(** The best matching leaf. *)
Fixpoint descend (t : tree) (key : Z) : Z * Z :=
  match t with
  | Leaf k v => (k, v)
  | Node d s0 s1 => if BIT_IS_SET key d then descend s1 key else descend s0 key
  end.

(** The new internal node over [dst] and the new leaf. *)
Definition new_node (diff key : Z) (nleaf dst : tree) : tree :=
  if BIT_IS_SET key diff then Node diff dst nleaf else Node diff nleaf dst.

(** The second loop and the insertion at the slot it stops at. *)
Fixpoint insert_node (t : tree) (diff key : Z) (nleaf : tree) : tree :=
  match t with
  | Leaf _ _ => new_node diff key nleaf t
  | Node d s0 s1 =>
      if d <? diff then new_node diff key nleaf t
      else if BIT_IS_SET key d then Node d s0 (insert_node s1 diff key nleaf)
      else Node d (insert_node s0 diff key nleaf) s1
  end.

Definition ctree_insert_unlocked (malloc_leaf malloc_node : bool) (t : ctree) (key value : Z) :
    ctree * Z :=
  if malloc_leaf then
    let nleaf := Leaf key value in
    match t with
    | None => (Some nleaf, 0)
    | Some r =>
        if malloc_node then
          let dstkey := (descend r key).1 in
          if dstkey =? key then (t, EEXIST)
          else (Some (insert_node r (find_crit_bit dstkey key) key nleaf), 0)
        else (t, ENOMEM)
    end
  else (t, ENOMEM).

(** ** Search *)

Definition ctree_find_unlocked (t : ctree) (key : Z) : Z :=
  match t with
  | Some r => if (descend r key).1 =? key then key else 0
  | None => 0
  end.

Fixpoint find_le_walk (t : tree) (key diff : Z) (top : option tree) : tree * option tree :=
  match t with
  | Leaf _ _ => (t, top)
  | Node d s0 s1 =>
      if d <? diff then (t, top)
      else if BIT_IS_SET key d then find_le_walk s1 key diff (Some s0)
      else find_le_walk s0 key diff top
  end.

Fixpoint rightmost (t : tree) : Z * Z :=
  match t with Leaf k v => (k, v) | Node _ _ s1 => rightmost s1 end.

(** The key written back and the value returned. *)
Definition ctree_find_le_unlocked (t : ctree) (key : Z) : Z * Z :=
  match t with
  | None => (0, 0)
  | Some r =>
      let '(k, v) := descend r key in
      if k =? key then (k, v) else
      let diff := find_crit_bit k key in
      let '(dst, top) := find_le_walk r key diff None in
      match (if BIT_IS_SET key diff then Some dst else top) with
      | None => (0, 0)
      | Some dst =>
          let '(k, v) := rightmost dst in
          if key <? k then (0, 0) else (k, v)
      end
  end.

(** ** Removal *)

(** A slot of the tree, as the directions from the root. *)
Definition path : Type := list bool.

Fixpoint deref (t : tree) (p : path) : tree :=
  match p, t with
  | b :: p', Node _ s0 s1 => deref (if b : bool then s1 else s0) p'
  | _, _ => t
  end.

Fixpoint find_path (t : tree) (key : Z) : path :=
  match t with
  | Leaf _ _ => []
  | Node d s0 s1 =>
      if BIT_IS_SET key d then true :: find_path s1 key else false :: find_path s0 key
  end.

Fixpoint leftmost_path (t : tree) : path :=
  match t with Leaf _ _ => [] | Node _ s0 _ => false :: leftmost_path s0 end.

(** The second loop: the slot it stops at and the [top] slot, both under the
    slot [at_] of the tree. *)
Fixpoint remove_walk (t : tree) (key diff : Z) (at_ : path) (top : option path) :
    path * option path :=
  match t with
  | Leaf _ _ => (at_, top)
  | Node d s0 s1 =>
      if d <? diff then (at_, top)
      else if BIT_IS_SET key d then remove_walk s1 key diff (at_ ++ [true]) top
      else remove_walk s0 key diff (at_ ++ [false]) (Some (at_ ++ [true]))
  end.

(** [*p = a->slots[a->slots[0] == *dst]], with [dst] the slot [b] of the node at
    [p]. *)
Fixpoint replace_parent (t : tree) (p : path) (b : bool) : tree :=
  match t with
  | Leaf _ _ => t
  | Node d s0 s1 =>
      match p with
      | [] => if b then s0 else s1
      | c :: p' =>
          if c : bool then Node d s0 (replace_parent s1 p' b)
          else Node d (replace_parent s0 p' b) s1
      end
  end.

(** The end of the function: the leaf at the slot [dst] is removed. *)
Definition unlink (t : tree) (dst : path) : ctree :=
  match last dst with
  | None => None
  | Some b => Some (replace_parent t (take (pred (length dst)) dst) b)
  end.

Definition leaf_key (t : tree) : Z := match t with Leaf k _ => k | Node _ _ _ => 0 end.

(** The key removed and the tree; [None] if the assertion fails. *)
Definition ctree_remove_unlocked (t : ctree) (key : Z) (eq : bool) : option (Z * ctree) :=
  match t with
  | None => Some (0, t)
  | Some r =>
      let dst := find_path r key in
      let k := leaf_key (deref r dst) in
      if k =? key then Some (k, unlink r dst)
      else if eq then Some (0, t)
      else
        let diff := find_crit_bit k key in
        let '(dst, top) := remove_walk r key diff [] None in
        match (if BIT_IS_SET key diff then top else Some dst) with
        | None => Some (0, t)
        | Some dst =>
            let dst := dst ++ leftmost_path (deref r dst) in
            let k := leaf_key (deref r dst) in
            if key <? k then Some (k, unlink r dst) else None
        end
  end.

Definition ctree_is_empty_unlocked (t : ctree) : bool :=
  match t with None => true | Some _ => false end.

(** ** Bits and order *)

Lemma bit_lt a b c :
  0 <= c -> (forall i, c < i -> Z.testbit a i = Z.testbit b i) ->
  Z.testbit a c = false -> Z.testbit b c = true -> a < b.
Proof.
  intros Hc Hab Ha Hb.
  assert (Hq : forall x, x / 2 ^ c = 2 * (x / 2 ^ (c + 1)) + Z.b2z (Z.testbit x c)).
  { intros x. rewrite Z.testbit_spec', Z.pow_add_r, <- Z.div_div by lia.
    change (2 ^ 1) with 2. apply Z.div_mod. lia. }
  assert (Hhi : a / 2 ^ (c + 1) = b / 2 ^ (c + 1)).
  { rewrite <- !Z.shiftr_div_pow2 by lia. apply Z.bits_inj'. intros i Hi.
    rewrite !Z.shiftr_spec by done. apply Hab. lia. }
  pose proof (Hq a) as Ea. pose proof (Hq b) as Eb. rewrite Ha in Ea. rewrite Hb in Eb.
  destruct (Z.lt_ge_cases a b) as [|Hge]; [done|].
  pose proof (Z.div_le_mono b a (2 ^ c)). simpl in *. lia.
Qed.

(** The critical bit of two keys. *)
Lemma crit_bit_spec a b :
  0 <= a -> 0 <= b -> a <> b ->
  let c := find_crit_bit a b in
  0 <= c /\ Z.testbit a c = negb (Z.testbit b c) /\
  forall i, c < i -> Z.testbit a i = Z.testbit b i.
Proof.
  intros Ha Hb Hab c. unfold c, find_crit_bit.
  assert (Hpos : 0 < Z.lxor a b).
  { assert (0 <= Z.lxor a b) by (apply Z.lxor_nonneg; tauto).
    assert (Z.lxor a b <> 0) by (intros E; by apply Z.lxor_eq in E). lia. }
  split_and!; [apply Z.log2_nonneg| |].
  - pose proof (Z.bit_log2 _ Hpos) as H. rewrite Z.lxor_spec in H.
    by destruct (Z.testbit a _), (Z.testbit b _).
  - intros i Hi. pose proof (Z.bits_above_log2 (Z.lxor a b) i) as H.
    rewrite Z.lxor_spec in H. specialize (H ltac:(lia) Hi).
    by destruct (Z.testbit a i), (Z.testbit b i).
Qed.

Lemma crit_bit_lt64 a b :
  0 <= a < 2 ^ 64 -> 0 <= b < 2 ^ 64 -> a <> b -> 0 <= find_crit_bit a b < 64.
Proof.
  intros Ha Hb Hab. destruct (crit_bit_spec a b) as (Hc & Hx & _); [lia..|].
  split; [done|]. destruct (Z.lt_ge_cases (find_crit_bit a b) 64) as [|Hge]; [done|exfalso].
  assert (H : forall x, 0 <= x < 2 ^ 64 -> Z.testbit x (find_crit_bit a b) = false).
  { intros x Hx'. destruct (decide (x = 0)) as [->|]; [apply Z.bits_0|].
    apply Z.bits_above_log2; [lia|]. assert (Z.log2 x < 64) by (apply Z.log2_lt_pow2; lia). lia. }
  by rewrite !H in Hx.
Qed.

(** ** Well-formed trees *)

Fixpoint elements (t : tree) : list (Z * Z) :=
  match t with
  | Leaf k v => [(k, v)]
  | Node _ s0 s1 => elements s0 ++ elements s1
  end.
Definition has_key (t : tree) (k : Z) : Prop := exists v, (k, v) ∈ elements t.

(** The keys below a node agree above its bit, and its bit tells them apart. *)
Fixpoint wf (t : tree) : Prop :=
  match t with
  | Leaf k _ => 0 <= k < 2 ^ 64
  | Node d s0 s1 =>
      0 <= d < 64 /\ wf s0 /\ wf s1 /\
      (forall k, has_key s0 k -> Z.testbit k d = false) /\
      (forall k, has_key s1 k -> Z.testbit k d = true) /\
      (forall k k' i, has_key t k -> has_key t k' -> d < i -> Z.testbit k i = Z.testbit k' i)
  end.

Lemma has_key_node d s0 s1 k : has_key (Node d s0 s1) k <-> has_key s0 k \/ has_key s1 k.
Proof. unfold has_key. simpl. setoid_rewrite elem_of_app. naive_solver. Qed.

Lemma has_key_leaf k v k' : has_key (Leaf k v) k' <-> k' = k.
Proof.
  unfold has_key. simpl. setoid_rewrite list_elem_of_singleton. split; [by intros [? [=]]|].
  intros ->. eauto.
Qed.

Lemma wf_range t k : wf t -> has_key t k -> 0 <= k < 2 ^ 64.
Proof.
  induction t as [k' v'|d s0 IH0 s1 IH1]; simpl.
  - intros H ->%has_key_leaf. done.
  - intros (_ & H0 & H1 & _) [H|H]%has_key_node; auto.
Qed.

Lemma descend_elem t key : descend t key ∈ elements t.
Proof.
  induction t as [k v|d s0 IH0 s1 IH1]; simpl; [by left|].
  destruct (BIT_IS_SET key d); apply elem_of_app; auto.
Qed.

Lemma descend_key t key : has_key t ((descend t key).1).
Proof. pose proof (descend_elem t key) as H. destruct (descend t key) as [k v]. by exists v. Qed.

(** Looking for a key that is there ends at it. *)
Lemma descend_found t key v : wf t -> (key, v) ∈ elements t -> descend t key = (key, v).
Proof.
  induction t as [k' v'|d s0 IH0 s1 IH1]; simpl.
  - intros _ H%list_elem_of_singleton. by injection H as -> ->.
  - intros (_ & H0 & H1 & Hb0 & Hb1 & _) [H|H]%elem_of_app; unfold BIT_IS_SET.
    + rewrite Hb0 by (by exists v). by apply IH0.
    + rewrite Hb1 by (by exists v). by apply IH1.
Qed.

Lemma descend_has_key t key : wf t -> has_key t key <-> (descend t key).1 = key.
Proof.
  intros Hwf. split; [intros [v Hv]; by rewrite (descend_found t key v)|].
  intros <-. apply descend_key.
Qed.

(** The elements are in strictly ascending order. *)
Lemma elements_sorted t : wf t -> StronglySorted (fun x y => x.1 < y.1) (elements t).
Proof.
  induction t as [k v|d s0 IH0 s1 IH1]; simpl; [by repeat constructor|].
  intros (Hd & H0 & H1 & Hb0 & Hb1 & Hag).
  assert (Hlt : forall x y, x ∈ elements s0 -> y ∈ elements s1 -> x.1 < y.1).
  { intros [k v] [k' v'] Hx Hy. simpl. apply bit_lt with d; [lia| | |].
    - intros i Hi. apply Hag; [apply has_key_node; left; by exists v|apply has_key_node; right; by exists v'|done].
    - apply Hb0. by exists v.
    - apply Hb1. by exists v'. }
  specialize (IH0 H0). specialize (IH1 H1). clear -IH0 IH1 Hlt.
  induction IH0 as [|x l Hs IH Hx]; [done|]. simpl. constructor.
  - apply IH. intros y z Hy Hz. apply Hlt; [by right|done].
  - apply Forall_app. split; [done|]. apply Forall_forall. intros y Hy. apply Hlt; [left|done].
Qed.

(** ** A key against a tree that does not hold it *)

Section Search.
Context (key : Z) (Hkey : 0 <= key < 2 ^ 64).

(** The key first differs from the keys the search ends at in the bit [c]. *)
Definition crit (t : tree) (c : Z) : Prop :=
  0 <= c /\ Z.testbit ((descend t key).1) c = negb (Z.testbit key c) /\
  forall i, c < i -> Z.testbit ((descend t key).1) i = Z.testbit key i.

Lemma crit_intro t : wf t -> (descend t key).1 <> key -> crit t (find_crit_bit ((descend t key).1) key).
Proof.
  intros Hwf Hne. pose proof (wf_range t _ Hwf (descend_key t key)).
  destruct (crit_bit_spec ((descend t key).1) key) as (H1 & H2 & H3); [lia..|done|]. done.
Qed.

Lemma crit_node d s0 s1 c :
  crit (Node d s0 s1) c -> crit (if BIT_IS_SET key d then s1 else s0) c.
Proof. unfold crit. simpl. by destruct (BIT_IS_SET key d). Qed.

(** No node on the way tests the critical bit itself. *)
Lemma crit_ne d s0 s1 c : wf (Node d s0 s1) -> crit (Node d s0 s1) c -> d <> c.
Proof.
  intros (_ & _ & _ & Hb0 & Hb1 & _) (_ & Hc & _) ->. simpl in Hc. unfold BIT_IS_SET in Hc.
  destruct (Z.testbit key c) eqn:E.
  - rewrite Hb1 in Hc; [done|apply descend_key].
  - rewrite Hb0 in Hc; [done|apply descend_key].
Qed.

(** Above the bit of a node that is passed, the key agrees with all its keys. *)
Lemma crit_agree d s0 s1 c k i :
  wf (Node d s0 s1) -> crit (Node d s0 s1) c -> c < d -> has_key (Node d s0 s1) k -> d < i ->
  Z.testbit k i = Z.testbit key i.
Proof.
  intros (_ & _ & _ & _ & _ & Hag) (_ & _ & Hc) Hcd Hk Hi. rewrite <- Hc by lia.
  apply Hag; [done|apply descend_key|done].
Qed.

(** Where the walk stops, the critical bit tells the key from all keys. *)
Lemma crit_stop t c k :
  wf t -> crit t c -> (forall d s0 s1, t = Node d s0 s1 -> d < c) -> has_key t k ->
  Z.testbit k c = negb (Z.testbit key c) /\ forall i, c < i -> Z.testbit k i = Z.testbit key i.
Proof.
  intros Hwf (Hc0 & Hc & Hab) Hd Hk.
  assert (Hag : forall i, c <= i -> Z.testbit k i = Z.testbit ((descend t key).1) i).
  { intros i Hi. destruct t as [k' v'|d s0 s1]; [by apply has_key_leaf in Hk as ->|].
    pose proof (Hd d s0 s1 eq_refl). apply Hwf; [done|apply descend_key|lia]. }
  split; [rewrite Hag by lia; done|]. intros i Hi. rewrite Hag by lia. by apply Hab.
Qed.

Lemma crit_stop_order t c k :
  wf t -> crit t c -> (forall d s0 s1, t = Node d s0 s1 -> d < c) -> has_key t k ->
  if Z.testbit key c then k < key else key < k.
Proof.
  intros Hwf Hc Hd Hk. destruct (crit_stop t c k Hwf Hc Hd Hk) as [Hb Hab]. destruct Hc as [Hc0 _].
  destruct (Z.testbit key c) eqn:E; simpl in Hb.
  - by apply bit_lt with c.
  - apply bit_lt with c; try done. intros i Hi. by rewrite Hab.
Qed.

(** The subtree a walk does not enter lies on one side of the key. *)
Lemma crit_side d s0 s1 c k :
  wf (Node d s0 s1) -> crit (Node d s0 s1) c -> c < d ->
  has_key (if BIT_IS_SET key d then s0 else s1) k ->
  if BIT_IS_SET key d then k < key else key < k.
Proof.
  intros Hwf Hc Hcd Hk. pose proof Hwf as (Hd & _ & _ & Hb0 & Hb1 & _). unfold BIT_IS_SET in *.
  assert (Hag : forall i, d < i -> Z.testbit k i = Z.testbit key i).
  { intros i Hi. eapply crit_agree; try done. apply has_key_node.
    destruct (Z.testbit key d); auto. }
  destruct (Z.testbit key d) eqn:E; (apply bit_lt with d; try done; try lia); auto.
  intros i Hi. by rewrite Hag.
Qed.

(** *** Insertion *)

Lemma new_node_spec t c v :
  wf t -> crit t c -> c < 64 -> (forall d s0 s1, t = Node d s0 s1 -> d < c) ->
  wf (new_node c key (Leaf key v) t) /\
  forall x, x ∈ elements (new_node c key (Leaf key v) t) <-> x = (key, v) \/ x ∈ elements t.
Proof.
  intros Hwf Hc Hc64 Hd. unfold new_node, BIT_IS_SET. pose proof Hc as [Hc0 _].
  assert (Hstop : forall k, has_key t k -> Z.testbit k c = negb (Z.testbit key c) /\
    forall i, c < i -> Z.testbit k i = Z.testbit key i) by (intros; by apply crit_stop with t).
  assert (Hall : forall k, has_key t k \/ k = key -> forall i, c < i -> Z.testbit k i = Z.testbit key i).
  { intros k [Hk| ->]; [by apply Hstop|done]. }
  destruct (Z.testbit key c) eqn:E; (split; [|intros x; simpl; rewrite ?elem_of_app, ?elem_of_cons,
    ?elem_of_nil; tauto]); simpl; split_and!; try done; try lia.
  all: try (intros k ->%has_key_leaf; done).
  all: try (intros k Hk; by destruct (Hstop k Hk) as [-> _]).
  all: intros k k' i Hk Hk' Hi; rewrite !has_key_node, !has_key_leaf in Hk, Hk'.
  all: rewrite (Hall k), (Hall k') by (tauto || done); done.
Qed.

Lemma insert_node_spec t c v :
  wf t -> crit t c -> c < 64 ->
  wf (insert_node t c key (Leaf key v)) /\
  forall x, x ∈ elements (insert_node t c key (Leaf key v)) <-> x = (key, v) \/ x ∈ elements t.
Proof.
  induction t as [k' v'|d s0 IH0 s1 IH1]; intros Hwf Hc Hc64; simpl.
  { by apply new_node_spec. }
  destruct (Z.ltb_spec d c) as [Hlt|Hge].
  { apply new_node_spec; try done. by intros ? ? ? [= <- _ _]. }
  assert (Hcd : c < d) by (pose proof (crit_ne _ _ _ _ Hwf Hc); lia).
  pose proof Hwf as (Hd & H0 & H1 & Hb0 & Hb1 & Hag). pose proof (crit_node _ _ _ _ Hc) as Hc'.
  assert (Hkey' : forall k i, has_key (Node d s0 s1) k \/ k = key -> d < i ->
    Z.testbit k i = Z.testbit key i).
  { intros k i [Hk| ->] Hi; [by apply (crit_agree d s0 s1 c)|done]. }
  assert (Hins : forall s k, (forall x, x ∈ elements (insert_node s c key (Leaf key v)) <->
      x = (key, v) \/ x ∈ elements s) ->
    has_key (insert_node s c key (Leaf key v)) k -> has_key s k \/ k = key).
  { intros s k Hel [w Hw]. apply Hel in Hw as [[= -> _]|Hw]; [by right|left; by exists w]. }
  unfold BIT_IS_SET in *. destruct (Z.testbit key d) eqn:E.
  - destruct (IH1 H1 Hc' Hc64) as [Hwf1 Hel1]. split; [|intros x; simpl; rewrite !elem_of_app, Hel1; tauto].
    cbn [wf]. split_and!; try done; try lia.
    + intros k [Hk| ->]%(Hins s1 k Hel1); auto.
    + intros k k' i Hk Hk' Hi. rewrite has_key_node in Hk, Hk'.
      rewrite (Hkey' k), (Hkey' k'); try done; rewrite has_key_node.
      * destruct Hk' as [|H%(Hins s1 k' Hel1)]; tauto.
      * destruct Hk as [|H%(Hins s1 k Hel1)]; tauto.
  - destruct (IH0 H0 Hc' Hc64) as [Hwf0 Hel0]. split; [|intros x; simpl; rewrite !elem_of_app, Hel0; tauto].
    cbn [wf]. split_and!; try done; try lia.
    + intros k [Hk| ->]%(Hins s0 k Hel0); auto.
    + intros k k' i Hk Hk' Hi. rewrite has_key_node in Hk, Hk'.
      rewrite (Hkey' k), (Hkey' k'); try done; rewrite has_key_node.
      * destruct Hk' as [H%(Hins s0 k' Hel0)|]; tauto.
      * destruct Hk as [H%(Hins s0 k Hel0)|]; tauto.
Qed.

(** *** Walks *)

(** The tree, split at the subtree [s] a walk stops at: all keys on its left
    are below the key, all on its right above, its own on one side. *)
Record split_at (t s : tree) (c : Z) (L R : list (Z * Z)) : Prop := {
  split_elements : elements t = L ++ elements s ++ R;
  split_left x : x ∈ L -> x.1 < key;
  split_right x : x ∈ R -> key < x.1;
  split_mid x : x ∈ elements s -> if Z.testbit key c then x.1 < key else key < x.1;
}.

Lemma split_stop t c :
  wf t -> crit t c -> (forall d s0 s1, t = Node d s0 s1 -> d < c) -> split_at t t c [] [].
Proof.
  intros Hwf Hc Hd. split; [by rewrite app_nil_r|by intros x ?%elem_of_nil..|].
  intros [k v] Hx. apply (crit_stop_order t c k Hwf Hc Hd). by exists v.
Qed.

Lemma split_down d s0 s1 s c L R :
  wf (Node d s0 s1) -> crit (Node d s0 s1) c -> c < d ->
  split_at (if BIT_IS_SET key d then s1 else s0) s c L R ->
  split_at (Node d s0 s1) s c (if BIT_IS_SET key d then elements s0 ++ L else L)
    (if BIT_IS_SET key d then R else R ++ elements s1).
Proof.
  intros Hwf Hc Hcd [He Hl Hr Hm].
  assert (Hside : forall x, x ∈ elements (if BIT_IS_SET key d then s0 else s1) ->
    if BIT_IS_SET key d then x.1 < key else key < x.1).
  { intros [k v] Hx. apply (crit_side d s0 s1 c k Hwf Hc Hcd). by exists v. }
  destruct (BIT_IS_SET key d); split; simpl; try done.
  - by rewrite He, <- app_assoc.
  - intros x [H|H]%elem_of_app; auto.
  - by rewrite He, <- !app_assoc.
  - intros x [H|H]%elem_of_app; auto.
Qed.

Lemma find_le_walk_spec t c top :
  wf t -> crit t c ->
  exists s top' L R, find_le_walk t key c top = (s, top') /\ split_at t s c L R /\
    (L = [] /\ top' = top \/ exists u L', top' = Some u /\ L = L' ++ elements u).
Proof.
  revert top. induction t as [k v|d s0 IH0 s1 IH1]; intros top Hwf Hc; simpl.
  { eexists _, _, [], []. split; [done|]. split; [by apply split_stop|]. by left. }
  destruct (Z.ltb_spec d c) as [Hlt|Hge].
  { eexists _, _, [], []. split; [done|]. split; [|by left].
    apply split_stop; try done. by intros ? ? ? [= <- _ _]. }
  assert (Hcd : c < d) by (pose proof (crit_ne _ _ _ _ Hwf Hc); lia).
  pose proof Hwf as (_ & H0 & H1 & _). pose proof (crit_node _ _ _ _ Hc) as Hc'.
  pose proof (fun s L R => split_down d s0 s1 s c L R Hwf Hc Hcd) as Hdown.
  destruct (BIT_IS_SET key d).
  - destruct (IH1 (Some s0) H1 Hc') as (s & top' & L & R & E & Hs & Hor).
    eexists s, top', _, _. split; [done|]. split; [by apply Hdown|]. right.
    destruct Hor as [[-> ->]|(u & L' & -> & ->)]; [by exists s0, []; rewrite app_nil_r|].
    exists u, (elements s0 ++ L'). by rewrite app_assoc.
  - destruct (IH0 top H0 Hc') as (s & top' & L & R & E & Hs & Hor).
    eexists s, top', _, _. split; [done|]. split; [by apply Hdown|done].
Qed.

(** The slot [q] of the tree exists. *)
Fixpoint valid (t : tree) (q : path) : Prop :=
  match q, t with
  | [], _ => True
  | b :: q', Node _ s0 s1 => valid (if b : bool then s1 else s0) q'
  | _ :: _, Leaf _ _ => False
  end.

Lemma remove_walk_spec t c at_ top :
  wf t -> crit t c ->
  exists q top' L R, remove_walk t key c at_ top = (at_ ++ q, top') /\ valid t q /\
    split_at t (deref t q) c L R /\
    (R = [] /\ top' = top \/
     exists u R', top' = Some (at_ ++ u) /\ valid t u /\ R = elements (deref t u) ++ R').
Proof.
  revert at_ top. induction t as [k v|d s0 IH0 s1 IH1]; intros at_ top Hwf Hc; simpl.
  { exists [], top, [], []. rewrite app_nil_r. split_and!; [done..|by apply split_stop|by left]. }
  destruct (Z.ltb_spec d c) as [Hlt|Hge].
  { exists [], top, [], []. rewrite app_nil_r. split_and!; [done..| |by left].
    apply split_stop; try done. by intros ? ? ? [= <- _ _]. }
  assert (Hcd : c < d) by (pose proof (crit_ne _ _ _ _ Hwf Hc); lia).
  pose proof Hwf as (_ & H0 & H1 & _). pose proof (crit_node _ _ _ _ Hc) as Hc'.
  pose proof (fun s L R => split_down d s0 s1 s c L R Hwf Hc Hcd) as Hdown.
  destruct (BIT_IS_SET key d).
  - destruct (IH1 (at_ ++ [true]) top H1 Hc') as (q & top' & L & R & E & Hv & Hs & Hor).
    exists (true :: q), top', (elements s0 ++ L), R. rewrite E, <- app_assoc. simpl.
    split_and!; [done..|by apply Hdown|].
    destruct Hor as [[-> ->]|(u & R' & -> & Hu & ->)]; [by left|right].
    exists (true :: u), R'. by rewrite <- app_assoc.
  - destruct (IH0 (at_ ++ [false]) (Some (at_ ++ [true])) H0 Hc')
      as (q & top' & L & R & E & Hv & Hs & Hor).
    exists (false :: q), top', L, (R ++ elements s1). rewrite E, <- app_assoc. simpl.
    split_and!; [done..|by apply Hdown|]. right.
    destruct Hor as [[-> ->]|(u & R' & -> & Hu & ->)].
    + exists [true], []. rewrite app_nil_r. simpl. by destruct s1.
    + exists (false :: u), (R' ++ elements s1). by rewrite <- !app_assoc.
Qed.

End Search.

(** ** Ends of subtrees *)

Lemma rightmost_spec t : exists l, elements t = l ++ [rightmost t].
Proof.
  induction t as [k v|d s0 _ s1 [l IH]]; simpl; [by exists []|].
  exists (elements s0 ++ l). by rewrite IH, app_assoc.
Qed.

Lemma deref_app t p q : deref t (p ++ q) = deref (deref t p) q.
Proof.
  revert t. induction p as [|b p IH]; intros t; [by destruct t|].
  destruct t as [k v|d s0 s1]; simpl; [by destruct q|apply IH].
Qed.

Lemma valid_app t p q : valid t p -> valid (deref t p) q -> valid t (p ++ q).
Proof.
  revert t. induction p as [|b p IH]; intros t Hp Hq; simpl in *; [by destruct t|].
  destruct t as [k v|d s0 s1]; [done|]. by apply IH.
Qed.

Lemma leftmost_path_spec t :
  valid t (leftmost_path t) /\
  exists k v l, deref t (leftmost_path t) = Leaf k v /\ elements t = (k, v) :: l.
Proof.
  induction t as [k v|d s0 [IHv (k & v & l & IH & El)] s1 _]; simpl; [by eauto 10|].
  split; [done|]. exists k, v, (l ++ elements s1). by rewrite IH, El.
Qed.

Lemma find_path_spec t key :
  valid t (find_path t key) /\
  deref t (find_path t key) = Leaf ((descend t key).1) ((descend t key).2).
Proof. induction t as [k v|d s0 IH0 s1 IH1]; simpl; [done|]. by destruct (BIT_IS_SET key d). Qed.

(** ** Taking out a leaf *)

Lemma wf_shrink d s0 s1 s0' s1' :
  wf (Node d s0 s1) -> wf s0' -> wf s1' ->
  (forall k, has_key s0' k -> has_key s0 k) -> (forall k, has_key s1' k -> has_key s1 k) ->
  wf (Node d s0' s1').
Proof.
  intros (Hd & _ & _ & Hb0 & Hb1 & Hag) H0 H1 Hk0 Hk1. cbn [wf]. split_and!; try done; auto; try lia.
  intros k k' i Hk Hk' Hi. rewrite has_key_node in Hk, Hk'.
  apply Hag; [rewrite has_key_node; destruct Hk; auto|rewrite has_key_node; destruct Hk'; auto|done].
Qed.

Lemma replace_parent_spec t p b k v :
  wf t -> valid t (p ++ [b]) -> deref t (p ++ [b]) = Leaf k v ->
  wf (replace_parent t p b) /\
  exists A B, elements t = A ++ (k, v) :: B /\ elements (replace_parent t p b) = A ++ B.
Proof.
  revert t. induction p as [|c p IH]; intros t Hwf Hv Hd; (destruct t as [k' v'|d s0 s1]; [done|]).
  - pose proof Hwf as (_ & H0 & H1 & _). simpl in *. destruct b.
    + split; [done|]. destruct s1; [|done]. simpl in Hd. injection Hd as -> ->.
      exists (elements s0), []. by rewrite app_nil_r.
    + split; [done|]. destruct s0; [|done]. simpl in Hd. injection Hd as -> ->.
      by exists [], (elements s1).
  - pose proof Hwf as (_ & H0 & H1 & _). simpl in *.
    assert (Hsub : forall A B : list (Z * Z), forall s s', elements s = A ++ (k, v) :: B ->
      elements s' = A ++ B -> forall k', has_key s' k' -> has_key s k').
    { intros A B s s' Es Es' k' [w Hw]. exists w. rewrite Es. rewrite Es' in Hw.
      rewrite elem_of_app in *. destruct Hw; [by left|right; by right]. }
    destruct c.
    + destruct (IH s1 H1 Hv Hd) as (Hwf' & A & B & E & E'). split.
      * apply (wf_shrink d s0 s1); auto. eauto.
      * exists (elements s0 ++ A), B. simpl. by rewrite E, E', !app_assoc.
    + destruct (IH s0 H0 Hv Hd) as (Hwf' & A & B & E & E'). split.
      * apply (wf_shrink d s0 s1); auto. eauto.
      * exists A, (B ++ elements s1). simpl. by rewrite E, E', <- !app_assoc.
Qed.

(** ** Trees *)

Definition ctree_elements (t : ctree) : list (Z * Z) := from_option elements [] t.
Definition ctree_wf (t : ctree) : Prop := from_option wf True t.

Lemma unlink_spec t q k v :
  wf t -> valid t q -> deref t q = Leaf k v ->
  ctree_wf (unlink t q) /\
  exists A B, elements t = A ++ (k, v) :: B /\ ctree_elements (unlink t q) = A ++ B.
Proof.
  intros Hwf Hv Hd. destruct q as [|b p _] using rev_ind.
  - split; [done|]. simpl in Hd. exists [], []. destruct t; [|done]. simpl in *. by injection Hd as -> ->.
  - unfold unlink. rewrite last_snoc, length_app, Nat.add_1_r. cbn [pred].
    rewrite take_app_length. by apply replace_parent_spec.
Qed.

(** The other elements stay. *)
Lemma sorted_removed (A B : list (Z * Z)) k v :
  StronglySorted (fun x y => x.1 < y.1) (A ++ (k, v) :: B) ->
  forall x, x ∈ A ++ B <-> x ∈ A ++ (k, v) :: B /\ x.1 <> k.
Proof.
  intros Hs x. rewrite !elem_of_app, elem_of_cons.
  assert (HA : forall y, y ∈ A -> y.1 < k).
  { intros y Hy. induction A as [|a A IH]; [by apply elem_of_nil in Hy|].
    apply StronglySorted_inv in Hs as [Hs Ha]. apply elem_of_cons in Hy as [->|Hy]; [|by apply IH].
    rewrite Forall_forall in Ha. apply (Ha (k, v)). apply elem_of_app. right. left. }
  assert (HB : forall y, y ∈ B -> k < y.1).
  { intros y Hy. clear HA. induction A as [|a A IH]; simpl in Hs; apply StronglySorted_inv in Hs as [Hs Ha].
    - rewrite Forall_forall in Ha. by apply (Ha y).
    - by apply IH. }
  split.
  - intros [H|H]; [pose proof (HA x H)|pose proof (HB x H)]; (split; [tauto|lia]).
  - intros [[H|[->|H]] Hne]; simpl in *; tauto.
Qed.

Definition ctree_has (t : ctree) (k : Z) : Prop := exists v, (k, v) ∈ ctree_elements t.

(** What a search for the greatest key up to [key] returns. *)
Definition greatest_le (es : list (Z * Z)) (key : Z) (kv : Z * Z) : Prop :=
  (kv ∈ es /\ kv.1 <= key /\ forall x, x ∈ es -> x.1 <= key -> x.1 <= kv.1) \/
  (kv = (0, 0) /\ forall x, x ∈ es -> key < x.1).

(** What a removal of [key], or of the least key from [key] on, does. *)
Definition removed (t t' : ctree) (key : Z) (eq : bool) (k : Z) : Prop :=
  (ctree_has t k /\ key <= k /\ (eq = true -> k = key) /\
   (forall x, x ∈ ctree_elements t -> key <= x.1 -> k <= x.1) /\
   (forall x, x ∈ ctree_elements t' <-> x ∈ ctree_elements t /\ x.1 <> k)) \/
  (k = 0 /\ t' = t /\
   forall x, x ∈ ctree_elements t -> if eq then x.1 <> key else x.1 < key).

(** In a sorted list, what is before an element is below it. *)
Lemma sorted_before (A B : list (Z * Z)) x y :
  StronglySorted (fun x y => x.1 < y.1) (A ++ B) -> x ∈ A -> y ∈ B -> x.1 < y.1.
Proof.
  induction A as [|a A IH]; intros Hs Hx Hy; [by apply elem_of_nil in Hx|].
  apply StronglySorted_inv in Hs as [Hs Ha]. apply elem_of_cons in Hx as [->|Hx]; [|by apply IH].
  rewrite Forall_forall in Ha. apply Ha, elem_of_app. by right.
Qed.

(** The last element below a bound is the greatest, the first above it the
    least. *)
Lemma greatest_of_split A x B key :
  StronglySorted (fun x y => x.1 < y.1) (A ++ x :: B) -> x.1 <= key -> (forall y, y ∈ B -> key < y.1) ->
  greatest_le (A ++ x :: B) key x.
Proof.
  intros Hs Hx HB. left. split_and!; [apply elem_of_app; right; left|done|].
  intros y Hy Hle. rewrite elem_of_app, elem_of_cons in Hy. destruct Hy as [Hy|[->|Hy]]; [|lia|].
  - pose proof (sorted_before A (x :: B) y x Hs Hy ltac:(left)). lia.
  - pose proof (HB y Hy). lia.
Qed.

Lemma find_le_correct r key :
  wf r -> 0 <= key < 2 ^ 64 -> greatest_le (elements r) key (ctree_find_le_unlocked (Some r) key).
Proof.
  intros Hwf Hkey. pose proof (elements_sorted r Hwf) as Hsort. unfold ctree_find_le_unlocked.
  pose proof (descend_elem r key) as Hel. destruct (descend r key) as [k v] eqn:Ed.
  destruct (Z.eqb_spec k key) as [->|Hne].
  { left. split_and!; [done|simpl; lia|]. intros x _ Hx. simpl. lia. }
  assert (Hc : crit key r (find_crit_bit k key)).
  { pose proof (crit_intro key Hkey r Hwf) as H. rewrite Ed in H. by apply H. }
  set (c := find_crit_bit k key) in *. clearbody c.
  destruct (find_le_walk_spec key r c None Hwf Hc) as (s & top & L & R & -> & [He Hl Hr Hm] & Hor).
  unfold BIT_IS_SET. destruct (Z.testbit key c).
  - destruct (rightmost_spec s) as [l El]. destruct (rightmost s) as [k' v'] eqn:Er.
    assert (Hk' : k' < key) by (apply (Hm (k', v')); rewrite El; apply elem_of_app; right; left).
    rewrite (proj2 (Z.ltb_ge _ _)) by lia. rewrite He, El in *.
    replace (L ++ (l ++ [(k', v')]) ++ R) with ((L ++ l) ++ (k', v') :: R) in *
      by by rewrite <- !app_assoc.
    apply greatest_of_split; [done|simpl; lia|done].
  - destruct Hor as [[-> ->]|(u & L' & -> & ->)].
    { right. split; [done|]. rewrite He. simpl. intros x [H|H]%elem_of_app; auto. }
    destruct (rightmost_spec u) as [l El]. destruct (rightmost u) as [k' v'] eqn:Er.
    assert (Hk' : k' < key).
    { apply (Hl (k', v')). rewrite El, !elem_of_app. right. right. left. }
    rewrite (proj2 (Z.ltb_ge _ _)) by lia. rewrite He, El in *.
    replace ((L' ++ l ++ [(k', v')]) ++ elements s ++ R)
      with ((L' ++ l) ++ (k', v') :: (elements s ++ R)) in * by by rewrite <- !app_assoc.
    apply greatest_of_split; [done|simpl; lia|]. intros y [H|H]%elem_of_app; auto.
Qed.

(** The leaf at a slot, taken out. *)
Lemma unlink_removed r key eq q k v L R :
  wf r -> valid r q -> deref r q = Leaf k v -> elements r = L ++ (k, v) :: R ->
  key <= k -> (eq = true -> k = key) -> (forall x, x ∈ L -> x.1 < key) ->
  ctree_wf (unlink r q) /\ removed (Some r) (unlink r q) key eq k.
Proof.
  intros Hwf Hv Hd He Hge Heq Hl. pose proof (elements_sorted r Hwf) as Hsort.
  destruct (unlink_spec r q k v Hwf Hv Hd) as (Hwf' & A & B & E & E'). split; [done|]. left.
  simpl. split_and!; try done.
  - exists v. simpl. rewrite He. apply elem_of_app. right. left.
  - intros x. rewrite He. intros [H|[->|H]%elem_of_cons]%elem_of_app Hx; simpl; [|lia|].
    + pose proof (Hl x H). lia.
    + rewrite He in Hsort. replace (L ++ (k, v) :: R) with ((L ++ [(k, v)]) ++ R) in Hsort
        by by rewrite <- app_assoc.
      assert (k < x.1); [|lia]. apply (sorted_before _ _ (k, v) x Hsort); [|done].
      apply elem_of_app. right. left.
  - intros x. rewrite E', E. rewrite E in Hsort. by apply (sorted_removed A B k v).
Qed.

Lemma remove_correct r key eq :
  wf r -> 0 <= key < 2 ^ 64 ->
  exists k t', ctree_remove_unlocked (Some r) key eq = Some (k, t') /\
    ctree_wf t' /\ removed (Some r) t' key eq k.
Proof.
  intros Hwf Hkey. unfold ctree_remove_unlocked.
  destruct (find_path_spec r key) as [Hv Hd]. pose proof (descend_elem r key) as Hel.
  rewrite Hd. simpl. destruct (descend r key) as [k v] eqn:Ed. simpl in *.
  destruct (Z.eqb_spec k key) as [->|Hne].
  { pose proof (elements_sorted r Hwf) as Hsort.
    apply list_elem_of_split in Hel as (L & R & He). eexists _, _. split; [done|].
    eapply unlink_removed; try done. intros x Hx. rewrite He in Hsort.
    apply (sorted_before L ((key, v) :: R) x (key, v) Hsort Hx). left. }
  destruct eq.
  { eexists _, _. split; [done|]. split; [done|]. right. split_and!; try done.
    intros [k' v'] Hx Hk. simpl in Hk. subst k'. rewrite (descend_found r key v') in Ed by done. congruence. }
  assert (Hc : crit key r (find_crit_bit k key)).
  { pose proof (crit_intro key Hkey r Hwf) as H. rewrite Ed in H. by apply H. }
  set (c := find_crit_bit k key) in *. clearbody c. clear Hv Hd Hel.
  destruct (remove_walk_spec key r c [] None Hwf Hc) as (q & top & L & R & -> & Hvq & [He Hl Hr Hm] & Hor).
  simpl. unfold BIT_IS_SET. destruct (Z.testbit key c).
  - destruct Hor as [[-> ->]|(u & R' & -> & Hu & ->)].
    { eexists _, _. split; [done|]. split; [done|]. right. split_and!; try done.
      simpl. rewrite He, app_nil_r. intros x [H|H]%elem_of_app; auto. }
    simpl. destruct (leftmost_path_spec (deref r u)) as (Hvl & k' & v' & l & Hdl & El).
    assert (Hk' : key < k') by (apply (Hr (k', v')); rewrite El; left).
    rewrite deref_app, Hdl. simpl. rewrite (proj2 (Z.ltb_lt _ _)) by done.
    eexists _, _. split; [done|]. eapply unlink_removed with (L := L ++ elements (deref r q)) (v := v');
      [done|by apply valid_app|by rewrite deref_app| |lia|done|].
    + by rewrite He, El, <- !app_assoc.
    + intros x [H|H]%elem_of_app; auto.
  - simpl. destruct (leftmost_path_spec (deref r q)) as (Hvl & k' & v' & l & Hdl & El).
    assert (Hk' : key < k') by (apply (Hm (k', v')); rewrite El; left).
    rewrite deref_app, Hdl. simpl. rewrite (proj2 (Z.ltb_lt _ _)) by done.
    eexists _, _. split; [done|]. eapply unlink_removed with (L := L) (v := v');
      [done|by apply valid_app|by rewrite deref_app| |lia|done|done].
    by rewrite He, El.
Qed.

Lemma insert_wf malloc_leaf malloc_node t key value :
  ctree_wf t -> 0 <= key < 2 ^ 64 ->
  ctree_wf ((ctree_insert_unlocked malloc_leaf malloc_node t key value).1).
Proof.
  intros Hwf Hkey. unfold ctree_insert_unlocked.
  destruct malloc_leaf, t as [r|], malloc_node; try done.
  destruct (Z.eqb_spec ((descend r key).1) key) as [E|E]; [done|].
  apply insert_node_spec; [done..|by apply crit_intro|].
  apply crit_bit_lt64; [|done..]. apply (wf_range r _ Hwf), descend_key.
Qed.

Lemma insert_correct malloc_leaf malloc_node t key value :
  ctree_wf t -> 0 <= key < 2 ^ 64 ->
  let '(t', err) := ctree_insert_unlocked malloc_leaf malloc_node t key value in
  ctree_wf t' /\ StronglySorted (fun x y => x.1 < y.1) (ctree_elements t') /\
  (err = 0 /\ ~ ctree_has t key /\
     (forall x, x ∈ ctree_elements t' <-> x = (key, value) \/ x ∈ ctree_elements t) \/
   err = EEXIST /\ t' = t /\ ctree_has t key \/
   err = ENOMEM /\ t' = t /\ (malloc_leaf = false \/ t <> None /\ malloc_node = false)).
Proof.
  intros Hwf Hkey. unfold ctree_insert_unlocked.
  assert (Hs : forall u, ctree_wf u -> StronglySorted (fun x y => x.1 < y.1) (ctree_elements u)).
  { intros [u|] Hu; [by apply elements_sorted|constructor]. }
  destruct malloc_leaf; [|split_and!; [done|by apply Hs|right; right; by auto]].
  destruct t as [r|]; [|split_and!; [done|repeat constructor|left]].
  2:{ split_and!; [done|by intros [v ?%elem_of_nil]|]. intros x. simpl.
      rewrite elem_of_cons. done. }
  destruct malloc_node; [|split_and!; [done|by apply Hs|right; right; by auto]].
  pose proof (descend_has_key r key Hwf) as Hhas.
  destruct (Z.eqb_spec ((descend r key).1) key) as [E|E].
  { split_and!; [done|by apply Hs|right; left]. split_and!; try done. by apply Hhas. }
  pose proof (crit_intro key Hkey r Hwf E) as Hc.
  pose proof (wf_range r _ Hwf (descend_key r key)) as Hr.
  destruct (insert_node_spec key Hkey r _ value Hwf Hc) as [Hwf' Hel].
  { by apply crit_bit_lt64. }
  split_and!; [done|by apply elements_sorted|left]. split_and!; [done| |done].
  intros H. by apply E, Hhas.
Qed.

Lemma search_remove_correct t key eq :
  ctree_wf t -> 0 <= key < 2 ^ 64 ->
  (ctree_has t key /\ ctree_find_unlocked t key = key \/
   ~ ctree_has t key /\ ctree_find_unlocked t key = 0) /\
  greatest_le (ctree_elements t) key (ctree_find_le_unlocked t key) /\
  exists k t', ctree_remove_unlocked t key eq = Some (k, t') /\
    ctree_wf t' /\ removed t t' key eq k.
Proof.
  intros Hwf Hkey. destruct t as [r|].
  - split; [|split; [by apply find_le_correct|by apply remove_correct]].
    pose proof (descend_has_key r key Hwf) as Hhas. simpl.
    destruct (Z.eqb_spec ((descend r key).1) key) as [E|E]; [left|right].
    + split; [by apply Hhas|done].
    + split; [|done]. intros H. by apply E, Hhas.
  - split; [right; split; [by intros [v ?%elem_of_nil]|done]|]. split.
    + right. split; [done|]. by intros x ?%elem_of_nil.
    + exists 0, None. split_and!; try done. right. split_and!; try done. by intros x ?%elem_of_nil.
Qed.

(** ** Properties *)

(** Insertion keeps the tree well-formed and its elements in ascending
    order of keys, and does one of three things: it adds exactly the new pair
    when the key is absent; it reports [EEXIST] and changes nothing when the key
    is present; it reports [ENOMEM] and changes nothing exactly when an
    allocation it needs fails. *)
Theorem ctree_insert_correct malloc_leaf malloc_node t key value :
  ctree_wf t -> 0 <= key < 2 ^ 64 ->
  let '(t', err) := ctree_insert_unlocked malloc_leaf malloc_node t key value in
  ctree_wf t' /\ StronglySorted (fun x y => x.1 < y.1) (ctree_elements t') /\
  (err = 0 /\ ~ ctree_has t key /\
     (forall x, x ∈ ctree_elements t' <-> x = (key, value) \/ x ∈ ctree_elements t) \/
   err = EEXIST /\ t' = t /\ ctree_has t key \/
   err = ENOMEM /\ t' = t /\ (malloc_leaf = false \/ t <> None /\ malloc_node = false)).
Proof. apply insert_correct. Qed.

(** C17: in a well-formed tree [ctree_find_unlocked] returns the key exactly when
    it is present (0 otherwise), [ctree_find_le_unlocked] returns the greatest
    key up to its bound with its value (0 when there is none), and
    [ctree_remove_unlocked], whose assertion never fails, removes exactly the key,
    or without [eq] the least key not below it, keeping the tree well-formed; when
    there is no such key it returns 0 and changes nothing. *)
Theorem ctree_search_remove_correct t key eq :
  ctree_wf t -> 0 <= key < 2 ^ 64 ->
  (ctree_has t key /\ ctree_find_unlocked t key = key \/
   ~ ctree_has t key /\ ctree_find_unlocked t key = 0) /\
  greatest_le (ctree_elements t) key (ctree_find_le_unlocked t key) /\
  exists k t', ctree_remove_unlocked t key eq = Some (k, t') /\
    ctree_wf t' /\ removed t t' key eq k.
Proof. apply search_remove_correct. Qed.

(** The tree of the keys 5, 12 and 2^63. *)
Definition sample_tree : ctree :=
  (ctree_insert_unlocked true true
    (ctree_insert_unlocked true true
      (ctree_insert_unlocked true true None 12 1).1 (2 ^ 63) 2).1 5 3).1.

Lemma sample_tree_wf : ctree_wf sample_tree.
Proof. unfold sample_tree. repeat apply insert_wf; simpl; done || lia. Qed.

Lemma ctree_insert_correct_witness :
  let '(t', err) := ctree_insert_unlocked true true sample_tree 7 9 in
  ctree_wf t' /\ err = 0 /\ ctree_elements t' = [(5, 3); (7, 9); (12, 1); (2 ^ 63, 2)].
Proof.
  pose proof (ctree_insert_correct true true sample_tree 7 9 sample_tree_wf ltac:(lia)) as H.
  split; [exact (proj1 H)|]. split; vm_compute; reflexivity.
Defined.

Lemma ctree_search_remove_correct_witness :
  greatest_le (ctree_elements sample_tree) 11 (5, 3) /\
  exists t', ctree_remove_unlocked sample_tree 6 false = Some (12, t') /\ ctree_wf t'.
Proof.
  destruct (ctree_search_remove_correct sample_tree 11 false sample_tree_wf ltac:(lia)) as (_ & H & _).
  destruct (ctree_search_remove_correct sample_tree 6 false sample_tree_wf ltac:(lia))
    as (_ & _ & k & t' & E & Hwf & _).
  split; [exact H|]. exists t'. split; [|exact Hwf]. rewrite E. f_equal. f_equal.
  vm_compute in E. by injection E.
Defined.
