(* ===== verification/Cuckoo.v ===== *)
(** * The cuckoo hash table: [nvml/src/libpmemobj/cuckoo.c]

    The volatile table that maps the identifiers of pools to their run-time
    state.  Values are pointers, 0 is [NULL] and marks an empty slot.  Allocation
    is a parameter: [zalloc n bytes] tells whether the [n]-th call of [Zalloc]
    succeeds.  [None] stands for an access out of the table or a division by a
    size of zero.

    The theorem: on a table with one slot per key, inserting an absent key adds
    it or fails by losing at most one pair, without ever leaving the table;
    inserting a key that is present is refused, unless the first slot of the key is
    empty, when it is stored a second time; getting and removing behave as on a
    finite map.  The last section shows what goes wrong when a key is stored
    twice. *)

From S2P Require Import Prelude.

Definition MAX_INSERTS : nat := 8.
Definition MAX_GROWS : nat := 32.
Definition INITIAL_SIZE : Z := 8.
Definition EAGAIN : Z := 11.
Definition sizeof_slot : Z := 16.

Record cuckoo_slot := mkSlot { s_key : Z; s_value : Z }.
Definition null_slot : cuckoo_slot := mkSlot 0 0.

#[global] Instance cuckoo_slot_eq_dec : EqDecision cuckoo_slot.
Proof. solve_decision. Defined.

Record cuckoo := mkCuckoo { size : Z; tab : list cuckoo_slot }.

Definition hash_mod (sz key : Z) : Z := u32 (key mod sz).

Definition hash_mixer (sz key : Z) : Z :=
  let key := Z.lxor key (Z.shiftr key 33) in
  let key := u64 (key * 0xff51afd7ed558ccd) in
  let key := Z.lxor key (Z.shiftr key 33) in
  let key := u64 (key * 0xc4ceb9fe1a85ec53) in
  let key := Z.lxor key (Z.shiftr key 33) in
  u32 (key mod sz).

Definition hash_funcs (i : nat) : Z -> Z -> Z :=
  match i with O => hash_mod | _ => hash_mixer end.

Definition get_slot (t : list cuckoo_slot) (h : Z) : option cuckoo_slot := t !! Z.to_nat h.
Definition set_slot (t : list cuckoo_slot) (h : Z) (s : cuckoo_slot) : list cuckoo_slot :=
  <[Z.to_nat h := s]> t.

Section Table.
Context (zalloc : nat -> Z -> bool).

Definition cuckoo_new (malloc : bool) (n : nat) : option cuckoo :=
  if malloc && zalloc n (INITIAL_SIZE * sizeof_slot)
  then Some (mkCuckoo INITIAL_SIZE (replicate (Z.to_nat INITIAL_SIZE) null_slot))
  else None.

(** The loop of [cuckoo_insert_try]: the table, the pair still to be placed and
    the error. *)
Fixpoint cuckoo_insert_try (n : nat) (sz : Z) (t : list cuckoo_slot) (src : cuckoo_slot) :
    option (list cuckoo_slot * cuckoo_slot * Z) :=
  if sz =? 0 then None else
  match n with
  | O => Some (t, src, EAGAIN)
  | S n' =>
      let h0 := hash_funcs 0 sz (s_key src) in
      s0 ← get_slot t h0;
      if s_value s0 =? 0 then Some (set_slot t h0 src, src, 0)
      else if s_key s0 =? s_key src then Some (t, src, EINVAL)
      else
        let h1 := hash_funcs 1 sz (s_key src) in
        s1 ← get_slot t h1;
        if s_value s1 =? 0 then Some (set_slot t h1 src, src, 0)
        else if s_key s1 =? s_key src then Some (t, src, EINVAL)
        else cuckoo_insert_try n' sz (set_slot t h0 src) s0
  end.

(** The loop over the old slots: the new table, and whether all were placed. *)
Fixpoint rehash (sz : Z) (old : list cuckoo_slot) (t : list cuckoo_slot) :
    option (list cuckoo_slot * bool) :=
  match old with
  | [] => Some (t, true)
  | s :: old' =>
      if s_value s =? 0 then rehash sz old' t else
      '(t', _, err) ← cuckoo_insert_try MAX_INSERTS sz t s;
      if err =? 0 then rehash sz old' t' else Some (t', false)
  end.

(** The loop of [cuckoo_grow] from its [n]-th round on, with [sz] the current
    value of [c->size] and [k] the number of allocations made; it returns the
    table, the error and the number of allocations. *)
Fixpoint grow_loop (rounds : nat) (oldsize : Z) (oldtab : list cuckoo_slot) (sz : Z) (k : nat) :
    option (cuckoo * Z * nat) :=
  match rounds with
  | O => Some (mkCuckoo oldsize oldtab, EINVAL, k)
  | S rounds' =>
      let new := u32 (sz * 2) in
      if zalloc k (new * sizeof_slot) then
        '(t, ok) ← rehash new oldtab (replicate (Z.to_nat new) null_slot);
        if ok : bool then Some (mkCuckoo new t, 0, S k)
        else grow_loop rounds' oldsize oldtab new (S k)
      else Some (mkCuckoo sz oldtab, ENOMEM, S k)
  end.

Definition cuckoo_grow (c : cuckoo) (k : nat) : option (cuckoo * Z * nat) :=
  grow_loop MAX_GROWS (size c) (tab c) (size c) k.

Fixpoint insert_loop (rounds : nat) (c : cuckoo) (src : cuckoo_slot) (k : nat) :
    option (cuckoo * Z * nat) :=
  match rounds with
  | O => Some (c, EINVAL, k)
  | S rounds' =>
      '(t, src', err) ← cuckoo_insert_try MAX_INSERTS (size c) (tab c) src;
      if negb (err =? EAGAIN) then Some (mkCuckoo (size c) t, err, k) else
      '(c', err', k') ← cuckoo_grow (mkCuckoo (size c) t) k;
      if negb (err' =? 0) then Some (c', err', k') else insert_loop rounds' c' src' k'
  end.

Definition cuckoo_insert (c : cuckoo) (key value : Z) (k : nat) : option (cuckoo * Z * nat) :=
  insert_loop MAX_GROWS c (mkSlot key value) k.

End Table.

(** The index of the slot of a key. *)
Definition cuckoo_find_slot (c : cuckoo) (key : Z) : option (option Z) :=
  if size c =? 0 then None else
  s0 ← get_slot (tab c) (hash_funcs 0 (size c) key);
  if s_key s0 =? key then Some (Some (hash_funcs 0 (size c) key)) else
  s1 ← get_slot (tab c) (hash_funcs 1 (size c) key);
  if s_key s1 =? key then Some (Some (hash_funcs 1 (size c) key)) else Some None.

Definition cuckoo_remove (c : cuckoo) (key : Z) : option (Z * cuckoo) :=
  h ← cuckoo_find_slot c key;
  match h with
  | Some h =>
      s ← get_slot (tab c) h;
      Some (s_value s, mkCuckoo (size c) (set_slot (tab c) h null_slot))
  | None => Some (0, c)
  end.

Definition cuckoo_get (c : cuckoo) (key : Z) : option Z :=
  h ← cuckoo_find_slot c key;
  match h with
  | Some h => s ← get_slot (tab c) h; Some (s_value s)
  | None => Some 0
  end.

(** ** Tables *)

Definition contents (t : list cuckoo_slot) : list cuckoo_slot := filter (fun s => s_value s <> 0) t.
Definition hashes (sz key h : Z) : Prop := h = hash_mod sz key \/ h = hash_mixer sz key.

(** The table has its size, every pair is in one of its two slots, and the empty
    slots are zero. *)
Record table_ok (sz : Z) (t : list cuckoo_slot) : Prop := {
  ok_length : Z.of_nat (length t) = sz;
  ok_size : 0 < sz < 2 ^ 31;
  ok_placed i s : t !! i = Some s -> s_value s <> 0 -> hashes sz (s_key s) (Z.of_nat i);
  ok_empty i s : t !! i = Some s -> s_value s = 0 -> s = null_slot;
}.

Lemma hash_range i sz key : 0 < sz < 2 ^ 31 -> 0 <= hash_funcs i sz key < sz.
Proof.
  intros Hsz. assert (H : forall x, 0 <= u32 (x mod sz) < sz).
  { intros x. pose proof (Z.mod_pos_bound x sz). rewrite u32_small; lia. }
  destruct i; apply H.
Qed.

Lemma get_slot_hash i sz t key : table_ok sz t -> is_Some (get_slot t (hash_funcs i sz key)).
Proof.
  intros [Hl Hsz _ _]. pose proof (hash_range i sz key Hsz). apply lookup_lt_is_Some_2. lia.
Qed.

Lemma hash_hashes i sz key : 0 < sz < 2 ^ 31 -> hashes sz key (Z.of_nat (Z.to_nat (hash_funcs i sz key))).
Proof.
  intros Hsz. pose proof (hash_range i sz key Hsz). rewrite Z2Nat.id by lia.
  destruct i; [by left|by right].
Qed.

(** Exchanging a slot exchanges its pair. *)
Lemma set_slot_contents t h s0 s :
  get_slot t h = Some s0 -> contents [s0] ++ contents (set_slot t h s) ≡ₚ contents [s] ++ contents t.
Proof.
  unfold get_slot, set_slot. intros H. rewrite insert_take_drop by by eapply lookup_lt_Some.
  rewrite <- (take_drop_middle t _ _ H) at 3. unfold contents.
  change (s :: drop (S (Z.to_nat h)) t) with ([s] ++ drop (S (Z.to_nat h)) t).
  change (s0 :: drop (S (Z.to_nat h)) t) with ([s0] ++ drop (S (Z.to_nat h)) t).
  rewrite !filter_app. solve_Permutation.
Qed.

Lemma contents_cons s t : s_value s <> 0 -> contents (s :: t) = s :: contents t.
Proof. intros H. unfold contents. by rewrite filter_cons_True. Qed.
Lemma contents_null s : s_value s = 0 -> contents [s] = [].
Proof. intros H. unfold contents. rewrite filter_cons_False; [done|]. by intros ?. Qed.

Lemma contents_replicate n : contents (replicate n null_slot) = [].
Proof.
  induction n as [|n IH]; [done|]. unfold contents in *. cbn [replicate].
  rewrite filter_cons_False; [done|]. by intros ?.
Qed.

Lemma set_slot_ok sz t h s :
  table_ok sz t -> 0 <= h < sz ->
  s = null_slot \/ s_value s <> 0 /\ hashes sz (s_key s) (Z.of_nat (Z.to_nat h)) ->
  table_ok sz (set_slot t h s).
Proof.
  intros [Hl Hsz Hp He] Hh Hs. unfold set_slot. split; [by rewrite length_insert|done|..].
  - intros i s' Hi Hv. destruct (decide (i = Z.to_nat h)) as [->|Hne].
    + rewrite list_lookup_insert_eq in Hi by lia. injection Hi as <-.
      destruct Hs as [->|[_ Hs]]; [by destruct Hv|done].
    + rewrite list_lookup_insert_ne in Hi by done. eauto.
  - intros i s' Hi Hv. destruct (decide (i = Z.to_nat h)) as [->|Hne].
    + rewrite list_lookup_insert_eq in Hi by lia. injection Hi as <-. destruct Hs as [?|[? _]]; done.
    + rewrite list_lookup_insert_ne in Hi by done. eauto.
Qed.

(** What trying to insert does: it places the pair, or keeps the table and a
    pair in hand with the same contents together. *)
Lemma insert_try_spec n sz t src :
  table_ok sz t -> s_value src <> 0 ->
  exists t' src' err, cuckoo_insert_try n sz t src = Some (t', src', err) /\
    table_ok sz t' /\ s_value src' <> 0 /\
    (err = 0 /\ contents t' ≡ₚ src :: contents t \/
     (err = EAGAIN \/ err = EINVAL /\ s_key src' ∈ s_key <$> contents t') /\
     src' :: contents t' ≡ₚ src :: contents t).
Proof.
  revert t src. induction n as [|n IH]; intros t src Hok Hv; pose proof Hok as [Hl Hsz Hp He];
    cbn [cuckoo_insert_try]; rewrite (proj2 (Z.eqb_neq sz 0)) by lia.
  { eexists _, _, _. split; [done|]. split_and!; [done..|]. right. split; [by left|done]. }
  assert (Hplace : forall i s0, get_slot t (hash_funcs i sz (s_key src)) = Some s0 -> s_value s0 = 0 ->
    table_ok sz (set_slot t (hash_funcs i sz (s_key src)) src) /\
    contents (set_slot t (hash_funcs i sz (s_key src)) src) ≡ₚ src :: contents t).
  { intros i s0 Hg H0. split.
    - apply set_slot_ok; [done|by apply hash_range|]. right. split; [done|]. by apply hash_hashes.
    - pose proof (set_slot_contents _ _ _ src Hg) as H.
      by rewrite (contents_null s0 H0), contents_cons in H. }
  assert (Hdup : forall i s0, get_slot t (hash_funcs i sz (s_key src)) = Some s0 -> s_value s0 <> 0 ->
    s_key s0 = s_key src -> s_key src ∈ s_key <$> contents t).
  { intros i s0 Hg H0 Hk. rewrite <- Hk. apply list_elem_of_fmap_2, list_elem_of_filter.
    split; [done|]. by eapply list_elem_of_lookup_2. }
  destruct (get_slot_hash 0 sz t (s_key src) Hok) as [s0 E0]. rewrite E0. cbn [mbind option_bind].
  destruct (Z.eqb_spec (s_value s0) 0) as [V0|V0].
  { destruct (Hplace 0%nat s0 E0 V0). eexists _, _, _. split; [done|]. split_and!; [done..|]. by left. }
  destruct (Z.eqb_spec (s_key s0) (s_key src)) as [K0|K0].
  { eexists _, _, _. split; [done|]. split_and!; [done..|]. right. split; [right; split; [done|by eapply Hdup]|done]. }
  destruct (get_slot_hash 1 sz t (s_key src) Hok) as [s1 E1]. rewrite E1. cbn [mbind option_bind].
  destruct (Z.eqb_spec (s_value s1) 0) as [V1|V1].
  { destruct (Hplace 1%nat s1 E1 V1). eexists _, _, _. split; [done|]. split_and!; [done..|]. by left. }
  destruct (Z.eqb_spec (s_key s1) (s_key src)) as [K1|K1].
  { eexists _, _, _. split; [done|]. split_and!; [done..|]. right. split; [right; split; [done|by eapply Hdup]|done]. }
  pose proof (set_slot_contents _ _ _ src E0) as Hperm.
  rewrite !contents_cons in Hperm by done. change (contents []) with (@nil cuckoo_slot) in Hperm. simpl in Hperm.
  destruct (IH (set_slot t (hash_funcs 0 sz (s_key src)) src) s0) as (t' & src' & err & E & Hok' & Hv' & Hor).
  { apply set_slot_ok; [done|by apply hash_range|]. right. split; [done|]. by apply hash_hashes. }
  { done. }
  exists t', src', err. split_and!; [done..|]. rewrite <- Hperm. destruct Hor as [[-> H]|[H1 H2]]; [by left|right].
  split; [done|]. by rewrite H2.
Qed.

(** ** Growing *)

(** No allocation of 32 GiB succeeds: the sizes never reach [2^31]. *)
Definition bounded_memory (zalloc : nat -> Z -> bool) : Prop :=
  forall k bytes, 2 ^ 35 <= bytes -> zalloc k bytes = false.

Lemma fresh_table_ok sz : 0 < sz < 2 ^ 31 -> table_ok sz (replicate (Z.to_nat sz) null_slot).
Proof.
  intros H. split; [rewrite length_replicate; lia|done|..];
    intros i s [-> _]%lookup_replicate; [by intros []|done].
Qed.

Lemma rehash_spec sz old t :
  table_ok sz t ->
  exists t' ok, rehash sz old t = Some (t', ok) /\ table_ok sz t' /\
    (ok = true -> contents t' ≡ₚ contents old ++ contents t).
Proof.
  revert t. induction old as [|s old IH]; intros t Hok; [by eexists _, true|].
  cbn [rehash]. destruct (Z.eqb_spec (s_value s) 0) as [V|V].
  { destruct (IH t Hok) as (t' & ok & E & H1 & H2). exists t', ok. split_and!; [done..|].
    intros Ho. rewrite (H2 Ho). unfold contents. by rewrite (filter_cons_False _ s) by (by intros []). }
  destruct (insert_try_spec MAX_INSERTS sz t s Hok V) as (t1 & src & err & -> & Hok1 & _ & Hor).
  cbn [mbind option_bind]. destruct (Z.eqb_spec err 0) as [->|Herr].
  - destruct (IH t1 Hok1) as (t' & ok & E & H1 & H2). exists t', ok. split_and!; [done..|].
    intros Ho. rewrite (H2 Ho), (contents_cons s) by done.
    destruct Hor as [[_ H]|[[H|[H _]] _]]; [|done..]. rewrite H. solve_Permutation.
  - by eexists t1, false.
Qed.

Section Grow.
Context (zalloc : nat -> Z -> bool) (Hmem : bounded_memory zalloc).

Lemma grow_loop_spec rounds oldsize oldtab sz k :
  0 < sz < 2 ^ 31 ->
  exists c' err k', grow_loop zalloc rounds oldsize oldtab sz k = Some (c', err, k') /\
    (err = 0 /\ table_ok (size c') (tab c') /\ contents (tab c') ≡ₚ contents oldtab \/
     err <> 0 /\ tab c' = oldtab).
Proof.
  revert sz k. induction rounds as [|rounds IH]; intros sz k Hsz.
  { eexists _, _, _. split; [done|]. by right. }
  cbn [grow_loop]. rewrite u32_small by lia.
  destruct (zalloc k (sz * 2 * sizeof_slot)) eqn:Ez.
  2:{ eexists _, _, _. split; [done|]. by right. }
  assert (Hnew : 0 < sz * 2 < 2 ^ 31).
  { destruct (Z.lt_ge_cases (sz * 2) (2 ^ 31)) as [|Hge]; [lia|].
    rewrite Hmem in Ez; [done|]. unfold sizeof_slot. lia. }
  destruct (rehash_spec (sz * 2) oldtab _ (fresh_table_ok _ Hnew)) as (t & ok & -> & Hok & Hc).
  cbn [mbind option_bind]. destruct ok; [|by apply IH].
  eexists _, _, _. split; [done|]. left. split_and!; [done..|]. simpl.
  by rewrite Hc, contents_replicate, app_nil_r.
Qed.

(** Inserting places the pair, or fails with the contents and the pair together
    short of exactly one pair. *)
Lemma insert_loop_spec rounds c src k :
  table_ok (size c) (tab c) -> s_value src <> 0 ->
  exists c' err k', insert_loop zalloc rounds c src k = Some (c', err, k') /\
    (err = 0 /\ table_ok (size c') (tab c') /\ contents (tab c') ≡ₚ src :: contents (tab c) \/
     err <> 0 /\ exists s, s :: contents (tab c') ≡ₚ src :: contents (tab c)).
Proof.
  revert c src k. induction rounds as [|rounds IH]; intros c src k Hok Hv.
  { eexists _, _, _. split; [done|]. right. eauto. }
  cbn [insert_loop].
  destruct (insert_try_spec MAX_INSERTS _ _ src Hok Hv) as (t & src' & err & -> & Hok1 & Hv' & Hor).
  cbn [mbind option_bind]. destruct (Z.eqb_spec err EAGAIN) as [->|Herr]; cbn [negb].
  2:{ eexists _, _, _. split; [done|]. simpl. destruct Hor as [[-> H]|[[->|[-> _]] H]]; [by left|done|].
      right. eauto. }
  destruct Hor as [[? _]|[_ Hperm]]; [done|].
  destruct (grow_loop_spec MAX_GROWS (size c) t (size c) k (ok_size _ _ Hok))
    as (c1 & err1 & k1 & E & Hor). unfold cuckoo_grow. cbn [size tab]. rewrite E. cbn [mbind option_bind].
  destruct (Z.eqb_spec err1 0) as [->|Herr]; cbn [negb].
  - destruct Hor as [(_ & Hok2 & Hc)|[? _]]; [|done].
    destruct (IH c1 src' k1 Hok2 Hv') as (c' & err & k' & E' & Hor').
    exists c', err, k'. split; [done|].
    assert (Hall : src' :: contents (tab c1) ≡ₚ src :: contents (tab c)) by by rewrite Hc, Hperm.
    destruct Hor' as [(-> & Hok' & H')|(Hne & s & H')]; [left|right].
    + split_and!; [done..|]. by rewrite H'.
    + split; [done|]. exists s. by rewrite H'.
  - destruct Hor as [[? _]|[_ Ht]]; [done|].
    eexists _, _, _. split; [done|]. right. split; [done|]. exists src'. by rewrite Ht.
Qed.

End Grow.

(** ** Looking up *)

Lemma elem_contents t s : s ∈ contents t <-> s_value s <> 0 /\ exists i, t !! i = Some s.
Proof. unfold contents. by rewrite list_elem_of_filter, list_elem_of_lookup. Qed.

(** A key of the contents has one slot only. *)
Lemma contents_inj t i j s s' :
  NoDup (s_key <$> contents t) -> t !! i = Some s -> t !! j = Some s' ->
  s_value s <> 0 -> s_value s' <> 0 -> s_key s = s_key s' -> i = j.
Proof.
  revert i j. induction t as [|x t IH]; intros i j Hnd Hi Hj Hs Hs' Hk; [done|].
  assert (Hin : forall y l u, t !! l = Some u -> s_value u <> 0 -> s_key u = y -> y ∈ s_key <$> contents t).
  { intros y l u Hu Hvu <-. apply list_elem_of_fmap_2, elem_contents. eauto. }
  destruct (decide (s_value x = 0)) as [Hx|Hx].
  - unfold contents in Hnd. rewrite filter_cons_False in Hnd by (by intros ?).
    destruct i as [|i], j as [|j]; simpl in *; [done|congruence..|]. f_equal. by apply IH.
  - rewrite contents_cons in Hnd by done. apply NoDup_cons in Hnd as [Hnin Hnd].
    destruct i as [|i], j as [|j]; simpl in *; [done| | |f_equal; by apply IH].
    + injection Hi as ->. destruct Hnin. by eapply Hin.
    + injection Hj as ->. destruct Hnin. by eapply Hin.
Qed.

Lemma hash_zero sz : 0 < sz < 2 ^ 31 -> hash_mod sz 0 = 0 /\ hash_mixer sz 0 = 0.
Proof. intros H. unfold hash_mod, hash_mixer. simpl. by rewrite Z.mod_0_l by lia. Qed.

(** The slot found has the key, and no other slot in use has it; without one,
    no slot in use has it. *)
Lemma find_slot_spec c key :
  table_ok (size c) (tab c) -> NoDup (s_key <$> contents (tab c)) ->
  exists o, cuckoo_find_slot c key = Some o /\
    match o with
    | Some h => 0 <= h < size c /\ exists s, get_slot (tab c) h = Some s /\ s_key s = key /\
        forall i s', tab c !! i = Some s' -> s_value s' <> 0 -> s_key s' = key -> i = Z.to_nat h
    | None => forall s', s' ∈ contents (tab c) -> s_key s' <> key
    end.
Proof.
  intros Hok Hnd. pose proof Hok as [Hl Hsz Hp He]. unfold cuckoo_find_slot.
  rewrite (proj2 (Z.eqb_neq (size c) 0)) by lia.
  destruct (get_slot_hash 0 _ _ key Hok) as [s0 E0]. rewrite E0. cbn [mbind option_bind].
  pose proof (hash_range 0 (size c) key Hsz) as R0. pose proof (hash_range 1 (size c) key Hsz) as R1.
  assert (Hpos : forall i s', tab c !! i = Some s' -> s_value s' <> 0 -> s_key s' = key ->
    i = Z.to_nat (hash_funcs 0 (size c) key) \/ i = Z.to_nat (hash_funcs 1 (size c) key)).
  { intros i s' Hi Hv <-. destruct (Hp i s' Hi Hv) as [H|H]; [left|right]; simpl; lia. }
  destruct (Z.eqb_spec (s_key s0) key) as [K0|K0].
  { eexists. split; [done|]. split; [done|]. exists s0. split_and!; [done..|].
    intros i s' Hi Hv Hk. destruct (decide (s_value s0 = 0)) as [V0|V0].
    - pose proof (He _ _ E0 V0) as ->. simpl in K0. subst key.
      destruct (Hpos i s' Hi Hv Hk) as [->| ->]; [done|]. simpl.
      destruct (hash_zero (size c) Hsz) as [-> ->]. done.
    - eapply contents_inj; try done. congruence. }
  destruct (get_slot_hash 1 _ _ key Hok) as [s1 E1]. rewrite E1. cbn [mbind option_bind].
  destruct (Z.eqb_spec (s_key s1) key) as [K1|K1].
  { eexists. split; [done|]. split; [done|]. exists s1. split_and!; [done..|].
    intros i s' Hi Hv Hk. destruct (Hpos i s' Hi Hv Hk) as [->| ->]; [|done].
    unfold get_slot in E0. congruence. }
  eexists. split; [done|]. simpl. intros s' (Hv & i & Hi)%elem_contents Hk.
  unfold get_slot in *. destruct (Hpos i s' Hi Hv Hk) as [->| ->]; congruence.
Qed.

(** The value of a key, 0 when it has none. *)
Definition value_of (c : cuckoo) (key v : Z) : Prop :=
  v <> 0 /\ mkSlot key v ∈ contents (tab c) \/
  v = 0 /\ forall s, s ∈ contents (tab c) -> s_key s <> key.

Lemma cuckoo_get_spec c key :
  table_ok (size c) (tab c) -> NoDup (s_key <$> contents (tab c)) ->
  exists v, cuckoo_get c key = Some v /\ value_of c key v.
Proof.
  intros Hok Hnd. unfold cuckoo_get.
  destruct (find_slot_spec c key Hok Hnd) as ([h|] & -> & H); cbn [mbind option_bind].
  2:{ exists 0. split; [done|]. by right. }
  destruct H as (Hh & s & Hs & Hk & Hu). rewrite Hs. cbn [mbind option_bind].
  exists (s_value s). split; [done|]. destruct (decide (s_value s = 0)) as [V|V]; [right|left].
  - split; [done|]. intros s' (Hv & i & Hi)%elem_contents Hk'.
    unfold get_slot in Hs. rewrite (Hu i s' Hi Hv Hk') in Hi. congruence.
  - split; [done|]. apply elem_contents. split; [done|]. exists (Z.to_nat h).
    unfold get_slot in Hs. rewrite Hs. destruct s. simpl in *. by rewrite Hk.
Qed.

Lemma cuckoo_remove_spec c key :
  table_ok (size c) (tab c) -> NoDup (s_key <$> contents (tab c)) ->
  exists v c', cuckoo_remove c key = Some (v, c') /\ value_of c key v /\
    table_ok (size c') (tab c') /\
    contents (tab c) ≡ₚ (if v =? 0 then [] else [mkSlot key v]) ++ contents (tab c').
Proof.
  intros Hok Hnd. destruct (cuckoo_get_spec c key Hok Hnd) as (v & Hg & Hv).
  unfold cuckoo_get in Hg. unfold cuckoo_remove.
  destruct (find_slot_spec c key Hok Hnd) as ([h|] & E & H); rewrite E in *; cbn [mbind option_bind] in *.
  - destruct H as (Hh & s & Hs & Hk & _). rewrite Hs in *. cbn [mbind option_bind] in *.
    injection Hg as <-. eexists _, _. split; [done|]. split_and!; [done| |]; simpl.
    + apply set_slot_ok; [done..|]. by left.
    + pose proof (set_slot_contents _ _ _ null_slot Hs) as Hp.
      rewrite (contents_null null_slot) in Hp by done. simpl in Hp. rewrite <- Hp.
      destruct (Z.eqb_spec (s_value s) 0) as [V|V]; [by rewrite contents_null|].
      rewrite contents_cons by done. destruct s. simpl in *. by subst.
  - injection Hg as <-. eexists _, _. split; [done|]. done.
Qed.

(** ** Properties *)

(** Inserting a key that is present. *)
Lemma insert_present zalloc k c key value :
  table_ok (size c) (tab c) -> value <> 0 -> key ∈ s_key <$> contents (tab c) ->
  exists s0, get_slot (tab c) (hash_mod (size c) key) = Some s0 /\
    (s_value s0 <> 0 -> cuckoo_insert zalloc c key value k = Some (c, EINVAL, k)) /\
    (s_value s0 = 0 -> exists c', cuckoo_insert zalloc c key value k = Some (c', 0, k) /\
       size c' = size c /\ contents (tab c') ≡ₚ mkSlot key value :: contents (tab c)).
Proof.
  intros Hok Hv (s & Hsk & (Hsv & i & Hi)%elem_contents)%list_elem_of_fmap. pose proof Hok as [Hl Hsz Hp _].
  pose proof (hash_range 0 (size c) key Hsz) as R0. pose proof (hash_range 1 (size c) key Hsz) as R1.
  destruct (get_slot_hash 0 _ _ key Hok) as [s0 E0]. exists s0. split; [done|].
  unfold cuckoo_insert, MAX_GROWS. cbn [insert_loop]. unfold MAX_INSERTS. cbn [cuckoo_insert_try s_key].
  rewrite (proj2 (Z.eqb_neq (size c) 0)) by lia. rewrite E0. cbn [mbind option_bind]. split; intros V0.
  - rewrite (proj2 (Z.eqb_neq _ _)) by done.
    destruct (Z.eqb_spec (s_key s0) key) as [K0|K0]; [by destruct c|].
    assert (get_slot (tab c) (hash_funcs 1 (size c) key) = Some s) as ->.
    { unfold get_slot in *. destruct (Hp i s Hi Hsv) as [H|H]; rewrite <- Hsk in H.
      - exfalso. apply K0. replace (Z.to_nat (hash_funcs 0 (size c) key)) with i in E0 by (simpl; lia).
        congruence.
      - replace (Z.to_nat (hash_funcs 1 (size c) key)) with i by (simpl; lia). done. }
    cbn [mbind option_bind]. rewrite (proj2 (Z.eqb_neq (s_value s) 0)), <- Hsk, Z.eqb_refl by done.
    by destruct c.
  - rewrite V0. simpl Z.eqb. cbn match. eexists. split; [reflexivity|]. split; [done|].
    pose proof (set_slot_contents _ _ _ (mkSlot key value) E0) as H.
    by rewrite (contents_null s0 V0), contents_cons in H.
Qed.

(** C18: on a table with one slot per key, [cuckoo_get] and [cuckoo_remove] stay
    within the table and return the value of the key or 0, and removal takes out
    exactly that pair.  [cuckoo_insert] of an absent key always returns, within the
    table, and either adds exactly the new pair, leaving a table of the same kind,
    or fails with one pair missing from the old contents and the new pair
    together.  [cuckoo_insert] of a key that is present is refused and changes
    nothing, provided that the first slot of the key is in use; otherwise the key is
    stored a second time. *)
Theorem cuckoo_map zalloc k c :
  bounded_memory zalloc -> table_ok (size c) (tab c) -> NoDup (s_key <$> contents (tab c)) ->
  (forall key, exists v, cuckoo_get c key = Some v /\ value_of c key v) /\
  (forall key, exists v c', cuckoo_remove c key = Some (v, c') /\ value_of c key v /\
     table_ok (size c') (tab c') /\ NoDup (s_key <$> contents (tab c')) /\
     contents (tab c) ≡ₚ (if v =? 0 then [] else [mkSlot key v]) ++ contents (tab c')) /\
  (forall key value, value <> 0 -> key ∉ s_key <$> contents (tab c) ->
   exists c' err k', cuckoo_insert zalloc c key value k = Some (c', err, k') /\
    (err = 0 /\ table_ok (size c') (tab c') /\ NoDup (s_key <$> contents (tab c')) /\
       contents (tab c') ≡ₚ mkSlot key value :: contents (tab c) \/
     err <> 0 /\ exists s, s :: contents (tab c') ≡ₚ mkSlot key value :: contents (tab c))) /\
  (forall key value, value <> 0 -> key ∈ s_key <$> contents (tab c) ->
   exists s0, get_slot (tab c) (hash_mod (size c) key) = Some s0 /\
    (s_value s0 <> 0 -> cuckoo_insert zalloc c key value k = Some (c, EINVAL, k)) /\
    (s_value s0 = 0 -> exists c', cuckoo_insert zalloc c key value k = Some (c', 0, k) /\
       size c' = size c /\ contents (tab c') ≡ₚ mkSlot key value :: contents (tab c))).
Proof.
  intros Hmem Hok Hnd. split_and!.
  - intros key. by apply cuckoo_get_spec.
  - intros key. destruct (cuckoo_remove_spec c key Hok Hnd) as (v & c' & E & Hval & Hok' & Hp).
    exists v, c'. split_and!; try done. rewrite Hp, fmap_app in Hnd. by apply NoDup_app in Hnd as (_ & _ & ?).
  - intros key value Hv Hkey. destruct (insert_loop_spec zalloc Hmem MAX_GROWS c (mkSlot key value) k Hok Hv)
      as (c' & err & k' & E & Hor). exists c', err, k'. split; [done|].
    destruct Hor as [(-> & Hok' & Hp)|Hor]; [left|by right]. split_and!; try done.
    rewrite Hp. simpl. by apply NoDup_cons.
  - intros key value Hv Hkey. by apply insert_present.
Qed.

(** Memory for tables of at most sixteen slots. *)
Definition small_memory (_ : nat) (bytes : Z) : bool := bytes <=? 256.
Definition empty_table : cuckoo := mkCuckoo 8 (replicate 8 null_slot).

Lemma cuckoo_map_witness :
  exists c' err k', cuckoo_insert small_memory empty_table 8 5 0 = Some (c', err, k') /\
    (err = 0 /\ table_ok (size c') (tab c') /\ NoDup (s_key <$> contents (tab c')) /\
       contents (tab c') ≡ₚ mkSlot 8 5 :: contents (tab empty_table) \/
     err <> 0 /\ exists s, s :: contents (tab c') ≡ₚ mkSlot 8 5 :: contents (tab empty_table)).
Proof.
  apply (cuckoo_map small_memory 0 empty_table).
  - intros k bytes H. unfold small_memory. lia.
  - apply (fresh_table_ok 8). lia.
  - vm_compute. apply NoDup_nil_2.
  - lia.
  - vm_compute. intros H. by apply elem_of_nil in H.
Defined.

(** ** A key inserted twice *)

(** A sequence of insertions that all return 0. *)
Fixpoint inserts (c : cuckoo) (l : list (Z * Z)) : option cuckoo :=
  match l with
  | [] => Some c
  | (key, value) :: l' =>
      '(c', err, _) ← cuckoo_insert small_memory c key value 0;
      if err =? 0 then inserts c' l' else None
  end.

(** The key 16 is stored in its second slot, the key of its first slot is
    removed, and 16 is inserted again: the call succeeds, two values are stored,
    and after a removal the old value is back. *)
Lemma cuckoo_inserts_twice :
  (c ← inserts empty_table [(8, 5); (16, 7)];
   '(_, c1) ← cuckoo_remove c 8;
   c2 ← inserts c1 [(16, 9)];
   '(v, c3) ← cuckoo_remove c2 16;
   v' ← cuckoo_get c3 16;
   Some (contents (tab c2), v, v')) =
  Some ([mkSlot 16 9; mkSlot 16 7], 9, 7).
Proof. vm_compute. reflexivity. Qed.

(** Growing such a table never succeeds: when memory runs out on the way, the
    size stays doubled over the old table, and the next access is out of it. *)
Lemma cuckoo_twice_grows :
  (c ← inserts empty_table [(8, 5); (16, 7)];
   '(_, c1) ← cuckoo_remove c 8;
   c2 ← inserts c1 [(16, 9); (41, 3); (73, 3)];
   '(c3, err, _) ← cuckoo_insert small_memory c2 137 3 0;
   Some (err, size c3, length (tab c3), cuckoo_get c3 15)) =
  Some (ENOMEM, 16, 8%nat, None).
Proof. vm_compute. reflexivity. Qed.
