(* ===== verification/Pvector.v ===== *)
(** * Persistent vectors: [nvml/src/libpmemobj/pvector.c]

    A vector that never moves its elements: an array of offsets of arrays whose
    sizes double, the first one embedded in the vector.  Zero marks an unused
    element or array.  The heap and its allocator are an interface ([Palloc]): a
    word memory with the list of live objects, [pmalloc_construct] (with the
    constructor that zeroes the object) and [pfree], and what the vector relies
    on; [bump] is an instance.

    The theorems relate the vector to the list of its values: the position
    arithmetic is a bijection, initialisation counts the values (also after an
    interrupted push), pushing and popping work at the end of the list, and the
    iterator visits the values in order. *)

From S2P Require Import Prelude.

Definition PVECTOR_INIT_SHIFT : Z := 3.
Definition PVECTOR_INIT_SIZE : Z := Z.shiftl 1 PVECTOR_INIT_SHIFT.
Definition PVECTOR_MAX_ARRAYS : nat := 20.

(** ** The heap *)

Class Palloc (heap : Type) := {
  rd : heap -> Z -> Z;
  wr : heap -> Z -> Z -> heap;
  (** the live objects: address and size in bytes *)
  live : heap -> list (Z * Z);
  (** [pmalloc_construct(pop, dest, size, pvector_array_constr)] and
      [pfree(pop, dest)], with [dest] the address of an offset *)
  pmalloc_construct : heap -> Z -> Z -> option heap;
  pfree : heap -> Z -> heap;
}.

Definition in_object (o : Z * Z) (x : Z) : Prop := o.1 <= x < o.1 + o.2.

(** [pool] is the address of the pool, which offsets are relative to. *)
Class PallocLaws (heap : Type) `{Palloc heap} (pool : Z) := {
  rd_wr h a v x : rd (wr h a v) x = if x =? a then v else rd h x;
  live_wr h a v : live (wr h a v) = live h;
  (** an allocation stores a new offset at [dest] and changes nothing else that
      is live; the object is zero *)
  alloc_Some h dest n h' : 0 < n -> pmalloc_construct h dest n = Some h' ->
    rd h' dest <> 0 /\ live h' = (pool + rd h' dest, n) :: live h /\
    (forall o x, o ∈ live h -> in_object o x -> ~ in_object (pool + rd h' dest, n) x) /\
    (forall x, in_object (pool + rd h' dest, n) x -> rd h' x = 0) /\
    (forall o x, o ∈ live h -> in_object o x -> x <> dest -> rd h' x = rd h x);
  (** a release clears the offset and the object, and nothing else that is live *)
  free_spec h dest o : o ∈ live h -> o.1 = pool + rd h dest ->
    rd (pfree h dest) dest = 0 /\
    (forall o', o' ∈ live h -> o'.1 <> o.1 -> o' ∈ live (pfree h dest)) /\
    (forall o' x, o' ∈ live h -> o'.1 <> o.1 -> in_object o' x -> x <> dest -> rd (pfree h dest) x = rd h x);
}.

(** ** The code *)

Record pvector_context := mkContext_p { nvalues : Z; iter : Z }.

(** [vec->arrays[i]] and [vec->embedded]. *)
Definition arrays (vec : Z) (i : Z) : Z := vec + 8 * i.
Definition embedded (vec : Z) : Z := vec + 8 * Z.of_nat PVECTOR_MAX_ARRAYS.

Definition find_highest_bit (value : Z) : Z := Z.log2 value.

Record array_spec := mkSpec { idx : Z; pos : Z }.

Definition pvector_get_array_spec (i : Z) : array_spec :=
  let p := u64 (i + PVECTOR_INIT_SIZE) in
  let hbit := find_highest_bit p in
  mkSpec (hbit - PVECTOR_INIT_SHIFT) (Z.lxor p (Z.shiftl 1 hbit)).

Section Vector.
Context {heap : Type} `{Palloc heap} (pool : Z) (vec : Z).

Definition OBJ_OFF_TO_PTR (off : Z) : Z := pool + off.

(** The loop over the arrays from [n] on: their number and the values counted. *)
Fixpoint count_arrays (h : heap) (fuel : nat) (n count : Z) : Z * Z :=
  match fuel with
  | O => (n, count)
  | S fuel' =>
      if rd h (arrays vec n) =? 0 then (n, count) else
      count_arrays h fuel' (n + 1)
        (if negb (n =? Z.of_nat PVECTOR_MAX_ARRAYS - 1) && negb (rd h (arrays vec (n + 1)) =? 0)
         then count + Z.shiftl 1 (n + PVECTOR_INIT_SHIFT) else count)
  end.

(** The loop over the last array. *)
Fixpoint count_values (h : heap) (fuel : nat) (arrp n : Z) : Z :=
  match fuel with
  | O => n
  | S fuel' => if rd h (arrp + 8 * n) =? 0 then n else count_values h fuel' arrp (n + 1)
  end.

Definition pvector_init (malloc : bool) (h : heap) : option pvector_context * heap :=
  if malloc then
    let '(narrays, count) := count_arrays h PVECTOR_MAX_ARRAYS 0 0 in
    if negb (narrays =? 0) then
      let last_array := narrays - 1 in
      let arr_size := Z.shiftl 1 (last_array + PVECTOR_INIT_SHIFT) in
      let arrp := OBJ_OFF_TO_PTR (rd h (arrays vec last_array)) in
      let n := count_values h (Z.to_nat arr_size) arrp 0 in
      if (n =? 0) && negb (last_array =? 0)
      then (Some (mkContext_p count 0), pfree h (arrays vec last_array))
      else (Some (mkContext_p (count + n) 0), h)
    else (Some (mkContext_p count 0), h)
  else (None, h).

(** [util_is_zeroed(vec, sizeof( *vec))]. *)
Definition vec_is_zeroed (h : heap) : bool :=
  forallb (fun i => rd h (vec + 8 * Z.of_nat i) =? 0) (seq 0 (PVECTOR_MAX_ARRAYS + 8)).

(** The context, the heap and the address of the new element; [None] inside is
    the null pointer, [None] outside a failed assertion. *)
Definition pvector_push_back (ctx : pvector_context) (h : heap) :
    option (pvector_context * heap * option Z) :=
  let s := pvector_get_array_spec (nvalues ctx) in
  if Z.of_nat PVECTOR_MAX_ARRAYS <=? idx s then Some (ctx, h, None) else
  let done h' :=
    Some (mkContext_p (nvalues ctx + 1) (iter ctx), h',
          Some (OBJ_OFF_TO_PTR (rd h' (arrays vec (idx s))) + 8 * pos s)) in
  if rd h (arrays vec (idx s)) =? 0 then
    if idx s =? 0 then
      if vec_is_zeroed h then done (wr h (arrays vec 0) (embedded vec - pool)) else None
    else
      match pmalloc_construct h (arrays vec (idx s)) (8 * Z.shiftl 1 (idx s + PVECTOR_INIT_SHIFT)) with
      | Some h' => done h'
      | None => Some (ctx, h, None)
      end
  else done h.

(** [cb] is the callback of the caller. *)
Definition pvector_pop_back (ctx : pvector_context) (cb : option (heap -> Z -> heap)) (h : heap) :
    pvector_context * heap * Z :=
  if nvalues ctx =? 0 then (ctx, h, 0) else
  let s := pvector_get_array_spec (nvalues ctx - 1) in
  let slot := OBJ_OFF_TO_PTR (rd h (arrays vec (idx s))) + 8 * pos s in
  let ret := rd h slot in
  let h1 := match cb with Some f => f h slot | None => h end in
  let h2 := if (pos s =? 0) && negb (idx s =? 0) then pfree h1 (arrays vec (idx s)) else h1 in
  (mkContext_p (nvalues ctx - 1) (iter ctx), h2, ret).

Definition pvector_nvalues (ctx : pvector_context) : Z := nvalues ctx.

Definition pvector_get (h : heap) (i : Z) : Z :=
  let s := pvector_get_array_spec i in
  rd h (OBJ_OFF_TO_PTR (rd h (arrays vec (idx s))) + 8 * pos s).

Definition pvector_first (ctx : pvector_context) (h : heap) : pvector_context * Z :=
  if nvalues ctx =? 0 then (ctx, 0) else (mkContext_p (nvalues ctx) 0, pvector_get h 0).

Definition pvector_last (ctx : pvector_context) (h : heap) : pvector_context * Z :=
  if nvalues ctx =? 0 then (ctx, 0)
  else (mkContext_p (nvalues ctx) (nvalues ctx - 1), pvector_get h (nvalues ctx - 1)).

Definition pvector_prev (ctx : pvector_context) (h : heap) : pvector_context * Z :=
  if iter ctx =? 0 then (ctx, 0)
  else (mkContext_p (nvalues ctx) (iter ctx - 1), pvector_get h (iter ctx - 1)).

(** [iter == nvalues - 1], the difference of two [size_t]. *)
Definition pvector_next (ctx : pvector_context) (h : heap) : pvector_context * Z :=
  if iter ctx =? u64 (nvalues ctx - 1) then (ctx, 0)
  else (mkContext_p (nvalues ctx) (iter ctx + 1), pvector_get h (iter ctx + 1)).

End Vector.

(** ** Positions *)

(** The index of the first element of array [i]. *)
Definition base (i : Z) : Z := 8 * (2 ^ i - 1).

Lemma base_succ i : 0 <= i -> base (i + 1) = base i + 2 ^ (i + 3).
Proof. intros H. unfold base. rewrite !Z.pow_add_r by lia. lia. Qed.

Lemma base_mono i j : 0 <= i <= j -> base i <= base j.
Proof. intros H. unfold base. pose proof (Z.pow_le_mono_r 2 i j). lia. Qed.

Lemma base_lt i j : 0 <= i < j -> base i + 2 ^ (i + 3) <= base j.
Proof. intros H. rewrite <- base_succ by lia. apply base_mono. lia. Qed.

Lemma position_inj i p j q :
  0 <= i -> 0 <= j -> 0 <= p < 2 ^ (i + 3) -> 0 <= q < 2 ^ (j + 3) ->
  base i + p = base j + q -> i = j /\ p = q.
Proof.
  intros Hi Hj Hp Hq E. destruct (Z.lt_trichotomy i j) as [H|[->|H]]; [|split; [done|lia]|].
  - pose proof (base_lt i j ltac:(lia)). lia.
  - pose proof (base_lt j i ltac:(lia)). lia.
Qed.

Lemma shiftl_1 n : 0 <= n -> Z.shiftl 1 n = 2 ^ n.
Proof. intros H. rewrite Z.shiftl_mul_pow2 by done. lia. Qed.

(** Position [p] of array [i], found back from its index. *)
Lemma array_spec_of i p :
  0 <= i -> 0 <= p < 2 ^ (i + 3) -> base i + p + 8 < 2 ^ 64 ->
  pvector_get_array_spec (base i + p) = mkSpec i p.
Proof.
  intros Hi Hp Hmax. unfold pvector_get_array_spec.
  change PVECTOR_INIT_SIZE with 8. unfold find_highest_bit, PVECTOR_INIT_SHIFT.
  assert (E : base i + p + 8 = 2 ^ (i + 3) + p).
  { unfold base. rewrite Z.pow_add_r by lia. lia. }
  rewrite u64_small by (unfold base in *; pose proof (Z.pow_pos_nonneg 2 i); lia).
  assert (El : Z.log2 (2 ^ (i + 3) + p) = i + 3).
  { apply Z.log2_unique; [lia|]. rewrite Z.pow_succ_r by lia. lia. }
  rewrite E, El. f_equal; [lia|]. rewrite shiftl_1 by lia.
  assert (Hland : Z.land (2 ^ (i + 3)) p = 0).
  { apply Z.bits_inj'. intros n Hn. rewrite Z.land_spec, Z.bits_0.
    destruct (decide (n = i + 3)) as [->|Hne]; [|rewrite Z.pow2_bits_false by done; done].
    rewrite andb_comm. destruct (decide (p = 0)) as [->|Hp0]; [by rewrite Z.bits_0|].
    rewrite Z.bits_above_log2; [done|lia|]. apply Z.log2_lt_pow2; lia. }
  rewrite Z.add_nocarry_lxor by done.
  by rewrite (Z.lxor_comm (2 ^ (i + 3)) p), Z.lxor_assoc, Z.lxor_nilpotent, Z.lxor_0_r.
Qed.

Lemma array_spec_inv n :
  0 <= n -> exists i p, 0 <= i /\ 0 <= p < 2 ^ (i + 3) /\ n = base i + p.
Proof.
  intros Hn. pose proof (Z.log2_spec (n + 8)) as Hl. specialize (Hl ltac:(lia)).
  assert (Hge : 3 <= Z.log2 (n + 8)) by (apply (Z.log2_le_mono 8); lia).
  set (L := Z.log2 (n + 8)) in *. exists (L - 3), (n + 8 - 2 ^ L). split; [lia|].
  replace (L - 3 + 3) with L by lia.
  rewrite Z.pow_succ_r in Hl by lia. split; [lia|].
  unfold base. replace (2 ^ L) with (2 ^ (L - 3) * 8).
  - lia.
  - change 8 with (2 ^ 3). rewrite <- Z.pow_add_r by lia. f_equal. lia.
Qed.

(** ** Vectors and lists *)

Section Rep.
Context {heap : Type} `{HP : Palloc heap} (pool : Z) `{HL : !PallocLaws heap pool} (vec : Z).

Definition sizeof_pvector : Z := 8 * (Z.of_nat PVECTOR_MAX_ARRAYS + 8).

(** The object of array [i], the vector itself for the embedded one, and its
    element [p]. *)
Definition object (h : heap) (i : Z) : Z * Z :=
  if i =? 0 then (vec, sizeof_pvector) else (pool + rd h (arrays vec i), 8 * 2 ^ (i + 3)).
Definition elem (h : heap) (i p : Z) : Z := pool + rd h (arrays vec i) + 8 * p.

(** The vector holds the values [xs] in its first [k] arrays; the last one may be
    empty. *)
Record rep (h : heap) (xs : list Z) (k : Z) : Prop := {
  rep_k : 0 <= k <= 20;
  rep_vec : (vec, sizeof_pvector) ∈ live h;
  rep_some i : 0 <= i < k -> rd h (arrays vec i) <> 0;
  rep_none i : k <= i < 20 -> rd h (arrays vec i) = 0;
  rep_first : 0 < k -> rd h (arrays vec 0) = embedded vec - pool;
  rep_live i : 0 < i < k -> object h i ∈ live h;
  rep_disj i j x : 0 <= i < k -> 0 <= j < k -> i <> j ->
    in_object (object h i) x -> ~ in_object (object h j) x;
  rep_len : Z.of_nat (length xs) <= base k /\ (0 < k -> base (k - 1) <= Z.of_nat (length xs));
  rep_val i p : 0 <= i < k -> 0 <= p < 2 ^ (i + 3) ->
    rd h (elem h i p) = default 0 (xs !! Z.to_nat (base i + p));
  rep_nonzero : Forall (fun v => v <> 0) xs;
  rep_zero x : k = 0 -> vec <= x < vec + sizeof_pvector -> rd h x = 0;
}.

(** No array is allocated that is not needed. *)
Definition tight (xs : list Z) (k : Z) : Prop := 1 < k -> base (k - 1) < Z.of_nat (length xs).

Lemma arrays_in_vec i : 0 <= i < 20 -> in_object (vec, sizeof_pvector) (arrays vec i).
Proof. intros Hi. unfold in_object, sizeof_pvector, arrays, PVECTOR_MAX_ARRAYS. simpl. lia. Qed.

Lemma object_start h i : 0 <= i -> in_object (object h i) (object h i).1.
Proof.
  intros Hi. pose proof (Z.pow_pos_nonneg 2 (i + 3)). unfold in_object, object.
  destruct (Z.eqb_spec i 0); [unfold sizeof_pvector, PVECTOR_MAX_ARRAYS|]; simpl; lia.
Qed.

Lemma elem_in_object h i p k xs :
  rep h xs k -> 0 <= i < k -> 0 <= p < 2 ^ (i + 3) -> in_object (object h i) (elem h i p).
Proof.
  intros R Hi Hp. unfold in_object, object, elem. destruct (Z.eqb_spec i 0) as [->|Hne]; [|simpl; lia].
  rewrite (rep_first _ _ _ R) by lia. unfold embedded, sizeof_pvector, PVECTOR_MAX_ARRAYS. simpl in *. lia.
Qed.

(** The elements are not among the offsets. *)
Lemma elem_not_arrays h i p k xs j :
  rep h xs k -> 0 <= i < k -> 0 <= p < 2 ^ (i + 3) -> 0 <= j < 20 -> elem h i p <> arrays vec j.
Proof.
  intros R Hi Hp Hj E. destruct (decide (i = 0)) as [->|Hne].
  - unfold elem in E. rewrite (rep_first _ _ _ R) in E by lia.
    unfold arrays, embedded, PVECTOR_MAX_ARRAYS in E. simpl in *. lia.
  - apply (rep_disj _ _ _ R i 0 (elem h i p)); [lia..| |].
    + by eapply elem_in_object.
    + rewrite E. unfold object. simpl. by apply arrays_in_vec.
Qed.

Lemma elem_inj h xs k i p i' p' :
  rep h xs k -> 0 <= i < k -> 0 <= p < 2 ^ (i + 3) -> 0 <= i' < k -> 0 <= p' < 2 ^ (i' + 3) ->
  elem h i p = elem h i' p' -> i = i' /\ p = p'.
Proof.
  intros R Hi Hp Hi' Hp' E. destruct (decide (i = i')) as [<-|Hne].
  - unfold elem in E. split; [done|lia].
  - exfalso. apply (rep_disj _ _ _ R i i' (elem h i p)); [lia..|by eapply elem_in_object|].
    rewrite E. by eapply elem_in_object.
Qed.

Lemma pvector_get_rep h xs k i v :
  rep h xs k -> xs !! i = Some v -> pvector_get pool vec h (Z.of_nat i) = v.
Proof.
  intros R Hv. pose proof (lookup_lt_Some _ _ _ Hv) as Hlt. pose proof (rep_len _ _ _ R) as [Hle _].
  destruct (array_spec_inv (Z.of_nat i)) as (a & p & Ha & Hp & E); [lia|].
  assert (Hak : a < k).
  { destruct (Z.lt_ge_cases a k) as [|Hge]; [done|].
    pose proof (rep_k _ _ _ R). pose proof (base_mono k a). lia. }
  pose proof (rep_k _ _ _ R) as Hk.
  assert (Hmax : base a + p + 8 < 2 ^ 64).
  { pose proof (base_mono k 20). change (base 20) with 8388600 in *. lia. }
  unfold pvector_get. rewrite E, array_spec_of by done. simpl.
  pose proof (rep_val _ _ _ R a p ltac:(lia) Hp) as Hval. unfold elem in Hval.
  unfold OBJ_OFF_TO_PTR. rewrite Hval, <- E, Nat2Z.id, Hv. done.
Qed.

(** Storing the next value. *)
Lemma rep_store h xs k i p v :
  rep h xs k -> 0 <= i < k -> 0 <= p < 2 ^ (i + 3) -> base i + p = Z.of_nat (length xs) -> v <> 0 ->
  rep (wr h (elem h i p) v) (xs ++ [v]) k /\ tight (xs ++ [v]) k.
Proof.
  intros R Hi Hp En Hv. set (a := elem h i p).
  assert (Harr : forall j, 0 <= j < 20 -> rd (wr h a v) (arrays vec j) = rd h (arrays vec j)).
  { intros j Hj. rewrite rd_wr. destruct (Z.eqb_spec (arrays vec j) a) as [E|]; [|done].
    by destruct (elem_not_arrays h i p k xs j R Hi Hp Hj). }
  pose proof (rep_k _ _ _ R) as Hk.
  assert (Hobj : forall j, 0 <= j < 20 -> object (wr h a v) j = object h j).
  { intros j Hj. unfold object. by rewrite Harr. }
  assert (Hik : i = k - 1).
  { destruct (rep_len _ _ _ R) as [_ Hlen]. destruct (decide (i = k - 1)); [done|].
    pose proof (base_lt i (k - 1) ltac:(lia)). lia. }
  split.
  - split; rewrite ?length_app, ?live_wr; try apply R.
    + intros j Hj. rewrite Harr by lia. by apply R.
    + intros j Hj. rewrite Harr by lia. by apply R.
    + intros Hj. rewrite Harr by lia. by apply R.
    + intros j Hj. rewrite Hobj by lia. by apply R.
    + intros j j' x Hj Hj'. rewrite !Hobj by lia. by apply (rep_disj _ _ _ R).
    + simpl. pose proof (base_succ i). replace (i + 1) with k in * by lia.
      pose proof (rep_len _ _ _ R). split; [lia|]. intros _. replace (k - 1) with i by lia. lia.
    + intros j q Hj Hq. assert (Ee : elem (wr h a v) j q = elem h j q) by (unfold elem; by rewrite Harr by lia).
      rewrite Ee, rd_wr. destruct (Z.eqb_spec (elem h j q) a) as [E|Hne].
      * apply (elem_inj h xs k) in E as [-> ->]; [|done..].
        rewrite En, Nat2Z.id, lookup_app_r, Nat.sub_diag by lia. done.
      * rewrite (rep_val _ _ _ R j q) by done.
        destruct (decide (base j + q = Z.of_nat (length xs))) as [E|E].
        { destruct Hne. destruct (position_inj j q i p) as [-> ->]; [lia..|done]. }
        assert (0 <= base j) by (pose proof (base_mono 0 j); change (base 0) with 0 in *; lia).
        destruct (decide (base j + q < Z.of_nat (length xs))).
        { by rewrite lookup_app_l by lia. }
        rewrite !lookup_ge_None_2; [done|rewrite length_app; simpl; lia|lia].
    + apply Forall_app. split; [apply R|]. by constructor.
    + intros x Hk0. lia.
  - intros Hk1. rewrite length_app. simpl. replace (k - 1) with i by lia. lia.
Qed.

(** The embedded array becomes the first one. *)
Lemma rep_embed h :
  rep h [] 0 -> embedded vec - pool <> 0 -> rep (wr h (arrays vec 0) (embedded vec - pool)) [] 1.
Proof.
  intros R Hne. pose proof (rep_zero _ _ _ R) as Hz.
  assert (Hother : forall x, x <> arrays vec 0 -> vec <= x < vec + sizeof_pvector ->
    rd (wr h (arrays vec 0) (embedded vec - pool)) x = 0).
  { intros x Hx Hr. rewrite rd_wr, (proj2 (Z.eqb_neq _ _) Hx). by apply Hz. }
  assert (H0 : rd (wr h (arrays vec 0) (embedded vec - pool)) (arrays vec 0) = embedded vec - pool).
  { rewrite rd_wr. by rewrite Z.eqb_refl. }
  split; rewrite ?live_wr; try apply R; try done; try lia.
  - intros i Hi. assert (i = 0) as -> by lia. by rewrite H0.
  - intros i Hi. apply Hother; [unfold arrays; lia|]. apply arrays_in_vec. lia.
  - intros i p Hi Hp. assert (i = 0) as -> by lia. simpl. unfold elem. rewrite H0.
    apply Hother; unfold arrays, embedded, sizeof_pvector, PVECTOR_MAX_ARRAYS in *; simpl in *; lia.
Qed.

(** A new array after the full ones. *)
Lemma rep_grow h h' xs k :
  rep h xs k -> 0 < k < 20 -> Z.of_nat (length xs) = base k ->
  pmalloc_construct h (arrays vec k) (8 * 2 ^ (k + 3)) = Some h' -> rep h' xs (k + 1).
Proof.
  intros R Hk Hlen E. assert (Hpos : 0 < 2 ^ (k + 3)) by (apply Z.pow_pos_nonneg; lia).
  destruct (alloc_Some h (arrays vec k) (8 * 2 ^ (k + 3)) h' ltac:(lia) E) as (Hnz & Hlive & Hdis & Hzero & Hkeep).
  pose proof (rep_vec _ _ _ R) as Hvec.
  assert (Harr : forall j, 0 <= j < 20 -> j <> k -> rd h' (arrays vec j) = rd h (arrays vec j)).
  { intros j Hj Hjk. apply Hkeep with (vec, sizeof_pvector); [done|by apply arrays_in_vec|unfold arrays; lia]. }
  assert (Hobj : forall j, 0 <= j < k -> object h' j = object h j).
  { intros j Hj. unfold object. by rewrite Harr by lia. }
  assert (Hobj' : object h' k = (pool + rd h' (arrays vec k), 8 * 2 ^ (k + 3))).
  { unfold object. by rewrite (proj2 (Z.eqb_neq k 0)) by lia. }
  assert (Hlv : forall j, 0 <= j < k -> object h j ∈ live h).
  { intros j Hj. destruct (decide (j = 0)) as [->|]; [done|apply R; lia]. }
  assert (Hnew : forall j x, 0 <= j < k -> in_object (object h j) x -> ~ in_object (object h' k) x).
  { intros j x Hj Hx. rewrite Hobj'. eapply Hdis; [by apply Hlv|done]. }
  split; rewrite ?Hlive; try apply R; try lia.
  - by right.
  - intros j Hj. destruct (decide (j = k)) as [->|]; [done|]. rewrite Harr by lia. apply R. lia.
  - intros j Hj. rewrite Harr by lia. apply R. lia.
  - intros _. rewrite Harr by lia. apply R. lia.
  - intros j Hj. destruct (decide (j = k)) as [->|]; [rewrite Hobj'; left|].
    rewrite Hobj by lia. right. apply R. lia.
  - intros i j x Hi Hj Hij Hx Hy. destruct (decide (i = k)) as [->|]; [|destruct (decide (j = k)) as [->|]].
    + rewrite (Hobj j) in Hy by lia. apply (Hnew j x); [lia|done..].
    + rewrite (Hobj i) in Hx by lia. apply (Hnew i x); [lia|done..].
    + rewrite Hobj in Hx, Hy by lia. apply (rep_disj _ _ _ R i j x); [lia|lia|done..].
  - rewrite base_succ by lia. replace (k + 1 - 1) with k by lia. lia.
  - intros i p Hi Hp. destruct (decide (i = k)) as [->|Hik].
    + rewrite lookup_ge_None_2 by lia. apply Hzero. unfold in_object, elem. simpl. lia.
    + assert (Ee : elem h' i p = elem h i p) by (unfold elem; by rewrite Harr by lia). rewrite Ee.
      rewrite <- (rep_val _ _ _ R i p) by lia.
      apply Hkeep with (object h i); [apply Hlv; lia|eapply elem_in_object; [done|lia|done]|].
      eapply elem_not_arrays; [done|lia|done|lia].
Qed.

(** Clearing the last value, and releasing an array that has become empty. *)
Lemma rep_clear h xs v k i p :
  rep h (xs ++ [v]) k -> 0 <= i -> i = k - 1 -> 0 <= p < 2 ^ (i + 3) -> base i + p = Z.of_nat (length xs) ->
  rep (wr h (elem h i p) 0) xs k.
Proof.
  intros R Hi0 Hik Hp En. assert (Hi : 0 <= i < k) by lia.
  set (a := elem h i p). pose proof (rep_k _ _ _ R) as Hk.
  assert (Harr : forall j, 0 <= j < 20 -> rd (wr h a 0) (arrays vec j) = rd h (arrays vec j)).
  { intros j Hj. rewrite rd_wr. destruct (Z.eqb_spec (arrays vec j) a) as [E|]; [|done].
    by destruct (elem_not_arrays h i p k (xs ++ [v]) j R Hi Hp Hj). }
  assert (Hobj : forall j, 0 <= j < 20 -> object (wr h a 0) j = object h j).
  { intros j Hj. unfold object. by rewrite Harr. }
  destruct (rep_len _ _ _ R) as [Hle Hge]. rewrite length_app in Hle, Hge. simpl in Hle, Hge.
  assert (Hbase : base (k - 1) <= Z.of_nat (length xs)) by (rewrite <- Hik; lia).
  split; rewrite ?live_wr; try apply R.
  - intros j Hj. rewrite Harr by lia. by apply R.
  - intros j Hj. rewrite Harr by lia. by apply R.
  - intros Hj. rewrite Harr by lia. by apply R.
  - intros j Hj. rewrite Hobj by lia. by apply R.
  - intros j j' x Hj Hj'. rewrite !Hobj by lia. by apply (rep_disj _ _ _ R).
  - split; [lia|done].
  - intros j q Hj Hq. assert (Ee : elem (wr h a 0) j q = elem h j q) by (unfold elem; by rewrite Harr by lia).
    rewrite Ee, rd_wr. destruct (Z.eqb_spec (elem h j q) a) as [E|Hne].
    { apply (elem_inj h (xs ++ [v]) k) in E as [-> ->]; [|done..]. by rewrite lookup_ge_None_2 by lia. }
    rewrite (rep_val _ _ _ R j q) by done.
    assert (0 <= base j) by (pose proof (base_mono 0 j); change (base 0) with 0 in *; lia).
    destruct (decide (base j + q < Z.of_nat (length xs))); [by rewrite lookup_app_l by lia|].
    destruct (decide (base j + q = Z.of_nat (length xs))) as [E|E].
    { destruct Hne. destruct (position_inj j q i p) as [-> ->]; [lia..|done]. }
    rewrite !lookup_ge_None_2; [done|lia|rewrite length_app; simpl; lia].
  - pose proof (rep_nonzero _ _ _ R) as H. by apply Forall_app in H as [? _].
  - intros x Hk0. lia.
Qed.

Lemma rep_release h xs k :
  rep h xs k -> 1 < k -> Z.of_nat (length xs) = base (k - 1) ->
  rep (pfree h (arrays vec (k - 1))) xs (k - 1).
Proof.
  intros R Hk Hlen. pose proof (rep_k _ _ _ R) as Hk20.
  assert (Hobj : object h (k - 1) = (pool + rd h (arrays vec (k - 1)), 8 * 2 ^ (k - 1 + 3))).
  { unfold object. by rewrite (proj2 (Z.eqb_neq (k - 1) 0)) by lia. }
  destruct (free_spec h (arrays vec (k - 1)) (object h (k - 1))) as (H0 & Hl & Hkeep).
  { apply R. lia. } { by rewrite Hobj. }
  assert (Hne : forall j, 0 <= j < k - 1 -> (object h j).1 <> (object h (k - 1)).1).
  { intros j Hj E. apply (rep_disj _ _ _ R j (k - 1) (object h j).1); [lia..| |rewrite E].
    all: apply object_start; lia. }
  set (h' := pfree h (arrays vec (k - 1))) in *.
  assert (Hlv : forall j, 0 <= j < k - 1 -> object h j ∈ live h).
  { intros j Hj. destruct (decide (j = 0)) as [->|]; [apply R|apply R; lia]. }
  assert (Harr : forall j, 0 <= j < 20 -> j <> k - 1 -> rd h' (arrays vec j) = rd h (arrays vec j)).
  { intros j Hj Hjk. apply Hkeep with (object h 0); [apply Hlv; lia|apply Hne; lia|by apply arrays_in_vec|].
    unfold arrays. lia. }
  assert (Hobj' : forall j, 0 <= j < k - 1 -> object h' j = object h j).
  { intros j Hj. unfold object. by rewrite Harr by lia. }
  split; try apply R; try lia.
  - apply Hl; [apply R|]. apply (Hne 0). lia.
  - intros j Hj. rewrite Harr by lia. apply R. lia.
  - intros j Hj. destruct (decide (j = k - 1)) as [->|]; [done|]. rewrite Harr by lia. apply R. lia.
  - intros _. rewrite Harr by lia. apply R. lia.
  - intros j Hj. rewrite Hobj' by lia. apply Hl; [apply R; lia|apply Hne; lia].
  - intros i j x Hi Hj. rewrite !Hobj' by lia. apply (rep_disj _ _ _ R); lia.
  - split; [lia|]. intros _. rewrite Hlen. apply base_mono. lia.
  - intros i p Hi Hp. assert (Ee : elem h' i p = elem h i p) by (unfold elem; by rewrite Harr by lia).
    rewrite Ee, <- (rep_val _ _ _ R i p) by lia.
    apply Hkeep with (object h i); [apply Hlv; lia|apply Hne; lia|eapply elem_in_object; [done|lia|done]|].
    eapply elem_not_arrays; [done|lia|done|lia].
Qed.

(** *** Initialisation *)

Lemma count_arrays_rep h xs k :
  rep h xs k -> forall fuel n count, 0 <= n <= k -> n + Z.of_nat fuel = 20 ->
  count_arrays vec h fuel n count = (k, if n =? k then count else count + base (k - 1) - base n).
Proof.
  intros R. pose proof (rep_k _ _ _ R) as Hk.
  induction fuel as [|fuel IH]; intros n count Hn Hf.
  - assert (k = n) as -> by lia. simpl. by rewrite Z.eqb_refl.
  - cbn [count_arrays]. destruct (Z.eqb_spec n k) as [->|Hne].
    + by rewrite (rep_none _ _ _ R), Z.eqb_refl by lia.
    + rewrite (proj2 (Z.eqb_neq (rd h (arrays vec n)) 0)) by (apply R; lia). rewrite IH by lia.
      change (Z.of_nat PVECTOR_MAX_ARRAYS - 1) with 19. f_equal.
      destruct (Z.eqb_spec (n + 1) k) as [<-|Hne'].
      * replace (n + 1 - 1) with n by lia. destruct (Z.eqb_spec n 19) as [->|]; [simpl; lia|].
        rewrite (rep_none _ _ _ R) by lia. simpl. lia.
      * rewrite (proj2 (Z.eqb_neq n 19)) by lia.
        rewrite (proj2 (Z.eqb_neq (rd h (arrays vec (n + 1))) 0)) by (apply R; lia). cbn [negb andb].
        unfold PVECTOR_INIT_SHIFT. rewrite shiftl_1, base_succ by lia. lia.
Qed.

Lemma count_values_rep h xs i :
  rep h xs (i + 1) -> 0 <= i -> forall fuel n, 0 <= n -> base i + n <= Z.of_nat (length xs) ->
  n + Z.of_nat fuel = 2 ^ (i + 3) ->
  count_values h fuel (pool + rd h (arrays vec i)) n = Z.of_nat (length xs) - base i.
Proof.
  intros R Hi. destruct (rep_len _ _ _ R) as [Hle _]. rewrite base_succ in Hle by done.
  induction fuel as [|fuel IH]; intros n Hn Hlen Hf; [simpl; lia|]. cbn [count_values].
  change (pool + rd h (arrays vec i) + 8 * n) with (elem h i n).
  rewrite (rep_val _ _ _ R i n) by lia. pose proof (base_mono 0 i ltac:(lia)) as Hb.
  change (base 0) with 0 in Hb. destruct (decide (base i + n = Z.of_nat (length xs))) as [E|E].
  - rewrite lookup_ge_None_2 by lia. simpl. lia.
  - destruct (lookup_lt_is_Some_2 xs (Z.to_nat (base i + n)) ltac:(lia)) as [v Hv]. rewrite Hv. simpl.
    pose proof (proj1 (Forall_lookup _ _) (rep_nonzero _ _ _ R) _ _ Hv) as Hnz. simpl in Hnz.
    rewrite (proj2 (Z.eqb_neq v 0) Hnz). apply IH; lia.
Qed.

Lemma pvector_init_rep h xs k :
  rep h xs k -> exists h' k',
    pvector_init pool vec true h = (Some (mkContext_p (Z.of_nat (length xs)) 0), h') /\
    rep h' xs k' /\ tight xs k'.
Proof.
  intros R. unfold pvector_init. pose proof (rep_k _ _ _ R) as Hk. destruct (rep_len _ _ _ R) as [Hle Hge].
  rewrite (count_arrays_rep h xs k R) by (unfold PVECTOR_MAX_ARRAYS; lia).
  rewrite (Z.eqb_sym 0 k). destruct (Z.eqb_spec k 0) as [->|Hk0]; cbn [negb].
  { exists h, 0. change (base 0) with 0 in Hle. replace (Z.of_nat (length xs)) with 0 by lia.
    split_and!; [done..|]. intros ?. lia. }
  unfold PVECTOR_INIT_SHIFT. rewrite shiftl_1 by lia. unfold OBJ_OFF_TO_PTR.
  rewrite (count_values_rep h xs (k - 1)); rewrite ?Z2Nat.id; try lia.
  2: { by replace (k - 1 + 1) with k by lia. }
  change (base 0) with 0. rewrite Z.sub_0_r, Z.add_0_l. 
  destruct (Z.eqb_spec (Z.of_nat (length xs) - base (k - 1)) 0) as [E|E]; cbn [andb].
  - destruct (Z.eqb_spec (k - 1) 0) as [E1|E1]; cbn [negb].
    + exists h, k. split_and!; [repeat f_equal; lia|done|]. intros ?. lia.
    + exists (pfree h (arrays vec (k - 1))), (k - 1).
      split_and!; [repeat f_equal; lia|apply rep_release; [done|lia..]|].
      intros ?. pose proof (base_lt (k - 1 - 1) (k - 1) ltac:(lia)).
      pose proof (Z.pow_pos_nonneg 2 (k - 1 - 1 + 3)). lia.
  - exists h, k. split_and!; [repeat f_equal; lia|done|]. intros ?. lia.
Qed.

(** *** Pushing and popping *)

Lemma vec_is_zeroed_rep h : rep h [] 0 -> vec_is_zeroed vec h = true.
Proof.
  intros R. apply forallb_forall. intros i Hi. apply in_seq in Hi. apply Z.eqb_eq, (rep_zero _ _ _ R); [done|].
  unfold sizeof_pvector, PVECTOR_MAX_ARRAYS in *. lia.
Qed.

(** The position after the last value: in the last array, or the first of the
    next one. *)
Lemma rep_next h xs k i p :
  rep h xs k -> 0 <= i -> 0 <= p < 2 ^ (i + 3) -> Z.of_nat (length xs) = base i + p ->
  (0 < k /\ i = k - 1) \/ (i = k /\ p = 0).
Proof.
  intros R Hi Hp E. destruct (rep_len _ _ _ R) as [Hle Hge]. pose proof (rep_k _ _ _ R) as Hk.
  destruct (Z.lt_trichotomy i k) as [H|[->|H]].
  - left. split; [lia|]. destruct (decide (i = k - 1)); [done|].
    pose proof (base_lt i (k - 1) ltac:(lia)). lia.
  - right. lia.
  - pose proof (base_lt k i ltac:(lia)). pose proof (Z.pow_pos_nonneg 2 (k + 3)). lia.
Qed.

(** What a push does: nothing when the vector is full or the allocator fails;
    otherwise it returns the address of the next element, and the vector is the
    same until the caller stores a value there. *)
Definition pushes (h : heap) (xs : list Z) (it : Z) : Prop :=
  let ctx := mkContext_p (Z.of_nat (length xs)) it in
  (Z.of_nat (length xs) = base 20 /\ pvector_push_back pool vec ctx h = Some (ctx, h, None)) \/
  (exists i, 0 < i < 20 /\ Z.of_nat (length xs) = base i /\
    pmalloc_construct h (arrays vec i) (8 * 2 ^ (i + 3)) = None /\
    pvector_push_back pool vec ctx h = Some (ctx, h, None)) \/
  (exists h' a k', pvector_push_back pool vec ctx h =
      Some (mkContext_p (Z.of_nat (length xs) + 1) it, h', Some a) /\
    rep h' xs k' /\
    forall v, v <> 0 -> rep (wr h' a v) (xs ++ [v]) k' /\ tight (xs ++ [v]) k').

Lemma pvector_push_back_rep h xs k it :
  rep h xs k -> embedded vec - pool <> 0 -> pushes h xs it.
Proof.
  intros R Hne. pose proof (rep_k _ _ _ R) as Hk. destruct (rep_len _ _ _ R) as [Hle _].
  destruct (array_spec_inv (Z.of_nat (length xs))) as (i & p & Hi & Hp & E); [lia|].
  pose proof (base_mono k 20 ltac:(lia)) as H20. change (base 20) with 8388600 in H20.
  unfold pushes, pvector_push_back. cbn [nvalues iter].
  rewrite E, array_spec_of by lia. cbn [idx pos]. change (Z.of_nat PVECTOR_MAX_ARRAYS) with 20.
  unfold PVECTOR_INIT_SHIFT, OBJ_OFF_TO_PTR.
  destruct (rep_next h xs k i p R Hi Hp E) as [[Hk0 ->]|[-> ->]].
  - right. right. rewrite (proj2 (Z.leb_gt 20 (k - 1))) by lia.
    rewrite (proj2 (Z.eqb_neq (rd h (arrays vec (k - 1))) 0)) by (apply R; lia).
    exists h, (elem h (k - 1) p), k. split_and!; [done..|]. intros v Hv. apply rep_store; [done|lia..].
  - rewrite Z.add_0_r in *. destruct (Z.leb_spec 20 k) as [H|H].
    { left. assert (k = 20) as -> by lia. done. }
    rewrite (rep_none _ _ _ R k), Z.eqb_refl by lia. destruct (Z.eqb_spec k 0) as [->|Hk0].
    + right. right. assert (xs = []) as -> by (destruct xs; [done|simpl in E; change (base 0) with 0 in E; lia]).
      rewrite vec_is_zeroed_rep by done. pose proof (rep_embed h R Hne) as R'.
      eexists _, _, 1. split_and!; [done|done|]. intros v Hv.
      apply (rep_store _ [] 1 0 0 v R'); [lia|lia|done|done].
    + rewrite shiftl_1 by lia. destruct (pmalloc_construct h (arrays vec k) (8 * 2 ^ (k + 3))) as [h'|] eqn:Ea.
      * right. right. pose proof (rep_grow h h' xs k R ltac:(lia) E Ea) as R'.
        exists h', (elem h' k 0), (k + 1). split_and!; [done..|]. intros v Hv.
        apply rep_store; [done|lia..].
      * right. left. exists k. split_and!; first [done | lia].
Qed.

(** The callback that a caller of [pvector_pop_back] passes clears the value. *)
Definition clear (h : heap) (a : Z) : heap := wr h a 0.

Lemma pvector_pop_back_rep h xs v k it :
  rep h (xs ++ [v]) k -> tight (xs ++ [v]) k -> exists h' k',
    pvector_pop_back pool vec (mkContext_p (Z.of_nat (length xs) + 1) it) (Some clear) h =
      (mkContext_p (Z.of_nat (length xs)) it, h', v) /\ rep h' xs k' /\ tight xs k'.
Proof.
  intros R T. pose proof (rep_k _ _ _ R) as Hk. destruct (rep_len _ _ _ R) as [Hle Hge].
  unfold tight in *. rewrite length_app in *. simpl in Hle, Hge, T.
  destruct (array_spec_inv (Z.of_nat (length xs))) as (i & p & Hi & Hp & E); [lia|].
  pose proof (base_mono k 20 ltac:(lia)) as H20. change (base 20) with 8388600 in H20.
  assert (Hk0 : 0 < k). { destruct (decide (k = 0)) as [->|]; [change (base 0) with 0 in Hle|]; lia. }
  assert (Hik : i = k - 1).
  { destruct (Z.lt_trichotomy i (k - 1)) as [H|[H|H]]; [|done|].
    - pose proof (base_lt i (k - 1) ltac:(lia)). lia.
    - pose proof (base_mono k i ltac:(lia)). lia. }
  unfold pvector_pop_back. cbn [nvalues iter]. rewrite (proj2 (Z.eqb_neq _ 0)) by lia.
  replace (Z.of_nat (length xs) + 1 - 1) with (base i + p) by lia. rewrite array_spec_of by lia.
  cbn [idx pos]. unfold OBJ_OFF_TO_PTR. change (pool + rd h (arrays vec i) + 8 * p) with (elem h i p).
  rewrite (rep_val _ _ _ R i p) by lia.
  rewrite <- E, Nat2Z.id, lookup_app_r, Nat.sub_diag by lia. cbn [lookup list_lookup default from_option id].
  pose proof (rep_clear h xs v k i p R Hi Hik Hp (eq_sym E)) as R'. unfold clear.
  destruct (Z.eqb_spec p 0) as [->|Hp0]; [destruct (Z.eqb_spec i 0) as [Hi0|Hi0]|]; cbn [negb andb].
  - exists (wr h (elem h i 0) 0), k. split_and!; [done|done|]. intros ?. lia.
  - subst i. eexists _, (k - 1). split_and!; [done|apply rep_release; [done|lia..]|].
    intros ?. pose proof (base_lt (k - 1 - 1) (k - 1) ltac:(lia)).
    pose proof (Z.pow_pos_nonneg 2 (k - 1 - 1 + 3)). lia.
  - eexists _, k. split_and!; [done|done|]. intros ?. subst i. lia.
Qed.

(** *** The iterator *)

(** The values seen by [pvector_first] and [n] calls of [pvector_next]. *)
Fixpoint nexts (ctx : pvector_context) (h : heap) (n : nat) : list Z :=
  match n with
  | O => []
  | S n' => let '(ctx', v) := pvector_next pool vec ctx h in v :: nexts ctx' h n'
  end.

Lemma pvector_next_rep h xs k i :
  rep h xs k -> (i < length xs)%nat ->
  pvector_next pool vec (mkContext_p (Z.of_nat (length xs)) (Z.of_nat i)) h =
    match xs !! S i with
    | Some v => (mkContext_p (Z.of_nat (length xs)) (Z.of_nat (S i)), v)
    | None => (mkContext_p (Z.of_nat (length xs)) (Z.of_nat i), 0)
    end.
Proof.
  intros R Hi. pose proof (rep_k _ _ _ R) as Hk. destruct (rep_len _ _ _ R) as [Hle _].
  pose proof (base_mono k 20 ltac:(lia)) as H20. change (base 20) with 8388600 in H20.
  unfold pvector_next. cbn [nvalues iter]. rewrite u64_small by lia.
  destruct (xs !! S i) as [v|] eqn:Ev.
  - apply lookup_lt_Some in Ev as Hlt. rewrite (proj2 (Z.eqb_neq _ _)) by lia.
    replace (Z.of_nat i + 1) with (Z.of_nat (S i)) by lia. by erewrite pvector_get_rep.
  - apply lookup_ge_None in Ev. by rewrite (proj2 (Z.eqb_eq _ _)) by lia.
Qed.

Lemma nexts_rep h xs k :
  rep h xs k -> forall n i, (i + n < length xs)%nat ->
  nexts (mkContext_p (Z.of_nat (length xs)) (Z.of_nat i)) h n = take n (drop (S i) xs).
Proof.
  intros R. induction n as [|n IH]; intros i Hi; [done|]. cbn [nexts].
  rewrite (pvector_next_rep h xs k i R) by lia.
  destruct (lookup_lt_is_Some_2 xs (S i) ltac:(lia)) as [v Hv]. rewrite Hv.
  rewrite (drop_S _ _ _ Hv), IH by lia. done.
Qed.

End Rep.

(** ** An instance *)

(** A heap that allocates above everything live, up to a limit. *)
Record bump := mkBump { mem : Z -> Z; objs : list (Z * Z); limit : Z }.

Definition top (h : bump) (a : Z) : Z := 1 + foldr (fun o m => Z.max (o.1 + o.2) m) a (objs h).

Section Bump.
Variable pool : Z.

#[local] Instance bump_palloc : Palloc bump := {
  rd := mem;
  wr h a v := mkBump (fun x => if x =? a then v else mem h x) (objs h) (limit h);
  live := objs;
  pmalloc_construct h dest n :=
    let a := top h (Z.max pool dest) in
    if limit h <? a + n then None else
    Some (mkBump (fun x => if x =? dest then a - pool else if (a <=? x) && (x <? a + n) then 0 else mem h x)
                 ((a, n) :: objs h) (limit h));
  pfree h dest :=
    mkBump (fun x => if x =? dest then 0 else mem h x)
           (filter (fun o => o.1 <> pool + mem h dest) (objs h)) (limit h);
}.

Lemma top_above h a : a < top h a /\ forall o, o ∈ objs h -> o.1 + o.2 < top h a.
Proof.
  unfold top. induction (objs h) as [|o os [IH1 IH2]]; simpl; [split; [lia|]|split; [lia|]].
  - intros o Ho. by apply elem_of_nil in Ho.
  - intros o' Ho. apply elem_of_cons in Ho as [->|Ho]; [lia|]. specialize (IH2 o' Ho). lia.
Qed.

#[local] Instance bump_laws : PallocLaws bump pool.
Proof.
  split; simpl.
  - done.
  - done.
  - intros h dest n h' Hn E. destruct (top_above h (Z.max pool dest)) as [Ha Ho].
    set (a := top h (Z.max pool dest)) in *. destruct (limit h <? a + n); [done|]. injection E as <-. simpl.
    rewrite Z.eqb_refl. replace (pool + (a - pool)) with a by lia. unfold in_object. simpl. split_and!.
    + lia.
    + done.
    + intros o x Hin Hx Hy. specialize (Ho o Hin). lia.
    + intros x Hx. rewrite (proj2 (Z.eqb_neq x dest)) by lia.
      by rewrite (proj2 (Z.leb_le a x)), (proj2 (Z.ltb_lt x (a + n))) by lia.
    + intros o x Hin Hx Hne. specialize (Ho o Hin). rewrite (proj2 (Z.eqb_neq x dest)) by done.
      by rewrite (proj2 (Z.leb_gt a x)) by lia.
  - intros h dest o Ho E. split_and!.
    + by rewrite Z.eqb_refl.
    + intros o' Ho' Hne. apply list_elem_of_filter. split; [by rewrite <- E|done].
    + intros o' x Ho' Hne Hx Hd. by rewrite (proj2 (Z.eqb_neq x dest)).
Qed.

End Bump.

(** ** The theorem *)

(** C16: a persistent vector behaves like the list of its values, for any
    allocator that keeps live objects apart.  Opening it, also after an
    interrupted push or pop, counts the values and drops an empty last array; a
    push returns the place of the next value and leaves the vector unchanged
    until the value is stored, or does nothing when the vector is full or the
    allocator fails; a pop returns the last value and releases an array that
    becomes empty; the iterator visits the values in order. *)
Theorem pvector_refines {heap : Type} `{HP : Palloc heap} (pool : Z) `{HL : !PallocLaws heap pool}
    (vec : Z) (h : heap) (xs : list Z) (k it : Z) :
  rep pool vec h xs k -> embedded vec - pool <> 0 ->
  (exists h' k',
    pvector_init pool vec true h = (Some (mkContext_p (Z.of_nat (length xs)) 0), h') /\
    rep pool vec h' xs k' /\ tight xs k') /\
  pushes pool vec h xs it /\
  (forall ys v, xs = ys ++ [v] -> tight xs k -> exists h' k',
    pvector_pop_back pool vec (mkContext_p (Z.of_nat (length xs)) it) (Some clear) h =
      (mkContext_p (Z.of_nat (length ys)) it, h', v) /\ rep pool vec h' ys k' /\ tight ys k') /\
  (xs <> [] ->
    let '(ctx, v) := pvector_first pool vec (mkContext_p (Z.of_nat (length xs)) it) h in
    v :: nexts pool vec ctx h (length xs - 1) = xs /\
    pvector_last pool vec (mkContext_p (Z.of_nat (length xs)) it) h =
      (mkContext_p (Z.of_nat (length xs)) (Z.of_nat (length xs) - 1), List.last xs 0)).
Proof.
  intros R Hne. split_and!.
  - by eapply pvector_init_rep.
  - by eapply pvector_push_back_rep.
  - intros ys v -> T. rewrite length_app, Nat2Z.inj_add. by eapply pvector_pop_back_rep.
  - intros Hxs. destruct xs as [|x xs'] using rev_ind; [done|clear IHxs'].
    destruct (lookup_lt_is_Some_2 (xs' ++ [x]) 0) as [y Hy]; [rewrite length_app; simpl; lia|].
    unfold pvector_first, pvector_last. cbn [nvalues].
    rewrite (proj2 (Z.eqb_neq _ 0)) by (rewrite length_app; simpl; lia).
    change (pvector_get pool vec h 0) with (pvector_get pool vec h (Z.of_nat 0)).
    rewrite (pvector_get_rep pool vec h _ k 0 y R Hy), last_last. split.
    + change 0 with (Z.of_nat 0) at 1. rewrite (nexts_rep pool vec h _ k R _ 0) by (rewrite length_app; simpl; lia).
      rewrite take_ge by (rewrite length_drop, !length_app; simpl; lia).
      by rewrite <- (drop_S _ _ _ Hy), drop_0.
    + f_equal. rewrite <- (pvector_get_rep pool vec h (xs' ++ [x]) k (length xs') x R).
      * f_equal. rewrite length_app. simpl. lia.
      * by rewrite lookup_app_r, Nat.sub_diag by lia.
Qed.

(** On an empty vector [pvector_next] does not return zero: the maximum index is
    computed as [0 - 1], and the iterator moves on. *)
Lemma pvector_next_empty {heap : Type} `{HP : Palloc heap} (pool vec : Z) (h : heap) :
  pvector_next pool vec (mkContext_p 0 0) h = (mkContext_p 0 1, pvector_get pool vec h 1).
Proof. done. Qed.

(** An empty vector at 1024 in a pool at 512. *)
Definition sample_heap : bump := mkBump (fun _ => 0) [(1024, sizeof_pvector)] 100000.

Lemma sample_heap_rep : @rep bump (bump_palloc 512) 512 1024 sample_heap [] 0.
Proof.
  split; simpl; try done; try lia.
  - left.
Qed.

(** [pvector_refines] at the empty vector, and a run: ten pushes, of which the
    ninth allocates, and the list that the iterator then sees. *)
Definition push_all (h : bump) (vs : list Z) : option (pvector_context * bump) :=
  foldl (fun s v => c ← s;
    r ← @pvector_push_back bump (bump_palloc 512) 512 1024 c.1 c.2;
    match r with
    | (c', h', Some a) => Some (c', @wr bump (bump_palloc 512) h' a v)
    | _ => None
    end) (Some (mkContext_p 0 0, h)) vs.

Lemma pvector_refines_witness :
  @pushes bump (bump_palloc 512) 512 1024 sample_heap [] 0 /\
  (s ← push_all sample_heap [1; 2; 3; 4; 5; 6; 7; 8; 9; 10];
   let '(c, v) := @pvector_first bump (bump_palloc 512) 512 1024 s.1 s.2 in
   Some (v :: @nexts bump (bump_palloc 512) 512 1024 c s.2 9, length (objs s.2))) =
  Some ([1; 2; 3; 4; 5; 6; 7; 8; 9; 10], 2%nat).
Proof.
  split; [|vm_compute; reflexivity].
  apply (@pvector_refines bump (bump_palloc 512) 512 (bump_laws 512) 1024 sample_heap [] 0 0).
  - apply sample_heap_rep.
  - vm_compute. discriminate.
Defined.
