(* ===== verification/Bucket.v ===== *)
(** * Buckets of free blocks: [nvml/src/libpmemobj/bucket.c]

    A bucket holds the free memory blocks of one size class.  A block is packed into
    one integer, its size in the highest bits, and kept in a crit-bit tree ([Ctree]),
    so that the least key from a size on is the best fit.  The file also has the
    description of the bitmap of a run that a bucket keeps.

    The theorems: a container is a set of blocks, from which the best fit is taken;
    the bitmap of an empty run has one clear bit for every block that fits. *)

From S2P Require Import Prelude Ctree.

(** ** Memory blocks: [memblock.h] *)

Record memory_block := mkBlock {
  chunk_id : Z;
  zone_id : Z;
  size_idx : Z;
  block_off : Z;
}.

#[global] Instance memory_block_eq_dec : EqDecision memory_block.
Proof. solve_decision. Defined.

(** ** Sizes: [heap_layout.h], [heap.h], [bucket.h] *)

Definition UINT16_MAX : Z := 65535.
Definition UINT32_MAX : Z := 2 ^ 32 - 1.
Definition MAX_CHUNK : Z := UINT16_MAX - 7.
Definition CHUNKSIZE : Z := 1024 * 256.
Definition BITS_PER_VALUE : Z := 64.
Definition MAX_CACHELINE_ALIGNMENT : Z := 40.
Definition RUN_METASIZE : Z := MAX_CACHELINE_ALIGNMENT * 8.
Definition MAX_BITMAP_VALUES : Z := MAX_CACHELINE_ALIGNMENT - 2.
Definition RUN_BITMAP_SIZE : Z := BITS_PER_VALUE * MAX_BITMAP_VALUES.
Definition RUNSIZE : Z := CHUNKSIZE - RUN_METASIZE.
Definition MIN_RUN_SIZE : Z := 128.
Definition RUN_UNIT_MAX : Z := 8.

Definition RUN_NALLOCS (bs : Z) : Z := RUNSIZE / bs.
Definition CALC_SIZE_IDX (unit_size size : Z) : Z := u32 ((size - 1) / unit_size + 1).

(** ** Keys *)

Definition CHUNK_KEY_PACK (z c b s : Z) : Z :=
  Z.lor (Z.lor (Z.lor (u64 (Z.shiftl s 48)) (u64 (Z.shiftl b 32))) (u64 (Z.shiftl c 16))) z.

Definition CHUNK_KEY_GET_ZONE_ID (k : Z) : Z := Z.land k 0xFFFF.
Definition CHUNK_KEY_GET_CHUNK_ID (k : Z) : Z := Z.shiftr (Z.land k 0xFFFF0000) 16.
Definition CHUNK_KEY_GET_BLOCK_OFF (k : Z) : Z := Z.shiftr (Z.land k 0xFFFF00000000) 32.
Definition CHUNK_KEY_GET_SIZE_IDX (k : Z) : Z := Z.shiftr (Z.land k 0xFFFF000000000000) 48.

Definition block_key (m : memory_block) : Z := CHUNK_KEY_PACK (zone_id m) (chunk_id m) (block_off m) (size_idx m).

(** ** The container: a crit-bit tree *)

(** [None] is a failing assertion; [mallocs] tells which allocations succeed. *)
Definition bucket_tree_insert_block (mallocs : bool * bool) (tree : ctree) (m : memory_block) : option (ctree * Z) :=
  if (chunk_id m <? MAX_CHUNK) && (zone_id m <? UINT16_MAX) && negb (size_idx m =? 0)
  then Some (ctree_insert_unlocked mallocs.1 mallocs.2 tree (block_key m) 0)
  else None.

Definition bucket_tree_get_rm_block_bestfit (tree : ctree) (m : memory_block) : option (Z * memory_block * ctree) :=
  '(key, tree) ← ctree_remove_unlocked tree (block_key m) false;
  if key =? 0 then Some (ENOMEM, m, tree)
  else Some (0, mkBlock (CHUNK_KEY_GET_CHUNK_ID key) (CHUNK_KEY_GET_ZONE_ID key)
                  (CHUNK_KEY_GET_SIZE_IDX key) (CHUNK_KEY_GET_BLOCK_OFF key), tree).

Definition bucket_tree_get_rm_block_exact (tree : ctree) (m : memory_block) : option (Z * ctree) :=
  '(key, tree) ← ctree_remove_unlocked tree (block_key m) true;
  Some (if key =? 0 then ENOMEM else 0, tree).

Definition bucket_tree_get_block_exact (tree : ctree) (m : memory_block) : Z :=
  if ctree_find_unlocked tree (block_key m) =? block_key m then 0 else ENOMEM.

Definition bucket_tree_is_empty (tree : ctree) : bool := ctree_is_empty_unlocked tree.

(** ** Buckets *)

Inductive bucket_type := BUCKET_HUGE | BUCKET_RUN.

#[global] Instance bucket_type_eq_dec : EqDecision bucket_type.
Proof. solve_decision. Defined.

(** [struct bucket] with the fields of [struct bucket_run], which are 0 for a bucket
    of chunks. *)
Record bucket := mkBucket {
  b_type : bucket_type;
  b_id : Z;
  b_unit_size : Z;
  b_tree : ctree;
  b_bitmap_lastval : Z;
  b_bitmap_nval : Z;
  b_bitmap_nallocs : Z;
  b_unit_max : Z;
}.

(** What [bucket_run_create] computes: [bitmap_nallocs], [bitmap_nval] and
    [bitmap_lastval]; the assertions of the code are the condition. *)
Definition bucket_run_create (unit_size : Z) : option (Z * Z * Z) :=
  let nallocs := u32 (RUN_NALLOCS unit_size) in
  let unused_bits := RUN_BITMAP_SIZE - nallocs in
  let unused_values := unused_bits / BITS_PER_VALUE in
  if (RUN_NALLOCS unit_size <=? UINT32_MAX) && (nallocs <=? RUN_BITMAP_SIZE) && (unused_values <=? MAX_BITMAP_VALUES) then
    let nval := MAX_BITMAP_VALUES - unused_values in
    let unused_bits := unused_bits - unused_values * BITS_PER_VALUE in
    let lastval := if unused_bits =? 0 then 0
                   else u64 (Z.shiftl (u64 (Z.shiftl 1 unused_bits - 1)) (BITS_PER_VALUE - unused_bits)) in
    Some (nallocs, nval, lastval)
  else None.

(** [mallocs] are the allocations of the bucket, of its container and of the tree. *)
Definition bucket_new (mallocs : bool * bool * bool) (id : Z) (type : bucket_type) (unit_size unit_max : Z) : option (option bucket) :=
  let '(m1, m2, m3) := mallocs in
  if negb (0 <? unit_size) then None else
  if negb m1 then Some None else
  '(nallocs, nval, lastval) ← (match type with BUCKET_RUN => bucket_run_create unit_size | BUCKET_HUGE => Some (0, 0, 0) end);
  Some (
    if negb m2 then None
    else match ctree_new m3 with
    | Some tree => Some (mkBucket type id unit_size tree lastval nval nallocs (match type with BUCKET_RUN => unit_max | BUCKET_HUGE => 0 end))
    | None => None
    end).

Definition bucket_calc_units (b : bucket) (size : Z) : option Z :=
  if size =? 0 then None else Some (CALC_SIZE_IDX (b_unit_size b) size).

(** ** Keys and blocks *)

Record block_ok (m : memory_block) : Prop := {
  bo_chunk : 0 <= chunk_id m < MAX_CHUNK;
  bo_zone : 0 <= zone_id m < UINT16_MAX;
  bo_size : 1 <= size_idx m <= UINT16_MAX;
  bo_off : 0 <= block_off m <= UINT16_MAX;
}.

Lemma lor_shifted a b n : 0 <= n -> 0 <= b < 2 ^ n -> Z.lor (a * 2 ^ n) b = a * 2 ^ n + b.
Proof.
  intros Hn Hb. assert (E : Z.land (a * 2 ^ n) b = 0).
  { apply Z.bits_inj'. intros i Hi. rewrite Z.land_spec, Z.bits_0. destruct (Z.lt_ge_cases i n) as [Hlt|Hge].
    - by rewrite Z.mul_pow2_bits_low by lia.
    - rewrite <-(Z.mod_small b (2 ^ n)) by done. rewrite Z.mod_pow2_bits_high by lia. apply andb_false_r. }
  by rewrite Z.add_nocarry_lxor, Z.lxor_lor.
Qed.

Lemma pack_eq z c b s :
  0 <= z < 2 ^ 16 -> 0 <= c < 2 ^ 16 -> 0 <= b < 2 ^ 16 -> 0 <= s < 2 ^ 16 ->
  CHUNK_KEY_PACK z c b s = ((s * 2 ^ 16 + b) * 2 ^ 16 + c) * 2 ^ 16 + z.
Proof.
  intros Hz Hc Hb Hs. unfold CHUNK_KEY_PACK. rewrite !Z.shiftl_mul_pow2 by lia. rewrite !u64_small by lia.
  rewrite (lor_shifted s (b * 2 ^ 32) 48) by lia.
  replace (s * 2 ^ 48 + b * 2 ^ 32) with ((s * 2 ^ 16 + b) * 2 ^ 32) by lia.
  rewrite (lor_shifted _ (c * 2 ^ 16) 32) by lia.
  replace ((s * 2 ^ 16 + b) * 2 ^ 32 + c * 2 ^ 16) with (((s * 2 ^ 16 + b) * 2 ^ 16 + c) * 2 ^ 16) by lia.
  rewrite (lor_shifted _ z 16) by lia. done.
Qed.

Lemma key_eq m : block_ok m ->
  block_key m = ((size_idx m * 2 ^ 16 + block_off m) * 2 ^ 16 + chunk_id m) * 2 ^ 16 + zone_id m.
Proof. intros [H1 H2 H3 H4]. unfold MAX_CHUNK, UINT16_MAX in *. apply pack_eq; lia. Qed.

Lemma key_range m : block_ok m -> 2 ^ 48 <= block_key m < 2 ^ 64.
Proof. intros H. rewrite key_eq by done. destruct H as [H1 H2 H3 H4]. unfold MAX_CHUNK, UINT16_MAX in *. lia. Qed.

Lemma key_inj m m' : block_ok m -> block_ok m' -> block_key m = block_key m' -> m = m'.
Proof.
  intros H H'. rewrite !key_eq by done. destruct H as [H1 H2 H3 H4], H' as [H1' H2' H3' H4']. unfold MAX_CHUNK, UINT16_MAX in *.
  destruct m, m'; simpl in *. intros E. f_equal; lia.
Qed.

(** A mask of whole 16-bit digits. *)
Lemma get_digit k n : 0 <= n -> Z.shiftr (Z.land k (Z.shiftl 0xFFFF n)) n = k / 2 ^ n mod 2 ^ 16.
Proof.
  intros Hn. rewrite Z.shiftr_land, Z.shiftr_shiftl_l, Z.sub_diag, Z.shiftl_0_r by lia.
  change 0xFFFF with (Z.ones 16). rewrite Z.land_ones by lia. by rewrite Z.shiftr_div_pow2.
Qed.

Definition key_block (k : Z) : memory_block :=
  mkBlock (CHUNK_KEY_GET_CHUNK_ID k) (CHUNK_KEY_GET_ZONE_ID k) (CHUNK_KEY_GET_SIZE_IDX k) (CHUNK_KEY_GET_BLOCK_OFF k).

Lemma key_block_key m : block_ok m -> key_block (block_key m) = m.
Proof.
  intros H. unfold key_block, CHUNK_KEY_GET_CHUNK_ID, CHUNK_KEY_GET_ZONE_ID, CHUNK_KEY_GET_SIZE_IDX, CHUNK_KEY_GET_BLOCK_OFF.
  change 0xFFFF0000 with (Z.shiftl 0xFFFF 16). change 0xFFFF00000000 with (Z.shiftl 0xFFFF 32).
  change 0xFFFF000000000000 with (Z.shiftl 0xFFFF 48). change 0xFFFF with (Z.ones 16) at 2. rewrite !get_digit, Z.land_ones by lia.
  rewrite key_eq by done. destruct H as [H1 H2 H3 H4]. unfold MAX_CHUNK, UINT16_MAX in *. destruct m as [c z s b].
  cbn [chunk_id zone_id size_idx block_off] in *.
  rewrite <-(Z.div_unique _ (2 ^ 16) ((s * 2 ^ 16 + b) * 2 ^ 16 + c) z) by lia.
  rewrite <-(Z.div_unique _ (2 ^ 32) (s * 2 ^ 16 + b) (c * 2 ^ 16 + z)) by lia.
  rewrite <-(Z.div_unique _ (2 ^ 48) s (b * 2 ^ 32 + c * 2 ^ 16 + z)) by lia.
  f_equal; [rewrite Z.add_comm, Z.mod_add by lia; apply Z.mod_small; lia|rewrite Z.add_comm, Z.mod_add by lia; apply Z.mod_small; lia|apply Z.mod_small; lia|rewrite Z.add_comm, Z.mod_add by lia; apply Z.mod_small; lia].
Qed.

(** ** Containers as sets of blocks *)

Record tree_ok (t : ctree) : Prop := {
  to_wf : ctree_wf t;
  to_keys x : x ∈ ctree_elements t -> x.2 = 0 /\ exists m, block_ok m /\ x.1 = block_key m;
}.

Definition has_block (t : ctree) (m : memory_block) : Prop := ctree_has t (block_key m).

Lemma empty_ok : tree_ok None.
Proof. split; [done|]. intros x Hx. by apply elem_of_nil in Hx. Qed.

Lemma empty_has m : ~ has_block None m.
Proof. intros [v Hv]. by apply elem_of_nil in Hv. Qed.

Lemma is_empty_spec t : bucket_tree_is_empty t = true -> t = None.
Proof. by destruct t. Qed.

Lemma insert_block_spec mallocs t m :
  tree_ok t -> block_ok m ->
  exists t' err, bucket_tree_insert_block mallocs t m = Some (t', err) /\ tree_ok t' /\
    (err = 0 /\ ~ has_block t m /\ (forall m', block_ok m' -> has_block t' m' <-> m' = m \/ has_block t m') \/
     err = EEXIST /\ t' = t /\ has_block t m \/
     err = ENOMEM /\ t' = t /\ (mallocs.1 = false \/ mallocs.2 = false)).
Proof.
  intros Ht Hm. pose proof (key_range m Hm) as Hk. unfold bucket_tree_insert_block.
  destruct Hm as [H1 H2 H3 H4] eqn:Em. clear Em. unfold MAX_CHUNK, UINT16_MAX in *.
  rewrite (proj2 (Z.ltb_lt _ _)), (proj2 (Z.ltb_lt (zone_id m) _)), (proj2 (Z.eqb_neq _ _)) by lia. cbn [andb negb].
  pose proof (insert_correct mallocs.1 mallocs.2 t (block_key m) 0 (to_wf t Ht) ltac:(lia)) as Hi.
  destruct (ctree_insert_unlocked mallocs.1 mallocs.2 t (block_key m) 0) as [t' err]. exists t', err. split; [done|].
  destruct Hi as (Hwf & _ & [(-> & Hn & Hin)|[(-> & -> & Hh)|(-> & -> & Hml)]]).
  - split; [split; [done|]|].
    + intros x [->|Hx]%Hin; [by split; [|exists m]|by apply (to_keys t Ht)].
    + left. split_and!; [done..|]. intros m' Hm'. unfold has_block, ctree_has. setoid_rewrite Hin. split.
      * intros [v [[= E ->]|Hv]]; [left; by apply key_inj|right; by exists v].
      * intros [->|[v Hv]]; [exists 0; by left|exists v; by right].
  - split; [done|]. right. by left.
  - split; [done|]. right. right. split_and!; try done. tauto.
Qed.

(** A removal from the tree. *)
Lemma remove_spec t m eq :
  tree_ok t -> block_ok m ->
  exists k t', ctree_remove_unlocked t (block_key m) eq = Some (k, t') /\ tree_ok t' /\
    ((exists r, block_ok r /\ k = block_key r /\ k <> 0 /\ has_block t r /\ block_key m <= k /\ (eq = true -> r = m) /\
        (forall m', block_ok m' -> has_block t m' -> block_key m <= block_key m' -> k <= block_key m') /\
        (forall m', block_ok m' -> has_block t' m' <-> has_block t m' /\ m' <> r)) \/
     (k = 0 /\ t' = t /\ forall m', block_ok m' -> has_block t m' -> if eq then m' <> m else block_key m' < block_key m)).
Proof.
  intros Ht Hm. pose proof (key_range m Hm) as Hk.
  destruct (search_remove_correct t (block_key m) eq (to_wf t Ht) ltac:(lia)) as (_ & _ & k & t' & E & Hwf & Hr).
  exists k, t'. split; [done|]. destruct Hr as [([v Hv] & Hle & Heq & Hmin & Hin)|(-> & -> & Hno)].
  - destruct (to_keys t Ht _ Hv) as [_ (r & Hr & Er)]. simpl in Er. subst k. pose proof (key_range r Hr) as Hkr.
    split; [split; [done|]; intros x [Hx _]%Hin; by apply (to_keys t Ht)|]. left. exists r. split_and!; try done; try lia.
    + by exists v.
    + intros E1. apply key_inj; auto.
    + intros m' Hm' [v' Hv'] Hle'. by apply (Hmin (block_key m', v')).
    + intros m' Hm'. unfold has_block, ctree_has. setoid_rewrite Hin. simpl. split.
      * intros (v' & Hv' & Hne). split; [by exists v'|]. intros ->. done.
      * intros [[v' Hv'] Hne]. exists v'. split; [done|]. intros E1. by apply Hne, key_inj.
  - split; [done|]. right. split_and!; [done..|]. intros m' Hm' [v Hv]. specialize (Hno _ Hv). simpl in Hno.
    destruct eq; [|done]. by intros ->.
Qed.

Lemma get_rm_exact_spec t m :
  tree_ok t -> block_ok m ->
  exists err t', bucket_tree_get_rm_block_exact t m = Some (err, t') /\ tree_ok t' /\
    (err = 0 /\ has_block t m /\ (forall m', block_ok m' -> has_block t' m' <-> has_block t m' /\ m' <> m) \/
     err = ENOMEM /\ t' = t /\ ~ has_block t m).
Proof.
  intros Ht Hm. unfold bucket_tree_get_rm_block_exact.
  destruct (remove_spec t m true Ht Hm) as (k & t' & -> & Ht' & Hor). simpl. eexists _, t'. split; [done|]. split; [done|].
  destruct Hor as [(r & Hr & -> & Hk & Hh & _ & Heq & _ & Hin)|(-> & -> & Hno)].
  - left. rewrite (proj2 (Z.eqb_neq _ _) Hk). rewrite (Heq eq_refl) in *. done.
  - right. split_and!; try done. intros Hh. by apply (Hno m).
Qed.

Lemma get_exact_spec t m : tree_ok t -> block_ok m -> bucket_tree_get_block_exact t m = 0 <-> has_block t m.
Proof.
  intros Ht Hm. pose proof (key_range m Hm) as Hk. unfold bucket_tree_get_block_exact, has_block.
  destruct (search_remove_correct t (block_key m) true (to_wf t Ht) ltac:(lia)) as ([[Hh ->]|[Hh ->]] & _).
  - by rewrite Z.eqb_refl.
  - rewrite (proj2 (Z.eqb_neq 0 _)) by lia. done.
Qed.

(** The order in which blocks are preferred. *)
Definition block_before (m m' : memory_block) : Prop :=
  size_idx m < size_idx m' \/ size_idx m = size_idx m' /\
  (block_off m < block_off m' \/ block_off m = block_off m' /\
   (chunk_id m < chunk_id m' \/ chunk_id m = chunk_id m' /\ zone_id m <= zone_id m')).

Lemma key_before m m' : block_ok m -> block_ok m' -> block_key m <= block_key m' <-> block_before m m'.
Proof.
  intros H H'. rewrite !key_eq by done. destruct H as [H1 H2 H3 H4], H' as [H1' H2' H3' H4'].
  unfold block_before, MAX_CHUNK, UINT16_MAX in *. lia.
Qed.

(** The request for a block of [units]. *)
Definition request (units : Z) : memory_block := mkBlock 0 0 units 0.

Lemma request_ok units : 1 <= units <= UINT16_MAX -> block_ok (request units).
Proof. intros H. split; simpl; unfold MAX_CHUNK, UINT16_MAX in *; lia. Qed.

Lemma bestfit_spec t units :
  tree_ok t -> 1 <= units <= UINT16_MAX ->
  exists err m t', bucket_tree_get_rm_block_bestfit t (request units) = Some (err, m, t') /\ tree_ok t' /\
    (err = 0 /\ block_ok m /\ has_block t m /\ units <= size_idx m /\
       (forall m', block_ok m' -> has_block t m' -> units <= size_idx m' -> block_before m m') /\
       (forall m', block_ok m' -> has_block t' m' <-> has_block t m' /\ m' <> m) \/
     err = ENOMEM /\ m = request units /\ t' = t /\ forall m', block_ok m' -> has_block t m' -> size_idx m' < units).
Proof.
  intros Ht Hu. pose proof (request_ok units Hu) as Hr. unfold bucket_tree_get_rm_block_bestfit.
  assert (Hsize : forall m, block_ok m -> block_key (request units) <= block_key m <-> units <= size_idx m).
  { intros m Hm. rewrite key_before by done. destruct Hm as [H1 H2 H3 H4]. unfold block_before, request. simpl. lia. }
  destruct (remove_spec t (request units) false Ht Hr) as (k & t' & -> & Ht' & Hor). simpl.
  destruct Hor as [(r & Hrok & -> & Hk & Hh & Hle & _ & Hmin & Hin)|(-> & -> & Hno)].
  - rewrite (proj2 (Z.eqb_neq _ _) Hk). eexists _, _, t'. split; [done|]. split; [done|]. left.
    pose proof (key_block_key r Hrok) as E. unfold key_block in E. rewrite E. split_and!; try done.
    + by apply Hsize.
    + intros m' Hm' Hh' Hle'. apply key_before; [done..|]. apply Hmin; [done..|]. by apply Hsize.
  - eexists _, _, t. split; [done|]. split; [done|]. right. split_and!; try done.
    intros m' Hm' Hh'. specialize (Hno m' Hm' Hh'). simpl in Hno. apply Z.nle_gt. rewrite <-Hsize by done. lia.
Qed.

(** ** The bitmap of an empty run *)

Lemma run_create_spec unit_size :
  MIN_RUN_SIZE <= unit_size <= RUNSIZE ->
  exists nval lastval, bucket_run_create unit_size = Some (RUN_NALLOCS unit_size, nval, lastval) /\
    1 <= nval <= MAX_BITMAP_VALUES /\ BITS_PER_VALUE * (nval - 1) < RUN_NALLOCS unit_size <= BITS_PER_VALUE * nval /\
    0 <= lastval < 2 ^ 64 /\
    forall i, 0 <= i < BITS_PER_VALUE ->
      Z.testbit lastval i = (RUN_NALLOCS unit_size <=? BITS_PER_VALUE * (nval - 1) + i).
Proof.
  intros Hu. set (n := RUN_NALLOCS unit_size). change MIN_RUN_SIZE with 128 in Hu. change RUNSIZE with 261824 in Hu.
  assert (Hn : 1 <= n <= 2045).
  { unfold n, RUN_NALLOCS. change RUNSIZE with 261824. split; [apply Z.div_le_lower_bound; lia|].
    apply Z.lt_succ_r, Z.div_lt_upper_bound; lia. }
  unfold bucket_run_create. fold n. clearbody n. change RUN_BITMAP_SIZE with 2432. change MAX_BITMAP_VALUES with 38. change BITS_PER_VALUE with 64 in *.
  rewrite (u32_small n) by lia. set (uv := (2432 - n) / 64). set (ub := 2432 - n - uv * 64).
  pose proof (Z.div_mod (2432 - n) 64 ltac:(lia)) as Hdm. pose proof (Z.mod_pos_bound (2432 - n) 64 ltac:(lia)) as Hmb. fold uv in Hdm.
  assert (Huv : 0 <= uv <= 37) by lia. assert (Hub : 0 <= ub < 64) by (unfold ub; lia).
  rewrite (proj2 (Z.leb_le n UINT32_MAX)), (proj2 (Z.leb_le n 2432)), (proj2 (Z.leb_le uv 38)) by (unfold UINT32_MAX; lia). cbn [andb]. cbv zeta.
  eexists _, _. split; [reflexivity|]. split; [lia|]. split; [unfold ub in Hub; lia|].
  assert (Eub : 64 * (38 - uv) - n = ub) by (unfold ub; lia).
  destruct (Z.eqb_spec ub 0) as [E|E].
  - split; [lia|]. intros i Hi. rewrite Z.bits_0. symmetry. apply Z.leb_gt. lia.
  - split; [apply u64_range|]. intros i Hi. rewrite Z.shiftl_1_l. pose proof (Z.pow_pos_nonneg 2 ub).
    assert (2 ^ ub < 2 ^ 64) by (apply Z.pow_lt_mono_r; lia). rewrite (u64_small (2 ^ ub - 1)) by lia.
    unfold u64. rewrite Z.mod_pow2_bits_low by lia. rewrite Z.shiftl_spec by lia.
    replace (2 ^ ub - 1) with (Z.ones ub) by (rewrite Z.ones_equiv; lia).
    destruct (Z.leb_spec n (64 * (38 - uv - 1) + i)).
    + rewrite Z.ones_spec_low; [done|lia].
    + apply Z.testbit_neg_r. lia.
Qed.

(** ** Properties *)

(** C39: a bucket is a set of free blocks.  Inserting adds the block, or says that it is
    there already or that memory has run out, and then changes nothing; removing or
    looking for a block succeeds exactly when it is there; a request takes out a
    block that is large enough, of the least such size, and fails exactly when no
    block is large enough.  No assertion fails. *)
Theorem bucket_set t m units mallocs :
  tree_ok t -> block_ok m -> 1 <= units <= UINT16_MAX ->
  (exists t' err, bucket_tree_insert_block mallocs t m = Some (t', err) /\ tree_ok t' /\
    (err = 0 /\ ~ has_block t m /\ (forall m', block_ok m' -> has_block t' m' <-> m' = m \/ has_block t m') \/
     err = EEXIST /\ t' = t /\ has_block t m \/
     err = ENOMEM /\ t' = t /\ (mallocs.1 = false \/ mallocs.2 = false))) /\
  (exists err t', bucket_tree_get_rm_block_exact t m = Some (err, t') /\ tree_ok t' /\
    (err = 0 /\ has_block t m /\ (forall m', block_ok m' -> has_block t' m' <-> has_block t m' /\ m' <> m) \/
     err = ENOMEM /\ t' = t /\ ~ has_block t m)) /\
  (bucket_tree_get_block_exact t m = 0 <-> has_block t m) /\
  (exists err r t', bucket_tree_get_rm_block_bestfit t (mkBlock 0 0 units 0) = Some (err, r, t') /\ tree_ok t' /\
    (err = 0 /\ block_ok r /\ has_block t r /\ units <= size_idx r /\
       (forall m', block_ok m' -> has_block t m' -> units <= size_idx m' -> block_before r m') /\
       (forall m', block_ok m' -> has_block t' m' <-> has_block t m' /\ m' <> r) \/
     err = ENOMEM /\ t' = t /\ forall m', block_ok m' -> has_block t m' -> size_idx m' < units)).
Proof.
  intros Ht Hm Hu. split_and!.
  - by apply insert_block_spec.
  - by apply get_rm_exact_spec.
  - by apply get_exact_spec.
  - destruct (bestfit_spec t units Ht Hu) as (err & r & t' & E & Ht' & Hor). exists err, r, t'. naive_solver.
Qed.

(** The bitmap of a run: for every size of blocks that [heap.c] uses, the numbers
    that [bucket_run_create] computes pass its assertions, the bitmap has as many
    values as are needed for the blocks that fit in a run, and the bits of its last
    value that are set are exactly those without a block. *)
Theorem run_bitmap unit_size :
  MIN_RUN_SIZE <= unit_size <= RUNSIZE ->
  exists nval lastval, bucket_run_create unit_size = Some (RUN_NALLOCS unit_size, nval, lastval) /\
    1 <= nval <= MAX_BITMAP_VALUES /\ BITS_PER_VALUE * (nval - 1) < RUN_NALLOCS unit_size <= BITS_PER_VALUE * nval /\
    forall i, 0 <= i < BITS_PER_VALUE ->
      Z.testbit lastval i = (RUN_NALLOCS unit_size <=? BITS_PER_VALUE * (nval - 1) + i).
Proof.
  intros Hu. destruct (run_create_spec unit_size Hu) as (nval & lastval & E & H1 & H2 & _ & H3). by exists nval, lastval.
Qed.

(** ** Examples *)

Definition insert_all (ms : list memory_block) : ctree :=
  foldl (fun t m => match bucket_tree_insert_block (true, true) t m with Some (t', _) => t' | None => t end) None ms.

Lemma insert_all_ok ms : Forall block_ok ms -> tree_ok (insert_all ms).
Proof.
  unfold insert_all. generalize empty_ok. generalize (None : ctree). induction ms as [|m ms IH]; intros t Ht Hms; [done|].
  apply Forall_cons in Hms as [Hm Hms]. simpl. destruct (insert_block_spec (true, true) t m Ht Hm) as (t' & err & -> & Ht' & _).
  by apply IH.
Qed.

Definition sample_blocks : list memory_block := [mkBlock 3 0 8 0; mkBlock 3 0 5 8; mkBlock 2 0 5 16; mkBlock 4 0 2 24].

Lemma sample_blocks_ok : Forall block_ok sample_blocks.
Proof. repeat constructor; simpl; unfold MAX_CHUNK, UINT16_MAX; lia. Qed.

Lemma bucket_set_witness :
  exists err r t', bucket_tree_get_rm_block_bestfit (insert_all sample_blocks) (mkBlock 0 0 3 0) = Some (err, r, t') /\
    err = 0 /\ r = mkBlock 3 0 5 8.
Proof.
  destruct (bucket_set (insert_all sample_blocks) (mkBlock 3 0 8 0) 3 (true, true)) as (_ & _ & _ & err & r & t' & E & _).
  - apply insert_all_ok, sample_blocks_ok.
  - split; simpl; unfold MAX_CHUNK, UINT16_MAX; lia.
  - unfold UINT16_MAX. lia.
  - exists err, r, t'. split; [exact E|]. vm_compute in E. by injection E as <- <- _.
Defined.

(** The best fit is not the one with the lowest address: the block in chunk 3 is
    preferred to the one in chunk 2, because it is nearer to the start of its run. *)
Lemma bestfit_not_lowest :
  (fun x => x.1.2) <$> bucket_tree_get_rm_block_bestfit (insert_all sample_blocks) (mkBlock 0 0 5 0) = Some (mkBlock 3 0 5 8).
Proof. vm_compute. reflexivity. Qed.

Lemma run_bitmap_witness :
  exists nval lastval, bucket_run_create 128 = Some (2045, nval, lastval) /\ nval = 32 /\
    forall i, 0 <= i < BITS_PER_VALUE -> Z.testbit lastval i = (2045 <=? BITS_PER_VALUE * (nval - 1) + i).
Proof.
  destruct (run_bitmap 128) as (nval & lastval & E & _ & _ & H); [vm_compute; split; discriminate|].
  exists nval, lastval. split; [exact E|]. split; [vm_compute in E; by injection E as <- _|exact H].
Defined.
