(* ===== verification/HeapLayout.v ===== *)
(** * The layout of the heap and its size classes

    [nvml/src/libpmemobj/heap_layout.h], and of [heap.c] the functions that divide a
    heap into zones ([heap_max_zone], [get_zone_size_idx]) and the sizes of
    allocations into classes ([heap_buckets_init] and what it calls).

    The theorems: the zones and chunks of a heap lie within it, except for two ranges
    of heap sizes in which the last zone reaches beyond the end of the heap or of its
    array of headers; every size that is served from runs has a class, whose blocks
    are large enough in at most eight units. *)

From S2P Require Import Prelude Bucket.

Definition sizeof_heap_header : Z := 1024.
Definition sizeof_zone_header : Z := 64.
Definition sizeof_chunk_header : Z := 8.
(** [struct zone] without its flexible array of chunks. *)
Definition sizeof_zone : Z := sizeof_zone_header + sizeof_chunk_header * MAX_CHUNK.
Definition sizeof_heap_layout : Z := sizeof_heap_header + sizeof_zone.

Definition ZONE_HEADER_MAGIC : Z := 0xC3F0A2D2.
Definition ZONE_MIN_SIZE : Z := sizeof_zone + CHUNKSIZE.
Definition ZONE_MAX_SIZE : Z := sizeof_zone + CHUNKSIZE * MAX_CHUNK.
Definition HEAP_MIN_SIZE : Z := sizeof_heap_layout + ZONE_MIN_SIZE.

(** ** Zones *)

(** The loop of [heap_max_zone]. *)
Fixpoint max_zone_loop (fuel : nat) (max_zone size : Z) : option Z :=
  match fuel with
  | O => None
  | S fuel =>
      if ZONE_MIN_SIZE <=? size
      then max_zone_loop fuel (u32 (max_zone + 1)) (size - (if size <=? ZONE_MAX_SIZE then size else ZONE_MAX_SIZE))
      else Some max_zone
  end.

Definition heap_max_zone (size : Z) : option Z :=
  let size := u64 (size - sizeof_heap_header) in
  max_zone_loop (Z.to_nat (size / ZONE_MAX_SIZE) + 2) 0 size.

(** [None] is a failing assertion. *)
Definition get_zone_size_idx (zone_id max_zone heap_size : Z) : option Z :=
  if negb (0 <? max_zone) then None
  else if zone_id <? max_zone - 1 then Some MAX_CHUNK
  else if negb (zone_id * ZONE_MAX_SIZE <=? heap_size) then None
  else
    let zone_raw_size := heap_size - zone_id * ZONE_MAX_SIZE in
    if negb (sizeof_zone <=? zone_raw_size) then None
    else
      let zone_size_idx := (zone_raw_size - sizeof_zone) / CHUNKSIZE in
      if zone_size_idx <=? 2 ^ 32 - 1 then Some zone_size_idx else None.

(** Where a zone begins in the heap, as [ZID_TO_ZONE]. *)
Definition zone_start (zone_id : Z) : Z := sizeof_heap_header + ZONE_MAX_SIZE * zone_id.

(** ** Classes *)

Definition MAX_BUCKETS : Z := 254.
Definition ALLOC_BLOCK_SIZE : Z := 64.
Definition MAX_RUN_SIZE : Z := CHUNKSIZE / 2.
Definition MAX_RUN_WASTED_BYTES : Z := 1024.
Definition MAX_ALLOC_CATEGORIES : nat := 5.

(** The array [categories]; its last element is not initialised explicitly. *)
Definition categories : list (Z * Z) := [(2, 0); (16, 1); (64, 2); (256, 4); (0, 0)].
Definition category (c : nat) : Z * Z := nth c categories (0, 0).

Definition SIZE_TO_ALLOC_BLOCKS (s : Z) : Z := 1 + (s - 1) / ALLOC_BLOCK_SIZE.

(** The classes while they are made: the unit sizes of the buckets in use, by slot, and
    the map from numbers of blocks to slots.  The buckets of the caches are made along
    with those of the heap; [None] is an allocation that fails. *)
Record classes := mkClasses {
  cl_units : list Z;
  cl_map : list Z;
  cl_last_run_max_size : Z;
}.

(** [heap_create_alloc_class_buckets]: the slot, [MAX_BUCKETS] when there is none. *)
Definition heap_create_alloc_class_buckets (h : classes) (unit_size : Z) : Z * classes :=
  let slot := Z.of_nat (length (cl_units h)) in
  if slot <? MAX_BUCKETS then (slot, mkClasses (cl_units h ++ [unit_size]) (cl_map h) (cl_last_run_max_size h))
  else (MAX_BUCKETS, h).

(** [for (; start <= end; ++start)] *)
Fixpoint register_loop (n : nat) (map : list Z) (bucket : Z) (start : nat) : list Z :=
  match n with
  | O => map
  | S n => register_loop n (<[start := bucket]> map) bucket (S start)
  end.

Definition heap_register_bucket_range (h : classes) (bucket start end_ : Z) : classes :=
  mkClasses (cl_units h) (register_loop (Z.to_nat (end_ - start + 1)) (cl_map h) bucket (Z.to_nat start)) (cl_last_run_max_size h).

(** The search for a class from slot [i - 1] down. *)
Fixpoint find_class (units : list Z) (i : nat) (n : Z) : option Z :=
  match i with
  | O => None
  | S i =>
      match units !! i with
      | Some unit => if (n mod unit =? 0) && (n / unit <=? RUN_UNIT_MAX) then Some (Z.of_nat i) else find_class units i n
      | None => find_class units i n
      end
  end.

(** [while ((RUNSIZE % n) > MAX_RUN_WASTED_BYTES)] *)
Fixpoint waste_loop (fuel : nat) (n : Z) : option Z :=
  match fuel with
  | O => None
  | S fuel => if MAX_RUN_WASTED_BYTES <? RUNSIZE mod n then waste_loop fuel (n + ALLOC_BLOCK_SIZE) else Some n
  end.

Definition heap_find_or_create_best_alloc_class (h : classes) (n : Z) : option (Z * classes) :=
  match find_class (cl_units h) (Z.to_nat MAX_BUCKETS) n with
  | Some i => Some (i, h)
  | None => n ← waste_loop (Z.to_nat (RUNSIZE / ALLOC_BLOCK_SIZE)) n; Some (heap_create_alloc_class_buckets h n)
  end.

(** The inner loop over the sizes of a category; the last size. *)
Fixpoint category_loop (fuel : nat) (h : classes) (i last step size : Z) : option (classes * Z) :=
  match fuel with
  | O => None
  | S fuel =>
      if i <=? last then
        let size := i + (step - 1) in
        '(slot, h) ← heap_find_or_create_best_alloc_class h (size * ALLOC_BLOCK_SIZE);
        if slot =? MAX_BUCKETS then None
        else category_loop fuel (heap_register_bucket_range h slot i size) (i + step) last step size
      else Some (h, size)
  end.

Fixpoint categories_loop (n : nat) (h : classes) (c : nat) (size : Z) : option (classes * Z) :=
  match n with
  | O => Some (h, size)
  | S n =>
      '(h, size) ← category_loop 257 h ((category (c - 1)).1 + 1) ((category c).1) ((category c).2) size;
      categories_loop n h (S c) size
  end.

(** The part of [heap_buckets_init] that makes the classes. *)
Definition make_classes : option classes :=
  let h := mkClasses [] (replicate (Z.to_nat (MAX_RUN_SIZE / ALLOC_BLOCK_SIZE + 1)) 0) MAX_RUN_SIZE in
  let '(slot, h) := heap_create_alloc_class_buckets h MIN_RUN_SIZE in
  if slot =? MAX_BUCKETS then None else
  let h := heap_register_bucket_range h slot 0 2 in
  '(h, size) ← categories_loop (MAX_ALLOC_CATEGORIES - 1) h 1 0;
  let slot := Z.of_nat (length (cl_units h)) - 1 in
  unit ← cl_units h !! Z.to_nat slot;
  let real_unit_max := if RUN_NALLOCS unit <? RUN_UNIT_MAX then RUN_NALLOCS unit else RUN_UNIT_MAX in
  let theoretical_run_max_size := unit * real_unit_max in
  let last := if theoretical_run_max_size <? MAX_RUN_SIZE then theoretical_run_max_size else MAX_RUN_SIZE in
  Some (heap_register_bucket_range (mkClasses (cl_units h) (cl_map h) last) slot size (last / ALLOC_BLOCK_SIZE)).

(** [SIZE_TO_BID]. *)
Definition SIZE_TO_BID (h : classes) (size : Z) : option Z := cl_map h !! Z.to_nat (SIZE_TO_ALLOC_BLOCKS size).

(** The allocation of the new buckets succeeds; a slot that is not in use, for which the
    code would read through a null pointer, is [None].  The code compares the unit size,
    not the slot, with [MAX_BUCKETS]. *)
Definition heap_get_create_bucket_idx_by_unit_size (h : classes) (unit_size : Z) : option (Z * classes) :=
  bid ← SIZE_TO_BID h unit_size;
  unit ← cl_units h !! Z.to_nat bid;
  if unit =? unit_size then Some (bid, h)
  else
    let '(bid, h) := heap_create_alloc_class_buckets h unit_size in
    if unit_size =? MAX_BUCKETS then Some (MAX_BUCKETS, h)
    else
      let supported_block := unit_size / ALLOC_BLOCK_SIZE in
      Some (bid, heap_register_bucket_range h bid supported_block supported_block).

(** ** The zones of a heap *)

Lemma max_zone_loop_spec fuel max_zone size :
  0 <= max_zone -> 0 <= size -> max_zone + size / ZONE_MAX_SIZE + (if ZONE_MIN_SIZE <=? size mod ZONE_MAX_SIZE then 1 else 0) < 2 ^ 32 ->
  size / ZONE_MAX_SIZE + (if ZONE_MIN_SIZE <=? size mod ZONE_MAX_SIZE then 1 else 0) < Z.of_nat fuel ->
  max_zone_loop fuel max_zone size =
    Some (max_zone + size / ZONE_MAX_SIZE + (if ZONE_MIN_SIZE <=? size mod ZONE_MAX_SIZE then 1 else 0)).
Proof.
  assert (Hmin : ZONE_MIN_SIZE = 786432) by reflexivity. assert (Hmax : ZONE_MAX_SIZE = 17178296320) by reflexivity.
  revert max_zone size. induction fuel as [|fuel IH]; intros k size Hk Hs Hb Hf.
  { pose proof (Z.div_pos size ZONE_MAX_SIZE Hs ltac:(lia)). case_match; lia. }
  cbn [max_zone_loop]. destruct (Z.leb_spec ZONE_MIN_SIZE size) as [Hge|Hlt].
  - destruct (Z.leb_spec size ZONE_MAX_SIZE) as [Hle|Hgt].
    + rewrite Z.sub_diag. assert (E0 : (if ZONE_MIN_SIZE <=? 0 mod ZONE_MAX_SIZE then 1 else 0) = 0).
      { rewrite Z.mod_0_l by lia. by rewrite (proj2 (Z.leb_gt _ _)) by lia. }
      destruct (decide (size = ZONE_MAX_SIZE)) as [->|Hne].
      * rewrite Z.div_same, Z.mod_same in * by lia. rewrite (proj2 (Z.leb_gt _ 0)) in * by lia. rewrite u32_small by lia.
        rewrite IH; rewrite ?E0, ?Z.div_0_l by lia; [f_equal|..]; lia.
      * assert (E3 : size / ZONE_MAX_SIZE = 0) by (apply Z.div_small; lia).
        assert (E4 : size mod ZONE_MAX_SIZE = size) by (apply Z.mod_small; lia).
        rewrite E3, E4, (proj2 (Z.leb_le ZONE_MIN_SIZE size)) in Hb, Hf |- * by lia.
        rewrite u32_small by lia. rewrite IH; rewrite ?E0, ?Z.div_0_l by lia; [f_equal|..]; lia.
    + assert (E1 : (size - ZONE_MAX_SIZE) / ZONE_MAX_SIZE = size / ZONE_MAX_SIZE - 1).
      { replace (size - ZONE_MAX_SIZE) with (size + (-1) * ZONE_MAX_SIZE) by lia. rewrite Z.div_add by lia. lia. }
      assert (E2 : (size - ZONE_MAX_SIZE) mod ZONE_MAX_SIZE = size mod ZONE_MAX_SIZE).
      { replace (size - ZONE_MAX_SIZE) with (size + (-1) * ZONE_MAX_SIZE) by lia. by rewrite Z.mod_add by lia. }
      assert (H1 : 1 <= size / ZONE_MAX_SIZE) by (apply Z.div_le_lower_bound; lia).
      assert (0 <= (if ZONE_MIN_SIZE <=? size mod ZONE_MAX_SIZE then 1 else 0)) by (case_match; lia).
      rewrite u32_small by lia. rewrite IH; rewrite ?E1, ?E2; [f_equal|..]; lia.
  - rewrite (Z.div_small size), (Z.mod_small size) by lia. rewrite (proj2 (Z.leb_gt _ _)) by lia. f_equal. lia.
Qed.

Lemma heap_max_zone_eq hs :
  sizeof_heap_header <= hs < 2 ^ 64 ->
  let size := hs - sizeof_heap_header in
  heap_max_zone hs = Some (size / ZONE_MAX_SIZE + (if ZONE_MIN_SIZE <=? size mod ZONE_MAX_SIZE then 1 else 0)).
Proof.
  intros Hs size. unfold heap_max_zone. change sizeof_heap_header with 1024 in *. rewrite u64_small by lia. fold size.
  assert (Hd : 0 <= size / ZONE_MAX_SIZE < 2 ^ 31).
  { change ZONE_MAX_SIZE with 17178296320. split; [apply Z.div_pos; lia|apply Z.div_lt_upper_bound; lia]. }
  rewrite max_zone_loop_spec; [done|lia|lia|..]; case_match; lia.
Qed.

(** The last zone of a heap has all of its chunks in the heap and in its array of
    headers when the size of the heap is not in one of two ranges. *)
Definition size_fits (hs max_zone : Z) : Prop :=
  sizeof_heap_header <= hs mod CHUNKSIZE /\ hs < max_zone * ZONE_MAX_SIZE + CHUNKSIZE.

(** The zones of a heap whose size is not in one of the ranges. *)
Lemma zones_spec hs :
  HEAP_MIN_SIZE <= hs < 2 ^ 64 ->
  exists max_zone, heap_max_zone hs = Some max_zone /\ 1 <= max_zone /\
    (size_fits hs max_zone ->
     forall z, 0 <= z < max_zone ->
     exists n, get_zone_size_idx z max_zone hs = Some n /\ 1 <= n <= MAX_CHUNK /\
       zone_start z + sizeof_zone + n * CHUNKSIZE <= hs).
Proof.
  intros Hs. change HEAP_MIN_SIZE with 1311744 in Hs.
  assert (Hh : sizeof_heap_header <= hs < 2 ^ 64) by (unfold sizeof_heap_header; lia). rewrite (heap_max_zone_eq hs Hh).
  change sizeof_heap_header with 1024 in *. set (size := hs - 1024).
  assert (Hmax : ZONE_MAX_SIZE = 17178296320) by reflexivity. assert (Hmin : ZONE_MIN_SIZE = 786432) by reflexivity.
  pose proof (Z.div_mod size ZONE_MAX_SIZE ltac:(lia)) as Hdm. pose proof (Z.mod_pos_bound size ZONE_MAX_SIZE ltac:(lia)) as Hmb.
  set (q := size / ZONE_MAX_SIZE) in *. set (r := size mod ZONE_MAX_SIZE) in *.
  assert (Hq : 0 <= q < 2 ^ 31) by (rewrite Hmax in Hdm, Hmb; unfold size in Hdm; lia).
  set (K := q + (if ZONE_MIN_SIZE <=? r then 1 else 0)). exists K. split; [done|].
  assert (HK : 1 <= K /\ (K - 1) * ZONE_MAX_SIZE + ZONE_MIN_SIZE <= size).
  { unfold K. destruct (Z.leb_spec ZONE_MIN_SIZE r); rewrite Hmax, Hmin in *; unfold size in *; lia. }
  clearbody K. split; [lia|]. intros [Hf1 Hf2] z Hz. change CHUNKSIZE with 262144 in *. change MAX_CHUNK with 65528.
  unfold get_zone_size_idx, zone_start. change sizeof_zone with 524288. change sizeof_heap_header with 1024. change CHUNKSIZE with 262144.
  rewrite (proj2 (Z.ltb_lt 0 K)) by lia. cbn [negb]. destruct (Z.ltb_spec z (K - 1)) as [Hlt|Hge].
  - exists MAX_CHUNK. split; [done|]. change MAX_CHUNK with 65528. rewrite Hmax, Hmin in *. unfold size in *. split; [lia|]. nia.
  - assert (z = K - 1) as -> by lia. rewrite Hmax, Hmin in *. unfold size in *.
    rewrite (proj2 (Z.leb_le ((K - 1) * _) hs)) by lia. cbn [negb]. set (raw := hs - (K - 1) * 17178296320).
    rewrite (proj2 (Z.leb_le 524288 raw)) by (unfold raw; lia). cbn [negb]. set (n := (raw - 524288) / 262144).
    assert (Em : (raw - 524288) mod 262144 = hs mod 262144).
    { unfold raw. replace (hs - (K - 1) * 17178296320 - 524288) with (hs + (- (K - 1) * 65530 - 2) * 262144) by lia.
      by rewrite Z.mod_add by lia. }
    pose proof (Z.div_mod (raw - 524288) 262144 ltac:(lia)) as Hn. rewrite Em in Hn. fold n in Hn.
    pose proof (Z.mod_pos_bound hs 262144 ltac:(lia)). clearbody n. unfold raw in Hn.
    assert (1 <= n <= 65528) by (clear -HK Hf2 Hn H; lia).
    rewrite (proj2 (Z.leb_le n _)) by lia. exists n. split; [done|]. unfold sizeof_heap_header in Hf1. clear -HK Hf1 Hn H H0. lia.
Qed.

(** The zones of a heap: for every heap size outside of the two ranges, every zone
    that [heap_max_zone] counts gets at least one chunk and at most [MAX_CHUNK], and
    its last chunk ends within the heap.  No assertion of the code fails, and the
    arithmetic does not wrap. *)
Theorem zones_within hs :
  HEAP_MIN_SIZE <= hs < 2 ^ 64 ->
  exists max_zone, heap_max_zone hs = Some max_zone /\ 1 <= max_zone /\
    (size_fits hs max_zone ->
     forall z, 0 <= z < max_zone ->
     exists n, get_zone_size_idx z max_zone hs = Some n /\ 1 <= n <= MAX_CHUNK /\
       zone_start z + sizeof_zone + n * CHUNKSIZE <= hs).
Proof. apply zones_spec. Qed.

Lemma zones_within_witness :
  exists max_zone, heap_max_zone 5234688 = Some max_zone /\ 1 <= max_zone /\
    (size_fits 5234688 max_zone ->
     forall z, 0 <= z < max_zone ->
     exists n, get_zone_size_idx z max_zone 5234688 = Some n /\ 1 <= n <= MAX_CHUNK /\
       zone_start z + sizeof_zone + n * CHUNKSIZE <= 5234688).
Proof. apply (zones_within 5234688). vm_compute. split; [discriminate|reflexivity]. Defined.

(** A heap of the least size of a pool is not in one of the ranges. *)
Lemma small_heap_fits : size_fits 5234688 1.
Proof. vm_compute. split; [discriminate|reflexivity]. Qed.

(** A heap whose size is a multiple of the size of a chunk: its only zone ends 1024
    bytes after the heap, because the header of the heap is not subtracted. *)
Lemma zone_past_end :
  heap_max_zone (32 * CHUNKSIZE) = Some 1 /\ get_zone_size_idx 0 1 (32 * CHUNKSIZE) = Some 30 /\
  zone_start 0 + sizeof_zone + 30 * CHUNKSIZE = 32 * CHUNKSIZE + 1024.
Proof. vm_compute. done. Qed.

(** A heap a little larger than a zone: the zone gets more chunks than it has
    headers. *)
Lemma zone_too_large :
  heap_max_zone (ZONE_MAX_SIZE + 3 * CHUNKSIZE) = Some 1 /\
  get_zone_size_idx 0 1 (ZONE_MAX_SIZE + 3 * CHUNKSIZE) = Some (MAX_CHUNK + 3).
Proof. vm_compute. done. Qed.

(** ** The classes *)

(** The class of the sizes of up to [k] blocks, checked for the largest of them. *)
Definition class_check (h : classes) (k : nat) : bool :=
  match cl_map h !! k with
  | Some bid =>
      match cl_units h !! Z.to_nat bid with
      | Some unit =>
          let size := Z.of_nat k * ALLOC_BLOCK_SIZE in
          (0 <=? bid) && (MIN_RUN_SIZE <=? unit) && (unit <=? RUNSIZE) && (unit mod ALLOC_BLOCK_SIZE =? 0) &&
          ((size - 1) / unit + 1 <=? RUN_UNIT_MAX) && ((size - 1) / unit + 1 <=? RUN_NALLOCS unit) &&
          (RUNSIZE mod unit <=? MAX_RUN_WASTED_BYTES)
      | None => false
      end
  | None => false
  end.

Lemma classes_checked :
  match make_classes with
  | Some h => cl_last_run_max_size h = MAX_RUN_SIZE /\ forallb (class_check h) (seq 1 2048) = true
  | None => False
  end.
Proof. vm_compute. split; reflexivity. Qed.

(** C40: the classes of sizes: [heap_buckets_init] serves all sizes up to half a chunk
    from runs, and for each of them the map has a bucket whose units are whole cache
    lines, of which at most eight, and no more than a run has, make a block that is
    large enough; a run of that class wastes at most [MAX_RUN_WASTED_BYTES]. *)
Theorem classes_cover size :
  1 <= size <= MAX_RUN_SIZE ->
  exists h bid unit, make_classes = Some h /\ cl_last_run_max_size h = MAX_RUN_SIZE /\
    SIZE_TO_BID h size = Some bid /\ cl_units h !! Z.to_nat bid = Some unit /\
    MIN_RUN_SIZE <= unit <= RUNSIZE /\ unit mod ALLOC_BLOCK_SIZE = 0 /\
    1 <= CALC_SIZE_IDX unit size <= RUN_UNIT_MAX /\ CALC_SIZE_IDX unit size <= RUN_NALLOCS unit /\
    size <= CALC_SIZE_IDX unit size * unit /\ RUNSIZE mod unit <= MAX_RUN_WASTED_BYTES.
Proof.
  intros Hs. change MAX_RUN_SIZE with 131072 in Hs. pose proof classes_checked as Hc.
  destruct make_classes as [h|]; [|done]. destruct Hc as [Hlast Hall]. exists h.
  set (k := SIZE_TO_ALLOC_BLOCKS size). unfold SIZE_TO_ALLOC_BLOCKS in k. change ALLOC_BLOCK_SIZE with 64 in k.
  pose proof (Z.div_mod (size - 1) 64 ltac:(lia)) as Hdm. pose proof (Z.mod_pos_bound (size - 1) 64 ltac:(lia)) as Hmb.
  assert (Hk : 1 <= k <= 2048 /\ size <= 64 * k) by (unfold k; lia). rewrite forallb_forall in Hall.
  specialize (Hall (Z.to_nat k)). rewrite in_seq in Hall. specialize (Hall ltac:(lia)). unfold class_check in Hall.
  unfold SIZE_TO_BID, SIZE_TO_ALLOC_BLOCKS. change ALLOC_BLOCK_SIZE with 64 in *. fold k. clearbody k.
  destruct (cl_map h !! Z.to_nat k) as [bid|]; [|done]. destruct (cl_units h !! Z.to_nat bid) as [unit|] eqn:Eu; [|done].
  rewrite Z2Nat.id in Hall by lia. rewrite !andb_true_iff, !Z.leb_le, Z.eqb_eq in Hall. destruct Hall as ((((((B0 & B1) & B2) & B3) & B4) & B5) & B6).
  exists bid, unit. change MIN_RUN_SIZE with 128 in *. change RUN_UNIT_MAX with 8 in *.
  assert (Hle : (size - 1) / unit <= (k * 64 - 1) / unit) by (apply Z.div_le_mono; lia).
  assert (Hp : 0 <= (size - 1) / unit) by (apply Z.div_pos; lia).
  unfold CALC_SIZE_IDX. rewrite u32_small by lia. split_and!; try done; try lia.
  pose proof (Z.div_mod (size - 1) unit ltac:(lia)). pose proof (Z.mod_pos_bound (size - 1) unit ltac:(lia)). nia.
Qed.

Lemma classes_cover_witness :
  exists h bid unit, make_classes = Some h /\ SIZE_TO_BID h 1000 = Some bid /\ cl_units h !! Z.to_nat bid = Some unit /\
    1 <= CALC_SIZE_IDX unit 1000 <= RUN_UNIT_MAX /\ 1000 <= CALC_SIZE_IDX unit 1000 * unit.
Proof.
  destruct (classes_cover 1000) as (h & bid & unit & H1 & _ & H2 & H3 & _ & _ & H4 & _ & H5 & _);
    [vm_compute; split; discriminate|]. exists h, bid, unit. split_and!; assumption || (destruct H4; assumption).
Defined.

(** ** Classes for existing runs *)

(** The class that the map names for a unit size has that unit size. *)
Definition served (h : classes) (bs : Z) : bool :=
  match SIZE_TO_BID h bs with
  | Some bid => bool_decide (cl_units h !! Z.to_nat bid = Some bs)
  | None => false
  end.

(** The sizes [S] of the runs in a heap can all be served. *)
Record classes_ok (S : list Z) (h : classes) : Prop := {
  co_map x : x ∈ cl_map h -> 0 <= x < Z.of_nat (length (cl_units h));
  co_sizes bs : bs ∈ S -> bs mod ALLOC_BLOCK_SIZE = 0 /\ 0 < bs /\ (Z.to_nat (bs / ALLOC_BLOCK_SIZE) < length (cl_map h))%nat;
  co_room : Z.of_nat (length (cl_units h) + length (filter (fun bs => served h bs = false) S)) <= MAX_BUCKETS;
  co_units u : u ∈ cl_units h -> u ∈ S;
}.

Lemma size_blocks bs : bs mod ALLOC_BLOCK_SIZE = 0 -> SIZE_TO_ALLOC_BLOCKS bs = bs / ALLOC_BLOCK_SIZE.
Proof.
  intros H. unfold SIZE_TO_ALLOC_BLOCKS. change ALLOC_BLOCK_SIZE with 64 in *. pose proof (Z.div_mod bs 64 ltac:(lia)) as E.
  rewrite H, Z.add_0_r in E. rewrite E at 1. replace (64 * (bs / 64) - 1) with (63 + (bs / 64 - 1) * 64) by lia. rewrite Z.div_add by lia.
  change (63 / 64) with 0. lia.
Qed.

Lemma register_one h bid k : 0 <= k ->
  heap_register_bucket_range h bid k k = mkClasses (cl_units h) (<[Z.to_nat k := bid]> (cl_map h)) (cl_last_run_max_size h).
Proof. intros Hk. unfold heap_register_bucket_range. by replace (Z.to_nat (k - k + 1)) with 1%nat by lia. Qed.

(** After a class has been made for [bs] it is served, and the others as before. *)
Lemma served_new h bs bs' :
  bs mod ALLOC_BLOCK_SIZE = 0 -> 0 < bs -> (Z.to_nat (bs / ALLOC_BLOCK_SIZE) < length (cl_map h))%nat ->
  bs' mod ALLOC_BLOCK_SIZE = 0 -> 0 < bs' -> (forall x, x ∈ cl_map h -> 0 <= x < Z.of_nat (length (cl_units h))) ->
  let h' := mkClasses (cl_units h ++ [bs]) (<[Z.to_nat (bs / ALLOC_BLOCK_SIZE) := Z.of_nat (length (cl_units h))]> (cl_map h))
              (cl_last_run_max_size h) in
  served h' bs' = if bs' =? bs then true else served h bs'.
Proof.
  intros H1 H2 H3 H4 H5 Hmap h'. unfold served, SIZE_TO_BID. rewrite size_blocks by done. simpl.
  assert (Hdiv : forall b, b mod ALLOC_BLOCK_SIZE = 0 -> b = 64 * (b / 64)).
  { intros b Hb. change ALLOC_BLOCK_SIZE with 64 in Hb. pose proof (Z.div_mod b 64 ltac:(lia)). lia. }
  destruct (Z.eqb_spec bs' bs) as [->|Hne].
  - rewrite list_lookup_insert_eq by done. simpl. rewrite bool_decide_true; [done|].
    rewrite lookup_app_r, Nat2Z.id, Nat.sub_diag by lia. done.
  - rewrite list_lookup_insert_ne.
    + destruct (cl_map h !! _) as [bid|] eqn:E; [|done]. apply list_elem_of_lookup_2, Hmap in E. rewrite lookup_app_l by lia. done.
    + change ALLOC_BLOCK_SIZE with 64 in *. pose proof (Hdiv bs H1). pose proof (Hdiv bs' H4). lia.
Qed.

Lemma filter_shrink (f g : Z -> bool) (l : list Z) x :
  x ∈ l -> f x = false -> g x = true -> (forall y, y ∈ l -> y <> x -> g y = f y) ->
  (length (filter (fun y => g y = false) l) < length (filter (fun y => f y = false) l))%nat.
Proof.
  intros Hx Hf Hg Heq. assert (Hle : forall l', (forall y, y ∈ l' -> y ∈ l) ->
    (length (filter (fun y => g y = false) l') <= length (filter (fun y => f y = false) l'))%nat).
  { induction l' as [|y l' IH]; intros Hs; [done|]. rewrite !filter_cons.
    pose proof (IH (fun y' H => Hs y' (list_elem_of_further y' y l' H))) as IH'.
    destruct (decide (y = x)) as [->|Hne].
    - rewrite decide_False by congruence. case_decide; simpl; lia.
    - rewrite (Heq y) by (done || apply Hs; left). case_decide; simpl; lia. }
  apply list_elem_of_split in Hx as (l1 & l2 & ->). rewrite !filter_app, !length_app, !filter_cons.
  rewrite decide_False, decide_True by congruence. simpl.
  pose proof (Hle l1 ltac:(intros y Hy; apply elem_of_app; by left)). pose proof (Hle l2 ltac:(intros y Hy; apply elem_of_app; right; by right)). lia.
Qed.

(** A class for a run is found or made, and there remain enough slots for the others. *)
Lemma get_create_spec S h bs :
  classes_ok S h -> bs ∈ S ->
  exists bid h', heap_get_create_bucket_idx_by_unit_size h bs = Some (bid, h') /\ classes_ok S h' /\
    cl_units h' !! Z.to_nat bid = Some bs /\ 0 <= bid < MAX_BUCKETS /\ cl_units h `prefix_of` cl_units h'.
Proof.
  intros [Hmap Hsz Hroom Hun] Hbs. pose proof (Hsz bs Hbs) as (B1 & B2 & B3). unfold heap_get_create_bucket_idx_by_unit_size.
  unfold SIZE_TO_BID. rewrite size_blocks by done. destruct (lookup_lt_is_Some_2 _ _ B3) as [bid E]. rewrite E. cbn [mbind option_bind].
  pose proof (Hmap bid (list_elem_of_lookup_2 _ _ _ E)) as Hbid.
  destruct (lookup_lt_is_Some_2 (cl_units h) (Z.to_nat bid)) as [unit Eu]; [lia|]. rewrite Eu. cbn [mbind option_bind].
  destruct (Z.eqb_spec unit bs) as [->|Hne].
  { exists bid, h. split_and!; try done; lia. }
  assert (Hns : served h bs = false).
  { unfold served, SIZE_TO_BID. rewrite size_blocks, E by done. rewrite Eu. apply bool_decide_false. congruence. }
  assert (Hlen : (0 < length (filter (fun bs => served h bs = false) S))%nat).
  { destruct (filter _ S) as [|? ?] eqn:Ef; [|simpl; lia]. assert (Hc : bs ∈ filter (fun bs => served h bs = false) S) by by apply list_elem_of_filter.
    rewrite Ef in Hc. by apply elem_of_nil in Hc. }
  unfold heap_create_alloc_class_buckets. rewrite (proj2 (Z.ltb_lt _ _)) by lia.
  destruct (Z.eqb_spec bs MAX_BUCKETS) as [->|_]; [done|]. rewrite register_one by (apply Z.div_pos; done || lia). simpl.
  eexists _, _. split; [done|]. split_and!; try lia; simpl.
  - split; simpl.
    + intros x [j Hx]%list_elem_of_lookup. rewrite length_app. simpl. destruct (decide (j = Z.to_nat (bs / ALLOC_BLOCK_SIZE))) as [->|Hj].
      * rewrite list_lookup_insert_eq in Hx by done. injection Hx as <-. lia.
      * rewrite list_lookup_insert_ne in Hx by done. apply list_elem_of_lookup_2, Hmap in Hx. lia.
    + intros b Hb. rewrite length_insert. by apply Hsz.
    + rewrite length_app. simpl. enough (length (filter (fun b => served (mkClasses (cl_units h ++ [bs]) (<[Z.to_nat (bs / ALLOC_BLOCK_SIZE) := Z.of_nat (length (cl_units h))]> (cl_map h)) (cl_last_run_max_size h)) b = false) S)
        < length (filter (fun b => served h b = false) S))%nat by lia.
      apply filter_shrink with bs; [done|done| |].
      * rewrite served_new, Z.eqb_refl by done. done.
      * intros y Hy Hyne. destruct (Hsz y Hy) as (? & ? & ?). rewrite served_new by done. by rewrite (proj2 (Z.eqb_neq y bs)).
    + intros u [Hu| ->%list_elem_of_singleton]%elem_of_app; [by apply Hun|done].
  - by rewrite Nat2Z.id, lookup_app_r, Nat.sub_diag by lia.
  - by apply prefix_app_r.
Qed.

(** The classes that are made for a new heap serve the runs that were created with them. *)
Lemma made_classes_ok : exists h, make_classes = Some h /\ classes_ok (cl_units h) h.
Proof.
  assert (Hc : (fun h =>
    forallb (fun x => (0 <=? x) && (x <? Z.of_nat (length (cl_units h)))) (cl_map h) &&
    forallb (fun bs => (bs mod ALLOC_BLOCK_SIZE =? 0) && (0 <? bs) && (bs / ALLOC_BLOCK_SIZE <? Z.of_nat (length (cl_map h)))) (cl_units h) &&
    (Z.of_nat (length (cl_units h) + length (filter (fun bs => served h bs = false) (cl_units h))) <=? MAX_BUCKETS)) <$> make_classes = Some true)
    by (vm_compute; reflexivity).
  destruct make_classes as [h|] eqn:E; [|done]. exists h. split; [done|]. simpl in Hc. injection Hc as Hc.
  apply andb_true_iff in Hc as [[Hc1 Hc2]%andb_true_iff Hc3]. rewrite forallb_forall in Hc1, Hc2. split.
  - intros x Hx. apply list_elem_of_In, Hc1 in Hx. lia.
  - intros bs Hbs. apply list_elem_of_In, Hc2 in Hbs. apply andb_true_iff in Hbs as [[H1%Z.eqb_eq H2%Z.ltb_lt]%andb_true_iff H3%Z.ltb_lt].
    split_and!; [done|done|]. apply Nat2Z.inj_lt. rewrite Z2Nat.id; [done|]. apply Z.div_pos; [lia|done].
  - by apply Z.leb_le.
  - done.
Qed.

(** The class that the map names for the size of a unit is not always the class with
    that unit: when a heap with a run of 3008 bytes is opened, a new class is made
    for it, although the classes are the same as when the run was created. *)
Lemma unit_class_differs :
  (fun h => (bool_decide (3008 ∈ cl_units h), bid ← SIZE_TO_BID h 3008; cl_units h !! Z.to_nat bid)) <$> make_classes = Some (true, Some 3072).
Proof. vm_compute. reflexivity. Qed.
