(* ===== verification/HeapRun.v ===== *)
(** * Runs: [nvml/src/libpmemobj/heap.c] and [memblock.c]

    A run is a chunk that is divided into small blocks, with one bit for each of them
    in a bitmap; a set bit is a used block.  The file models how a run is created, how
    its bitmap is turned into free blocks for a bucket ([heap_process_run_metadata],
    [heap_run_insert]), how bits are changed for a block ([run_prep_operation_hdr]) and
    how the free neighbours of a block are found ([heap_run_get_block]).

    The theorems: the blocks made of a bitmap are exactly the longest free ranges
    within groups of [unit_max] bits, which are also what the search for neighbours
    finds; a change of a block changes its bits and no others; a run that is created
    is complete before it is visible. *)

From S2P Require Import Prelude Pmem Programs Ctree Bucket.

Local Open Scope pmtest_scope.

(** ** Words of a run ([struct chunk_run]) *)

Definition run_block_size_word (run : Z) : Z := run.
Definition run_bucket_vptr (run : Z) : Z := run + 8.
Definition run_bitmap_word (run i : Z) : Z := run + 16 + 8 * i.
Definition run_data (run : Z) : Z := run + RUN_METASIZE.

Definition UINT64_ALL : Z := 2 ^ 64 - 1.
Definition BIT_IS_CLR (a i : Z) : bool := negb (Z.testbit a i).

(** ** Free blocks of a run *)

(** The loop of [heap_run_insert]: the blocks handed to the bucket. *)
Fixpoint run_insert_loop (fuel : nat) (unit_max chunk zone m_size m_off size : Z) : option (list memory_block) :=
  match fuel with
  | O => None
  | S fuel =>
      if (m_size <=? UINT16_MAX) && (m_off + m_size <=? UINT16_MAX) then
        let size' := size - m_size in
        rest ← (if size' =? 0 then Some []
                else run_insert_loop fuel unit_max chunk zone (if unit_max <? size' then unit_max else size') (m_off + m_size) size');
        Some (mkBlock chunk zone m_size m_off :: rest)
      else None
  end.

(** [None] is a failing assertion. *)
Definition heap_run_insert (nallocs unit_max chunk zone size off : Z) : option (list memory_block) :=
  if (size <=? BITS_PER_VALUE) && (off + size <=? nallocs) then
    let m_size := unit_max - off mod unit_max in
    let m_size := if size <? m_size then size else m_size in
    run_insert_loop 65 unit_max chunk zone m_size off size
  else None.

(** The inner loop of [heap_process_run_metadata] from bit [j] of the value [v] on:
    the calls of [heap_run_insert] as pairs of a size and an offset, the offset and the
    size of the range that is being collected, and whether the end of the run has been
    reached. *)
Fixpoint scan_bits (n : nat) (v j block_off block_size_idx run_bits : Z) : option (list (Z * Z) * Z * Z * bool) :=
  match n with
  | O => Some ([], block_off, block_size_idx, false)
  | S n =>
      '(ins, size) ← (if BIT_IS_CLR v j then Some ([], block_size_idx + 1)
                      else if negb (block_size_idx =? 0)
                      then if block_size_idx <=? block_off then Some ([(block_size_idx, block_off - block_size_idx)], 0) else None
                      else Some ([], block_size_idx));
      if block_off =? run_bits then Some (ins, block_off + 1, size, true)
      else '(ins', off, size, stop) ← scan_bits n v (j + 1) (block_off + 1) size run_bits;
           Some (ins ++ ins', off, size, stop)
  end.

(** The body of the outer loop for the value [v] at [i]. *)
Definition scan_value (v i run_bits : Z) : option (list (Z * Z) * bool) :=
  if BITS_PER_VALUE * i <=? UINT16_MAX then
    let block_off := BITS_PER_VALUE * i in
    if v =? 0 then Some ([(BITS_PER_VALUE, block_off)], false)
    else if v =? UINT64_ALL then Some ([], false)
    else
      '(ins, off, size, stop) ← scan_bits 64 v 0 block_off 0 run_bits;
      if negb (size =? 0) then if size <=? off then Some (ins ++ [(size, off - size)], stop) else None
      else Some (ins, stop)
  else None.

Fixpoint scan_values (n : nat) (bitmap : Z -> Z) (i run_bits : Z) : option (list (Z * Z)) :=
  match n with
  | O => Some []
  | S n =>
      '(ins, stop) ← scan_value (bitmap i) i run_bits;
      if stop : bool then Some ins
      else ins' ← scan_values n bitmap (i + 1) run_bits; Some (ins ++ ins')
  end.

Fixpoint insert_ranges (nallocs unit_max chunk zone : Z) (l : list (Z * Z)) : option (list memory_block) :=
  match l with
  | [] => Some []
  | (size, off) :: l =>
      bs ← heap_run_insert nallocs unit_max chunk zone size off;
      bs' ← insert_ranges nallocs unit_max chunk zone l;
      Some (bs ++ bs')
  end.

(** [heap_process_run_metadata] for a run with blocks of [block_size] and a bucket with
    [nval], [nallocs] and [unit_max]: the blocks it inserts. *)
Definition heap_process_run_metadata (nval nallocs unit_max block_size : Z) (bitmap : Z -> Z) (chunk zone : Z) :
    option (list memory_block) :=
  let run_bits := RUNSIZE / block_size in
  if (RUN_NALLOCS block_size <=? UINT16_MAX) && (run_bits <? MAX_BITMAP_VALUES * BITS_PER_VALUE) then
    l ← scan_values (Z.to_nat nval) bitmap 0 run_bits;
    insert_ranges nallocs unit_max chunk zone l
  else None.

(** The insertions into the container of the bucket; their results are ignored. *)
Fixpoint insert_blocks (mallocs : nat -> bool * bool) (tree : ctree) (bs : list memory_block) : option ctree :=
  match bs with
  | [] => Some tree
  | m :: bs =>
      '(tree, _) ← bucket_tree_insert_block (mallocs (length bs)) tree m;
      insert_blocks mallocs tree bs
  end.

(** ** Splitting a range into groups *)

(** [m] is the part of the range in one group of [um] bits. *)
Definition part (um chunk zone size off : Z) (m : memory_block) : Prop :=
  chunk_id m = chunk /\ zone_id m = zone /\
  off <= block_off m /\ 1 <= size_idx m /\ block_off m + size_idx m <= off + size /\
  block_off m mod um + size_idx m <= um /\
  (block_off m = off \/ block_off m mod um = 0) /\
  (block_off m + size_idx m = off + size \/ block_off m mod um + size_idx m = um).

Lemma mod_within um off x : 0 < um -> off <= x < off + (um - off mod um) -> x mod um = off mod um + (x - off).
Proof.
  intros Hum Hx. pose proof (Z.mod_pos_bound off um Hum). symmetry. apply Z.mod_unique_pos with (off / um); [lia|].
  pose proof (Z.div_mod off um ltac:(lia)). lia.
Qed.

Lemma mod_next um off : 0 < um -> (off + (um - off mod um)) mod um = 0.
Proof.
  intros Hum. pose proof (Z.div_mod off um ltac:(lia)).
  replace (off + (um - off mod um)) with ((off / um + 1) * um) by lia. apply Z.mod_mul. lia.
Qed.

(** The first part and the parts of the rest. *)
Lemma part_first um chunk zone size off m :
  0 < um -> 1 <= size <= um - off mod um -> part um chunk zone size off m <-> m = mkBlock chunk zone size off.
Proof.
  intros Hum Hs. pose proof (Z.mod_pos_bound off um Hum). unfold part. split.
  - intros (<- & <- & H1 & H2 & H3 & H4 & H5 & H6). rewrite (mod_within um off) in * by lia.
    destruct m as [c z s o]; simpl in *. assert (o = off) as -> by lia. f_equal. lia.
  - intros ->. simpl. lia.
Qed.

Lemma part_step um chunk zone size off m :
  0 < um -> um - off mod um < size ->
  part um chunk zone size off m <->
  m = mkBlock chunk zone (um - off mod um) off \/ part um chunk zone (size - (um - off mod um)) (off + (um - off mod um)) m.
Proof.
  intros Hum Hs. pose proof (Z.mod_pos_bound off um Hum) as Hm. pose proof (mod_next um off Hum) as Hn.
  set (k := um - off mod um) in *. unfold part. split.
  - intros (<- & <- & H1 & H2 & H3 & H4 & H5 & H6).
    destruct (Z.lt_ge_cases (block_off m) (off + k)) as [Hlt|Hge].
    + left. rewrite (mod_within um off) in * by lia. destruct m as [c z s o]; simpl in *.
      assert (o = off) as -> by lia. f_equal. lia.
    + right. split_and!; try done; try lia.
  - intros [->|(-> & -> & H1 & H2 & H3 & H4 & H5 & H6)]; simpl.
    + split_and!; try done; lia.
    + split_and!; try done; try lia. destruct H5 as [->|?]; [right; exact Hn|by right].
Qed.

Lemma run_insert_loop_spec fuel um chunk zone m_size off size :
  0 < um -> 1 <= size -> 0 <= off -> off + size <= UINT16_MAX -> m_size = Z.min size (um - off mod um) -> size <= Z.of_nat fuel ->
  exists bs, run_insert_loop fuel um chunk zone m_size off size = Some bs /\ NoDup bs /\
    forall m, m ∈ bs <-> part um chunk zone size off m.
Proof.
  intros Hum. revert m_size off size. induction fuel as [|fuel IH]; intros m_size off size Hs Ho Hmax Em Hf; [lia|].
  cbn [run_insert_loop]. pose proof (Z.mod_pos_bound off um Hum) as Hm. unfold UINT16_MAX in *.
  rewrite (proj2 (Z.leb_le m_size _)), (proj2 (Z.leb_le (off + m_size) _)) by lia. cbn [andb].
  destruct (Z.eqb_spec (size - m_size) 0) as [E|E]; simpl.
  - exists [mkBlock chunk zone m_size off]. split; [done|]. split; [apply NoDup_singleton|]. intros m.
    assert (m_size = size) as -> by lia. rewrite list_elem_of_singleton, part_first by lia. done.
  - pose proof (mod_next um off Hum) as Hn. assert (m_size = um - off mod um) as -> by lia.
    set (k := um - off mod um) in *.
    destruct (IH (if um <? size - k then um else size - k) (off + k) (size - k)) as (bs & -> & Hnd & Hbs); try lia.
    { rewrite Hn, Z.sub_0_r. destruct (Z.ltb_spec um (size - k)); lia. }
    eexists. split; [reflexivity|]. split.
    + apply NoDup_cons. split; [|done]. rewrite Hbs. intros (_ & _ & H1 & _). simpl in H1. lia.
    + intros m. rewrite elem_of_cons, Hbs. symmetry. apply part_step; lia.
Qed.

Lemma heap_run_insert_spec nallocs um chunk zone size off :
  0 < um -> 1 <= size <= BITS_PER_VALUE -> 0 <= off -> off + size <= nallocs <= UINT16_MAX ->
  exists bs, heap_run_insert nallocs um chunk zone size off = Some bs /\ NoDup bs /\
    forall m, m ∈ bs <-> part um chunk zone size off m.
Proof.
  intros Hum Hs Ho Hn. unfold heap_run_insert. rewrite (proj2 (Z.leb_le size _)), (proj2 (Z.leb_le (off + size) _)) by lia.
  cbn [andb]. unfold BITS_PER_VALUE in *. apply run_insert_loop_spec; try lia. case_match; lia.
Qed.

(** ** Scanning a value *)

Section Scan.
Context (v base : Z).

Local Abbreviation bit p := (Z.testbit v (p - base)).

Definition clear (a b : Z) : Prop := forall p, a <= p < b -> bit p = false.

(** A longest range of clear bits of the value. *)
Record longest (r : Z * Z) : Prop := {
  lg_range : base <= r.2 /\ 1 <= r.1 /\ r.2 + r.1 <= base + 64;
  lg_clear : clear r.2 (r.2 + r.1);
  lg_left : r.2 = base \/ bit (r.2 - 1) = true;
  lg_right : r.2 + r.1 = base + 64 \/ bit (r.2 + r.1) = true;
}.

Definition covers (r : Z * Z) (p : Z) : Prop := r.2 <= p < r.2 + r.1.

(** The range that is being collected before the bit [off]. *)
Record collected (off size : Z) : Prop := {
  cl_range : 0 <= size <= off - base;
  cl_clear : clear (off - size) off;
  cl_left : off - size = base \/ bit (off - size - 1) = true;
}.

Lemma collected_set off size :
  collected off size -> bit off = true -> collected (off + 1) 0.
Proof.
  intros [C1 C2 C3] Hb. split; [lia|intros p Hp; lia|]. right. by rewrite Z.sub_0_r, Z.add_simpl_r.
Qed.

Lemma collected_clear off size :
  collected off size -> bit off = false -> collected (off + 1) (size + 1).
Proof.
  intros [C1 C2 C3] Hb. replace (off + 1 - (size + 1)) with (off - size) by lia. split; [lia| |].
  - replace (off + 1 - (size + 1)) with (off - size) by lia. intros p Hp. destruct (decide (p = off)) as [->|]; [done|].
    apply C2. lia.
  - by replace (off + 1 - (size + 1)) with (off - size) by lia.
Qed.

Lemma collected_longest off size :
  collected off size -> size <> 0 -> (off = base + 64 \/ off < base + 64 /\ bit off = true) -> longest (size, off - size).
Proof.
  intros [C1 C2 C3] Hs Hb. assert (E : off - size + size = off) by lia.
  split; simpl; rewrite ?E; [lia|done|done|]. destruct Hb as [->|[_ Hb]]; [by left|by right].
Qed.

(** One step: what is inserted at a bit, and the range collected after it. *)
Lemma scan_step off size :
  0 <= base -> collected off size -> off < base + 64 ->
  exists ins size', (if BIT_IS_CLR v (off - base) then Some ([], size + 1)
      else if negb (size =? 0) then if size <=? off then Some ([(size, off - size)], 0) else None
      else Some ([], size)) = Some (ins, size') /\
    Forall longest ins /\ collected (off + 1) size' /\ (bit off = true -> size' = 0) /\
    forall p, off - size <= p <= off -> bit p = false -> Exists (fun r => covers r p) ins \/ off + 1 - size' <= p.
Proof.
  intros Hb C Hlt. unfold BIT_IS_CLR. destruct (bit off) eqn:Eb; cbn [negb].
  - destruct (Z.eqb_spec size 0) as [->|Hs]; cbn [negb].
    + exists [], 0. split_and!; [done|constructor|by apply collected_set with 0|done|].
      intros p Hp Hc. assert (p = off) as -> by lia. congruence.
    + pose proof (cl_range _ _ C). rewrite (proj2 (Z.leb_le size off)) by lia. eexists [_], 0. split_and!; [done| |by apply collected_set with size|done|].
      * constructor; [|constructor]. apply collected_longest; auto.
      * intros p Hp Hc. left. constructor. unfold covers. simpl. destruct (decide (p = off)) as [->|]; [congruence|lia].
  - exists [], (size + 1). split_and!; [done|constructor|by apply collected_clear|done|]. intros p Hp Hc. right. lia.
Qed.

Lemma scan_bits_spec n j off size run_bits :
  0 <= base -> j = off - base -> j + Z.of_nat n = 64 -> collected off size ->
  (forall p, base <= p < base + 64 -> run_bits <= p -> bit p = true) ->
  exists ins off' size' stop, scan_bits n v j off size run_bits = Some (ins, off', size', stop) /\
    Forall longest ins /\ collected off' size' /\ (size' = 0 \/ off' = base + 64) /\ (stop = true -> run_bits < base + 64) /\
    (forall p, off - size <= p < base + 64 -> bit p = false -> Exists (fun r => covers r p) ins \/ off' - size' <= p < off').
Proof.
  intros Hb. revert j off size. induction n as [|n IH]; intros j off size -> Hn C Hend.
  { exists [], off, size, false. split_and!; [done|constructor|done|right; lia|done|]. intros p Hp _. right. lia. }
  cbn [scan_bits]. destruct (scan_step off size Hb C ltac:(lia)) as (ins & size' & -> & L & C' & Hz & Hcov). simpl.
  destruct (Z.eqb_spec off run_bits) as [->|Hr].
  - exists ins, (run_bits + 1), size', true. pose proof (cl_range _ _ C). rewrite Hz in * by (apply Hend; lia).
    split_and!; [done|done|done|by left|lia|]. intros p Hp Hc.
    destruct (Z.le_gt_cases p run_bits) as [Hle|Hgt]; [|rewrite Hend in Hc by lia; done].
    destruct (Hcov p ltac:(lia) Hc) as [?|?]; [by left|lia].
  - destruct (IH (off - base + 1) (off + 1) size') as (ins' & off' & size'' & stop & -> & L' & C'' & Hor & Hst & Hcov'); [lia|lia|done|done|].
    simpl. eexists _, off', size'', stop. split; [done|]. split_and!; [by apply Forall_app|done|done|done|].
    intros p Hp Hc. rewrite Exists_app. destruct (Z.le_gt_cases p off) as [Hle|Hgt].
    + destruct (Hcov p ltac:(lia) Hc) as [?|Hge]; [by left; left|]. destruct (Hcov' p ltac:(lia) Hc); [left; by right|by right].
    + pose proof (cl_range _ _ C'). destruct (Hcov' p ltac:(lia) Hc); [left; by right|by right].
Qed.

End Scan.

(** The ranges of a value: longest, and all clear bits are in one of them. *)
Definition value_ranges (v base : Z) (l : list (Z * Z)) : Prop :=
  Forall (longest v base) l /\
  forall p, base <= p < base + 64 -> Z.testbit v (p - base) = false -> Exists (fun r => covers r p) l.

Lemma scan_value_spec v i run_bits :
  0 <= i -> 64 * i <= UINT16_MAX -> 0 <= v < 2 ^ 64 ->
  (forall p, 64 * i <= p < 64 * i + 64 -> run_bits <= p -> Z.testbit v (p - 64 * i) = true) ->
  exists l stop, scan_value v i run_bits = Some (l, stop) /\ value_ranges v (64 * i) l /\ (stop = true -> run_bits < 64 * i + 64).
Proof.
  intros Hi Hmax Hv Hend. unfold scan_value. change BITS_PER_VALUE with 64. rewrite (proj2 (Z.leb_le _ _) Hmax).
  destruct (Z.eqb_spec v 0) as [->|H0].
  { eexists _, false. split; [done|]. split; [|done]. split.
    - constructor; [|constructor]. split; simpl; [lia| |by left|by left]. intros p Hp. apply Z.bits_0.
    - intros p Hp _. constructor. unfold covers. simpl. lia. }
  destruct (Z.eqb_spec v UINT64_ALL) as [->|H1].
  { exists [], false. split; [done|]. split; [|done]. split; [constructor|]. intros p Hp Hc.
    change UINT64_ALL with (Z.ones 64) in Hc. rewrite Z.ones_spec_low in Hc by lia. done. }
  destruct (scan_bits_spec v (64 * i) 64 0 (64 * i) 0 run_bits) as (ins & off & size & stop & -> & L & C & Hor & Hst & Hcov);
    [lia|lia|done|split; [lia|intros p Hp; lia|left; lia]|done|].
  simpl. destruct (Z.eqb_spec size 0) as [->|Hs]; cbn [negb].
  - exists ins, stop. split; [done|]. split; [|done]. split; [done|]. intros p Hp Hc. destruct (Hcov p ltac:(lia) Hc); [done|lia].
  - pose proof (cl_range _ _ _ _ C). rewrite (proj2 (Z.leb_le size off)) by lia. eexists _, stop. split; [done|]. split; [|done]. split.
    + apply Forall_app. split; [done|]. constructor; [|constructor]. apply collected_longest; [done|done|]. left. lia.
    + intros p Hp Hc. apply Exists_app. destruct (Hcov p ltac:(lia) Hc); [by left|right]. constructor. unfold covers. simpl. lia.
Qed.

(** ** Free blocks of a bitmap *)

(** The group of [um] bits a bit is in. *)
Definition grp (um p : Z) : Z := um * (p / um).

Lemma grp_bounds um p : 0 < um -> grp um p <= p < grp um p + um.
Proof. intros H. unfold grp. pose proof (Z.div_mod p um ltac:(lia)). pose proof (Z.mod_pos_bound p um H). lia. Qed.

Lemma grp_mod um p : 0 < um -> p mod um = p - grp um p.
Proof. intros H. unfold grp. pose proof (Z.div_mod p um ltac:(lia)). lia. Qed.

Lemma grp_same um a p : 0 < um -> grp um a <= p < grp um a + um -> grp um p = grp um a.
Proof.
  intros H Hp. unfold grp in *. f_equal. symmetry. apply Z.div_unique_pos with (p - um * (a / um)); lia.
Qed.

Lemma grp_next um a p : 0 < um -> p = grp um a + um -> grp um p = p.
Proof.
  intros H ->. unfold grp. replace (um * (a / um) + um) with ((a / um + 1) * um) by lia. rewrite Z.div_mul; lia.
Qed.

(** A longest range of free units in a group. *)
Record free_block (um : Z) (used : Z -> bool) (m : memory_block) : Prop := {
  fb_size : 1 <= size_idx m;
  fb_group : block_off m + size_idx m <= grp um (block_off m) + um;
  fb_clear p : block_off m <= p < block_off m + size_idx m -> used p = false;
  fb_left : block_off m = grp um (block_off m) \/ used (block_off m - 1) = true;
  fb_right : block_off m + size_idx m = grp um (block_off m) + um \/ used (block_off m + size_idx m) = true;
}.

Definition has_unit (m : memory_block) (p : Z) : Prop := block_off m <= p < block_off m + size_idx m.
Definition same_chunk (m m' : memory_block) : Prop := chunk_id m = chunk_id m' /\ zone_id m = zone_id m'.

Lemma free_block_unique um used m m' p :
  0 < um -> same_chunk m m' -> free_block um used m -> free_block um used m' -> has_unit m p -> has_unit m' p -> m = m'.
Proof.
  intros Hum [Hc Hz] [S1 G1 C1 L1 R1] [S2 G2 C2 L2 R2] H1 H2. unfold has_unit in *.
  pose proof (grp_bounds um (block_off m) Hum). pose proof (grp_bounds um (block_off m') Hum).
  assert (E : grp um (block_off m) = grp um (block_off m')).
  { rewrite <-(grp_same um (block_off m) p), <-(grp_same um (block_off m') p) by lia. done. }
  assert (Eo : block_off m = block_off m').
  { destruct (Z.lt_trichotomy (block_off m) (block_off m')) as [Hlt|[?|Hlt]]; [|done|].
    - destruct L2 as [?|L2]; [lia|]. rewrite C1 in L2 by lia. done.
    - destruct L1 as [?|L1]; [lia|]. rewrite C2 in L1 by lia. done. }
  assert (Es : size_idx m = size_idx m').
  { destruct (Z.lt_trichotomy (size_idx m) (size_idx m')) as [Hlt|[?|Hlt]]; [|done|].
    - destruct R1 as [?|R1]; [lia|]. rewrite C2 in R1 by lia. done.
    - destruct R2 as [?|R2]; [lia|]. rewrite C1 in R2 by lia. done. }
  destruct m, m'; simpl in *. congruence.
Qed.

(** The parts of the ranges of a value are its free blocks. *)
Lemma parts_free um v base l m :
  0 < um -> (um | 64) -> base mod 64 = 0 -> value_ranges v base l ->
  (exists r, r ∈ l /\ part um (chunk_id m) (zone_id m) r.1 r.2 m) <->
  free_block um (fun p => Z.testbit v (p - base)) m /\ base <= block_off m /\ block_off m + size_idx m <= base + 64.
Proof.
  intros Hum [k Hk] Hb [L Hcov]. rewrite Forall_forall in L. pose proof (Z.div_mod base 64 ltac:(lia)) as Hdm.
  assert (Hbase : base = um * (k * (base / 64))) by (rewrite Z.mul_assoc, (Z.mul_comm um), <-Hk; lia).
  set (q := k * (base / 64)) in *. clearbody q.
  assert (Egb : grp um base = base) by (unfold grp; rewrite Hbase, (Z.mul_comm um q), Z.div_mul; lia).
  pose proof (grp_bounds um (block_off m) Hum) as Hg.
  unfold part. rewrite grp_mod by done. split.
  - intros (r & Hr & _ & _ & H1 & H2 & H3 & H4 & H5 & H6). destruct (L r Hr) as [[R1 [R2 R3]] Rc Rl Rr].
    split; [|lia]. split; [done|lia| | |].
    + intros p Hp. apply Rc. lia.
    + destruct H5 as [E|E]; [|left; lia]. rewrite E in *. destruct Rl as [->|Rl]; [left; done|by right].
    + destruct H6 as [E|E]; [|left; lia]. rewrite E in *. destruct Rr as [Rr|Rr]; [left|by right].
      rewrite Rr in *. assert (E64 : base + 64 = um * (q + k)) by lia. unfold grp in *.
      assert (block_off m / um < q + k) by (apply (Z.mul_lt_mono_pos_l um); lia).
      assert (q + k <= block_off m / um + 1) by (apply (Z.mul_le_mono_pos_l _ _ um); lia).
      assert (block_off m / um = q + k - 1) as -> by lia. lia.
  - intros ([S1 G1 C1 L1 R1] & H1 & H2).
    assert (Hx : Exists (fun r => covers r (block_off m)) l) by (apply Hcov; [lia|apply C1; lia]).
    apply Exists_exists in Hx as (r & Hr & Hc). unfold covers in Hc. destruct (L r Hr) as [[R0 [R2 R3]] Rc Rl Rr].
    exists r. split; [done|].
    assert (He : block_off m + size_idx m <= r.2 + r.1).
    { destruct (Z.le_gt_cases (block_off m + size_idx m) (r.2 + r.1)) as [|Hgt]; [done|].
      destruct Rr as [Rr|Rr]; [lia|]. rewrite C1 in Rr by lia. done. }
    split_and!; try done; try lia.
    + destruct L1 as [E|E]; [right; lia|left]. destruct (Z.eq_dec (block_off m) r.2) as [|Hne]; [done|].
      rewrite Rc in E by lia. done.
    + destruct R1 as [E|E]; [right; lia|left]. destruct (Z.eq_dec (block_off m + size_idx m) (r.2 + r.1)) as [|Hne]; [done|].
      rewrite Rc in E by lia. done.
Qed.

(** Whether a unit is used. *)
Definition used_unit (bitmap : Z -> Z) (p : Z) : bool := Z.testbit (bitmap (p / BITS_PER_VALUE)) (p mod BITS_PER_VALUE).

Lemma used_value bitmap i p : 64 * i <= p < 64 * i + 64 -> used_unit bitmap p = Z.testbit (bitmap i) (p - 64 * i).
Proof.
  intros Hp. unfold used_unit. change BITS_PER_VALUE with 64.
  rewrite <-(Z.div_unique_pos p 64 i (p - 64 * i)), <-(Z.mod_unique_pos p 64 i (p - 64 * i)) by lia. done.
Qed.

Lemma free_block_ext um used used' m :
  0 < um -> (forall p, grp um (block_off m) <= p < grp um (block_off m) + um -> used p = used' p) ->
  free_block um used m -> free_block um used' m.
Proof.
  intros Hum He [S1 G1 C1 L1 R1]. pose proof (grp_bounds um (block_off m) Hum) as Hg. split; [done|done| | |].
  - intros p Hp. rewrite <-He by lia. by apply C1.
  - destruct L1 as [?|L1]; [by left|]. destruct (Z.eq_dec (block_off m) (grp um (block_off m))) as [|Hne]; [by left|].
    right. by rewrite <-He by lia.
  - destruct R1 as [?|R1]; [by left|].
    destruct (Z.eq_dec (block_off m + size_idx m) (grp um (block_off m) + um)) as [|Hne]; [by left|].
    right. by rewrite <-He by lia.
Qed.

(** A group does not cross a boundary between values. *)
Lemma grp_in_value um p i : 0 < um -> (um | 64) -> 64 * i <= p < 64 * i + 64 -> 64 * i <= grp um p /\ grp um p + um <= 64 * i + 64.
Proof.
  intros Hum [k Hk] Hp. unfold grp. rewrite Hk in Hp |- *. pose proof (Z.div_mod p um ltac:(lia)). pose proof (Z.mod_pos_bound p um Hum).
  assert (k * i < p / um + 1) by (apply (Z.mul_lt_mono_pos_l um); lia).
  assert (p / um < k * i + k) by (apply (Z.mul_lt_mono_pos_l um); lia).
  assert (um * (k * i) <= um * (p / um)) by (apply Z.mul_le_mono_nonneg_l; lia).
  assert (um * (p / um + 1) <= um * (k * i + k)) by (apply Z.mul_le_mono_nonneg_l; lia). lia.
Qed.

(** The ranges found from the value [i] on. *)
Definition ranges_from (um : Z) (bitmap : Z -> Z) (i j run_bits : Z) (l : list (Z * Z)) : Prop :=
  Forall (fun r => 1 <= r.1 <= 64 /\ 0 <= r.2 /\ r.2 + r.1 <= run_bits) l /\
  forall m, (exists r, r ∈ l /\ part um (chunk_id m) (zone_id m) r.1 r.2 m) <->
    free_block um (used_unit bitmap) m /\ 64 * i <= block_off m /\ block_off m + size_idx m <= 64 * j.

Lemma ranges_app um bitmap i j run_bits l l' :
  0 < um -> (um | 64) -> 0 <= i -> i + 1 <= j ->
  ranges_from um bitmap i (i + 1) run_bits l -> ranges_from um bitmap (i + 1) j run_bits l' -> ranges_from um bitmap i j run_bits (l ++ l').
Proof.
  intros Hum Hd Hi Hij [F1 H1] [F2 H2]. split; [by apply Forall_app|]. intros m. specialize (H1 m). specialize (H2 m). split.
  - intros (r & [Hr|Hr]%elem_of_app & Hp).
    + destruct (proj1 H1) as (? & ? & ?); [by exists r|]. split_and!; [done|lia|lia].
    + destruct (proj1 H2) as (? & ? & ?); [by exists r|]. split_and!; [done|lia|lia].
  - intros (Hf & Ho & He). destruct (Z.lt_ge_cases (block_off m) (64 * i + 64)) as [Hlt|Hge].
    + pose proof (grp_in_value um (block_off m) i Hum Hd ltac:(lia)) as [_ Hg]. pose proof (fb_group _ _ _ Hf).
      destruct (proj2 H1) as (r & Hr & Hp); [split_and!; [done|lia|lia]|]. exists r. split; [apply elem_of_app; by left|done].
    + destruct (proj2 H2) as (r & Hr & Hp); [split_and!; [done|lia|lia]|]. exists r. split; [apply elem_of_app; by right|done].
Qed.

Lemma ranges_value um bitmap i run_bits l :
  0 < um -> (um | 64) -> 0 <= i -> (forall p, run_bits <= p < 64 * i + 64 -> used_unit bitmap p = true) ->
  value_ranges (bitmap i) (64 * i) l -> ranges_from um bitmap i (i + 1) run_bits l.
Proof.
  intros Hum Hd Hi Hend Hv. split.
  - eapply Forall_impl; [apply Hv|]. intros r [[R1 [R2 R3]] Rc _ _]. split; [lia|]. split; [lia|].
    destruct (Z.le_gt_cases (r.2 + r.1) run_bits) as [|Hgt]; [done|exfalso].
    set (p := r.2 + r.1 - 1). assert (Hp : used_unit bitmap p = true) by (apply Hend; lia).
    rewrite used_value with (i := i) in Hp by lia. rewrite Rc in Hp by lia. done.
  - intros m. assert (Hb : (64 * i) mod 64 = 0) by (rewrite Z.mul_comm; apply Z.mod_mul; lia).
    rewrite (parts_free um (bitmap i) (64 * i) l m Hum Hd Hb Hv). replace (64 * (i + 1)) with (64 * i + 64) by lia.
    split; intros (Hf & Ho & He); (split_and!; [|done|done]); pose proof (fb_size _ _ _ Hf);
      pose proof (grp_in_value um (block_off m) i Hum Hd ltac:(lia)); eapply free_block_ext; try exact Hf; try done;
      intros p Hp; rewrite used_value with (i := i) by lia; done.
Qed.

Lemma scan_values_spec um bitmap n i run_bits :
  0 < um -> (um | 64) -> 0 <= i -> 64 * (i + Z.of_nat n - 1) <= UINT16_MAX ->
  (forall j, i <= j < i + Z.of_nat n -> 0 <= bitmap j < 2 ^ 64) ->
  (forall p, run_bits <= p < 64 * (i + Z.of_nat n) -> used_unit bitmap p = true) ->
  exists l, scan_values n bitmap i run_bits = Some l /\ ranges_from um bitmap i (i + Z.of_nat n) run_bits l.
Proof.
  intros Hum Hd. revert i. induction n as [|n IH]; intros i Hi Hmax Hv Hend.
  { exists []. split; [done|]. split; [constructor|]. intros m. split; [by intros (r & ?%elem_of_nil & _)|].
    intros (Hf & ? & ?). pose proof (fb_size _ _ _ Hf). lia. }
  cbn [scan_values]. destruct (scan_value_spec (bitmap i) i run_bits) as (l & stop & -> & Hl & Hst);
    [done|unfold UINT16_MAX in *; lia|apply Hv; lia| |].
  { intros p Hp Hr. rewrite <-used_value by lia. apply Hend. lia. }
  simpl. assert (Hl' : ranges_from um bitmap i (i + 1) run_bits l).
  { apply ranges_value; try done. intros p Hp. apply Hend. lia. }
  destruct stop.
  - exists l. split; [done|]. rewrite <-(app_nil_r l). apply ranges_app; try done; try lia. split; [constructor|].
    intros m. split; [by intros (r & ?%elem_of_nil & _)|]. intros (Hf & Ho & He). pose proof (fb_size _ _ _ Hf).
    assert (Hc : used_unit bitmap (block_off m) = false) by (apply (fb_clear _ _ _ Hf); lia).
    rewrite Hend in Hc by (specialize (Hst eq_refl); lia). done.
  - destruct (IH (i + 1)) as (l' & -> & Hl2); try lia.
    { intros j Hj. apply Hv. lia. }
    { intros p Hp. apply Hend. lia. }
    exists (l ++ l'). split; [done|]. replace (i + Z.of_nat (S n)) with (i + 1 + Z.of_nat n) by lia.
    apply ranges_app; try done; lia.
Qed.

Lemma insert_ranges_spec nallocs um chunk zone l :
  0 < um -> nallocs <= UINT16_MAX -> Forall (fun r => 1 <= r.1 <= 64 /\ 0 <= r.2 /\ r.2 + r.1 <= nallocs) l ->
  exists bs, insert_ranges nallocs um chunk zone l = Some bs /\
    forall m, m ∈ bs <-> exists r, r ∈ l /\ part um chunk zone r.1 r.2 m.
Proof.
  intros Hum Hn. induction l as [|[size off] l IH]; intros Hl.
  { exists []. split; [done|]. intros m. split; [by intros ?%elem_of_nil|by intros (r & ?%elem_of_nil & _)]. }
  apply Forall_cons in Hl as [Hr Hl]. simpl in Hr. cbn [insert_ranges].
  destruct (heap_run_insert_spec nallocs um chunk zone size off) as (bs & -> & _ & Hbs); [done|unfold BITS_PER_VALUE; lia|lia|lia|].
  destruct (IH Hl) as (bs' & Ebs' & Hbs'). simpl. rewrite Ebs'. simpl. eexists. split; [reflexivity|].
  intros m. rewrite elem_of_app, Hbs, Hbs'. setoid_rewrite elem_of_cons. split.
  - intros [H|(r & Hr' & Hp)]; [by exists (size, off); split; [left|]|exists r; split; [by right|done]].
  - intros (r & [->|Hr'] & Hp); [by left|right; by exists r].
Qed.

(** The blocks [heap_process_run_metadata] inserts are the free blocks of the bitmap. *)
Lemma process_spec nval um unit_size bitmap chunk zone :
  0 < um -> (um | 64) -> MIN_RUN_SIZE <= unit_size <= RUNSIZE ->
  1 <= nval <= MAX_BITMAP_VALUES -> RUN_NALLOCS unit_size <= BITS_PER_VALUE * nval ->
  (forall i, 0 <= i < nval -> 0 <= bitmap i < 2 ^ 64) ->
  (forall p, RUN_NALLOCS unit_size <= p < BITS_PER_VALUE * nval -> used_unit bitmap p = true) ->
  exists bs, heap_process_run_metadata nval (RUN_NALLOCS unit_size) um unit_size bitmap chunk zone = Some bs /\
    forall m, m ∈ bs <-> chunk_id m = chunk /\ zone_id m = zone /\ free_block um (used_unit bitmap) m /\
      0 <= block_off m /\ block_off m + size_idx m <= RUN_NALLOCS unit_size.
Proof.
  intros Hum Hd Hu Hnv Hna Hv Hend. unfold heap_process_run_metadata. fold (RUN_NALLOCS unit_size).
  set (n := RUN_NALLOCS unit_size) in *. change (MAX_BITMAP_VALUES * BITS_PER_VALUE) with 2432. change UINT16_MAX with 65535.
  change BITS_PER_VALUE with 64 in *. change MAX_BITMAP_VALUES with 38 in *. change MIN_RUN_SIZE with 128 in *. change RUNSIZE with 261824 in Hu.
  assert (Hn : n <= 2045) by (unfold n, RUN_NALLOCS; change RUNSIZE with 261824; apply Z.lt_succ_r, Z.div_lt_upper_bound; lia).
  rewrite (proj2 (Z.leb_le n 65535)), (proj2 (Z.ltb_lt n 2432)) by lia. cbn [andb]. clearbody n.
  pose proof (Z2Nat.id nval ltac:(lia)) as Env.
  destruct (scan_values_spec um bitmap (Z.to_nat nval) 0 n) as (l & -> & Hl & Hm);
    [done|done|done|unfold UINT16_MAX; lia|intros j Hj; apply Hv; lia|intros p Hp; apply Hend; lia|].
  destruct (insert_ranges_spec n um chunk zone l) as (bs & Ebs & Hbs); [done|unfold UINT16_MAX; lia|done|].
  exists bs. simpl. split; [done|]. intros m. rewrite Hbs. split.
  - intros (r & Hr & Hp). pose proof Hp as (<- & <- & _ & _ & He & _).
    destruct (proj1 (Hm m)) as (Hf & H1 & H2); [by exists r|]. rewrite Forall_forall in Hl. pose proof (Hl r Hr).
    split_and!; try done; lia.
  - intros (<- & <- & Hf & H1 & H2). apply Hm. split_and!; [done|lia|lia].
Qed.
