(* ===== verification/Memblock.v ===== *)
(** * Memory blocks: [nvml/src/libpmemobj/memblock.c] and the block operations of [heap.c]

    A memory block is either huge, a number of chunks described by a chunk header, or
    a number of units of a run, described by bits of the bitmap of the run.  The file
    models the operations on both kinds that [memblock.c] chooses from by the type of
    the chunk, and the operations of [heap.c] that find the free neighbours of a block,
    merge it with them and return it ([heap_get_adjacent_free_block], [heap_coalesce],
    [heap_free_block]).

    The memory of the heap is that of [Programs]: a chunk header and each value of a
    bitmap are one word.  The locks of the runs are left out: the functions are modelled
    as one thread runs them. *)

From S2P Require Import Prelude Pmem Programs Redo RedoProofs Memops Ctree Bucket HeapLayout HeapRun.

Local Open Scope pmtest_scope.

(** ** Addresses and words *)

Section Layout.
(** [pop->hlayout]. *)
Context (hlayout : Z).

Definition zone_addr (zone_id : Z) : Z := hlayout + zone_start zone_id.
(** [&z->header], [&z->chunk_headers[i]] and [&z->chunks[i]]. *)
Definition zone_header_word (zone_id : Z) : Z := zone_addr zone_id.
Definition chunk_header_word (zone_id i : Z) : Z := zone_addr zone_id + sizeof_zone_header + sizeof_chunk_header * i.
Definition chunk_addr (zone_id i : Z) : Z := zone_addr zone_id + sizeof_zone + CHUNKSIZE * i.

End Layout.

(** [enum chunk_type]. *)
Definition CHUNK_TYPE_UNKNOWN : Z := 0.
Definition CHUNK_TYPE_FOOTER : Z := 1.
Definition CHUNK_TYPE_FREE : Z := 2.
Definition CHUNK_TYPE_USED : Z := 3.
Definition CHUNK_TYPE_RUN : Z := 4.
Definition MAX_CHUNK_TYPE : Z := 5.

(** The fields of a chunk header. *)
Definition hdr_type (w : Z) : Z := w mod 2 ^ 16.
Definition hdr_flags (w : Z) : Z := w / 2 ^ 16 mod 2 ^ 16.
Definition hdr_size_idx (w : Z) : Z := w / 2 ^ 32 mod 2 ^ 32.
Definition mk_header (type flags size_idx : Z) : Z := type + flags * 2 ^ 16 + size_idx * 2 ^ 32.

Definition chunk_get_chunk_hdr_value (type size_idx : Z) : Z := mk_header type 0 size_idx.

Inductive memory_block_type := MEMORY_BLOCK_HUGE | MEMORY_BLOCK_RUN.
Inductive memblock_hdr_op := HDR_OP_ALLOC | HDR_OP_FREE.

#[global] Instance memory_block_type_eq_dec : EqDecision memory_block_type.
Proof. solve_decision. Defined.
#[global] Instance memblock_hdr_op_eq_dec : EqDecision memblock_hdr_op.
Proof. solve_decision. Defined.

Definition u16 (x : Z) : Z := x mod 2 ^ 16.

Definition ENOENT : Z := 2.
Definition EINVAL : Z := 22.

(** ** [memblock.c] *)

Section Ops.
Context (hlayout : Z).

(** [None] is the [FATAL] of the code. *)
Definition memblock_autodetect_type (m : memory_block) (mem : pmem) : option memory_block_type :=
  let type := hdr_type (pm_read mem (chunk_header_word hlayout (zone_id m) (chunk_id m))) in
  if type =? CHUNK_TYPE_RUN then Some MEMORY_BLOCK_RUN
  else if (type =? CHUNK_TYPE_FREE) || (type =? CHUNK_TYPE_USED) || (type =? CHUNK_TYPE_FOOTER) then Some MEMORY_BLOCK_HUGE
  else None.

Definition run_of (m : memory_block) : Z := chunk_addr hlayout (zone_id m) (chunk_id m).

Definition huge_block_size : Z := CHUNKSIZE.
Definition run_block_size (m : memory_block) (mem : pmem) : Z := pm_read mem (run_block_size_word (run_of m)).

(** [heap_get_block_data]. *)
Definition heap_get_block_data (m : memory_block) (mem : pmem) : option Z :=
  if negb (hdr_type (pm_read mem (chunk_header_word hlayout (zone_id m) (chunk_id m))) =? CHUNK_TYPE_RUN) then Some (run_of m)
  else
    let block_size := pm_read mem (run_block_size_word (run_of m)) in
    if negb (block_size =? 0) then Some (run_data (run_of m) + block_size * block_off m) else None.

Definition huge_block_offset : Z := 0.
Definition run_block_offset (m : memory_block) (ptr : Z) (mem : pmem) : option Z :=
  let block_size := run_block_size m mem in
  data ← heap_get_block_data m mem;
  let diff := u64 (ptr - data) in
  if (diff <=? RUNSIZE) && (diff / block_size <=? UINT16_MAX) && (diff mod block_size =? 0) then Some (diff / block_size)
  else None.

Definition huge_prep_operation_hdr (m : memory_block) (op : memblock_hdr_op) (ctx : operation_context) (mem : pmem) :
    option operation_context :=
  let hdr := chunk_header_word hlayout (zone_id m) (chunk_id m) in
  let val := chunk_get_chunk_hdr_value (if decide (op = HDR_OP_ALLOC) then CHUNK_TYPE_USED else CHUNK_TYPE_FREE) (size_idx m) in
  ctx ← operation_add_entry ctx hdr val OPERATION_SET mem;
  if size_idx m =? 1 then Some ctx
  else
    let footer := hdr + sizeof_chunk_header * (size_idx m - 1) in
    let val := chunk_get_chunk_hdr_value CHUNK_TYPE_FOOTER (size_idx m) in
    operation_add_typed_entry ctx footer val OPERATION_SET ENTRY_TRANSIENT mem.

Definition run_bmask (m : memory_block) : Z :=
  u64 (Z.shiftl (u64 (u64 (Z.shiftl 1 (size_idx m)) - 1)) (block_off m mod BITS_PER_VALUE)).

Definition run_prep_operation_hdr (m : memory_block) (op : memblock_hdr_op) (ctx : operation_context) (mem : pmem) :
    option operation_context :=
  let bmask := run_bmask m in
  let bpos := block_off m / BITS_PER_VALUE in
  if decide (op = HDR_OP_ALLOC)
  then operation_add_entry ctx (run_bitmap_word (run_of m) bpos) bmask OPERATION_OR mem
  else operation_add_entry ctx (run_bitmap_word (run_of m) bpos) (u64 (Z.lnot bmask)) OPERATION_AND mem.

(** [MEMBLOCK_OPS(AUTO, m)]. *)
Definition block_size (m : memory_block) (mem : pmem) : option Z :=
  type ← memblock_autodetect_type m mem;
  Some (if decide (type = MEMORY_BLOCK_RUN) then run_block_size m mem else huge_block_size).
Definition block_offset (m : memory_block) (ptr : Z) (mem : pmem) : option Z :=
  type ← memblock_autodetect_type m mem;
  if decide (type = MEMORY_BLOCK_RUN) then run_block_offset m ptr mem else Some huge_block_offset.
Definition prep_hdr (m : memory_block) (op : memblock_hdr_op) (ctx : operation_context) (mem : pmem) : option operation_context :=
  type ← memblock_autodetect_type m mem;
  if decide (type = MEMORY_BLOCK_RUN) then run_prep_operation_hdr m op ctx mem else huge_prep_operation_hdr m op ctx mem.

(** ** Blocks of the heap *)

(** The loop of [heap_block_is_allocated] over the bits from [i]. *)
Fixpoint allocated_loop (n : nat) (bitmap i : Z) : bool :=
  match n with
  | O => false
  | S n => if negb (BIT_IS_CLR bitmap i) then true else allocated_loop n bitmap (i + 1)
  end.

Definition heap_block_is_allocated (m : memory_block) (mem : pmem) : option bool :=
  let type := hdr_type (pm_read mem (chunk_header_word hlayout (zone_id m) (chunk_id m))) in
  if type =? CHUNK_TYPE_USED then Some true
  else if type =? CHUNK_TYPE_FREE then Some false
  else if negb (type =? CHUNK_TYPE_RUN) then None
  else
    let v := block_off m / BITS_PER_VALUE in
    let bitmap := pm_read mem (run_bitmap_word (run_of m) v) in
    let b := block_off m mod BITS_PER_VALUE in
    let b_last := b + size_idx m in
    if b_last <=? BITS_PER_VALUE then Some (allocated_loop (Z.to_nat (size_idx m)) bitmap b) else None.

(** The loops of [heap_run_get_block]. *)
Fixpoint prev_loop (n : nat) (value unit_max i : Z) : Z :=
  match n with
  | O => i
  | S n => if negb (i mod unit_max =? 0) && BIT_IS_CLR value (i - 1) then prev_loop n value unit_max (i - 1) else i
  end.
Fixpoint next_loop (n : nat) (value unit_max i : Z) : Z :=
  match n with
  | O => i
  | S n => if negb (i mod unit_max =? 0) && BIT_IS_CLR value i then next_loop n value unit_max (i + 1) else i
  end.

(** The block found has the chunk of [m]. *)
Definition heap_run_get_block (unit_max : Z) (m : memory_block) (prev : bool) (mem : pmem) : option (Z * memory_block) :=
  let v := block_off m / BITS_PER_VALUE in
  let b := block_off m mod BITS_PER_VALUE in
  let value := pm_read mem (run_bitmap_word (run_of m) v) in
  mblock ← (if prev then
      let i := prev_loop (Z.to_nat b) value unit_max b in
      let off := u16 (v * BITS_PER_VALUE + i) in
      if off <=? block_off m then Some (mkBlock (chunk_id m) (zone_id m) (u16 (block_off m - off)) off) else None
    else
      let i := next_loop 64 value unit_max (b + size_idx m) in
      if block_off m + size_idx m <=? UINT16_MAX
      then Some (mkBlock (chunk_id m) (zone_id m) (i - (b + size_idx m)) (block_off m + size_idx m))
      else None);
  Some (if size_idx mblock =? 0 then ENOENT else 0, mblock).

(** The fields of [m] that are not set keep their values. *)
Definition heap_get_chunk (m : memory_block) (zone_id chunk_id : Z) (prev : bool) (mem : pmem) : Z * memory_block :=
  let header i := pm_read mem (chunk_header_word hlayout zone_id i) in
  let found i :=
    if negb (hdr_type (header i) =? CHUNK_TYPE_FREE) then (ENOENT, mkBlock i zone_id (size_idx m) (block_off m))
    else (0, mkBlock i zone_id (hdr_size_idx (header i)) (block_off m)) in
  if prev then
    if chunk_id =? 0 then (ENOENT, m)
    else found (u32 (chunk_id - hdr_size_idx (header (chunk_id - 1))))
  else
    if u32 (chunk_id + hdr_size_idx (header chunk_id)) =? hdr_size_idx (pm_read mem (zone_header_word hlayout zone_id)) then (ENOENT, m)
    else found (u32 (chunk_id + hdr_size_idx (header chunk_id))).

(** [m] is all zero in all callers; the bucket is its [unit_max] and its container. *)
Definition heap_get_adjacent_free_block (b : option (Z * ctree)) (cnt : memory_block) (prev : bool) (mem : pmem) :
    option (Z * memory_block) :=
  let m := mkBlock 0 (zone_id cnt) 0 0 in
  match b with
  | None => Some (EINVAL, m)
  | Some (unit_max, _) =>
      if hdr_type (pm_read mem (chunk_header_word hlayout (zone_id cnt) (chunk_id cnt))) =? CHUNK_TYPE_RUN
      then heap_run_get_block unit_max cnt prev mem
      else Some (heap_get_chunk m (zone_id cnt) (chunk_id cnt) prev mem)
  end.

(** The first block that is there, with the sum of the sizes. *)
Definition heap_coalesce (blocks : list (option memory_block)) (op : memblock_hdr_op) (ctx : option operation_context) (mem : pmem) :
    option (memory_block * option operation_context) :=
  let size := foldl (fun s b => match b with Some b => u32 (s + size_idx b) | None => s end) 0 blocks in
  b ← head (omap id blocks);
  let ret := mkBlock (chunk_id b) (zone_id b) size (block_off b) in
  match ctx with
  | None => Some (ret, None)
  | Some ctx => ctx ← prep_hdr ret op ctx mem; Some (ret, Some ctx)
  end.

(** A neighbour that is free and can be taken from the bucket, and the bucket after. *)
Definition take_adjacent (b : option (Z * ctree)) (m : memory_block) (prev : bool) (mem : pmem) :
    option (option memory_block * option (Z * ctree)) :=
  '(err, n) ← heap_get_adjacent_free_block b m prev mem;
  match b with
  | Some (unit_max, tree) =>
      if err =? 0 then
        '(err, tree) ← bucket_tree_get_rm_block_exact tree n;
        Some (if err =? 0 then Some n else None, Some (unit_max, tree))
      else Some (None, b)
  | None => Some (None, None)
  end.

Definition heap_free_block (b : option (Z * ctree)) (m : memory_block) (ctx : option operation_context) (mem : pmem) :
    option (memory_block * option (Z * ctree) * option operation_context) :=
  '(prev, b) ← take_adjacent b m true mem;
  '(next, b) ← take_adjacent b m false mem;
  '(res, ctx) ← heap_coalesce [prev; Some m; next] HDR_OP_FREE ctx mem;
  Some (res, b, ctx).

End Ops.

(** The run branch of [heap_recycle_block]: the units that are not needed go back to
    the bucket. *)
Definition recycle_run (mallocs : bool * bool) (tree : ctree) (m : memory_block) (units : Z) : option (ctree * memory_block) :=
  if (units <=? UINT16_MAX) && (block_off m + units <=? UINT16_MAX) then
    '(tree, _) ← bucket_tree_insert_block mallocs tree
                   (mkBlock (chunk_id m) (zone_id m) (size_idx m - units) (u16 (block_off m + units)));
    Some (tree, mkBlock (chunk_id m) (zone_id m) units (block_off m))
  else None.

(** The part of [heap_get_bestfit_block] after the bucket of a run had a block. *)
Definition take_from_run (mallocs : bool * bool) (tree : ctree) (units : Z) : option (Z * memory_block * ctree) :=
  '(err, m, tree) ← bucket_tree_get_rm_block_bestfit tree (mkBlock 0 0 units 0);
  if negb (err =? 0) then Some (err, m, tree)
  else if negb (units <=? size_idx m) then None
  else if negb (units =? size_idx m) then '(tree, m) ← recycle_run mallocs tree m units; Some (0, m, tree)
  else Some (0, m, tree).

(** The sum of the sizes of three blocks that [heap_coalesce] is called with. *)
Definition osize (b : option memory_block) : Z := match b with Some b => size_idx b | None => 0 end.

Lemma coalesce_size a b c :
  0 <= osize a -> 0 <= osize b -> 0 <= osize c -> osize a + osize b + osize c < 2 ^ 32 ->
  foldl (fun s b => match b with Some b => u32 (s + size_idx b) | None => s end) 0 [a; b; c] = osize a + osize b + osize c.
Proof.
  intros Ha Hb Hc Hs. destruct a, b, c; cbn [foldl osize] in *;
    repeat match goal with |- context [u32 ?e] =>
      lazymatch e with context [u32 _] => fail | _ => rewrite (u32_small e) by lia end end; lia.
Qed.
