(* ===== verification/MemblockRun.v ===== *)
(** * Blocks of runs

    Proofs about the blocks of runs of [Memblock]: the free blocks of a bitmap when
    units are allocated or freed, the neighbours that [heap_run_get_block] finds, the
    bits that [run_prep_operation_hdr] changes, and the main result: a bucket that
    holds exactly the free blocks of a run still does so after a block of the run has
    been allocated from it or returned to it.  [MemblockCommit] adds the operation that
    changes the bitmap in memory. *)

From S2P Require Import Prelude Pmem Programs Redo RedoProofs Memops Ctree Bucket HeapLayout HeapRun Memblock.

Local Open Scope pmtest_scope.

(** ** Allocated units split a free block *)

Definition or_range (used : Z -> bool) (o n p : Z) : bool := used p || (o <=? p) && (p <? o + n).

Lemma or_range_false used o n p : or_range used o n p = false <-> used p = false /\ ~ (o <= p < o + n).
Proof. unfold or_range. rewrite orb_false_iff, andb_false_iff, Z.leb_gt, Z.ltb_ge. intuition lia. Qed.
Lemma or_range_true used o n p : or_range used o n p = true <-> used p = true \/ o <= p < o + n.
Proof. unfold or_range. rewrite orb_true_iff, andb_true_iff, Z.leb_le, Z.ltb_lt. done. Qed.

Section Carve.
Context (um : Z) (used : Z -> bool) (b : memory_block) (o n : Z).
Context (Hum : 0 < um) (Hb : free_block um used b) (Ho : block_off b <= o) (Hn : 0 < n) (He : o + n <= block_off b + size_idx b).

Local Abbreviation used' := (or_range used o n).

(** The two parts that remain free. *)
Definition left_part : memory_block := mkBlock (chunk_id b) (zone_id b) (o - block_off b) (block_off b).
Definition right_part : memory_block := mkBlock (chunk_id b) (zone_id b) (block_off b + size_idx b - (o + n)) (o + n).

Lemma left_free : block_off b < o -> free_block um used' left_part.
Proof.
  intros Hlt. destruct Hb as [S1 G1 C1 L1 R1]. split; simpl; [lia|lia| | |].
  - intros p Hp. apply or_range_false. split; [apply C1; lia|lia].
  - destruct L1 as [?|L1]; [by left|right]. apply or_range_true. by left.
  - right. apply or_range_true. lia.
Qed.

Lemma right_free : o + n < block_off b + size_idx b -> free_block um used' right_part.
Proof.
  intros Hlt. destruct Hb as [S1 G1 C1 L1 R1]. pose proof (grp_bounds um (block_off b) Hum).
  assert (E : grp um (o + n) = grp um (block_off b)) by (apply grp_same; lia). split; simpl; [lia|rewrite E; lia| | |].
  - intros p Hp. apply or_range_false. split; [apply C1; lia|lia].
  - right. apply or_range_true. lia.
  - rewrite E. replace (o + n + (block_off b + size_idx b - (o + n))) with (block_off b + size_idx b) by lia.
    destruct R1 as [?|R1]; [by left|right]. apply or_range_true. by left.
Qed.

(** The other free blocks do not change. *)
Lemma other_free x : same_chunk x b -> free_block um used x -> x <> b -> free_block um used' x.
Proof.
  intros Hc Hx Hne. pose proof Hx as [S1 G1 C1 L1 R1]. split; [done|done| | |].
  - intros p Hp. apply or_range_false. split; [by apply C1|]. intros Hin. apply Hne.
    apply (free_block_unique um used x b p); try done. unfold has_unit. lia.
  - destruct L1 as [?|L1]; [by left|right]. apply or_range_true. by left.
  - destruct R1 as [?|R1]; [by left|right]. apply or_range_true. by left.
Qed.

(** A block that is free afterwards and outside of [b] was free before. *)
Lemma outside_free x :
  free_block um used' x -> (forall p, has_unit x p -> ~ has_unit b p) -> free_block um used x.
Proof.
  intros [S1 G1 C1 L1 R1] Hout. destruct Hb as [S0 G0 C0 L0 R0]. unfold has_unit in *.
  pose proof (grp_bounds um (block_off b) Hum) as Hg. pose proof (grp_bounds um (block_off x) Hum) as Hgx.
  assert (Hc : forall p, block_off x <= p < block_off x + size_idx x -> used p = false).
  { intros p Hp. by destruct (proj1 (or_range_false _ _ _ _) (C1 p Hp)). }
  split; [done|done|done| |].
  - destruct L1 as [?|L1]; [by left|]. apply or_range_true in L1 as [?|Hin]; [by right|left].
    assert (E : block_off x = block_off b + size_idx b).
    { destruct (Z.eq_dec (block_off x) (block_off b + size_idx b)) as [|Hne]; [done|]. destruct (Hout (block_off x)); lia. }
    destruct R0 as [R0|R0]; [|rewrite <-E, Hc in R0 by lia; done].
    symmetry. apply grp_next with (block_off b); lia.
  - destruct R1 as [?|R1]; [by left|]. apply or_range_true in R1 as [?|Hin]; [by right|left].
    assert (E : block_off x + size_idx x = block_off b).
    { destruct (Z.eq_dec (block_off x + size_idx x) (block_off b)) as [|Hne]; [done|].
      destruct (Hout (block_off x + size_idx x - 1)); lia. }
    destruct L0 as [L0|L0]; [|rewrite <-E, Hc in L0 by lia; done].
    destruct (Z.eq_dec (block_off x + size_idx x) (grp um (block_off x) + um)) as [|Hne]; [done|exfalso].
    assert (grp um (block_off b) = grp um (block_off x)) by (apply grp_same; lia). lia.
Qed.

(** The free blocks after [n] units from [o] of the free block [b] have been allocated. *)
Lemma carve x : same_chunk x b ->
  free_block um used' x <->
  free_block um used x /\ x <> b \/ block_off b < o /\ x = left_part \/ o + n < block_off b + size_idx b /\ x = right_part.
Proof.
  intros Hc. split.
  - intros Hx. pose proof (fb_size _ _ _ Hx) as Hs.
    destruct (decide (block_off x <= block_off b + size_idx b - 1 /\ block_off b <= block_off x + size_idx x - 1)) as [[H1 H2]|Hout].
    + right. set (p := Z.max (block_off x) (block_off b)).
      assert (Hp : has_unit x p) by (unfold has_unit; lia). assert (Hp' : has_unit b p) by (unfold has_unit; lia).
      assert (Hin : ~ (o <= p < o + n)) by (eapply or_range_false, (fb_clear _ _ _ Hx), Hp).
      destruct (Z.lt_ge_cases p o) as [Hlt|Hge].
      * left. split; [lia|]. apply (free_block_unique um used' _ _ p); [done|done|done|apply left_free; lia|done|].
        unfold has_unit in *. simpl. lia.
      * right. unfold has_unit in Hp'. split; [lia|]. apply (free_block_unique um used' _ _ p); [done|done|done|apply right_free; lia|done|].
        unfold has_unit in *. simpl. lia.
    + left. assert (Hd : forall p, has_unit x p -> ~ has_unit b p) by (unfold has_unit; intros; lia).
      split; [by apply outside_free|]. intros ->. apply Hout. lia.
  - intros [[Hx Hne]|[[Hlt ->]|[Hlt ->]]]; [by apply other_free|by apply left_free|by apply right_free].
Qed.

End Carve.

(** ** Freed units join their neighbours *)

Definition clear_range (used : Z -> bool) (o n p : Z) : bool := used p && negb ((o <=? p) && (p <? o + n)).

Lemma or_clear_range used o n p :
  (forall q, o <= q < o + n -> used q = true) -> or_range (clear_range used o n) o n p = used p.
Proof.
  intros Hu. unfold or_range, clear_range. destruct (Z.leb_spec o p), (Z.ltb_spec p (o + n)); simpl;
    rewrite ?andb_true_r, ?andb_false_r, ?orb_false_r; try done. symmetry. apply Hu. lia.
Qed.

(** A block in use. *)
Record used_block (um : Z) (used : Z -> bool) (m : memory_block) : Prop := {
  ub_size : 1 <= size_idx m;
  ub_group : block_off m + size_idx m <= grp um (block_off m) + um;
  ub_used p : has_unit m p -> used p = true;
}.

(** The units from [lo] to the block and from the block to [hi] are all the free ones
    next to it in its group. *)
Record adjacent (um : Z) (used : Z -> bool) (m : memory_block) (lo hi : Z) : Prop := {
  ad_lo : grp um (block_off m) <= lo <= block_off m;
  ad_hi : block_off m + size_idx m <= hi <= grp um (block_off m) + um;
  ad_clear p : lo <= p < block_off m \/ block_off m + size_idx m <= p < hi -> used p = false;
  ad_left : lo = grp um (block_off m) \/ used (lo - 1) = true;
  ad_right : hi = grp um (block_off m) + um \/ used hi = true;
}.

Section Merge.
Context (um : Z) (used : Z -> bool) (m : memory_block) (lo hi : Z).
Context (Hum : 0 < um) (Hm : used_block um used m) (Ha : adjacent um used m lo hi).

Local Abbreviation used0 := (clear_range used (block_off m) (size_idx m)).

Definition prev_block : memory_block := mkBlock (chunk_id m) (zone_id m) (block_off m - lo) lo.
Definition next_block : memory_block := mkBlock (chunk_id m) (zone_id m) (hi - (block_off m + size_idx m)) (block_off m + size_idx m).
Definition merged : memory_block := mkBlock (chunk_id m) (zone_id m) (hi - lo) lo.

Lemma clear_true p : used p = true -> ~ has_unit m p -> used0 p = true.
Proof.
  unfold has_unit. intros H Hn. unfold clear_range. rewrite H. simpl. apply negb_true_iff, andb_false_iff.
  rewrite Z.leb_gt, Z.ltb_ge. lia.
Qed.

Lemma grp_lo : grp um lo = grp um (block_off m).
Proof. destruct Ha as [A1 A2 A3 A4 A5], Hm as [M1 M2 M3]. pose proof (grp_bounds um (block_off m) Hum). apply grp_same; lia. Qed.

Lemma merged_free : free_block um used0 merged.
Proof.
  pose proof grp_lo as E. destruct Ha as [A1 A2 A3 A4 A5], Hm as [M1 M2 M3]. split; simpl; rewrite ?E; [lia|lia| | |].
  - intros p Hp. unfold clear_range. apply andb_false_iff. rewrite negb_false_iff, andb_true_iff, Z.leb_le, Z.ltb_lt.
    destruct (decide (has_unit m p)) as [Hin|Hout]; [by right|left]. apply A3. unfold has_unit in Hout. lia.
  - destruct A4 as [?|A4]; [by left|right]. apply clear_true; [done|]. unfold has_unit. lia.
  - replace (lo + (hi - lo)) with hi by lia. destruct A5 as [?|A5]; [by left|right]. apply clear_true; [done|]. unfold has_unit. lia.
Qed.

Lemma merge_carve x : same_chunk x m ->
  free_block um used x <->
  free_block um used0 x /\ x <> merged \/ lo < block_off m /\ x = prev_block \/ block_off m + size_idx m < hi /\ x = next_block.
Proof.
  intros Hc. destruct Ha as [A1 A2 A3 A4 A5], Hm as [M1 M2 M3].
  pose proof (carve um used0 merged (block_off m) (size_idx m) Hum merged_free) as Hcv. simpl in Hcv.
  specialize (Hcv ltac:(lia) ltac:(lia) ltac:(lia) x Hc). unfold left_part, right_part in Hcv. simpl in Hcv.
  replace (lo + (hi - lo)) with hi in Hcv by lia. rewrite <-Hcv.
  split; apply free_block_ext; try done; intros p _; [symmetry|]; apply or_clear_range; intros q Hq; by apply M3.
Qed.

(** The free blocks after the units of [m] have been freed. *)
Lemma merge x : same_chunk x m ->
  free_block um used0 x <->
  x = merged \/ free_block um used x /\ ~ (lo < block_off m /\ x = prev_block) /\ ~ (block_off m + size_idx m < hi /\ x = next_block).
Proof.
  intros Hc. pose proof (merge_carve x Hc) as Hcv. destruct Ha as [A1 A2 _ _ _], Hm as [M1 _ _].
  split; [|intros [->|(H1 & H2 & H3)]; [apply merged_free|]; naive_solver].
  intros Hx. destruct (decide (x = merged)) as [|Hne]; [by left|right]. split; [apply Hcv; by left|].
  split; intros [Hlt ->]; apply Hne.
  - apply (free_block_unique um used0 _ _ lo); [done|done|done|apply merged_free| |]; unfold has_unit; simpl; lia.
  - apply (free_block_unique um used0 _ _ (hi - 1)); [done|done|done|apply merged_free| |]; unfold has_unit; simpl; lia.
Qed.

Lemma prev_free : lo < block_off m -> free_block um used prev_block.
Proof. intros H. apply merge_carve; [done|]. auto. Qed.
Lemma next_free : block_off m + size_idx m < hi -> free_block um used next_block.
Proof. intros H. apply merge_carve; [done|]. auto. Qed.

End Merge.

(** ** The bits of a block *)

Definition in_value (m : memory_block) : Prop := 1 <= size_idx m < 64 /\ block_off m mod BITS_PER_VALUE + size_idx m <= BITS_PER_VALUE.

Lemma run_bmask_range m : 0 <= run_bmask m < 2 ^ 64.
Proof. apply u64_range. Qed.

Lemma run_bmask_bit m i : in_value m -> 0 <= i < 64 ->
  Z.testbit (run_bmask m) i = (block_off m mod BITS_PER_VALUE <=? i) && (i <? block_off m mod BITS_PER_VALUE + size_idx m).
Proof.
  intros [Hs Hv] Hi. unfold run_bmask. change BITS_PER_VALUE with 64 in *. pose proof (Z.mod_pos_bound (block_off m) 64 ltac:(lia)) as Hb.
  set (b := block_off m mod 64) in *. set (s := size_idx m) in *. clearbody b s.
  rewrite Z.shiftl_1_l. pose proof (Z.pow_pos_nonneg 2 s). assert (2 ^ s < 2 ^ 64) by (apply Z.pow_lt_mono_r; lia).
  rewrite (u64_small (2 ^ s)), (u64_small (2 ^ s - 1)) by lia.
  unfold u64. rewrite Z.mod_pow2_bits_low, Z.shiftl_spec by lia. replace (2 ^ s - 1) with (Z.ones s) by (rewrite Z.ones_equiv; lia).
  destruct (Z.leb_spec b i).
  - rewrite Z.testbit_ones_nonneg by lia. simpl. destruct (Z.ltb_spec (i - b) s), (Z.ltb_spec i (b + s)); lia || done.
  - apply Z.testbit_neg_r. lia.
Qed.

(** The bit of the value and the unit of the run. *)
Lemma in_block_bits m p :
  in_value m -> p / BITS_PER_VALUE = block_off m / BITS_PER_VALUE ->
  (block_off m mod BITS_PER_VALUE <=? p mod BITS_PER_VALUE) && (p mod BITS_PER_VALUE <? block_off m mod BITS_PER_VALUE + size_idx m) =
  (block_off m <=? p) && (p <? block_off m + size_idx m).
Proof.
  intros [Hs Hv] E. change BITS_PER_VALUE with 64 in *. pose proof (Z.div_mod (block_off m) 64 ltac:(lia)). pose proof (Z.div_mod p 64 ltac:(lia)).
  rewrite <-E in *. f_equal; [destruct (Z.leb_spec (block_off m mod 64) (p mod 64)), (Z.leb_spec (block_off m) p)
    |destruct (Z.ltb_spec (p mod 64) (block_off m mod 64 + size_idx m)), (Z.ltb_spec p (block_off m + size_idx m))]; lia || done.
Qed.

Lemma out_of_value m p :
  in_value m -> p / BITS_PER_VALUE <> block_off m / BITS_PER_VALUE -> (block_off m <=? p) && (p <? block_off m + size_idx m) = false.
Proof.
  intros [Hs Hv] E. change BITS_PER_VALUE with 64 in *. apply andb_false_iff. rewrite Z.leb_gt, Z.ltb_ge.
  destruct (Z.lt_ge_cases p (block_off m)) as [|Hge]; [by left|right].
  destruct (Z.le_gt_cases (block_off m + size_idx m) p) as [|Hlt]; [done|]. destruct E. symmetry.
  pose proof (Z.div_mod (block_off m) 64 ltac:(lia)). pose proof (Z.mod_pos_bound (block_off m) 64 ltac:(lia)).
  apply Z.div_unique_pos with (p - 64 * (block_off m / 64)); lia.
Qed.

(** The bitmap with the value of the block replaced. *)
Definition set_value (bitmap : Z -> Z) (m : memory_block) (v : Z) (i : Z) : Z :=
  if i =? block_off m / BITS_PER_VALUE then v else bitmap i.

Lemma used_after_alloc bitmap m p :
  in_value m ->
  used_unit (set_value bitmap m (Z.lor (bitmap (block_off m / BITS_PER_VALUE)) (run_bmask m))) p =
  or_range (used_unit bitmap) (block_off m) (size_idx m) p.
Proof.
  intros Hm. unfold used_unit, set_value, or_range. pose proof (Z.mod_pos_bound p BITS_PER_VALUE ltac:(done)) as Hp.
  destruct (Z.eqb_spec (p / BITS_PER_VALUE) (block_off m / BITS_PER_VALUE)) as [E|E].
  - rewrite Z.lor_spec, run_bmask_bit, in_block_bits by done. by rewrite E.
  - rewrite out_of_value by done. by rewrite orb_false_r.
Qed.

Lemma used_after_free bitmap m p :
  in_value m ->
  used_unit (set_value bitmap m (Z.land (bitmap (block_off m / BITS_PER_VALUE)) (u64 (Z.lnot (run_bmask m))))) p =
  clear_range (used_unit bitmap) (block_off m) (size_idx m) p.
Proof.
  intros Hm. unfold used_unit, set_value, clear_range. pose proof (Z.mod_pos_bound p BITS_PER_VALUE ltac:(done)) as Hp.
  destruct (Z.eqb_spec (p / BITS_PER_VALUE) (block_off m / BITS_PER_VALUE)) as [E|E].
  - rewrite Z.land_spec. unfold u64. change BITS_PER_VALUE with 64 in *. rewrite Z.mod_pow2_bits_low, Z.lnot_spec by lia.
    rewrite run_bmask_bit by done. change 64 with BITS_PER_VALUE in *. rewrite in_block_bits by done. by rewrite E.
  - rewrite out_of_value by done. by rewrite andb_true_r.
Qed.

(** ** Neighbours *)

(** The loop to the left stops at the start of the group or at a used unit. *)
Lemma prev_loop_spec um value n i :
  0 < um -> 0 <= i <= Z.of_nat n ->
  let r := prev_loop n value um i in
  grp um i <= r <= i /\ (forall q, r <= q < i -> Z.testbit value q = false) /\ (r = grp um i \/ Z.testbit value (r - 1) = true).
Proof.
  intros Hum. revert i. induction n as [|n IH]; intros i Hi; cbn [prev_loop]; pose proof (grp_bounds um i Hum) as Hg.
  { assert (i = 0) as -> by lia. unfold grp in *. rewrite Z.div_0_l in * by lia. split_and!; [lia|lia|intros q Hq; lia|left; lia]. }
  rewrite grp_mod by done. destruct (Z.eqb_spec (i - grp um i) 0) as [E|E]; simpl.
  { split_and!; [lia|lia|intros q Hq; lia|left; lia]. }
  unfold BIT_IS_CLR. destruct (Z.testbit value (i - 1)) eqn:Eb; simpl; [split_and!; [lia|lia|intros q Hq; lia|by right]|].
  assert (Eg : grp um (i - 1) = grp um i) by (apply grp_same; lia).
  assert (0 <= grp um i) by (unfold grp; pose proof (Z.div_pos i um); lia).
  destruct (IH (i - 1)) as (H1 & H2 & H3); [lia|]. rewrite Eg in *. split_and!; [lia|lia| |done].
  intros q Hq. destruct (decide (q = i - 1)) as [->|]; [done|]. apply H2. lia.
Qed.

(** The loop to the right stops at the end [u] of the group or at a used unit. *)
Lemma next_loop_spec um value n i u :
  0 < um -> grp um u = u -> u - um < i <= u -> u - i <= Z.of_nat n ->
  let r := next_loop n value um i in
  i <= r <= u /\ (forall q, i <= q < r -> Z.testbit value q = false) /\ (r = u \/ Z.testbit value r = true).
Proof.
  intros Hum Hu. revert i. induction n as [|n IH]; intros i Hi Hn; cbn [next_loop]; [split_and!; [lia|lia|intros q Hq; lia|left; lia]|].
  rewrite grp_mod by done. destruct (decide (i = u)) as [->|Hne].
  { rewrite Hu, Z.sub_diag. simpl. split_and!; [lia|lia|intros q Hq; lia|by left]. }
  assert (Eg : grp um i = u - um).
  { rewrite (grp_same um (u - um) i); unfold grp in *; [|done|];
      replace (u - um) with (u + (-1) * um) by lia; rewrite Z.div_add by lia; lia. }
  rewrite (proj2 (Z.eqb_neq _ 0)) by lia. unfold BIT_IS_CLR.
  destruct (Z.testbit value i) eqn:Eb; simpl; [split_and!; [lia|lia|intros q Hq; lia|by right]|].
  destruct (IH (i + 1)) as (H1 & H2 & H3); [lia|lia|]. split_and!; [lia|lia| |done].
  intros q Hq. destruct (decide (q = i)) as [->|]; [done|]. apply H2. lia.
Qed.

(** Units and bits of a value: the groups are the same. *)
Lemma grp_value um p : 0 < um -> (um | 64) -> grp um (p mod 64) = grp um p - 64 * (p / 64).
Proof.
  intros Hum Hd. pose proof (Z.div_mod p 64 ltac:(lia)). pose proof (Z.mod_mod_divide p 64 um Hd) as E.
  rewrite !(grp_mod um) in E by done. lia.
Qed.

Section Run.
(** A run: the blocks of the chunk of [c], in groups of [um]. *)
Context (hlayout um : Z).
Context (Hum : 0 < um) (Hd : (um | 64)).

Definition bitmap_of (m : memory_block) (mem : pmem) (i : Z) : Z := pm_read mem (run_bitmap_word (run_of hlayout m) i).

Local Abbreviation used mem m := (used_unit (bitmap_of m mem)).

Lemma um_le : um <= 64.
Proof. apply Z.divide_pos_le; [lia|done]. Qed.

(** The bit of a unit in the value of the block. *)
Lemma value_bit m mem i : 0 <= i < 64 ->
  Z.testbit (bitmap_of m mem (block_off m / 64)) i = used mem m (64 * (block_off m / 64) + i).
Proof. intros Hi. rewrite used_value with (i := block_off m / 64) by lia. f_equal. lia. Qed.

(** [heap_run_get_block] finds the free units next to a block. *)
Lemma run_get_block_spec m mem :
  0 <= block_off m -> block_off m + size_idx m <= UINT16_MAX -> used_block um (used mem m) m ->
  exists lo hi, adjacent um (used mem m) m lo hi /\ 0 <= lo /\
    heap_run_get_block hlayout um m true mem = Some (if lo =? block_off m then ENOENT else 0, prev_block m lo) /\
    heap_run_get_block hlayout um m false mem = Some (if hi =? block_off m + size_idx m then ENOENT else 0, next_block m hi).
Proof.
  intros Ho Hmax [M1 M2 M3]. unfold heap_run_get_block. change BITS_PER_VALUE with 64. fold (bitmap_of m mem (block_off m / 64)).
  pose proof (Z.div_mod (block_off m) 64 ltac:(lia)) as Hdm. pose proof (Z.mod_pos_bound (block_off m) 64 ltac:(lia)) as Hb.
  pose proof (grp_value um (block_off m) Hum Hd) as Egv. pose proof um_le as Hle.
  pose proof (grp_in_value um (block_off m) (block_off m / 64) Hum Hd ltac:(lia)) as [Hg1 Hg2].
  pose proof (grp_bounds um (block_off m) Hum) as Hgb.
  set (v := block_off m / 64) in *. set (b := block_off m mod 64) in *.
  pose proof (prev_loop_spec um (bitmap_of m mem v) (Z.to_nat b) b Hum ltac:(lia)) as (P1 & P2 & P3).
  set (i := prev_loop (Z.to_nat b) (bitmap_of m mem v) um b) in *.
  assert (Egv' : grp um (grp um b + um) = grp um b + um) by (by apply grp_next with b).
  pose proof (next_loop_spec um (bitmap_of m mem v) 64 (b + size_idx m) (grp um b + um) Hum Egv' ltac:(lia) ltac:(lia)) as (N1 & N2 & N3).
  set (j := next_loop 64 (bitmap_of m mem v) um (b + size_idx m)) in *.
  exists (64 * v + i), (64 * v + j). split.
  { split; [lia|lia| | |].
    - intros p Hp. rewrite used_value with (i := v) by lia. destruct Hp as [Hp|Hp]; [apply P2|apply N2]; lia.
    - destruct P3 as [P3|P3]; [left; lia|]. destruct (Z.eq_dec i (grp um b)) as [Hi|Hi]; [left; lia|right].
      rewrite used_value with (i := v) by lia. by replace (64 * v + i - 1 - 64 * v) with (i - 1) by lia.
    - destruct N3 as [N3|N3]; [left; lia|]. destruct (Z.eq_dec j (grp um b + um)) as [Hj|Hj]; [left; lia|right].
      rewrite used_value with (i := v) by lia. by replace (64 * v + j - 64 * v) with j by lia. }
  clearbody i j. unfold UINT16_MAX, u16 in *. split; [lia|]. split.
  - rewrite (Z.mod_small (v * 64 + i)) by lia. rewrite (proj2 (Z.leb_le (v * 64 + i) _)) by lia. simpl. rewrite Z.mod_small by lia.
    unfold prev_block. rewrite (Z.mul_comm v 64). do 2 f_equal.
    destruct (Z.eqb_spec (block_off m - (64 * v + i)) 0), (Z.eqb_spec (64 * v + i) (block_off m)); lia || done.
  - rewrite (proj2 (Z.leb_le _ _) Hmax). simpl. unfold next_block.
    replace (64 * v + j - (block_off m + size_idx m)) with (j - (b + size_idx m)) by lia. do 2 f_equal.
    destruct (Z.eqb_spec (j - (b + size_idx m)) 0), (Z.eqb_spec (64 * v + j) (block_off m + size_idx m)); lia || done.
Qed.

(** ** Freeing a block of a run *)

(** The bucket holds exactly the free blocks of the run that the chunk of [c] is. *)
Definition run_bucket (t : ctree) (nallocs : Z) (c : memory_block) (free : Z -> bool) : Prop :=
  forall x, block_ok x -> same_chunk x c ->
    has_block t x <-> free_block um free x /\ block_off x + size_idx x <= nallocs.

(** What a block of a run must be. *)
Record run_block (nallocs : Z) (m : memory_block) : Prop := {
  rb_chunk : 0 <= chunk_id m < MAX_CHUNK;
  rb_zone : 0 <= zone_id m < UINT16_MAX;
  rb_off : 0 <= block_off m;
  rb_end : block_off m + size_idx m <= nallocs;
  rb_max : nallocs <= UINT16_MAX;
}.

Lemma run_block_ok nallocs m : run_block nallocs m -> 1 <= size_idx m -> block_ok m.
Proof. intros [R1 R2 R3 R4 R5] Hs. split; lia. Qed.

Lemma group_in_value m : um < 64 -> 1 <= size_idx m -> block_off m + size_idx m <= grp um (block_off m) + um -> in_value m.
Proof.
  intros Hlt Hs Hg. pose proof (Z.div_mod (block_off m) 64 ltac:(lia)). pose proof (Z.mod_pos_bound (block_off m) 64 ltac:(lia)).
  pose proof (grp_in_value um (block_off m) (block_off m / 64) Hum Hd ltac:(lia)). pose proof (grp_bounds um (block_off m) Hum).
  unfold in_value. change BITS_PER_VALUE with 64. lia.
Qed.

(** Taking one of the two neighbours from the bucket. *)
Lemma take_neighbour t m prev mem n found :
  tree_ok t -> block_ok n \/ found = false ->
  hdr_type (pm_read mem (chunk_header_word hlayout (zone_id m) (chunk_id m))) = CHUNK_TYPE_RUN ->
  heap_run_get_block hlayout um m prev mem = Some (if found then 0 else ENOENT, n) ->
  (found = true -> has_block t n) ->
  exists t', take_adjacent hlayout (Some (um, t)) m prev mem = Some (if found then Some n else None, Some (um, t')) /\ tree_ok t' /\
    forall x, block_ok x -> has_block t' x <-> has_block t x /\ ~ (found = true /\ x = n).
Proof.
  intros Ht Hn Hty E Hf. unfold take_adjacent, heap_get_adjacent_free_block. rewrite Hty. simpl. rewrite E. simpl.
  destruct found; simpl.
  - destruct Hn as [Hn|?]; [|done]. destruct (get_rm_exact_spec t n Ht Hn) as (err & t' & -> & Ht' & [(-> & _ & Hin)|(_ & _ & Hno)]);
      [|by destruct Hno; apply Hf]. simpl. exists t'. split_and!; [done|done|]. intros x Hx. rewrite Hin by done. naive_solver.
  - exists t. split_and!; [done|done|]. intros x Hx. naive_solver.
Qed.

(** The merged block: the sum of the sizes, from the first of the blocks on. *)
Lemma coalesce_run m lo hi ctx mem :
  block_off m + size_idx m <= UINT16_MAX -> 0 <= lo <= block_off m -> block_off m + size_idx m <= hi <= UINT16_MAX -> 1 <= size_idx m ->
  hdr_type (pm_read mem (chunk_header_word hlayout (zone_id m) (chunk_id m))) = CHUNK_TYPE_RUN ->
  heap_coalesce hlayout [if negb (lo =? block_off m) then Some (prev_block m lo) else None; Some m;
                         if negb (hi =? block_off m + size_idx m) then Some (next_block m hi) else None] HDR_OP_FREE ctx mem =
  match ctx with
  | None => Some (merged m lo hi, None)
  | Some ctx => ctx' ← run_prep_operation_hdr hlayout (merged m lo hi) HDR_OP_FREE ctx mem; Some (merged m lo hi, Some ctx')
  end.
Proof.
  intros Hmax Hlo Hhi Hs Hty. unfold UINT16_MAX in *.
  set (l := [_; Some m; _]).
  assert (Es : foldl (fun s b => match b with Some b => u32 (s + size_idx b) | None => s end) 0 l = hi - lo).
  { unfold l. rewrite coalesce_size; destruct (Z.eqb_spec lo (block_off m)), (Z.eqb_spec hi (block_off m + size_idx m)); simpl; lia. }
  assert (Eh : exists h, head (omap id l) = Some h /\ chunk_id h = chunk_id m /\ zone_id h = zone_id m /\ block_off h = lo).
  { unfold l. destruct (Z.eqb_spec lo (block_off m)), (Z.eqb_spec hi (block_off m + size_idx m)); simpl; eauto. }
  destruct Eh as (h & Eh & Ec & Ez & Eo). unfold heap_coalesce. rewrite Es, Eh. cbn [mbind option_bind]. rewrite Ec, Ez, Eo.
  fold (merged m lo hi). destruct ctx as [ctx|]; [|done]. unfold prep_hdr, memblock_autodetect_type.
  cbn [zone_id chunk_id merged]. rewrite Hty. done.
Qed.

(** Clearing the bits of the merged block clears those of the block. *)
Lemma clear_merged used0 m lo hi p :
  adjacent um used0 m lo hi -> clear_range used0 lo (hi - lo) p = clear_range used0 (block_off m) (size_idx m) p.
Proof.
  intros [A1 A2 A3 A4 A5]. unfold clear_range.
  destruct (Z.leb_spec lo p), (Z.ltb_spec p (lo + (hi - lo))), (Z.leb_spec (block_off m) p), (Z.ltb_spec p (block_off m + size_idx m));
    simpl; rewrite ?andb_true_r, ?andb_false_r; try done; try lia; symmetry; apply A3; lia.
Qed.

Lemma run_free_spec t nallocs m ctx mem :
  tree_ok t -> um < 64 -> run_block nallocs m -> used_block um (used mem m) m ->
  hdr_type (pm_read mem (chunk_header_word hlayout (zone_id m) (chunk_id m))) = CHUNK_TYPE_RUN ->
  (forall p, nallocs <= p < grp um (block_off m) + um -> used mem m p = true) ->
  run_bucket t nallocs m (used mem m) ->
  exists t' rb, same_chunk rb m /\ run_block nallocs rb /\ in_value rb /\ block_ok rb /\
    heap_free_block hlayout (Some (um, t)) m ctx mem =
      match ctx with
      | None => Some (rb, Some (um, t'), None)
      | Some ctx => ctx' ← run_prep_operation_hdr hlayout rb HDR_OP_FREE ctx mem; Some (rb, Some (um, t'), Some ctx')
      end /\
    (forall p, clear_range (used mem m) (block_off rb) (size_idx rb) p = clear_range (used mem m) (block_off m) (size_idx m) p) /\
    tree_ok t' /\ ~ has_block t' rb /\
    (forall x, block_ok x -> same_chunk x m -> x = rb \/ has_block t' x <->
       free_block um (clear_range (used mem m) (block_off m) (size_idx m)) x /\ block_off x + size_idx x <= nallocs) /\
    (forall x, block_ok x -> ~ same_chunk x m -> has_block t' x <-> has_block t x).
Proof.
  intros Ht Hlt Hrb Hm Hty Hend Hb. pose proof Hrb as [R1 R2 R3 R4 R5]. pose proof Hm as [M1 M2 M3].
  destruct (run_get_block_spec m mem R3 ltac:(lia) Hm) as (lo & hi & Ha & Hlo & Ep & En).
  pose proof Ha as [A1 A2 A3 A4 A5].
  assert (Hhi : hi <= nallocs).
  { destruct (Z.le_gt_cases hi nallocs) as [|Hgt]; [done|]. assert (Hu : used mem m nallocs = true) by (apply Hend; lia).
    rewrite A3 in Hu by lia. done. }
  pose proof (merge um _ m lo hi Hum Hm Ha) as Hmerge. unfold UINT16_MAX in *.
  assert (Hpok : lo < block_off m -> block_ok (prev_block m lo)) by (intros; split; unfold UINT16_MAX; simpl; lia).
  assert (Hnok : block_off m + size_idx m < hi -> block_ok (next_block m hi)) by (intros; split; unfold UINT16_MAX; simpl; lia).
  destruct (take_neighbour t m true mem (prev_block m lo) (negb (lo =? block_off m))) as (t1 & E1 & Ht1 & Hin1);
    [done|destruct (Z.eqb_spec lo (block_off m)); [by right|left; apply Hpok; lia]|done|by destruct (lo =? block_off m)| |].
  { intros Hne%negb_true_iff%Z.eqb_neq. apply Hb; [apply Hpok; lia|done|]. split; [apply prev_free with hi; try done; lia|simpl; lia]. }
  destruct (take_neighbour t1 m false mem (next_block m hi) (negb (hi =? block_off m + size_idx m))) as (t2 & E2 & Ht2 & Hin2);
    [done|destruct (Z.eqb_spec hi (block_off m + size_idx m)); [by right|left; apply Hnok; lia]|done|by destruct (hi =? block_off m + size_idx m)| |].
  { intros Hne%negb_true_iff%Z.eqb_neq. apply Hin1; [apply Hnok; lia|]. split; [|intros [_ [= ]]; lia].
    apply Hb; [apply Hnok; lia|done|]. split; [apply next_free with lo; try done; lia|simpl; lia]. }
  assert (Hfl : forall a b, a <= b -> negb (a =? b) = true <-> a < b) by (intros a c ?; rewrite negb_true_iff, Z.eqb_neq; lia).
  assert (Hfr : forall a b, b <= a -> negb (a =? b) = true <-> b < a) by (intros a c ?; rewrite negb_true_iff, Z.eqb_neq; lia).
  setoid_rewrite (Hfl lo (block_off m) ltac:(lia)) in Hin1. setoid_rewrite (Hfr hi (block_off m + size_idx m) ltac:(lia)) in Hin2.
  exists t2, (merged m lo hi). split_and!; [done|split; unfold UINT16_MAX; simpl; lia| |split; unfold UINT16_MAX; simpl; lia| | |done| | |].
  - apply group_in_value; [done|simpl; lia|]. simpl. rewrite (grp_lo um (used mem m) m lo hi) by done. lia.
  - unfold heap_free_block. rewrite E1. cbn [mbind option_bind]. rewrite E2. cbn [mbind option_bind].
    rewrite coalesce_run by (unfold UINT16_MAX; done || lia). destruct ctx as [ctx|]; [|done]. by destruct (run_prep_operation_hdr _ _ _ _).
  - intros p. by apply clear_merged.
  - intros Hh. apply Hin2 in Hh as [Hh _]; [|split; unfold UINT16_MAX; simpl; lia].
    apply Hin1 in Hh as [Hh _]; [|split; unfold UINT16_MAX; simpl; lia]. apply Hb in Hh as [Hh _]; [|split; unfold UINT16_MAX; simpl; lia|done].
    pose proof (fb_clear _ _ _ Hh (block_off m)) as Hc. simpl in Hc. rewrite M3 in Hc by (unfold has_unit; lia). by specialize (Hc ltac:(lia)).
  - intros x Hx Hs. rewrite Hmerge, Hin2, Hin1, (Hb x Hx Hs) by done. simpl.
    split; [|tauto]. intros [->|]; [|tauto]. simpl. split; [by left|lia].
  - intros x Hx Hs. rewrite Hin2, Hin1 by done. split; [tauto|]. intros Hh. split_and!; [done|..]; intros [_ ->]; by destruct Hs.
Qed.

(** ** Allocating a block of a run *)

(** Removing the block [r] and inserting the rest of it leaves the bucket exact for the
    bitmap with the units taken set. *)
Lemma run_take_spec t nallocs r units used0 :
  run_bucket t nallocs r used0 -> free_block um used0 r -> block_off r + size_idx r <= nallocs -> 1 <= units <= size_idx r ->
  let rest := mkBlock (chunk_id r) (zone_id r) (size_idx r - units) (block_off r + units) in
  forall x, block_ok x -> same_chunk x r ->
    (units < size_idx r /\ x = rest) \/ has_block t x /\ x <> r <->
    free_block um (or_range used0 (block_off r) units) x /\ block_off x + size_idx x <= nallocs.
Proof.
  intros Hb Hr He Hu rest x Hx Hs.
  rewrite (carve um used0 r (block_off r) units Hum Hr ltac:(lia) ltac:(lia) ltac:(lia) x Hs), (Hb x Hx Hs) by done.
  unfold right_part. replace (block_off r + size_idx r - (block_off r + units)) with (size_idx r - units) by lia. fold rest.
  split.
  - intros [[Hlt ->]|[[Hf He'] Hne]]; [|tauto]. split; [right; right; split; [lia|done]|]. simpl. lia.
  - intros [[[Hf Hne]|[[Hlt _]|[Hlt ->]]] He']; [tauto|lia|]. left. split; [lia|done].
Qed.

Lemma run_alloc_spec mallocs t units :
  tree_ok t -> 1 <= units <= UINT16_MAX -> mallocs.1 = true -> mallocs.2 = true ->
  (forall x, block_ok x -> has_block t x -> block_off x + size_idx x <= UINT16_MAX /\
     forall y, block_ok y -> has_block t y -> same_chunk x y -> forall p, has_unit x p -> has_unit y p -> x = y) ->
  exists err m t', take_from_run mallocs t units = Some (err, m, t') /\ tree_ok t' /\
    (err = 0 /\ size_idx m = units /\ (exists r, block_ok r /\ has_block t r /\ same_chunk m r /\ block_off m = block_off r /\ units <= size_idx r /\
        (forall x, block_ok x -> has_block t' x <->
           units < size_idx r /\ x = mkBlock (chunk_id r) (zone_id r) (size_idx r - units) (block_off r + units) \/ has_block t x /\ x <> r)) \/
     err = ENOMEM /\ t' = t /\ forall x, block_ok x -> has_block t x -> size_idx x < units).
Proof.
  intros Ht Hu Hm1 Hm2 Hdis. unfold take_from_run.
  destruct (bestfit_spec t units Ht Hu) as (err & r & t1 & E & Ht1 & Hor). unfold request in E. rewrite E. cbn [mbind option_bind]. clear E.
  destruct Hor as [(-> & Hr & Hh & Hge & _ & Hin)|(-> & -> & Hno)]; [|by eexists ENOMEM, _, _; split_and!; [done|done|right]].
  simpl. rewrite (proj2 (Z.leb_le units _)) by lia. simpl. destruct (Z.eqb_spec units (size_idx r)) as [Eu|Hne]; simpl.
  { exists 0, r, t1. split_and!; [done|done|]. left. split_and!; [done|lia|]. exists r. split_and!; try done. intros x Hx. rewrite Hin by done. split; [tauto|].
    intros [[? _]|?]; [lia|done]. }
  destruct (Hdis r Hr Hh) as [Hend Hd0]. pose proof Hr as [B1 B2 B3 B4]. unfold recycle_run.
  rewrite (proj2 (Z.leb_le units _)), (proj2 (Z.leb_le (block_off r + units) _)) by lia. cbn [andb].
  unfold u16. rewrite (Z.mod_small (block_off r + units)) by (unfold UINT16_MAX in *; lia).
  set (rest := mkBlock (chunk_id r) (zone_id r) (size_idx r - units) (block_off r + units)). assert (Hrest : block_ok rest) by (subst rest; split; simpl; unfold UINT16_MAX in *; lia).
  assert (Hnew : ~ has_block t rest).
  { intros Hc. assert (r = rest) as Err; [|apply (f_equal block_off) in Err; unfold rest in Err; simpl in Err; lia].
    apply (Hd0 rest Hrest Hc) with (block_off r + units); [done|..]; unfold rest, has_unit; simpl; lia. }
  destruct (insert_block_spec mallocs t1 rest Ht1 Hrest) as (t2 & e & -> & Ht2 & [(-> & _ & Hin2)|[(_ & _ & Hc)|(_ & _ & [Hc|Hc])]]); [|by apply Hin in Hc as [? _]|congruence..].
  simpl. eexists 0, _, t2. split_and!; [done|done|]. left. split_and!; [done|done|]. exists r. split_and!; try done.
  intros x Hx. rewrite Hin2, Hin by done. split; [|tauto]. intros [->|?]; [left|tauto]. split; [lia|done].
Qed.

End Run.

(** ** Buckets of runs *)

(** The bitmaps of the runs, by chunk and zone. *)
Definition bitmaps : Type := Z * Z -> Z -> Z.
Definition chunk_of (m : memory_block) : Z * Z := (chunk_id m, zone_id m).
Definition memory_bitmaps (hlayout : Z) (mem : pmem) : bitmaps := fun c i =>
  pm_read mem (run_bitmap_word (chunk_addr hlayout c.2 c.1) i).
(** The value of the block replaced. *)
Definition with_value (bm : bitmaps) (m : memory_block) (v : Z) : bitmaps := fun c =>
  if decide (c = chunk_of m) then set_value (bm c) m v else bm c.
Definition value_of (bm : bitmaps) (m : memory_block) : Z := bm (chunk_of m) (block_off m / BITS_PER_VALUE).

(** The bucket holds exactly the free blocks of the runs. *)
Definition bucket_exact (um nallocs : Z) (t : ctree) (runs : Z * Z -> Prop) (bm : bitmaps) : Prop :=
  tree_ok t /\ forall x, block_ok x ->
    has_block t x <-> runs (chunk_of x) /\ free_block um (used_unit (bm (chunk_of x))) x /\ block_off x + size_idx x <= nallocs.

Lemma chunk_of_same x y : same_chunk x y <-> chunk_of x = chunk_of y.
Proof. unfold same_chunk, chunk_of. split; [intros [-> ->]; done|intros [= ]; done]. Qed.

#[global] Instance same_chunk_dec x y : Decision (same_chunk x y).
Proof. unfold same_chunk. apply _. Defined.

Section Exact.
Context (um nallocs : Z) (Hum : 0 < um) (Hd : (um | 64)) (Hlt : um < 64) (Hna : nallocs <= UINT16_MAX).

(** Changing the units of one run. *)
Lemma exact_update t t' runs bm m v f :
  bucket_exact um nallocs t runs bm -> tree_ok t' -> runs (chunk_of m) ->
  (forall p, used_unit (set_value (bm (chunk_of m)) m v) p = f p) ->
  (forall x, block_ok x -> same_chunk x m -> has_block t' x <-> free_block um f x /\ block_off x + size_idx x <= nallocs) ->
  (forall x, block_ok x -> ~ same_chunk x m -> has_block t' x <-> has_block t x) ->
  bucket_exact um nallocs t' runs (with_value bm m v).
Proof.
  intros [Ht Hb] Ht' Hr Hf Hin Hout. split; [done|]. intros x Hx. unfold with_value.
  destruct (decide (same_chunk x m)) as [Hs|Hs].
  - rewrite Hin by done. apply chunk_of_same in Hs as Hs'. rewrite Hs', decide_True by done.
    split; [intros [Hfr He]|intros (_ & Hfr & He)]; (split_and!; try done); eapply free_block_ext; try exact Hfr; try done.
  - rewrite Hout, Hb by done. rewrite decide_False; [done|]. by rewrite <-chunk_of_same.
Qed.

(** A bucket stays exact when no bitmap of its runs changes. *)
Lemma exact_ext t (runs : Z * Z -> Prop) bm bm' :
  nallocs <= RUN_BITMAP_SIZE -> (forall c i, runs c -> 0 <= i < MAX_BITMAP_VALUES -> bm' c i = bm c i) ->
  bucket_exact um nallocs t runs bm -> bucket_exact um nallocs t runs bm'.
Proof.
  intros Hn He [Ht Hb]. change RUN_BITMAP_SIZE with 2432 in Hn. change MAX_BITMAP_VALUES with 38 in He. split; [done|]. intros x Hx. rewrite Hb by done.
  assert (Hu : runs (chunk_of x) -> block_off x + size_idx x <= nallocs ->
    forall p, grp um (block_off x) <= p < grp um (block_off x) + um -> used_unit (bm (chunk_of x)) p = used_unit (bm' (chunk_of x)) p).
  { intros Hr Hle p Hp. destruct Hx as [_ _ Hs Ho]. pose proof (Z.div_mod (block_off x) 64 ltac:(lia)) as Hdm. pose proof (Z.mod_pos_bound (block_off x) 64 ltac:(lia)).
    destruct (grp_in_value um (block_off x) (block_off x / 64)) as [G1 G2]; [done|done|lia|].
    rewrite !(used_value _ (block_off x / 64)) by lia. rewrite He; [done|done|lia]. }
  split; intros (Hr & Hf & Hle); (split_and!; [done| |done]); (eapply free_block_ext; [done| |exact Hf]); intros p Hp; [|symmetry]; by apply Hu.
Qed.

Lemma exact_disjoint t runs bm x y p :
  bucket_exact um nallocs t runs bm -> block_ok x -> block_ok y -> has_block t x -> has_block t y ->
  same_chunk x y -> has_unit x p -> has_unit y p -> x = y.
Proof.
  intros [Ht Hb] Hx Hy (_ & Fx & _)%Hb (_ & Fy & _)%Hb Hs Hpx Hpy; [|done..].
  apply chunk_of_same in Hs as E. rewrite <-E in Fy. by eapply free_block_unique.
Qed.

Lemma run_alloc_exact_spec mallocs t runs bm units :
  bucket_exact um nallocs t runs bm -> 1 <= units <= UINT16_MAX -> mallocs.1 = true -> mallocs.2 = true ->
  exists err m t', take_from_run mallocs t units = Some (err, m, t') /\
    (err = 0 /\ size_idx m = units /\ runs (chunk_of m) /\ in_value m /\ 0 <= block_off m /\
       (forall p, has_unit m p -> used_unit (bm (chunk_of m)) p = false /\ p < nallocs) /\
       bucket_exact um nallocs t' runs (with_value bm m (Z.lor (value_of bm m) (run_bmask m))) \/
     err = ENOMEM /\ t' = t /\ forall x, block_ok x -> runs (chunk_of x) -> block_off x + size_idx x <= nallocs ->
       free_block um (used_unit (bm (chunk_of x))) x -> size_idx x < units).
Proof.
  intros Hex Hu Hm1 Hm2. pose proof Hex as [Ht Hb].
  destruct (run_alloc_spec mallocs t units Ht Hu Hm1 Hm2) as (err & m & t' & E & Ht' & Hor).
  { intros x Hx Hh. split; [apply Hb in Hh as (_ & _ & ?); [lia|done]|]. intros y Hy Hhy Hs p. by apply (exact_disjoint t runs bm). }
  exists err, m, t'. split; [done|]. clear E.
  destruct Hor as [(-> & Es & r & Hr & Hh & Hs & Eo & Hge & Hin)|(-> & -> & Hno)].
  2:{ right. split_and!; [done|done|]. intros x Hx Hrx He Hf. apply Hno; [done|]. by apply Hb. }
  left. apply Hb in Hh as Hh'; [|done]. destruct Hh' as (Hrr & Hf & He). pose proof Hs as Ec. apply chunk_of_same in Ec. rewrite Ec.
  pose proof Hf as [F1 F2 _ _ _]. assert (Hiv : in_value m).
  { apply (group_in_value um); rewrite ?Eo, ?Es; try done; lia. }
  split_and!; [done|done|done|apply Hiv..|rewrite Eo; apply Hr| |].
  { intros p Hp. unfold has_unit in Hp. split; [apply (fb_clear _ _ _ Hf)|]; lia. }
  eapply exact_update with (t := t) (f := or_range (used_unit (bm (chunk_of m))) (block_off m) (size_idx m)); try done.
  - by rewrite Ec.
  - intros p. by apply used_after_alloc.
  - intros x Hx Hsx. rewrite Hin, Ec, Eo, Es by done. apply run_take_spec; try done; [|lia|by destruct Hs, Hsx; split; congruence].
    intros y Hy Hsy. apply chunk_of_same in Hsy. rewrite Hb, Hsy by done. tauto.
  - intros x Hx Hsx. assert (Hne : ~ same_chunk x r) by (intros [? ?]; apply Hsx; destruct Hs; split; congruence).
    rewrite Hin by done. split; [intros [[_ ->]|[? _]]; [by destruct Hne|done]|]. intros Hh'. right. split; [done|]. intros ->. by destruct Hne.
Qed.

Lemma run_free_exact_spec hlayout mallocs t runs mem m ctx :
  let bm := memory_bitmaps hlayout mem in
  bucket_exact um nallocs t runs bm -> mallocs.1 = true -> mallocs.2 = true -> runs (chunk_of m) ->
  hdr_type (pm_read mem (chunk_header_word hlayout (zone_id m) (chunk_id m))) = CHUNK_TYPE_RUN ->
  run_block nallocs m -> used_block um (used_unit (bm (chunk_of m))) m ->
  (forall p, nallocs <= p < grp um (block_off m) + um -> used_unit (bm (chunk_of m)) p = true) ->
  exists rb t' t'', heap_free_block hlayout (Some (um, t)) m (Some ctx) mem =
      (ctx' ← run_prep_operation_hdr hlayout rb HDR_OP_FREE ctx mem; Some (rb, Some (um, t'), Some ctx')) /\
    bucket_tree_insert_block mallocs t' rb = Some (t'', 0) /\
    let bm' := with_value bm rb (Z.land (value_of bm rb) (u64 (Z.lnot (run_bmask rb)))) in
    bucket_exact um nallocs t'' runs bm' /\ chunk_of rb = chunk_of m /\ run_block nallocs rb /\ in_value rb /\
    forall p, used_unit (bm' (chunk_of m)) p = clear_range (used_unit (bm (chunk_of m))) (block_off m) (size_idx m) p.
Proof.
  intros bm [Ht Hb] Hm1 Hm2 Hr Hty Hrb Hub Hend.
  destruct (run_free_spec hlayout um Hum Hd t nallocs m (Some ctx) mem) as
    (t' & rb & Hs & Hrb' & Hiv & Hok & E & Hclr & Ht' & Hnew & Hin & Hout); try done.
  { intros x Hx Hs. rewrite Hb by done. apply chunk_of_same in Hs. rewrite Hs. tauto. }
  destruct (insert_block_spec mallocs t' rb Ht' Hok) as (t'' & e & Ei & Ht'' & [(-> & _ & Hin2)|[(_ & _ & ?)|(_ & _ & [?|?])]]);
    [|done|congruence..].
  apply chunk_of_same in Hs as Ec. exists rb, t', t''. split; [done|]. split; [done|]. cbv zeta.
  assert (Hused : forall p, used_unit (set_value (bm (chunk_of rb)) rb (Z.land (value_of bm rb) (u64 (Z.lnot (run_bmask rb))))) p =
    clear_range (used_unit (bm (chunk_of m))) (block_off m) (size_idx m) p).
  { intros p. rewrite <-Hclr. unfold value_of. rewrite used_after_free by done. by rewrite Ec. }
  split; [|split; [exact Ec|split; [exact Hrb'|split; [exact Hiv|]]]].
  - eapply exact_update with (t := t); [done|done|by rewrite Ec|exact Hused| |].
    + intros x Hx Hsx. rewrite Hin2 by done. apply Hin; [done|]. destruct Hs, Hsx. split; congruence.
    + intros x Hx Hsx. assert (Hne : ~ same_chunk x m) by (intros [? ?]; apply Hsx; destruct Hs; split; congruence).
      rewrite Hin2, Hout by done. split; [intros [->|?]; [by destruct Hsx|done]|by right].
  - intros p. unfold with_value. rewrite Ec, decide_True by done. rewrite <-Hused, Ec. done.
Qed.

(** Inserting new blocks one after the other. *)
Lemma insert_blocks_spec mallocs t bs :
  tree_ok t -> Forall block_ok bs -> (forall k, mallocs k = (true, true)) ->
  exists t', insert_blocks mallocs t bs = Some t' /\ tree_ok t' /\ forall x, block_ok x -> has_block t' x <-> x ∈ bs \/ has_block t x.
Proof.
  intros Ht Hbs Hm. revert t Ht. induction bs as [|b bs IH]; intros t Ht; cbn [insert_blocks].
  { exists t. split_and!; [done|done|]. intros x Hx. split; [by right|]. intros [?%elem_of_nil|?]; done. }
  apply Forall_cons in Hbs as [Hb Hbs]. rewrite Hm.
  destruct (insert_block_spec (true, true) t b Ht Hb) as (t1 & e & -> & Ht1 & Hor). simpl.
  assert (Hin : forall x, block_ok x -> has_block t1 x <-> x = b \/ has_block t x).
  { destruct Hor as [(_ & _ & Hin)|[(_ & -> & Hh)|(_ & _ & [?|?])]]; [done| |done..]. intros x Hx. split; [by right|]. by intros [->|?]. }
  destruct (IH Hbs t1 Ht1) as (t' & -> & Ht' & Hin'). exists t'. split_and!; [done|done|]. intros x Hx.
  rewrite Hin', Hin, elem_of_cons by done. tauto.
Qed.

(** A run that is taken into use: its blocks are added to the bucket. *)
Lemma run_reuse_spec mallocs t (runs : Z * Z -> Prop) bm chunk zone unit_size nval :
  nallocs = RUN_NALLOCS unit_size -> MIN_RUN_SIZE <= unit_size <= RUNSIZE ->
  1 <= nval <= MAX_BITMAP_VALUES -> nallocs <= BITS_PER_VALUE * nval ->
  bucket_exact um nallocs t runs bm -> ~ runs (chunk, zone) -> (forall k, mallocs k = (true, true)) ->
  0 <= chunk < MAX_CHUNK -> 0 <= zone < UINT16_MAX ->
  (forall i, 0 <= i < nval -> 0 <= bm (chunk, zone) i < 2 ^ 64) ->
  (forall p, nallocs <= p < BITS_PER_VALUE * nval -> used_unit (bm (chunk, zone)) p = true) ->
  exists bs t', heap_process_run_metadata nval nallocs um unit_size (bm (chunk, zone)) chunk zone = Some bs /\
    insert_blocks mallocs t bs = Some t' /\ bucket_exact um nallocs t' (fun c => c = (chunk, zone) \/ runs c) bm.
Proof.
  intros En Hu Hnv Hle [Ht Hb] Hnew Hm Hc Hz Hv Hend. subst nallocs.
  destruct (process_spec nval um unit_size (bm (chunk, zone)) chunk zone) as (bs & E & Hbs); try done.
  destruct (insert_blocks_spec mallocs t bs Ht) as (t' & E' & Ht' & Hin); [|done|].
  { apply Forall_forall. intros x Hx. apply Hbs in Hx as (Ex1 & Ex2 & Hf & Ho & He). pose proof (fb_size _ _ _ Hf). split; lia. }
  exists bs, t'. split_and!; [done|done|]. split; [done|]. intros x Hx. rewrite Hin, Hbs, Hb by done. unfold chunk_of. split.
  - intros [(-> & -> & Hf & Ho & He)|(Hr & Hf & He)]; [split_and!; [by left|done|lia]|split_and!; [by right|done|lia]].
  - intros ([[= -> ->]|Hr] & Hf & He); [left|by right]. destruct Hx. split_and!; try done; lia.
Qed.

End Exact.

(** ** Theorems *)

(** C38: taking a run into use adds exactly its free blocks to the bucket: for a bucket
    that holds exactly the free blocks of the runs it serves, [heap_process_run_metadata]
    passes its assertions for every bitmap whose bits past the units of the run are set,
    and after the insertion of its blocks the bucket holds exactly the longest free
    ranges, within groups of [unit_max] units, of its runs and of the new one. *)
Theorem run_blocks_exact um unit_size nval mallocs t runs bm chunk zone :
  0 < um -> (um | 64) -> MIN_RUN_SIZE <= unit_size <= RUNSIZE ->
  1 <= nval <= MAX_BITMAP_VALUES -> RUN_NALLOCS unit_size <= BITS_PER_VALUE * nval ->
  bucket_exact um (RUN_NALLOCS unit_size) t runs bm -> ~ runs (chunk, zone) -> (forall k, mallocs k = (true, true)) ->
  0 <= chunk < MAX_CHUNK -> 0 <= zone < UINT16_MAX ->
  (forall i, 0 <= i < nval -> 0 <= bm (chunk, zone) i < 2 ^ 64) ->
  (forall p, RUN_NALLOCS unit_size <= p < BITS_PER_VALUE * nval -> used_unit (bm (chunk, zone)) p = true) ->
  exists bs t', heap_process_run_metadata nval (RUN_NALLOCS unit_size) um unit_size (bm (chunk, zone)) chunk zone = Some bs /\
    insert_blocks mallocs t bs = Some t' /\
    bucket_exact um (RUN_NALLOCS unit_size) t' (fun c => c = (chunk, zone) \/ runs c) bm.
Proof.
  intros Hum Hd Hu Hn Hna Hb Hnew Hm Hc Hz Hv Hend. apply run_reuse_spec; try done.
  unfold MAX_BITMAP_VALUES, BITS_PER_VALUE, UINT16_MAX, MAX_CACHELINE_ALIGNMENT in *. lia.
Qed.

(** ** Example: a run of 2045 units of 128 bytes, the units 2 to 7 of it used *)

Definition sample_words (a : Z) : Z :=
  if a =? chunk_header_word 0 0 0 then mk_header CHUNK_TYPE_RUN 0 1
  else if a =? run_bitmap_word (chunk_addr 0 0 0) 0 then 0xFC
  else if a =? run_bitmap_word (chunk_addr 0 0 0) 31 then 0xE000000000000000
  else 0.
Definition sample_mem : pmem := fun a => mkCell (sample_words a) [] 0.

Lemma sample_value i : 0 <= memory_bitmaps 0 sample_mem (0, 0) i < 2 ^ 64.
Proof. unfold memory_bitmaps, pm_read, sample_mem, sample_words. cbn [c_pending c_durable List.last]. repeat case_match; vm_compute; split; congruence. Qed.

Lemma sample_end p : 2045 <= p < 2048 -> used_unit (memory_bitmaps 0 sample_mem (0, 0)) p = true.
Proof. intros Hp. assert (p = 2045 \/ p = 2046 \/ p = 2047) as [->|[->| ->]] by lia; vm_compute; reflexivity. Qed.

Lemma empty_exact um nallocs bm : bucket_exact um nallocs None (fun _ => False) bm.
Proof. split; [apply empty_ok|]. intros x Hx. split; [by intros ?%empty_has|tauto]. Qed.

Lemma run_blocks_exact_witness :
  exists bs t', heap_process_run_metadata 32 2045 8 128 (memory_bitmaps 0 sample_mem (0, 0)) 0 0 = Some bs /\
    insert_blocks (fun _ => (true, true)) None bs = Some t' /\
    bucket_exact 8 2045 t' (fun c => c = (0, 0) \/ False) (memory_bitmaps 0 sample_mem).
Proof.
  apply (run_blocks_exact 8 128 32 (fun _ => (true, true)) None (fun _ => False) (memory_bitmaps 0 sample_mem) 0 0);
    [done|by exists 8|done|done|vm_compute; discriminate|apply empty_exact|tauto|done|done|done|intros i _; apply sample_value|apply sample_end].
Defined.

(** The bucket after the run has been taken into use. *)
Lemma sample_bucket : exists t, bucket_exact 8 2045 t (fun c => c = (0, 0) \/ False) (memory_bitmaps 0 sample_mem).
Proof.
  destruct (run_reuse_spec 8 2045 ltac:(done) ltac:(by exists 8) ltac:(done) (fun _ => (true, true)) None (fun _ => False)
    (memory_bitmaps 0 sample_mem) 0 0 128 32) as (bs & t & _ & _ & H); try done; [apply empty_exact|tauto|intros i _; apply sample_value|apply sample_end|].
  by exists t.
Qed.
