(* ===== verification/HeapZoneProofs.v ===== *)
(** * Zones as sequences of chunks

    What the functions of [HeapZone] do to a zone: [tiles] says that its headers describe
    a sequence of chunks.  The scan of a zone, the split of a chunk and the creation of a
    zone are followed operation by operation, so that what a crash can leave is covered. *)

From S2P Require Import Prelude Pmem Programs Redo RedoProofs Memops Ctree Bucket HeapLayout HeapRun Memblock HeapZone.

Local Open Scope pmtest_scope.

(** ** Header words *)

Lemma mk_header_fields type flags size :
  0 <= type < 2 ^ 16 -> 0 <= flags < 2 ^ 16 -> 0 <= size < 2 ^ 32 ->
  hdr_type (mk_header type flags size) = type /\ hdr_flags (mk_header type flags size) = flags /\
  hdr_size_idx (mk_header type flags size) = size.
Proof.
  intros H1 H2 H3. unfold hdr_type, hdr_flags, hdr_size_idx, mk_header. split_and!.
  - rewrite <-(Z.mod_unique_pos _ (2 ^ 16) (flags + size * 2 ^ 16) type); lia.
  - rewrite <-(Z.div_unique_pos _ (2 ^ 16) (flags + size * 2 ^ 16) type) by lia.
    rewrite <-(Z.mod_unique_pos _ (2 ^ 16) size flags); lia.
  - rewrite <-(Z.div_unique_pos _ (2 ^ 32) size (type + flags * 2 ^ 16)) by lia. apply Z.mod_small. lia.
Qed.

(** ** Sequences of chunks *)

Record chunk := mkChunk {
  ch_at : Z;
  ch_type : Z;
  ch_size : Z;
}.

Definition chunk_type_ok (c : chunk) : Prop :=
  ch_type c = CHUNK_TYPE_FREE \/ ch_type c = CHUNK_TYPE_USED \/ ch_type c = CHUNK_TYPE_RUN /\ ch_size c = 1.

Definition chunk_word (c : chunk) : Z := mk_header (ch_type c) 0 (ch_size c).

(** The headers [H] from [i] to [n] are those of the chunks. *)
Inductive tiles (H : Z -> Z) (n : Z) : Z -> list chunk -> Prop :=
| tiles_end : tiles H n n []
| tiles_chunk i c l :
    ch_at c = i -> H i = chunk_word c -> chunk_type_ok c -> 1 <= ch_size c -> i + ch_size c <= n ->
    tiles H n (i + ch_size c) l -> tiles H n i (c :: l).

Lemma chunk_fields c : chunk_type_ok c -> 0 <= ch_size c < 2 ^ 32 ->
  hdr_type (chunk_word c) = ch_type c /\ hdr_flags (chunk_word c) = 0 /\ hdr_size_idx (chunk_word c) = ch_size c.
Proof.
  intros Ht Hs. apply mk_header_fields; [|lia|done]. unfold chunk_type_ok, CHUNK_TYPE_FREE, CHUNK_TYPE_USED, CHUNK_TYPE_RUN in Ht. lia.
Qed.

Lemma tiles_le H n i l : tiles H n i l -> i <= n.
Proof. induction 1; lia. Qed.

(** The chunks are in the range, and a later one starts behind an earlier one. *)
Lemma tiles_bounds H n i l c : tiles H n i l -> c ∈ l -> i <= ch_at c /\ 1 <= ch_size c /\ ch_at c + ch_size c <= n /\ chunk_type_ok c /\ H (ch_at c) = chunk_word c.
Proof.
  induction 1 as [|i c' l E Hw Ht Hs He Hl IH]; [by intros ?%elem_of_nil|]. intros [->|Hc]%elem_of_cons.
  - subst i. split_and!; try done; lia.
  - destruct (IH Hc) as (? & ? & ? & ? & ?). split_and!; try done; lia.
Qed.

Lemma tiles_disjoint H n i l c c' : tiles H n i l -> c ∈ l -> c' ∈ l -> c = c' \/ ch_at c + ch_size c <= ch_at c' \/ ch_at c' + ch_size c' <= ch_at c.
Proof.
  induction 1 as [|i c0 l E Hw Ht Hs He Hl IH]; [by intros ?%elem_of_nil|]. intros [->|Hc]%elem_of_cons [->|Hc']%elem_of_cons.
  - by left.
  - pose proof (tiles_bounds _ _ _ _ _ Hl Hc'). lia.
  - pose proof (tiles_bounds _ _ _ _ _ Hl Hc). lia.
  - by apply IH.
Qed.

(** Only the headers at the starts of the chunks matter. *)
Lemma tiles_ext H H' n i l : (forall c, c ∈ l -> H' (ch_at c) = H (ch_at c)) -> tiles H n i l -> tiles H' n i l.
Proof.
  intros He. induction 1 as [|i c l E Hw Ht Hs Hn Hl IH]; [constructor|]. constructor; try done.
  - rewrite <-E, He by left. by rewrite E.
  - apply IH. intros c' Hc'. apply He. by right.
Qed.

Lemma tiles_app H n i l1 l2 j : tiles H j i l1 -> tiles H n j l2 -> tiles H n i (l1 ++ l2).
Proof.
  intros H1 H2. pose proof (tiles_le _ _ _ _ H2). induction H1 as [|i c l E Hw Ht Hs Hn Hl IH]; [done|]. simpl. constructor; try done; lia.
Qed.

Lemma tiles_app_inv H n i l1 l2 : tiles H n i (l1 ++ l2) -> exists j, tiles H j i l1 /\ tiles H n j l2 /\ i <= j <= n.
Proof.
  revert i. induction l1 as [|c l1 IH]; intros i Hl.
  - exists i. split_and!; [constructor|done|lia|by apply tiles_le in Hl].
  - inversion Hl as [|? ? ? E Hw Ht Hs Hn Hl']; subst. destruct (IH _ Hl') as (j & H1 & H2 & Hj). exists j. split_and!; [|done|lia|lia].
    pose proof (tiles_le _ _ _ _ H1). by constructor.
Qed.

(** ** Addresses *)

Section Zone.
Context (hlayout : Z).

Local Abbreviation header z i := (chunk_header_word hlayout z i).
Local Abbreviation headers m z := (fun i => pm_read m (chunk_header_word hlayout z i)).

Lemma header_inj z i j : header z i = header z j -> i = j.
Proof. unfold chunk_header_word, sizeof_chunk_header. lia. Qed.

Lemma header_add z i k : header z i + sizeof_chunk_header * k = header z (i + k).
Proof. unfold chunk_header_word, sizeof_chunk_header. lia. Qed.

Lemma header_not_run z i j k : 0 <= i < MAX_CHUNK -> 0 <= j -> 0 <= k -> header z i <> chunk_addr hlayout z j + k.
Proof. unfold chunk_header_word, chunk_addr, sizeof_zone, sizeof_chunk_header, CHUNKSIZE. lia. Qed.

(** ** Footers *)

Definition footer_ops (z i size flags : Z) : list pm_op :=
  if size =? 1 then [] else [Store (header z (i + size - 1)) (mk_header CHUNK_TYPE_FOOTER flags size)].

Lemma write_footer_runs z i size m :
  heap_chunk_write_footer (header z i) size m = Some (tt, footer_ops z i size (hdr_flags (pm_read m (header z i)))).
Proof.
  unfold heap_chunk_write_footer, footer_ops. destruct (size =? 1); [done|].
  unfold bind, read, store, emit. simpl. rewrite header_add. by replace (i + (size - 1)) with (i + size - 1) by lia.
Qed.

Lemma footer_ops_store z i size flags a v : Store a v ∈ footer_ops z i size flags -> size <> 1 /\ a = header z (i + size - 1).
Proof.
  unfold footer_ops. destruct (Z.eqb_spec size 1); [by intros ?%elem_of_nil|]. intros [= -> ->]%list_elem_of_singleton. done.
Qed.

(** ** Runs *)

Definition run_full (m : pmem) (r : Z) : bool :=
  forallb (fun i => pm_read m (run_bitmap_word r (Z.of_nat i)) =? UINT64_ALL) (seq 0 (Z.to_nat MAX_BITMAP_VALUES)).

Lemma run_is_empty_runs m r : heap_run_is_empty r m = Some (run_full m r, []).
Proof.
  unfold heap_run_is_empty, run_full. change 0 with (Z.of_nat 0). generalize 0%nat. induction (Z.to_nat MAX_BITMAP_VALUES) as [|n IH]; intros i; [done|].
  cbn [run_is_empty_loop seq forallb]. unfold bind at 1, read at 1. simpl.
  destruct (Z.eqb_spec (pm_read m (run_bitmap_word r (Z.of_nat i))) UINT64_ALL); simpl; [|done].
  replace (Z.of_nat i + 1) with (Z.of_nat (S i)) by lia. change (run [] m) with m. by rewrite IH.
Qed.

(** Registering a run. *)
Lemma register_runs S h active c z m :
  classes_ok S h -> (run_full m (chunk_addr hlayout z c) = false -> pm_read m (run_block_size_word (chunk_addr hlayout z c)) ∈ S) ->
  exists h' new, heap_register_active_run hlayout true h active c z m =
      Some ((h', new ++ active), [Store (run_bucket_vptr (chunk_addr hlayout z c)) 0]) /\
    classes_ok S h' /\ cl_units h `prefix_of` cl_units h' /\
    snd <$> new = (if run_full m (chunk_addr hlayout z c) then [] else [(c, z)]) /\
    Forall (fun e => 0 <= e.1 < MAX_BUCKETS /\ e.2 = (c, z) /\ cl_units h' !! Z.to_nat e.1 = Some (pm_read m (run_block_size_word (chunk_addr hlayout z c)))) new.
Proof.
  intros Hh Hs. set (r := chunk_addr hlayout z c) in *. unfold heap_register_active_run. fold r.
  set (m1 := pm_store m (run_bucket_vptr r) 0).
  assert (Hr : forall a, a <> run_bucket_vptr r -> pm_read m1 a = pm_read m a) by (intros a Ha; by apply pm_read_store_ne).
  assert (Ef : run_full m1 r = run_full m r).
  { unfold run_full. induction (seq 0 _) as [|i l IH]; [done|]. simpl. rewrite IH, Hr; [done|]. unfold run_bitmap_word, run_bucket_vptr. lia. }
  assert (Eb : pm_read m1 (run_block_size_word r) = pm_read m (run_block_size_word r)).
  { apply Hr. unfold run_block_size_word, run_bucket_vptr. lia. }
  unfold bind at 1, store at 1, emit at 1. simpl. fold m1. rewrite (bind_pure _ _ m1 _ (run_is_empty_runs m1 r)), Ef.
  destruct (run_full m r) eqn:E.
  - exists h, []. split_and!; done.
  - destruct (get_create_spec S h _ Hh (Hs eq_refl)) as (bid & h' & Eg & Hh' & Hu & Hb & Hpre).
    exists h', [(bid, (c, z))]. split_and!; [|done|done|done|by apply Forall_singleton].
    unfold bind, check, read, lift, ret. simpl. rewrite Eb, Eg. done.
Qed.

(** ** The scan *)

Context (S : list Z) (z n : Z) (Hz : 0 <= z < UINT16_MAX) (Hn : n <= MAX_CHUNK).

(** The words a scan writes: footers and the pointers from runs to buckets. *)
Definition scratch (l : list chunk) (a : Z) : Prop :=
  exists c, c ∈ l /\ (ch_size c <> 1 /\ a = header z (ch_at c + ch_size c - 1) \/
                      ch_type c = CHUNK_TYPE_RUN /\ a = run_bucket_vptr (chunk_addr hlayout z (ch_at c))).

(** The runs that are not full, in the order of the scan. *)
Definition free_runs (m : pmem) (l : list chunk) : list (Z * Z) :=
  (fun c => (ch_at c, z)) <$> filter (fun c => ch_type c = CHUNK_TYPE_RUN /\ run_full m (chunk_addr hlayout z (ch_at c)) = false) l.

Definition chunk_block (c : chunk) : memory_block := mkBlock (ch_at c) z (ch_size c) 0.

Definition run_unit (m : pmem) (e : Z * (Z * Z)) : Z := pm_read m (run_block_size_word (chunk_addr hlayout z e.2.1)).

(** What a scan of the chunks [l] does, with respect to the runs in [m0]. *)
Record scanned (m0 : pmem) (l : list chunk) (s s' : found) (m : pmem) (ops : list pm_op) : Prop := {
  sc_classes : classes_ok S (f_classes s') /\ cl_units (f_classes s) `prefix_of` cl_units (f_classes s');
  sc_active : exists new, f_active s' = new ++ f_active s /\ snd <$> new = reverse (free_runs m0 l) /\
    Forall (fun e => 0 <= e.1 < MAX_BUCKETS /\ cl_units (f_classes s') !! Z.to_nat e.1 = Some (run_unit m0 e)) new;
  sc_ok : tree_ok (f_tree s');
  sc_tree x : block_ok x ->
    has_block (f_tree s') x <-> has_block (f_tree s) x \/ exists c, c ∈ l /\ ch_type c = CHUNK_TYPE_FREE /\ x = chunk_block c;
  sc_stores a v : Store a v ∈ ops -> scratch l a;
  sc_footer c : c ∈ l -> ch_size c <> 1 -> pm_read (run ops m) (header z (ch_at c + ch_size c - 1)) = mk_header CHUNK_TYPE_FOOTER 0 (ch_size c);
  sc_vptr c : c ∈ l -> ch_type c = CHUNK_TYPE_RUN -> pm_read (run ops m) (run_bucket_vptr (chunk_addr hlayout z (ch_at c))) = 0;
}.

(** The runs of [l] are in [m] as in [m0]. *)
Definition same_runs (m0 m : pmem) (l : list chunk) : Prop := forall c, c ∈ l -> ch_type c = CHUNK_TYPE_RUN ->
  let r := chunk_addr hlayout z (ch_at c) in
  run_full m r = run_full m0 r /\ pm_read m (run_block_size_word r) = pm_read m0 (run_block_size_word r).

Lemma no_store_scratch l ops a : (forall a v, Store a v ∈ ops -> scratch l a) -> ~ scratch l a -> no_store a ops.
Proof. intros H Hn' v Hv. by apply Hn', (H a v). Qed.

(** A run. *)
Lemma populate_run_runs m0 m c s :
  ch_type c = CHUNK_TYPE_RUN -> ch_size c = 1 -> classes_ok S (f_classes s) -> tree_ok (f_tree s) -> same_runs m0 m [c] ->
  (run_full m0 (chunk_addr hlayout z (ch_at c)) = false -> pm_read m0 (run_block_size_word (chunk_addr hlayout z (ch_at c))) ∈ S) ->
  exists s' ops, bind (heap_register_active_run hlayout true (f_classes s) (f_active s) (ch_at c) z)
      (fun r => ret (mkFound r.1 r.2 (f_tree s))) m = Some (s', ops) /\ scanned m0 [c] s s' m ops.
Proof.
  intros Hty Hone Hh Ht Hsame Hbs. destruct (Hsame c ltac:(left) Hty) as [Hf Hb].
  destruct (register_runs S (f_classes s) (f_active s) (ch_at c) z m Hh) as (h' & new & Er & Hh' & Hpre & Hnew & Hun).
  { intros Hfull. rewrite Hb. apply Hbs. by rewrite <-Hf. }
  unfold bind, ret. rewrite Er. simpl. eexists _, _. split; [done|]. split; simpl; try done.
  - exists new. split; [done|]. split.
    + rewrite Hnew, Hf. unfold free_runs. rewrite filter_cons. destruct (run_full m0 _) eqn:Efull.
      * rewrite decide_False by (intros [_ ?]; done). done.
      * by rewrite decide_True by done.
    + eapply Forall_impl; [exact Hun|]. intros e (H1 & H2 & H3). split; [done|]. rewrite H3. unfold run_unit. rewrite H2. by f_equal.
  - intros x Hx. split; [by left|]. intros [?|(c' & ->%list_elem_of_singleton & Hc & _)]; [done|]. by rewrite Hc in Hty.
  - intros a v [= -> ->]%list_elem_of_singleton. exists c. split; [left|by right].
  - intros c' ->%list_elem_of_singleton Hc. by rewrite Hone in Hc.
  - intros c' ->%list_elem_of_singleton _. by rewrite pm_read_store_eq.
Qed.

(** One chunk. *)
Lemma populate_chunk_runs m0 m c s mallocs :
  0 <= ch_at c -> ch_at c + ch_size c <= n -> 1 <= ch_size c -> chunk_type_ok c ->
  pm_read m (header z (ch_at c)) = chunk_word c ->
  mallocs = (true, true) -> classes_ok S (f_classes s) -> tree_ok (f_tree s) -> same_runs m0 m [c] ->
  (ch_type c = CHUNK_TYPE_RUN -> run_full m0 (chunk_addr hlayout z (ch_at c)) = false ->
     pm_read m0 (run_block_size_word (chunk_addr hlayout z (ch_at c))) ∈ S) ->
  exists s' ops, populate_chunk hlayout mallocs z (ch_at c) (chunk_word c) s m = Some (s', ops) /\ scanned m0 [c] s s' m ops.
Proof.
  intros Hat He Hs Hty Hw -> Hh Ht Hsame Hbs. unfold MAX_CHUNK, UINT16_MAX in *.
  destruct (chunk_fields c Hty ltac:(lia)) as (F1 & F2 & F3). unfold populate_chunk. rewrite F1, F3.
  unfold bind at 1. rewrite write_footer_runs, Hw, F2. cbn [mbind option_bind]. set (m1 := run _ m).
  assert (Hfs : forall a v, Store a v ∈ footer_ops z (ch_at c) (ch_size c) 0 -> scratch [c] a).
  { intros a v [H1 H2]%footer_ops_store. exists c. split; [left|by left]. }
  assert (Hft : ch_size c <> 1 -> pm_read m1 (header z (ch_at c + ch_size c - 1)) = mk_header CHUNK_TYPE_FOOTER 0 (ch_size c)).
  { intros Hne. unfold m1, footer_ops. rewrite (proj2 (Z.eqb_neq _ _) Hne). simpl. by rewrite pm_read_store_eq. }
  destruct Hty as [Hty|[Hty|[Hty Hone]]]; rewrite Hty; simpl.
  - set (b := mkBlock _ _ _ _). assert (Hb : block_ok b) by (subst b; split; simpl; unfold MAX_CHUNK, UINT16_MAX; lia).
    destruct (insert_block_spec (true, true) (f_tree s) b Ht Hb) as (t' & err & Ei & Ht' & Hor).
    unfold bind, lift, ret. rewrite Ei. simpl. eexists _, _. split; [done|]. rewrite app_nil_r.
    split; simpl; try done.
    + exists []. unfold free_runs. rewrite filter_cons, decide_False by (rewrite Hty; by intros [[= ] _]). done.
    + intros x Hx. trans (x = b \/ has_block (f_tree s) x).
      * destruct Hor as [(_ & _ & Hin)|[(_ & -> & Hh')|(_ & _ & [?|?])]]; [by apply Hin| |done..]. split; [by right|]. by intros [->|?].
      * split; [intros [->|?]; [right; exists c; split_and!; [left|done|done]|by left]|]. intros [?|(c' & ->%list_elem_of_singleton & _ & ->)]; [by right|by left].
    + by intros c' ->%list_elem_of_singleton.
    + intros c' ->%list_elem_of_singleton Hc. by rewrite Hc in Hty.
  - eexists _, _. split; [done|]. rewrite app_nil_r. split; simpl; try done.
    + exists []. unfold free_runs. rewrite filter_cons, decide_False by (rewrite Hty; by intros [[= ] _]). done.
    + intros x Hx. split; [by left|]. intros [?|(c' & ->%list_elem_of_singleton & Hc & _)]; [done|]. by rewrite Hc in Hty.
    + by intros c' ->%list_elem_of_singleton.
    + intros c' ->%list_elem_of_singleton Hc. by rewrite Hc in Hty.
  - destruct (populate_run_runs m0 m c s) as (s' & ops & E & Hsc); try done; [by apply Hbs|].
    assert (Eo : footer_ops z (ch_at c) (ch_size c) 0 = []) by (unfold footer_ops; by rewrite Hone).
    exists s', ops. unfold m1. rewrite Eo. simpl. by rewrite E.
Qed.

Definition inside (c : chunk) : Prop := 0 <= ch_at c /\ 1 <= ch_size c /\ ch_at c + ch_size c <= n.

(** The scratch words of two chunks are different. *)
Lemma scratch_apart c c' a : inside c -> inside c' -> scratch [c] a -> scratch [c'] a ->
  ch_at c + ch_size c <= ch_at c' \/ ch_at c' + ch_size c' <= ch_at c -> False.
Proof.
  intros (I1 & I2 & I3) (J1 & J2 & J3) (x & ->%list_elem_of_singleton & Hx) (y & ->%list_elem_of_singleton & Hy) Hd. unfold MAX_CHUNK in *.
  destruct Hx as [[_ ->]|[_ ->]], Hy as [[_ E]|[_ E]].
  - apply header_inj in E. lia.
  - apply header_not_run in E; unfold MAX_CHUNK, UINT16_MAX in *; lia.
  - symmetry in E. apply header_not_run in E; unfold MAX_CHUNK, UINT16_MAX in *; lia.
  - unfold run_bucket_vptr, chunk_addr, CHUNKSIZE in E. lia.
Qed.

(** A header at the start of a chunk and the other words of a run are not scratch. *)
Lemma scratch_not_header c i : inside c -> 0 <= i < MAX_CHUNK -> i < ch_at c \/ ch_at c + ch_size c <= i \/ i = ch_at c -> ~ scratch [c] (header z i).
Proof.
  intros (I1 & I2 & I3) Hi Hd (x & ->%list_elem_of_singleton & [[Hx E]|[_ E]]).
  - apply header_inj in E. lia.
  - apply header_not_run in E; lia.
Qed.

Lemma scratch_not_run c i k : inside c -> 0 <= i -> 0 <= k < CHUNKSIZE -> k <> 8 -> ~ scratch [c] (chunk_addr hlayout z i + k).
Proof.
  intros (I1 & I2 & I3) Hi Hk Hk8 (x & ->%list_elem_of_singleton & [[Hx E]|[_ E]]).
  - symmetry in E. apply header_not_run in E; unfold MAX_CHUNK in *; lia.
  - unfold run_bucket_vptr, chunk_addr, CHUNKSIZE in *. lia.
Qed.

Lemma scratch_in l a : scratch l a <-> exists c, c ∈ l /\ scratch [c] a.
Proof.
  split.
  - intros (c & Hc & H). exists c. split; [done|]. exists c. split; [left|done].
  - intros (c & Hc & c' & ->%list_elem_of_singleton & H). by exists c.
Qed.

Lemma scanned_app m0 c l s s1 s2 m ops1 ops2 :
  inside c -> (forall c', c' ∈ l -> inside c' /\ ch_at c + ch_size c <= ch_at c') ->
  scanned m0 [c] s s1 m ops1 -> scanned m0 l s1 s2 (run ops1 m) ops2 -> scanned m0 (c :: l) s s2 m (ops1 ++ ops2).
Proof.
  intros Hc Hl [A1 A2 A3 A4 A5 A6 A7] [B1 B2 B3 B4 B5 B6 B7].
  assert (Hkeep : forall a, scratch [c] a -> pm_read (run ops2 (run ops1 m)) a = pm_read (run ops1 m) a).
  { intros a Ha. apply no_store_read. intros v Hv. apply B5, scratch_in in Hv as (c' & Hc' & Ha').
    destruct (Hl c' Hc') as [Hi Hd]. by apply (scratch_apart c c' a); try done; left. }
  split.
  - destruct A1, B1. split; [done|]. by trans (cl_units (f_classes s1)).
  - destruct A2 as (new1 & E1 & F1 & G1), B2 as (new2 & E2 & F2 & G2). exists (new2 ++ new1). split; [by rewrite E2, E1, app_assoc|]. split.
    + rewrite fmap_app, F1, F2, <-reverse_app. f_equal. unfold free_runs. rewrite <-fmap_app, <-filter_app. done.
    + apply Forall_app. split; [done|]. eapply Forall_impl; [exact G1|]. intros e [H1 H2]. split; [done|]. by eapply prefix_lookup_Some, B1.
  - done.
  - intros x Hx. rewrite B4, A4 by done. split.
    + intros [[?|(c' & ->%list_elem_of_singleton & ?)]|(c' & Hc' & ?)]; [by left|right; exists c; split; [left|done]|right; exists c'; split; [by right|done]].
    + intros [?|(c' & [->|Hc']%elem_of_cons & ?)]; [by left; left|left; right; exists c; split; [left|done]|right; by exists c'].
  - intros a v [Ha%A5|Ha%B5]%elem_of_app; apply scratch_in; apply scratch_in in Ha as (c' & Hc' & Ha); exists c'; (split; [|done]).
    + apply list_elem_of_singleton in Hc' as ->. left.
    + by right.
  - intros c' [->|Hc']%elem_of_cons Hs; rewrite run_app; [|by apply B6].
    rewrite Hkeep; [by apply A6; [left|]|]. exists c. split; [left|by left].
  - intros c' [->|Hc']%elem_of_cons Ht; rewrite run_app; [|by apply B7].
    rewrite Hkeep; [by apply A7; [left|]|]. exists c. split; [left|by right].
Qed.

Lemma scanned_nil m0 s m : classes_ok S (f_classes s) -> tree_ok (f_tree s) -> scanned m0 [] s s m [].
Proof.
  intros Hh Ht. split; try done.
  - by exists [].
  - intros x Hx. split; [by left|]. intros [?|(c & ?%elem_of_nil & _)]; done.
  - by intros a v ?%elem_of_nil.
  - by intros c ?%elem_of_nil.
  - by intros c ?%elem_of_nil.
Qed.

(** The words of a run a scan reads are the same after the scan of another chunk. *)
Lemma same_runs_step m0 m c l ops :
  inside c -> (forall c', c' ∈ l -> 0 <= ch_at c') -> (forall a v, Store a v ∈ ops -> scratch [c] a) ->
  same_runs m0 m l -> same_runs m0 (run ops m) l.
Proof.
  intros Hc Hl Hops Hs c' Hc' Ht r. destruct (Hs c' Hc' Ht) as [E1 E2]. fold r in E1, E2. rewrite <-E1, <-E2.
  assert (Hr : forall k, 0 <= k < CHUNKSIZE -> k <> 8 -> pm_read (run ops m) (r + k) = pm_read m (r + k)).
  { intros k Hk Hk8. apply no_store_read. intros v Hv%Hops. by apply (scratch_not_run c (ch_at c') k) in Hv; [|auto..]. }
  unfold CHUNKSIZE in Hr. split.
  - unfold run_full. assert (Hlt : forall i, i ∈ seq 0 (Z.to_nat MAX_BITMAP_VALUES) -> (i < 38)%nat) by (intros i Hi; apply elem_of_seq in Hi; change MAX_BITMAP_VALUES with 38 in Hi; lia).
    induction (seq 0 _) as [|i q IH]; [done|]. simpl. rewrite IH by (intros j Hj; apply Hlt; by right). f_equal.
    unfold run_bitmap_word. pose proof (Hlt i ltac:(left)). replace (r + 16 + 8 * Z.of_nat i) with (r + (16 + 8 * Z.of_nat i)) by lia. rewrite Hr; [done|lia|lia].
  - unfold run_block_size_word. rewrite <-(Z.add_0_r r). apply Hr; lia.
Qed.

Lemma populate_loop_runs mallocs m0 fuel i s m l :
  tiles (headers m z) n i l -> 0 <= i -> n - i < Z.of_nat fuel -> (forall k, mallocs k = (true, true)) ->
  classes_ok S (f_classes s) -> tree_ok (f_tree s) -> same_runs m0 m l ->
  (forall c, c ∈ l -> ch_type c = CHUNK_TYPE_RUN -> run_full m0 (chunk_addr hlayout z (ch_at c)) = false ->
     pm_read m0 (run_block_size_word (chunk_addr hlayout z (ch_at c))) ∈ S) ->
  exists s' ops, populate_loop hlayout fuel mallocs z n i s m = Some (s', ops) /\ scanned m0 l s s' m ops.
Proof.
  intros Hl. revert fuel i s m Hl. induction l as [|c l IH]; intros fuel i s m Hl Hi Hf Hm Hh Ht Hsame Hbs;
    (destruct fuel as [|fuel]; [pose proof (tiles_le _ _ _ _ Hl); lia|]); cbn [populate_loop].
  { inversion Hl. rewrite Z.ltb_irrefl. exists s, []. split; [done|]. by apply scanned_nil. }
  inversion Hl as [|? ? ? Eat Hw Hty Hs He Hl']; subst i. unfold MAX_CHUNK, UINT16_MAX in *. subst.
  rewrite (proj2 (Z.ltb_lt (ch_at c) n)) by lia. destruct (chunk_fields c Hty ltac:(lia)) as (F1 & F2 & F3).
  rewrite (bind_pure _ _ m (chunk_word c)) by (unfold read; by rewrite Hw).
  rewrite F3, (proj2 (Z.eqb_neq (ch_size c) 0)) by lia. cbn [negb]. rewrite (bind_pure _ _ m tt) by done.
  assert (Hc : inside c) by (unfold inside; lia).
  destruct (populate_chunk_runs m0 m c s (mallocs (ch_at c))) as (s1 & ops1 & E1 & Hsc1); try done.
  { intros c' ->%list_elem_of_singleton. apply Hsame. left. } { apply Hbs. left. }
  assert (Hin : forall c', c' ∈ l -> inside c' /\ ch_at c + ch_size c <= ch_at c').
  { intros c' Hc'. destruct (tiles_bounds _ _ _ _ _ Hl' Hc') as (B1 & B2 & B3 & _). unfold inside. lia. }
  pose proof (sc_stores _ _ _ _ _ _ Hsc1) as Hst.
  destruct (IH fuel (ch_at c + ch_size c) s1 (run ops1 m)) as (s2 & ops2 & E2 & Hsc2); try done; try lia.
  - eapply tiles_ext; [|exact Hl']. intros c' Hc'. destruct (Hin c' Hc') as [(I1 & I2 & I3) Hd]. apply no_store_read.
    intros v Hv%Hst. apply (scratch_not_header c (ch_at c')) in Hv; [done|done|unfold MAX_CHUNK, UINT16_MAX; lia|lia].
  - apply Hsc1.
  - apply Hsc1.
  - apply same_runs_step with c; try done; [|intros c' Hc'; apply Hsame; by right]. intros c' Hc'. apply (Hin c' Hc').
  - intros c' Hc'. apply Hbs. by right.
  - exists s2, (ops1 ++ ops2). split; [|by apply scanned_app with s1].
    eapply bind_Some; [exact E1|]. rewrite u32_small by lia. done.
Qed.

(** ** Splitting a chunk *)

Definition init_ops (i type size : Z) : list pm_op :=
  [Store (header z i) (mk_header type 0 size); Flush (header z i) 8; Fence] ++ footer_ops z i size 0.

Lemma chunk_init_runs i type size m : 0 <= type < 2 ^ 16 -> 0 <= size < 2 ^ 32 ->
  heap_chunk_init (header z i) type size m = Some (tt, init_ops i type size).
Proof.
  intros Ht Hs. unfold heap_chunk_init, store, persist, emit, bind. cbn [mbind option_bind].
  rewrite write_footer_runs. cbn [mbind option_bind]. unfold run. simpl. rewrite pm_read_fence, pm_read_flush, pm_read_store_eq.
  destruct (mk_header_fields type 0 size) as (_ & -> & _); [done|lia|done|]. done.
Qed.

Lemma init_ops_store i type size a v : Store a v ∈ init_ops i type size ->
  a = header z i /\ v = mk_header type 0 size \/ size <> 1 /\ a = header z (i + size - 1).
Proof.
  unfold init_ops. rewrite elem_of_app, !elem_of_cons, elem_of_nil. intros [[[= -> ->]|[?|[?|?]]]|H%footer_ops_store]; try done; [by left|by right].
Qed.

(** After its first three operations the header is durable. *)
Lemma init_ops_durable i type size m :
  1 <= size -> pm_durable (run (init_ops i type size) m) (header z i) /\ pm_read (run (init_ops i type size) m) (header z i) = mk_header type 0 size.
Proof.
  intros Hs. unfold init_ops. rewrite run_app. assert (Hns : no_store (header z i) (footer_ops z i size 0)).
  { intros v [H1 H2]%footer_ops_store. apply header_inj in H2. lia. }
  rewrite no_store_read by done. split.
  - apply no_store_durable; [done|]. apply (persist_durable (pm_store m (header z i) (mk_header type 0 size)) (header z i) 8). lia.
  - simpl. by rewrite pm_read_fence, pm_read_flush, pm_read_store_eq.
Qed.

Lemma init_ops_read i type size m a : 1 <= size ->
  pm_read (run (init_ops i type size) m) a =
  if decide (size <> 1 /\ a = header z (i + size - 1)) then mk_header CHUNK_TYPE_FOOTER 0 size
  else if decide (a = header z i) then mk_header type 0 size else pm_read m a.
Proof.
  clear Hz Hn.
  intros Hs. unfold init_ops, footer_ops. rewrite run_app. destruct (Z.eqb_spec size 1) as [E|E]; simpl.
  - rewrite decide_False by tauto. rewrite pm_read_fence, pm_read_flush. case_decide as D; [subst; apply pm_read_store_eq|by apply pm_read_store_ne].
  - case_decide as D; [destruct D as [_ ->]; apply pm_read_store_eq|]. rewrite pm_read_store_ne by tauto. rewrite pm_read_fence, pm_read_flush.
    case_decide as D'; [subst; apply pm_read_store_eq|by apply pm_read_store_ne].
Qed.

(** The two parts of a free chunk. *)
Definition first_part (c : chunk) (k : Z) : chunk := mkChunk (ch_at c) CHUNK_TYPE_FREE k.
Definition second_part (c : chunk) (k : Z) : chunk := mkChunk (ch_at c + k) CHUNK_TYPE_FREE (ch_size c - k).

Definition resize_ops (c : chunk) (k : Z) : list pm_op :=
  init_ops (ch_at c + k) CHUNK_TYPE_FREE (ch_size c - k) ++ init_ops (ch_at c) CHUNK_TYPE_FREE k.

Lemma resize_chunk_runs mallocs tree c k m :
  inside c -> 1 <= k < ch_size c -> chunk_type_ok c -> pm_read m (header z (ch_at c)) = chunk_word c -> tree_ok tree ->
  exists tree' err, bucket_tree_insert_block mallocs tree (chunk_block (second_part c k)) = Some (tree', err) /\ tree_ok tree' /\
    heap_resize_chunk hlayout mallocs tree (ch_at c) z k m = Some (tree', resize_ops c k).
Proof.
  intros (I1 & I2 & I3) Hk Hty Hw Ht. unfold MAX_CHUNK, UINT16_MAX in *. destruct (chunk_fields c Hty ltac:(lia)) as (_ & _ & F3).
  destruct (insert_block_spec mallocs tree (chunk_block (second_part c k)) Ht) as (tree' & err & E & Ht' & _).
  { split; simpl; unfold MAX_CHUNK, UINT16_MAX; lia. }
  exists tree', err. split_and!; [done|done|]. unfold heap_resize_chunk. rewrite (bind_pure _ _ m (chunk_word c)) by (unfold read; by rewrite Hw).
  rewrite F3, !u32_small by lia. unfold resize_ops, chunk_block, second_part in *. simpl in E.
  eapply bind_Some; [apply chunk_init_runs; unfold CHUNK_TYPE_FREE; lia|]. rewrite <-(app_nil_r (init_ops (ch_at c) _ _)).
  eapply bind_Some; [apply chunk_init_runs; unfold CHUNK_TYPE_FREE; lia|]. unfold bind, lift, ret. rewrite E. done.
Qed.

(** What a crash can leave while a chunk is split: one chunk or its two parts. *)
Lemma resize_crash c k m j image :
  inside c -> 1 <= k < ch_size c -> pm_durable m (header z (ch_at c)) -> pm_read m (header z (ch_at c)) = chunk_word c ->
  pm_crash (run (take j (resize_ops c k)) m) image ->
  image (header z (ch_at c)) = chunk_word c \/
  image (header z (ch_at c)) = chunk_word (first_part c k) /\ image (header z (ch_at c + k)) = chunk_word (second_part c k).
Proof.
  intros Hc Hk Hd Hw Hcr. unfold resize_ops in Hcr. set (A := init_ops (ch_at c + k) _ _) in *. set (B := init_ops (ch_at c) _ _) in *.
  assert (HA : no_store (header z (ch_at c)) A).
  { intros v [[E _]|[_ E]]%init_ops_store; apply header_inj in E; lia. }
  assert (HB : no_store (header z (ch_at c + k)) B).
  { intros v [[E _]|[_ E]]%init_ops_store; apply header_inj in E; lia. }
  destruct (take_app_cases j A B) as [E|[i E]]; rewrite E in Hcr.
  - left. rewrite (durable_image (run (take j A) m)), no_store_read; try done; [by apply no_store_take|].
    apply no_store_durable; [by apply no_store_take|done].
  - rewrite run_app in Hcr. destruct (init_ops_durable (ch_at c + k) CHUNK_TYPE_FREE (ch_size c - k) m ltac:(lia)) as [D2 R2]. fold A in D2, R2.
    assert (D1 : pm_durable (run A m) (header z (ch_at c))) by by apply no_store_durable.
    destruct (run_cand _ _ _ _ (Hcr (header z (ch_at c)))) as [Hv|Hv].
    + left. apply (durable_cand _ _ _ D1) in Hv. by rewrite Hv, no_store_read.
    + right. assert (Hv' : Store (header z (ch_at c)) (image (header z (ch_at c))) ∈ B).
      { apply elem_of_take in Hv as (q & Hq & _). by eapply list_elem_of_lookup_2. }
      apply init_ops_store in Hv' as [[_ ->]|[Hk1 E']]; [|apply header_inj in E'; lia]. split; [done|].
      rewrite (durable_image (run (take i B) (run A m))), no_store_read; try done; [by apply no_store_take|].
      apply no_store_durable; [by apply no_store_take|done].
Qed.

(** Replacing a chunk by others that take its place. *)
Lemma tiles_replace H H' i l1 c cs l2 :
  tiles H n i (l1 ++ c :: l2) -> (forall c', c' ∈ l1 ++ l2 -> H' (ch_at c') = H (ch_at c')) ->
  tiles H' (ch_at c + ch_size c) (ch_at c) cs -> tiles H' n i (l1 ++ cs ++ l2).
Proof.
  intros Ht He Hcs. apply tiles_app_inv in Ht as (j & H1 & H2 & _). inversion H2 as [|? ? ? Ea Hw Hty Hs Hn' H3]; subst.
  apply tiles_app with (ch_at c); [|apply tiles_app with (ch_at c + ch_size c); [done|]].
  - eapply tiles_ext; [|exact H1]. intros c' Hc'. apply He, elem_of_app. by left.
  - eapply tiles_ext; [|exact H3]. intros c' Hc'. apply He, elem_of_app. by right.
Qed.

Definition durable_chunks (m : pmem) (l : list chunk) : Prop := forall c, c ∈ l -> pm_durable m (header z (ch_at c)).

Lemma resize_no_store c c' k : inside c -> inside c' -> 1 <= k < ch_size c ->
  ch_at c + ch_size c <= ch_at c' \/ ch_at c' + ch_size c' <= ch_at c -> no_store (header z (ch_at c')) (resize_ops c k).
Proof.
  intros (I1 & I2 & I3) (J1 & J2 & J3) Hk Hd v [[[E _]|[_ E]]%init_ops_store|[[E _]|[_ E]]%init_ops_store]%elem_of_app; apply header_inj in E; lia.
Qed.

(** The other chunks of the sequence are apart from [c]. *)
Lemma tiles_others H l1 c l2 c' : tiles H n 0 (l1 ++ c :: l2) -> c' ∈ l1 ++ l2 ->
  inside c' /\ (ch_at c + ch_size c <= ch_at c' \/ ch_at c' + ch_size c' <= ch_at c).
Proof.
  intros Ht Hc'. assert (Hin : c' ∈ l1 ++ c :: l2) by (apply elem_of_app in Hc' as [?|?]; apply elem_of_app; [by left|right; by right]).
  destruct (tiles_bounds _ _ _ _ _ Ht Hin) as (B1 & B2 & B3 & _). split; [done|].
  apply tiles_app_inv in Ht as (j & H1 & H2 & Hj). inversion H2 as [|? ? ? Ea Hw Hty Hs Hn' H3]; subst.
  apply elem_of_app in Hc' as [Hc'|Hc'].
  - pose proof (tiles_bounds _ _ _ _ _ H1 Hc'). lia.
  - pose proof (tiles_bounds _ _ _ _ _ H3 Hc'). lia.
Qed.

Lemma split_tiles H c k : H (ch_at c) = chunk_word (first_part c k) -> H (ch_at c + k) = chunk_word (second_part c k) -> 1 <= k < ch_size c ->
  tiles H (ch_at c + ch_size c) (ch_at c) [first_part c k; second_part c k].
Proof.
  intros H1 H2 Hk. constructor; simpl; try done; try lia; [by left|]. constructor; simpl; try done; try lia; [by left|].
  replace (ch_at c + k + (ch_size c - k)) with (ch_at c + ch_size c) by lia. constructor.
Qed.

(** The split of a free chunk, done or interrupted. *)
Lemma resize_spec m l1 c l2 k :
  tiles (headers m z) n 0 (l1 ++ c :: l2) -> durable_chunks m (l1 ++ c :: l2) -> 1 <= k < ch_size c ->
  let l' := l1 ++ [first_part c k; second_part c k] ++ l2 in
  let m' := run (resize_ops c k) m in
  (tiles (headers m' z) n 0 l' /\ durable_chunks m' l') /\
  forall j image, pm_crash (run (take j (resize_ops c k)) m) image ->
    tiles (fun i => image (header z i)) n 0 (l1 ++ c :: l2) \/ tiles (fun i => image (header z i)) n 0 l'.
Proof.
  intros Ht Hd Hk l' m'. assert (Hc : c ∈ l1 ++ c :: l2) by (apply elem_of_app; right; left).
  destruct (tiles_bounds _ _ _ _ _ Ht Hc) as (B1 & B2 & B3 & B4 & B5). assert (Hin : inside c) by (unfold inside; lia).
  assert (Hns : forall c', c' ∈ l1 ++ l2 -> no_store (header z (ch_at c')) (resize_ops c k)).
  { intros c' Hc'. destruct (tiles_others _ l1 c l2 c' Ht Hc') as [Hi Ha]. by apply resize_no_store. }
  assert (Hdo : forall c', c' ∈ l1 ++ l2 -> pm_durable m (header z (ch_at c'))).
  { intros c' Hc'. apply Hd. apply elem_of_app in Hc' as [?|?]; apply elem_of_app; [by left|right; by right]. }
  destruct (init_ops_durable (ch_at c + k) CHUNK_TYPE_FREE (ch_size c - k) m ltac:(lia)) as [D2 R2].
  set (m1 := run (init_ops (ch_at c + k) CHUNK_TYPE_FREE (ch_size c - k)) m) in *.
  destruct (init_ops_durable (ch_at c) CHUNK_TYPE_FREE k m1 ltac:(lia)) as [D1 R1].
  assert (Em : m' = run (init_ops (ch_at c) CHUNK_TYPE_FREE k) m1) by (unfold m', resize_ops; by rewrite run_app).
  rewrite <-Em in D1, R1. assert (HB : no_store (header z (ch_at c + k)) (init_ops (ch_at c) CHUNK_TYPE_FREE k)).
  { intros v [[E _]|[_ E]]%init_ops_store; apply header_inj in E; lia. }
  split; [split|].
  - apply tiles_replace with (headers m z) c; [done|intros c' Hc'; by apply no_store_read, Hns|].
    apply split_tiles; [done| |done]. by rewrite Em, no_store_read.
  - intros c' [Hc'|[->|[->|Hc']%elem_of_cons]%elem_of_cons]%elem_of_app; simpl; try done.
    + apply no_store_durable; [apply Hns|apply Hdo]; apply elem_of_app; by left.
    + rewrite Em. by apply no_store_durable.
    + apply no_store_durable; [apply Hns|apply Hdo]; apply elem_of_app; by right.
  - intros j image Hcr. assert (Hsame : forall c', c' ∈ l1 ++ l2 -> image (header z (ch_at c')) = pm_read m (header z (ch_at c'))).
    { intros c' Hc'. assert (Hj : no_store (header z (ch_at c')) (take j (resize_ops c k))) by by apply no_store_take, Hns.
      rewrite <-(no_store_read _ m _ Hj). apply durable_image; [|done]. by apply no_store_durable, Hdo. }
    destruct (resize_crash c k m j image Hin Hk (Hd c Hc) B5 Hcr) as [E|[E1 E2]].
    + left. apply (tiles_replace (headers m z) _ 0 l1 c [c] l2); [done|done|]. constructor; try done. constructor.
    + right. apply tiles_replace with (headers m z) c; [done|done|]. by apply split_tiles.
Qed.

(** ** Creating a zone *)

Definition zone_word (size : Z) : Z := ZONE_HEADER_MAGIC + size * 2 ^ 32.

Fixpoint zero_ops (k : nat) (a : Z) : list pm_op :=
  match k with O => [] | Datatypes.S k => Store a 0 :: zero_ops k (a + 8) end.

Lemma zero_words_runs k a m : zero_words k a m = Some (tt, zero_ops k a).
Proof. revert a m. induction k as [|k IH]; intros a m; [done|]. simpl. unfold bind, store, emit. simpl. by rewrite IH. Qed.

Lemma zero_ops_store k a b v : Store b v ∈ zero_ops k a -> a <= b < a + 8 * Z.of_nat k.
Proof.
  revert a. induction k as [|k IH]; intros a; [by intros ?%elem_of_nil|]. intros [[= -> ->]|H]%elem_of_cons; [lia|]. apply IH in H. lia.
Qed.

Local Abbreviation zh := (zone_header_word hlayout z).

Definition zone_ops : list pm_op :=
  init_ops 0 CHUNK_TYPE_FREE n ++ Store zh (zone_word n) :: zero_ops 7 (zh + 8) ++ [Flush zh sizeof_zone_header; Fence].

Lemma header_zh i : header z i = zh + 64 + 8 * i.
Proof. unfold chunk_header_word, zone_header_word, sizeof_zone_header, sizeof_chunk_header. lia. Qed.

Lemma zone_init_runs max_zone heap_size m : 1 <= n -> get_zone_size_idx z max_zone heap_size = Some n ->
  heap_zone_init hlayout max_zone heap_size z m = Some (tt, zone_ops).
Proof.
  intros H1 E. unfold MAX_CHUNK, UINT16_MAX in *. unfold heap_zone_init. rewrite (bind_pure _ _ m n) by (unfold lift; by rewrite E).
  unfold zone_ops. eapply bind_Some; [apply chunk_init_runs; unfold CHUNK_TYPE_FREE; lia|].
  change (Store zh (zone_word n) :: ?l) with ([Store zh (zone_word n)] ++ l). eapply bind_Some; [done|]. eapply bind_Some; [apply zero_words_runs|]. done.
Qed.

Lemma zone_word_fields : 1 <= n -> zone_magic (zone_word n) = ZONE_HEADER_MAGIC /\ hdr_size_idx (zone_word n) = n.
Proof.
  intros H1. unfold zone_magic, hdr_size_idx, zone_word, ZONE_HEADER_MAGIC, MAX_CHUNK, UINT16_MAX in *. split.
  - rewrite <-(Z.mod_unique_pos _ (2 ^ 32) n 0xC3F0A2D2); lia.
  - rewrite <-(Z.div_unique_pos _ (2 ^ 32) n 0xC3F0A2D2) by lia. apply Z.mod_small. lia.
Qed.

Definition whole_zone : chunk := mkChunk 0 CHUNK_TYPE_FREE n.

Lemma whole_tiles H : 1 <= n -> H 0 = chunk_word whole_zone -> tiles H n 0 [whole_zone].
Proof. intros H1 Hw. constructor; simpl; try done; try lia; [by left|]. constructor. Qed.

(** A zone that is created: one free chunk, durable before the header of the zone. *)
Lemma zone_init_spec m : 1 <= n ->
  let m' := run zone_ops m in
  (pm_read m' zh = zone_word n /\ pm_durable m' zh /\ tiles (headers m' z) n 0 [whole_zone] /\ durable_chunks m' [whole_zone]) /\
  forall j image, (forall v, v ∈ cand m zh -> zone_magic v <> ZONE_HEADER_MAGIC) -> pm_crash (run (take j zone_ops) m) image ->
    zone_magic (image zh) <> ZONE_HEADER_MAGIC \/ image zh = zone_word n /\ tiles (fun i => image (header z i)) n 0 [whole_zone].
Proof.
  intros H1 m'. unfold zone_ops in *. set (A := init_ops 0 CHUNK_TYPE_FREE n) in *. set (B := Store zh (zone_word n) :: _) in *.
  destruct (init_ops_durable 0 CHUNK_TYPE_FREE n m H1) as [D0 R0]. fold A in D0, R0. set (m1 := run A m) in *.
  assert (HB : no_store (header z 0) B).
  { intros v Hv. rewrite header_zh in Hv. unfold B in Hv. rewrite elem_of_cons, elem_of_app in Hv. destruct Hv as [[= E _]|[Hv%zero_ops_store|Hv]]; [lia|lia|].
    rewrite !elem_of_cons, elem_of_nil in Hv. naive_solver. }
  assert (HA : no_store zh A) by (intros v [[E _]|[_ E]]%init_ops_store; rewrite header_zh in E; lia).
  assert (Hzh : forall v, Store zh v ∈ B -> v = zone_word n).
  { intros v Hv. unfold B in Hv. rewrite elem_of_cons, elem_of_app in Hv. destruct Hv as [[= ->]|[Hv%zero_ops_store|Hv]]; [done|lia|].
    rewrite !elem_of_cons, elem_of_nil in Hv. naive_solver. }
  split.
  - assert (Em : m' = run B m1) by (unfold m'; by rewrite run_app). rewrite Em.
    assert (R1 : pm_read (run B m1) (header z 0) = chunk_word whole_zone) by by rewrite no_store_read.
    split_and!; [| |by apply whole_tiles|by intros c ->%list_elem_of_singleton; apply no_store_durable].
    + unfold B. rewrite pm_run_cons, run_app, no_store_read by (intros v; rewrite !elem_of_cons, elem_of_nil; naive_solver).
      rewrite no_store_read; [apply pm_read_store_eq|]. intros v Hv%zero_ops_store. lia.
    + unfold B. rewrite pm_run_cons, run_app. apply (persist_durable _ zh sizeof_zone_header). unfold sizeof_zone_header. lia.
  - intros j image Hold Hcr. destruct (take_app_cases j A B) as [E|[i E]]; rewrite E in Hcr.
    + left. apply Hold. eapply no_store_cand; [by apply no_store_take|]. apply Hcr.
    + rewrite run_app in Hcr. fold m1 in Hcr. destruct (run_cand _ _ _ _ (Hcr zh)) as [Hv|Hv].
      * left. apply Hold. by eapply no_store_cand.
      * right. apply elem_of_take in Hv as (q & Hq & _). apply list_elem_of_lookup_2, Hzh in Hq. split; [done|].
        apply whole_tiles; [done|]. trans (pm_read (run (take i B) m1) (header z 0)); [|by rewrite no_store_read; [|by apply no_store_take]].
        apply durable_image; [|done]. apply no_store_durable; [by apply no_store_take|done].
Qed.

End Zone.
