(* ===== verification/HeapHuge.v ===== *)
(** * Huge blocks

    Proofs about huge blocks of [Memblock] and [HeapZone]: when the default bucket holds
    exactly the free chunks of a zone, it still does so after chunks have been allocated
    from it, splitting them if need be, or returned to it, merged with the free chunks
    next to them. *)

From S2P Require Import Prelude Pmem Programs Redo RedoProofs Memops Ctree Bucket HeapLayout HeapRun Memblock HeapZone HeapZoneProofs.

Local Open Scope pmtest_scope.

#[global] Instance chunk_eq_dec : EqDecision chunk.
Proof. solve_decision. Defined.

Section Huge.
Context (hlayout z n : Z) (Hz : 0 <= z < UINT16_MAX) (Hn : n <= MAX_CHUNK).

Local Abbreviation header i := (chunk_header_word hlayout z i).
Local Abbreviation headers m := (fun i => pm_read m (chunk_header_word hlayout z i)).

(** The footers of the chunks. *)
Definition footed (H : Z -> Z) (l : list chunk) : Prop := forall c, c ∈ l -> ch_size c <> 1 ->
  H (ch_at c + ch_size c - 1) = mk_header CHUNK_TYPE_FOOTER 0 (ch_size c).

(** The zone as the memory has it: its size and its chunks. *)
Record zone_chunks (m : pmem) (l : list chunk) : Prop := {
  zc_size : hdr_size_idx (pm_read m (zone_header_word hlayout z)) = n;
  zc_tiles : tiles (headers m) n 0 l;
  zc_footed : footed (headers m) l;
}.

(** The bucket holds exactly the free chunks of the zone. *)
Definition zone_bucket (t : ctree) (l : list chunk) : Prop := forall x, block_ok x -> zone_id x = z ->
  has_block t x <-> exists c, c ∈ l /\ ch_type c = CHUNK_TYPE_FREE /\ x = chunk_block z c.

(** The size of a chunk can be read at its last unit. *)
Lemma last_header H l c : tiles H n 0 l -> footed H l -> c ∈ l -> hdr_size_idx (H (ch_at c + ch_size c - 1)) = ch_size c.
Proof.
  intros Ht Hf Hc. destruct (tiles_bounds _ _ _ _ _ Ht Hc) as (B1 & B2 & B3 & B4 & B5). unfold MAX_CHUNK, UINT16_MAX in *.
  destruct (decide (ch_size c = 1)) as [E|E].
  - rewrite E, Z.add_simpl_r, B5. destruct (chunk_fields c B4 ltac:(lia)) as (_ & _ & F). by rewrite F.
  - rewrite (Hf c Hc E). apply (mk_header_fields CHUNK_TYPE_FOOTER 0 (ch_size c)); unfold CHUNK_TYPE_FOOTER; lia.
Qed.

(** A chunk in the sequence, with what is before and after it. *)
Lemma tiles_split H l1 c l2 : tiles H n 0 (l1 ++ c :: l2) ->
  tiles H (ch_at c) 0 l1 /\ tiles H n (ch_at c + ch_size c) l2 /\ chunk_type_ok c /\ 0 <= ch_at c /\ 1 <= ch_size c /\
  ch_at c + ch_size c <= n /\ H (ch_at c) = chunk_word c.
Proof.
  intros Ht. apply tiles_app_inv in Ht as (j & H1 & H2 & Hj). inversion H2 as [|? ? ? Ea Hw Hty Hs Hn' H3]; subst. split_and!; try done; lia.
Qed.

(** The result of [heap_get_chunk] for a chunk that is found to be there. *)
Definition chunk_found (c : chunk) : Z * memory_block :=
  if ch_type c =? CHUNK_TYPE_FREE then (0, chunk_block z c) else (ENOENT, mkBlock (ch_at c) z 0 0).

Lemma get_chunk_prev m l1 c l2 : zone_chunks m (l1 ++ c :: l2) ->
  heap_get_chunk hlayout (mkBlock 0 z 0 0) z (ch_at c) true m =
  match last l1 with None => (ENOENT, mkBlock 0 z 0 0) | Some p => chunk_found p end.
Proof.
  intros [_ Ht Hf]. destruct (tiles_split _ _ _ _ Ht) as (H1 & _ & _ & B1 & B2 & B3 & _). unfold heap_get_chunk, MAX_CHUNK, UINT16_MAX in *.
  destruct l1 as [|p l0 _] using rev_ind; [inversion H1; by rewrite Z.eqb_refl|].
  apply tiles_app_inv in H1 as (j & _ & H2 & Hj). inversion H2 as [|? ? ? Ea Hw Hty Hs Hn' H3]; subst j. inversion H3 as [E|]. rewrite last_snoc.
  assert (Hp : p ∈ (l0 ++ [p]) ++ c :: l2) by (apply elem_of_app; left; apply elem_of_app; right; left).
  assert (El : hdr_size_idx (pm_read m (header (ch_at c - 1))) = ch_size p) by (replace (ch_at c - 1) with (ch_at p + ch_size p - 1) by lia; apply (last_header _ _ p Ht Hf Hp)).
  rewrite (proj2 (Z.eqb_neq (ch_at c) 0)) by lia. rewrite El, u32_small by lia. replace (ch_at c - ch_size p) with (ch_at p) by lia.
  rewrite Hw. unfold chunk_found, chunk_block. destruct (chunk_fields p Hty ltac:(lia)) as (-> & _ & ->). by destruct (_ =? _).
Qed.

Lemma get_chunk_next m l1 c l2 : zone_chunks m (l1 ++ c :: l2) ->
  heap_get_chunk hlayout (mkBlock 0 z 0 0) z (ch_at c) false m =
  match head l2 with None => (ENOENT, mkBlock 0 z 0 0) | Some p => chunk_found p end.
Proof.
  intros [Hs Ht Hf]. destruct (tiles_split _ _ _ _ Ht) as (_ & H2 & Hty & B1 & B2 & B3 & Hw). unfold heap_get_chunk, MAX_CHUNK, UINT16_MAX in *.
  destruct (chunk_fields c Hty ltac:(lia)) as (_ & _ & F). rewrite Hw, F, Hs, u32_small by lia. clear Hs.
  destruct l2 as [|p l2]; [inversion H2; by rewrite Z.eqb_refl|].
  inversion H2 as [|? ? ? Ea Hwp Htyp Hsp Hn' H3]. rewrite (proj2 (Z.eqb_neq _ n)) by lia. rewrite <-Ea in *. simpl.
  rewrite Hwp. unfold chunk_found, chunk_block. destruct (chunk_fields p Htyp ltac:(lia)) as (-> & _ & ->). by destruct (_ =? _).
Qed.

(** ** Merging chunks *)

Definition total (g : list chunk) : Z := foldr (fun c s => ch_size c + s) 0 g.
Definition start (c : chunk) (pl : list chunk) : Z := match pl with [] => ch_at c | p :: _ => ch_at p end.

Lemma tiles_total H j i g : tiles H j i g -> j = i + total g.
Proof. induction 1; simpl; lia. Qed.

(** The neighbour [o] of a chunk, when there is one and it is free. *)
Definition free_of (o : option chunk) : list chunk :=
  match o with Some p => if ch_type p =? CHUNK_TYPE_FREE then [p] else [] | None => [] end.

(** The chunk that takes the place of [pl], [c] and [nl]. *)
Definition merged_chunk (pl : list chunk) (c : chunk) (nl : list chunk) : chunk :=
  mkChunk (start c pl) CHUNK_TYPE_FREE (total (pl ++ c :: nl)).

Lemma merged_bounds H l1 pl c nl l2 : tiles H n 0 (l1 ++ (pl ++ c :: nl) ++ l2) ->
  tiles H (start c pl) 0 l1 /\ tiles H (start c pl + total (pl ++ c :: nl)) (start c pl) (pl ++ c :: nl) /\
  tiles H n (start c pl + total (pl ++ c :: nl)) l2 /\ inside n (merged_chunk pl c nl).
Proof.
  intros Ht. apply tiles_app_inv in Ht as (j & H1 & Ht & Hj). apply tiles_app_inv in Ht as (k & H2 & H3 & Hk).
  assert (Ej : j = start c pl) by (destruct pl; inversion H2; subst; done). subst j.
  pose proof (tiles_total _ _ _ _ H2) as Et. subst k. split_and!; try done.
  unfold inside, merged_chunk. simpl. split_and!; [lia| |lia].
  destruct (tiles_app_inv _ _ _ _ _ H2) as (j & T1 & T2 & _). inversion T2 as [|? ? ? Ea Hw Hty Hs Hn' H4]; subst.
  pose proof (tiles_le _ _ _ _ T1). pose proof (tiles_le _ _ _ _ H4). lia.
Qed.

(** The chunks outside are apart from the merged one. *)
Lemma merged_apart H l1 pl c nl l2 c' : tiles H n 0 (l1 ++ (pl ++ c :: nl) ++ l2) -> c' ∈ l1 ++ l2 ->
  let d := merged_chunk pl c nl in
  inside n c' /\ (ch_at d + ch_size d <= ch_at c' \/ ch_at c' + ch_size c' <= ch_at d).
Proof.
  intros Ht Hc'. destruct (merged_bounds _ _ _ _ _ _ Ht) as (H1 & _ & H3 & I1 & I2 & I3). simpl in *.
  apply elem_of_app in Hc' as [Hc'|Hc'].
  - pose proof (tiles_bounds _ _ _ _ _ H1 Hc'). unfold inside. lia.
  - pose proof (tiles_bounds _ _ _ _ _ H3 Hc'). unfold inside. lia.
Qed.

(** The memory after the header of a chunk and its footer have been written: of the headers
    of this zone and the others nothing else changes. *)
Record chunk_written (m m' : pmem) (d : chunk) : Prop := {
  cw_zone z' : pm_read m' (zone_header_word hlayout z') = pm_read m (zone_header_word hlayout z');
  cw_header : pm_read m' (header (ch_at d)) = chunk_word d;
  cw_footer : ch_size d <> 1 -> pm_read m' (header (ch_at d + ch_size d - 1)) = mk_header CHUNK_TYPE_FOOTER 0 (ch_size d);
  cw_other z' i : 0 <= i < MAX_CHUNK -> (z' = z -> i <> ch_at d /\ i <> ch_at d + ch_size d - 1) ->
    pm_read m' (chunk_header_word hlayout z' i) = pm_read m (chunk_header_word hlayout z' i);
}.

(** A chunk written in the place of others. *)
Lemma write_zone m m' l1 pl c nl l2 d :
  zone_chunks m (l1 ++ (pl ++ c :: nl) ++ l2) -> ch_at d = start c pl -> ch_size d = total (pl ++ c :: nl) -> chunk_type_ok d ->
  chunk_written m m' d -> zone_chunks m' (l1 ++ [d] ++ l2).
Proof.
  intros [Zs Zt Zf] Ea Es Hty [M1 M2 M3 M4]. pose proof (merged_bounds _ _ _ _ _ _ Zt) as (T1 & T2 & T3 & (I1 & I2 & I3)).
  assert (Hap : forall c', c' ∈ l1 ++ l2 -> inside n c' /\ (ch_at d + ch_size d <= ch_at c' \/ ch_at c' + ch_size c' <= ch_at d))
    by (intros c' Hc'; rewrite Ea, Es; by apply (merged_apart _ _ _ _ _ _ _ Zt)).
  simpl in I1, I2, I3. rewrite <-Ea, <-Es in *.
  assert (Hsame : forall c' i, c' ∈ l1 ++ l2 -> ch_at c' <= i < ch_at c' + ch_size c' -> pm_read m' (header i) = pm_read m (header i)).
  { intros c' i Hc' Hi. destruct (Hap c' Hc') as [(J1 & J2 & J3) Hd]. apply M4; [lia|]. intros _. lia. }
  assert (Hins : forall c', c' ∈ l1 ++ l2 -> ch_at c' <= ch_at c' < ch_at c' + ch_size c') by (intros c' Hc'; apply Hap in Hc' as [(? & ? & ?) _]; lia).
  split.
  - by rewrite M1.
  - apply tiles_app with (ch_at d); [|apply tiles_app with (ch_at d + ch_size d)].
    + eapply tiles_ext; [|exact T1]. intros c' Hc'. assert (Hc2 : c' ∈ l1 ++ l2) by (apply elem_of_app; by left). by apply (Hsame c'), Hins.
    + constructor; try done. constructor.
    + eapply tiles_ext; [|exact T3]. intros c' Hc'. assert (Hc2 : c' ∈ l1 ++ l2) by (apply elem_of_app; by right). by apply (Hsame c'), Hins.
  - intros c' Hc' Hs. rewrite !elem_of_app, list_elem_of_singleton in Hc'. destruct (decide (c' = d)) as [->|Hne]; [by apply M3|].
    assert (Hc2 : c' ∈ l1 ++ l2) by (apply elem_of_app; naive_solver). pose proof (Hins c' Hc2). rewrite (Hsame c') by (done || lia).
    apply Zf; [|done]. apply elem_of_app in Hc2 as [?|?]; apply elem_of_app; [by left|right; apply elem_of_app; by right].
Qed.

(** ** Freeing a chunk *)

Lemma chunk_block_ok c : inside n c -> block_ok (chunk_block z c).
Proof. intros (I1 & I2 & I3). unfold MAX_CHUNK, UINT16_MAX in *. split; simpl; unfold MAX_CHUNK, UINT16_MAX; lia. Qed.

(** Taking a neighbour that [heap_get_chunk] reports. *)
Lemma take_chunk um t c prev m o :
  tree_ok t -> hdr_type (pm_read m (header (ch_at c))) <> CHUNK_TYPE_RUN ->
  heap_get_chunk hlayout (mkBlock 0 z 0 0) z (ch_at c) prev m = match o with None => (ENOENT, mkBlock 0 z 0 0) | Some p => chunk_found p end ->
  (forall p, o = Some p -> inside n p /\ (ch_type p = CHUNK_TYPE_FREE -> has_block t (chunk_block z p))) ->
  exists t' pl, take_adjacent hlayout (Some (um, t)) (chunk_block z c) prev m = Some (chunk_block z <$> head pl, Some (um, t')) /\
    pl = free_of o /\ tree_ok t' /\
    forall x, block_ok x -> has_block t' x <-> has_block t x /\ (forall p, p ∈ pl -> x <> chunk_block z p).
Proof.
  intros Ht Hty Hg Ho. unfold take_adjacent, heap_get_adjacent_free_block. simpl.
  rewrite (proj2 (Z.eqb_neq (hdr_type _) _) Hty), Hg. cbn [mbind option_bind].
  assert (Hnone : forall x : memory_block, has_block t x <-> has_block t x /\ (forall p, p ∈ @nil chunk -> x <> chunk_block z p)).
  { intros x. split; [|tauto]. intros Hx. split; [done|]. by intros p ?%elem_of_nil. }
  destruct o as [p|]; [|by exists t, []; split_and!; auto]. destruct (Ho p eq_refl) as [Hin Hfree]. unfold chunk_found.
  destruct (Z.eqb_spec (ch_type p) CHUNK_TYPE_FREE) as [Ef|Ef]; simpl; [|exists t, []; split_and!; auto; simpl; by rewrite (proj2 (Z.eqb_neq _ _) Ef)].
  destruct (get_rm_exact_spec t (chunk_block z p) Ht (chunk_block_ok p Hin)) as (err & t' & -> & Ht' & [(-> & _ & Hx)|(_ & _ & Hno)]); [|by destruct Hno; apply Hfree].
  simpl. exists t', [p]. split_and!; try done; [simpl; by rewrite (proj2 (Z.eqb_eq _ _) Ef)|]. intros x Hok. rewrite Hx by done. split; intros [H1 H2]; (split; [done|]).
  - by intros q ->%list_elem_of_singleton.
  - apply H2. left.
Qed.

(** The bucket after chunks of the sequence have been taken from it. *)
Lemma zone_bucket_take t t' la pl lb :
  zone_bucket t (la ++ pl ++ lb) ->
  (forall x, block_ok x -> has_block t' x <-> has_block t x /\ (forall p, p ∈ pl -> x <> chunk_block z p)) ->
  (forall p c, p ∈ pl -> c ∈ la ++ lb -> ch_at c <> ch_at p) ->
  zone_bucket t' (la ++ lb).
Proof.
  intros Hb Hx Hne x Hok Hzx. rewrite Hx, (Hb x Hok Hzx) by done. split.
  - intros [(c & Hc & Hf & ->) Hp]. exists c. split; [|done]. apply elem_of_app in Hc as [Hc|[Hc|Hc]%elem_of_app]; [apply elem_of_app; by left|by destruct (Hp c Hc)|apply elem_of_app; by right].
  - intros (c & Hc & Hf & ->). split.
    + exists c. split; [|done]. rewrite !elem_of_app in *. tauto.
    + intros p Hp E. apply (Hne p c Hp Hc). by injection E.
Qed.

Lemma tiles_at_ne H la p lb c : tiles H n 0 (la ++ p :: lb) -> c ∈ la ++ lb -> ch_at c <> ch_at p.
Proof.
  intros Ht Hc. destruct (tiles_others n _ la p lb c Ht Hc) as [(I1 & I2 & I3) Hd].
  destruct (tiles_split _ _ _ _ Ht) as (_ & _ & _ & B1 & B2 & B3 & _). lia.
Qed.

Lemma short_list {A} (l : list A) x : (length l <= 1)%nat -> x ∈ l -> l = [x].
Proof. destruct l as [|y [|? ?]]; simpl; [by intros _ ?%elem_of_nil|by intros _ ->%list_elem_of_singleton|lia]. Qed.

(** The free neighbours of a chunk in the sequence, taken from the bucket. *)
Lemma take_neighbours um t m l1 c l2 :
  tree_ok t -> zone_chunks m (l1 ++ c :: l2) -> ch_type c <> CHUNK_TYPE_RUN -> zone_bucket t (l1 ++ l2) ->
  exists la pl nl lb t1 t2, l1 = la ++ pl /\ l2 = nl ++ lb /\ pl = free_of (last l1) /\ nl = free_of (head l2) /\ (length pl <= 1)%nat /\ (length nl <= 1)%nat /\
    Forall (fun p => ch_type p = CHUNK_TYPE_FREE) pl /\
    take_adjacent hlayout (Some (um, t)) (chunk_block z c) true m = Some (chunk_block z <$> head pl, Some (um, t1)) /\
    take_adjacent hlayout (Some (um, t1)) (chunk_block z c) false m = Some (chunk_block z <$> head nl, Some (um, t2)) /\
    tree_ok t2 /\ zone_bucket t2 (la ++ lb) /\
    (forall x, block_ok x -> zone_id x <> z -> has_block t2 x <-> has_block t x).
Proof.
  intros Ht Hzc Hty Hb. pose proof Hzc as [_ Zt _]. destruct (tiles_split _ _ _ _ Zt) as (T1 & T2 & Hok & B1 & B2 & B3 & Hw).
  assert (Hhd : hdr_type (pm_read m (header (ch_at c))) <> CHUNK_TYPE_RUN).
  { rewrite Hw. unfold MAX_CHUNK, UINT16_MAX in *. by destruct (chunk_fields c Hok ltac:(lia)) as (-> & _). }
  assert (Hall : forall p, p ∈ l1 ++ l2 -> inside n p /\ (ch_type p = CHUNK_TYPE_FREE -> has_block t (chunk_block z p))).
  { intros p Hp. destruct (tiles_others n _ l1 c l2 p Zt Hp) as [Hi _]. split; [done|]. intros Hf. apply Hb; [by apply chunk_block_ok|done|]. by exists p. }
  destruct (take_chunk um t c true m (last l1) Ht Hhd (get_chunk_prev _ _ _ _ Hzc)) as (t1 & pl & E1 & Epl & Ht1 & Hx1).
  { intros p Hp. apply Hall, elem_of_app. left. by apply last_Some_elem_of. }
  assert (Hl1 : exists la, l1 = la ++ pl /\ (length pl <= 1)%nat).
  { rewrite Epl. unfold free_of. destruct (last l1) as [p|] eqn:El; [|exists l1; by rewrite app_nil_r; split; [|simpl; lia]].
    destruct (ch_type p =? CHUNK_TYPE_FREE); [|exists l1; by rewrite app_nil_r; split; [|simpl; lia]].
    apply last_Some in El as [la ->]. by exists la. }
  destruct Hl1 as (la & El1 & Lpl).
  assert (Hb1 : zone_bucket t1 (la ++ l2)).
  { apply zone_bucket_take with t pl; [by rewrite app_assoc, <-El1|done|]. intros p c' Hp Hc'. rewrite (short_list pl p Lpl Hp) in El1. subst l1.
    rewrite <-app_assoc in Zt. apply (tiles_at_ne _ la p (c :: l2) c' Zt). apply elem_of_app in Hc' as [?|?]; apply elem_of_app; [by left|right; by right]. }
  destruct (take_chunk um t1 c false m (head l2) Ht1 Hhd (get_chunk_next _ _ _ _ Hzc)) as (t2 & nl & E2 & Enl & Ht2 & Hx2).
  { intros p Hp. apply head_Some_elem_of in Hp. destruct (Hall p) as [Hi _]; [apply elem_of_app; by right|]. split; [done|].
    intros Hf. apply Hb1; [by apply chunk_block_ok|done|]. exists p. split; [apply elem_of_app; by right|done]. }
  assert (Hl2 : exists lb, l2 = nl ++ lb /\ (length nl <= 1)%nat).
  { rewrite Enl. destruct l2 as [|p lb]; [by exists []; split; [|simpl; lia]|]. simpl. destruct (ch_type p =? CHUNK_TYPE_FREE); [by exists lb|by exists (p :: lb); split; [|simpl; lia]]. }
  destruct Hl2 as (lb & El2 & Lnl). exists la, pl, nl, lb, t1, t2. split_and!; try done.
  - rewrite Epl. unfold free_of. destruct (last l1) as [p|]; [|constructor]. by destruct (Z.eqb_spec (ch_type p) CHUNK_TYPE_FREE); repeat constructor.
  - apply zone_bucket_take with t1 nl; [by rewrite <-El2|done|]. intros p c' Hp Hc'. rewrite (short_list nl p Lnl Hp) in El2. subst l1 l2.
    apply (tiles_at_ne (headers m) (la ++ pl ++ [c]) p lb c'); [by rewrite <-!app_assoc in *|].
    apply elem_of_app in Hc' as [?|?]; apply elem_of_app; [left; apply elem_of_app; by left|by right].
  - intros x Hx Hne. rewrite Hx2, Hx1 by done. split; [tauto|]. intros Hh. split_and!; [done|..]; intros p _ ->; by apply Hne.
Qed.

Lemma coalesce_huge m l1 pl c nl l2 ctx :
  zone_chunks m (l1 ++ (pl ++ c :: nl) ++ l2) -> (length pl <= 1)%nat -> (length nl <= 1)%nat ->
  Forall (fun c => ch_type c <> CHUNK_TYPE_RUN) (pl ++ [c]) ->
  heap_coalesce hlayout [chunk_block z <$> head pl; Some (chunk_block z c); chunk_block z <$> head nl] HDR_OP_FREE ctx m =
  match ctx with
  | None => Some (chunk_block z (merged_chunk pl c nl), None)
  | Some ctx => ctx' ← huge_prep_operation_hdr hlayout (chunk_block z (merged_chunk pl c nl)) HDR_OP_FREE ctx m;
                Some (chunk_block z (merged_chunk pl c nl), Some ctx')
  end.
Proof.
  intros Hzc Lp Ln Hty. set (d := merged_chunk pl c nl). set (bs := [_; Some _; _]).
  destruct (merged_bounds _ _ _ _ _ _ (zc_tiles _ _ Hzc)) as (_ & T2 & _ & Hin). fold d in Hin. destruct Hin as (I1 & I2 & I3).
  assert (Hsz : forall p, p ∈ pl ++ c :: nl -> 1 <= ch_size p) by (intros p Hp; apply (tiles_bounds _ _ _ _ _ T2 Hp)).
  assert (Es : foldl (fun s b => match b with Some b => u32 (s + size_idx b) | None => s end) 0 bs = ch_size d).
  { unfold bs, d, merged_chunk, MAX_CHUNK, UINT16_MAX in *. simpl in I3. pose proof (Hsz c ltac:(apply elem_of_app; right; left)).
    rewrite coalesce_size; destruct pl as [|p [|? ?]], nl as [|q [|? ?]]; simpl in *; try lia;
      try (pose proof (Hsz p ltac:(left))); try (pose proof (Hsz q ltac:(rewrite ?elem_of_cons; tauto))); lia. }
  assert (Eh : exists h, head (omap id bs) = Some h /\ chunk_id h = ch_at d /\ zone_id h = z /\ block_off h = 0).
  { unfold bs, d, merged_chunk. destruct pl as [|p pl]; simpl; eauto. }
  assert (Hhd : exists h, chunk_type_ok h /\ ch_type h <> CHUNK_TYPE_RUN /\ 1 <= ch_size h <= n /\ pm_read m (header (ch_at d)) = chunk_word h).
  { assert (I4 : 0 <= start c pl /\ start c pl + total (pl ++ c :: nl) <= n) by (split; [exact I1|exact I3]). clear I3.
    unfold d, merged_chunk. simpl. rewrite Forall_app, Forall_singleton in Hty. destruct pl as [|p pl]; simpl in T2, I4 |- *.
    - exists c. destruct (tiles_bounds _ _ _ _ c T2 ltac:(left)) as (B1 & B2 & B3 & B4 & B5). split_and!; try done; [apply Hty|]. lia.
    - exists p. destruct (tiles_bounds _ _ _ _ p T2 ltac:(left)) as (B1 & B2 & B3 & B4 & B5). destruct Hty as [[Hp _]%Forall_cons _].
      split_and!; try done. lia. }
  destruct Eh as (h & Eh & Ec & Ez & Eo), Hhd as (q & Hq1 & Hq2 & Hq3 & Hq4). unfold heap_coalesce. rewrite Es, Eh. cbn [mbind option_bind]. rewrite Ec, Ez, Eo.
  fold (chunk_block z d). destruct ctx as [ctx|]; [|done]. unfold prep_hdr, memblock_autodetect_type.
  cbn [zone_id chunk_id chunk_block]. rewrite Hq4. unfold MAX_CHUNK, UINT16_MAX in *. destruct (chunk_fields q Hq1 ltac:(lia)) as (-> & _).
  destruct Hq1 as [-> |[-> |[? _]]]; done.
Qed.

(** The chunks after the neighbours have been merged: the bucket gets the merged block. *)
Lemma huge_free_spec um mallocs t m l1 c l2 ctx :
  tree_ok t -> mallocs.1 = true -> mallocs.2 = true ->
  zone_chunks m (l1 ++ c :: l2) -> ch_type c <> CHUNK_TYPE_RUN -> zone_bucket t (l1 ++ l2) ->
  exists la pl nl lb t' t'', l1 = la ++ pl /\ l2 = nl ++ lb /\ pl = free_of (last l1) /\ nl = free_of (head l2) /\ let d := merged_chunk pl c nl in
    heap_free_block hlayout (Some (um, t)) (chunk_block z c) ctx m =
      match ctx with
      | None => Some (chunk_block z d, Some (um, t'), None)
      | Some ctx => ctx' ← huge_prep_operation_hdr hlayout (chunk_block z d) HDR_OP_FREE ctx m; Some (chunk_block z d, Some (um, t'), Some ctx')
      end /\
    bucket_tree_insert_block mallocs t' (chunk_block z d) = Some (t'', 0) /\ tree_ok t'' /\
    zone_bucket t'' (la ++ [d] ++ lb) /\ (forall x, block_ok x -> zone_id x <> z -> has_block t'' x <-> has_block t x) /\
    forall m', chunk_written m m' d -> zone_chunks m' (la ++ [d] ++ lb).
Proof.
  intros Ht Hm1 Hm2 Hzc Hty Hb.
  destruct (take_neighbours um t m l1 c l2 Ht Hzc Hty Hb) as (la & pl & nl & lb & t1 & t2 & -> & -> & Epl & Enl & Lp & Ln & Hpf & E1 & E2 & Ht2 & Hb2 & Hout).
  set (d := merged_chunk pl c nl).
  assert (Hzc' : zone_chunks m (la ++ (pl ++ c :: nl) ++ lb)) by (by rewrite <-!app_assoc in *).
  assert (Hplf : Forall (fun c => ch_type c <> CHUNK_TYPE_RUN) (pl ++ [c])).
  { apply Forall_app. split; [|by apply Forall_singleton]. eapply Forall_impl; [exact Hpf|]. by intros p ->. }
  destruct (merged_bounds _ _ _ _ _ _ (zc_tiles _ _ Hzc')) as (_ & _ & _ & Hin). fold d in Hin.
  pose proof (chunk_block_ok d Hin) as Hok.
  assert (Hnew : ~ has_block t2 (chunk_block z d)).
  { intros Hh. apply Hb2 in Hh as (c' & Hc' & _ & E); [|done|done]. destruct (merged_apart _ _ _ _ _ _ _ (zc_tiles _ _ Hzc') Hc') as [(I1 & I2 & I3) Hd].
    fold d in Hd. assert (Ea : ch_at d = ch_at c') by exact (f_equal chunk_id E). destruct Hin as (J1 & J2 & J3). lia. }
  destruct (insert_block_spec mallocs t2 (chunk_block z d) Ht2 Hok) as (t3 & e & Ei & Ht3 & [(-> & _ & Hx)|[(_ & _ & ?)|(_ & _ & [?|?])]]); [|done|congruence..].
  exists la, pl, nl, lb, t2, t3. cbv zeta. fold d. split_and!; try done.
  - unfold heap_free_block. rewrite E1. cbn [mbind option_bind]. rewrite E2. cbn [mbind option_bind].
    rewrite (coalesce_huge m la pl c nl lb) by done. destruct ctx as [ctx|]; [|done]. fold d. by destruct (huge_prep_operation_hdr _ _ _ _ _).
  - intros x Hxok Hxz. rewrite Hx, (Hb2 x Hxok Hxz) by done. split.
    + intros [->|(c' & Hc' & ?)]; [exists d; split; [|split; exact eq_refl]|exists c'; split; [|done]]; rewrite !elem_of_app, list_elem_of_singleton;
        [tauto|]. apply elem_of_app in Hc'. tauto.
    + intros (c' & Hc' & Hf & ->). rewrite !elem_of_app, list_elem_of_singleton in Hc'. destruct Hc' as [Hc'|[->|Hc']]; [|by left|];
        right; exists c'; (split; [apply elem_of_app; tauto|done]).
  - intros x Hxok Hxz. rewrite Hx, Hout by done. split; [intros [->|?]; [by destruct Hxz|done]|by right].
  - intros m' Hm'. eapply write_zone; try done. by left.
Qed.

(** ** Allocating a chunk *)

Local Abbreviation resize c k := (resize_ops hlayout z c k).

Lemma resize_read m c k i : inside n c -> 1 <= k < ch_size c ->
  pm_read (run (resize c k) m) (header i) =
  if decide (i = ch_at c) then chunk_word (first_part c k)
  else if decide (i = ch_at c + k - 1) then mk_header CHUNK_TYPE_FOOTER 0 k
  else if decide (i = ch_at c + k) then
    (if decide (ch_size c - k = 1) then chunk_word (second_part c k)
     else if decide (i = ch_at c + ch_size c - 1) then mk_header CHUNK_TYPE_FOOTER 0 (ch_size c - k) else chunk_word (second_part c k))
  else if decide (i = ch_at c + ch_size c - 1) then mk_header CHUNK_TYPE_FOOTER 0 (ch_size c - k)
  else pm_read m (header i).
Proof.
  intros (I1 & I2 & I3) Hk. unfold resize_ops. rewrite run_app, !init_ops_read by lia.
  assert (Hi : forall a b, header a = header b <-> a = b) by (intros a b; split; [apply header_inj|congruence]).
  repeat case_decide; rewrite ?Hi in *; try done; lia.
Qed.

Lemma resize_zone m l1 c l2 k :
  zone_chunks m (l1 ++ c :: l2) -> 1 <= k < ch_size c ->
  zone_chunks (run (resize c k) m) (l1 ++ [first_part c k; second_part c k] ++ l2).
Proof.
  intros [Zs Zt Zf] Hk. destruct (tiles_split _ _ _ _ Zt) as (_ & _ & _ & B1 & B2 & B3 & _). assert (Hin : inside n c) by done.
  assert (Hsame : forall c' i, c' ∈ l1 ++ l2 -> ch_at c' <= i < ch_at c' + ch_size c' -> pm_read (run (resize c k) m) (header i) = pm_read m (header i)).
  { intros c' i Hc' Hi. destruct (tiles_others n _ l1 c l2 c' Zt Hc') as [_ Hd]. rewrite resize_read by done. repeat case_decide; try done; lia. }
  assert (Hsz : forall c', c' ∈ l1 ++ l2 -> 1 <= ch_size c') by (intros c' Hc'; by destruct (tiles_others n _ l1 c l2 c' Zt Hc') as [(_ & ? & _) _]).
  split.
  - rewrite no_store_read; [done|]. unfold resize_ops. intros v [[[E _]|[_ E]]%init_ops_store|[[E _]|[_ E]]%init_ops_store]%elem_of_app; rewrite header_zh in E; lia.
  - eapply tiles_replace with (c := c); [exact Zt| |].
    + intros c' Hc'. pose proof (Hsz c' Hc'). apply (Hsame c'); [done|lia].
    + apply split_tiles; [..|done]; rewrite resize_read by done; repeat case_decide; try done; lia.
  - intros c' Hc' Hne. rewrite !elem_of_app, !elem_of_cons, elem_of_nil in Hc'.
    destruct (decide (c' = first_part c k)) as [->|N1]; [|destruct (decide (c' = second_part c k)) as [->|N2]].
    + cbn [ch_at ch_size first_part second_part] in *. rewrite resize_read by done. repeat case_decide; try done; lia.
    + cbn [ch_at ch_size first_part second_part] in *. rewrite resize_read by done. repeat case_decide; try done; lia.
    + assert (Hc2 : c' ∈ l1 ++ l2) by (apply elem_of_app; naive_solver). pose proof (Hsz c' Hc2). rewrite (Hsame c') by (done || lia).
      apply Zf; [|done]. apply elem_of_app in Hc2 as [?|?]; apply elem_of_app; [by left|right; by right].
Qed.

End Huge.

(** ** The zones of a heap *)

(** The words of different zones are different. *)
Lemma zone_words_ne hlayout z z' i j : 0 <= i < MAX_CHUNK -> 0 <= j < MAX_CHUNK -> z <> z' ->
  chunk_header_word hlayout z i <> chunk_header_word hlayout z' j /\ chunk_header_word hlayout z i <> zone_header_word hlayout z'.
Proof.
  unfold chunk_header_word, zone_header_word, zone_addr, zone_start, ZONE_MAX_SIZE, sizeof_zone, sizeof_zone_header, sizeof_chunk_header, CHUNKSIZE, MAX_CHUNK, UINT16_MAX.
  intros Hi Hj Hne. split; nia.
Qed.

(** A store to headers of one zone does not change the others. *)
Lemma zone_chunks_frame hlayout z z' n l m ops :
  n <= MAX_CHUNK -> z <> z' -> (forall a v, Store a v ∈ ops -> exists i, 0 <= i < MAX_CHUNK /\ a = chunk_header_word hlayout z i) ->
  zone_chunks hlayout z' n m l -> zone_chunks hlayout z' n (run ops m) l.
Proof.
  intros Hn Hne Hops [Zs Zt Zf].
  assert (Hr : forall j, 0 <= j < MAX_CHUNK -> pm_read (run ops m) (chunk_header_word hlayout z' j) = pm_read m (chunk_header_word hlayout z' j)).
  { intros j Hj. apply no_store_read. intros v Hv. apply Hops in Hv as (i & Hi & E). symmetry in E. by apply zone_words_ne in E. }
  split.
  - rewrite no_store_read; [done|]. intros v Hv. apply Hops in Hv as (i & Hi & E). symmetry in E. by apply (zone_words_ne hlayout z z' i 0) in E.
  - eapply tiles_ext; [|exact Zt]. intros c Hc. pose proof (tiles_bounds _ _ _ _ _ Zt Hc). apply Hr. lia.
  - intros c Hc Hs. pose proof (tiles_bounds _ _ _ _ _ Zt Hc). rewrite Hr by lia. by apply Zf.
Qed.

(** The zones in use, by number: the number of chunks and the sequence of chunks. *)
Definition zones : Type := Z -> option (Z * list chunk).

Record heap_zones (hlayout : Z) (zs : zones) (m : pmem) (t : ctree) : Prop := {
  hz_ok : tree_ok t;
  hz_zone z n l : zs z = Some (n, l) -> 0 <= z < UINT16_MAX /\ n <= MAX_CHUNK /\ zone_chunks hlayout z n m l /\ zone_bucket z t l;
  hz_only x : block_ok x -> has_block t x -> is_Some (zs (zone_id x));
}.

Lemma resize_store hlayout z n c k a v : inside n c -> n <= MAX_CHUNK -> 1 <= k < ch_size c ->
  Store a v ∈ resize_ops hlayout z c k -> exists i, 0 <= i < MAX_CHUNK /\ a = chunk_header_word hlayout z i.
Proof.
  intros (I1 & I2 & I3) Hn Hk. unfold resize_ops.
  intros [[[-> _]|[_ ->]]%init_ops_store|[[-> _]|[_ ->]]%init_ops_store]%elem_of_app; eexists; (split; [|done]); lia.
Qed.

(** Splitting a chunk whose block has been taken from the bucket. *)
Lemma recycle_spec hlayout z n mallocs t1 m l1 c l2 k :
  0 <= z < UINT16_MAX -> n <= MAX_CHUNK -> tree_ok t1 -> mallocs.1 = true -> mallocs.2 = true ->
  zone_chunks hlayout z n m (l1 ++ c :: l2) -> zone_bucket z t1 (l1 ++ l2) -> 1 <= k < ch_size c ->
  exists t', recycle_huge hlayout mallocs t1 (chunk_block z c) k m = Some ((t', chunk_block z (first_part c k)), resize_ops hlayout z c k) /\
    tree_ok t' /\ zone_bucket z t' (l1 ++ second_part c k :: l2) /\
    (forall x, block_ok x -> zone_id x <> z -> has_block t' x <-> has_block t1 x).
Proof.
  intros Hz Hn Ht1 Hm1 Hm2 Hzc Hb Hk. destruct (tiles_split _ _ _ _ _ (zc_tiles _ _ _ _ _ Hzc)) as (_ & _ & Hty & B1 & B2 & B3 & Hw).
  destruct (resize_chunk_runs hlayout z n Hz Hn mallocs t1 c k m) as (t' & err & Ei & Ht' & Er); try done.
  assert (Hok : block_ok (chunk_block z (second_part c k))).
  { unfold MAX_CHUNK, UINT16_MAX in *. split; simpl; unfold MAX_CHUNK, UINT16_MAX; lia. }
  assert (Hnew : ~ has_block t1 (chunk_block z (second_part c k))).
  { intros Hh. apply Hb in Hh as (c' & Hc' & _ & E); [|done|done]. destruct (tiles_others n _ l1 c l2 c' (zc_tiles _ _ _ _ _ Hzc) Hc') as [(I1 & I2 & I3) Hd].
    apply (f_equal chunk_id) in E. simpl in E. lia. }
  destruct (insert_block_spec mallocs t1 _ Ht1 Hok) as (t2 & e & Ei' & _ & Hor). rewrite Ei in Ei'. injection Ei' as <- <-.
  destruct Hor as [(-> & _ & Hx)|[(_ & _ & ?)|(_ & _ & [?|?])]]; [|done|congruence..].
  exists t'. split_and!; try done.
  - unfold recycle_huge. unfold bind at 1. simpl. rewrite Er. cbn [mbind option_bind]. unfold ret. simpl. by rewrite app_nil_r.
  - intros x Hxok Hxz. rewrite Hx, (Hb x Hxok Hxz) by done. setoid_rewrite elem_of_app. setoid_rewrite elem_of_cons. split.
    + intros [->|(c' & Hc' & ?)]; [exists (second_part c k); split; [tauto|done]|exists c'; split; [tauto|done]].
    + intros (c' & Hc' & Hf & ->). destruct (decide (c' = second_part c k)) as [->|]; [by left|]. right. exists c'. split; [tauto|done].
  - intros x Hxok Hxz. rewrite Hx by done. split; [intros [->|?]; [by destruct Hxz|done]|by right].
Qed.

(** The sequence after [units] of the chunk [c] have been taken: what follows them. *)
Definition rest_of (c : chunk) (units : Z) (l2 : list chunk) : list chunk :=
  if units =? ch_size c then l2 else second_part c units :: l2.

(** The zones after the sequence of one of them has changed. *)
Definition set_zone (zs : zones) (z n : Z) (l : list chunk) : zones := fun z' => if z' =? z then Some (n, l) else zs z'.

(** The chunk [c] of the zone [z], that is not in the bucket, takes part in the zone. *)
Record heap_zones_but (hlayout : Z) (zs : zones) (m : pmem) (t : ctree) (z n : Z) (l1 : list chunk) (c : chunk) (l2 : list chunk) : Prop := {
  hb_ok : tree_ok t;
  hb_this : 0 <= z < UINT16_MAX /\ n <= MAX_CHUNK /\ zone_chunks hlayout z n m (l1 ++ c :: l2) /\ zone_bucket z t (l1 ++ l2);
  hb_zone z' n' l' : z' <> z -> zs z' = Some (n', l') ->
    0 <= z' < UINT16_MAX /\ n' <= MAX_CHUNK /\ zone_chunks hlayout z' n' m l' /\ zone_bucket z' t l';
  hb_only x : block_ok x -> has_block t x -> zone_id x = z \/ is_Some (zs (zone_id x));
}.

Lemma first_whole c : ch_type c = CHUNK_TYPE_FREE -> first_part c (ch_size c) = c.
Proof. destruct c. simpl. by intros ->. Qed.

(** The block of a chunk has been removed from the bucket. *)
Lemma remove_chunk hlayout zs m t t1 z n l1 c l2 :
  heap_zones hlayout zs m t -> zs z = Some (n, l1 ++ c :: l2) -> tree_ok t1 ->
  (forall x, block_ok x -> has_block t1 x <-> has_block t x /\ x <> chunk_block z c) ->
  heap_zones_but hlayout zs m t1 z n l1 c l2.
Proof.
  intros [Ht Hz Ho] E Ht1 Hx. destruct (Hz z n _ E) as (H1 & H2 & H3 & H4). pose proof (zc_tiles _ _ _ _ _ H3) as Zt. split; [done| | |].
  - split; [done|]. split; [done|]. split; [done|]. apply (zone_bucket_take z H1 t t1 l1 [c] l2); [done| |].
    + intros x Hxok. rewrite Hx by done. split; intros [G1 G2]; (split; [done|]); [by intros p ->%list_elem_of_singleton|apply G2; left].
    + intros p c' ->%list_elem_of_singleton Hc'. by eapply tiles_at_ne.
  - intros z' n' l' Hne E'. destruct (Hz z' n' l' E') as (G1 & G2 & G3 & G4). split; [done|]. split; [done|]. split; [done|].
    intros x Hxok Hxz. rewrite Hx by done. rewrite (G4 x Hxok Hxz). split; [tauto|]. intros Hc. split; [done|]. intros ->. by destruct Hne.
  - intros x Hxok Hh. right. apply Ho; [done|]. by apply Hx in Hh as [? _].
Qed.

Lemma huge_alloc_spec hlayout zs mallocs m t units :
  heap_zones hlayout zs m t -> mallocs.1 = true -> mallocs.2 = true -> 1 <= units <= UINT16_MAX ->
  exists err b t' ops, take_from_huge hlayout mallocs t units m = Some ((err, b, t'), ops) /\
    (err = 0 /\ (exists z n l1 c l2, zs z = Some (n, l1 ++ c :: l2) /\ ch_type c = CHUNK_TYPE_FREE /\ units <= ch_size c /\
       ops = (if units =? ch_size c then [] else resize_ops hlayout z c units) /\ b = chunk_block z (first_part c units) /\
       heap_zones_but hlayout zs (run ops m) t' z n l1 (first_part c units) (rest_of c units l2)) \/
     err = ENOMEM /\ t' = t /\ ops = [] /\ forall z n l c, zs z = Some (n, l) -> c ∈ l -> ch_type c = CHUNK_TYPE_FREE -> ch_size c < units).
Proof.
  intros Hhz Hm1 Hm2 Hu. pose proof Hhz as [Ht Hz Ho]. unfold take_from_huge.
  destruct (bestfit_spec t units Ht Hu) as (err & r & t1 & E & Ht1 & Hor). unfold request in E.
  rewrite (bind_pure _ _ m (err, r, t1)) by (unfold lift; by rewrite E). clear E.
  destruct Hor as [(-> & Hr & Hh & Hge & _ & Hin)|(-> & -> & -> & Hno)]; simpl.
  2:{ eexists _, _, _, _. split; [done|]. right. split_and!; try done. intros z n l c E Hc Hf. destruct (Hz z n l E) as (H1 & H2 & H3 & H4).
      pose proof (tiles_bounds _ _ _ _ _ (zc_tiles _ _ _ _ _ H3) Hc) as (B1 & B2 & B3 & _).
      assert (Hok : block_ok (chunk_block z c)) by (by eapply chunk_block_ok).
      apply (Hno (chunk_block z c)); [done|]. apply (H4 _ Hok eq_refl). by exists c. }
  destruct (Ho r Hr Hh) as [[n l] Ez]. set (z := zone_id r) in *. destruct (Hz z n l Ez) as (H1 & H2 & H3 & H4).
  destruct (proj1 (H4 r Hr eq_refl) Hh) as (c & Hc & Hf & Er). apply list_elem_of_split in Hc as (l1 & l2 & ->).
  rewrite Er in *. simpl in Hge. pose proof (remove_chunk hlayout zs m t t1 z n l1 c l2 Hhz Ez Ht1 Hin) as Hbut.
  rewrite (bind_pure _ _ m tt) by (unfold check; simpl; by rewrite (proj2 (Z.leb_le units _) Hge)). simpl.
  destruct (Z.eqb_spec units (ch_size c)) as [->|Hne]; simpl.
  { eexists _, _, _, _. split; [done|]. left. split; [done|]. exists z, n, l1, c, l2. rewrite Z.eqb_refl, first_whole by done.
    split_and!; try done. unfold rest_of. by rewrite Z.eqb_refl. }
  pose proof Hbut as [_ (G1 & G2 & G3 & G4) Gz Go].
  destruct (recycle_spec hlayout z n mallocs t1 m l1 c l2 units) as (t' & Erec & Ht' & Hb' & Hout); try done; [lia|].
  eexists _, _, _, _. split; [unfold bind; rewrite Erec; simpl; rewrite app_nil_r; done|]. left. split; [done|].
  exists z, n, l1, c, l2. rewrite (proj2 (Z.eqb_neq _ _) Hne). split_and!; try done. unfold rest_of. rewrite (proj2 (Z.eqb_neq _ _) Hne).
  destruct (tiles_split _ _ _ _ _ (zc_tiles _ _ _ _ _ G3)) as (_ & _ & _ & B1 & B2 & B3 & _). split; [done| | |].
  - split; [done|]. split; [done|]. split; [|done]. eapply (resize_zone hlayout z n); try done; lia.
  - intros z' n' l' Hz' E'. destruct (Gz z' n' l' Hz' E') as (K1 & K2 & K3 & K4). split; [done|]. split; [done|]. split.
    + apply zone_chunks_frame with z; try done. intros a v. apply (resize_store _ _ n); [done|done|lia].
    + intros x Hx Hxz. rewrite Hout by (done || congruence). by apply K4.
  - intros x Hx Hhx. destruct (decide (zone_id x = z)) as [|Hxz]; [by left|]. apply Go; [done|]. by apply Hout.
Qed.

(** Other zones are not changed when a chunk is written. *)
Lemma written_frame hlayout z z' n l m m' d :
  n <= MAX_CHUNK -> z' <> z -> chunk_written hlayout z m m' d -> zone_chunks hlayout z' n m l -> zone_chunks hlayout z' n m' l.
Proof.
  intros Hn Hne [M1 M2 M3 M4] [Zs Zt Zf]. split; [by rewrite M1| |].
  - eapply tiles_ext; [|exact Zt]. intros c Hc. pose proof (tiles_bounds _ _ _ _ _ Zt Hc). apply M4; [lia|done].
  - intros c Hc Hs. pose proof (tiles_bounds _ _ _ _ _ Zt Hc). rewrite M4; [by apply Zf|lia|done].
Qed.

(** The zones after the chunks of one zone have changed, in the memory and in the bucket. *)
Lemma update_zones hlayout zs m m' t z n l d :
  tree_ok t -> 0 <= z < UINT16_MAX -> n <= MAX_CHUNK -> chunk_written hlayout z m m' d ->
  zone_chunks hlayout z n m' l -> zone_bucket z t l ->
  (forall z' n' l', z' <> z -> zs z' = Some (n', l') ->
     0 <= z' < UINT16_MAX /\ n' <= MAX_CHUNK /\ zone_chunks hlayout z' n' m l' /\ zone_bucket z' t l') ->
  (forall x, block_ok x -> has_block t x -> zone_id x = z \/ is_Some (zs (zone_id x))) ->
  heap_zones hlayout (set_zone zs z n l) m' t.
Proof.
  intros Ht Hz Hn Hw Hzc Hb Hoth Ho. unfold set_zone. split; [done| |].
  - intros z' n' l' E. destruct (Z.eqb_spec z' z) as [->|Hne]; [by injection E as <- <-|].
    destruct (Hoth z' n' l' Hne E) as (H1 & H2 & H3 & H4). split; [done|]. split; [done|]. split; [|done]. by eapply written_frame.
  - intros x Hx Hh. destruct (Z.eqb_spec (zone_id x) z) as [|Hne]; [done|]. by destruct (Ho x Hx Hh).
Qed.

(** A chunk that was taken is marked as used. *)
Definition used_chunk (c : chunk) : chunk := mkChunk (ch_at c) CHUNK_TYPE_USED (ch_size c).

(** A chunk that was taken gets another type. *)
Lemma commit_as hlayout zs m m' t z n l1 c l2 d :
  heap_zones_but hlayout zs m t z n l1 c l2 -> ch_at d = ch_at c -> ch_size d = ch_size c -> chunk_type_ok d -> ch_type d <> CHUNK_TYPE_FREE ->
  chunk_written hlayout z m m' d -> heap_zones hlayout (set_zone zs z n (l1 ++ d :: l2)) m' t.
Proof.
  intros [Ht (Hz & Hn & Hzc & Hb) Hoth Ho] Ea Es Hty Hf Hw. eapply update_zones; try done.
  - change (l1 ++ d :: l2) with (l1 ++ [d] ++ l2). eapply (write_zone hlayout z n) with (c := c) (pl := []) (nl := []); try done; simpl; lia.
  - intros x Hx Hxz. rewrite (Hb x Hx Hxz). split.
    + intros (c' & Hc' & Hf'). exists c'. split; [|done]. apply elem_of_app in Hc' as [?|?]; apply elem_of_app; [by left|right; by right].
    + intros (c' & Hc' & Hf' & E). exists c'. split; [|done]. apply elem_of_app in Hc' as [?|[->|?]%elem_of_cons]; [apply elem_of_app; by left|done|apply elem_of_app; by right].
Qed.

Lemma commit_chunk hlayout zs m m' t z n l1 c l2 :
  heap_zones_but hlayout zs m t z n l1 c l2 -> chunk_written hlayout z m m' (used_chunk c) ->
  heap_zones hlayout (set_zone zs z n (l1 ++ used_chunk c :: l2)) m' t.
Proof. intros Hb Hw. eapply commit_as; try done. right. by left. Qed.

(** A chunk that is not free is not in the bucket. *)
Lemma used_but hlayout zs m t z n l1 c l2 :
  heap_zones hlayout zs m t -> zs z = Some (n, l1 ++ c :: l2) -> ch_type c <> CHUNK_TYPE_FREE -> heap_zones_but hlayout zs m t z n l1 c l2.
Proof.
  intros [Ht Hz Ho] E Hne. destruct (Hz z n _ E) as (H1 & H2 & H3 & H4). split; [done| | |].
  - split; [done|]. split; [done|]. split; [done|]. intros x Hx Hxz. rewrite (H4 x Hx Hxz). split.
    + intros (c' & Hc' & Hf & Ex). exists c'. split; [|done]. apply elem_of_app in Hc' as [?|[->|?]%elem_of_cons]; [apply elem_of_app; by left|done|apply elem_of_app; by right].
    + intros (c' & Hc' & Hf). exists c'. split; [|done]. apply elem_of_app in Hc' as [?|?]; apply elem_of_app; [by left|right; by right].
  - intros z' n' l' Hne' E'. by apply Hz.
  - intros x Hx Hh. right. by apply Ho.
Qed.

(** Freeing a chunk that is not in the bucket. *)
Lemma free_chunk_spec hlayout zs um mallocs m t z n l1 c l2 ctx :
  heap_zones_but hlayout zs m t z n l1 c l2 -> mallocs.1 = true -> mallocs.2 = true -> ch_type c <> CHUNK_TYPE_RUN ->
  exists la pl nl lb t' t'', l1 = la ++ pl /\ l2 = nl ++ lb /\ pl = free_of (last l1) /\ nl = free_of (head l2) /\ let d := merged_chunk pl c nl in
    heap_free_block hlayout (Some (um, t)) (chunk_block z c) ctx m =
      match ctx with
      | None => Some (chunk_block z d, Some (um, t'), None)
      | Some ctx => ctx' ← huge_prep_operation_hdr hlayout (chunk_block z d) HDR_OP_FREE ctx m; Some (chunk_block z d, Some (um, t'), Some ctx')
      end /\
    bucket_tree_insert_block mallocs t' (chunk_block z d) = Some (t'', 0) /\
    forall m', chunk_written hlayout z m m' d -> heap_zones hlayout (set_zone zs z n (la ++ [d] ++ lb)) m' t''.
Proof.
  intros [Ht (Hz & Hn & Hzc & Hb) Hoth Ho] Hm1 Hm2 Hty.
  destruct (huge_free_spec hlayout z n Hz Hn um mallocs t m l1 c l2 ctx) as (la & pl & nl & lb & t' & t'' & E1 & E2 & Epl & Enl & Ef & Ei & Ht'' & Hb'' & Hout & Hzc'); try done.
  exists la, pl, nl, lb, t', t''. split; [done|]. split; [done|]. split; [done|]. split; [done|]. split; [exact Ef|]. split; [exact Ei|]. intros m' Hw.
  eapply update_zones; try done; [by apply Hzc'| |].
  - intros z' n' l' Hne E'. destruct (Hoth z' n' l' Hne E') as (G1 & G2 & G3 & G4). split; [done|]. split; [done|]. split; [done|].
    intros x Hx Hxz. rewrite Hout by (done || congruence). by apply G4.
  - intros x Hx Hh. destruct (decide (zone_id x = z)) as [|Hne]; [by left|]. apply Ho; [done|]. by apply Hout.
Qed.

(** ** Writing the header of a chunk by an operation *)

Definition op_type (op : memblock_hdr_op) : Z := if decide (op = HDR_OP_ALLOC) then CHUNK_TYPE_USED else CHUNK_TYPE_FREE.

(** The entries for a chunk: its header, and its footer as a transient one. *)
Definition chunk_entries (hlayout z : Z) (d : chunk) (t : operation_entry_type) : list operation_entry :=
  match t with
  | ENTRY_PERSISTENT => [mkEntry (chunk_header_word hlayout z (ch_at d)) (chunk_word d) OPERATION_SET]
  | ENTRY_TRANSIENT =>
      if ch_size d =? 1 then []
      else [mkEntry (chunk_header_word hlayout z (ch_at d + ch_size d - 1)) (mk_header CHUNK_TYPE_FOOTER 0 (ch_size d)) OPERATION_SET]
  end.

Lemma context_ext ctx L L' : (forall t, L' t = L t) -> holds ctx L -> holds ctx L'.
Proof. intros He [A1 A2 A3 A4]. split; intros; rewrite ?He in *; auto. Qed.

Lemma huge_prep_holds hlayout z d op pop redo raw m :
  ch_type d = op_type op -> length raw = 20%nat -> OBJ_PTR_IS_VALID pop (chunk_header_word hlayout z (ch_at d)) = true ->
  exists ctx, huge_prep_operation_hdr hlayout (chunk_block z d) op (operation_init pop redo raw) m = Some ctx /\
    ctx_pop ctx = pop /\ ctx_redo ctx = redo /\ holds ctx (chunk_entries hlayout z d).
Proof.
  intros Hty Hraw Hv. unfold huge_prep_operation_hdr. cbn [zone_id chunk_id size_idx chunk_block]. fold (op_type op). rewrite <-Hty.
  change (chunk_get_chunk_hdr_value (ch_type d) (ch_size d)) with (chunk_word d).
  pose (e1 := mkEntry (chunk_header_word hlayout z (ch_at d)) (chunk_word d) OPERATION_SET).
  destruct (add_typed_holds (operation_init pop redo raw) (fun _ => []) ENTRY_PERSISTENT e1 m (init_holds _ _ _ Hraw)) as (ctx1 & E1 & P1 & R1 & H1); [simpl; lia|].
  unfold operation_add_entry. simpl (ctx_pop _). rewrite Hv. cbn [en_ptr en_value en_type e1] in E1. simpl in P1, R1. rewrite E1. cbn [mbind option_bind].
  destruct (Z.eqb_spec (ch_size d) 1) as [Es|Es].
  - exists ctx1. split_and!; try done. eapply context_ext; [|exact H1]. intros []; simpl; [done|by rewrite Es].
  - rewrite header_add. replace (ch_at d + (ch_size d - 1)) with (ch_at d + ch_size d - 1) by lia.
    set (e2 := mkEntry (chunk_header_word hlayout z (ch_at d + ch_size d - 1)) (chunk_get_chunk_hdr_value CHUNK_TYPE_FOOTER (ch_size d)) OPERATION_SET).
    destruct (add_typed_holds ctx1 _ ENTRY_TRANSIENT e2 m H1) as (ctx2 & E2 & P2 & R2 & H2); [simpl; lia|].
    exists ctx2. split_and!; [exact E2|congruence..|]. eapply context_ext; [|exact H2]. intros []; simpl; [done|by rewrite (proj2 (Z.eqb_neq _ _) Es)].
Qed.

Definition chunk_ops (hlayout z : Z) (d : chunk) : list pm_op :=
  let h := chunk_header_word hlayout z (ch_at d) in
  [Store h (chunk_word d); Flush h 8; Fence] ++ footer_ops hlayout z (ch_at d) (ch_size d) 0.

(** The operation is one atomic store of the header, made durable, then the footer. *)
Lemma chunk_process hlayout z d ctx m :
  holds ctx (chunk_entries hlayout z d) -> operation_process ctx m = Some (tt, chunk_ops hlayout z d).
Proof.
  intros H. pose proof H as [A1 A2 A3 A4]. unfold operation_process. rewrite A1. simpl (length _ =? 1)%nat. cbn iota.
  rewrite (A4 ENTRY_PERSISTENT 0%nat) by (simpl; lia). simpl ([_] !! 0%nat). cbn iota.
  rewrite (holds_listed _ _ ENTRY_TRANSIENT H). unfold chunk_ops, footer_ops, chunk_entries.
  eapply bind_Some; [unfold bind, store, emit, persist; simpl; reflexivity|]. rewrite store_transient_runs. by destruct (ch_size d =? 1).
Qed.

Lemma chunk_ops_init hlayout z d : chunk_ops hlayout z d = init_ops hlayout z (ch_at d) (ch_type d) (ch_size d).
Proof. done. Qed.

(** The header of a zone is no header of a chunk, of this zone or of another. *)
Lemma zone_header_ne hlayout z z' i : 0 <= i < MAX_CHUNK -> chunk_header_word hlayout z i <> zone_header_word hlayout z'.
Proof.
  intros Hi E. destruct (decide (z = z')) as [->|Hne]; [|by apply (zone_words_ne hlayout z z' i 0) in E].
  unfold chunk_header_word, zone_header_word, sizeof_zone_header, sizeof_chunk_header in E. lia.
Qed.

Lemma chunk_ops_written hlayout z n d m : inside n d -> n <= MAX_CHUNK -> chunk_written hlayout z m (run (chunk_ops hlayout z d) m) d.
Proof.
  intros (I1 & I2 & I3) Hn. rewrite chunk_ops_init.
  assert (Hi : forall a b, chunk_header_word hlayout z a = chunk_header_word hlayout z b <-> a = b) by (intros a b; split; [apply header_inj|congruence]).
  split.
  - intros z'. rewrite init_ops_read by lia. rewrite !decide_False; [done|..].
    + intros E. symmetry in E. apply zone_header_ne in E; [done|lia].
    + intros [_ E]. symmetry in E. apply zone_header_ne in E; [done|lia].
  - rewrite init_ops_read by lia. rewrite decide_False, decide_True by (rewrite ?Hi; lia || done). done.
  - intros Hs. rewrite init_ops_read by lia. by rewrite decide_True.
  - intros z' i Hi' Hne. rewrite init_ops_read by lia. destruct (decide (z' = z)) as [->|Hz'].
    + destruct (Hne eq_refl). rewrite !decide_False by (rewrite Hi; lia). done.
    + rewrite !decide_False; [done|..].
      * by apply zone_words_ne; [|lia|].
      * intros [_ E]. apply (zone_words_ne hlayout z' z i (ch_at d + ch_size d - 1)) in E; try done; lia.
Qed.

(** ** Crashes *)

Lemma chunk_type_free_ok c : ch_type c = CHUNK_TYPE_FREE -> chunk_type_ok c.
Proof. by left. Qed.

(** A crash while a header is written: it is new, or nothing has changed yet. *)
Lemma init_ops_crash hlayout z i type size m j image :
  1 <= size -> pm_durable m (chunk_header_word hlayout z i) -> pm_crash (run (take j (init_ops hlayout z i type size)) m) image ->
  image (chunk_header_word hlayout z i) = mk_header type 0 size \/
  forall a, pm_durable m a -> image a = pm_read m a.
Proof.
  intros Hs Hd Hcr. set (h := chunk_header_word hlayout z i) in *. unfold init_ops in Hcr. fold h in Hcr.
  set (A := [Store _ _; Flush _ _; Fence]) in Hcr. set (B := footer_ops _ _ _ _ _) in Hcr.
  assert (HB : no_store h B) by (intros v [H1 H2]%footer_ops_store; apply header_inj in H2; lia).
  destruct (take_app_cases j A B) as [E|[q E]]; rewrite E in Hcr.
  - destruct (run_cand _ _ _ _ (Hcr h)) as [Hv|Hv].
    + right. intros a Ha. destruct (decide (a = h)) as [->|Hne]; [by apply durable_cand in Hv|].
      assert (Hns : no_store a (take j A)).
      { apply no_store_take. intros v Hv'. unfold A in Hv'. rewrite !elem_of_cons, elem_of_nil in Hv'. by destruct Hv' as [[= Eh _]|[?|[?|?]]]. }
      rewrite <-(no_store_read (take j A) m) by done. apply durable_image; [|done]. by apply no_store_durable.
    + left. apply elem_of_take in Hv as (k & Hk & _). apply list_elem_of_lookup_2 in Hk. unfold A in Hk.
      rewrite !elem_of_cons, elem_of_nil in Hk. by destruct Hk as [[= ->]|[?|[?|?]]].
  - left. rewrite run_app in Hcr. assert (HBq : no_store h (take q B)) by by apply no_store_take.
    rewrite (durable_image (run (take q B) (run A m)) _ image), no_store_read; try done.
    + simpl. by rewrite pm_read_fence, pm_read_flush, pm_read_store_eq.
    + apply no_store_durable; [done|]. apply (persist_durable (pm_store m h (mk_header type 0 size)) _ 8). lia.
Qed.

(** A crash while a chunk is written in the place of others leaves the old or the new
    sequence: the footer, which can lie on a header of the old sequence, is only written
    when the new header is durable. *)
Lemma chunk_ops_crash hlayout z n m l1 pl c nl l2 d j image :
  0 <= z < UINT16_MAX -> n <= MAX_CHUNK ->
  let headers m := fun i => pm_read m (chunk_header_word hlayout z i) in
  tiles (headers m) n 0 (l1 ++ (pl ++ c :: nl) ++ l2) -> durable_chunks hlayout z m (l1 ++ (pl ++ c :: nl) ++ l2) ->
  ch_at d = start c pl -> ch_size d = total (pl ++ c :: nl) -> chunk_type_ok d ->
  pm_crash (run (take j (chunk_ops hlayout z d)) m) image ->
  let images i := image (chunk_header_word hlayout z i) in
  tiles images n 0 (l1 ++ (pl ++ c :: nl) ++ l2) \/ tiles images n 0 (l1 ++ [d] ++ l2).
Proof.
  intros Hz Hn headers Zt Hd Ea Es Hty Hcr images. set (L := l1 ++ (pl ++ c :: nl) ++ l2) in *.
  pose proof (merged_bounds n _ _ _ _ _ _ Zt) as (T1 & T2 & T3 & (I1 & I2 & I3)). simpl in I1, I2, I3. rewrite <-Ea, <-Es in *.
  assert (Hap : forall c', c' ∈ l1 ++ l2 -> inside n c' /\ (ch_at d + ch_size d <= ch_at c' \/ ch_at c' + ch_size c' <= ch_at d))
    by (intros c' Hc'; rewrite Ea, Es; by eapply (merged_apart n)).
  assert (HinL : forall c', c' ∈ l1 ++ l2 -> c' ∈ L) by (intros c' [?|?]%elem_of_app; apply elem_of_app; [by left|right; apply elem_of_app; by right]).
  rewrite chunk_ops_init in Hcr. set (ops := init_ops hlayout z (ch_at d) (ch_type d) (ch_size d)) in *.
  assert (Hout : forall c', c' ∈ l1 ++ l2 -> images (ch_at c') = headers m (ch_at c')).
  { intros c' Hc'. destruct (Hap c' Hc') as [(J1 & J2 & J3) Hdis]. unfold images, headers.
    assert (Hns : no_store (chunk_header_word hlayout z (ch_at c')) (take j ops)).
    { apply no_store_take. intros v [[E _]|[_ E]]%init_ops_store; apply header_inj in E; lia. }
    rewrite <-(no_store_read (take j ops) m) by done. apply durable_image; [|done]. apply no_store_durable; [done|]. by apply Hd, HinL. }
  assert (Hnew : images (ch_at d) = chunk_word d -> tiles images n 0 (l1 ++ [d] ++ l2)).
  { intros E. apply tiles_app with (ch_at d); [|apply tiles_app with (ch_at d + ch_size d)].
    - eapply tiles_ext; [|exact T1]. intros c' Hc'. apply Hout, elem_of_app. by left.
    - constructor; try done. constructor.
    - eapply tiles_ext; [|exact T3]. intros c' Hc'. apply Hout, elem_of_app. by right. }
  destruct (init_ops_crash hlayout z (ch_at d) (ch_type d) (ch_size d) m j image) as [E|E]; [lia| |done|right; by apply Hnew|].
  - destruct pl as [|p pl]; rewrite Ea; apply Hd; unfold L; simpl; rewrite !elem_of_app, elem_of_cons; tauto.
  - left. eapply tiles_ext; [|exact Zt]. intros c' Hc'. by apply E, Hd.
Qed.
