(* ===== verification/HeapTheorems.v ===== *)
(** * Chunks of the heap: theorems

    The properties of zones and huge blocks, from the lemmas of [HeapZoneProofs] and
    [HeapHuge], with examples that evaluate the functions on a zone of four chunks. *)

From S2P Require Import Prelude Pmem Programs Redo RedoProofs Memops Ctree Bucket HeapLayout HeapRun Memblock HeapZone HeapZoneProofs HeapHuge.

Local Open Scope pmtest_scope.

(** [heap_populate_buckets] on a zone that is new or a sequence of chunks. *)
Lemma zone_scan_spec hlayout S mallocs max_zone heap_size z s m n l :
  0 <= z < UINT16_MAX -> 1 <= n <= MAX_CHUNK -> z <> max_zone -> (forall k, mallocs k = (true, true)) ->
  classes_ok S (f_classes s) -> tree_ok (f_tree s) ->
  let zh := zone_header_word hlayout z in
  let headers m i := pm_read m (chunk_header_word hlayout z i) in
  (zone_magic (pm_read m zh) <> ZONE_HEADER_MAGIC /\ get_zone_size_idx z max_zone heap_size = Some n /\ l = [whole_zone n] \/
   zone_magic (pm_read m zh) = ZONE_HEADER_MAGIC /\ hdr_size_idx (pm_read m zh) = n /\ tiles (headers m) n 0 l) ->
  (forall c, c ∈ l -> ch_type c = CHUNK_TYPE_RUN -> run_full m (chunk_addr hlayout z (ch_at c)) = false ->
     pm_read m (run_block_size_word (chunk_addr hlayout z (ch_at c))) ∈ S) ->
  exists s' m1 ops1 ops, m1 = run ops1 m /\ ops1 = (if zone_magic (pm_read m zh) =? ZONE_HEADER_MAGIC then [] else zone_ops hlayout z n) /\
    heap_populate_buckets hlayout mallocs max_zone heap_size z s m = Some ((0, z + 1, s'), ops1 ++ ops) /\
    tiles (headers (run ops m1)) n 0 l /\ scanned hlayout S z m1 l s s' m1 ops.
Proof.
  intros Hz Hn Hne Hm Hh Ht zh headers Hor Hbs. unfold heap_populate_buckets. rewrite (proj2 (Z.eqb_neq z max_zone) Hne).
  assert (Hz1 : u32 (z + 1) = z + 1) by (apply u32_small; unfold UINT16_MAX in *; lia).
  rewrite (bind_pure _ _ m (pm_read m zh)) by done.
  set (ops1 := if zone_magic (pm_read m zh) =? ZONE_HEADER_MAGIC then [] else zone_ops hlayout z n). set (m1 := run ops1 m).
  assert (Hinit : (if negb (zone_magic (pm_read m zh) =? ZONE_HEADER_MAGIC) then heap_zone_init hlayout max_zone heap_size z else ret tt) m = Some (tt, ops1) /\
    hdr_size_idx (pm_read m1 zh) = n /\ tiles (headers m1) n 0 l /\ (zone_magic (pm_read m zh) = ZONE_HEADER_MAGIC -> m1 = m)).
  { unfold m1, ops1. destruct Hor as [(H1 & H2 & ->)|(H1 & H2 & H3)].
    - rewrite (proj2 (Z.eqb_neq _ _) H1). cbn [negb]. split; [apply zone_init_runs; (done || lia)|].
      destruct (zone_init_spec hlayout z n ltac:(lia) m ltac:(lia)) as [(R1 & _ & R3 & _) _]. split_and!; [|done|done].
      fold zh in R1. rewrite R1. apply zone_word_fields; lia.
    - rewrite (proj2 (Z.eqb_eq _ _) H1). simpl. done. }
  destruct Hinit as (Ei & Es & Htl & Hsame).
  destruct (populate_loop_runs hlayout S z n Hz ltac:(lia) mallocs m1 (Datatypes.S (Z.to_nat n)) 0 s m1 l) as (s' & ops & Ep & Hsc); try done; try lia.
  { intros c Hc Hr Hf. destruct Hor as [(_ & _ & ->)|(H1 & _)]; [|rewrite (Hsame H1) in *; by apply Hbs].
    apply list_elem_of_singleton in Hc as ->. done. }
  exists s', m1, ops1, ops. split_and!; try done.
  - eapply bind_Some; [exact Ei|]. fold m1. rewrite (bind_pure _ _ m1 (pm_read m1 zh)) by done. rewrite Es, Hz1.
    rewrite <-(app_nil_r ops). eapply bind_Some; [exact Ep|]. done.
  - eapply tiles_ext; [|exact Htl]. intros c Hc. apply no_store_read. intros v Hv.
    apply (sc_stores _ _ _ _ _ _ _ _ _ Hsc), scratch_in in Hv as (c' & Hc' & Hv).
    destruct (tiles_bounds _ _ _ _ _ Htl Hc) as (B1 & B2 & B3 & _). destruct (tiles_bounds _ _ _ _ _ Htl Hc') as (D1 & D2 & D3 & _).
    apply (scratch_not_header hlayout z n) with (c := c') in Hv; try done; try lia.
    destruct (tiles_disjoint _ _ _ _ c c' Htl Hc Hc') as [->|?]; lia.
Qed.

(** [heap_populate_buckets] finds exactly what is in the next zone.  The zone has not
    been used yet, and is then made one free chunk, or it is a sequence of chunks [l], its
    runs having units of the sizes [S] that the classes can serve.  The scan ends with
    success, the default bucket has gained exactly the blocks of the free chunks, the
    runs that are not full are registered, each with a class of its unit size, every
    chunk has its footer and every run no bucket; nothing else is stored. *)
Theorem zone_scan_exact hlayout S mallocs max_zone heap_size z s m n l :
  0 <= z < UINT16_MAX -> 1 <= n <= MAX_CHUNK -> z <> max_zone -> (forall k, mallocs k = (true, true)) ->
  classes_ok S (f_classes s) -> tree_ok (f_tree s) ->
  let zh := zone_header_word hlayout z in
  let headers m i := pm_read m (chunk_header_word hlayout z i) in
  (zone_magic (pm_read m zh) <> ZONE_HEADER_MAGIC /\ get_zone_size_idx z max_zone heap_size = Some n /\ l = [whole_zone n] \/
   zone_magic (pm_read m zh) = ZONE_HEADER_MAGIC /\ hdr_size_idx (pm_read m zh) = n /\ tiles (headers m) n 0 l) ->
  (forall c, c ∈ l -> ch_type c = CHUNK_TYPE_RUN -> run_full m (chunk_addr hlayout z (ch_at c)) = false ->
     pm_read m (run_block_size_word (chunk_addr hlayout z (ch_at c))) ∈ S) ->
  exists s' m1 ops1 ops, m1 = run ops1 m /\ ops1 = (if zone_magic (pm_read m zh) =? ZONE_HEADER_MAGIC then [] else zone_ops hlayout z n) /\
    heap_populate_buckets hlayout mallocs max_zone heap_size z s m = Some ((0, z + 1, s'), ops1 ++ ops) /\
    tiles (headers (run ops m1)) n 0 l /\ scanned hlayout S z m1 l s s' m1 ops.
Proof. apply zone_scan_spec. Qed.

(** C35: a crash never leaves a zone that is not a sequence of chunks.  With the chunks [l]
    durable in the zone: a crash while [heap_resize_chunk] splits a chunk leaves the old
    sequence or the one with the two parts, and the latter when the split is done; a crash
    while the header of a chunk is written over free or used chunks [g], as allocations
    and merging frees do, leaves the old sequence or the one with the new chunk, although
    the footer can overwrite a header of the old sequence; a crash while a zone is created
    leaves a zone that counts as not created, or one with a single free chunk. *)
Theorem zone_crash_safe hlayout z n m l1 l2 :
  0 <= z < UINT16_MAX -> 1 <= n <= MAX_CHUNK ->
  let headers m i := pm_read m (chunk_header_word hlayout z i) in
  let images (image : Z -> Z) i := image (chunk_header_word hlayout z i) in
  let zh := zone_header_word hlayout z in
  (forall c k mallocs tree, tiles (headers m) n 0 (l1 ++ c :: l2) -> durable_chunks hlayout z m (l1 ++ c :: l2) -> tree_ok tree -> 1 <= k < ch_size c ->
    exists tree' ops, heap_resize_chunk hlayout mallocs tree (ch_at c) z k m = Some (tree', ops) /\
      let l' := l1 ++ [first_part c k; second_part c k] ++ l2 in
      tiles (headers (run ops m)) n 0 l' /\ durable_chunks hlayout z (run ops m) l' /\
      forall j image, pm_crash (run (take j ops) m) image -> tiles (images image) n 0 (l1 ++ c :: l2) \/ tiles (images image) n 0 l') /\
  (forall pl c nl d, let g := pl ++ c :: nl in tiles (headers m) n 0 (l1 ++ g ++ l2) -> durable_chunks hlayout z m (l1 ++ g ++ l2) ->
    ch_at d = start c pl -> ch_size d = total g -> chunk_type_ok d ->
    forall ctx, holds ctx (chunk_entries hlayout z d) -> exists ops, operation_process ctx m = Some (tt, ops) /\
      forall j image, pm_crash (run (take j ops) m) image -> tiles (images image) n 0 (l1 ++ g ++ l2) \/ tiles (images image) n 0 (l1 ++ [d] ++ l2)) /\
  (forall max_zone heap_size, get_zone_size_idx z max_zone heap_size = Some n ->
    (forall v, v ∈ cand m zh -> zone_magic v <> ZONE_HEADER_MAGIC) ->
    exists ops, heap_zone_init hlayout max_zone heap_size z m = Some (tt, ops) /\
      forall j image, pm_crash (run (take j ops) m) image ->
        zone_magic (image zh) <> ZONE_HEADER_MAGIC \/ image zh = zone_word n /\ tiles (images image) n 0 [whole_zone n]).
Proof.
  intros Hz Hn headers images zh. split; [|split].
  - intros c k mallocs tree Ht Hd Htree Hk. destruct (tiles_split _ _ _ _ _ Ht) as (_ & _ & Hty & B1 & B2 & B3 & Hw).
    destruct (resize_chunk_runs hlayout z n Hz ltac:(lia) mallocs tree c k m) as (tree' & err & _ & _ & E); try done.
    exists tree', (resize_ops hlayout z c k). split; [done|].
    destruct (resize_spec hlayout z n m l1 c l2 k Ht Hd Hk) as [[H1 H2] H3]. done.
  - intros pl c nl d g Ht Hd Ea Es Hty ctx Hh. exists (chunk_ops hlayout z d). split; [by apply chunk_process|].
    intros j image Hcr. eapply (chunk_ops_crash hlayout z n m l1 pl c nl l2 d j image); try done. lia.
  - intros max_zone heap_size E Hold. exists (zone_ops hlayout z n). split; [apply zone_init_runs; done || lia|].
    intros j image Hcr. destruct (zone_init_spec hlayout z n Hz m ltac:(lia)) as [_ H]. by apply (H j).
Qed.

(** C36: the default bucket and the chunks of the zones stay in step.  When the bucket holds
    exactly the free chunks of the zones, an allocation of [units] takes a free chunk that
    is large enough, splits it if it is larger, and after its operation the chunk is used,
    the bucket holding exactly the free chunks again; it fails only when no free chunk is
    large enough.  When a used chunk is freed, it is merged with the chunk before it if
    there is one that is free, and with the chunk after it if there is one that is free,
    and with no other: one free chunk takes their place, which starts where the first of
    them did and has the sum of their sizes.  After the operation and the insertion of
    the merged block the bucket again holds exactly the free chunks. *)
Theorem huge_alloc_free_exact hlayout zs um mallocs m t pop redo raw :
  heap_zones hlayout zs m t -> mallocs.1 = true -> mallocs.2 = true -> length raw = 20%nat ->
  (forall z n l i, zs z = Some (n, l) -> 0 <= i < n -> OBJ_PTR_IS_VALID pop (chunk_header_word hlayout z i) = true) ->
  (forall units, 1 <= units <= UINT16_MAX -> exists err b t' ops, take_from_huge hlayout mallocs t units m = Some ((err, b, t'), ops) /\
    (err = 0 /\ (exists z n l1 c l2 ctx ops', zs z = Some (n, l1 ++ c :: l2) /\ ch_type c = CHUNK_TYPE_FREE /\ units <= ch_size c /\
       b = chunk_block z (first_part c units) /\
       huge_prep_operation_hdr hlayout b HDR_OP_ALLOC (operation_init pop redo raw) (run ops m) = Some ctx /\
       operation_process ctx (run ops m) = Some (tt, ops') /\
       heap_zones hlayout (set_zone zs z n (l1 ++ mkChunk (ch_at c) CHUNK_TYPE_USED units :: rest_of c units l2)) (run ops' (run ops m)) t') \/
     err = ENOMEM /\ t' = t /\ ops = [] /\ forall z n l c, zs z = Some (n, l) -> c ∈ l -> ch_type c = CHUNK_TYPE_FREE -> ch_size c < units)) /\
  (forall z n l1 c l2, zs z = Some (n, l1 ++ c :: l2) -> ch_type c = CHUNK_TYPE_USED ->
    let pl := free_of (last l1) in let nl := free_of (head l2) in let d := merged_chunk pl c nl in
    exists la lb t' t'' ctx ops, l1 = la ++ pl /\ l2 = nl ++ lb /\
      heap_free_block hlayout (Some (um, t)) (chunk_block z c) (Some (operation_init pop redo raw)) m = Some (chunk_block z d, Some (um, t'), Some ctx) /\
      operation_process ctx m = Some (tt, ops) /\ bucket_tree_insert_block mallocs t' (chunk_block z d) = Some (t'', 0) /\
      heap_zones hlayout (set_zone zs z n (la ++ [d] ++ lb)) (run ops m) t'').
Proof.
  intros Hhz Hm1 Hm2 Hraw Hv. pose proof Hhz as [Ht Hzz Ho]. split.
  - intros units Hu. destruct (huge_alloc_spec hlayout zs mallocs m t units Hhz Hm1 Hm2 Hu) as (err & b & t' & ops & E & Hor).
    exists err, b, t', ops. split; [done|]. destruct Hor as [(-> & z & n & l1 & c & l2 & Ez & Hf & Hle & Eo & -> & Hbut)|H]; [left|by right].
    split; [done|]. pose proof Hbut as [_ (Hz & Hn & Hzc & _) _ _]. destruct (tiles_split _ _ _ _ _ (zc_tiles _ _ _ _ _ Hzc)) as (_ & _ & _ & B1 & B2 & B3 & _).
    simpl in B1, B2, B3.
    destruct (huge_prep_holds hlayout z (used_chunk (first_part c units)) HDR_OP_ALLOC pop redo raw (run ops m)) as (ctx & Ep & _ & _ & Hh); try done.
    { simpl. eapply Hv; [exact Ez|]. lia. }
    exists z, n, l1, c, l2, ctx, (chunk_ops hlayout z (used_chunk (first_part c units))). split_and!; try done; [by apply chunk_process|].
    apply (commit_chunk hlayout zs (run ops m) _ t' z n l1 (first_part c units)); [done|]. apply (chunk_ops_written hlayout z n); [|lia]. unfold inside. simpl. lia.
  - intros z n l1 c l2 Ez Hty. pose proof (used_but hlayout zs m t z n l1 c l2 Hhz Ez) as Hbut. rewrite Hty in Hbut. specialize (Hbut ltac:(done)).
    pose proof Hbut as [_ (Hz & Hn & Hzc & _) _ _].
    destruct (free_chunk_spec hlayout zs um mallocs m t z n l1 c l2 (Some (operation_init pop redo raw))) as (la & pl & nl & lb & t' & t'' & E1 & E2 & Epl & Enl & Ef & Ei & Hw); try done.
    { by rewrite Hty. }
    cbv zeta. rewrite <-Epl, <-Enl. clear Epl Enl. set (d := merged_chunk pl c nl) in *. assert (Hd : inside n d).
    { subst l1 l2. pose proof (zc_tiles _ _ _ _ _ Hzc) as Zt. replace ((la ++ pl) ++ c :: nl ++ lb) with (la ++ (pl ++ c :: nl) ++ lb) in Zt by (by rewrite <-!app_assoc).
      by destruct (merged_bounds _ _ _ _ _ _ _ Zt) as (_ & _ & _ & Hi). }
    destruct (huge_prep_holds hlayout z d HDR_OP_FREE pop redo raw m) as (ctx & Ep & _ & _ & Hh); try done.
    { eapply Hv; [exact Ez|]. destruct Hd as (I1 & I2 & I3). lia. }
    exists la, lb, t', t'', ctx, (chunk_ops hlayout z d). split; [done|]. split; [done|].
    rewrite Ef, Ep. split_and!; try done; [by apply chunk_process|]. apply Hw. by apply (chunk_ops_written hlayout z n).
Qed.

(** ** Verification of a zone *)

Lemma verify_loop_tiles hlayout mem z n fuel i l :
  n <= MAX_CHUNK -> tiles (fun i => pm_read mem (chunk_header_word hlayout z i)) n i l -> 0 <= i -> n - i < Z.of_nat fuel ->
  verify_loop hlayout fuel mem z n i = Some (Some n).
Proof.
  intros Hn Hl. revert fuel. induction Hl as [|i c l Ea Hw Hty Hs He Hl IH]; intros fuel Hi Hf; (destruct fuel as [|fuel]; [lia|]); cbn [verify_loop].
  - by rewrite Z.ltb_irrefl.
  - rewrite (proj2 (Z.ltb_lt i n)) by lia. unfold MAX_CHUNK, UINT16_MAX in *. rewrite Hw. destruct (chunk_fields c Hty ltac:(lia)) as (F1 & F2 & F3).
    unfold heap_verify_chunk_header. rewrite F1, F2, F3, u32_small by lia.
    assert (E : (ch_type c =? CHUNK_TYPE_UNKNOWN) = false /\ (MAX_CHUNK_TYPE <=? ch_type c) = false) by (by destruct Hty as [-> |[-> |[-> _]]]).
    destruct E as [-> ->]. apply IH; lia.
Qed.

(** A header with a size of zero: the loop does not advance. *)
Lemma verify_loop_hangs hlayout mem z n i fuel :
  0 <= i < n -> n <= MAX_CHUNK -> heap_verify_chunk_header (pm_read mem (chunk_header_word hlayout z i)) = true ->
  hdr_size_idx (pm_read mem (chunk_header_word hlayout z i)) = 0 -> verify_loop hlayout fuel mem z n i = None.
Proof.
  intros Hi Hn Hv Hs. induction fuel as [|fuel IH]; [done|]. cbn [verify_loop]. unfold MAX_CHUNK, UINT16_MAX in *.
  rewrite (proj2 (Z.ltb_lt i n)), Hv, Hs, Z.add_0_r, u32_small by lia. done.
Qed.

(** [heap_verify_zone] accepts every zone that is a sequence of chunks, and every zone
    that has not been created, within one step for each chunk; but on a zone of which the
    first header is acceptable and has the size zero it does not terminate. *)
Theorem zone_verified hlayout mem z n l fuel :
  let zh := pm_read mem (zone_header_word hlayout z) in
  (zone_magic zh = 0 -> heap_verify_zone hlayout fuel mem z = Some 0) /\
  (zone_magic zh = ZONE_HEADER_MAGIC -> hdr_size_idx zh = n -> 1 <= n <= MAX_CHUNK -> n < Z.of_nat fuel ->
   tiles (fun i => pm_read mem (chunk_header_word hlayout z i)) n 0 l -> heap_verify_zone hlayout fuel mem z = Some 0) /\
  (zone_magic zh = ZONE_HEADER_MAGIC -> hdr_size_idx zh = n -> 1 <= n <= MAX_CHUNK ->
   heap_verify_chunk_header (pm_read mem (chunk_header_word hlayout z 0)) = true ->
   hdr_size_idx (pm_read mem (chunk_header_word hlayout z 0)) = 0 -> forall fuel', heap_verify_zone hlayout fuel' mem z = None).
Proof.
  intros zh. unfold heap_verify_zone, heap_verify_zone_header. fold zh. split_and!.
  - intros ->. done.
  - intros -> -> Hn Hf Ht. simpl. rewrite (proj2 (Z.eqb_neq n 0)) by lia. simpl.
    rewrite (verify_loop_tiles _ _ _ _ _ _ l) by (done || lia). simpl. by rewrite Z.eqb_refl.
  - intros -> -> Hn Hv Hs fuel'. simpl. rewrite (proj2 (Z.eqb_neq n 0)) by lia. simpl. rewrite verify_loop_hangs by (done || lia). done.
Qed.

(** ** Example: a zone of four chunks *)

(** A used chunk, a free one of two units and a run of units of 128 bytes. *)
Definition example_chunks : list chunk := [mkChunk 0 CHUNK_TYPE_USED 1; mkChunk 1 CHUNK_TYPE_FREE 2; mkChunk 3 CHUNK_TYPE_RUN 1].

Definition example_words (a : Z) : Z :=
  if a =? zone_header_word 0 0 then zone_word 4
  else if a =? chunk_header_word 0 0 0 then mk_header CHUNK_TYPE_USED 0 1
  else if a =? chunk_header_word 0 0 1 then mk_header CHUNK_TYPE_FREE 0 2
  else if a =? chunk_header_word 0 0 2 then mk_header CHUNK_TYPE_FOOTER 0 2
  else if a =? chunk_header_word 0 0 3 then mk_header CHUNK_TYPE_RUN 0 1
  else if a =? run_block_size_word (chunk_addr 0 0 3) then 128
  else 0.
Definition example_mem : pmem := fun a => mkCell (example_words a) [] 0.
Definition example_zones : zones := fun z => if z =? 0 then Some (4, example_chunks) else None.

Lemma example_tiles : tiles (fun i => pm_read example_mem (chunk_header_word 0 0 i)) 4 0 example_chunks.
Proof.
  repeat (constructor; simpl; try lia; try (vm_compute; reflexivity)); unfold chunk_type_ok; simpl; tauto.
Qed.

Lemma example_durable : durable_chunks 0 0 example_mem example_chunks.
Proof. intros c _. done. Qed.

(** The bucket with the free chunk. *)
Lemma example_bucket : exists t, heap_zones 0 example_zones example_mem t.
Proof.
  destruct (insert_block_spec (true, true) None (mkBlock 1 0 2 0) empty_ok) as (t & e & _ & Ht & Hor).
  { split; simpl; unfold MAX_CHUNK, UINT16_MAX; lia. }
  destruct Hor as [(_ & _ & Hx)|[(_ & _ & ?%empty_has)|(_ & _ & [?|?])]]; [|done..].
  assert (Hin : forall x, block_ok x -> has_block t x <-> x = mkBlock 1 0 2 0).
  { intros x Hx'. rewrite Hx by done. split; [by intros [?|?%empty_has]|by left]. }
  exists t. split; [done| |].
  - intros z n l E. unfold example_zones in E. destruct (Z.eqb_spec z 0) as [->|]; [|done]. injection E as <- <-.
    split; [unfold UINT16_MAX; lia|]. split; [unfold MAX_CHUNK, UINT16_MAX; lia|]. split.
    + split; [vm_compute; reflexivity|exact example_tiles|]. intros c Hc Hs. unfold example_chunks in Hc. rewrite !elem_of_cons, elem_of_nil in Hc.
      by destruct Hc as [->|[->|[->|?]]].
    + intros x Hxok Hxz. rewrite Hin by done. split; [intros ->; exists (mkChunk 1 CHUNK_TYPE_FREE 2); split_and!; [right; left|done|done]|].
      intros (c & Hc & Hf & ->). unfold example_chunks in Hc. rewrite !elem_of_cons, elem_of_nil in Hc. by destruct Hc as [->|[->|[->|?]]].
  - intros x Hxok Hh. apply Hin in Hh as ->; [|done]. by eexists.
Qed.

Lemma example_class : exists h, make_classes = Some h /\ classes_ok (cl_units h) h /\ 128 ∈ cl_units h.
Proof.
  destruct made_classes_ok as (h & E & Hh). exists h. split_and!; [done|done|].
  assert (Hc : (fun h => bool_decide (128 ∈ cl_units h)) <$> make_classes = Some true) by (vm_compute; reflexivity).
  rewrite E in Hc. injection Hc as Hc. by apply bool_decide_eq_true in Hc.
Qed.

Lemma zone_scan_exact_witness :
  exists h s' ops, make_classes = Some h /\
    heap_populate_buckets 0 (fun _ => (true, true)) 1 (2 ^ 30) 0 (mkFound h [] None) example_mem = Some ((0, 1, s'), ops) /\
    snd <$> f_active s' = [(3, 0)] /\ has_block (f_tree s') (mkBlock 1 0 2 0).
Proof.
  destruct example_class as (h & Eh & Hh & H128). exists h.
  destruct (zone_scan_exact 0 (cl_units h) (fun _ => (true, true)) 1 (2 ^ 30) 0 (mkFound h [] None) example_mem 4 example_chunks)
    as (s' & m1 & ops1 & ops & Em & Eo & E & _ & Hsc).
  - unfold UINT16_MAX. lia.
  - unfold MAX_CHUNK, UINT16_MAX. lia.
  - lia.
  - done.
  - exact Hh.
  - apply empty_ok.
  - right. split; [vm_compute; reflexivity|]. split; [vm_compute; reflexivity|exact example_tiles].
  - intros c Hc Hr _. unfold example_chunks in Hc. rewrite !elem_of_cons, elem_of_nil in Hc. destruct Hc as [->|[->|[->|[]]]]; [discriminate Hr..|].
    assert (E : pm_read example_mem (run_block_size_word (chunk_addr 0 0 3)) = 128) by (vm_compute; reflexivity). cbn [ch_at]. rewrite E. exact H128.
  - exists s', (ops1 ++ ops). split_and!; [done|exact E| |].
    + destruct (sc_active _ _ _ _ _ _ _ _ _ Hsc) as (new & -> & Hnew & _). rewrite app_nil_r, Hnew.
      assert (Emg : (zone_magic (pm_read example_mem (zone_header_word 0 0)) =? ZONE_HEADER_MAGIC) = true) by (vm_compute; reflexivity).
      rewrite Emg in Eo. rewrite Em, Eo. vm_compute. reflexivity.
    + apply (sc_tree _ _ _ _ _ _ _ _ _ Hsc); [split; simpl; unfold MAX_CHUNK, UINT16_MAX; lia|]. right.
      exists (mkChunk 1 CHUNK_TYPE_FREE 2). split_and!; [right; left|done|done].
Defined.

(** The free chunk is split; the used chunk before it is freed and merged with it; a zone
    is created in an empty memory. *)
Lemma zone_crash_safe_witness :
  (exists tree' ops, heap_resize_chunk 0 (true, true) None 1 0 1 example_mem = Some (tree', ops) /\
    forall j image, pm_crash (run (take j ops) example_mem) image ->
      tiles (fun i => image (chunk_header_word 0 0 i)) 4 0 example_chunks \/
      tiles (fun i => image (chunk_header_word 0 0 i)) 4 0
        [mkChunk 0 CHUNK_TYPE_USED 1; mkChunk 1 CHUNK_TYPE_FREE 1; mkChunk 2 CHUNK_TYPE_FREE 1; mkChunk 3 CHUNK_TYPE_RUN 1]) /\
  (exists ops, heap_zone_init 0 1 (2 ^ 20) 0 (pm_boot (fun _ => 0)) = Some (tt, ops)).
Proof.
  split.
  - destruct (zone_crash_safe 0 0 4 example_mem [mkChunk 0 CHUNK_TYPE_USED 1] [mkChunk 3 CHUNK_TYPE_RUN 1]) as (Hs & _ & _).
    + unfold UINT16_MAX. lia.
    + unfold MAX_CHUNK, UINT16_MAX. lia.
    + destruct (Hs (mkChunk 1 CHUNK_TYPE_FREE 2) 1 (true, true) None) as (tree' & ops & E & _ & _ & Hc).
      * exact example_tiles.
      * exact example_durable.
      * apply empty_ok.
      * simpl. lia.
      * exists tree', ops. split; [exact E|exact Hc].
  - destruct (zone_crash_safe 0 0 2 (pm_boot (fun _ => 0)) [] []) as (_ & _ & Hi).
    + unfold UINT16_MAX. lia.
    + unfold MAX_CHUNK, UINT16_MAX. lia.
    + destruct (Hi 1 (2 ^ 20)) as (ops & E & _).
      * vm_compute. reflexivity.
      * intros v Hv. unfold cand, pm_boot in Hv. simpl in Hv. apply list_elem_of_singleton in Hv as ->. vm_compute. discriminate.
      * exists ops. exact E.
Defined.

Definition example_pool : PMEMobjpool := mkPool 0 0 0 0 0 (2 ^ 20) 0 0.

(** One of the two free units is allocated; the used chunk is freed, and merged with the
    free one after it. *)
Lemma huge_alloc_free_exact_witness :
  exists t b t' ops t1 t2 ctx, take_from_huge 0 (true, true) t 1 example_mem = Some ((0, b, t'), ops) /\
    heap_free_block 0 (Some (8, t)) (mkBlock 0 0 1 0) (Some (operation_init example_pool 0 (replicate 20 (mkEntry 0 0 OPERATION_SET)))) example_mem =
      Some (mkBlock 0 0 3 0, Some (8, t1), Some ctx) /\ bucket_tree_insert_block (true, true) t1 (mkBlock 0 0 3 0) = Some (t2, 0).
Proof.
  destruct example_bucket as [t Ht].
  destruct (huge_alloc_free_exact 0 example_zones 8 (true, true) example_mem t example_pool 0 (replicate 20 (mkEntry 0 0 OPERATION_SET))) as [Ha Hf].
  - exact Ht.
  - done.
  - done.
  - done.
  - intros z n l i E Hi. unfold example_zones in E. destruct (Z.eqb_spec z 0) as [->|]; [|discriminate E]. injection E as <- <-.
    assert (i = 0 \/ i = 1 \/ i = 2 \/ i = 3) as [->|[->|[->| ->]]] by lia; vm_compute; reflexivity.
  - destruct (Ha 1) as (err & b & t' & ops & E & [(-> & _)|(_ & _ & _ & Hno)]); [unfold UINT16_MAX; lia| |].
    + destruct (Hf 0 4 [] (mkChunk 0 CHUNK_TYPE_USED 1) [mkChunk 1 CHUNK_TYPE_FREE 2; mkChunk 3 CHUNK_TYPE_RUN 1]) as
        (la & lb & t1 & t2 & ctx & ops' & _ & _ & Ef & _ & Ei & _); [reflexivity|reflexivity|].
      exists t, b, t', ops, t1, t2, ctx. split; [exact E|]. split; [exact Ef|exact Ei].
    + exfalso. assert (Hlt : 2 < 1); [|lia]. apply (Hno 0 4 example_chunks (mkChunk 1 CHUNK_TYPE_FREE 2)); [reflexivity|right; left|reflexivity].
Defined.

Lemma zone_verified_witness :
  heap_verify_zone 0 5 example_mem 0 = Some 0 /\
  forall fuel, heap_verify_zone 0 fuel (fun a => if a =? zone_header_word 0 0 then mkCell (zone_word 4) [] 0
                                       else mkCell (mk_header CHUNK_TYPE_FREE 0 0) [] 0) 0 = None.
Proof.
  split.
  - destruct (zone_verified 0 example_mem 0 4 example_chunks 5) as (_ & H & _).
    apply H; [vm_compute; reflexivity|vm_compute; reflexivity|unfold MAX_CHUNK, UINT16_MAX; lia|lia|exact example_tiles].
  - intros fuel. set (m := fun a : Z => _). destruct (zone_verified 0 m 0 4 [] 5) as (_ & _ & H).
    apply H; [vm_compute; reflexivity|vm_compute; reflexivity|unfold MAX_CHUNK, UINT16_MAX; lia|vm_compute; reflexivity|vm_compute; reflexivity].
Defined.
