(* ===== verification/HeapCreate.v ===== *)
(** * Runs: creation and reuse

    The functions of [nvml/src/libpmemobj/heap.c] that make a run out of a free chunk
    ([heap_init_run], [heap_create_run]) and that take a run into use that an earlier
    execution left ([heap_reuse_run]).

    The main result: a crash while a run is created leaves the free chunk or a complete
    run with all its units free; once it is created, the bucket holds the free blocks of
    the run in addition to those it held before. *)

From S2P Require Import Prelude Pmem Programs Redo RedoProofs Memops Ctree Bucket HeapLayout HeapRun Memblock MemblockRun HeapZone HeapZoneProofs HeapHuge.

Local Open Scope pmtest_scope.

(** A function of the memory that can fail. *)
Definition ask {A} (f : pmem -> option A) : prog A := fun m => (fun x => (x, [])) <$> f m.

Lemma bind_assoc {A B C} (p : prog A) (f : A -> prog B) (g : B -> prog C) m : bind (bind p f) g m = bind p (fun x => bind (f x) g) m.
Proof.
  unfold bind. destruct (p m) as [[x ops]|]; [|done]. simpl. destruct (f x (run ops m)) as [[y ops']|]; [|done]. simpl.
  rewrite run_app. destruct (g y _) as [[w ops'']|]; [|done]. simpl. by rewrite app_assoc.
Qed.

(** [memset] of [n] words. *)
Fixpoint set_words (n : nat) (a v : Z) : prog unit :=
  match n with
  | O => ret tt
  | S n => store a v;; set_words n (a + 8) v
  end.

(** The header with another type: a store to its first two bytes. *)
Definition with_type (w type : Z) : Z := type + w / 2 ^ 16 * 2 ^ 16.

Section Create.
Context (hlayout : Z).

Definition heap_set_run_bucket (run b : Z) : prog unit := store (run_bucket_vptr run) b.

Definition heap_init_run (b : bucket) (hdr run : Z) : prog unit :=
  check (bool_decide (b_type b = BUCKET_RUN));;
  store (run_block_size_word run) (b_unit_size b);;
  persist (run_block_size_word run) 8;;
  let! w := read hdr in
  check (hdr_type w =? CHUNK_TYPE_FREE);;
  set_words (Z.to_nat MAX_BITMAP_VALUES) (run_bitmap_word run 0) UINT64_ALL;;
  check (0 <? b_bitmap_nval b);;
  set_words (Z.to_nat (b_bitmap_nval b - 1)) (run_bitmap_word run 0) 0;;
  store (run_bitmap_word run (b_bitmap_nval b - 1)) (b_bitmap_lastval b);;
  persist (run_bitmap_word run 0) (8 * MAX_BITMAP_VALUES);;
  let! w := read hdr in
  store hdr (with_type w CHUNK_TYPE_RUN);;
  persist hdr 8.

(** [heap_process_run_metadata] with its insertions: the container of the bucket after. *)
Definition process_run (mallocs : nat -> bool * bool) (b : bucket) (chunk_id zone_id : Z) : prog ctree :=
  check (bool_decide (b_type b = BUCKET_RUN));;
  ask (fun m =>
    bs ← heap_process_run_metadata (b_bitmap_nval b) (b_bitmap_nallocs b) (b_unit_max b)
           (pm_read m (run_block_size_word (chunk_addr hlayout zone_id chunk_id))) (memory_bitmaps hlayout m (chunk_id, zone_id)) chunk_id zone_id;
    insert_blocks mallocs (b_tree b) bs).

(** [ptr] is the address of the bucket. *)
Definition heap_create_run (mallocs : nat -> bool * bool) (b : bucket) (ptr chunk_id zone_id : Z) : prog ctree :=
  let hdr := chunk_header_word hlayout zone_id chunk_id in
  let run := chunk_addr hlayout zone_id chunk_id in
  let! w := read hdr in
  check (hdr_size_idx w =? 1);;
  check (hdr_type w =? CHUNK_TYPE_FREE);;
  heap_set_run_bucket run ptr;;
  heap_init_run b hdr run;;
  process_run mallocs b chunk_id zone_id.

Definition heap_reuse_run (mallocs : nat -> bool * bool) (b : bucket) (ptr chunk_id zone_id : Z) : prog ctree :=
  let hdr := chunk_header_word hlayout zone_id chunk_id in
  let run := chunk_addr hlayout zone_id chunk_id in
  let! w := read hdr in
  if negb (hdr_type w =? CHUNK_TYPE_RUN) then ret (b_tree b)
  else
    let! vptr := read (run_bucket_vptr run) in
    if negb (vptr =? 0) then ret (b_tree b)
    else
      heap_set_run_bucket run ptr;;
      check (hdr_size_idx w =? 1);;
      let! block_size := read (run_block_size_word run) in
      check (b_unit_size b =? block_size);;
      process_run mallocs b chunk_id zone_id.

(** ** The operations of a creation *)

Fixpoint set_ops (n : nat) (a v : Z) : list pm_op :=
  match n with
  | O => []
  | S n => Store a v :: set_ops n (a + 8) v
  end.

Lemma set_words_runs n a v m : set_words n a v m = Some (tt, set_ops n a v).
Proof. revert a m. induction n as [|n IH]; intros a m; [done|]. simpl. unfold bind, store, emit. simpl. by rewrite IH. Qed.

Lemma set_ops_store n a v x w : Store x w ∈ set_ops n a v -> exists i, 0 <= i < Z.of_nat n /\ x = a + 8 * i /\ w = v.
Proof.
  revert a. induction n as [|n IH]; intros a; simpl; [by intros ?%elem_of_nil|]. intros [[= -> ->]|H]%elem_of_cons; [exists 0; lia|].
  destruct (IH _ H) as (i & Hi & -> & ->). exists (i + 1). lia.
Qed.

Lemma set_ops_read n a v m i : 0 <= i < Z.of_nat n -> pm_read (run (set_ops n a v) m) (a + 8 * i) = v.
Proof.
  revert a m i. induction n as [|n IH]; intros a m i Hi; [lia|]. cbn [set_ops]. rewrite pm_run_cons. destruct (Z.eq_dec i 0) as [->|Hne].
  - rewrite no_store_read; [simpl; rewrite Z.add_0_r; apply pm_read_store_eq|]. intros w Hw. apply set_ops_store in Hw as (j & Hj & E & _). lia.
  - replace (a + 8 * i) with (a + 8 + 8 * (i - 1)) by lia. apply IH. lia.
Qed.

(** Everything before the type of the chunk is changed, and the rest. *)
Definition fill_ops (b : bucket) (ptr run : Z) : list pm_op :=
  [Store (run_bucket_vptr run) ptr; Store (run_block_size_word run) (b_unit_size b); Flush (run_block_size_word run) 8; Fence] ++
  set_ops (Z.to_nat MAX_BITMAP_VALUES) (run_bitmap_word run 0) UINT64_ALL ++
  set_ops (Z.to_nat (b_bitmap_nval b - 1)) (run_bitmap_word run 0) 0 ++
  [Store (run_bitmap_word run (b_bitmap_nval b - 1)) (b_bitmap_lastval b); Flush (run_bitmap_word run 0) (8 * MAX_BITMAP_VALUES); Fence].
Definition type_ops (hdr : Z) : list pm_op := [Store hdr (mk_header CHUNK_TYPE_RUN 0 1); Flush hdr 8; Fence].

(** The numbers of the bucket are those [bucket_run_create] computes. *)
Record run_bucket_ok (b : bucket) : Prop := {
  rbo_type : b_type b = BUCKET_RUN;
  rbo_unit : MIN_RUN_SIZE <= b_unit_size b <= RUNSIZE;
  rbo_max : b_unit_max b = RUN_UNIT_MAX;
  rbo_numbers : bucket_run_create (b_unit_size b) = Some (b_bitmap_nallocs b, b_bitmap_nval b, b_bitmap_lastval b);
}.

Lemma numbers_ok b : run_bucket_ok b ->
  b_bitmap_nallocs b = RUN_NALLOCS (b_unit_size b) /\ 1 <= b_bitmap_nval b <= MAX_BITMAP_VALUES /\
  BITS_PER_VALUE * (b_bitmap_nval b - 1) < b_bitmap_nallocs b <= BITS_PER_VALUE * b_bitmap_nval b /\ 0 <= b_bitmap_lastval b < 2 ^ 64 /\
  forall i, 0 <= i < BITS_PER_VALUE -> Z.testbit (b_bitmap_lastval b) i = (b_bitmap_nallocs b <=? BITS_PER_VALUE * (b_bitmap_nval b - 1) + i).
Proof.
  intros [_ Hu _ E]. destruct (run_create_spec (b_unit_size b) Hu) as (nval & lastval & E' & H). rewrite E' in E. injection E as <- <- <-. done.
Qed.

(** The values of the bitmap of a new run. *)
Definition new_value_of (b : bucket) (i : Z) : Z :=
  if i =? b_bitmap_nval b - 1 then b_bitmap_lastval b else if i <? b_bitmap_nval b - 1 then 0 else UINT64_ALL.

Lemma new_value_range b i : run_bucket_ok b -> 0 <= new_value_of b i < 2 ^ 64.
Proof.
  intros H. destruct (numbers_ok b H) as (_ & _ & _ & Hl & _). unfold new_value_of, UINT64_ALL. destruct (_ =? _); [done|]. destruct (_ <? _); lia.
Qed.

Lemma new_run_free b p : run_bucket_ok b -> 0 <= p < RUN_BITMAP_SIZE -> used_unit (new_value_of b) p = (b_bitmap_nallocs b <=? p).
Proof.
  intros H Hp. destruct (numbers_ok b H) as (_ & Hn & Ha & Hl & Hb). unfold used_unit, new_value_of, RUN_BITMAP_SIZE, MAX_BITMAP_VALUES, MAX_CACHELINE_ALIGNMENT, BITS_PER_VALUE in *.
  pose proof (Z.div_mod p 64 ltac:(lia)) as Hdm. pose proof (Z.mod_pos_bound p 64 ltac:(lia)) as Hmb.
  destruct (Z.eqb_spec (p / 64) (b_bitmap_nval b - 1)) as [E|E].
  - rewrite Hb by lia. f_equal. lia.
  - destruct (Z.ltb_spec (p / 64) (b_bitmap_nval b - 1)).
    + rewrite Z.bits_0. symmetry. apply Z.leb_gt. lia.
    + replace UINT64_ALL with (Z.ones 64) by done. rewrite Z.ones_spec_low by lia. symmetry. apply Z.leb_le. lia.
Qed.

(** ** Addresses *)

Lemma zone_split z z' x x' :
  zone_addr hlayout z + x = zone_addr hlayout z' + x' -> 0 <= x < ZONE_MAX_SIZE -> 0 <= x' < ZONE_MAX_SIZE -> z = z' /\ x = x'.
Proof. unfold zone_addr, zone_start. intros E Hx Hx'. assert (z = z') by nia. subst. lia. Qed.

Lemma zone_max : ZONE_MAX_SIZE = 64 + 8 * MAX_CHUNK + CHUNKSIZE * MAX_CHUNK.
Proof. done. Qed.

(** A word of a chunk is a word of that chunk only. *)
Lemma chunk_split z c k z' c' k' :
  chunk_addr hlayout z c + k = chunk_addr hlayout z' c' + k' ->
  0 <= c < MAX_CHUNK -> 0 <= c' < MAX_CHUNK -> 0 <= k < CHUNKSIZE -> 0 <= k' < CHUNKSIZE -> z = z' /\ c = c' /\ k = k'.
Proof.
  unfold chunk_addr. intros E Hc Hc' Hk Hk'. pose proof zone_max. unfold sizeof_zone, sizeof_zone_header, sizeof_chunk_header, MAX_CHUNK, UINT16_MAX, CHUNKSIZE in *.
  destruct (zone_split z z' (64 + 8 * (65535 - 7) + 1024 * 256 * c + k) (64 + 8 * (65535 - 7) + 1024 * 256 * c' + k')) as [-> E']; lia.
Qed.

Lemma header_not_chunk z i z' c k :
  0 <= i < MAX_CHUNK -> 0 <= c < MAX_CHUNK -> 0 <= k < CHUNKSIZE -> chunk_header_word hlayout z i <> chunk_addr hlayout z' c + k.
Proof.
  unfold chunk_header_word, chunk_addr. intros Hi Hc Hk E. pose proof zone_max. unfold sizeof_zone, sizeof_zone_header, sizeof_chunk_header, MAX_CHUNK, UINT16_MAX, CHUNKSIZE in *.
  destruct (zone_split z z' (64 + 8 * i) (64 + 8 * (65535 - 7) + 1024 * 256 * c + k)) as [-> E']; lia.
Qed.

Lemma zone_header_not_chunk z z' c k :
  0 <= c < MAX_CHUNK -> 0 <= k < CHUNKSIZE -> zone_header_word hlayout z <> chunk_addr hlayout z' c + k.
Proof.
  unfold zone_header_word, chunk_addr. intros Hc Hk E. pose proof zone_max. unfold sizeof_zone, sizeof_zone_header, sizeof_chunk_header, MAX_CHUNK, UINT16_MAX, CHUNKSIZE in *.
  destruct (zone_split z z' 0 (64 + 8 * (65535 - 7) + 1024 * 256 * c + k)) as [-> E']; lia.
Qed.

(** ** The words of a new run *)

(** The bitmap lies behind the two other words. *)
Lemma bitmap_word r i : run_bitmap_word r i = run_bitmap_word r 0 + 8 * i.
Proof. unfold run_bitmap_word. lia. Qed.

Lemma fill_store b ptr r a v : run_bucket_ok b -> Store a v ∈ fill_ops b ptr r -> exists k, 0 <= k < RUN_METASIZE /\ a = r + k.
Proof.
  intros H. destruct (numbers_ok b H) as (_ & Hn & _). unfold fill_ops. change RUN_METASIZE with 320. change MAX_BITMAP_VALUES with 38 in *.
  rewrite !elem_of_app. intros [Hs|[Hs|[Hs|Hs]]].
  - rewrite !elem_of_cons, elem_of_nil in Hs. unfold run_bucket_vptr, run_block_size_word in Hs.
    destruct Hs as [[= -> _]|[[= -> _]|[?|[?|?]]]]; try done; [exists 8|exists 0]; lia.
  - apply set_ops_store in Hs as (i & Hi & -> & _). unfold run_bitmap_word. exists (16 + 8 * i). lia.
  - apply set_ops_store in Hs as (i & Hi & -> & _). unfold run_bitmap_word. exists (16 + 8 * i). lia.
  - rewrite !elem_of_cons, elem_of_nil in Hs. destruct Hs as [[= -> _]|[?|[?|?]]]; try done. unfold run_bitmap_word. exists (16 + 8 * (b_bitmap_nval b - 1)). lia.
Qed.

Lemma fill_bitmap b ptr r m i : run_bucket_ok b -> 0 <= i < MAX_BITMAP_VALUES ->
  pm_read (run (fill_ops b ptr r) m) (run_bitmap_word r i) = new_value_of b i /\ pm_durable (run (fill_ops b ptr r) m) (run_bitmap_word r i).
Proof.
  intros H Hi. destruct (numbers_ok b H) as (_ & Hn & _). unfold fill_ops. rewrite !app_assoc, run_app.
  set (m1 := run (_ ++ set_ops (Z.to_nat (b_bitmap_nval b - 1)) _ _) m). change MAX_BITMAP_VALUES with 38 in *. split.
  - simpl. rewrite pm_read_fence, pm_read_flush. unfold new_value_of. destruct (Z.eqb_spec i (b_bitmap_nval b - 1)) as [->|Hne]; [apply pm_read_store_eq|].
    rewrite pm_read_store_ne by (unfold run_bitmap_word; lia). unfold m1. rewrite run_app. rewrite (bitmap_word r i).
    destruct (Z.ltb_spec i (b_bitmap_nval b - 1)); [apply set_ops_read; lia|]. rewrite no_store_read.
    + rewrite run_app. apply set_ops_read. lia.
    + intros v (j & Hj & E & _)%set_ops_store. unfold run_bitmap_word in E. lia.
  - apply (persist_durable (pm_store m1 _ _) (run_bitmap_word r 0) (8 * 38)). unfold run_bitmap_word. lia.
Qed.

(** The rest of the operations does not store to the first two words. *)
Lemma fill_words b ptr r m : run_bucket_ok b ->
  pm_read (run (fill_ops b ptr r) m) (run_bucket_vptr r) = ptr /\
  pm_read (run (fill_ops b ptr r) m) (run_block_size_word r) = b_unit_size b /\ pm_durable (run (fill_ops b ptr r) m) (run_block_size_word r).
Proof.
  intros H. destruct (numbers_ok b H) as (_ & Hn & _). unfold fill_ops. rewrite run_app. set (m1 := run [_; _; _; _] m). set (rest := set_ops _ _ _ ++ _).
  assert (Hns : forall k, k < 16 -> no_store (r + k) rest).
  { intros k Hk v. unfold rest. rewrite !elem_of_app. intros [Hs|[Hs|Hs]].
    - apply set_ops_store in Hs as (i & Hi & E & _). unfold run_bitmap_word in E. lia.
    - apply set_ops_store in Hs as (i & Hi & E & _). unfold run_bitmap_word in E. lia.
    - rewrite !elem_of_cons, elem_of_nil in Hs. destruct Hs as [[= E _]|[?|[?|?]]]; try done. unfold run_bitmap_word in E. lia. }
  unfold run_block_size_word. pose proof (Hns 0 ltac:(lia)) as H0. rewrite Z.add_0_r in H0. unfold run_bucket_vptr.
  rewrite !no_store_read by (exact H0 || apply Hns; lia). split_and!.
  - unfold m1. simpl. rewrite pm_read_fence, pm_read_flush. unfold run_block_size_word. rewrite pm_read_store_ne by lia. apply pm_read_store_eq.
  - unfold m1. simpl. rewrite pm_read_fence, pm_read_flush. apply pm_read_store_eq.
  - apply no_store_durable; [done|]. unfold m1, run_block_size_word. apply (persist_durable (pm_store (pm_store m _ _) _ _) r 8). lia.
Qed.

(** ** Taking a run into use *)

Local Abbreviation memory_of m := (memory_bitmaps hlayout m).

(** A bucket stays exact when no bitmap of its runs changes. *)
Lemma exact_frame nallocs t (runs : Z * Z -> Prop) bm bm' :
  nallocs <= RUN_BITMAP_SIZE -> (forall c i, runs c -> 0 <= i < MAX_BITMAP_VALUES -> bm' c i = bm c i) ->
  bucket_exact RUN_UNIT_MAX nallocs t runs bm -> bucket_exact RUN_UNIT_MAX nallocs t runs bm'.
Proof.
  apply exact_ext; [done|by exists 8].
Qed.

Lemma process_run_spec mallocs b c z (runs : Z * Z -> Prop) m :
  run_bucket_ok b -> (forall k, mallocs k = (true, true)) -> 0 <= c < MAX_CHUNK -> 0 <= z < UINT16_MAX ->
  bucket_exact RUN_UNIT_MAX (b_bitmap_nallocs b) (b_tree b) runs (memory_of m) -> ~ runs (c, z) ->
  pm_read m (run_block_size_word (chunk_addr hlayout z c)) = b_unit_size b ->
  (forall i, 0 <= i < b_bitmap_nval b -> 0 <= memory_of m (c, z) i < 2 ^ 64) ->
  (forall p, b_bitmap_nallocs b <= p < BITS_PER_VALUE * b_bitmap_nval b -> used_unit (memory_of m (c, z)) p = true) ->
  exists t', process_run mallocs b c z m = Some (t', []) /\
    bucket_exact RUN_UNIT_MAX (b_bitmap_nallocs b) t' (fun x => x = (c, z) \/ runs x) (memory_of m).
Proof.
  intros Hb Hm Hc Hz Hex Hnew Hu Hv Hend. destruct (numbers_ok b Hb) as (En & Hn & Ha & _ & _). pose proof Hb as [Hty Hun Hum _].
  destruct (run_reuse_spec RUN_UNIT_MAX (b_bitmap_nallocs b) ltac:(done) ltac:(by exists 8)) with (mallocs := mallocs) (t := b_tree b) (runs := runs)
    (bm := memory_of m) (chunk := c) (zone := z) (unit_size := b_unit_size b) (nval := b_bitmap_nval b) as (bs & t' & E1 & E2 & Hex'); try done; try lia.
  { unfold MAX_BITMAP_VALUES, MAX_CACHELINE_ALIGNMENT, BITS_PER_VALUE, UINT16_MAX in *. lia. }
  exists t'. split; [|done]. unfold process_run, check, ask, bind. rewrite bool_decide_true by done. simpl. rewrite Hum, Hu. rewrite E1. simpl. by rewrite E2.
Qed.

Definition create_ops (b : bucket) (ptr c z : Z) : list pm_op :=
  fill_ops b ptr (chunk_addr hlayout z c) ++ type_ops (chunk_header_word hlayout z c).

Lemma create_store b ptr c z a v : run_bucket_ok b -> Store a v ∈ create_ops b ptr c z ->
  a = chunk_header_word hlayout z c \/ exists k, 0 <= k < RUN_METASIZE /\ a = chunk_addr hlayout z c + k.
Proof.
  intros Hb. unfold create_ops, type_ops. rewrite elem_of_app, !elem_of_cons, elem_of_nil.
  intros [Hs|[[= -> _]|[?|[?|?]]]]; try done; [right; by eapply fill_store|by left].
Qed.

(** [heap_init_run] on a free chunk of one unit. *)
Lemma init_run_runs b c z m : run_bucket_ok b -> 0 <= c < MAX_CHUNK ->
  pm_read m (chunk_header_word hlayout z c) = mk_header CHUNK_TYPE_FREE 0 1 ->
  forall ptr, (heap_set_run_bucket (chunk_addr hlayout z c) ptr;; heap_init_run b (chunk_header_word hlayout z c) (chunk_addr hlayout z c)) m =
    Some (tt, create_ops b ptr c z).
Proof.
  intros Hb Hc Hw ptr. destruct (numbers_ok b Hb) as (_ & Hn & _). set (hdr := chunk_header_word hlayout z c) in *. set (r := chunk_addr hlayout z c).
  assert (Hns : no_store hdr (fill_ops b ptr r)).
  { intros v Hv. apply fill_store in Hv as (k & Hk & E); [|done]. apply (header_not_chunk z c z c k) in E; try done.
    unfold RUN_METASIZE, MAX_CACHELINE_ALIGNMENT, CHUNKSIZE in *. lia. }
  assert (Hns1 : forall x, x = run_bucket_vptr r \/ x = run_block_size_word r -> hdr <> x).
  { intros x Hx E. apply (header_not_chunk z c z c (x - r)); try done; [|fold hdr r; lia].
    unfold run_bucket_vptr, run_block_size_word, CHUNKSIZE in *. destruct Hx; lia. }
  enough (exists ops, (heap_set_run_bucket r ptr;; heap_init_run b hdr r) m = Some (tt, ops) /\ ops = create_ops b ptr c z) as (ops & E & ->) by done.
  eexists. split.
  - eapply bind_Some; [reflexivity|]. eapply bind_Some; [unfold check; rewrite bool_decide_true by apply Hb; reflexivity|]. eapply bind_Some; [reflexivity|].
    eapply bind_Some; [reflexivity|]. eapply bind_Some; [reflexivity|]. eapply bind_Some.
    { unfold check. simpl. rewrite pm_read_fence, pm_read_flush, !pm_read_store_ne by (apply Hns1; auto). rewrite Hw. reflexivity. }
    eapply bind_Some; [apply set_words_runs|]. eapply bind_Some; [unfold check; rewrite (proj2 (Z.ltb_lt 0 _)) by lia; reflexivity|].
    eapply bind_Some; [apply set_words_runs|]. eapply bind_Some; [reflexivity|]. eapply bind_Some; [reflexivity|]. eapply bind_Some; [reflexivity|].
    eapply bind_Some; reflexivity.
  - unfold create_ops. fold hdr r. unfold type_ops. rewrite <-!run_app.
    match goal with |- context [pm_read (run ?l m) hdr] => assert (El : l = fill_ops b ptr r) by (unfold fill_ops; rewrite <-?app_assoc; reflexivity) end.
    rewrite El, (no_store_read _ m hdr Hns), Hw. unfold fill_ops. rewrite <-?app_assoc. reflexivity.
Qed.

(** The words of a run that has been created. *)
Record new_run (f : Z -> Z) (b : bucket) (c z : Z) : Prop := {
  nr_size : f (run_block_size_word (chunk_addr hlayout z c)) = b_unit_size b;
  nr_bitmap i : 0 <= i < MAX_BITMAP_VALUES -> f (run_bitmap_word (chunk_addr hlayout z c) i) = new_value_of b i;
}.

Lemma meta_in_chunk k : 0 <= k < RUN_METASIZE -> 0 <= k < CHUNKSIZE.
Proof. unfold RUN_METASIZE, MAX_CACHELINE_ALIGNMENT, CHUNKSIZE. lia. Qed.

Lemma bitmap_in_meta i : 0 <= i < MAX_BITMAP_VALUES -> 0 <= 16 + 8 * i < RUN_METASIZE.
Proof. unfold RUN_METASIZE, MAX_BITMAP_VALUES, MAX_CACHELINE_ALIGNMENT. lia. Qed.

Lemma type_no_store c z k : 0 <= c < MAX_CHUNK -> 0 <= k < RUN_METASIZE -> no_store (chunk_addr hlayout z c + k) (type_ops (chunk_header_word hlayout z c)).
Proof.
  intros Hc Hk v. unfold type_ops. rewrite !elem_of_cons, elem_of_nil. intros [[= E _]|[?|[?|?]]]; try done. symmetry in E.
  apply header_not_chunk in E; try done. by apply meta_in_chunk.
Qed.

Lemma fill_no_header b ptr c z z' i : run_bucket_ok b -> 0 <= c < MAX_CHUNK -> 0 <= i < MAX_CHUNK ->
  no_store (chunk_header_word hlayout z' i) (fill_ops b ptr (chunk_addr hlayout z c)).
Proof.
  intros Hb Hc Hi v Hv. apply fill_store in Hv as (k & Hk & E); [|done]. apply header_not_chunk in E; try done. by apply meta_in_chunk.
Qed.

(** The words of the run while its type is being changed. *)
Lemma created_words b ptr c z m j : run_bucket_ok b -> 0 <= c < MAX_CHUNK ->
  let m' := run (take j (type_ops (chunk_header_word hlayout z c))) (run (fill_ops b ptr (chunk_addr hlayout z c)) m) in
  new_run (pm_read m') b c z /\ pm_durable m' (run_block_size_word (chunk_addr hlayout z c)) /\
  (forall i, 0 <= i < MAX_BITMAP_VALUES -> pm_durable m' (run_bitmap_word (chunk_addr hlayout z c) i)) /\
  pm_read m' (run_bucket_vptr (chunk_addr hlayout z c)) = ptr.
Proof.
  intros Hb Hc m'. unfold m'. clear m'. set (r := chunk_addr hlayout z c). destruct (fill_words b ptr r m Hb) as (F1 & F2 & F3).
  assert (Hns : forall k, 0 <= k < RUN_METASIZE -> no_store (r + k) (take j (type_ops (chunk_header_word hlayout z c)))) by (intros k Hk; apply no_store_take; by apply type_no_store).
  assert (H0 : no_store (run_block_size_word r) (take j (type_ops (chunk_header_word hlayout z c)))) by (unfold run_block_size_word; rewrite <-(Z.add_0_r r); by apply Hns).
  assert (Hi : forall i, 0 <= i < MAX_BITMAP_VALUES -> no_store (run_bitmap_word r i) (take j (type_ops (chunk_header_word hlayout z c)))).
  { intros i Hi. unfold run_bitmap_word. rewrite <-Z.add_assoc. by apply Hns, bitmap_in_meta. }
  split_and!.
  - split; [by rewrite no_store_read|]. intros i Hi'. rewrite no_store_read by by apply Hi. by apply fill_bitmap.
  - by apply no_store_durable.
  - intros i Hi'. apply no_store_durable; [by apply Hi|]. by apply fill_bitmap.
  - rewrite no_store_read; [done|]. by apply (Hns 8).
Qed.

(** A crash during the creation leaves the headers as they were, or the new run. *)
Lemma create_crash b ptr c z m j image : run_bucket_ok b -> 0 <= c < MAX_CHUNK ->
  pm_crash (run (take j (create_ops b ptr c z)) m) image ->
  (forall z' i, 0 <= i < MAX_CHUNK -> pm_durable m (chunk_header_word hlayout z' i) -> image (chunk_header_word hlayout z' i) = pm_read m (chunk_header_word hlayout z' i)) \/
  (forall z' i, 0 <= i < MAX_CHUNK -> pm_durable m (chunk_header_word hlayout z' i) ->
     image (chunk_header_word hlayout z' i) = if decide (chunk_header_word hlayout z' i = chunk_header_word hlayout z c) then mk_header CHUNK_TYPE_RUN 0 1 else pm_read m (chunk_header_word hlayout z' i)) /\
  new_run image b c z.
Proof.
  intros Hb Hc Hcr. unfold create_ops in Hcr. set (A := fill_ops _ _ _) in Hcr. set (B := type_ops _) in Hcr.
  assert (HA : forall z' i, 0 <= i < MAX_CHUNK -> no_store (chunk_header_word hlayout z' i) A) by (intros; by apply fill_no_header).
  destruct (take_app_cases j A B) as [E|[q E]]; rewrite E in Hcr.
  - left. intros z' i Hi Hd. rewrite <-(no_store_read (take j A) m) by by apply no_store_take, HA. apply durable_image; [|done].
    apply no_store_durable; [by apply no_store_take, HA|done].
  - rewrite run_app in Hcr. destruct (created_words b ptr c z m q Hb Hc) as ([N1 N2] & D1 & D2 & _). fold A B in N1, N2, D1, D2.
    assert (Hother : forall z' i, 0 <= i < MAX_CHUNK -> pm_durable m (chunk_header_word hlayout z' i) -> chunk_header_word hlayout z' i <> chunk_header_word hlayout z c ->
      image (chunk_header_word hlayout z' i) = pm_read m (chunk_header_word hlayout z' i)).
    { intros z' i Hi Hd Hne. assert (HB : no_store (chunk_header_word hlayout z' i) (take q B)).
      { apply no_store_take. intros v. unfold B, type_ops. rewrite !elem_of_cons, elem_of_nil. intros [[= E' _]|[?|[?|?]]]; done. }
      rewrite (durable_image (run (take q B) (run A m)) _ image), !no_store_read; try done; [by apply HA|].
      apply no_store_durable; [done|]. apply no_store_durable; [by apply HA|done]. }
    assert (Hnew : new_run image b c z) by (split; [rewrite <-N1; by apply durable_image|intros i Hi; rewrite <-N2 by done; apply durable_image; [by apply D2|done]]).
    destruct (run_cand _ _ _ _ (Hcr (chunk_header_word hlayout z c))) as [Hv|Hv].
    + left. intros z' i Hi Hd. destruct (decide (chunk_header_word hlayout z' i = chunk_header_word hlayout z c)) as [Eh|Hne]; [|by apply Hother].
      rewrite Eh in *. apply no_store_cand in Hv; [|by apply HA]. by apply durable_cand in Hv.
    + right. split; [|done]. intros z' i Hi Hd. case_decide as Eh; [rewrite Eh in *|by apply Hother].
      apply elem_of_take in Hv as (k & Hk & _). apply list_elem_of_lookup_2 in Hk. unfold B, type_ops in Hk.
      rewrite !elem_of_cons, elem_of_nil in Hk. by destruct Hk as [[= ->]|[?|[?|?]]].
Qed.

Definition run_chunk (c : chunk) : chunk := mkChunk (ch_at c) CHUNK_TYPE_RUN 1.

Lemma create_written b ptr c z m : run_bucket_ok b -> 0 <= ch_at c < MAX_CHUNK ->
  chunk_written hlayout z m (run (create_ops b ptr (ch_at c) z) m) (run_chunk c).
Proof.
  intros Hb Hc. unfold create_ops. set (A := fill_ops _ _ _). set (B := type_ops _).
  assert (HA : forall z' i, 0 <= i < MAX_CHUNK -> no_store (chunk_header_word hlayout z' i) A) by (intros; by apply fill_no_header).
  split.
  - intros z'. apply no_store_read. intros v Hv. apply create_store in Hv as [E|(k & Hk & E)]; [| |done].
    + symmetry in E. by apply zone_header_ne in E.
    + apply zone_header_not_chunk in E; [done|done|by apply meta_in_chunk].
  - rewrite run_app. simpl. by rewrite pm_read_fence, pm_read_flush, pm_read_store_eq.
  - done.
  - intros z' i Hi Hne. rewrite run_app, !no_store_read; [done|by apply HA|]. intros v. unfold B, type_ops. rewrite !elem_of_cons, elem_of_nil.
    intros [[= E _]|[?|[?|?]]]; try done. destruct (decide (z' = z)) as [->|Hz]; [|by apply zone_words_ne in E]. apply header_inj in E. by destruct (Hne eq_refl).
Qed.

Lemma create_run_spec mallocs b ptr c z m (runs : Z * Z -> Prop) :
  run_bucket_ok b -> (forall k, mallocs k = (true, true)) -> 0 <= c < MAX_CHUNK -> 0 <= z < UINT16_MAX ->
  pm_read m (chunk_header_word hlayout z c) = mk_header CHUNK_TYPE_FREE 0 1 ->
  bucket_exact RUN_UNIT_MAX (b_bitmap_nallocs b) (b_tree b) runs (memory_of m) -> ~ runs (c, z) -> (forall x, runs x -> 0 <= x.1 < MAX_CHUNK) ->
  exists t', heap_create_run mallocs b ptr c z m = Some (t', create_ops b ptr c z) /\
    bucket_exact RUN_UNIT_MAX (b_bitmap_nallocs b) t' (fun x => x = (c, z) \/ runs x) (memory_of (run (create_ops b ptr c z) m)).
Proof.
  intros Hb Hm Hc Hz Hw Hex Hnew Hruns. set (m' := run (create_ops b ptr c z) m). destruct (numbers_ok b Hb) as (En & Hn & Ha & _ & _).
  assert (Em : m' = run (take 3 (type_ops (chunk_header_word hlayout z c))) (run (fill_ops b ptr (chunk_addr hlayout z c)) m)) by (unfold m', create_ops; by rewrite run_app).
  destruct (created_words b ptr c z m 3 Hb Hc) as ([N1 N2] & _). rewrite <-Em in N1, N2.
  assert (Hbits : forall p, 0 <= p < RUN_BITMAP_SIZE -> used_unit (memory_of m' (c, z)) p = (b_bitmap_nallocs b <=? p)).
  { intros p Hp. rewrite <-new_run_free by done. unfold used_unit, memory_bitmaps. simpl. f_equal. apply N2.
    unfold RUN_BITMAP_SIZE, MAX_BITMAP_VALUES, MAX_CACHELINE_ALIGNMENT, BITS_PER_VALUE in *. split; [apply Z.div_pos; lia|apply Z.div_lt_upper_bound; lia]. }
  destruct (process_run_spec mallocs b c z runs m') as (t' & E & Hex'); try done.
  - eapply exact_frame; [| |exact Hex].
    + unfold RUN_BITMAP_SIZE, MAX_BITMAP_VALUES, MAX_CACHELINE_ALIGNMENT, BITS_PER_VALUE in *. lia.
    + intros [c' z'] i Hr Hi. unfold memory_bitmaps. apply no_store_read. intros v Hv. unfold run_bitmap_word in Hv. rewrite <-Z.add_assoc in Hv.
      pose proof (bitmap_in_meta i Hi) as Hi'. apply meta_in_chunk in Hi'. apply Hruns in Hr as Hr'. simpl in Hv, Hr'.
      apply create_store in Hv as [E|(k & Hk & E)]; [| |done]; [symmetry in E; by apply header_not_chunk in E|].
      apply chunk_split in E as (-> & -> & _); try done. by apply meta_in_chunk.
  - intros i Hi. unfold memory_bitmaps. simpl. rewrite N2 by lia. by apply new_value_range.
  - intros p Hp. rewrite Hbits; [apply Z.leb_le; lia|]. unfold RUN_BITMAP_SIZE, MAX_BITMAP_VALUES, MAX_CACHELINE_ALIGNMENT, BITS_PER_VALUE in *. lia.
  - exists t'. split; [|done]. unfold heap_create_run. rewrite (bind_pure _ _ m (mk_header CHUNK_TYPE_FREE 0 1)) by (unfold read; by rewrite Hw).
    rewrite (bind_pure _ _ m tt), (bind_pure _ _ m tt) by done.
    rewrite <-bind_assoc, <-(app_nil_r (create_ops b ptr c z)). eapply bind_Some; [by apply init_run_runs|exact E].
Qed.

(** A run that is not in use by a bucket. *)
Record idle_run (b : bucket) (c z : Z) (m : pmem) : Prop := {
  ir_type : pm_read m (chunk_header_word hlayout z c) = mk_header CHUNK_TYPE_RUN 0 1;
  ir_vptr : pm_read m (run_bucket_vptr (chunk_addr hlayout z c)) = 0;
  ir_size : pm_read m (run_block_size_word (chunk_addr hlayout z c)) = b_unit_size b;
  ir_values i : 0 <= i < b_bitmap_nval b -> 0 <= memory_of m (c, z) i < 2 ^ 64;
  ir_end p : b_bitmap_nallocs b <= p < BITS_PER_VALUE * b_bitmap_nval b -> used_unit (memory_of m (c, z)) p = true;
}.

(** The pointer to the bucket is not part of a bitmap. *)
Lemma vptr_bitmaps c z ptr m x i : 0 <= c < MAX_CHUNK -> 0 <= x.1 < MAX_CHUNK -> 0 <= i < MAX_BITMAP_VALUES ->
  memory_of (run [Store (run_bucket_vptr (chunk_addr hlayout z c)) ptr] m) x i = memory_of m x i.
Proof.
  intros Hc Hx Hi. destruct x as [c' z']. unfold memory_bitmaps. simpl in *. apply pm_read_store_ne. intros E.
  unfold run_bitmap_word, run_bucket_vptr in E. rewrite <-Z.add_assoc in E. pose proof (bitmap_in_meta i Hi) as Hi'. apply meta_in_chunk in Hi'.
  apply chunk_split in E as (_ & _ & E); try done; lia.
Qed.

Lemma reuse_run_spec mallocs b ptr c z m (runs : Z * Z -> Prop) :
  run_bucket_ok b -> (forall k, mallocs k = (true, true)) -> 0 <= c < MAX_CHUNK -> 0 <= z < UINT16_MAX -> idle_run b c z m ->
  bucket_exact RUN_UNIT_MAX (b_bitmap_nallocs b) (b_tree b) runs (memory_of m) -> ~ runs (c, z) -> (forall x, runs x -> 0 <= x.1 < MAX_CHUNK) ->
  let ops := [Store (run_bucket_vptr (chunk_addr hlayout z c)) ptr] in
  exists t', heap_reuse_run mallocs b ptr c z m = Some (t', ops) /\
    bucket_exact RUN_UNIT_MAX (b_bitmap_nallocs b) t' (fun x => x = (c, z) \/ runs x) (memory_of (run ops m)).
Proof.
  intros Hb Hm Hc Hz [Ht Hp Hs Hv He] Hex Hnew Hruns ops. destruct (numbers_ok b Hb) as (En & Hn & Ha & _ & _).
  assert (Hbm : forall x i, 0 <= x.1 < MAX_CHUNK -> 0 <= i < MAX_BITMAP_VALUES -> memory_of (run ops m) x i = memory_of m x i) by (intros; by apply vptr_bitmaps).
  assert (Hsz : pm_read (run ops m) (run_block_size_word (chunk_addr hlayout z c)) = b_unit_size b).
  { rewrite <-Hs. apply pm_read_store_ne. unfold run_block_size_word, run_bucket_vptr. lia. }
  destruct (process_run_spec mallocs b c z runs (run ops m)) as (t' & E & Hex'); try done.
  - eapply exact_frame; [| |exact Hex]; [unfold RUN_BITMAP_SIZE, MAX_BITMAP_VALUES, MAX_CACHELINE_ALIGNMENT, BITS_PER_VALUE in *; lia|].
    intros x i Hr Hi. apply Hbm; [by apply Hruns|done].
  - intros i Hi. rewrite Hbm by (simpl; lia). by apply Hv.
  - intros p Hp'. rewrite <-(He p Hp'). unfold used_unit. rewrite Hbm; [done|done|].
    unfold BITS_PER_VALUE in *. split; [apply Z.div_pos; lia|]. apply Z.lt_le_trans with (b_bitmap_nval b); [apply Z.div_lt_upper_bound; lia|lia].
  - exists t'. split; [|done]. unfold heap_reuse_run. rewrite (bind_pure _ _ m (mk_header CHUNK_TYPE_RUN 0 1)) by (unfold read; by rewrite Ht).
    change (hdr_type (mk_header CHUNK_TYPE_RUN 0 1) =? CHUNK_TYPE_RUN) with true. cbn [negb]. rewrite (bind_pure _ _ m 0) by (unfold read; by rewrite Hp).
    cbn [negb Z.eqb]. rewrite <-(app_nil_r ops). eapply bind_Some; [done|]. fold ops. rewrite (bind_pure _ _ _ tt) by done.
    rewrite (bind_pure _ _ _ (b_unit_size b)) by (unfold read; by rewrite Hsz). rewrite (bind_pure _ _ _ tt) by (unfold check; by rewrite Z.eqb_refl). exact E.
Qed.

End Create.

(** ** Theorem *)

(** C32: making a run out of a free chunk is safe.  The bucket, which held exactly the free
    blocks of its runs, then holds exactly those of its runs and of the new one, all of
    whose units are free.  A crash at any point leaves the zone with the free chunk, or
    with a run that is complete: it has the unit size of the bucket, its units are free,
    and the bits behind its last unit are set. *)
Theorem run_create_safe hlayout mallocs b ptr z n l1 c l2 m runs :
  run_bucket_ok b -> (forall k, mallocs k = (true, true)) -> 0 <= z < UINT16_MAX -> n <= MAX_CHUNK ->
  zone_chunks hlayout z n m (l1 ++ c :: l2) -> durable_chunks hlayout z m (l1 ++ c :: l2) -> ch_type c = CHUNK_TYPE_FREE -> ch_size c = 1 ->
  bucket_exact RUN_UNIT_MAX (b_bitmap_nallocs b) (b_tree b) runs (memory_bitmaps hlayout m) ->
  ~ runs (ch_at c, z) -> (forall x, runs x -> 0 <= x.1 < MAX_CHUNK) ->
  let l' := l1 ++ run_chunk c :: l2 in
  exists t' ops, heap_create_run hlayout mallocs b ptr (ch_at c) z m = Some (t', ops) /\
    zone_chunks hlayout z n (run ops m) l' /\
    bucket_exact RUN_UNIT_MAX (b_bitmap_nallocs b) t' (fun x => x = (ch_at c, z) \/ runs x) (memory_bitmaps hlayout (run ops m)) /\
    forall j image, pm_crash (run (take j ops) m) image ->
      let images i := image (chunk_header_word hlayout z i) in
      let bitmap i := image (run_bitmap_word (chunk_addr hlayout z (ch_at c)) i) in
      tiles images n 0 (l1 ++ c :: l2) \/
      tiles images n 0 l' /\ image (run_block_size_word (chunk_addr hlayout z (ch_at c))) = b_unit_size b /\
      forall p, 0 <= p < RUN_BITMAP_SIZE -> used_unit bitmap p = (b_bitmap_nallocs b <=? p).
Proof.
  intros Hb Hm Hz Hn Hzc Hd Hf Hs Hex Hnew Hruns l'. destruct (tiles_split n _ _ _ _ (zc_tiles _ _ _ _ _ Hzc)) as (_ & _ & _ & B1 & B2 & B3 & Hw).
  destruct (create_run_spec hlayout mallocs b ptr (ch_at c) z m runs) as (t' & E & Hex'); try done; [lia|by rewrite Hw; unfold chunk_word; rewrite Hf, Hs|].
  exists t', (create_ops hlayout b ptr (ch_at c) z). split_and!; try done.
  - apply (write_zone hlayout z n Hz Hn m _ l1 [] c [] l2 (run_chunk c)); try done; [simpl; lia|right; right; done|apply create_written; [done|lia]].
  - intros j image Hcr images bitmap. pose proof (zc_tiles _ _ _ _ _ Hzc) as Ht.
    assert (Hin : forall c', c' ∈ l1 ++ c :: l2 -> 0 <= ch_at c' < MAX_CHUNK) by (intros c' Hc'; pose proof (tiles_bounds _ _ _ _ _ Ht Hc'); lia).
    destruct (create_crash hlayout b ptr (ch_at c) z m j image Hb ltac:(lia) Hcr) as [Hold|[Hnewh [N1 N2]]].
    + left. eapply tiles_ext; [|exact Ht]. intros c' Hc'. unfold images. apply Hold; [by apply Hin|by apply Hd].
    + right. split_and!; [|done|].
      * eapply (tiles_replace n _ images 0 l1 c [run_chunk c] l2); [exact Ht|..].
        { intros c' Hc'. destruct (tiles_others n _ _ _ _ _ Ht Hc') as [(J1 & J2 & J3) Hap].
          assert (Hel : c' ∈ l1 ++ c :: l2) by (apply elem_of_app in Hc' as [?|?]; apply elem_of_app; [by left|right; by right]).
          unfold images. rewrite Hnewh by (lia || by apply Hd). rewrite decide_False; [done|]. intros Eh%header_inj. lia. }
        rewrite Hs. apply tiles_chunk; try done; [|by right; right|constructor].
        unfold images. rewrite Hnewh by (lia || (apply Hd, elem_of_app; right; left)). by rewrite decide_True.
      * intros p Hp. rewrite <-new_run_free by done. unfold used_unit, bitmap. f_equal. apply N2.
        unfold RUN_BITMAP_SIZE, MAX_BITMAP_VALUES, MAX_CACHELINE_ALIGNMENT, BITS_PER_VALUE in *. split; [apply Z.div_pos; lia|apply Z.div_lt_upper_bound; lia].
Qed.

(** ** Example: the second chunk of a zone becomes a run of units of 128 bytes *)

Definition small_words (a : Z) : Z :=
  if a =? zone_header_word 0 0 then zone_word 2
  else if a =? chunk_header_word 0 0 0 then mk_header CHUNK_TYPE_USED 0 1
  else if a =? chunk_header_word 0 0 1 then mk_header CHUNK_TYPE_FREE 0 1
  else 0.
Definition small_mem : pmem := fun a => mkCell (small_words a) [] 0.
Definition small_bucket : bucket := mkBucket BUCKET_RUN 0 128 None 0xE000000000000000 32 2045 RUN_UNIT_MAX.

Lemma small_bucket_new : bucket_new (true, true, true) 0 BUCKET_RUN 128 RUN_UNIT_MAX = Some (Some small_bucket).
Proof. vm_compute. reflexivity. Qed.

Lemma small_bucket_ok : run_bucket_ok small_bucket.
Proof. split; [done|vm_compute; split; discriminate|done|vm_compute; reflexivity]. Qed.

Lemma small_zone : zone_chunks 0 0 2 small_mem ([mkChunk 0 CHUNK_TYPE_USED 1] ++ [mkChunk 1 CHUNK_TYPE_FREE 1]).
Proof.
  split; [vm_compute; reflexivity| |].
  - repeat (constructor; simpl; try lia; try (vm_compute; reflexivity)); unfold chunk_type_ok; simpl; tauto.
  - intros c Hc Hs. exfalso. rewrite elem_of_app, !list_elem_of_singleton in Hc. by destruct Hc as [-> | ->].
Qed.

Lemma run_create_safe_witness :
  exists t' ops, heap_create_run 0 (fun _ => (true, true)) small_bucket 4096 1 0 small_mem = Some (t', ops) /\
    zone_chunks 0 0 2 (run ops small_mem) [mkChunk 0 CHUNK_TYPE_USED 1; mkChunk 1 CHUNK_TYPE_RUN 1].
Proof.
  destruct (run_create_safe 0 (fun _ => (true, true)) small_bucket 4096 0 2 [mkChunk 0 CHUNK_TYPE_USED 1] (mkChunk 1 CHUNK_TYPE_FREE 1) [] small_mem (fun _ => False))
    as (t' & ops & E & Hz & _).
  - exact small_bucket_ok.
  - done.
  - unfold UINT16_MAX. lia.
  - unfold MAX_CHUNK, UINT16_MAX. lia.
  - exact small_zone.
  - intros c Hc. done.
  - done.
  - done.
  - apply empty_exact.
  - tauto.
  - tauto.
  - exists t', ops. split; [exact E|exact Hz].
Defined.
