(* ===== verification/MemblockCommit.v ===== *)
(** * Units of runs: allocation and freeing in memory

    What becomes of the bitmap of a run when a block of it is allocated or freed, from the
    code that changes it: [run_prep_operation_hdr] of [nvml/src/libpmemobj/memblock.c]
    makes the entry of the operation and [operation_process] of [memops.c] performs it.
    The main result: afterwards the bucket of the runs holds exactly the free blocks that
    the bitmaps in memory show. *)

From S2P Require Import Prelude Pmem Programs Redo RedoProofs Memops Ctree Bucket HeapLayout HeapRun Memblock MemblockRun HeapZone HeapZoneProofs HeapHuge HeapCreate.

Local Open Scope pmtest_scope.

Section Commit.
Context (hlayout : Z).

(** The word of the bitmap that has the units of [m]. *)
Definition word_of (m : memory_block) : Z := run_bitmap_word (run_of hlayout m) (block_off m / BITS_PER_VALUE).

(** An operation of one entry is one atomic store, made durable. *)
Lemma one_entry_process pop redo raw a v ty mem :
  length raw = 20%nat -> OBJ_PTR_IS_VALID pop a = true -> ty <> OPERATION_SET ->
  exists ctx, operation_add_entry (operation_init pop redo raw) a v ty mem = Some ctx /\
    operation_process ctx mem = Some (tt, [Store a (operation_perform (pm_read mem a) v ty); Flush a 8; Fence]).
Proof.
  intros Hraw Hv Hty.
  destruct (add_typed_holds (operation_init pop redo raw) (fun _ => []) ENTRY_PERSISTENT (mkEntry a v ty) mem (init_holds _ _ _ Hraw)) as (ctx & E & _ & _ & H); [simpl; lia|].
  exists ctx. split; [unfold operation_add_entry; simpl (ctx_pop _); by rewrite Hv|].
  pose proof H as [A1 A2 A3 A4]. unfold operation_process. rewrite A1. simpl (length _ =? 1)%nat. cbn iota.
  rewrite (A4 ENTRY_PERSISTENT 0%nat) by (simpl; lia). simpl ([_] !! 0%nat). cbn iota.
  rewrite (holds_listed _ _ ENTRY_TRANSIENT H). by destruct ty.
Qed.

Lemma run_prep_process m op pop redo raw mem :
  length raw = 20%nat -> OBJ_PTR_IS_VALID pop (word_of m) = true ->
  exists ctx, run_prep_operation_hdr hlayout m op (operation_init pop redo raw) mem = Some ctx /\
    operation_process ctx mem = Some (tt, [Store (word_of m)
      (if decide (op = HDR_OP_ALLOC) then Z.lor (pm_read mem (word_of m)) (run_bmask m)
       else Z.land (pm_read mem (word_of m)) (u64 (Z.lnot (run_bmask m)))); Flush (word_of m) 8; Fence]).
Proof. intros Hraw Hv. unfold run_prep_operation_hdr. fold (word_of m). case_decide; by apply one_entry_process. Qed.

Lemma word_index m : 0 <= block_off m -> in_value m -> block_off m + size_idx m <= RUN_BITMAP_SIZE ->
  0 <= block_off m / BITS_PER_VALUE < MAX_BITMAP_VALUES.
Proof.
  intros H0 [H1 _] He. unfold RUN_BITMAP_SIZE, MAX_BITMAP_VALUES, MAX_CACHELINE_ALIGNMENT, BITS_PER_VALUE in *.
  split; [apply Z.div_pos; lia|apply Z.div_lt_upper_bound; lia].
Qed.

Lemma bitmap_words c i c' i' :
  0 <= c.1 < MAX_CHUNK -> 0 <= c'.1 < MAX_CHUNK -> 0 <= i < MAX_BITMAP_VALUES -> 0 <= i' < MAX_BITMAP_VALUES ->
  run_bitmap_word (chunk_addr hlayout c.2 c.1) i = run_bitmap_word (chunk_addr hlayout c'.2 c'.1) i' -> c = c' /\ i = i'.
Proof.
  intros Hc Hc' Hi Hi' E. unfold run_bitmap_word in E. rewrite <-!Z.add_assoc in E.
  apply bitmap_in_meta, meta_in_chunk in Hi, Hi'. destruct c as [c z], c' as [c' z']. simpl in *.
  apply chunk_split in E as (-> & -> & E); [|done..]. split; [done|lia].
Qed.

(** The bitmaps in memory after a store to the word of [m]. *)
Lemma store_bitmaps m v mem c i :
  0 <= chunk_id m < MAX_CHUNK -> 0 <= block_off m / BITS_PER_VALUE < MAX_BITMAP_VALUES -> 0 <= c.1 < MAX_CHUNK -> 0 <= i < MAX_BITMAP_VALUES ->
  memory_bitmaps hlayout (run [Store (word_of m) v; Flush (word_of m) 8; Fence] mem) c i = with_value (memory_bitmaps hlayout mem) m v c i.
Proof.
  intros Hm Hb Hc Hi. unfold memory_bitmaps at 1. simpl. rewrite pm_read_fence, pm_read_flush. unfold with_value, set_value.
  destruct (decide (c = chunk_of m /\ i = block_off m / BITS_PER_VALUE)) as [[-> ->]|Hne].
  - rewrite decide_True, Z.eqb_refl by done. apply pm_read_store_eq.
  - rewrite pm_read_store_ne.
    + case_decide as E; [|done]. rewrite (proj2 (Z.eqb_neq i _)); [done|]. by intros ->; destruct Hne.
    + intros E. apply Hne. by apply (bitmap_words c i (chunk_of m) (block_off m / BITS_PER_VALUE)) in E.
Qed.

(** The same for the units. *)
Lemma store_units m v mem c p :
  0 <= chunk_id m < MAX_CHUNK -> 0 <= block_off m / BITS_PER_VALUE < MAX_BITMAP_VALUES -> 0 <= c.1 < MAX_CHUNK -> 0 <= p < RUN_BITMAP_SIZE ->
  used_unit (memory_bitmaps hlayout (run [Store (word_of m) v; Flush (word_of m) 8; Fence] mem) c) p =
  used_unit (with_value (memory_bitmaps hlayout mem) m v c) p.
Proof.
  intros Hm Hb Hc Hp. unfold used_unit. f_equal. apply store_bitmaps; try done.
  unfold RUN_BITMAP_SIZE, MAX_BITMAP_VALUES, MAX_CACHELINE_ALIGNMENT, BITS_PER_VALUE in *.
  split; [apply Z.div_pos; lia|apply Z.div_lt_upper_bound; lia].
Qed.

End Commit.

(** The units of the runs after the units of [m] have changed, in the way [f]. *)
Definition units_changed (runs : Z * Z -> Prop) (bm bm' : bitmaps) (m : memory_block) (f : (Z -> bool) -> Z -> Z -> Z -> bool) : Prop :=
  forall c p, runs c -> 0 <= p < RUN_BITMAP_SIZE ->
    used_unit (bm' c) p = if decide (c = chunk_of m) then f (used_unit (bm c)) (block_off m) (size_idx m) p else used_unit (bm c) p.

(** C37: allocating a block from the bucket of a run and freeing a block of a run keep the
    bucket and the bitmaps in memory in step.  An allocation takes units that are free and
    inside of the run; when the operation that [run_prep_operation_hdr] has prepared for it
    is processed, exactly these units have become used, in all runs of the bucket, and the
    bucket again holds exactly the free blocks; it fails only if no run has a free block
    that is large enough.  A block that is freed is merged with its free neighbours, which
    are in the bucket; when the operation that [heap_free_block] has prepared is processed,
    exactly the units of the freed block have become free, and with the merged block
    inserted the bucket again holds exactly the free blocks. *)
Theorem run_alloc_free_exact um nallocs hlayout mallocs t runs mem pop redo raw :
  0 < um -> (um | 64) -> um < 64 -> nallocs <= RUN_BITMAP_SIZE -> mallocs.1 = true -> mallocs.2 = true -> length raw = 20%nat ->
  (forall c, runs c -> 0 <= c.1 < MAX_CHUNK) ->
  (forall c i, runs c -> 0 <= i < MAX_BITMAP_VALUES -> OBJ_PTR_IS_VALID pop (run_bitmap_word (chunk_addr hlayout c.2 c.1) i) = true) ->
  let bm := memory_bitmaps hlayout mem in
  bucket_exact um nallocs t runs bm ->
  (forall units, 1 <= units <= UINT16_MAX ->
    exists err m t', take_from_run mallocs t units = Some (err, m, t') /\
      (err = 0 /\ size_idx m = units /\ runs (chunk_of m) /\
         (forall p, has_unit m p -> used_unit (bm (chunk_of m)) p = false /\ p < nallocs) /\
         (exists ctx ops, run_prep_operation_hdr hlayout m HDR_OP_ALLOC (operation_init pop redo raw) mem = Some ctx /\
            operation_process ctx mem = Some (tt, ops) /\
            let bm' := memory_bitmaps hlayout (run ops mem) in
            bucket_exact um nallocs t' runs bm' /\ units_changed runs bm bm' m or_range) \/
       err = ENOMEM /\ t' = t /\ forall x, block_ok x -> runs (chunk_of x) -> block_off x + size_idx x <= nallocs ->
         free_block um (used_unit (bm (chunk_of x))) x -> size_idx x < units)) /\
  (forall m, runs (chunk_of m) ->
    hdr_type (pm_read mem (chunk_header_word hlayout (zone_id m) (chunk_id m))) = CHUNK_TYPE_RUN ->
    run_block nallocs m -> used_block um (used_unit (bm (chunk_of m))) m ->
    (forall p, nallocs <= p < grp um (block_off m) + um -> used_unit (bm (chunk_of m)) p = true) ->
    exists rb t' t'' ctx ops,
      heap_free_block hlayout (Some (um, t)) m (Some (operation_init pop redo raw)) mem = Some (rb, Some (um, t'), Some ctx) /\
      operation_process ctx mem = Some (tt, ops) /\
      bucket_tree_insert_block mallocs t' rb = Some (t'', 0) /\
      let bm' := memory_bitmaps hlayout (run ops mem) in
      bucket_exact um nallocs t'' runs bm' /\ units_changed runs bm bm' m clear_range).
Proof.
  intros Hum Hd Hlt Hna Hm1 Hm2 Hraw Hruns Hv bm Hex. assert (Hna' : nallocs <= UINT16_MAX) by (change RUN_BITMAP_SIZE with 2432 in Hna; unfold UINT16_MAX; lia). split.
  - intros units Hu. destruct (run_alloc_exact_spec um nallocs Hum Hd Hlt Hna' mallocs t runs bm units Hex Hu Hm1 Hm2) as (err & m & t' & E & Hor).
    exists err, m, t'. split; [done|]. destruct Hor as [(-> & Es & Hr & Hiv & H0 & Hf & Hex')|?]; [left|by right]. split_and!; try done.
    assert (Hi : 0 <= block_off m / BITS_PER_VALUE < MAX_BITMAP_VALUES).
    { apply word_index; [done|done|]. destruct (Hf (block_off m + size_idx m - 1)); [unfold has_unit; lia|lia]. }
    destruct (run_prep_process hlayout m HDR_OP_ALLOC pop redo raw mem Hraw (Hv _ _ Hr Hi)) as (ctx & Ep & Eo). rewrite decide_True in Eo by done.
    eexists ctx, _. split; [done|]. split; [exact Eo|]. cbv zeta. split.
    + eapply exact_ext; [done..| |exact Hex']. intros c i Hc Hci. by apply store_bitmaps; [apply (Hruns _ Hr)|..|apply Hruns|].
    + intros c p Hc Hp. rewrite store_units by (done || by apply Hruns || apply (Hruns _ Hr)). unfold with_value.
      case_decide as Ec; [|done]. subst c. by apply used_after_alloc.
  - intros m Hr Hty Hrb Hub Hend.
    destruct (run_free_exact_spec um nallocs Hum Hd Hlt hlayout mallocs t runs mem m (operation_init pop redo raw) Hex Hm1 Hm2 Hr Hty Hrb Hub Hend)
      as (rb & t' & t'' & E & Ei & Hex' & Ec & Hrb' & Hiv & Hused).
    assert (Hrr : runs (chunk_of rb)) by (by rewrite Ec).
    assert (Hi : 0 <= block_off rb / BITS_PER_VALUE < MAX_BITMAP_VALUES).
    { destruct Hrb' as [_ _ R3 R4 _]. apply word_index; [done|done|lia]. }
    destruct (run_prep_process hlayout rb HDR_OP_FREE pop redo raw mem Hraw (Hv _ _ Hrr Hi)) as (ctx & Ep & Eo). rewrite decide_False in Eo by done.
    rewrite Ep in E. eexists rb, t', t'', ctx, _. split; [exact E|]. split; [exact Eo|]. split; [done|]. cbv zeta. split.
    + eapply exact_ext; [done..| |exact Hex']. intros c i Hc Hci. by apply store_bitmaps; [apply (Hruns _ Hrr)|..|apply Hruns|].
    + intros c p Hc Hp. rewrite store_units by (done || by apply Hruns || apply (Hruns _ Hrr)).
      case_decide as Em; [subst c; apply Hused|]. unfold with_value. by rewrite decide_False by congruence.
Qed.

(** The run of 2045 units in [MemblockRun]: freeing the units 2 to 5. *)
Lemma run_alloc_free_exact_witness :
  let pop := mkPool 0 0 0 0 0 (2 ^ 20) 0 0 in
  let raw := replicate 20 (mkEntry 0 0 OPERATION_SET) in
  exists t m t' rb t1 t2 ctx ops, take_from_run (true, true) t 3 = Some (0, m, t') /\ size_idx m = 3 /\
    heap_free_block 0 (Some (8, t)) (mkBlock 0 0 4 2) (Some (operation_init pop 0 raw)) sample_mem = Some (rb, Some (8, t1), Some ctx) /\
    operation_process ctx sample_mem = Some (tt, ops) /\ bucket_tree_insert_block (true, true) t1 rb = Some (t2, 0) /\
    bucket_exact 8 2045 t2 (fun c => c = (0, 0) \/ False) (memory_bitmaps 0 (run ops sample_mem)).
Proof.
  intros pop raw. destruct sample_bucket as [t Ht].
  destruct (run_alloc_free_exact 8 2045 0 (true, true) t (fun c => c = (0, 0) \/ False) sample_mem pop 0 raw) as [Ha Hf].
  - done.
  - by exists 8.
  - done.
  - vm_compute. discriminate.
  - done.
  - done.
  - done.
  - intros c [-> |[]]. vm_compute. split; [discriminate|reflexivity].
  - intros c i [-> |[]] Hi. change MAX_BITMAP_VALUES with 38 in Hi. unfold OBJ_PTR_IS_VALID, run_bitmap_word. cbn [fst snd].
    change (chunk_addr 0 0 0) with 525312.
    unfold OBJ_OFF_IS_VALID, OBJ_PTR_TO_OFF. cbn [addr heap_offset heap_size pop]. rewrite u64_small by lia.
    apply orb_true_iff. left. apply orb_true_iff. left. unfold OBJ_OFF_FROM_HEAP. cbn [heap_offset heap_size pop].
    change (u64 (0 + 2 ^ 20)) with 1048576. rewrite andb_true_iff. split; [apply Z.leb_le|apply Z.ltb_lt]; lia.
  - exact Ht.
  - destruct (Ha 3) as (err & m & t' & Ea & [(-> & Es & _)|(_ & _ & Hno)]); [done| |].
    + destruct (Hf (mkBlock 0 0 4 2)) as (rb & t1 & t2 & ctx & ops & Ef & Eo & Ei & Hex & _).
      * by left.
      * vm_compute. reflexivity.
      * split; simpl; unfold UINT16_MAX, MAX_CHUNK; unfold UINT16_MAX; lia.
      * split; [done|vm_compute; discriminate|]. unfold has_unit. simpl. intros p Hp.
        assert (p = 2 \/ p = 3 \/ p = 4 \/ p = 5) as [->|[->|[->| ->]]] by lia; vm_compute; reflexivity.
      * intros p Hp. change (grp 8 _ + 8) with 8 in Hp. lia.
      * exists t, m, t', rb, t1, t2, ctx, ops. split_and!; [exact Ea|exact Es|exact Ef|exact Eo|exact Ei|exact Hex].
    + exfalso. assert (Hs : size_idx (mkBlock 0 0 8 8) < 3); [|simpl in Hs; lia]. apply Hno; [split; simpl; unfold MAX_CHUNK, UINT16_MAX; lia|by left|simpl; lia|].
      split; [simpl; lia|vm_compute; discriminate| |left; vm_compute; reflexivity|left; vm_compute; reflexivity].
      intros p Hp. simpl in Hp. assert (p = 8 \/ p = 9 \/ p = 10 \/ p = 11 \/ p = 12 \/ p = 13 \/ p = 14 \/ p = 15) as Hc by lia.
      destruct Hc as [->|[->|[->|[->|[->|[->|[->| ->]]]]]]]; vm_compute; reflexivity.
Defined.
