(* ===== verification/HeapAlloc.v ===== *)
(** * The heap: taking blocks out of buckets

    The volatile state of the heap ([struct pmalloc_heap] of
    [nvml/src/libpmemobj/heap.c]) and the functions that take blocks out of it and fill
    its buckets: [heap_get_bestfit_block] with [heap_ensure_bucket_filled], which takes
    runs into use, creates runs and scans further zones, [heap_get_exact_block],
    [heap_drain_to_auxiliary], and the functions that find the bucket of a size or of a
    chunk.  They are modelled as one thread runs them, the cache of which is fixed. *)

From S2P Require Import Prelude Pmem Programs Redo RedoProofs Memops Ctree Bucket HeapLayout HeapRun Memblock MemblockRun HeapZone HeapCreate.

Local Open Scope pmtest_scope.

(** A bucket of blocks of runs: [h->buckets[slot]] or [h->caches[c].buckets[slot]]. *)
Inductive bucket_ref := Auxiliary (slot : Z) | Cached (c slot : Z).

#[global] Instance bucket_ref_eq_dec : EqDecision bucket_ref.
Proof. solve_decision. Defined.

Definition ref_slot (r : bucket_ref) : Z := match r with Auxiliary slot | Cached _ slot => slot end.

(** The classes, the lists of runs and the container of the default bucket are [h_found];
    [h_trees] are the containers of the other buckets. *)
Record heap := mkHeap {
  h_found : found;
  h_zones_exhausted : Z;
  h_trees : bucket_ref -> ctree;
  h_last_drained : Z -> Z;
}.

Definition h_classes (h : heap) : classes := f_classes (h_found h).
Definition h_default (h : heap) : ctree := f_tree (h_found h).
Definition h_active (h : heap) : active_runs := f_active (h_found h).

Definition set_found (h : heap) (s : found) : heap := mkHeap s (h_zones_exhausted h) (h_trees h) (h_last_drained h).
Definition set_default (h : heap) (t : ctree) : heap := set_found h (mkFound (h_classes h) (h_active h) t).
Definition set_active (h : heap) (l : active_runs) : heap := set_found h (mkFound (h_classes h) l (h_default h)).
Definition set_tree (h : heap) (r : bucket_ref) (t : ctree) : heap :=
  mkHeap (h_found h) (h_zones_exhausted h) (fun r' => if decide (r' = r) then t else h_trees h r') (h_last_drained h).

(** What [heap_create_alloc_class_buckets] made for the slot. *)
Definition bucket_of (h : heap) (r : bucket_ref) : option bucket :=
  unit ← cl_units (h_classes h) !! Z.to_nat (ref_slot r);
  '(nallocs, nval, lastval) ← bucket_run_create unit;
  Some (mkBucket BUCKET_RUN (ref_slot r) unit (h_trees h r) lastval nval nallocs RUN_UNIT_MAX).

(** The first run of a class: the head of [active_runs[bucket_idx]]. *)
Fixpoint take_active (l : active_runs) (slot : Z) : option ((Z * Z) * active_runs) :=
  match l with
  | [] => None
  | (s, c) :: l => if s =? slot then Some (c, l) else '(c', l') ← take_active l slot; Some (c', (s, c) :: l')
  end.

Definition heap_get_active_run (h : heap) (slot : Z) : option ((Z * Z) * heap) :=
  '(c, l) ← take_active (h_active h) slot; Some (c, set_active h l).

Section Alloc.
(** The layout, the number of zones and the size of the heap, the number of caches, the
    cache of the thread, the addresses of the buckets, and which allocations of volatile
    memory succeed. *)
Context (hlayout max_zone heap_size ncaches cache : Z) (addr : bucket_ref -> Z) (deref : Z -> option bucket_ref).
Context (mallocs : nat -> Z -> bool * bool).

(** ** Best fit *)

(** The loop of [heap_get_bestfit_block] for the default bucket: when no chunk fits, the
    next zone is scanned. *)
Fixpoint bestfit_huge (fuel : nat) (h : heap) (units : Z) : prog (Z * memory_block * heap) :=
  match fuel with
  | O => fun _ => None
  | S fuel' =>
      let! r := take_from_huge hlayout (mallocs fuel 0) (h_default h) units in
      let '(err, m, tree) := r in
      if err =? 0 then ret (0, m, set_default h tree)
      else
        let! p := heap_populate_buckets hlayout (mallocs fuel) max_zone heap_size (h_zones_exhausted h) (h_found h) in
        let '(err, exhausted, s) := p in
        let h := mkHeap s exhausted (h_trees h) (h_last_drained h) in
        if negb (err =? 0) then ret (err, m, h) else bestfit_huge fuel' h units
  end.

Definition huge_fuel (h : heap) : nat := S (S (Z.to_nat (max_zone - h_zones_exhausted h))).

Definition heap_get_bestfit_huge (h : heap) (units : Z) : prog (Z * memory_block * heap) := bestfit_huge (huge_fuel h) h units.

(** [heap_ensure_bucket_filled] for a bucket of runs. *)
Definition heap_ensure_bucket_filled (k : nat) (h : heap) (r : bucket_ref) : prog (Z * heap) :=
  let! b := lift (bucket_of h r) in
  let mallocs' i := mallocs k (Z.of_nat i) in
  match heap_get_active_run h (ref_slot r) with
  | Some ((chunk_id, zone_id), h) =>
      let! t := heap_reuse_run hlayout mallocs' b (addr r) chunk_id zone_id in
      ret (0, set_tree h r t)
  | None =>
      let! x := heap_get_bestfit_huge h 1 in
      let '(err, m, h) := x in
      if negb (err =? 0) then ret (ENOMEM, h)
      else
        check (block_off m =? 0);;
        let! t := heap_create_run hlayout mallocs' b (addr r) (chunk_id m) (zone_id m) in
        ret (0, set_tree h r t)
  end.

(** The loop of [heap_get_bestfit_block] for a bucket of runs. *)
Fixpoint bestfit_run (fuel : nat) (h : heap) (r : bucket_ref) (units : Z) : prog (Z * memory_block * heap) :=
  match fuel with
  | O => fun _ => None
  | S fuel' =>
      let! x := lift (take_from_run (mallocs fuel 0) (h_trees h r) units) in
      let '(err, m, tree) := x in
      if err =? 0 then ret (0, m, set_tree h r tree)
      else
        let! p := heap_ensure_bucket_filled fuel h r in
        if negb (p.1 =? 0) then ret (p.1, m, p.2) else bestfit_run fuel' p.2 r units
  end.

(** One round for each run that can be taken into use, one for a new run, and a last one. *)
Definition run_fuel (h : heap) : nat := length (h_active h) + 2.

Definition heap_get_bestfit_run (h : heap) (r : bucket_ref) (units : Z) : prog (Z * memory_block * heap) := bestfit_run (run_fuel h) h r units.

(** ** The bucket of a size *)

(** [None] is the default bucket. *)
Definition heap_get_bucket_by_idx (idx : Z) : bucket_ref := Cached (cache mod ncaches) idx.

Definition heap_get_best_bucket (h : heap) (size : Z) : option (option bucket_ref) :=
  if size <=? cl_last_run_max_size (h_classes h)
  then bid ← SIZE_TO_BID (h_classes h) size; Some (Some (heap_get_bucket_by_idx bid))
  else Some None.

Definition heap_get_auxiliary_bucket (h : heap) (size : Z) : option bucket_ref :=
  if size <=? cl_last_run_max_size (h_classes h) then bid ← SIZE_TO_BID (h_classes h) size; Some (Auxiliary bid) else None.

(** [b->calc_units] and [heap_get_bestfit_block] for any bucket. *)
Definition ref_unit_size (h : heap) (r : option bucket_ref) : option Z :=
  match r with
  | None => Some CHUNKSIZE
  | Some r => cl_units (h_classes h) !! Z.to_nat (ref_slot r)
  end.

Definition heap_get_bestfit_block (h : heap) (r : option bucket_ref) (units : Z) : prog (Z * memory_block * heap) :=
  match r with
  | None => heap_get_bestfit_huge h units
  | Some r => heap_get_bestfit_run h r units
  end.

(** [heap_get_exact_block]; the error of the container is not returned. *)
Definition heap_get_exact_block (h : heap) (r : option bucket_ref) (m : memory_block) (units : Z) : prog (Z * memory_block * heap) :=
  let! x := lift (bucket_tree_get_rm_block_exact (match r with Some r => h_trees h r | None => h_default h end) m) in
  let '(err, tree) := x in
  let put t := match r with Some r => set_tree h r t | None => set_default h t end in
  if negb (err =? 0) then ret (0, m, put tree)
  else if negb (units =? size_idx m) then
    match r with
    | Some _ => let! x := lift (recycle_run (mallocs 0 0) tree m units) in ret (0, x.2, put x.1)
    | None => let! x := recycle_huge hlayout (mallocs 0 0) tree m units in ret (0, x.2, put x.1)
    end
  else ret (0, m, put tree).

(** The caller is not told that the bucket does not have the block. *)
Lemma exact_block_missing h m units mem :
  tree_ok (h_default h) -> block_ok m -> ~ has_block (h_default h) m ->
  exists h', heap_get_exact_block h None m units mem = Some ((0, m, h'), []) /\ h_default h' = h_default h.
Proof.
  intros Ht Hm Hno. destruct (get_rm_exact_spec (h_default h) m Ht Hm) as (err & t' & E & _ & [(_ & Hh & _)|(-> & -> & _)]); [done|].
  unfold heap_get_exact_block, lift, bind, ret. rewrite E. simpl. eexists. split; [done|]. done.
Qed.

(** ** Draining the caches *)

(** The inner loop: blocks move from one container to another. *)
Fixpoint drain_cache (fuel : nat) (from to : ctree) (size_idx0 drained limit : Z) : option (ctree * ctree * Z) :=
  match fuel with
  | O => None
  | S fuel' =>
      if drained <? limit then
        if bucket_tree_is_empty from then Some (from, to, drained)
        else
          '(err, m, from) ← bucket_tree_get_rm_block_bestfit from (mkBlock 0 0 size_idx0 0);
          if negb (err =? 0) then Some (from, to, drained)
          else
            '(to, _) ← bucket_tree_insert_block (mallocs fuel 0) to m;
            drain_cache fuel' from to size_idx0 (u32 (drained + size_idx m)) limit
      else Some (from, to, drained)
  end.

(** The outer loop over the caches. *)
Fixpoint drain_loop (n : nat) (h : heap) (slot size_idx0 total units_per_bucket units_total : Z) : option heap :=
  match n with
  | O => Some h
  | S n =>
      if total <? units_total then
        let cache_id := h_last_drained h slot mod ncaches in
        let h := mkHeap (h_found h) (h_zones_exhausted h) (h_trees h)
                   (fun s => if s =? slot then u32 (h_last_drained h slot + 1) else h_last_drained h s) in
        let r := Cached cache_id slot in
        if decide (heap_get_bucket_by_idx slot = r) then drain_loop n h slot size_idx0 total units_per_bucket units_total
        else
          '(from, to, drained) ← drain_cache (S (Z.to_nat units_per_bucket)) (h_trees h r) (h_trees h (Auxiliary slot)) size_idx0 0 units_per_bucket;
          drain_loop n (set_tree (set_tree h r from) (Auxiliary slot) to) slot size_idx0 (u32 (total + drained)) units_per_bucket units_total
      else Some h
  end.

(** A fifth of the blocks of a run from each cache, and at most twice the blocks of a run. *)
Definition heap_drain_to_auxiliary (h : heap) (slot size_idx0 : Z) : option heap :=
  b ← bucket_of h (Auxiliary slot);
  drain_loop (Z.to_nat ncaches) h slot size_idx0 0 (b_bitmap_nallocs b / 5) (u32 (b_bitmap_nallocs b * 2)).

(** ** The bucket of a chunk *)

Definition heap_get_run_bucket (h : heap) (run : Z) (m : pmem) : option bucket_ref :=
  let vptr := pm_read m (run_bucket_vptr run) in
  let block_size := pm_read m (run_block_size_word run) in
  if vptr =? 0 then None
  else
    r ← deref vptr;
    unit ← cl_units (h_classes h) !! Z.to_nat (ref_slot r);
    if negb (unit =? 0) && negb (block_size =? 0) && (block_size =? unit) then Some r else None.

Definition heap_assign_run_bucket (h : heap) (chunk_id zone_id : Z) : prog (option bucket_ref * heap) :=
  let run := chunk_addr hlayout zone_id chunk_id in
  let! block_size := read (run_block_size_word run) in
  let! x := lift (heap_get_create_bucket_idx_by_unit_size (h_classes h) block_size) in
  let h := set_found h (mkFound x.2 (h_active h) (h_default h)) in
  if x.1 =? MAX_BUCKETS then ret (None, h)
  else
    let r := heap_get_bucket_by_idx x.1 in
    let! b := lift (bucket_of h r) in
    let! t := heap_reuse_run hlayout (fun i => mallocs 0 (Z.of_nat i)) b (addr r) chunk_id zone_id in
    let h := set_tree h r t in
    let! r := ask (heap_get_run_bucket h run) in
    ret (Some r, h).

(** The result is no bucket, the default bucket ([Some None]) or a bucket of runs. *)
Definition heap_get_chunk_bucket (h : heap) (chunk_id zone_id : Z) : prog (option (option bucket_ref) * heap) :=
  check (zone_id <? max_zone);;
  if h_zones_exhausted h <=? zone_id then ret (None, h)
  else
    let! zh := read (zone_header_word hlayout zone_id) in
    check (chunk_id <? hdr_size_idx zh);;
    let! w := read (chunk_header_word hlayout zone_id chunk_id) in
    if hdr_type w =? CHUNK_TYPE_RUN then
      let run := chunk_addr hlayout zone_id chunk_id in
      let! vptr := read (run_bucket_vptr run) in
      if negb (vptr =? 0) then let! r := ask (heap_get_run_bucket h run) in ret (Some (Some r), h)
      else let! x := heap_assign_run_bucket h chunk_id zone_id in ret (Some <$> x.1, x.2)
    else ret (Some None, h).

End Alloc.
