(* ===== verification/HeapInv.v ===== *)
(** * The invariant of the heap

    What holds of the memory and the volatile state of a heap between two operations, and
    what a crash may leave.  [allocated] is what the heap has handed out, read off a
    memory image: used chunks and used units of runs.  A sequence of operations is
    [quiet] if a crash at any point of it leaves the same allocated units in a heap that
    can be opened. *)

From S2P Require Import Prelude Pmem Programs Redo RedoProofs Memops Ctree Bucket HeapLayout HeapRun Memblock MemblockRun HeapZone HeapZoneProofs HeapHuge HeapTheorems HeapCreate HeapAlloc.

Local Open Scope pmtest_scope.

(** ** Images *)

Section Image.
Context (hlayout max_zone : Z) (sizes : list Z).

Local Abbreviation image := (Z -> Z).

(** The unit size, the pointer to the bucket and the bitmap of a run. *)
Definition unit_of (f : image) (x : Z * Z) : Z := f (run_block_size_word (chunk_addr hlayout x.2 x.1)).
Definition owner_of (f : image) (x : Z * Z) : Z := f (run_bucket_vptr (chunk_addr hlayout x.2 x.1)).
Definition bits_of (f : image) (x : Z * Z) (i : Z) : Z := f (run_bitmap_word (chunk_addr hlayout x.2 x.1) i).

Record run_ok (f : image) (x : Z * Z) : Prop := {
  ro_unit : unit_of f x ∈ sizes;
  ro_values i : 0 <= i < MAX_BITMAP_VALUES -> 0 <= bits_of f x i < 2 ^ 64;
  ro_end p : RUN_NALLOCS (unit_of f x) <= p < RUN_BITMAP_SIZE -> used_unit (bits_of f x) p = true;
}.

(** A zone that has been created. *)
Record zone_image (f : image) (z n : Z) (l : list chunk) : Prop := {
  zi_magic : zone_magic (f (zone_header_word hlayout z)) = ZONE_HEADER_MAGIC;
  zi_size : hdr_size_idx (f (zone_header_word hlayout z)) = n;
  zi_range : 1 <= n <= MAX_CHUNK;
  zi_tiles : tiles (fun i => f (chunk_header_word hlayout z i)) n 0 l;
  zi_runs c : c ∈ l -> ch_type c = CHUNK_TYPE_RUN -> run_ok f (ch_at c, z);
}.

(** Every zone can be scanned. *)
Definition heap_image (f : image) : Prop := forall z, 0 <= z < max_zone ->
  zone_magic (f (zone_header_word hlayout z)) <> ZONE_HEADER_MAGIC \/ exists n l, zone_image f z n l.

(** The units of a chunk that are handed out. *)
Definition taken (f : image) (z : Z) (c : chunk) (u : Z) : Prop :=
  ch_type c = CHUNK_TYPE_USED /\ 0 <= u < ch_size c \/
  ch_type c = CHUNK_TYPE_RUN /\ 0 <= u < RUN_NALLOCS (unit_of f (ch_at c, z)) /\ used_unit (bits_of f (ch_at c, z)) u = true.

Definition allocated (f : image) (z i u : Z) : Prop :=
  0 <= z < max_zone /\ exists n l c, zone_image f z n l /\ c ∈ l /\ ch_at c = i /\ taken f z c u.

Definition same_allocated (f g : image) : Prop := forall z i u, allocated f z i u <-> allocated g z i u.

#[global] Instance same_allocated_equiv : Equivalence same_allocated.
Proof.
  split.
  - intros f z i u. done.
  - intros f g H z i u. symmetry. apply H.
  - intros f g h H1 H2 z i u. by rewrite (H1 z i u).
Qed.

(** The sequence of chunks is determined by the headers. *)
Lemma tiles_det H n i l l' : n < 2 ^ 32 -> 0 <= i -> tiles H n i l -> tiles H n i l' -> l = l'.
Proof.
  intros Hn Hi Hl. revert l'. induction Hl as [|i c l Ea Hw Hty Hs He Hl IH]; intros l' Hl'.
  - inversion Hl' as [|? c' ? Ea' Hw' Hty' Hs' He' Hl'']; [done|lia].
  - inversion Hl' as [|? c' ? Ea' Hw' Hty' Hs' He' Hl'']; subst; [pose proof (tiles_le _ _ _ _ Hl); lia|].
    destruct (chunk_fields c Hty ltac:(lia)) as (F1 & _ & F2). destruct (chunk_fields c' Hty' ltac:(lia)) as (G1 & _ & G2).
    assert (c = c') as <-. { destruct c, c'; simpl in *; subst. rewrite Hw in Hw'. rewrite Hw', G1 in F1. rewrite Hw', G2 in F2. by subst. }
    f_equal. apply IH; [lia|done].
Qed.

Lemma zone_image_det f z n l n' l' : zone_image f z n l -> zone_image f z n' l' -> n = n' /\ l = l'.
Proof.
  intros [A1 A2 A3 A4 A5] [B1 B2 B3 B4 B5]. assert (n = n') as <- by congruence. split; [done|].
  unfold MAX_CHUNK, UINT16_MAX in *. eapply tiles_det; [| |exact A4|exact B4]; lia.
Qed.

(** The words of a zone that matter: its header, the headers of its chunks, and of its runs
    the unit size and the bitmap. *)
Definition zone_word_of (z : Z) (l : list chunk) (a : Z) : Prop :=
  a = zone_header_word hlayout z \/
  exists c, c ∈ l /\ (a = chunk_header_word hlayout z (ch_at c) \/
    ch_type c = CHUNK_TYPE_RUN /\ (a = run_block_size_word (chunk_addr hlayout z (ch_at c)) \/
      exists i, 0 <= i < MAX_BITMAP_VALUES /\ a = run_bitmap_word (chunk_addr hlayout z (ch_at c)) i)).

Definition same_zone (f g : image) (z : Z) (l : list chunk) : Prop := forall a, zone_word_of z l a -> g a = f a.

Lemma same_header f g z l c : same_zone f g z l -> c ∈ l -> g (chunk_header_word hlayout z (ch_at c)) = f (chunk_header_word hlayout z (ch_at c)).
Proof. intros H Hc. apply H. right. exists c. auto. Qed.
Lemma same_unit f g z l c : same_zone f g z l -> c ∈ l -> ch_type c = CHUNK_TYPE_RUN -> unit_of g (ch_at c, z) = unit_of f (ch_at c, z).
Proof. intros H Hc Hr. apply H. right. exists c. auto. Qed.
Lemma same_bits_of f g z l c i : same_zone f g z l -> c ∈ l -> ch_type c = CHUNK_TYPE_RUN -> 0 <= i < MAX_BITMAP_VALUES ->
  bits_of g (ch_at c, z) i = bits_of f (ch_at c, z) i.
Proof. intros H Hc Hr Hi. apply H. right. exists c. split; [done|]. right. split; [done|]. right. by exists i. Qed.

Lemma value_index p : 0 <= p < RUN_BITMAP_SIZE -> 0 <= p / BITS_PER_VALUE < MAX_BITMAP_VALUES.
Proof.
  unfold RUN_BITMAP_SIZE, MAX_BITMAP_VALUES, MAX_CACHELINE_ALIGNMENT, BITS_PER_VALUE. intros Hp. split; [apply Z.div_pos; lia|apply Z.div_lt_upper_bound; lia].
Qed.

Lemma same_bits f g x p : (forall i, 0 <= i < MAX_BITMAP_VALUES -> bits_of g x i = bits_of f x i) -> 0 <= p < RUN_BITMAP_SIZE ->
  used_unit (bits_of g x) p = used_unit (bits_of f x) p.
Proof. intros H Hp. unfold used_unit. by rewrite H by by apply value_index. Qed.

Context (Hsizes : forall bs, bs ∈ sizes -> MIN_RUN_SIZE <= bs <= RUNSIZE).

Lemma nallocs_range bs : bs ∈ sizes -> 1 <= RUN_NALLOCS bs <= 2045.
Proof.
  intros H. apply Hsizes in H. unfold RUN_NALLOCS, MIN_RUN_SIZE in *. change RUNSIZE with 261824 in *.
  split; [apply Z.div_le_lower_bound; lia|apply Z.lt_succ_r, Z.div_lt_upper_bound; lia].
Qed.

Lemma same_zone_run f g z l c : same_zone f g z l -> c ∈ l -> ch_type c = CHUNK_TYPE_RUN -> run_ok f (ch_at c, z) -> run_ok g (ch_at c, z).
Proof.
  intros Hs Hc Hr [R1 R2 R3]. pose proof (nallocs_range _ R1). rewrite <-(same_unit f g z l c) in R1, R3 by done. split; [done| |].
  - intros i Hi. rewrite (same_bits_of f g z l c) by done. by apply R2.
  - intros p Hp. rewrite <-(R3 p Hp). apply same_bits; [|rewrite (same_unit f g z l c) in Hp by done; lia]. intros i Hi. by apply (same_bits_of f g z l).
Qed.

Lemma same_zone_image f g z n l : same_zone f g z l -> zone_image f z n l -> zone_image g z n l.
Proof.
  intros Hs [B1 B2 B3 B4 B5]. assert (A1 : g (zone_header_word hlayout z) = f (zone_header_word hlayout z)) by (apply Hs; by left). split; rewrite ?A1; try done.
  - eapply tiles_ext; [|exact B4]. intros c Hc. by apply (same_header f g z l).
  - intros c Hc Hr. eapply same_zone_run; [exact Hs|done|done|]. by apply B5.
Qed.

Lemma same_zone_taken f g z l c u : same_zone f g z l -> c ∈ l -> (ch_type c = CHUNK_TYPE_RUN -> run_ok f (ch_at c, z)) -> taken f z c u <-> taken g z c u.
Proof.
  intros Hs Hc B5. unfold taken.
  assert (H : ch_type c = CHUNK_TYPE_RUN -> 0 <= u < RUN_NALLOCS (unit_of f (ch_at c, z)) -> used_unit (bits_of g (ch_at c, z)) u = used_unit (bits_of f (ch_at c, z)) u).
  { intros Hr Hu. apply same_bits; [intros i Hi; by apply (same_bits_of f g z l)|]. destruct (B5 Hr) as [R1 _ _]. pose proof (nallocs_range _ R1).
    change RUN_BITMAP_SIZE with 2432. lia. }
  split; (intros [?|(Hr & Hu & Hus)]; [by left|right]); (split; [done|]).
  - rewrite (same_unit f g z l c) by done. split; [done|]. by rewrite H.
  - rewrite (same_unit f g z l c) in Hu by done. split; [done|]. by rewrite <-H.
Qed.

(** ** Comparing images *)

(** The units of a sequence of chunks that are handed out. *)
Definition zone_taken (f : image) (z : Z) (l : list chunk) (i u : Z) : Prop := exists c, c ∈ l /\ ch_at c = i /\ taken f z c u.

(** A zone is not created in either image, or is created with nothing handed out, or has
    the same units handed out. *)
Definition zone_step (f g : image) (z : Z) : Prop :=
  let new h := zone_magic (h (zone_header_word hlayout z)) <> ZONE_HEADER_MAGIC in
  new f /\ new g \/
  (new f /\ exists n l, zone_image g z n l /\ forall i u, ~ zone_taken g z l i u) \/
  exists n l l', zone_image f z n l /\ zone_image g z n l' /\ forall i u, zone_taken f z l i u <-> zone_taken g z l' i u.

Lemma allocated_zone f z n l i u : 0 <= z < max_zone -> zone_image f z n l -> allocated f z i u <-> zone_taken f z l i u.
Proof.
  intros Hz Hl. split.
  - intros (_ & n' & l' & c & Hl' & Hc & Ea & Ht). destruct (zone_image_det _ _ _ _ _ _ Hl Hl') as [<- <-]. by exists c.
  - intros (c & Hc & Ea & Ht). split; [done|]. by exists n, l, c.
Qed.

Lemma allocated_new f z i u : zone_magic (f (zone_header_word hlayout z)) <> ZONE_HEADER_MAGIC -> ~ allocated f z i u.
Proof. intros H (_ & n & l & c & [Hm _ _ _ _] & _). done. Qed.

Lemma images_step f g : (forall z, 0 <= z < max_zone -> zone_step f g z) -> heap_image g /\ same_allocated f g.
Proof.
  intros H. split.
  - intros z Hz. destruct (H z Hz) as [[_ ?]|[(_ & n & l & ? & _)|(n & l & l' & _ & ? & _)]]; [by left|right; by exists n, l|right; by exists n, l'].
  - intros z i u. destruct (decide (0 <= z < max_zone)) as [Hz|Hz]; [|split; intros [? _]; done].
    destruct (H z Hz) as [[H1 H2]|[(H1 & n & l & H2 & H3)|(n & l & l' & H1 & H2 & H3)]].
    + split; intros Ha; [by apply allocated_new in Ha|by apply allocated_new in Ha].
    + split; intros Ha; [by apply allocated_new in Ha|]. apply (allocated_zone _ _ _ _ _ _ Hz H2) in Ha. by apply H3 in Ha.
    + rewrite (allocated_zone f z n l), (allocated_zone g z n l') by done. apply H3.
Qed.

Lemma same_zone_step f g z n l : same_zone f g z l -> zone_image f z n l -> zone_step f g z.
Proof.
  intros Hs Hl. right. right. exists n, l, l. split_and!; [done|by apply (same_zone_image f)|]. intros i u.
  split; intros (c & Hc & Ea & Ht); exists c; (split_and!; [done..|]); apply (same_zone_taken f g z l); try done; intros Hr; by apply (zi_runs _ _ _ _ Hl).
Qed.

(** ** Crashes *)

Definition zone_durable (m : pmem) (z : Z) (l : list chunk) : Prop := forall a, zone_word_of z l a -> pm_durable m a.

Lemma untouched_image m ops j f z l :
  zone_durable m z l -> (forall a, zone_word_of z l a -> no_store a ops) -> pm_crash (run (take j ops) m) f -> same_zone (pm_read m) f z l.
Proof.
  intros Hd Hs Hcr a Ha. assert (Hn : no_store a (take j ops)) by by apply no_store_take, Hs.
  rewrite <-(no_store_read (take j ops) m a Hn). apply durable_image; [|done]. apply no_store_durable; [done|by apply Hd].
Qed.

Lemma untouched_run m ops z l :
  zone_durable m z l -> (forall a, zone_word_of z l a -> no_store a ops) -> same_zone (pm_read m) (pm_read (run ops m)) z l /\ zone_durable (run ops m) z l.
Proof.
  intros Hd Hs. split; intros a Ha; [by apply no_store_read, Hs|]. apply no_store_durable; [by apply Hs|by apply Hd].
Qed.

Definition in_zone (z a : Z) : Prop := exists x, 0 <= x < ZONE_MAX_SIZE /\ a = zone_addr hlayout z + x.

Lemma in_zone_unique z z' a : in_zone z a -> in_zone z' a -> z = z'.
Proof. intros (x & Hx & ->) (y & Hy & E). by apply zone_split in E as [-> _]. Qed.

Lemma zone_header_in z : in_zone z (zone_header_word hlayout z).
Proof. exists 0. unfold zone_header_word. split; [done|lia]. Qed.

Lemma chunk_header_in z i : 0 <= i < MAX_CHUNK -> in_zone z (chunk_header_word hlayout z i).
Proof.
  intros Hi. exists (64 + 8 * i). rewrite zone_max. unfold chunk_header_word, sizeof_zone_header, sizeof_chunk_header, CHUNKSIZE, MAX_CHUNK, UINT16_MAX in *. lia.
Qed.

Lemma chunk_in z c k : 0 <= c < MAX_CHUNK -> 0 <= k < CHUNKSIZE -> in_zone z (chunk_addr hlayout z c + k).
Proof.
  intros Hc Hk. exists (64 + 8 * MAX_CHUNK + CHUNKSIZE * c + k). rewrite zone_max. unfold chunk_addr, sizeof_zone, sizeof_zone_header, sizeof_chunk_header.
  split; [|lia]. unfold CHUNKSIZE, MAX_CHUNK, UINT16_MAX in *. lia.
Qed.

Lemma word_in_zone f z n l a : zone_image f z n l -> zone_word_of z l a -> in_zone z a.
Proof.
  intros [_ _ Hn Ht _] [->|(c & Hc & H)]; [apply zone_header_in|]. destruct (tiles_bounds _ _ _ _ _ Ht Hc) as (B1 & B2 & B3 & _).
  destruct H as [->|(_ & [->|(i & Hi & ->)])].
  - apply chunk_header_in. lia.
  - unfold run_block_size_word. rewrite <-(Z.add_0_r (chunk_addr _ _ _)). apply chunk_in; [lia|done].
  - unfold run_bitmap_word. rewrite <-Z.add_assoc. apply chunk_in; [lia|]. by apply meta_in_chunk, bitmap_in_meta.
Qed.

(** A zone at rest. *)
Definition zone_state (m : pmem) (z : Z) : Prop :=
  zone_magic (pm_read m (zone_header_word hlayout z)) <> ZONE_HEADER_MAGIC /\ pm_durable m (zone_header_word hlayout z) \/
  exists n l, zone_image (pm_read m) z n l /\ zone_durable m z l.
Definition settled (m : pmem) : Prop := forall z, 0 <= z < max_zone -> zone_state m z.

(** Operations on another zone. *)
Lemma other_zone m ops z z0 : (forall a v, Store a v ∈ ops -> in_zone z0 a) -> z <> z0 -> zone_state m z ->
  (forall j f, pm_crash (run (take j ops) m) f -> zone_step (pm_read m) f z) /\ zone_state (run ops m) z.
Proof.
  intros Hs Hne [[Hm Hd]|(n & l & Hl & Hd)].
  - assert (Hn : no_store (zone_header_word hlayout z) ops) by (intros v Hv; apply Hne; eapply in_zone_unique; [apply zone_header_in|by eapply Hs]).
    split.
    + intros j f Hcr. left. split; [done|]. rewrite (durable_image (run (take j ops) m) _ f); [|by apply no_store_durable; [apply no_store_take|]|done].
      by rewrite no_store_read by by apply no_store_take.
    + left. rewrite no_store_read by done. split; [done|by apply no_store_durable].
  - assert (Hn : forall a, zone_word_of z l a -> no_store a ops) by (intros a Ha v Hv; apply Hne; eapply in_zone_unique; [by eapply word_in_zone|by eapply Hs]).
    split.
    + intros j f Hcr. eapply same_zone_step; [|exact Hl]. by eapply untouched_image.
    + destruct (untouched_run m ops z l Hd Hn) as [H1 H2]. right. exists n, l. split; [|done]. by eapply same_zone_image.
Qed.

(** A crash at any point leaves a heap with the same units handed out. *)
Definition quiet (m : pmem) (ops : list pm_op) : Prop :=
  forall j f, pm_crash (run (take j ops) m) f -> heap_image f /\ same_allocated (pm_read m) f.

Lemma crash_read m : pm_crash m (pm_read m).
Proof. intros a. apply read_cand. Qed.

Lemma quiet_done m ops : quiet m ops -> heap_image (pm_read (run ops m)) /\ same_allocated (pm_read m) (pm_read (run ops m)).
Proof. intros H. apply (H (length ops)). rewrite firstn_all. apply crash_read. Qed.

Lemma quiet_app m ops1 ops2 : quiet m ops1 -> quiet (run ops1 m) ops2 -> quiet m (ops1 ++ ops2).
Proof.
  intros H1 H2 j f Hcr. destruct (take_app_cases j ops1 ops2) as [E|[q E]]; rewrite E in Hcr; [by eapply H1|].
  rewrite run_app in Hcr. destruct (H2 q f Hcr) as [H3 H4]. split; [done|]. etrans; [|exact H4]. by apply quiet_done.
Qed.

Lemma quiet_zone m ops z0 :
  settled m -> (forall a v, Store a v ∈ ops -> in_zone z0 a) ->
  (forall j f, pm_crash (run (take j ops) m) f -> zone_step (pm_read m) f z0) -> quiet m ops.
Proof.
  intros Hs Hst H0 j f Hcr. apply images_step. intros z Hz. destruct (decide (z = z0)) as [->|Hne]; [by eapply H0|].
  eapply (proj1 (other_zone m ops z z0 Hst Hne (Hs z Hz))). exact Hcr.
Qed.

Lemma quiet_nil m : settled m -> quiet m [].
Proof.
  intros Hs j f Hcr. apply images_step. intros z Hz. eapply (proj1 (other_zone m [] z (z + 1) _ ltac:(lia) (Hs z Hz))). exact Hcr.
  Unshelve. by intros a v ?%elem_of_nil.
Qed.

Lemma settled_zone m ops z0 : settled m -> (forall a v, Store a v ∈ ops -> in_zone z0 a) -> zone_state (run ops m) z0 -> settled (run ops m).
Proof.
  intros Hs Hst H0 z Hz. destruct (decide (z = z0)) as [->|Hne]; [done|]. apply (other_zone m ops z z0 Hst Hne (Hs z Hz)).
Qed.

End Image.

(** ** The volatile state of runs *)

Section Runs.
Context (hlayout : Z) (addr : bucket_ref -> Z) (Haddr : forall r, addr r <> 0) (Hinj : forall r r', addr r = addr r' -> r = r').

Definition is_run (zs : zones) (x : Z * Z) : Prop := exists n l c, zs x.2 = Some (n, l) /\ c ∈ l /\ ch_type c = CHUNK_TYPE_RUN /\ ch_at c = x.1.

Local Abbreviation class_of cl r := (cl_units cl !! Z.to_nat (ref_slot r)).

(** Every run belongs to no bucket or to one of its unit size; the lists of runs name runs
    of the first kind; a bucket holds exactly the free blocks of its runs, with respect to
    the bitmaps [bm]. *)
Record runs_inv (zs : zones) (f : Z -> Z) (bm : bitmaps) (cl : classes) (active : active_runs) (trees : bucket_ref -> ctree) : Prop := {
  ri_run x : is_run zs x -> owner_of hlayout f x = 0 \/ exists r, owner_of hlayout f x = addr r /\ class_of cl r = Some (unit_of hlayout f x);
  ri_active s x : (s, x) ∈ active -> is_run zs x /\ owner_of hlayout f x = 0 /\ cl_units cl !! Z.to_nat s = Some (unit_of hlayout f x);
  ri_nodup : NoDup (snd <$> active);
  ri_bucket r unit : class_of cl r = Some unit ->
    bucket_exact RUN_UNIT_MAX (RUN_NALLOCS unit) (trees r) (fun x => is_run zs x /\ owner_of hlayout f x = addr r) bm;
  ri_empty r : class_of cl r = None -> trees r = None;
}.

Lemma exact_runs um nallocs t (runs runs' : Z * Z -> Prop) bm : (forall x, runs x <-> runs' x) -> bucket_exact um nallocs t runs bm -> bucket_exact um nallocs t runs' bm.
Proof. intros H [Ht Hb]. split; [done|]. intros x Hx. rewrite Hb by done. by rewrite H. Qed.

(** Nothing of the runs changes; there may be new classes. *)
Lemma runs_frame zs zs' f f' bm bm' cl cl' active trees :
  (forall unit r, class_of cl' r = Some unit -> RUN_NALLOCS unit <= RUN_BITMAP_SIZE) ->
  (forall x, is_run zs' x <-> is_run zs x) -> cl_units cl `prefix_of` cl_units cl' ->
  (forall x, is_run zs x -> owner_of hlayout f' x = owner_of hlayout f x /\ unit_of hlayout f' x = unit_of hlayout f x /\
     forall i, 0 <= i < MAX_BITMAP_VALUES -> bm' x i = bm x i) ->
  runs_inv zs f bm cl active trees -> runs_inv zs' f' bm' cl' active trees.
Proof.
  intros Hmax Hr Hp Hs [R1 R2 R3 R4 R5].
  assert (Hcl : forall k u, cl_units cl !! k = Some u -> cl_units cl' !! k = Some u) by (intros k u E; by eapply prefix_lookup_Some).
  split; [| |done| |].
  - intros x Hx. apply Hr in Hx. destruct (Hs x Hx) as (E1 & E2 & _). rewrite E1, E2. destruct (R1 x Hx) as [?|(r & Eo & Ec)]; [by left|].
    right. exists r. split; [done|by apply Hcl].
  - intros s x Hx. destruct (R2 s x Hx) as (H1 & H2 & H3). destruct (Hs x H1) as (E1 & E2 & _). rewrite E1, E2. split_and!; [by apply Hr|done|by apply Hcl].
  - intros r unit E. destruct (class_of cl r) as [u|] eqn:E'.
    + apply Hcl in E' as E''. rewrite E in E''. injection E'' as <-. eapply exact_frame with (bm := bm); [by eapply Hmax| |].
      * intros x i [Hx _] Hi. apply Hr in Hx. by apply (Hs x Hx).
      * eapply exact_runs; [|by apply R4]. intros x. simpl. rewrite Hr. split; intros [H1 H2]; (split; [done|]); destruct (Hs x H1) as (E1 & _); congruence.
    + rewrite (R5 r E'). eapply exact_runs; [|apply empty_exact]. intros x. split; [done|]. intros [Hx Ho]. apply Hr in Hx. destruct (Hs x Hx) as (E1 & _).
      rewrite E1 in Ho. destruct (R1 x Hx) as [H0|(r' & Er & Ec)]; [rewrite H0 in Ho; by apply (Haddr r)|]. rewrite Er in Ho. apply Hinj in Ho as ->. congruence.
  - intros r E. apply R5. destruct (class_of cl r) as [u|] eqn:E'; [|done]. apply Hcl in E'. congruence.
Qed.

(** A run without a bucket, new or not, is given to the bucket [r]. *)
Lemma runs_assign zs zs' f f' bm bm' cl active active' trees r unit x0 t :
  class_of cl r = Some unit -> RUN_NALLOCS unit <= RUN_BITMAP_SIZE ->
  (forall unit r, class_of cl r = Some unit -> RUN_NALLOCS unit <= RUN_BITMAP_SIZE) ->
  (forall x, is_run zs' x <-> is_run zs x \/ x = x0) -> (is_run zs x0 -> owner_of hlayout f x0 = 0) ->
  owner_of hlayout f' x0 = addr r -> unit_of hlayout f' x0 = unit ->
  (forall x, is_run zs x -> x <> x0 -> owner_of hlayout f' x = owner_of hlayout f x /\ unit_of hlayout f' x = unit_of hlayout f x /\
     forall i, 0 <= i < MAX_BITMAP_VALUES -> bm' x i = bm x i) ->
  (forall s x, (s, x) ∈ active' -> (s, x) ∈ active /\ x <> x0) -> NoDup (snd <$> active') ->
  bucket_exact RUN_UNIT_MAX (RUN_NALLOCS unit) t (fun x => x = x0 \/ is_run zs x /\ owner_of hlayout f x = addr r) bm' ->
  runs_inv zs f bm cl active trees -> runs_inv zs' f' bm' cl active' (fun r' => if decide (r' = r) then t else trees r').
Proof.
  intros Ec Hmax Hmax' Hr H0 Eo Eu Hs Ha Hnd Hex [R1 R2 R3 R4 R5]. split.
  - intros x Hx. destruct (decide (x = x0)) as [->|Hne]; [right; exists r; by rewrite Eu|]. apply Hr in Hx as [Hx|?]; [|done].
    destruct (Hs x Hx Hne) as (-> & -> & _). by apply R1.
  - intros s x Hx. apply Ha in Hx as [Hx Hne]. destruct (R2 s x Hx) as (H1 & H2 & H3). destruct (Hs x H1 Hne) as (-> & -> & _). split_and!; [apply Hr; by left|done|done].
  - done.
  - intros r' u E. case_decide as Er.
    + subst r'. rewrite Ec in E. injection E as <-. eapply exact_runs; [|exact Hex]. intros x. simpl. split.
      * intros [->|[Hx Ho]]; [split; [apply Hr; by right|done]|]. split; [apply Hr; by left|].
        destruct (decide (x = x0)) as [->|Hne]; [done|]. by destruct (Hs x Hx Hne) as (-> & _).
      * intros [[Hx|?]%Hr Ho]; [|by left]. destruct (decide (x = x0)) as [|Hne]; [by left|right]. split; [done|]. by destruct (Hs x Hx Hne) as (<- & _).
    + eapply exact_frame with (bm := bm); [by eapply Hmax'| |].
      * intros x i [[Hx|?]%Hr Ho] Hi; [|subst x; rewrite Eo in Ho; by apply Hinj in Ho]. destruct (decide (x = x0)) as [->|Hne].
        { rewrite Eo in Ho. by apply Hinj in Ho. }
        by apply (Hs x Hx Hne).
      * eapply exact_runs; [|by apply R4]. intros x. simpl. split.
        { intros [Hx Ho]. destruct (decide (x = x0)) as [->|Hne]; [rewrite H0 in Ho by done; symmetry in Ho; by apply Haddr in Ho|].
          split; [apply Hr; by left|]. by destruct (Hs x Hx Hne) as (-> & _). }
        { intros [[Hx|?]%Hr Ho]; [|subst x; rewrite Eo in Ho; by apply Hinj in Ho]. destruct (decide (x = x0)) as [->|Hne]; [rewrite Eo in Ho; by apply Hinj in Ho|].
          split; [done|]. by destruct (Hs x Hx Hne) as (<- & _). }
  - intros r' E. rewrite decide_False by congruence. by apply R5.
Qed.

(** Runs without a bucket are added, and some of them to the lists. *)
Lemma runs_add zs zs' f bm cl active new trees (N : Z * Z -> Prop) :
  (forall x, is_run zs' x <-> is_run zs x \/ N x) -> (forall x, N x -> ~ is_run zs x /\ owner_of hlayout f x = 0) ->
  (forall s x, (s, x) ∈ new -> N x /\ cl_units cl !! Z.to_nat s = Some (unit_of hlayout f x)) -> NoDup (snd <$> new) ->
  runs_inv zs f bm cl active trees -> runs_inv zs' f bm cl (new ++ active) trees.
Proof.
  intros Hr Hn Hnew Hnd [R1 R2 R3 R4 R5]. split; [| | | |done].
  - intros x [Hx|Hx]%Hr; [by apply R1|left; by apply Hn].
  - intros s x [Hx|Hx]%elem_of_app.
    + destruct (Hnew s x Hx) as [H1 H2]. split_and!; [apply Hr; by right|by apply Hn|done].
    + destruct (R2 s x Hx) as (H1 & H2 & H3). split_and!; [apply Hr; by left|done|done].
  - rewrite fmap_app. apply NoDup_app. split_and!; [done| |done]. intros x (e & -> & He)%list_elem_of_fmap (e' & E & He')%list_elem_of_fmap.
    destruct e as [s x], e' as [s' x']. simpl in E. subst x'. apply Hnew in He as [He _]. apply R2 in He' as [He' _]. by apply Hn in He as [? _].
  - intros r unit E. eapply exact_runs; [|by apply R4]. intros x. simpl. rewrite Hr. split; [tauto|]. intros [[Hx|Hx] Ho]; [done|].
    apply Hn in Hx as [_ Hx]. rewrite Hx in Ho. symmetry in Ho. by apply Haddr in Ho.
Qed.

End Runs.

(** ** The invariant *)

(** What has been taken out of the buckets and not been committed yet: nothing, a free
    chunk, or units of a run. *)
Inductive held :=
| Nothing
| HeldChunk (z n : Z) (l1 : list chunk) (c : chunk) (l2 : list chunk)
| HeldUnits (b : memory_block).

Section Heap.
Context (hlayout max_zone heap_size : Z) (addr : bucket_ref -> Z) (sizes : list Z).

Definition default_inv (k : held) (zs : zones) (m : pmem) (t : ctree) : Prop :=
  match k with
  | HeldChunk z n l1 c l2 => zs z = Some (n, l1 ++ c :: l2) /\ ch_type c = CHUNK_TYPE_FREE /\ heap_zones_but hlayout zs m t z n l1 c l2
  | _ => heap_zones hlayout zs m t
  end.

(** The bitmaps with the units set that have been taken. *)
Definition reserved (k : held) (bm : bitmaps) : bitmaps :=
  match k with
  | HeldUnits b => with_value bm b (Z.lor (value_of bm b) (run_bmask b))
  | _ => bm
  end.

Record heap_inv (k : held) (zs : zones) (m : pmem) (h : heap) : Prop := {
  hi_exhausted : 0 <= h_zones_exhausted h <= max_zone;
  hi_zones z n l : zs z = Some (n, l) -> 0 <= z < h_zones_exhausted h /\ zone_image hlayout sizes (pm_read m) z n l /\ zone_durable hlayout m z l;
  hi_all z : 0 <= z < h_zones_exhausted h -> is_Some (zs z);
  hi_future z : h_zones_exhausted h <= z < max_zone -> zone_state hlayout sizes m z /\
    (zone_magic (pm_read m (zone_header_word hlayout z)) <> ZONE_HEADER_MAGIC ->
     exists n, get_zone_size_idx z max_zone heap_size = Some n /\ 1 <= n <= MAX_CHUNK);
  hi_default : default_inv k zs m (h_default h);
  hi_classes : classes_ok sizes (h_classes h);
  hi_runs : runs_inv hlayout addr zs (pm_read m) (reserved k (memory_bitmaps hlayout m)) (h_classes h) (h_active h) (h_trees h);
}.

Lemma inv_settled k zs m h : heap_inv k zs m h -> settled hlayout max_zone sizes m.
Proof.
  intros [Hx Hz Ha Hf _ _ _] z Hz'. destruct (Z.lt_ge_cases z (h_zones_exhausted h)).
  - destruct (Ha z ltac:(lia)) as [[n l] E]. right. exists n, l. by apply Hz in E as (_ & ? & ?).
  - apply Hf. lia.
Qed.

End Heap.
