(* ===== verification/HeapSteps.v ===== *)
(** * Steps of the heap

    The functions that take blocks out of the buckets or fill them keep the invariant of
    [HeapInv] and hand nothing out: taking a run into use, making a run out of a chunk,
    splitting a chunk, scanning a zone. *)

From S2P Require Import Prelude Pmem Programs Redo RedoProofs Memops Ctree Bucket HeapLayout HeapRun Memblock MemblockRun HeapZone HeapZoneProofs HeapHuge HeapTheorems HeapCreate HeapAlloc HeapInv.

Local Open Scope pmtest_scope.

Section Steps.
Context (hlayout max_zone heap_size : Z) (addr : bucket_ref -> Z) (sizes : list Z).
Context (Haddr : forall r, addr r <> 0) (Hinj : forall r r', addr r = addr r' -> r = r').
Context (Hsizes : forall bs, bs ∈ sizes -> MIN_RUN_SIZE <= bs <= RUNSIZE) (Hmax : max_zone <= UINT16_MAX).

Local Abbreviation inv := (heap_inv hlayout max_zone heap_size addr sizes).
Local Abbreviation zimage := (zone_image hlayout sizes).
Local Abbreviation header := (chunk_header_word hlayout).
Local Abbreviation zheader := (zone_header_word hlayout).
Local Abbreviation silent := (quiet hlayout max_zone sizes).

(** ** Frames *)

(** The headers of zones and chunks are the same. *)
Definition same_headers (m m' : pmem) : Prop :=
  (forall z, pm_read m' (zheader z) = pm_read m (zheader z)) /\
  forall z i, 0 <= i < MAX_CHUNK -> pm_read m' (header z i) = pm_read m (header z i).

Lemma zone_chunks_same m m' z n l : n <= MAX_CHUNK -> same_headers m m' -> zone_chunks hlayout z n m l -> zone_chunks hlayout z n m' l.
Proof.
  intros Hn [S1 S2] [Zs Zt Zf]. split; [by rewrite S1| |].
  - eapply tiles_ext; [|exact Zt]. intros c Hc. pose proof (tiles_bounds _ _ _ _ _ Zt Hc). apply S2. lia.
  - intros c Hc Hs. pose proof (tiles_bounds _ _ _ _ _ Zt Hc). rewrite S2 by lia. by apply Zf.
Qed.

Lemma heap_zones_same zs m m' t : same_headers m m' -> heap_zones hlayout zs m t -> heap_zones hlayout zs m' t.
Proof.
  intros Hs [H1 H2 H3]. split; [done| |done]. intros z n l E. destruct (H2 z n l E) as (A1 & A2 & A3 & A4).
  split; [done|]. split; [done|]. split; [by eapply zone_chunks_same|done].
Qed.

(** The words of a zone are not the pointers from runs to buckets. *)
Lemma vptr_not_word f z n l a z0 c0 : zimage f z n l -> zone_word_of hlayout z l a -> 0 <= c0 < MAX_CHUNK -> a <> run_bucket_vptr (chunk_addr hlayout z0 c0).
Proof.
  intros [_ _ Hn Ht _] Hw Hc0 ->. unfold run_bucket_vptr in Hw. assert (H8 : 0 <= 8 < CHUNKSIZE) by done. destruct Hw as [E|(c & Hc & Hw)].
  - symmetry in E. by apply zone_header_not_chunk in E.
  - destruct (tiles_bounds _ _ _ _ _ Ht Hc) as (B1 & B2 & B3 & _). destruct Hw as [E|(_ & [E|(i & Hi & E)])].
    + symmetry in E. apply header_not_chunk in E; [done|lia|done|done].
    + unfold run_block_size_word in E. rewrite <-(Z.add_0_r (chunk_addr _ _ (ch_at c))) in E. apply chunk_split in E; try done; lia.
    + unfold run_bitmap_word in E. rewrite <-Z.add_assoc in E. pose proof (bitmap_in_meta i Hi) as Hi'. apply meta_in_chunk in Hi'. apply chunk_split in E; try done; lia.
Qed.

(** The words of a run of a zone are in the zone. *)
Lemma run_in_zone zs f x : (forall z n l, zs z = Some (n, l) -> zimage f z n l) -> is_run zs x -> 0 <= x.1 < MAX_CHUNK.
Proof.
  intros H (n & l & c & E & Hc & _ & <-). apply H in E as [_ _ Hn Ht _]. pose proof (tiles_bounds _ _ _ _ _ Ht Hc). lia.
Qed.

(** Replacing a chunk from which nothing is handed out by such chunks. *)
Lemma tiles_image f g z n l1 c cs l2 :
  zimage f z n (l1 ++ c :: l2) -> same_zone hlayout f g z (l1 ++ l2) -> tiles (fun i => g (header z i)) n 0 (l1 ++ cs ++ l2) ->
  (forall d, d ∈ cs -> ch_type d = CHUNK_TYPE_RUN -> run_ok hlayout sizes g (ch_at d, z)) -> zimage g z n (l1 ++ cs ++ l2).
Proof.
  intros [A1 A2 A3 A4 A5] Hs Ht Hr. assert (E : g (zheader z) = f (zheader z)) by (apply Hs; by left). split; rewrite ?E; try done.
  intros d Hd Hdr. rewrite !elem_of_app in Hd. destruct (decide (d ∈ cs)) as [|Hn]; [by apply Hr|].
  assert (Hd' : d ∈ l1 ++ l2) by (apply elem_of_app; tauto). eapply same_zone_run; [done|exact Hs|done|done|].
  apply A5; [|done]. apply elem_of_app in Hd' as [?|?]; apply elem_of_app; [by left|right; by right].
Qed.

Lemma tiles_step f g z n l1 c cs l2 :
  zimage f z n (l1 ++ c :: l2) -> same_zone hlayout f g z (l1 ++ l2) -> tiles (fun i => g (header z i)) n 0 (l1 ++ cs ++ l2) ->
  (forall d, d ∈ cs -> ch_type d = CHUNK_TYPE_RUN -> run_ok hlayout sizes g (ch_at d, z)) ->
  (forall u, ~ taken hlayout f z c u) -> (forall d u, d ∈ cs -> ~ taken hlayout g z d u) -> zone_step hlayout sizes f g z.
Proof.
  intros Hf Hs Ht Hr Hc Hcs. right. right. exists n, (l1 ++ c :: l2), (l1 ++ cs ++ l2). split_and!; [done|by eapply tiles_image|].
  assert (Htk : forall d u, d ∈ l1 ++ l2 -> taken hlayout f z d u <-> taken hlayout g z d u).
  { intros d u Hd. apply same_zone_taken with (sizes := sizes) (l := l1 ++ l2); try done. intros Hdr. apply (zi_runs _ _ _ _ _ _ Hf); [|done].
    apply elem_of_app in Hd as [?|?]; apply elem_of_app; [by left|right; by right]. }
  intros i u. split; intros (d & Hd & Ea & Hd'); exists d.
  - assert (d ∈ l1 ++ l2) as Hin. { apply elem_of_app in Hd as [?|[->|?]%elem_of_cons]; [apply elem_of_app; by left|by apply Hc in Hd'|apply elem_of_app; by right]. }
    split_and!; [|done|by apply Htk]. rewrite !elem_of_app. apply elem_of_app in Hin. tauto.
  - rewrite !elem_of_app in Hd. destruct (decide (d ∈ cs)) as [Hdc|Hn]; [by apply Hcs in Hd'|]. assert (Hin : d ∈ l1 ++ l2) by (apply elem_of_app; tauto).
    split_and!; [|done|by apply Htk]. apply elem_of_app in Hin as [?|?]; apply elem_of_app; [by left|right; by right].
Qed.

(** The headers of the new chunks and of the others give the sequence. *)
Lemma replaced_tiles f g z n l1 c cs l2 : zimage f z n (l1 ++ c :: l2) -> same_zone hlayout f g z (l1 ++ l2) ->
  tiles (fun i => g (header z i)) (ch_at c + ch_size c) (ch_at c) cs -> tiles (fun i => g (header z i)) n 0 (l1 ++ cs ++ l2).
Proof. intros [_ _ _ Ht _] Hs Hc. eapply tiles_replace; [exact Ht| |done]. intros c' Hc'. by eapply same_header. Qed.

Lemma free_not_taken f z c u : ch_type c = CHUNK_TYPE_FREE -> ~ taken hlayout f z c u.
Proof. intros Hf [[Ht _]|[Ht _]]; by rewrite Ht in Hf. Qed.

(** ** Buckets *)

Local Abbreviation class_of h r := (cl_units (h_classes h) !! Z.to_nat (ref_slot r)).

Lemma class_nallocs cl : classes_ok sizes cl -> forall unit (r : bucket_ref), cl_units cl !! Z.to_nat (ref_slot r) = Some unit -> RUN_NALLOCS unit <= RUN_BITMAP_SIZE.
Proof.
  intros Hc unit r E. apply list_elem_of_lookup_2, (co_units _ _ Hc) in E. pose proof (nallocs_range sizes Hsizes _ E). change RUN_BITMAP_SIZE with 2432. lia.
Qed.

Lemma bucket_of_spec h r unit : classes_ok sizes (h_classes h) -> class_of h r = Some unit ->
  exists b, bucket_of h r = Some b /\ run_bucket_ok b /\ b_unit_size b = unit /\ b_tree b = h_trees h r /\ b_bitmap_nallocs b = RUN_NALLOCS unit.
Proof.
  intros Hc E. pose proof E as Hu. apply list_elem_of_lookup_2, (co_units _ _ Hc), Hsizes in Hu.
  destruct (run_create_spec unit Hu) as (nval & lastval & Ec & _). unfold bucket_of. rewrite E. simpl. rewrite Ec. simpl. eexists. split; [done|]. simpl. by split_and!.
Qed.

(** A run of the class of a bucket that no bucket has. *)
Lemma idle_spec b x m : run_bucket_ok b -> b_unit_size b ∈ sizes -> run_ok hlayout sizes (pm_read m) x -> unit_of hlayout (pm_read m) x = b_unit_size b ->
  owner_of hlayout (pm_read m) x = 0 -> pm_read m (header x.2 x.1) = mk_header CHUNK_TYPE_RUN 0 1 -> idle_run hlayout b x.1 x.2 m.
Proof.
  intros Hb Hs [R1 R2 R3] Eu Eo Hw. destruct (numbers_ok b Hb) as (En & Hn & Ha & _ & _). pose proof (nallocs_range sizes Hsizes _ Hs).
  destruct x as [c z]. simpl in *. split; [done|done|done| |].
  - intros i Hi. apply R2. lia.
  - intros p Hp. apply R3. rewrite Eu, <-En. unfold RUN_BITMAP_SIZE, MAX_BITMAP_VALUES, MAX_CACHELINE_ALIGNMENT, BITS_PER_VALUE in *. lia.
Qed.

Lemma take_active_spec l s x l' : take_active l s = Some (x, l') -> exists l1 l2, l = l1 ++ (s, x) :: l2 /\ l' = l1 ++ l2.
Proof.
  revert l'. induction l as [|[s' c] l IH]; intros l'; [done|]. simpl. destruct (Z.eqb_spec s' s) as [->|Hne].
  - intros [= -> ->]. by exists [], l'.
  - destruct (take_active l s) as [[c' l0]|] eqn:E; [|done]. simpl. intros [= -> <-]. destruct (IH l0 eq_refl) as (l1 & l2 & -> & ->).
    by exists ((s', c) :: l1), l2.
Qed.

(** The zone of a run, with the word of its header. *)
Lemma run_header k zs m h x : inv k zs m h -> is_run zs x ->
  0 <= x.1 < MAX_CHUNK /\ 0 <= x.2 < UINT16_MAX /\ run_ok hlayout sizes (pm_read m) x /\ pm_read m (header x.2 x.1) = mk_header CHUNK_TYPE_RUN 0 1.
Proof.
  intros Hi (n & l & c & E & Hc & Hr & Ea). destruct (hi_zones _ _ _ _ _ _ _ _ _ Hi _ _ _ E) as (Hz & [_ _ Hn Ht Hro] & _). destruct Hi as [Hx _ _ _ _ _ _].
  destruct (tiles_bounds _ _ _ _ _ Ht Hc) as (B1 & B2 & B3 & Hty & Hw). destruct x as [i z]. simpl in *. subst i. split_and!; [lia..|by apply Hro|].
  rewrite Hw. unfold chunk_word. destruct Hty as [Hty|[Hty|[_ Hs]]]; [by rewrite Hty in Hr..|by rewrite Hr, Hs].
Qed.

(** ** Storing the pointer to a bucket *)

Local Abbreviation vptr x := (run_bucket_vptr (chunk_addr hlayout x.2 x.1)).

Lemma vptr_store_zones m x v : 0 <= x.1 < MAX_CHUNK -> let ops := [Store (vptr x) v] in
  (forall z n l, zimage (pm_read m) z n l -> zone_durable hlayout m z l -> zimage (pm_read (run ops m)) z n l /\ zone_durable hlayout (run ops m) z l) /\
  (forall z, pm_read (run ops m) (zheader z) = pm_read m (zheader z) /\ (pm_durable m (zheader z) -> pm_durable (run ops m) (zheader z))) /\
  same_headers m (run ops m) /\
  (forall y, 0 <= y.1 < MAX_CHUNK -> unit_of hlayout (pm_read (run ops m)) y = unit_of hlayout (pm_read m) y /\
     (forall i, 0 <= i < MAX_BITMAP_VALUES -> memory_bitmaps hlayout (run ops m) y i = memory_bitmaps hlayout m y i) /\
     owner_of hlayout (pm_read (run ops m)) y = if decide (y = x) then v else owner_of hlayout (pm_read m) y).
Proof.
  intros Hx ops. assert (H8 : 0 <= 8 < CHUNKSIZE) by done.
  assert (Hns : forall a, a <> vptr x -> no_store a ops) by (intros a Ha w [= E _]%list_elem_of_singleton; by apply Ha).
  assert (Hzh : forall z, zheader z <> vptr x) by (intros z; by apply zone_header_not_chunk).
  split_and!.
  - intros z n l Hz Hd. destruct (untouched_run hlayout m ops z l Hd) as [H1 H2]; [intros a Ha; apply Hns; by eapply vptr_not_word|].
    split; [|done]. by eapply same_zone_image.
  - intros z. split; [by apply no_store_read, Hns|]. intros Hd. by apply no_store_durable; [apply Hns|].
  - split; [intros z; by apply no_store_read, Hns|]. intros z i Hi. apply no_store_read, Hns. by apply header_not_chunk.
  - intros y Hy. split_and!.
    + apply no_store_read, Hns. unfold run_block_size_word, run_bucket_vptr. rewrite <-(Z.add_0_r (chunk_addr _ _ y.1)). intros E. apply chunk_split in E; try done; lia.
    + intros i Hi. by apply vptr_bitmaps.
    + unfold owner_of. case_decide as E; [subst y; apply pm_read_store_eq|]. apply pm_read_store_ne. unfold run_bucket_vptr. intros E'.
      apply chunk_split in E' as (Ez & Ec & _); try done. apply E. destruct x, y. simpl in *. congruence.
Qed.

Lemma vptr_store_silent k zs m h x v : inv k zs m h -> 0 <= x.1 < MAX_CHUNK -> silent m [Store (vptr x) v].
Proof.
  intros Hi Hx j f Hcr. pose proof (inv_settled _ _ _ _ _ _ _ _ _ Hi) as Hset. apply images_step. intros z Hz.
  assert (Hns : forall a, a <> vptr x -> no_store a [Store (vptr x) v]) by (intros a Ha w [= E _]%list_elem_of_singleton; by apply Ha).
  destruct (Hset z Hz) as [[Hm Hd]|(n & l & Hl & Hd)].
  - assert (Hn : no_store (zheader z) (take j [Store (vptr x) v])) by (apply no_store_take, Hns; by apply zone_header_not_chunk).
    left. split; [done|]. rewrite (durable_image (run (take j [Store (vptr x) v]) m) _ f); [|by apply no_store_durable|done]. by rewrite no_store_read.
  - eapply same_zone_step; [done| |exact Hl]. eapply untouched_image; [done| |exact Hcr]. intros a Ha. apply Hns. by eapply vptr_not_word.
Qed.

(** ** Taking a run into use *)

(** The parts of the invariant that the pointers to buckets do not matter for. *)
Lemma vptr_store_inv zs m h x v h' : inv Nothing zs m h -> 0 <= x.1 < MAX_CHUNK -> let m' := run [Store (vptr x) v] m in
  h_zones_exhausted h' = h_zones_exhausted h -> h_default h' = h_default h -> classes_ok sizes (h_classes h') ->
  runs_inv hlayout addr zs (pm_read m') (memory_bitmaps hlayout m') (h_classes h') (h_active h') (h_trees h') -> inv Nothing zs m' h'.
Proof.
  intros [Hx Hz Ha Hf Hd Hc _] Hx1 m' E1 E2 Hc' Hr. destruct (vptr_store_zones m x v Hx1) as (V1 & V2 & V3 & V4). fold m' in V1, V2, V3, V4.
  split; rewrite ?E1, ?E2; try done.
  - intros z n l E. destruct (Hz z n l E) as (H1 & H2 & H3). destruct (V1 z n l H2 H3). done.
  - intros z Hz'. destruct (Hf z Hz') as [H1 H2]. destruct (V2 z) as [Ez Ed]. rewrite Ez. split; [|done].
    destruct H1 as [[Hm Hdu]|(n & l & Hl & Hdu)]; [left; rewrite Ez; split; [done|by apply Ed]|right; exists n, l; by apply V1].
  - simpl in *. by eapply heap_zones_same.
Qed.

(** The run [x0] without a bucket is given to [r]. *)
Lemma reuse_inv mal zs m h r b x0 active' :
  inv Nothing zs m h -> bucket_of h r = Some b -> (forall k, mal k = (true, true)) -> class_of h r = Some (b_unit_size b) ->
  is_run zs x0 -> owner_of hlayout (pm_read m) x0 = 0 -> unit_of hlayout (pm_read m) x0 = b_unit_size b ->
  (forall s x, (s, x) ∈ active' -> (s, x) ∈ h_active h /\ x <> x0) -> NoDup (snd <$> active') ->
  let ops := [Store (vptr x0) (addr r)] in
  exists t, heap_reuse_run hlayout mal b (addr r) x0.1 x0.2 m = Some (t, ops) /\
    inv Nothing zs (run ops m) (set_tree (set_active h active') r t) /\ silent m ops.
Proof.
  intros Hi Eb Hm Ec Hx0 Eo Eu Ha Hnd ops. pose proof Hi as [Hx Hz Hall Hf Hd Hcl Hr].
  destruct (bucket_of_spec h r _ Hcl Ec) as (b' & Eb' & Hb & Eun & Et & Ena). rewrite Eb in Eb'. injection Eb' as <-.
  destruct (run_header _ _ _ _ _ Hi Hx0) as (B1 & B2 & Hro & Hw).
  assert (Hsz : b_unit_size b ∈ sizes) by (eapply (co_units _ _ Hcl), list_elem_of_lookup_2; exact Ec).
  pose proof Hr as [R1 R2 R3 R4 R5]. pose proof (R4 r _ Ec) as Hex. rewrite <-Et, <-Ena in Hex. simpl in Hex.
  assert (Hruns : forall x, is_run zs x -> 0 <= x.1 < MAX_CHUNK) by (intros x Hx'; by eapply run_header).
  destruct (reuse_run_spec hlayout mal b (addr r) x0.1 x0.2 m (fun x => is_run zs x /\ owner_of hlayout (pm_read m) x = addr r)) as (t & E & Hex'); try done.
  - by apply idle_spec.
  - intros [_ Ho]. destruct x0. simpl in *. rewrite Eo in Ho. symmetry in Ho. by apply Haddr in Ho.
  - intros x [Hx' _]. by apply Hruns.
  - exists t. split; [exact E|]. split; [|by eapply vptr_store_silent]. fold ops in Hex'.
    destruct (vptr_store_zones m x0 (addr r) B1) as (_ & _ & _ & V4). fold ops in V4.
    eapply vptr_store_inv; [exact Hi|done|done|done|done|]. rewrite Ena in Hex'. fold ops.
    apply (runs_assign hlayout addr Haddr Hinj zs zs (pm_read m) _ (memory_bitmaps hlayout m) _ (h_classes h) (h_active h) active' (h_trees h) r (b_unit_size b) x0 t); try done.
    + by eapply class_nallocs.
    + by apply class_nallocs.
    + intros x. split; [by left|]. by intros [?| ->].
    + destruct (V4 x0 B1) as (_ & _ & V). by rewrite V, decide_True.
    + destruct (V4 x0 B1) as (V & _). by rewrite V.
    + intros x Hx' Hne. destruct (V4 x (Hruns x Hx')) as (W1 & W2 & W3). rewrite W1, W3, decide_False by done. done.
    + eapply exact_runs; [|exact Hex']. intros x. simpl. destruct x0. done.
Qed.

Lemma active_inv mal zs m h r b x0 h1 :
  inv Nothing zs m h -> bucket_of h r = Some b -> (forall k, mal k = (true, true)) -> class_of h r = Some (b_unit_size b) -> 
  heap_get_active_run h (ref_slot r) = Some (x0, h1) ->
  let ops := [Store (vptr x0) (addr r)] in
  exists t, heap_reuse_run hlayout mal b (addr r) x0.1 x0.2 m = Some (t, ops) /\
    inv Nothing zs (run ops m) (set_tree h1 r t) /\ silent m ops /\ length (h_active h) = S (length (h_active h1)) /\ is_run zs x0.
Proof.
  intros Hi Eb Hm Ec Hg ops. unfold heap_get_active_run in Hg. destruct (take_active _ _) as [[x l]|] eqn:E; [|done]. simpl in Hg. injection Hg as <- <-.
  destruct (take_active_spec _ _ _ _ E) as (l1 & l2 & El & ->). pose proof Hi as [_ _ _ _ _ _ [R1 R2 R3 R4 R5]].
  destruct (R2 (ref_slot r) x) as (H1 & H2 & H3); [rewrite El; apply elem_of_app; right; left|]. rewrite Ec in H3. injection H3 as H3.
  rewrite El, fmap_app, fmap_cons in R3. apply NoDup_app in R3 as (N1 & N2 & N3). apply NoDup_cons in N3 as [N3 N4].
  destruct (reuse_inv mal zs m h r b x (l1 ++ l2)) as (t & Et & Hi' & Hs); try done.
  - intros s y Hy. split; [rewrite El; apply elem_of_app in Hy as [?|?]; apply elem_of_app; [by left|right; by right]|]. intros ->.
    apply elem_of_app in Hy as [Hy|Hy].
    + apply (N2 x); [apply list_elem_of_fmap; by exists (s, x)|left].
    + apply N3, list_elem_of_fmap. by exists (s, x).
  - rewrite fmap_app. apply NoDup_app. split_and!; [done| |done]. intros y Hy Hy'. apply (N2 y Hy). by right.
  - exists t. split_and!; try done. change (h_active (set_active h (l1 ++ l2))) with (l1 ++ l2). rewrite El, !length_app. simpl. lia.
Qed.

(** ** Making a run *)

(** Other zones are not touched. *)
Lemma other_zones m ops z0 : (forall a v, Store a v ∈ ops -> in_zone hlayout z0 a) ->
  forall z n l, z <> z0 -> zimage (pm_read m) z n l -> zone_durable hlayout m z l -> zimage (pm_read (run ops m)) z n l /\ zone_durable hlayout (run ops m) z l.
Proof.
  intros Hst z n l Hne Hl Hd. destruct (untouched_run hlayout m ops z l Hd) as [H1 H2].
  - intros a Ha v Hv. apply Hne. eapply in_zone_unique; [by eapply word_in_zone|by eapply Hst].
  - split; [|done]. by eapply same_zone_image.
Qed.

Lemma future_zones m ops z0 z : (forall a v, Store a v ∈ ops -> in_zone hlayout z0 a) -> z <> z0 ->
  zone_state hlayout sizes m z -> zone_state hlayout sizes (run ops m) z /\ pm_read (run ops m) (zheader z) = pm_read m (zheader z).
Proof.
  intros Hst Hne Hz. split; [by eapply other_zone|]. apply no_store_read. intros v Hv. apply Hne. eapply in_zone_unique; [apply zone_header_in|by eapply Hst].
Qed.

Lemma set_zone_at zs z n l : set_zone zs z n l z = Some (n, l).
Proof. unfold set_zone. by rewrite Z.eqb_refl. Qed.
Lemma set_zone_ne zs z n l z' : z' <> z -> set_zone zs z n l z' = zs z'.
Proof. intros H. unfold set_zone. by rewrite (proj2 (Z.eqb_neq _ _) H). Qed.

(** The runs of the zones when the chunk [c] of a zone is replaced. *)
Lemma is_run_replace zs z n l1 c cs l2 x : zs z = Some (n, l1 ++ c :: l2) -> ch_type c <> CHUNK_TYPE_RUN ->
  is_run (set_zone zs z n (l1 ++ cs ++ l2)) x <-> is_run zs x \/ exists d, d ∈ cs /\ ch_type d = CHUNK_TYPE_RUN /\ x = (ch_at d, z).
Proof.
  intros E Hc. destruct x as [i z']. unfold is_run. simpl. destruct (decide (z' = z)) as [->|Hne].
  - rewrite set_zone_at, E. split.
    + intros (n' & l & d & [= <- <-] & Hd & Hr & Ea). rewrite !elem_of_app in Hd. destruct (decide (d ∈ cs)) as [|Hn]; [right; exists d; split_and!; [done|done|by subst]|].
      left. exists n, (l1 ++ c :: l2), d. split_and!; try done. rewrite elem_of_app, elem_of_cons. tauto.
    + intros [(n' & l & d & [= <- <-] & Hd & Hr & Ea)|(d & Hd & Hr & [= ->])].
      * exists n, (l1 ++ cs ++ l2), d. split_and!; try done. rewrite elem_of_app, elem_of_cons in Hd. rewrite !elem_of_app. destruct Hd as [?|[->|?]]; [tauto|done|tauto].
      * exists n, (l1 ++ cs ++ l2), d. split_and!; try done. rewrite !elem_of_app. tauto.
  - rewrite set_zone_ne by done. split; [by left|]. intros [?|(d & _ & _ & [= _ ?])]; done.
Qed.

(** The chunks of a zone other than [c]. *)
Lemma other_word f z n l1 c l2 a : zimage f z n (l1 ++ c :: l2) -> zone_word_of hlayout z (l1 ++ l2) a ->
  zone_word_of hlayout z (l1 ++ c :: l2) a /\ a <> header z (ch_at c) /\ forall k, 0 <= k < CHUNKSIZE -> a <> chunk_addr hlayout z (ch_at c) + k.
Proof.
  intros [_ _ Hn Ht _] Hw. destruct (tiles_split n _ _ _ _ Ht) as (_ & _ & _ & B1 & B2 & B3 & _).
  assert (Hin : forall c', c' ∈ l1 ++ l2 -> c' ∈ l1 ++ c :: l2) by (intros c' Hc'; apply elem_of_app in Hc' as [?|?]; apply elem_of_app; [by left|right; by right]).
  destruct Hw as [->|(c' & Hc' & Hw)].
  - split_and!; [by left| |].
    + intros E. symmetry in E. apply zone_header_ne in E; [done|lia].
    + intros k Hk. apply zone_header_not_chunk; [lia|done].
  - destruct (tiles_others n _ _ _ _ _ Ht Hc') as [(I1 & I2 & I3) Hap]. split; [right; exists c'; by split; [apply Hin|]|].
    destruct Hw as [->|(_ & [->|(i & Hi & ->)])].
    + split; [intros E%header_inj; lia|]. intros k Hk. apply header_not_chunk; [lia|lia|done].
    + unfold run_block_size_word. rewrite <-(Z.add_0_r (chunk_addr _ _ (ch_at c'))). split.
      * intros E. symmetry in E. apply header_not_chunk in E; [done|lia|lia|done].
      * intros k Hk E. apply chunk_split in E as (_ & E & _); try done; lia.
    + unfold run_bitmap_word. rewrite <-Z.add_assoc. pose proof (bitmap_in_meta i Hi) as Hi'. apply meta_in_chunk in Hi'. split.
      * intros E. symmetry in E. apply header_not_chunk in E; [done|lia|lia|done].
      * intros k Hk E. apply chunk_split in E as (_ & E & _); try done; lia.
Qed.

(** A new run is a run with nothing handed out. *)
Lemma new_run_ok f b c z : run_bucket_ok b -> b_unit_size b ∈ sizes -> new_run hlayout f b (ch_at c) z ->
  run_ok hlayout sizes f (ch_at c, z) /\ forall u, ~ taken hlayout f z (run_chunk c) u.
Proof.
  intros Hb Hs [N1 N2]. destruct (numbers_ok b Hb) as (En & _). pose proof (nallocs_range sizes Hsizes _ Hs).
  assert (Hu : forall p, 0 <= p < RUN_BITMAP_SIZE -> used_unit (bits_of hlayout f (ch_at c, z)) p = (b_bitmap_nallocs b <=? p)).
  { intros p Hp. rewrite <-new_run_free by done. unfold used_unit. f_equal. apply N2. by apply value_index. }
  assert (Eu : unit_of hlayout f (ch_at c, z) = b_unit_size b) by done. split; [split|].
  - by rewrite Eu.
  - intros i Hi. unfold bits_of. simpl. rewrite N2 by done. by apply new_value_range.
  - intros p Hp. rewrite Eu in Hp. rewrite Hu by lia. apply Z.leb_le. lia.
  - intros u [[Ht _]|(_ & Hu' & Hus)]; [done|]. cbn [ch_at run_chunk] in *. rewrite Eu in Hu'. rewrite Hu in Hus by (change RUN_BITMAP_SIZE with 2432; lia).
    apply Z.leb_le in Hus. lia.
Qed.

Lemma create_in_zone b ptr c z a v : run_bucket_ok b -> 0 <= c < MAX_CHUNK -> Store a v ∈ create_ops hlayout b ptr c z -> in_zone hlayout z a.
Proof.
  intros Hb Hc Hs. apply create_store in Hs as [->|(k & Hk & ->)]; [by apply chunk_header_in| |done]. apply chunk_in; [done|by apply meta_in_chunk].
Qed.

Lemma create_other b ptr f z n l1 c l2 a : run_bucket_ok b -> zimage f z n (l1 ++ c :: l2) -> zone_word_of hlayout z (l1 ++ l2) a ->
  no_store a (create_ops hlayout b ptr (ch_at c) z).
Proof.
  intros Hb Hf Hw v Hs. destruct (other_word f z n l1 c l2 a Hf Hw) as (_ & Hh & Hk).
  apply create_store in Hs as [E|(k & Hk' & E)]; [done| |done]. by apply (Hk k); [apply meta_in_chunk|].
Qed.

(** Nothing of a run changes when the words of its chunk do not. *)
Lemma chunk_frame m m' x : (forall k, 0 <= k < CHUNKSIZE -> pm_read m' (chunk_addr hlayout x.2 x.1 + k) = pm_read m (chunk_addr hlayout x.2 x.1 + k)) ->
  owner_of hlayout (pm_read m') x = owner_of hlayout (pm_read m) x /\ unit_of hlayout (pm_read m') x = unit_of hlayout (pm_read m) x /\
  forall i, 0 <= i < MAX_BITMAP_VALUES -> memory_bitmaps hlayout m' x i = memory_bitmaps hlayout m x i.
Proof.
  intros H. split_and!.
  - by apply (H 8).
  - unfold unit_of, run_block_size_word. rewrite <-(Z.add_0_r (chunk_addr _ _ _)). by apply H.
  - intros i Hi. unfold memory_bitmaps, run_bitmap_word. simpl. rewrite <-!Z.add_assoc. by apply H, meta_in_chunk, bitmap_in_meta.
Qed.

(** Other runs. *)
Lemma create_frame b ptr c z m x : run_bucket_ok b -> 0 <= c < MAX_CHUNK -> 0 <= x.1 < MAX_CHUNK -> x <> (c, z) -> let m' := run (create_ops hlayout b ptr c z) m in
  owner_of hlayout (pm_read m') x = owner_of hlayout (pm_read m) x /\ unit_of hlayout (pm_read m') x = unit_of hlayout (pm_read m) x /\
  forall i, 0 <= i < MAX_BITMAP_VALUES -> memory_bitmaps hlayout m' x i = memory_bitmaps hlayout m x i.
Proof.
  intros Hb Hc Hx Hne m'. destruct x as [c' z']. simpl in Hx. apply chunk_frame. intros k Hk. simpl. apply no_store_read.
  intros v Hv. apply create_store in Hv as [E|(k' & Hk' & E)]; [| |done].
  - symmetry in E. by apply header_not_chunk in E.
  - apply chunk_split in E as (-> & -> & _); try done. by apply meta_in_chunk.
Qed.

Section CreateZone.
Context (m : pmem) (z n : Z) (l1 : list chunk) (c : chunk) (l2 : list chunk) (b : bucket) (ptr : Z).
Context (Hb : run_bucket_ok b) (Hunit : b_unit_size b ∈ sizes).
Context (Hz : zimage (pm_read m) z n (l1 ++ c :: l2)) (Hd : zone_durable hlayout m z (l1 ++ c :: l2)).
Context (Hfree : ch_type c = CHUNK_TYPE_FREE) (Hsize : ch_size c = 1).

Local Abbreviation ops := (create_ops hlayout b ptr (ch_at c) z).

Lemma create_at : 0 <= ch_at c < MAX_CHUNK.
Proof. destruct Hz as [_ _ Hn Ht _]. destruct (tiles_split n _ _ _ _ Ht) as (_ & _ & _ & B1 & B2 & B3 & _). lia. Qed.

Lemma old_header : pm_read m (header z (ch_at c)) = mk_header CHUNK_TYPE_FREE 0 1.
Proof. destruct Hz as [_ _ Hn Ht _]. destruct (tiles_split n _ _ _ _ Ht) as (_ & _ & _ & _ & _ & _ & ->). unfold chunk_word. by rewrite Hfree, Hsize. Qed.

Lemma word_before a : zone_word_of hlayout z (l1 ++ l2) a -> zone_word_of hlayout z (l1 ++ c :: l2) a.
Proof. intros Ha. by eapply other_word. Qed.

Lemma kept_words j f : pm_crash (run (take j ops) m) f -> same_zone hlayout (pm_read m) f z (l1 ++ l2).
Proof.
  apply untouched_image; [intros a Ha; by apply Hd, word_before|]. intros a Ha. by eapply create_other.
Qed.

Lemma run_tiles (g : Z -> Z) : g (header z (ch_at c)) = mk_header CHUNK_TYPE_RUN 0 1 ->
  tiles (fun i => g (header z i)) (ch_at c + ch_size c) (ch_at c) [run_chunk c].
Proof. intros E. rewrite Hsize. apply tiles_chunk; try done; [by right; right|constructor]. Qed.

Lemma create_zone_step j f : pm_crash (run (take j ops) m) f -> zone_step hlayout sizes (pm_read m) f z.
Proof.
  intros Hcr. pose proof (kept_words j f Hcr) as Hk. pose proof create_at as Hc.
  assert (Hdh : pm_durable m (header z (ch_at c))) by (apply Hd; right; exists c; split; [apply elem_of_app; right; left|by left]).
  destruct (create_crash hlayout b ptr (ch_at c) z m j f Hb Hc Hcr) as [Hold|[Hnew Hr]].
  - eapply same_zone_step; [exact Hsizes| |exact Hz]. intros a [->|(d & Hel & Hw)]; [apply Hk; by left|].
    apply elem_of_app in Hel as [Hel|[->|Hel]%elem_of_cons].
    + apply Hk. right. exists d. split; [apply elem_of_app; by left|done].
    + destruct Hw as [->|[Ht _]]; [by apply Hold|by rewrite Ht in Hfree].
    + apply Hk. right. exists d. split; [apply elem_of_app; by right|done].
  - destruct (new_run_ok f b c z Hb Hunit Hr) as [Hro Hnt].
    apply (tiles_step (pm_read m) f z n l1 c [run_chunk c] l2); try done.
    + eapply replaced_tiles; [exact Hz|done|]. apply run_tiles. rewrite Hnew by done. by rewrite decide_True.
    + by intros d ->%list_elem_of_singleton _.
    + intros u. by apply free_not_taken.
    + by intros d u ->%list_elem_of_singleton.
Qed.

Lemma create_done : let m' := run ops m in
  pm_read m' (header z (ch_at c)) = mk_header CHUNK_TYPE_RUN 0 1 /\ pm_durable m' (header z (ch_at c)) /\ new_run hlayout (pm_read m') b (ch_at c) z /\
  pm_durable m' (run_block_size_word (chunk_addr hlayout z (ch_at c))) /\
  (forall i, 0 <= i < MAX_BITMAP_VALUES -> pm_durable m' (run_bitmap_word (chunk_addr hlayout z (ch_at c)) i)) /\
  owner_of hlayout (pm_read m') (ch_at c, z) = ptr.
Proof.
  intros m'. pose proof create_at as Hc. assert (Em : m' = run (take 3 (type_ops (header z (ch_at c)))) (run (fill_ops b ptr (chunk_addr hlayout z (ch_at c))) m)) by (unfold m', create_ops; by rewrite run_app).
  destruct (created_words hlayout b ptr (ch_at c) z m 3 Hb Hc) as (N & D1 & D2 & V). rewrite <-Em in N, D1, D2, V.
  split_and!; try done; rewrite Em; simpl; [by rewrite pm_read_fence, pm_read_flush, pm_read_store_eq|]. apply (persist_durable _ _ 8). lia.
Qed.

Lemma create_zone : zimage (pm_read (run ops m)) z n (l1 ++ run_chunk c :: l2) /\ zone_durable hlayout (run ops m) z (l1 ++ run_chunk c :: l2).
Proof.
  destruct create_done as (H1 & H2 & H3 & H4 & H5 & _). destruct (new_run_ok _ b c z Hb Hunit H3) as [Hro _].
  destruct (untouched_run hlayout m ops z (l1 ++ l2)) as [Hk Hkd]; [intros a Ha; by apply Hd, word_before|intros a Ha; by eapply create_other|]. split.
  - apply (tiles_image (pm_read m) _ z n l1 c [run_chunk c] l2); try done; [by eapply replaced_tiles; [exact Hz|done|apply run_tiles]|]. by intros d ->%list_elem_of_singleton _.
  - intros a [->|(d & Hel & Hw)]; [apply Hkd; by left|]. apply elem_of_app in Hel as [Hel|[->|Hel]%elem_of_cons].
    + apply Hkd. right. exists d. split; [apply elem_of_app; by left|done].
    + destruct Hw as [->|(_ & [->|(i & Hi & ->)])]; [done|done|by apply H5].
    + apply Hkd. right. exists d. split; [apply elem_of_app; by right|done].
Qed.

End CreateZone.

(** The held chunk becomes a run of the bucket [r]. *)
Lemma create_inv mal zs m h r b z n l1 c l2 :
  inv (HeldChunk z n l1 c l2) zs m h -> ch_size c = 1 -> bucket_of h r = Some b -> (forall k, mal k = (true, true)) -> class_of h r = Some (b_unit_size b) ->
  let ops := create_ops hlayout b (addr r) (ch_at c) z in
  exists t, heap_create_run hlayout mal b (addr r) (ch_at c) z m = Some (t, ops) /\
    inv Nothing (set_zone zs z n (l1 ++ run_chunk c :: l2)) (run ops m) (set_tree h r t) /\ silent m ops /\
    owner_of hlayout (pm_read (run ops m)) (ch_at c, z) = addr r /\ new_run hlayout (pm_read (run ops m)) b (ch_at c) z.
Proof.
  intros Hi Hs Eb Hm Ec ops. pose proof Hi as [Hx Hzs Hall Hf (Ez & Hfree & Hbut) Hcl Hr]. simpl in Hr.
  destruct (Hzs z n _ Ez) as (Hzr & Hz & Hd). destruct (bucket_of_spec h r _ Hcl Ec) as (b' & Eb' & Hb & _ & Et & Ena). rewrite Eb in Eb'. injection Eb' as <-.
  assert (Hsz : b_unit_size b ∈ sizes) by (eapply (co_units _ _ Hcl), list_elem_of_lookup_2; exact Ec).
  pose proof (create_at m z n l1 c l2 Hz Hs) as Hc. pose proof (old_header m z n l1 c l2 Hz Hfree Hs) as Hw.
  assert (Hst : forall a v, Store a v ∈ ops -> in_zone hlayout z a) by (intros a v; by apply create_in_zone).
  assert (Hruns : forall x, is_run zs x -> 0 <= x.1 < MAX_CHUNK) by (intros x Hx'; by eapply run_header).
  assert (Hnew : ~ is_run zs (ch_at c, z)). { intros Hir. destruct (run_header _ _ _ _ _ Hi Hir) as (_ & _ & _ & E). simpl in E. rewrite Hw in E. done. }
  pose proof Hr as [R1 R2 R3 R4 R5]. pose proof (R4 r _ Ec) as Hex. rewrite <-Et, <-Ena in Hex.
  destruct (create_run_spec hlayout mal b (addr r) (ch_at c) z m (fun x => is_run zs x /\ owner_of hlayout (pm_read m) x = addr r)) as (t & E & Hex'); try done; [lia|by intros [? _]|intros x [Hx' _]; by apply Hruns|].
  fold ops in E, Hex'. exists t. split; [exact E|]. split.
  2:{ split; [|split; eapply create_done; done]. apply (quiet_zone hlayout max_zone sizes Hsizes m ops z); [by eapply inv_settled|done|]. intros j f. by eapply create_zone_step. }
  destruct (create_zone m z n l1 c l2 b (addr r) Hb Hsz Hz Hd Hs) as [Hz' Hd']. fold ops in Hz', Hd'.
  destruct (create_done m z n l1 c l2 b (addr r) Hb Hz Hs) as (_ & _ & [N1 _] & _ & _ & No). fold ops in N1, No.
  split; [done| | | |cbn [default_inv]|done|cbn [reserved]].
  - intros z' n' l' E'. destruct (decide (z' = z)) as [->|Hne]; [rewrite set_zone_at in E'; by injection E' as <- <-|]. rewrite set_zone_ne in E' by done.
    destruct (Hzs z' n' l' E') as (H1 & H2 & H3). split; [done|]. by eapply other_zones.
  - intros z' Hz''. destruct (decide (z' = z)) as [->|Hne]; [by rewrite set_zone_at|]. rewrite set_zone_ne by done. by apply Hall.
  - intros z' Hz''. destruct (Hf z' Hz'') as [H1 H2]. destruct (future_zones m ops z z' Hst) as [H3 H4]; [change (h_zones_exhausted h <= z' < max_zone) in Hz''; lia|done|]. by rewrite H4.
  - eapply commit_as; [exact Hbut|done|done|by right; right|done|by apply create_written].
  - rewrite Ena in Hex'. apply (runs_assign hlayout addr Haddr Hinj zs _ (pm_read m) _ (memory_bitmaps hlayout m) _ (h_classes h) (h_active h) (h_active h) (h_trees h) r (b_unit_size b) (ch_at c, z) t); try done.
    + by eapply class_nallocs.
    + by apply class_nallocs.
    + intros x. change (l1 ++ run_chunk c :: l2) with (l1 ++ [run_chunk c] ++ l2). rewrite (is_run_replace zs z n l1 c) by (done || by rewrite Hfree).
      split; [intros [?|(d & ->%list_elem_of_singleton & _ & ->)]; [by left|by right]|intros [?| ->]; [by left|right; exists (run_chunk c); split_and!; [left|done|done]]].
    + intros x Hx' Hne. by apply create_frame; [..|apply Hruns|].
    + intros s x Hsx. split; [done|]. intros ->. by apply R2 in Hsx as [? _].
Qed.

(** ** Taking a chunk *)

(** Splitting a free chunk touches only headers of the chunk. *)
Lemma resize_other f z n l1 c l2 k a : zimage f z n (l1 ++ c :: l2) -> 1 <= k < ch_size c -> zone_word_of hlayout z (l1 ++ l2) a ->
  no_store a (resize_ops hlayout z c k).
Proof.
  intros Hf Hk Hw v Hs. pose proof Hf as [_ _ Hn Ht _]. destruct (tiles_split n _ _ _ _ Ht) as (_ & _ & _ & B1 & B2 & B3 & _).
  assert (Hin : inside n c) by (unfold inside; lia). destruct (resize_store hlayout z n c k a v Hin ltac:(lia) Hk Hs) as (i & Hi & E).
  destruct Hw as [->|(c' & Hc' & Hw)]; [symmetry in E; by apply zone_header_ne in E|].
  destruct (tiles_others n _ _ _ _ _ Ht Hc') as [I Hap]. pose proof I as (I1 & I2 & I3). destruct Hw as [->|(_ & [->|(q & Hq & ->)])].
  - by apply (resize_no_store hlayout z n c c' k) in Hs.
  - unfold run_block_size_word in E. rewrite <-(Z.add_0_r (chunk_addr _ _ _)) in E. symmetry in E. apply header_not_chunk in E; [done|done|lia|done].
  - unfold run_bitmap_word in E. rewrite <-Z.add_assoc in E. symmetry in E. apply header_not_chunk in E; [done|done|lia|by apply meta_in_chunk, bitmap_in_meta].
Qed.

Lemma resize_in_zone z n c k a v : inside n c -> n <= MAX_CHUNK -> 1 <= k < ch_size c -> Store a v ∈ resize_ops hlayout z c k -> in_zone hlayout z a.
Proof. intros Hi Hn Hk Hs. destruct (resize_store _ _ _ _ _ _ _ Hi Hn Hk Hs) as (i & Hi' & ->). by apply chunk_header_in. Qed.

Lemma resize_zone_spec m z n l1 c l2 k :
  zimage (pm_read m) z n (l1 ++ c :: l2) -> zone_durable hlayout m z (l1 ++ c :: l2) -> ch_type c = CHUNK_TYPE_FREE -> 1 <= k < ch_size c ->
  let ops := resize_ops hlayout z c k in let l' := l1 ++ [first_part c k; second_part c k] ++ l2 in
  (zimage (pm_read (run ops m)) z n l' /\ zone_durable hlayout (run ops m) z l') /\
  forall j f, pm_crash (run (take j ops) m) f -> zone_step hlayout sizes (pm_read m) f z.
Proof.
  intros Hz Hd Hf Hk ops l'. pose proof Hz as [_ _ Hn Ht _].
  assert (Hd' : zone_durable hlayout m z (l1 ++ l2)) by (intros a Ha; apply Hd; by eapply other_word).
  assert (Hno : forall a, zone_word_of hlayout z (l1 ++ l2) a -> no_store a ops) by (intros a; by eapply resize_other).
  destruct (resize_spec hlayout z n m l1 c l2 k Ht) as [[T1 T2] Tc]; [intros d Hd1; apply Hd; right; exists d; by split; [|left]|done|].
  assert (Hfree : forall d, d ∈ [first_part c k; second_part c k] -> ch_type d = CHUNK_TYPE_FREE) by by intros d [->| ->%list_elem_of_singleton]%elem_of_cons.
  assert (Hnr : forall g d, d ∈ [first_part c k; second_part c k] -> ch_type d = CHUNK_TYPE_RUN -> run_ok hlayout sizes g (ch_at d, z)) by (intros g d Hd1 Hr; by rewrite (Hfree d Hd1) in Hr).
  destruct (untouched_run hlayout m ops z (l1 ++ l2) Hd' Hno) as [K1 K2]. split; [split|].
  - by eapply tiles_image; [exact Hz| | |apply Hnr].
  - intros a [->|(d & Hd1 & Hw)]; [apply K2; by left|]. destruct Hw as [->|[Hr Hw]]; [by apply T2|].
    apply K2. right. exists d. split; [|by right]. unfold l' in Hd1. rewrite !elem_of_app in Hd1. apply elem_of_app.
    destruct Hd1 as [?|[Hd1|?]]; [by left|by rewrite (Hfree d Hd1) in Hr|by right].
  - intros j f Hcr. pose proof (untouched_image hlayout m ops j f z (l1 ++ l2) Hd' Hno Hcr) as K. destruct (Tc j f Hcr) as [T|T].
    + apply (tiles_step (pm_read m) f z n l1 c [c] l2); try done.
      * intros d ->%list_elem_of_singleton Hr. by rewrite Hf in Hr.
      * intros u. by apply free_not_taken.
      * intros d u ->%list_elem_of_singleton. by apply free_not_taken.
    + apply (tiles_step (pm_read m) f z n l1 c [first_part c k; second_part c k] l2); try done; [by apply Hnr| |].
      * intros u. by apply free_not_taken.
      * intros d u Hd1. apply free_not_taken. by apply Hfree.
Qed.

(** Writing headers does not change runs. *)
Lemma header_frame m ops x : 0 <= x.1 < MAX_CHUNK ->
  (forall a v, Store a v ∈ ops -> (exists z, a = zheader z) \/ exists z i, 0 <= i < MAX_CHUNK /\ a = header z i) ->
  owner_of hlayout (pm_read (run ops m)) x = owner_of hlayout (pm_read m) x /\ unit_of hlayout (pm_read (run ops m)) x = unit_of hlayout (pm_read m) x /\
  forall i, 0 <= i < MAX_BITMAP_VALUES -> memory_bitmaps hlayout (run ops m) x i = memory_bitmaps hlayout m x i.
Proof.
  intros Hx Hst. apply chunk_frame. intros k Hk. apply no_store_read. intros v Hv. destruct (Hst _ _ Hv) as [[z E]|(z & i & Hi & E)]; symmetry in E.
  - by apply zone_header_not_chunk in E.
  - by apply header_not_chunk in E.
Qed.

(** Two ways to write the zones. *)
Lemma is_run_ext zs zs' x : (forall z, zs' z = zs z) -> is_run zs' x <-> is_run zs x.
Proof. intros H. unfold is_run. by rewrite H. Qed.

Lemma but_ext zs zs' m t z n l1 c l2 : (forall z', z' <> z -> zs' z' = zs z') -> heap_zones_but hlayout zs m t z n l1 c l2 -> heap_zones_but hlayout zs' m t z n l1 c l2.
Proof.
  intros H [B1 B2 B3 B4]. split; [done|done| |].
  - intros z' n' l' Hne E. rewrite H in E by done. by apply B3.
  - intros x Hx Hh. destruct (B4 x Hx Hh) as [?|Hs]; [by left|]. destruct (decide (zone_id x = z)); [by left|right]. by rewrite H.
Qed.

(** The chunk [c] of a zone is taken out of the bucket, after it was replaced. *)
Lemma hold_chunk_inv zs m h z n l1 c cs d l2 ops t :
  inv Nothing zs m h -> zs z = Some (n, l1 ++ c :: l2) -> ch_type c = CHUNK_TYPE_FREE -> (forall d, d ∈ cs -> ch_type d = CHUNK_TYPE_FREE) ->
  ch_type d = CHUNK_TYPE_FREE ->
  (forall a v, Store a v ∈ ops -> exists i, 0 <= i < MAX_CHUNK /\ a = header z i) ->
  zimage (pm_read (run ops m)) z n (l1 ++ d :: cs ++ l2) /\ zone_durable hlayout (run ops m) z (l1 ++ d :: cs ++ l2) ->
  heap_zones_but hlayout zs (run ops m) t z n l1 d (cs ++ l2) ->
  inv (HeldChunk z n l1 d (cs ++ l2)) (set_zone zs z n (l1 ++ d :: cs ++ l2)) (run ops m) (set_default h t).
Proof.
  intros Hi Ez Hf Hcs Hd Hst [Hz' Hd'] Hbut. pose proof Hi as [Hx Hzs Hall Hfu _ Hcl Hr]. destruct (Hzs z n _ Ez) as (Hzr & _).
  assert (Hin : forall a v, Store a v ∈ ops -> in_zone hlayout z a) by (intros a v Hv; destruct (Hst a v Hv) as (i & Hi' & ->); by apply chunk_header_in).
  split; [done| | | | |done|].
  - intros z' n' l' E'. destruct (decide (z' = z)) as [->|Hne]; [rewrite set_zone_at in E'; by injection E' as <- <-|]. rewrite set_zone_ne in E' by done.
    destruct (Hzs z' n' l' E') as (H1 & H2 & H3). split; [done|]. by eapply other_zones.
  - intros z' Hz''. destruct (decide (z' = z)) as [->|Hne]; [by rewrite set_zone_at|]. rewrite set_zone_ne by done. by apply Hall.
  - intros z' Hz''. change (h_zones_exhausted h <= z' < max_zone) in Hz''. destruct (Hfu z' Hz'') as [H1 H2].
    destruct (future_zones m ops z z' Hin) as [H3 H4]; [lia|done|]. by rewrite H4.
  - split; [apply set_zone_at|]. split; [done|]. eapply but_ext; [|exact Hbut]. intros z' Hne. by apply set_zone_ne.
  - eapply (runs_frame hlayout addr Haddr Hinj zs); [by apply class_nallocs| |done| |exact Hr].
    + intros x. change (l1 ++ d :: cs ++ l2) with (l1 ++ (d :: cs) ++ l2). rewrite (is_run_replace zs z n l1 c (d :: cs)) by (done || by rewrite Hf). split; [|by left].
      intros [?|(e & He & Her & _)]; [done|]. apply elem_of_cons in He as [->|He]; [by rewrite Hd in Her|by rewrite (Hcs e He) in Her].
    + intros x Hx'. apply header_frame; [by eapply run_header|]. intros a v Hv. right. exists z. by apply Hst in Hv.
Qed.

(** [heap_get_bestfit_block] on the default bucket, without the scan of zones. *)
Lemma take_huge_inv mal zs m h units : inv Nothing zs m h -> mal = (true, true) -> 1 <= units <= UINT16_MAX ->
  exists err b t ops, take_from_huge hlayout mal (h_default h) units m = Some ((err, b, t), ops) /\ silent m ops /\
    (err = 0 /\ (exists z n l1 c l2, b = chunk_block z c /\ ch_size c = units /\
       inv (HeldChunk z n l1 c l2) (set_zone zs z n (l1 ++ c :: l2)) (run ops m) (set_default h t)) \/
     err = ENOMEM /\ t = h_default h /\ ops = [] /\ forall z n l c, zs z = Some (n, l) -> c ∈ l -> ch_type c = CHUNK_TYPE_FREE -> ch_size c < units).
Proof.
  intros Hi -> Hu. pose proof Hi as [Hx Hzs Hall Hfu Hdef Hcl Hr]. pose proof (inv_settled _ _ _ _ _ _ _ _ _ Hi) as Hset.
  destruct (huge_alloc_spec hlayout zs (true, true) m (h_default h) units Hdef eq_refl eq_refl Hu) as (err & b & t & ops & E & Hor). exists err, b, t, ops. split; [exact E|].
  destruct Hor as [(-> & z & n & l1 & c & l2 & Ez & Hf & Hle & Eo & -> & Hbut)|(-> & -> & -> & Hno)].
  2:{ split; [by apply quiet_nil|]. by right. }
  destruct (Hzs z n _ Ez) as (Hzr & Hz & Hd). pose proof Hz as [_ _ Hn Ht _]. destruct (tiles_split n _ _ _ _ Ht) as (_ & _ & _ & B1 & B2 & B3 & _).
  assert (Hin : inside n c) by (unfold inside; lia). unfold rest_of in Hbut. destruct (Z.eqb_spec units (ch_size c)) as [->|Hne].
  - subst ops. rewrite first_whole in * by done. split; [by apply quiet_nil|]. left. split; [done|]. exists z, n, l1, c, l2. split_and!; [done|done|].
    apply (hold_chunk_inv zs m h z n l1 c [] c l2 [] t); try done; [by intros d ?%elem_of_nil|by intros a v ?%elem_of_nil].
  - subst ops. destruct (resize_zone_spec m z n l1 c l2 units Hz Hd Hf ltac:(lia)) as [Hz' Hc]. split.
    + apply (quiet_zone hlayout max_zone sizes Hsizes m _ z); [done| |done]. intros a v. apply (resize_in_zone z n); [done|lia|lia].
    + left. split; [done|]. exists z, n, l1, (first_part c units), (second_part c units :: l2). split_and!; [done|done|].
      apply (hold_chunk_inv zs m h z n l1 c [second_part c units] (first_part c units) l2 _ t); try done.
      * by intros d ->%list_elem_of_singleton.
      * intros a v. apply (resize_store _ _ n); [done|lia|lia].
Qed.

End Steps.
