(* ===== verification/HeapScan.v ===== *)
(** * Scanning a zone

    [heap_populate_buckets] keeps the invariant of [HeapInv]: the next zone, created if it
    has not been used yet, becomes part of the heap, with its free chunks in the default
    bucket and its runs that are not full in the lists of runs.  Nothing is handed out. *)

From S2P Require Import Prelude Pmem Programs Redo RedoProofs Memops Ctree Bucket HeapLayout HeapRun Memblock MemblockRun HeapZone HeapZoneProofs HeapHuge HeapTheorems HeapCreate HeapAlloc HeapInv HeapSteps.

Local Open Scope pmtest_scope.

Section Scan.
Context (hlayout max_zone heap_size : Z) (addr : bucket_ref -> Z) (sizes : list Z).
Context (Haddr : forall r, addr r <> 0) (Hinj : forall r r', addr r = addr r' -> r = r').
Context (Hsizes : forall bs, bs ∈ sizes -> MIN_RUN_SIZE <= bs <= RUNSIZE) (Hmax : max_zone <= UINT16_MAX).

Local Abbreviation inv := (heap_inv hlayout max_zone heap_size addr sizes).
Local Abbreviation zimage := (zone_image hlayout sizes).
Local Abbreviation header := (chunk_header_word hlayout).
Local Abbreviation zheader := (zone_header_word hlayout).
Local Abbreviation silent := (quiet hlayout max_zone sizes).

(** ** The zone *)

Lemma zone_ops_in z n a v : 1 <= n <= MAX_CHUNK -> Store a v ∈ zone_ops hlayout z n -> in_zone hlayout z a.
Proof.
  intros Hn. unfold zone_ops. rewrite elem_of_app, elem_of_cons, elem_of_app, !elem_of_cons, elem_of_nil.
  intros [[[-> _]|[_ ->]]%init_ops_store|[[= -> _]|[H%zero_ops_store|[?|[?|?]]]]]; try done.
  - apply chunk_header_in. lia.
  - apply chunk_header_in. lia.
  - apply zone_header_in.
  - exists (a - zone_addr hlayout z). unfold zone_header_word in H. rewrite zone_max. unfold MAX_CHUNK, UINT16_MAX, CHUNKSIZE. lia.
Qed.

(** A zone that is created has nothing handed out. *)
Lemma zone_created m z n : 0 <= z < UINT16_MAX -> 1 <= n <= MAX_CHUNK -> zone_magic (pm_read m (zheader z)) <> ZONE_HEADER_MAGIC -> pm_durable m (zheader z) ->
  let ops := zone_ops hlayout z n in
  (zimage (pm_read (run ops m)) z n [whole_zone n] /\ zone_durable hlayout (run ops m) z [whole_zone n]) /\
  forall j f, pm_crash (run (take j ops) m) f -> zone_step hlayout sizes (pm_read m) f z.
Proof.
  intros Hz Hn Hm Hd ops. destruct (zone_init_spec hlayout z n ltac:(lia) m ltac:(lia)) as [(R1 & R2 & R3 & R4) Hcr].
  destruct (zone_word_fields n ltac:(lia) ltac:(lia)) as [F1 F2].
  assert (Himg : forall g, g (zheader z) = zone_word n -> tiles (fun i => g (header z i)) n 0 [whole_zone n] -> zimage g z n [whole_zone n]).
  { intros g E Ht. split; rewrite ?E; try done. by intros c ->%list_elem_of_singleton. }
  split; [split; [by apply Himg|]|].
  - intros a [->|(c & ->%list_elem_of_singleton & [->|[Hr _]])]; [done| |done]. apply R4. left.
  - intros j f H. destruct (Hcr j f) as [Hnew|[E Ht]]; [|done|by left|].
    + intros v Hv. by rewrite (durable_cand _ _ _ Hd Hv).
    + right. left. split; [done|]. exists n, [whole_zone n]. split; [by apply Himg|]. intros i u (c & ->%list_elem_of_singleton & _ & Ht'). by apply free_not_taken in Ht'.
Qed.

(** The words a scan writes. *)
Lemma scratch_word f z n l a : zimage f z n l -> zone_word_of hlayout z l a -> ~ scratch hlayout z l a.
Proof.
  intros [_ _ Hn Ht _] Hw Hs. apply scratch_in in Hs as (d & Hd & Hs). destruct (tiles_bounds _ _ _ _ _ Ht Hd) as (D1 & D2 & D3 & _).
  assert (Hi : inside n d) by (unfold inside; lia). destruct Hw as [->|(c & Hc & Hw)].
  - destruct Hs as (e & ->%list_elem_of_singleton & [[_ E]|[_ E]]); symmetry in E; [apply zone_header_ne in E; [done|lia]|].
    symmetry in E. apply zone_header_not_chunk in E; [done|lia|done].
  - destruct (tiles_bounds _ _ _ _ _ Ht Hc) as (B1 & B2 & B3 & _). destruct Hw as [->|(_ & [->|(i & Hi' & ->)])].
    + apply (scratch_not_header hlayout z n) in Hs; try done; try lia. destruct (tiles_disjoint _ _ _ _ c d Ht Hc Hd) as [->|?]; lia.
    + unfold run_block_size_word in Hs. rewrite <-(Z.add_0_r (chunk_addr _ _ _)) in Hs. apply (scratch_not_run hlayout z n) in Hs; try done. lia.
    + unfold run_bitmap_word in Hs. rewrite <-Z.add_assoc in Hs. apply (scratch_not_run hlayout z n) in Hs; try done; try lia.
      apply meta_in_chunk. by apply bitmap_in_meta.
Qed.

Lemma scratch_in_zone f z n l a : zimage f z n l -> scratch hlayout z l a -> in_zone hlayout z a.
Proof.
  intros [_ _ Hn Ht _] (c & Hc & H). destruct (tiles_bounds _ _ _ _ _ Ht Hc) as (B1 & B2 & B3 & _). destruct H as [[_ ->]|[_ ->]].
  - apply chunk_header_in. lia.
  - unfold run_bucket_vptr. apply chunk_in; [lia|done].
Qed.

Lemma scratch_zone m z n l ops : zimage (pm_read m) z n l -> zone_durable hlayout m z l -> (forall a v, Store a v ∈ ops -> scratch hlayout z l a) ->
  (zimage (pm_read (run ops m)) z n l /\ zone_durable hlayout (run ops m) z l) /\
  forall j f, pm_crash (run (take j ops) m) f -> zone_step hlayout sizes (pm_read m) f z.
Proof.
  intros Hz Hd Hst. assert (Hno : forall a, zone_word_of hlayout z l a -> no_store a ops) by (intros a Ha v Hv; by eapply scratch_word; [..|eapply Hst]).
  destruct (untouched_run hlayout m ops z l Hd Hno) as [K1 K2]. split; [split; [|done]|].
  - by eapply same_zone_image.
  - intros j f Hcr. eapply same_zone_step; [exact Hsizes| |exact Hz]. by eapply untouched_image.
Qed.

(** ** The heap *)

Lemma zone_chunks_other m ops z0 z n l : (forall a v, Store a v ∈ ops -> in_zone hlayout z0 a) -> z <> z0 -> n <= MAX_CHUNK ->
  zone_chunks hlayout z n m l -> zone_chunks hlayout z n (run ops m) l.
Proof.
  intros Hst Hne Hn [Zs Zt Zf]. assert (Hin : forall a, in_zone hlayout z a -> pm_read (run ops m) a = pm_read m a).
  { intros a Ha. apply no_store_read. intros v Hv. apply Hne. eapply in_zone_unique; [exact Ha|by eapply Hst]. }
  split; [by rewrite Hin by apply zone_header_in| |].
  - eapply tiles_ext; [|exact Zt]. intros c Hc. pose proof (tiles_bounds _ _ _ _ _ Zt Hc). apply Hin, chunk_header_in. lia.
  - intros c Hc Hs. pose proof (tiles_bounds _ _ _ _ _ Zt Hc). rewrite Hin by (apply chunk_header_in; lia). by apply Zf.
Qed.

(** The chunks of the zone are added to the default bucket. *)
Lemma scan_zones zs m m' t t' z n l :
  heap_zones hlayout zs m t -> zs z = None -> 0 <= z < UINT16_MAX -> n <= MAX_CHUNK -> zone_chunks hlayout z n m' l -> tree_ok t' ->
  (forall z' n' l', z' <> z -> n' <= MAX_CHUNK -> zone_chunks hlayout z' n' m l' -> zone_chunks hlayout z' n' m' l') ->
  (forall x, block_ok x -> has_block t' x <-> has_block t x \/ exists c, c ∈ l /\ ch_type c = CHUNK_TYPE_FREE /\ x = chunk_block z c) ->
  heap_zones hlayout (set_zone zs z n l) m' t'.
Proof.
  intros [Ht Hz Ho] En Hzr Hn Hzc Ht' Hoth Hx. split; [done| |].
  - intros z' n' l' E. destruct (decide (z' = z)) as [->|Hne].
    + rewrite set_zone_at in E. injection E as <- <-. split; [done|]. split; [done|]. split; [done|]. intros x Hxok Hxz. rewrite Hx by done. split; [|by right].
      intros [Hh|?]; [|done]. apply Ho in Hh as [y E]; [|done]. by rewrite Hxz, En in E.
    + rewrite set_zone_ne in E by done. destruct (Hz z' n' l' E) as (H1 & H2 & H3 & H4). split; [done|]. split; [done|]. split; [by apply Hoth|].
      intros x Hxok Hxz. rewrite Hx by done. rewrite (H4 x Hxok Hxz). split; [|by left]. intros [?|(c & _ & _ & ->)]; [done|]. by destruct Hne.
  - intros x Hxok Hh. destruct (decide (zone_id x = z)) as [->|Hne]; [by rewrite set_zone_at|]. rewrite set_zone_ne by done.
    apply Hx in Hh as [Hh|(c & _ & _ & ->)]; [by apply Ho|done|done].
Qed.

Lemma tiles_NoDup H n i l : tiles H n i l -> NoDup l.
Proof.
  induction 1 as [|i c l Ea Hw Hty Hs He Hl IH]; [constructor|]. constructor; [|done]. intros Hc. pose proof (tiles_bounds _ _ _ _ _ Hl Hc). lia.
Qed.

(** The runs of the zone are added to the runs. *)
Lemma scan_runs zs m m1 m' cl s s' trees z n l ops :
  runs_inv hlayout addr zs (pm_read m) (memory_bitmaps hlayout m) cl (f_active s) trees -> f_classes s = cl -> zs z = None ->
  (forall x, is_run zs x -> owner_of hlayout (pm_read m') x = owner_of hlayout (pm_read m) x /\ unit_of hlayout (pm_read m') x = unit_of hlayout (pm_read m) x /\
     forall i, 0 <= i < MAX_BITMAP_VALUES -> memory_bitmaps hlayout m' x i = memory_bitmaps hlayout m x i) ->
  zimage (pm_read m1) z n l -> m' = run ops m1 -> scanned hlayout sizes z m1 l s s' m1 ops ->
  runs_inv hlayout addr (set_zone zs z n l) (pm_read m') (memory_bitmaps hlayout m') (f_classes s') (f_active s') trees.
Proof.
  intros Hr <- En Hsame Hz -> [[C1 C2] (new & Ea & Es & Hnew) _ _ Hst _ Hv]. pose proof Hz as [_ _ Hn Ht _]. rewrite Ea.
  set (N := fun x : Z * Z => x.2 = z /\ exists c, c ∈ l /\ ch_type c = CHUNK_TYPE_RUN /\ ch_at c = x.1).
  eapply (runs_add hlayout addr Haddr zs _ _ _ _ _ _ _ N).
  - intros [i z']. unfold is_run, N. simpl. destruct (decide (z' = z)) as [->|Hne].
    + rewrite set_zone_at, En. split; [intros (n' & l' & c & [= <- <-] & H); right; split; [done|by exists c]|].
      intros [(? & ? & ? & ? & _)|[_ (c & H)]]; [done|by exists n, l, c].
    + rewrite set_zone_ne by done. split; [by left|]. intros [?|[? _]]; done.
  - intros [i z'] [Ez (c & Hc & Hcr & Ei)]. simpl in *. subst. split; [|by apply Hv]. intros (? & ? & ? & E & _). simpl in E. congruence.
  - intros s0 x Hx. assert (Hx' : x ∈ reverse (free_runs hlayout z m1 l)) by (rewrite <-Es; apply list_elem_of_fmap; by exists (s0, x)).
    rewrite elem_of_reverse in Hx'. apply list_elem_of_fmap in Hx' as (c & -> & [[Hcr _] Hc]%list_elem_of_filter). split; [split; [done|by exists c]|].
    rewrite Forall_forall in Hnew. destruct (Hnew _ Hx) as [_ Hun]. simpl in Hun. rewrite Hun. f_equal. unfold run_unit, unit_of. simpl. symmetry. apply no_store_read.
    intros v Hs%Hst. eapply scratch_word; [exact Hz| |exact Hs]. right. exists c. auto.
  - rewrite Es, reverse_Permutation. apply NoDup_fmap_2_strong; [|apply NoDup_filter; by eapply tiles_NoDup].
    intros c d [_ Hc]%list_elem_of_filter [_ Hd]%list_elem_of_filter [= E]. destruct (tiles_disjoint _ _ _ _ c d Ht Hc Hd) as [?|H]; [done|].
    pose proof (tiles_bounds _ _ _ _ _ Ht Hc). pose proof (tiles_bounds _ _ _ _ _ Ht Hd). lia.
  - eapply (runs_frame hlayout addr Haddr Hinj zs zs); [|done|exact C2|exact Hsame|exact Hr]. by apply (class_nallocs sizes).
Qed.

(** A scan registers runs of its zone only. *)
Lemma scanned_active z m1 l s s' ops e :
  scanned hlayout sizes z m1 l s s' m1 ops -> e ∈ f_active s' -> e ∈ f_active s \/ e.2.2 = z.
Proof.
  intros [_ (new & -> & Es & _) _ _ _ _ _] [He|He]%elem_of_app; [right|by left].
  assert (Hx : e.2 ∈ reverse (free_runs hlayout z m1 l)) by (rewrite <-Es; apply list_elem_of_fmap; by exists e).
  rewrite elem_of_reverse in Hx. by apply list_elem_of_fmap in Hx as (c & -> & _).
Qed.

(** The zone before the scan of its chunks. *)
Lemma next_zone zs m h : inv Nothing zs m h -> h_zones_exhausted h < max_zone -> let z := h_zones_exhausted h in
  exists n l, 1 <= n <= MAX_CHUNK /\
    (zone_magic (pm_read m (zheader z)) <> ZONE_HEADER_MAGIC /\ get_zone_size_idx z max_zone heap_size = Some n /\ l = [whole_zone n] \/
     zone_magic (pm_read m (zheader z)) = ZONE_HEADER_MAGIC /\ zimage (pm_read m) z n l) /\
    let ops1 := if zone_magic (pm_read m (zheader z)) =? ZONE_HEADER_MAGIC then [] else zone_ops hlayout z n in
    (forall a v, Store a v ∈ ops1 -> in_zone hlayout z a) /\ zimage (pm_read (run ops1 m)) z n l /\ zone_durable hlayout (run ops1 m) z l /\ silent m ops1.
Proof.
  intros Hi Hlt z. pose proof Hi as [Hx _ _ Hf _ _ _]. pose proof (inv_settled _ _ _ _ _ _ _ _ _ Hi) as Hset.
  destruct (Hf z ltac:(lia)) as [[[Hm Hd]|(n & l & Hl & Hd)] Hsz].
  - destruct (Hsz Hm) as (n & En & Hn). exists n, [whole_zone n]. split; [done|]. split; [by left|]. rewrite (proj2 (Z.eqb_neq _ _) Hm).
    destruct (zone_created m z n ltac:(lia) Hn Hm Hd) as [[H1 H2] H3]. assert (Hst : forall a v, Store a v ∈ zone_ops hlayout z n -> in_zone hlayout z a) by (intros a v; by apply zone_ops_in).
    split_and!; try done. by apply (quiet_zone hlayout max_zone sizes Hsizes m _ z).
  - pose proof Hl as [Hm _ Hn _ _]. exists n, l. split; [done|]. split; [by right|]. rewrite (proj2 (Z.eqb_eq _ _) Hm). split_and!; try done; [by intros a v ?%elem_of_nil|by apply quiet_nil].
Qed.

Lemma scan_inv mal zs m h : inv Nothing zs m h -> h_zones_exhausted h < max_zone -> (forall k, mal k = (true, true)) -> let z := h_zones_exhausted h in
  exists s n l ops, heap_populate_buckets hlayout mal max_zone heap_size z (h_found h) m = Some ((0, z + 1, s), ops) /\ silent m ops /\
    cl_units (h_classes h) `prefix_of` cl_units (f_classes s) /\
    (forall e, e ∈ f_active s -> e ∈ h_active h \/ e.2.2 = z) /\
    inv Nothing (set_zone zs z n l) (run ops m) (mkHeap s (z + 1) (h_trees h) (h_last_drained h)).
Proof.
  intros Hi Hlt Hmal z. pose proof Hi as [Hx Hzs Hall Hf Hdef Hcl Hr]. pose proof (inv_settled _ _ _ _ _ _ _ _ _ Hi) as Hset. simpl in Hdef, Hr.
  destruct (next_zone zs m h Hi Hlt) as (n & l & Hn & Hor & Hst1 & Hz1 & Hd1 & Hq1). fold z in Hor, Hst1, Hz1, Hd1, Hq1.
  destruct (zone_scan_spec hlayout sizes mal max_zone heap_size z (h_found h) m n l) as (s & m1 & ops1 & ops & Em1 & Eo1 & E & Ht & Hsc); try done; try lia.
  { apply (hz_ok _ _ _ _ Hdef). }
  { destruct Hor as [?|[? [? ? ? ? ?]]]; [by left|by right]. }
  { intros c Hc Hcr _. destruct Hor as [(_ & _ & ->)|[_ Hl]]; [by apply list_elem_of_singleton in Hc as ->|]. apply (ro_unit _ _ _ _ (zi_runs _ _ _ _ _ _ Hl c Hc Hcr)). }
  rewrite <-Eo1 in Hst1, Hz1, Hd1, Hq1. rewrite <-Em1 in Hz1, Hd1. exists s, n, l, (ops1 ++ ops). split; [exact E|].
  destruct (scratch_zone m1 z n l ops Hz1 Hd1 (sc_stores _ _ _ _ _ _ _ _ _ Hsc)) as [[Hz2 Hd2] Hc2].
  assert (Hst2 : forall a v, Store a v ∈ ops -> in_zone hlayout z a) by (intros a v Hv; eapply scratch_in_zone; [exact Hz1|by eapply sc_stores]).
  assert (Hst : forall a v, Store a v ∈ ops1 ++ ops -> in_zone hlayout z a) by (intros a v [?|?]%elem_of_app; [by eapply Hst1|by eapply Hst2]).
  assert (En : zs z = None) by (destruct (zs z) as [[n' l']|] eqn:E'; [apply Hzs in E' as [E' _]; lia|done]).
  assert (Emem : run ops m1 = run (ops1 ++ ops) m) by (by rewrite run_app, Em1). split.
  { apply quiet_app; [done|]. rewrite <-Em1. apply (quiet_zone hlayout max_zone sizes Hsizes m1 ops z); [|done|done].
    rewrite Em1. apply (settled_zone hlayout max_zone sizes) with z; try done. right. exists n, l. by rewrite <-Em1. }
  split; [apply (sc_classes _ _ _ _ _ _ _ _ _ Hsc)|]. split; [intros e; exact (scanned_active z m1 l (h_found h) s ops e Hsc)|]. rewrite <-Emem. split.
  - simpl. lia.
  - intros z' n' l' E'. change (h_zones_exhausted _) with (z + 1). destruct (decide (z' = z)) as [->|Hne].
    + rewrite set_zone_at in E'. injection E' as <- <-. split; [lia|]. done.
    + rewrite set_zone_ne in E' by done. destruct (Hzs z' n' l' E') as (H1 & H2 & H3). split; [lia|]. rewrite Emem. by eapply other_zones.
  - intros z' Hz'. change (0 <= z' < z + 1) in Hz'. destruct (decide (z' = z)) as [->|Hne]; [by rewrite set_zone_at|]. rewrite set_zone_ne by done. apply Hall. lia.
  - intros z' Hz'. change (z + 1 <= z' < max_zone) in Hz'. destruct (Hf z' ltac:(lia)) as [H1 H2].
    destruct (future_zones hlayout sizes Hsizes m (ops1 ++ ops) z z' Hst) as [H3 H4]; [lia|done|]. by rewrite Emem, H4.
  - simpl. eapply scan_zones; [exact Hdef|done|lia|lia| |by eapply sc_ok| |by apply (sc_tree _ _ _ _ _ _ _ _ _ Hsc)].
    + split; [apply (zi_size _ _ _ _ _ _ Hz2)|done|]. intros c Hc Hs. by eapply sc_footer.
    + intros z' n' l' Hne Hn' Hzc. rewrite Emem. by eapply zone_chunks_other.
  - apply (sc_classes _ _ _ _ _ _ _ _ _ Hsc).
  - simpl. eapply scan_runs; [exact Hr|done|done| |exact Hz1|done|exact Hsc].
    intros x Hx'. assert (Hne : x.2 <> z) by (intros E'; destruct Hx' as (? & ? & ? & E'' & _); rewrite E' in E''; congruence). rewrite Emem.
    apply chunk_frame. intros k Hk. apply no_store_read. intros v Hv. apply Hne. eapply in_zone_unique; [|by eapply Hst]. apply chunk_in; [|done].
    eapply run_header; [exact Hmax|exact Hi|done].
Qed.

End Scan.
