(* ===== verification/HeapBoot.v ===== *)
(** * Creating, opening and checking a heap

    [nvml/src/libpmemobj/heap.c]: [heap_init] writes the header of a heap and the headers of
    its zones, [heap_boot] makes the volatile state when a pool is opened, [heap_check]
    verifies the headers.

    The theorems: a heap that was initialised passes the check and can be opened with
    nothing allocated; opening any heap whose zones are sequences of chunks, as a crash
    leaves it, gives a volatile state that agrees with the memory and has the same units
    allocated. *)

From stdpp Require Import countable.
From S2P Require Import Prelude Pmem Programs Redo RedoProofs Memops Ctree Bucket HeapLayout HeapRun Memblock MemblockRun HeapZone HeapZoneProofs HeapHuge HeapTheorems HeapCreate HeapAlloc HeapInv HeapSteps HeapScan Util.

Local Open Scope pmtest_scope.

(** ** The header of a heap *)

Definition HEAP_SIGNATURE : list Z := [0x485f59524f4d454d; 0x005244485f504145].
Definition HEAP_MAJOR : Z := 1.
Definition HEAP_MINOR : Z := 0.

(** A structure of 64-bit words as [util_checksum] sees it, and back. *)
Definition halves (ws : list Z) : list Z := flat_map (fun w => [w mod 2 ^ 32; w / 2 ^ 32]) ws.
Fixpoint joined (ws : list Z) : list Z :=
  match ws with lo :: hi :: ws => lo + hi * 2 ^ 32 :: joined ws | _ => [] end.

(** [struct heap_header] with a checksum of zero, and the place of the checksum. *)
Definition new_header (size : Z) : list Z :=
  HEAP_SIGNATURE ++ [HEAP_MAJOR; HEAP_MINOR; size; CHUNKSIZE; MAX_CHUNK] ++ replicate 120 0 ++ [0].
Definition checksum_at : nat := 254.

Fixpoint store_words (a : Z) (ws : list Z) : prog unit :=
  match ws with
  | [] => ret tt
  | w :: ws => store a w;; store_words (a + 8) ws
  end.

Definition heap_write_header (hdr size : Z) : prog unit :=
  store_words hdr (joined (util_checksum (halves (new_header size)) checksum_at true).2).

Definition header_words (mem : pmem) (hdr : Z) : list Z := (fun i => pm_read mem (hdr + 8 * Z.of_nat i)) <$> seq 0 128.

(** Zero is success, as in the code. *)
Definition heap_verify_header (mem : pmem) (hdr : Z) : Z :=
  let ws := header_words mem hdr in
  if negb (util_checksum (halves ws) checksum_at false).1 then -1
  else if negb (bool_decide (take 2 ws = HEAP_SIGNATURE)) then -1
  else 0.

Section Boot.
Context (hlayout : Z).

(** ** [heap_init] *)

(** The body of the loop over the zones; of the chunk headers the first one is cleared, and
    as many bytes as a zone header has are made durable. *)
Definition init_zone (i : Z) : prog unit :=
  zero_words 8 (zone_header_word hlayout i);;
  zero_words 1 (chunk_header_word hlayout i 0);;
  persist (zone_header_word hlayout i) sizeof_zone_header;;
  persist (chunk_header_word hlayout i 0) sizeof_zone_header.

Fixpoint init_zones (n : nat) (i : Z) : prog unit :=
  match n with
  | O => ret tt
  | S n => init_zone i;; init_zones n (i + 1)
  end.

(** [heap_init] does not look at the results of [pmem_msync]; the model has the calls
    succeed. *)
Definition heap_init (heap_size : Z) : prog Z :=
  if heap_size <? HEAP_MIN_SIZE then ret EINVAL
  else
    heap_write_header hlayout heap_size;;
    persist hlayout sizeof_heap_header;;
    let! zones := lift (heap_max_zone heap_size) in
    init_zones (Z.to_nat zones) 0;;
    ret 0.

(** ** [heap_check] *)

Fixpoint check_zones (n fuel : nat) (mem : pmem) (i : Z) : option Z :=
  match n with
  | O => Some 0
  | S n => r ← heap_verify_zone hlayout fuel mem i; if negb (r =? 0) then Some (-1) else check_zones n fuel mem (i + 1)
  end.

(** A zone has at most [MAX_CHUNK] chunks, so the loop over them ends within as many
    steps when their sizes are not zero. *)
Definition check_fuel : nat := S (Z.to_nat MAX_CHUNK).

Definition heap_check (heap_size : Z) (mem : pmem) : option Z :=
  if heap_size <? HEAP_MIN_SIZE then Some (-1)
  else
    let size := pm_read mem (hlayout + 32) in
    if negb (heap_size =? size) then Some (-1)
    else if negb (heap_verify_header mem hlayout =? 0) then Some (-1)
    else zones ← heap_max_zone size; check_zones (Z.to_nat zones) check_fuel mem 0.

(** ** [heap_boot] *)

(** Which allocations of volatile memory succeed: the heap, the caches, the map of buckets,
    the default bucket; [mallocs] for the nodes of the containers. *)
Record boot_mallocs := mkBootMallocs {
  bm_heap : bool; bm_caches : bool; bm_map : bool; bm_default : bool;
  bm_nodes : Z -> bool * bool;
}.

(** [classes] are those that [make_classes] gives. *)
Definition heap_buckets_init (mal : boot_mallocs) (classes : option classes) (max_zone heap_size : Z) : prog (Z * option heap) :=
  if negb (bm_map mal) then ret (ENOMEM, None)
  else if negb (bm_default mal) then ret (ENOMEM, None)
  else
    match classes with
    | None => ret (ENOMEM, None)
    | Some cl =>
        let! p := heap_populate_buckets hlayout (bm_nodes mal) max_zone heap_size 0 (mkFound cl [] None) in
        ret (0, Some (mkHeap p.2 p.1.2 (fun _ => None) (fun _ => 0)))
    end.

Definition heap_boot (mal : boot_mallocs) (heap_size : Z) : prog (Z * option heap) :=
  if negb (bm_heap mal) then ret (ENOMEM, None)
  else if negb (bm_caches mal) then ret (ENOMEM, None)
  else
    let! max_zone := lift (heap_max_zone heap_size) in
    heap_buckets_init mal make_classes max_zone heap_size.

End Boot.

(** ** Opening a heap *)

Section Open.
Context (hlayout max_zone heap_size : Z) (addr : bucket_ref -> Z) (sizes : list Z).
Context (Haddr : forall r, addr r <> 0) (Hinj : forall r r', addr r = addr r' -> r = r').
Context (Hsizes : forall bs, bs ∈ sizes -> MIN_RUN_SIZE <= bs <= RUNSIZE) (Hmax : 1 <= max_zone <= UINT16_MAX).
Context (Hfit : forall z, 0 <= z < max_zone -> exists n, get_zone_size_idx z max_zone heap_size = Some n /\ 1 <= n <= MAX_CHUNK).

(** The state before the first zone is scanned. *)
Lemma fresh_inv f cl : heap_image hlayout max_zone sizes f -> classes_ok sizes cl ->
  heap_inv hlayout max_zone heap_size addr sizes Nothing (fun _ => None) (pm_boot f) (mkHeap (mkFound cl [] None) 0 (fun _ => None) (fun _ => 0)).
Proof.
  intros Hf Hcl. split; simpl; [lia|done|lia| | |done|].
  - intros z Hz. split; [|intros _; by apply Hfit]. destruct (Hf z Hz) as [Hm|(n & l & Hl)]; [by left|right]. exists n, l. done.
  - split; [apply empty_ok|done|]. intros x _ H. by apply empty_has in H.
  - split; [by intros x (? & ? & ? & ? & _)|by intros s x ?%elem_of_nil|constructor| |done].
    intros r unit _. eapply exact_runs; [|apply empty_exact]. intros x. split; [done|]. by intros [(? & ? & ? & ? & _) _].
Qed.

Lemma boot_spec f mal cl : heap_image hlayout max_zone sizes f -> classes_ok sizes cl -> bm_map mal = true -> bm_default mal = true -> (forall k, bm_nodes mal k = (true, true)) ->
  exists h zs ops, heap_buckets_init hlayout mal (Some cl) max_zone heap_size (pm_boot f) = Some ((0, Some h), ops) /\ quiet hlayout max_zone sizes (pm_boot f) ops /\
    heap_inv hlayout max_zone heap_size addr sizes Nothing zs (run ops (pm_boot f)) h /\ h_zones_exhausted h = 1.
Proof.
  intros Hf Hcl H1 H2 H3. unfold heap_buckets_init. rewrite H1, H2. cbn [negb].
  destruct (scan_inv hlayout max_zone heap_size addr sizes Haddr Hinj Hsizes ltac:(lia) (bm_nodes mal) _ _ _ (fresh_inv f cl Hf Hcl) ltac:(simpl; lia) H3) as (s & n & l & ops & E & Hq & _ & _ & Hi).
  eexists _, _, ops. split; [rewrite <-(app_nil_r ops); eapply bind_Some; [exact E|done]|]. split; [done|]. split; [exact Hi|done].
Qed.

End Open.

(** ** The words of the header *)

Lemma halves_joined ws : Forall (fun w => 0 <= w < 2 ^ 32) ws -> Nat.Even (length ws) -> halves (joined ws) = ws.
Proof.
  intros Hf [k Hk]. revert ws Hf Hk. induction k as [|k IH]; intros ws Hf Hk.
  - destruct ws; [done|simpl in Hk; lia].
  - destruct ws as [|lo [|hi ws]]; [simpl in Hk; lia|simpl in Hk; lia|]. apply Forall_cons in Hf as [Hlo Hf]. apply Forall_cons in Hf as [Hhi Hf]. simpl in Hk.
    cbn [joined halves flat_map app]. rewrite <-(Z.mod_unique_pos _ (2 ^ 32) hi lo), <-(Z.div_unique_pos _ (2 ^ 32) hi lo) by lia. f_equal. f_equal. apply IH; [done|lia].
Qed.

Lemma new_header_range size : 0 <= size < 2 ^ 64 -> Forall (fun w => 0 <= w < 2 ^ 32) (halves (new_header size)).
Proof.
  intros Hs. assert (H : Forall (fun w => 0 <= w < 2 ^ 64) (new_header size)).
  { unfold new_header. rewrite !Forall_app. unfold HEAP_SIGNATURE, HEAP_MAJOR, HEAP_MINOR, CHUNKSIZE, MAX_CHUNK, UINT16_MAX.
    split_and!; [| |apply Forall_replicate; lia|]; repeat (constructor; [lia|]); constructor. }
  induction H as [|w ws Hw _ IH]; [done|]. cbn [halves flat_map app]. constructor; [apply Z.mod_pos_bound; lia|]. constructor; [|done].
  split; [apply Z.div_pos; lia|apply Z.div_lt_upper_bound; lia].
Qed.

(** What [heap_write_header] stores. *)
Definition written_header (size : Z) : list Z := joined (util_checksum (halves (new_header size)) checksum_at true).2.

Lemma written_halves size : 0 <= size < 2 ^ 64 -> halves (written_header size) = (util_checksum (halves (new_header size)) checksum_at true).2.
Proof.
  intros Hs. apply halves_joined.
  - cbn [util_checksum snd]. pose proof (new_header_range size Hs) as Hf. unfold util_checksum. cbn [snd].
    destruct (checksum_split checksum_at (halves (new_header size))) as (lo & hi & _ & -> & Hlo & Hhi); [apply Nat.ltb_lt; reflexivity|].
    apply Forall_insert; [apply Forall_insert; [done|apply Z.mod_pos_bound; lia]|]. split; [apply Z.div_pos; lia|apply Z.div_lt_upper_bound; lia].
  - unfold util_checksum. cbn [snd]. rewrite !length_insert. by exists 128%nat.
Qed.

Lemma header_length size : length (written_header size) = 128%nat.
Proof. unfold written_header, util_checksum. cbn [snd]. reflexivity. Qed.

Lemma header_signature size : take 2 (written_header size) = HEAP_SIGNATURE.
Proof. reflexivity. Qed.

Lemma header_size size : written_header size !! 4%nat = Some size.
Proof.
  change (Some (size mod 2 ^ 32 + size / 2 ^ 32 * 2 ^ 32) = Some size). f_equal. pose proof (Z.div_mod size (2 ^ 32)). lia.
Qed.

Lemma header_verified mem hdr size : 0 <= size < 2 ^ 64 -> header_words mem hdr = written_header size -> heap_verify_header mem hdr = 0.
Proof.
  intros Hs E. unfold heap_verify_header. rewrite E, written_halves by done. rewrite checksum_accepted by (apply Nat.ltb_lt; reflexivity).
  by rewrite header_signature, bool_decide_eq_true_2.
Qed.

(** ** The stores of [heap_init] *)

Fixpoint word_ops (a : Z) (ws : list Z) : list pm_op :=
  match ws with [] => [] | w :: ws => Store a w :: word_ops (a + 8) ws end.

Lemma store_words_runs ws : forall a m, store_words a ws m = Some (tt, word_ops a ws).
Proof. induction ws as [|w ws IH]; intros a m; [done|]. simpl. unfold bind, store, emit. simpl. by rewrite IH. Qed.

Lemma word_ops_store ws : forall a x v, Store x v ∈ word_ops a ws -> exists i, 0 <= i < Z.of_nat (length ws) /\ x = a + 8 * i.
Proof.
  induction ws as [|w ws IH]; intros a x v; simpl; [by intros ?%elem_of_nil|]. intros [[= -> ->]|H]%elem_of_cons; [exists 0; lia|].
  destruct (IH _ _ _ H) as (i & Hi & ->). exists (i + 1). lia.
Qed.

Lemma word_ops_read ws : forall a m i w, ws !! i = Some w -> pm_read (run (word_ops a ws) m) (a + 8 * Z.of_nat i) = w.
Proof.
  induction ws as [|w' ws IH]; intros a m i w E; [done|]. cbn [word_ops]. rewrite pm_run_cons. destruct i as [|i].
  - injection E as ->. rewrite no_store_read; [simpl; rewrite Z.add_0_r; apply pm_read_store_eq|]. intros v Hv. apply word_ops_store in Hv as (j & Hj & E). lia.
  - replace (a + 8 * Z.of_nat (S i)) with (a + 8 + 8 * Z.of_nat i) by lia. by apply IH.
Qed.

Section Init.
Context (hlayout : Z).

Local Abbreviation zh := (zone_header_word hlayout).

Lemma zone_zeroed i m : exists ops, init_zone hlayout i m = Some (tt, ops) /\
  (forall a v, Store a v ∈ ops -> in_zone hlayout i a) /\ pm_read (run ops m) (zh i) = 0 /\ pm_durable (run ops m) (zh i).
Proof.
  exists (zero_ops 8 (zh i) ++ zero_ops 1 (chunk_header_word hlayout i 0) ++ [Flush (zh i) sizeof_zone_header; Fence] ++ [Flush (chunk_header_word hlayout i 0) sizeof_zone_header; Fence]).
  assert (Hch : chunk_header_word hlayout i 0 = zh i + 64) by (unfold chunk_header_word, zone_header_word, sizeof_zone_header, sizeof_chunk_header; lia).
  assert (Hin : forall a, zh i <= a < zh i + 72 -> in_zone hlayout i a).
  { intros a Ha. exists (a - zone_addr hlayout i). unfold zone_header_word in Ha. rewrite zone_max. unfold MAX_CHUNK, UINT16_MAX, CHUNKSIZE. lia. }
  split_and!.
  - unfold init_zone. eapply bind_Some; [apply zero_words_runs|]. eapply bind_Some; [apply zero_words_runs|]. eapply bind_Some; [done|]. done.
  - intros a v. rewrite !elem_of_app, !elem_of_cons, elem_of_nil, Hch. intros [H%zero_ops_store|[H%zero_ops_store|H]]; [apply Hin; lia..|].
    by destruct H as [[?|[?|?]]|[?|[?|?]]].
  - rewrite !run_app, !(no_store_read [_; _]) by (intros v; rewrite !elem_of_cons, elem_of_nil; naive_solver).
    rewrite no_store_read by (intros v Hv%zero_ops_store; lia). cbn [zero_ops]. rewrite pm_run_cons.
    rewrite no_store_read; [simpl; apply pm_read_store_eq|]. intros v Hv. rewrite !elem_of_cons, elem_of_nil in Hv. destruct Hv as [[= E]|[[= E]|[[= E]|[[= E]|[[= E]|[[= E]|[[= E]|[]]]]]]]]; lia.
  - rewrite !run_app. apply no_store_durable; [intros v; rewrite !elem_of_cons, elem_of_nil; naive_solver|].
    apply (persist_durable _ (zh i) sizeof_zone_header). unfold sizeof_zone_header. lia.
Qed.

Lemma init_zones_spec n : forall i m, exists ops, init_zones hlayout n i m = Some (tt, ops) /\
  (forall a v, Store a v ∈ ops -> exists z, i <= z < i + Z.of_nat n /\ in_zone hlayout z a) /\
  forall z, i <= z < i + Z.of_nat n -> pm_read (run ops m) (zh z) = 0 /\ pm_durable (run ops m) (zh z).
Proof.
  induction n as [|n IH]; intros i m; [exists []; split_and!; [done|by intros a v ?%elem_of_nil|lia]|]. cbn [init_zones].
  destruct (zone_zeroed i m) as (ops1 & E1 & S1 & R1 & D1). destruct (IH (i + 1) (run ops1 m)) as (ops2 & E2 & S2 & H2). exists (ops1 ++ ops2). split_and!.
  - by eapply bind_Some.
  - intros a v [H|H]%elem_of_app; [exists i; split; [lia|by eapply S1]|]. destruct (S2 a v H) as (z & Hz & ?). exists z. split; [lia|done].
  - intros z Hz. rewrite run_app. destruct (decide (z = i)) as [->|Hne]; [|apply H2; lia].
    assert (Hns : no_store (zh i) ops2).
    { intros v Hv. destruct (S2 _ _ Hv) as (z & Hz' & Hin). assert (z = i); [|lia]. eapply in_zone_unique; [exact Hin|apply zone_header_in]. }
    rewrite no_store_read by done. split; [done|by apply no_store_durable].
Qed.

(** The header does not overlap with the zones. *)
Lemma header_not_zone z i : 0 <= z -> 0 <= i < 128 -> ~ in_zone hlayout z (hlayout + 8 * i).
Proof. intros Hz Hi (x & Hx & E). unfold zone_addr, zone_start, sizeof_heap_header in E. pose proof zone_max. unfold ZONE_MAX_SIZE in *. nia. Qed.

Lemma header_stored heap_size m : exists W, heap_write_header hlayout heap_size m = Some (tt, W) /\
  forall i w, written_header heap_size !! i = Some w -> pm_read (run W m) (hlayout + 8 * Z.of_nat i) = w.
Proof. eexists. split; [apply store_words_runs|]. intros i w. apply word_ops_read. Qed.

Lemma heap_init_spec heap_size max_zone m : HEAP_MIN_SIZE <= heap_size -> heap_max_zone heap_size = Some max_zone -> 0 <= max_zone ->
  exists ops, heap_init hlayout heap_size m = Some (0, ops) /\
    (forall i w, written_header heap_size !! i = Some w ->
      pm_read (run ops m) (hlayout + 8 * Z.of_nat i) = w /\ pm_durable (run ops m) (hlayout + 8 * Z.of_nat i)) /\
    forall z, 0 <= z < max_zone -> pm_read (run ops m) (zh z) = 0 /\ pm_durable (run ops m) (zh z).
Proof.
  intros Hs Em Hm. destruct (header_stored heap_size m) as (W & EW & HW). set (ops1 := W ++ [Flush hlayout sizeof_heap_header; Fence]).
  destruct (init_zones_spec (Z.to_nat max_zone) 0 (run ops1 m)) as (ops2 & E2 & S2 & H2). rewrite Z2Nat.id in S2, H2 by lia. exists (ops1 ++ ops2). split_and!.
  - unfold heap_init. rewrite (proj2 (Z.ltb_ge _ _) Hs). unfold ops1. rewrite <-app_assoc. eapply bind_Some; [exact EW|]. eapply bind_Some; [done|].
    rewrite <-run_app. fold ops1. rewrite (bind_pure _ _ _ max_zone) by (unfold lift; by rewrite Em). rewrite <-(app_nil_r ops2). by eapply bind_Some.
  - intros i w E. assert (Hi : 0 <= Z.of_nat i < 128) by (pose proof (lookup_lt_Some _ _ _ E) as Hl; rewrite header_length in Hl; lia).
    assert (Hns : no_store (hlayout + 8 * Z.of_nat i) ops2). { intros v Hv. destruct (S2 _ _ Hv) as (z & Hz & Hin). apply header_not_zone in Hin; [done|lia|done]. }
    rewrite run_app, no_store_read by done. unfold ops1. rewrite run_app. split.
    + rewrite no_store_read by (intros v; rewrite !elem_of_cons, elem_of_nil; naive_solver). by apply HW.
    + apply no_store_durable; [done|]. apply (persist_durable _ hlayout sizeof_heap_header). unfold sizeof_heap_header. lia.
  - intros z Hz. rewrite run_app. by apply H2.
Qed.

Lemma check_new_zones n fuel mem : forall i, (forall z, i <= z < i + Z.of_nat n -> pm_read mem (zh z) = 0) -> check_zones hlayout n fuel mem i = Some 0.
Proof.
  induction n as [|n IH]; intros i H; [done|]. cbn [check_zones]. unfold heap_verify_zone. rewrite H by lia. change (zone_magic 0 =? 0) with true. cbv iota.
  cbn [mbind option_bind negb Z.eqb]. apply IH. intros z Hz. apply H. lia.
Qed.

End Init.

(** ** The theorems *)

Lemma pm_read_boot f a : pm_read (pm_boot f) a = f a.
Proof. done. Qed.

(** C34: [heap_init], for every heap size from [HEAP_MIN_SIZE] on, when the calls of
    [pmem_msync] succeed (their results are not looked at).  When [heap_init] has returned,
    what a power failure leaves passes [heap_check], has no unit allocated, and is an image
    that [heap_boot_correct] can be applied to. *)
Theorem heap_init_opens hlayout heap_size max_zone sizes m :
  HEAP_MIN_SIZE <= heap_size < 2 ^ 64 -> heap_max_zone heap_size = Some max_zone ->
  exists ops, heap_init hlayout heap_size m = Some (0, ops) /\
    forall f, pm_crash (run ops m) f ->
      heap_check hlayout heap_size (pm_boot f) = Some 0 /\ heap_image hlayout max_zone sizes f /\
      forall z i u, ~ allocated hlayout max_zone sizes f z i u.
Proof.
  intros Hs Em. destruct (zones_spec heap_size Hs) as (mz & Em' & Hmz & _). rewrite Em in Em'. injection Em' as <-.
  destruct (heap_init_spec hlayout heap_size max_zone m) as (ops & E & Hh & Hz); [lia|done|lia|]. exists ops. split; [done|]. intros f Hcr.
  assert (Hw : header_words (pm_boot f) hlayout = written_header heap_size).
  { apply list_eq. intros i. unfold header_words. rewrite list_lookup_fmap. destruct (written_header heap_size !! i) as [w|] eqn:Ei.
    - pose proof (lookup_lt_Some _ _ _ Ei) as Hl. rewrite header_length in Hl. rewrite lookup_seq_lt by done. cbn [fmap option_fmap option_map Nat.add]. f_equal.
      destruct (Hh i w Ei) as [<- Hd]. rewrite pm_read_boot. by apply durable_image.
    - apply lookup_ge_None in Ei. rewrite header_length in Ei. by rewrite (proj2 (lookup_ge_None _ _)) by (rewrite length_seq; lia). }
  assert (Hf : forall z, 0 <= z < max_zone -> f (zone_header_word hlayout z) = 0) by (intros z Hz'; destruct (Hz z Hz') as [<- Hd]; by apply durable_image).
  assert (Hnew : forall z, 0 <= z < max_zone -> zone_magic (f (zone_header_word hlayout z)) <> ZONE_HEADER_MAGIC) by (intros z Hz'; by rewrite Hf).
  split_and!.
  - unfold heap_check. rewrite (proj2 (Z.ltb_ge _ _)) by lia. destruct (Hh 4%nat heap_size (header_size _)) as [E4 D4]. change (8 * Z.of_nat 4) with 32 in *.
    rewrite pm_read_boot, (durable_image _ _ f D4 Hcr), E4, Z.eqb_refl. cbn [negb]. rewrite (header_verified _ _ heap_size ltac:(change HEAP_MIN_SIZE with 1311744 in Hs; lia) Hw). cbn [negb Z.eqb].
    rewrite Em. cbn [mbind option_bind]. apply check_new_zones. intros z Hz'. rewrite pm_read_boot. apply Hf. lia.
  - intros z Hz'. left. by apply Hnew.
  - intros z i u Ha. pose proof (proj1 Ha) as Hz'. revert Ha. apply allocated_new. by apply Hnew.
Qed.

(** C33: [heap_boot] on any heap that a crash can leave: all of its zones are sequences of
    chunks or have not been created, and the unit sizes of its runs are among [sizes],
    which the classes can serve.  The size of the heap is not in one of the ranges in
    which the last zone does not fit ([size_fits]): at most 1023 bytes above a multiple of
    the chunk size, or a chunk or more above a whole number of zones without being enough
    for another one.  When volatile memory can be allocated, [heap_boot] succeeds, the
    volatile state agrees with the memory, with the first zone scanned, and the same units
    are allocated as in the image, also when it is interrupted by a crash. *)
Theorem heap_boot_correct hlayout heap_size max_zone addr sizes cl mal f :
  (forall r, addr r <> 0) -> (forall r r', addr r = addr r' -> r = r') -> (forall bs, bs ∈ sizes -> MIN_RUN_SIZE <= bs <= RUNSIZE) ->
  HEAP_MIN_SIZE <= heap_size < 2 ^ 64 -> heap_max_zone heap_size = Some max_zone -> max_zone <= UINT16_MAX -> size_fits heap_size max_zone ->
  make_classes = Some cl -> classes_ok sizes cl ->
  bm_heap mal = true -> bm_caches mal = true -> bm_map mal = true -> bm_default mal = true -> (forall k, bm_nodes mal k = (true, true)) ->
  heap_image hlayout max_zone sizes f ->
  exists h zs ops, heap_boot hlayout mal heap_size (pm_boot f) = Some ((0, Some h), ops) /\
    heap_inv hlayout max_zone heap_size addr sizes Nothing zs (run ops (pm_boot f)) h /\ h_zones_exhausted h = 1 /\
    same_allocated hlayout max_zone sizes f (pm_read (run ops (pm_boot f))) /\
    forall j f', pm_crash (run (take j ops) (pm_boot f)) f' -> heap_image hlayout max_zone sizes f' /\ same_allocated hlayout max_zone sizes f f'.
Proof.
  intros Haddr Hinj Hsizes Hs Em Hmz Hfit Ecl Hcl B1 B2 B3 B4 B5 Hf. destruct (zones_spec heap_size Hs) as (mz & Em' & Hm1 & Hzs). rewrite Em in Em'. injection Em' as <-.
  assert (Hzn : forall z, 0 <= z < max_zone -> exists n, get_zone_size_idx z max_zone heap_size = Some n /\ 1 <= n <= MAX_CHUNK).
  { intros z Hz. destruct (Hzs Hfit z Hz) as (n & E & Hn & _). exists n. split; [exact E|exact Hn]. }
  destruct (boot_spec hlayout max_zone heap_size addr sizes Haddr Hinj Hsizes (conj Hm1 Hmz) Hzn f mal cl Hf Hcl B3 B4 B5) as (h & zs & ops & E & Hq & Hi & Hx).
  exists h, zs, ops. split; [|split; [exact Hi|split; [exact Hx|split; [apply (quiet_done _ _ _ _ _ Hq)|exact Hq]]]].
  unfold heap_boot. rewrite B1, B2. cbn [negb]. rewrite (bind_pure _ _ _ max_zone) by (unfold lift; rewrite Em; reflexivity). rewrite Ecl. exact E.
Qed.

(** ** An empty heap of the least size *)

(** Addresses of buckets. *)
Definition sample_addr (r : bucket_ref) : Z :=
  Z.pos (encode (match r with Auxiliary s => inl s | Cached c s => inr (c, s) end : Z + Z * Z)).

Lemma sample_addr_ok : (forall r, sample_addr r <> 0) /\ forall r r', sample_addr r = sample_addr r' -> r = r'.
Proof.
  split; [done|]. intros r r' [= E%(inj encode)]. destruct r, r'; congruence.
Qed.

Lemma made_units : match make_classes with Some h => forallb (fun u => (MIN_RUN_SIZE <=? u) && (u <=? RUNSIZE)) (cl_units h) = true | None => False end.
Proof. vm_compute. reflexivity. Qed.

Lemma sample_classes : exists cl, make_classes = Some cl /\ classes_ok (cl_units cl) cl /\ forall bs, bs ∈ cl_units cl -> MIN_RUN_SIZE <= bs <= RUNSIZE.
Proof.
  destruct made_classes_ok as (cl & E & Hcl). exists cl. split; [exact E|]. split; [exact Hcl|]. pose proof made_units as Hu. rewrite E in Hu.
  intros bs Hbs. rewrite forallb_forall in Hu. apply list_elem_of_In, Hu, andb_true_iff in Hbs as [H1%Z.leb_le H2%Z.leb_le]. split; [exact H1|exact H2].
Qed.

Lemma sample_image sizes : heap_image 0 1 sizes (fun _ => 0).
Proof. intros z _. left. done. Qed.

Lemma sample_fit z : 0 <= z < 1 -> exists n, get_zone_size_idx z 1 5234688 = Some n /\ 1 <= n <= MAX_CHUNK.
Proof. intros Hz. assert (z = 0) as -> by lia. exists 17. vm_compute. split; [reflexivity|]. split; discriminate. Qed.

Lemma heap_init_opens_witness :
  exists ops, heap_init 0 5234688 (pm_boot (fun _ => 7)) = Some (0, ops) /\
    forall f, pm_crash (run ops (pm_boot (fun _ => 7))) f -> heap_check 0 5234688 (pm_boot f) = Some 0.
Proof.
  destruct (heap_init_opens 0 5234688 1 [] (pm_boot (fun _ => 7))) as (ops & E & H); [vm_compute; split; [discriminate|reflexivity]|vm_compute; reflexivity|].
  exists ops. split; [exact E|]. intros f Hf. exact (proj1 (H f Hf)).
Defined.

Lemma heap_boot_correct_witness :
  exists h ops, heap_boot 0 (mkBootMallocs true true true true (fun _ => (true, true))) 5234688 (pm_boot (fun _ => 0)) = Some ((0, Some h), ops) /\ h_zones_exhausted h = 1.
Proof.
  destruct sample_classes as (cl & E & Hcl & Hs).
  destruct (heap_boot_correct 0 5234688 1 sample_addr (cl_units cl) cl (mkBootMallocs true true true true (fun _ => (true, true))) (fun _ => 0))
    as (h & zs & ops & Eb & _ & Hx & _).
  - exact (proj1 sample_addr_ok).
  - exact (proj2 sample_addr_ok).
  - exact Hs.
  - vm_compute. split; [discriminate|reflexivity].
  - vm_compute. reflexivity.
  - vm_compute. discriminate.
  - exact small_heap_fits.
  - exact E.
  - exact Hcl.
  - reflexivity.
  - reflexivity.
  - reflexivity.
  - reflexivity.
  - reflexivity.
  - exact (sample_image (cl_units cl)).
  - exists h, ops. split; [exact Eb|exact Hx].
Defined.
