(* ===== verification/HeapBestfit.v ===== *)
(** * Best fit

    [heap_get_bestfit_block] of [nvml/src/libpmemobj/heap.c]: it ends, it hands out a block
    of the asked number of units that are free, and fails only when there is none in the
    chunks and the runs known before the call; on the way it scans zones, splits chunks
    and makes runs, none of which a crash can turn into memory handed out or lost. *)

From S2P Require Import Prelude Pmem Programs Redo RedoProofs Memops Ctree Bucket HeapLayout HeapRun Memblock MemblockRun HeapZone HeapZoneProofs HeapHuge HeapTheorems HeapCreate HeapAlloc HeapInv HeapSteps HeapScan HeapBoot.

Local Open Scope pmtest_scope.

Section Bestfit.
Context (hlayout max_zone heap_size : Z) (addr : bucket_ref -> Z) (sizes : list Z) (mallocs : nat -> Z -> bool * bool).
Context (Haddr : forall r, addr r <> 0) (Hinj : forall r r', addr r = addr r' -> r = r').
Context (Hsizes : forall bs, bs ∈ sizes -> MIN_RUN_SIZE <= bs <= RUNSIZE) (Hmax : max_zone <= UINT16_MAX).
Context (Hmal : forall k i, mallocs k i = (true, true)).

Local Abbreviation inv := (heap_inv hlayout max_zone heap_size addr sizes).
Local Abbreviation silent := (quiet hlayout max_zone sizes).
Local Abbreviation class_of h r := (cl_units (h_classes h) !! Z.to_nat (ref_slot r)).
Local Abbreviation alloc_at m := (allocated hlayout max_zone sizes (pm_read m)).

Lemma take_active_none l s x : take_active l s = None -> (s, x) ∉ l.
Proof.
  induction l as [|[s' c] l IH]; simpl; [by intros _ ?%elem_of_nil|]. destruct (Z.eqb_spec s' s) as [->|Hne]; [done|].
  destruct (take_active l s) as [[c' l']|]; [done|]. intros _ [[= ]|Hin]%elem_of_cons; [congruence|by apply IH].
Qed.

(** No free chunk has [units] units. *)
Definition no_chunk (zs : zones) (units : Z) : Prop := forall z n l c, zs z = Some (n, l) -> c ∈ l -> ch_type c = CHUNK_TYPE_FREE -> ch_size c < units.

(** ** The default bucket *)

Lemma bestfit_huge_spec fuel zs m h units :
  inv Nothing zs m h -> 1 <= units <= UINT16_MAX -> (Z.to_nat (max_zone - h_zones_exhausted h) < fuel)%nat ->
  exists err b h' zs' ops, bestfit_huge hlayout max_zone heap_size mallocs fuel h units m = Some ((err, b, h'), ops) /\ silent m ops /\
    h_trees h' = h_trees h /\ cl_units (h_classes h) `prefix_of` cl_units (h_classes h') /\
    (err = 0 /\ (exists z n l1 c l2, b = chunk_block z c /\ ch_size c = units /\ inv (HeldChunk z n l1 c l2) zs' (run ops m) h') \/
     err = ENOMEM /\ inv Nothing zs' (run ops m) h' /\ h_zones_exhausted h' = max_zone /\ no_chunk zs' units /\
     (forall e, e ∈ h_active h' -> e ∈ h_active h \/ h_zones_exhausted h <= e.2.2)).
Proof.
  intros Hi Hu. revert zs m h Hi. induction fuel as [|fuel IH]; intros zs m h Hi Hf; [lia|]. cbn [bestfit_huge].
  destruct (take_huge_inv hlayout max_zone heap_size addr sizes Haddr Hinj Hsizes Hmax (mallocs (S fuel) 0) zs m h units Hi (Hmal _ _) Hu) as (err & b & t & ops & E & Hs & Hor).
  destruct Hor as [(-> & z & n & l1 & c & l2 & Eb & Ec & Hi')|(-> & -> & -> & Hno)].
  { eexists 0, b, (set_default h t), _, ops. split; [rewrite <-(app_nil_r ops); eapply bind_Some; [exact E|done]|]. split; [done|]. split; [done|]. split; [done|].
    left. split; [done|]. exists z, n, l1, c, l2. split_and!; [done|done|exact Hi']. }
  rewrite (bind_pure _ _ m _ E). change (ENOMEM =? 0) with false. cbn [fst snd]. pose proof Hi as [Hx _ _ _ _ Hcl _].
  destruct (decide (h_zones_exhausted h = max_zone)) as [Ex|Hne].
  - exists ENOMEM, b, (mkHeap (h_found h) (h_zones_exhausted h) (h_trees h) (h_last_drained h)), zs, []. split; [|split; [done|]].
    { rewrite (bind_pure _ _ m (ENOMEM, h_zones_exhausted h, h_found h)) by (unfold heap_populate_buckets; by rewrite (proj2 (Z.eqb_eq _ _) Ex)). done. }
    split; [done|]. split; [done|]. right. split; [done|]. split; [by destruct h|]. split_and!; [done|done|]. by left.
  - destruct (scan_inv hlayout max_zone heap_size addr sizes Haddr Hinj Hsizes Hmax (mallocs (S fuel)) zs m h Hi ltac:(lia) (Hmal _)) as (s & n & l & ops & Ep & Hq & Hpre & Hnew & Hi').
    set (h1 := mkHeap s (h_zones_exhausted h + 1) (h_trees h) (h_last_drained h)) in *.
    destruct (IH _ _ h1 Hi') as (err & b' & h' & zs' & ops' & E' & Hq' & Ht' & Hp' & Hor'); [change (h_zones_exhausted h1) with (h_zones_exhausted h + 1); lia|].
    exists err, b', h', zs', (ops ++ ops'). rewrite run_app.
    split; [eapply bind_Some; [exact Ep|exact E']|]. split; [by apply quiet_app|]. split; [done|]. split.
    + by etrans; [|exact Hp'].
    + destruct Hor' as [?|(-> & A & B & C & D)]; [by left|right]. split_and!; try done.
      intros e [He|He]%D; [|change (h_zones_exhausted h1) with (h_zones_exhausted h + 1) in He; right; lia].
      destruct (Hnew e He) as [?|Ez]; [by left|right; rewrite Ez; lia].
Qed.

(** ** Filling a bucket of runs *)

(** The block at the start of a run with free units only. *)
Lemma new_run_block f b c z units : run_bucket_ok b -> new_run hlayout f b c z -> units <= RUN_UNIT_MAX -> units <= b_bitmap_nallocs b -> 1 <= b_bitmap_nallocs b ->
  0 <= c < MAX_CHUNK -> 0 <= z < UINT16_MAX ->
  exists x, block_ok x /\ chunk_of x = (c, z) /\ block_off x + size_idx x <= b_bitmap_nallocs b /\ units <= size_idx x /\
    free_block RUN_UNIT_MAX (used_unit (bits_of hlayout f (c, z))) x.
Proof.
  intros Hb [_ N2] Hu1 Hu2 Hna Hc Hz. set (k := Z.min RUN_UNIT_MAX (b_bitmap_nallocs b)). exists (mkBlock c z k 0).
  assert (Hbits : forall p, 0 <= p <= RUN_UNIT_MAX -> used_unit (bits_of hlayout f (c, z)) p = (b_bitmap_nallocs b <=? p)).
  { intros p Hp. assert (Hp' : 0 <= p < RUN_BITMAP_SIZE) by (change RUN_UNIT_MAX with 8 in Hp; change RUN_BITMAP_SIZE with 2432; lia).
    rewrite <-new_run_free by done. unfold used_unit. f_equal. apply N2. by apply value_index. }
  change RUN_UNIT_MAX with 8 in *. assert (Hk : 1 <= k <= 8 /\ k <= b_bitmap_nallocs b) by lia. split_and!; simpl; try lia; try done.
  - split; simpl; unfold MAX_CHUNK, UINT16_MAX in *; lia.
  - assert (Eg : grp 8 0 = 0) by done. split; simpl; rewrite ?Eg; [lia|lia|..].
    + intros p Hp. rewrite Hbits by lia. apply Z.leb_gt. lia.
    + by left.
    + destruct (decide (k = 8)) as [E|]; [left; lia|right]. rewrite Hbits by lia. apply Z.leb_le. lia.
Qed.

(** What is known after a bucket was filled: a run was taken from the list, or one was
    made that has a large enough block. *)
Lemma ensure_spec k zs m h r unit units :
  inv Nothing zs m h -> class_of h r = Some unit -> 1 <= units <= RUN_UNIT_MAX -> units <= RUN_NALLOCS unit ->
  exists err h' zs' ops, heap_ensure_bucket_filled hlayout max_zone heap_size addr mallocs k h r m = Some ((err, h'), ops) /\ silent m ops /\
    inv Nothing zs' (run ops m) h' /\ class_of h' r = Some unit /\
    (err = 0 /\ length (h_active h) = S (length (h_active h')) /\ h_zones_exhausted h' = h_zones_exhausted h \/
     err = 0 /\ (exists x, block_ok x /\ is_run zs' (chunk_of x) /\ owner_of hlayout (pm_read (run ops m)) (chunk_of x) = addr r /\
       block_off x + size_idx x <= RUN_NALLOCS unit /\ units <= size_idx x /\ free_block RUN_UNIT_MAX (used_unit (bits_of hlayout (pm_read (run ops m)) (chunk_of x))) x) \/
     err = ENOMEM /\ h_trees h' = h_trees h /\ h_zones_exhausted h' = max_zone /\ no_chunk zs' 1 /\
     (forall x, (ref_slot r, x) ∈ h_active h' -> h_zones_exhausted h <= x.2)).
Proof.
  intros Hi Ec Hu Hn. pose proof Hi as [_ _ _ _ _ Hcl _]. destruct (bucket_of_spec sizes Hsizes h r unit Hcl Ec) as (b & Eb & Hb & Eu & Et & Ena).
  unfold heap_ensure_bucket_filled. rewrite (bind_pure _ _ m b) by (unfold lift; by rewrite Eb).
  destruct (heap_get_active_run h (ref_slot r)) as [[x0 h1]|] eqn:Ea.
  - destruct (active_inv hlayout max_zone heap_size addr sizes Haddr Hinj Hsizes Hmax (fun i => mallocs k (Z.of_nat i)) zs m h r b x0 h1) as (t & E & Hi' & Hs & Hl & Hx0); try done; [by rewrite Eu|].
    destruct x0 as [c z]. set (ops := [Store _ _]) in *. exists 0, (set_tree h1 r t), zs, ops. split; [rewrite <-(app_nil_r ops); eapply bind_Some; [exact E|done]|]. split; [done|]. split; [done|].
    unfold heap_get_active_run in Ea. destruct (take_active _ _) as [[x l]|]; [|done]. simpl in Ea. injection Ea as _ <-. split; [done|]. left. done.
  - destruct (bestfit_huge_spec (huge_fuel max_zone h) zs m h 1 Hi) as (err & b1 & h1 & zs1 & ops1 & E1 & Hs1 & Ht1 & Hp1 & Hor); [done|unfold huge_fuel; lia|].
    assert (Ec1 : class_of h1 r = Some unit) by (by eapply prefix_lookup_Some).
    destruct Hor as [(-> & z & n & l1 & c & l2 & -> & Hc1 & Hi1)|(-> & Hi1 & Hx1 & Hno & Hact)].
    + assert (Eb1 : bucket_of h1 r = Some b) by (unfold bucket_of in *; by rewrite Ec1, Ht1; rewrite Ec in Eb).
      destruct (create_inv hlayout max_zone heap_size addr sizes Haddr Hinj Hsizes Hmax (fun i => mallocs k (Z.of_nat i)) zs1 (run ops1 m) h1 r b z n l1 c l2) as (t & E & Hi' & Hs & Ho & Hnew); try done; [by rewrite Eu|].
      set (ops := create_ops _ _ _ _ _) in *. eexists 0, (set_tree h1 r t), _, (ops1 ++ ops). rewrite run_app.
      split; [eapply bind_Some; [exact E1|]; cbn [negb Z.eqb]; rewrite (bind_pure _ _ _ tt) by done; rewrite <-(app_nil_r ops); eapply bind_Some; [exact E|done]|].
      split; [by apply quiet_app|]. split; [exact Hi'|]. split; [done|]. right. left. split; [done|].
      assert (Hrun : is_run (set_zone zs1 z n (l1 ++ run_chunk c :: l2)) (ch_at c, z)).
      { exists n, (l1 ++ run_chunk c :: l2), (run_chunk c). split_and!; [apply set_zone_at|apply elem_of_app; right; left|done|done]. }
      destruct (run_header hlayout max_zone heap_size addr sizes Hmax _ _ _ _ _ Hi' Hrun) as (B1 & B2 & _ & _).
      assert (Hsz : unit ∈ sizes) by (eapply (co_units _ _ Hcl), list_elem_of_lookup_2; exact Ec). pose proof (nallocs_range sizes Hsizes unit Hsz).
      destruct (new_run_block (pm_read (run ops (run ops1 m))) b (ch_at c) z units) as (x & X1 & X2 & X3 & X4 & X5); try done; [lia|lia|lia|].
      exists x. rewrite X2, <-Ena. by split_and!.
    + exists ENOMEM, h1, zs1, ops1. split; [rewrite <-(app_nil_r ops1); eapply bind_Some; [exact E1|done]|]. split_and!; try done. right. right. split_and!; try done.
      intros x [Hin|Hin]%Hact; [|exact Hin]. unfold heap_get_active_run in Ea. destruct (take_active _ _) as [[y l]|] eqn:Ety; [done|].
      by apply (take_active_none _ _ _ Ety) in Hin.
Qed.

(** ** Buckets of runs *)

(** Units of a run of the bucket [r] are taken. *)
Lemma runs_take zs f bm cl active trees r unit b t :
  (forall unit r, cl_units cl !! Z.to_nat (ref_slot r) = Some unit -> RUN_NALLOCS unit <= RUN_BITMAP_SIZE) ->
  cl_units cl !! Z.to_nat (ref_slot r) = Some unit -> owner_of hlayout f (chunk_of b) = addr r ->
  bucket_exact RUN_UNIT_MAX (RUN_NALLOCS unit) t (fun x => is_run zs x /\ owner_of hlayout f x = addr r) (reserved (HeldUnits b) bm) ->
  runs_inv hlayout addr zs f bm cl active trees ->
  runs_inv hlayout addr zs f (reserved (HeldUnits b) bm) cl active (fun r' => if decide (r' = r) then t else trees r').
Proof.
  intros Hn Ec Ho Hex [R1 R2 R3 R4 R5]. split; [done|done|done| |].
  - intros r' u E. case_decide as Er; [subst r'; rewrite Ec in E; by injection E as <-|]. eapply exact_frame; [by eapply Hn| |by apply R4].
    intros x i [_ Ho'] _. simpl. unfold with_value. rewrite decide_False; [done|]. intros ->. rewrite Ho in Ho'. by apply Hinj in Ho'.
  - intros r' E. rewrite decide_False by congruence. by apply R5.
Qed.

(** The units of [b] are units of a run of the bucket that are free. *)
Record units_of (zs : zones) (m : pmem) (r : bucket_ref) (unit : Z) (b : memory_block) : Prop := {
  uo_run : is_run zs (chunk_of b);
  uo_owner : owner_of hlayout (pm_read m) (chunk_of b) = addr r;
  uo_unit : unit_of hlayout (pm_read m) (chunk_of b) = unit;
  uo_free p : has_unit b p -> used_unit (memory_bitmaps hlayout m (chunk_of b)) p = false /\ p < RUN_NALLOCS unit;
}.

Lemma take_run_inv mal zs m h r unit units : inv Nothing zs m h -> class_of h r = Some unit -> mal = (true, true) -> 1 <= units <= RUN_UNIT_MAX ->
  exists err b t, take_from_run mal (h_trees h r) units = Some (err, b, t) /\
    (err = 0 /\ size_idx b = units /\ units_of zs m r unit b /\ inv (HeldUnits b) zs m (set_tree h r t) \/
     err = ENOMEM /\ forall x, block_ok x -> has_block (h_trees h r) x -> size_idx x < units).
Proof.
  intros Hi Ec -> Hu. pose proof Hi as [Hx Hzs Hall Hf Hdef Hcl Hr]. simpl in Hr. pose proof Hr as [R1 R2 R3 R4 R5]. pose proof (R4 r unit Ec) as Hex.
  assert (Hsz : unit ∈ sizes) by (eapply (co_units _ _ Hcl), list_elem_of_lookup_2; exact Ec). pose proof (nallocs_range sizes Hsizes unit Hsz).
  destruct (run_alloc_exact_spec RUN_UNIT_MAX (RUN_NALLOCS unit) ltac:(done) ltac:(by exists 8) ltac:(done) ltac:(unfold UINT16_MAX; lia) (true, true) _ _ _ units Hex)
    as (err & b & t & E & Hor); [change RUN_UNIT_MAX with 8 in Hu; unfold UINT16_MAX; lia|done|done|].
  exists err, b, t. split; [done|]. destruct Hor as [(-> & Es & [Hrun Ho] & _ & _ & Hfree & Hex')|(-> & -> & Hno)].
  - left. split_and!; [done|done| |].
    + split; try done. destruct (R1 _ Hrun) as [H0|(r' & Er & Eu)]; [rewrite H0 in Ho; symmetry in Ho; by apply Haddr in Ho|].
      rewrite Ho in Er. apply Hinj in Er as <-. rewrite Ec in Eu. by injection Eu.
    + split; try done. eapply runs_take; try done. by apply (class_nallocs sizes).
  - right. split; [done|]. intros x Hxok Hh. apply Hex in Hh as (H1 & H2 & H3); [|done]. by apply Hno.
Qed.

Lemma bestfit_run_spec fuel zs m h r unit units :
  inv Nothing zs m h -> class_of h r = Some unit -> 1 <= units <= RUN_UNIT_MAX -> units <= RUN_NALLOCS unit -> (length (h_active h) + 2 <= fuel)%nat ->
  exists err b h' zs' ops, bestfit_run hlayout max_zone heap_size addr mallocs fuel h r units m = Some ((err, b, h'), ops) /\ silent m ops /\
    (err = 0 /\ size_idx b = units /\ units_of zs' (run ops m) r unit b /\ inv (HeldUnits b) zs' (run ops m) h' \/
     err = ENOMEM /\ inv Nothing zs' (run ops m) h' /\ h_zones_exhausted h' = max_zone /\ no_chunk zs' 1 /\
     (forall x, block_ok x -> has_block (h_trees h' r) x -> size_idx x < units) /\
     (forall x, (ref_slot r, x) ∈ h_active h' -> h_zones_exhausted h <= x.2)).
Proof.
  intros Hi Ec Hu Hn. revert zs m h Hi Ec. induction fuel as [|fuel IH]; intros zs m h Hi Ec Hf; [lia|]. cbn [bestfit_run].
  destruct (take_run_inv (mallocs (S fuel) 0) zs m h r unit units Hi Ec (Hmal _ _) Hu) as (err & b & t & E & Hor).
  rewrite (bind_pure _ _ m (err, b, t)) by (unfold lift; by rewrite E). destruct Hor as [(-> & Hs & Hb & Hi')|(-> & Hno)].
  { exists 0, b, (set_tree h r t), zs, []. split; [done|]. split; [apply quiet_nil; [done|by eapply inv_settled]|]. left. done. }
  change (ENOMEM =? 0) with false. cbv iota.
  destruct (ensure_spec (S fuel) zs m h r unit units Hi Ec Hu Hn) as (err & h1 & zs1 & ops1 & E1 & Hq1 & Hi1 & Ec1 & Hor).
  destruct Hor as [(-> & Hl & Hx1)|[(-> & x & X1 & X2 & X3 & X4 & X5 & X6)|(-> & Ht1 & Hx1 & Hno1 & Hact)]].
  - destruct (IH zs1 (run ops1 m) h1 Hi1 Ec1 ltac:(lia)) as (err & b' & h' & zs' & ops' & E' & Hq' & Hor'). exists err, b', h', zs', (ops1 ++ ops'). rewrite run_app.
    split; [eapply bind_Some; [exact E1|exact E']|]. split; [by apply quiet_app|]. rewrite Hx1 in Hor'. done.
  - destruct fuel as [|fuel]; [lia|]. cbn [bestfit_run].
    destruct (take_run_inv (mallocs (S fuel) 0) zs1 (run ops1 m) h1 r unit units Hi1 Ec1 (Hmal _ _) Hu) as (err & b' & t' & E' & Hor').
    destruct Hor' as [(-> & Hs & Hb & Hi')|(-> & Hno')].
    + exists 0, b', (set_tree h1 r t'), zs1, ops1. split.
      { rewrite <-(app_nil_r ops1). eapply bind_Some; [exact E1|]. cbn [fst snd negb Z.eqb]. rewrite (bind_pure _ _ _ (0, b', t')) by (unfold lift; by rewrite E'). done. }
      split; [done|]. left. done.
    + pose proof (hi_runs _ _ _ _ _ _ _ _ _ Hi1) as [_ _ _ R4 _]. destruct (R4 r unit Ec1) as [_ Hex]. specialize (Hno' x X1 ltac:(by apply Hex)). lia.
  - exists ENOMEM, b, h1, zs1, ops1. split; [rewrite <-(app_nil_r ops1); eapply bind_Some; [exact E1|done]|]. split; [done|]. right. rewrite Ht1. done.
Qed.

(** ** What was taken is not allocated *)

Lemma held_chunk_free zs m h z n l1 c l2 : inv (HeldChunk z n l1 c l2) zs m h -> forall i u, ch_at c <= i < ch_at c + ch_size c -> ~ alloc_at m z i u.
Proof.
  intros [_ Hzs _ _ (Ez & Hf & _) _ _] i u Hin (_ & n' & l' & d & Hl' & Hd & Ea & Ht). destruct (Hzs z n _ Ez) as (_ & Hl & _).
  destruct (zone_image_det _ _ _ _ _ _ _ _ Hl Hl') as [<- <-]. pose proof (zi_tiles _ _ _ _ _ _ Hl) as Htl.
  assert (Hc : c ∈ l1 ++ c :: l2) by (apply elem_of_app; right; left). pose proof (tiles_bounds _ _ _ _ _ Htl Hc). pose proof (tiles_bounds _ _ _ _ _ Htl Hd).
  destruct (tiles_disjoint _ _ _ _ c d Htl Hc Hd) as [<-|?]; [by apply free_not_taken in Ht|lia].
Qed.

Lemma units_free k zs m h r unit b : inv k zs m h -> units_of zs m r unit b -> forall p, has_unit b p -> ~ alloc_at m (zone_id b) (chunk_id b) p.
Proof.
  intros [_ Hzs _ _ _ _ _] [(n & l & c & E & Hc & Hr & Ea) _ _ Hfree] p Hp (_ & n' & l' & d & Hl' & Hd & Ea' & Ht). simpl in *.
  destruct (Hzs _ _ _ E) as (_ & Hl & _). destruct (zone_image_det _ _ _ _ _ _ _ _ Hl Hl') as [<- <-]. pose proof (zi_tiles _ _ _ _ _ _ Hl) as Htl.
  pose proof (tiles_bounds _ _ _ _ _ Htl Hc). pose proof (tiles_bounds _ _ _ _ _ Htl Hd).
  destruct (tiles_disjoint _ _ _ _ c d Htl Hc Hd) as [<-|?]; [|lia]. destruct (Hfree p Hp) as [Hu _].
  destruct Ht as [[Ht _]|(_ & _ & Ht)]; [by rewrite Ht in Hr|]. rewrite Ea in Ht. unfold memory_bitmaps, chunk_of, bits_of in *. simpl in *. by rewrite Hu in Ht.
Qed.

(** The runs that wait to be used are in zones that have been scanned. *)
Lemma active_zone k zs m h s x : inv k zs m h -> (s, x) ∈ h_active h -> x.2 < h_zones_exhausted h.
Proof.
  intros Hi Hin. destruct (ri_active _ _ _ _ _ _ _ _ (hi_runs _ _ _ _ _ _ _ _ _ Hi) s x Hin) as [(n & l & c & E & _) _].
  apply (hi_zones _ _ _ _ _ _ _ _ _ Hi) in E as [E _]. lia.
Qed.

End Bestfit.

(** C31: [heap_get_bestfit_block] in a heap whose volatile state agrees with its zones, runs
    and bitmaps, when volatile memory can be allocated.  For the default bucket it ends,
    and either takes a free chunk of exactly [units] units out of the bucket, none of
    which is allocated, or fails, having scanned all zones and found no free chunk that
    is large enough.  For a bucket of runs of at least [units] units it ends as well: it
    takes [units] free units of a run of the bucket, or fails, when all zones have been
    scanned, there is no free chunk left and no block of the bucket is large enough.
    This does not say that no run of the class has room: runs may then wait to be used,
    but only runs of zones that were scanned during this call, so none when all zones had
    been scanned before it ([enomem_with_room] is an instance of such a failure).  On the
    way the function scans and creates zones, splits chunks and makes runs: a crash at
    any point of this leaves a heap that can be opened and has the same units
    allocated. *)
Theorem bestfit_block_correct hlayout max_zone heap_size addr sizes mallocs zs m h units :
  (forall r, addr r <> 0) -> (forall r r', addr r = addr r' -> r = r') -> (forall bs, bs ∈ sizes -> MIN_RUN_SIZE <= bs <= RUNSIZE) ->
  max_zone <= UINT16_MAX -> (forall k i, mallocs k i = (true, true)) -> heap_inv hlayout max_zone heap_size addr sizes Nothing zs m h ->
  let bestfit r := heap_get_bestfit_block hlayout max_zone heap_size addr mallocs h r units m in
  (1 <= units <= UINT16_MAX -> exists err b h' zs' ops, bestfit None = Some ((err, b, h'), ops) /\ quiet hlayout max_zone sizes m ops /\
    (err = 0 /\ (exists z n l1 c l2, b = chunk_block z c /\ ch_size c = units /\
       heap_inv hlayout max_zone heap_size addr sizes (HeldChunk z n l1 c l2) zs' (run ops m) h' /\
       forall i u, ch_at c <= i < ch_at c + units -> ~ allocated hlayout max_zone sizes (pm_read (run ops m)) z i u) \/
     err = ENOMEM /\ heap_inv hlayout max_zone heap_size addr sizes Nothing zs' (run ops m) h' /\ h_zones_exhausted h' = max_zone /\ no_chunk zs' units)) /\
  (forall r unit, cl_units (h_classes h) !! Z.to_nat (ref_slot r) = Some unit -> 1 <= units <= RUN_UNIT_MAX -> units <= RUN_NALLOCS unit ->
    exists err b h' zs' ops, bestfit (Some r) = Some ((err, b, h'), ops) /\ quiet hlayout max_zone sizes m ops /\
    (err = 0 /\ size_idx b = units /\ units_of hlayout addr zs' (run ops m) r unit b /\
       heap_inv hlayout max_zone heap_size addr sizes (HeldUnits b) zs' (run ops m) h' /\
       (forall p, has_unit b p -> ~ allocated hlayout max_zone sizes (pm_read (run ops m)) (zone_id b) (chunk_id b) p) \/
     err = ENOMEM /\ heap_inv hlayout max_zone heap_size addr sizes Nothing zs' (run ops m) h' /\ h_zones_exhausted h' = max_zone /\ no_chunk zs' 1 /\
     (forall x, block_ok x -> has_block (h_trees h' r) x -> size_idx x < units) /\
     (forall x, (ref_slot r, x) ∈ h_active h' -> h_zones_exhausted h <= x.2 < max_zone))).
Proof.
  intros Haddr Hinj Hsizes Hmax Hmal Hi bestfit. split.
  - intros Hu. destruct (bestfit_huge_spec hlayout max_zone heap_size addr sizes mallocs Haddr Hinj Hsizes Hmax Hmal (huge_fuel max_zone h) zs m h units Hi Hu)
      as (err & b & h' & zs' & ops & E & Hq & _ & _ & Hor); [unfold huge_fuel; lia|]. exists err, b, h', zs', ops. split; [exact E|]. split; [done|].
    destruct Hor as [(-> & z & n & l1 & c & l2 & Eb & Ec & Hi')|(-> & Hi' & Hx & Hno & _)]; [left|by right]. split; [done|]. exists z, n, l1, c, l2.
    split_and!; try done. intros i u Hin. eapply held_chunk_free; [exact Hi'|by rewrite Ec].
  - intros r unit Ec Hu Hn. destruct (bestfit_run_spec hlayout max_zone heap_size addr sizes mallocs Haddr Hinj Hsizes Hmax Hmal (run_fuel h) zs m h r unit units Hi Ec Hu Hn)
      as (err & b & h' & zs' & ops & E & Hq & Hor); [unfold run_fuel; lia|]. exists err, b, h', zs', ops. split; [exact E|]. split; [done|].
    destruct Hor as [(-> & Hs & Hb & Hi')|(-> & Hi' & Hx & H1 & H2 & H3)].
    + left. split_and!; try done. by eapply units_free.
    + right. split_and!; try done. intros x Hin. split; [by apply H3|]. rewrite <-Hx. by eapply active_zone.
Qed.

(** A chunk is taken out of an empty heap, and two units of 128 bytes out of a new run. *)
Definition sample_bestfit (cl : classes) (r : option bucket_ref) (units : Z) : option (Z * memory_block) :=
  (fun x => x.1.1) <$> heap_get_bestfit_block 0 1 5234688 sample_addr (fun _ _ => (true, true)) (mkHeap (mkFound cl [] None) 0 (fun _ => None) (fun _ => 0)) r units (pm_boot (fun _ => 0)).

Lemma sample_blocks : match make_classes with
  | Some cl => sample_bestfit cl None 3 = Some (0, mkBlock 0 0 3 0) /\ sample_bestfit cl (Some (Auxiliary 0)) 2 = Some (0, mkBlock 0 0 2 2040) /\ cl_units cl !! 0%nat = Some 128
  | None => False
  end.
Proof. vm_compute. split; [reflexivity|]. split; reflexivity. Qed.

Lemma sample_result cl r units err b h' ops :
  heap_get_bestfit_block 0 1 5234688 sample_addr (fun _ _ => (true, true)) (mkHeap (mkFound cl [] None) 0 (fun _ => None) (fun _ => 0)) r units (pm_boot (fun _ => 0)) =
    Some ((err, b, h'), ops) -> sample_bestfit cl r units = Some (err, b).
Proof. intros E. unfold sample_bestfit. rewrite E. reflexivity. Qed.

Lemma bestfit_block_correct_witness :
  exists cl, make_classes = Some cl /\
    (exists ops zs' h' z n l1 c l2, let m := run ops (pm_boot (fun _ => 0)) in chunk_block z c = mkBlock 0 0 3 0 /\
       heap_inv 0 1 5234688 sample_addr (cl_units cl) (HeldChunk z n l1 c l2) zs' m h' /\ quiet 0 1 (cl_units cl) (pm_boot (fun _ => 0)) ops) /\
    (exists ops zs' h', let m := run ops (pm_boot (fun _ => 0)) in
       heap_inv 0 1 5234688 sample_addr (cl_units cl) (HeldUnits (mkBlock 0 0 2 2040)) zs' m h' /\ quiet 0 1 (cl_units cl) (pm_boot (fun _ => 0)) ops).
Proof.
  destruct sample_classes as (cl & E & Hcl & Hs). exists cl. split; [exact E|]. pose proof sample_blocks as Hb. rewrite E in Hb. destruct Hb as (B1 & B2 & B3).
  pose proof (fresh_inv 0 1 5234688 sample_addr (cl_units cl) ltac:(vm_compute; split; discriminate) sample_fit (fun _ => 0) cl (sample_image _) Hcl) as Hi.
  assert (Hmz : 1 <= UINT16_MAX) by (vm_compute; discriminate). assert (Hm : forall (k : nat) (i : Z), (fun (_ : nat) (_ : Z) => (true, true)) k i = (true, true)) by reflexivity.
  split.
  - destruct (proj1 (bestfit_block_correct 0 1 5234688 sample_addr (cl_units cl) _ _ _ _ 3 (proj1 sample_addr_ok) (proj2 sample_addr_ok) Hs Hmz Hm Hi))
      as (err & b & h' & zs' & ops & Eb & Hq & Hor); [vm_compute; split; discriminate|]. apply sample_result in Eb. rewrite Eb in B1. injection B1 as -> ->.
    destruct Hor as [(_ & z & n & l1 & c & l2 & Ec & _ & Hi' & _)|[Ex _]]; [|discriminate Ex]. exists ops, zs', h', z, n, l1, c, l2.
    split; [symmetry; exact Ec|]. split; [exact Hi'|exact Hq].
  - destruct (proj2 (bestfit_block_correct 0 1 5234688 sample_addr (cl_units cl) _ _ _ _ 2 (proj1 sample_addr_ok) (proj2 sample_addr_ok) Hs Hmz Hm Hi) (Auxiliary 0) 128)
      as (err & b & h' & zs' & ops & Eb & Hq & Hor); [exact B3|vm_compute; split; discriminate|vm_compute; discriminate|].
    apply sample_result in Eb. rewrite Eb in B2. injection B2 as -> ->.
    destruct Hor as [(_ & _ & _ & Hi' & _)|[Ex _]]; [|discriminate Ex]. exists ops, zs', h'. split; [exact Hi'|exact Hq].
Defined.

(** A heap of two zones.  The first one is allocated; the second one has a run for units
    of 128 bytes with 64 free units, and the rest of it is allocated. *)
Definition room_in_zone_1 (a : Z) : Z :=
  let run := chunk_addr 0 1 0 in
  if a =? zone_header_word 0 0 then zone_word MAX_CHUNK
  else if a =? chunk_header_word 0 0 0 then mk_header CHUNK_TYPE_USED 0 MAX_CHUNK
  else if a =? zone_header_word 0 1 then zone_word 17
  else if a =? chunk_header_word 0 1 0 then mk_header CHUNK_TYPE_RUN 0 1
  else if a =? chunk_header_word 0 1 1 then mk_header CHUNK_TYPE_USED 0 16
  else if a =? run_block_size_word run then 128
  else if (run_bitmap_word run 1 <=? a) && (a <=? run_bitmap_word run (MAX_BITMAP_VALUES - 1)) then UINT64_ALL
  else 0.

Definition two_zones_size : Z := zone_addr 0 1 + 5234688.

(** Two units of 128 bytes are asked for twice after the heap was opened. *)
Definition ask_twice : option (Z * Z * memory_block) :=
  '((_, oh), ops) ← heap_boot 0 (mkBootMallocs true true true true (fun _ => (true, true))) two_zones_size (pm_boot room_in_zone_1);
  h ← oh;
  let ask h m := heap_get_bestfit_block 0 2 two_zones_size sample_addr (fun _ _ => (true, true)) h (Some (Auxiliary 0)) 2 m in
  '((err1, _, h1), ops1) ← ask h (run ops (pm_boot room_in_zone_1));
  '((err2, b, _), _) ← ask h1 (run (ops ++ ops1) (pm_boot room_in_zone_1));
  Some (err1, err2, b).

(** The first request fails although the second zone has room for it: the scan that finds
    the run is made to look for a free chunk, and when there is none the request fails
    without a look at the runs it has found.  The same request succeeds the second
    time. *)
Theorem enomem_with_room : heap_max_zone two_zones_size = Some 2 /\ ask_twice = Some (ENOMEM, 0, mkBlock 0 1 2 0).
Proof. vm_compute. split; reflexivity. Qed.
