(* ===== verification/Sync.v ===== *)
(** * Locks in persistent memory: [nvml/src/libpmemobj/sync.c]

    A lock in the pool is a POSIX lock with the identifier of the run of the pool
    that initialised it.  The first thread that uses the lock in a run initialises
    it; [_get_lock] makes the threads agree on which one that is.  This file models
    [_get_lock] as a transition system of threads that interleave at their accesses
    to the shared word [runid], and what a word goes through in the runs of a pool.
    The functions on locks are in [SyncLocks]. *)

From stdpp Require Import relations.
From S2P Require Import Prelude.

Definition EBUSY : Z := 16.
Definition ENODEV : Z := 19.

(** [pop->run_id] for the next run ([pmemobj_runtime_init] of [obj.c]). *)
Definition next_run_id (run_id : Z) : Z :=
  let r := u64 (run_id + 2) in if r =? 0 then u64 (r + 2) else r.

(** ** The protocol of [_get_lock] *)

Inductive result :=
| RLock        (* the lock *)
| RInitError   (* NULL, "error initializing lock" *)
| RSetError.   (* NULL, "error setting lock runid" *)

(** Where a thread is: about to read [*runid] in [get_lock] or in the loop, about to
    swap the value it read, in [init_lock], about to clear [*runid] after an error,
    about to set [*runid], or out of the function. *)
Inductive pc :=
| Fast
| Loop
| Swap (tmp_runid : Z)
| Init
| Clear
| SetId
| Returned (r : result).

#[global] Instance result_eq_dec : EqDecision result.
Proof. solve_decision. Defined.
#[global] Instance pc_eq_dec : EqDecision pc.
Proof. solve_decision. Defined.

Record lstate := mkL {
  runid : Z;
  pcs : nat -> pc;
  inits : nat;   (* how often [init_lock] has succeeded *)
}.

Definition set_pc (f : nat -> pc) (i : nat) (p : pc) : nat -> pc := fun j => if decide (j = i) then p else f j.

Section Protocol.
Context (pop_runid : Z).

Local Abbreviation busy_id := (u64 (pop_runid - 1)).

(** One access of thread [i]; [ok] is what [init_lock] does. *)
Definition lock_step (s : lstate) (i : nat) (ok : bool) : lstate :=
  let goto p := mkL (runid s) (set_pc (pcs s) i p) (inits s) in
  match pcs s i with
  | Fast => if runid s =? pop_runid then goto (Returned RLock) else goto Loop
  | Loop =>
      if runid s =? pop_runid then goto (Returned RLock)
      else if runid s =? busy_id then goto Loop
      else goto (Swap (runid s))
  | Swap tmp =>
      if runid s =? tmp then mkL busy_id (set_pc (pcs s) i Init) (inits s) else goto Loop
  | Init =>
      if ok then mkL (runid s) (set_pc (pcs s) i SetId) (S (inits s)) else goto Clear
  | Clear => mkL 0 (set_pc (pcs s) i (Returned RInitError)) (inits s)
  | SetId =>
      if runid s =? busy_id then mkL pop_runid (set_pc (pcs s) i Loop) (inits s)
      else goto (Returned RSetError)
  | Returned _ => s
  end.

Definition lstep (s s' : lstate) : Prop := exists i ok, s' = lock_step s i ok.

(** All threads before their call, the word as an earlier run has left it. *)
Definition lock_start (word : Z) : lstate := mkL word (fun _ => Fast) 0.

Definition busy (p : pc) : Prop := p = Init \/ p = Clear \/ p = SetId.
#[global] Instance busy_dec p : Decision (busy p).
Proof. unfold busy. apply _. Defined.

Definition fresh_word (word : Z) : Prop := word <> pop_runid /\ word <> busy_id.

Record lock_inv (s : lstate) : Prop := {
  li_busy i : busy (pcs s i) -> runid s = busy_id;
  li_one i j : busy (pcs s i) -> busy (pcs s j) -> i = j;
  li_held : runid s = busy_id -> exists i, busy (pcs s i);
  li_swap i tmp : pcs s i = Swap tmp -> fresh_word tmp;
  li_init i : pcs s i = Init \/ pcs s i = Clear -> inits s = 0%nat;
  li_set i : pcs s i = SetId -> inits s = 1%nat;
  li_done : runid s = pop_runid -> inits s = 1%nat;
  li_not_yet : fresh_word (runid s) -> inits s = 0%nat;
  li_lock i : pcs s i = Returned RLock -> runid s = pop_runid;
  li_no_set_error i : pcs s i <> Returned RSetError;
}.

Context (Hid : 0 < pop_runid < 2 ^ 64) (Hid' : pop_runid <> 1).

Lemma busy_id_eq : busy_id = pop_runid - 1.
Proof. apply u64_small. lia. Qed.

Lemma zero_fresh : fresh_word 0.
Proof. unfold fresh_word. rewrite busy_id_eq. lia. Qed.

Lemma start_inv word : fresh_word word -> lock_inv (lock_start word).
Proof.
  intros [H1 H2]. split; simpl; unfold busy; naive_solver.
Qed.

Lemma set_pc_eq f i p : set_pc f i p i = p.
Proof. unfold set_pc. by rewrite decide_True. Qed.
Lemma set_pc_ne f i j p : j <> i -> set_pc f i p j = f j.
Proof. intros H. unfold set_pc. by rewrite decide_False. Qed.

(** A step that changes only where an idle thread is. *)
Lemma goto_inv s i p :
  lock_inv s -> ~ busy (pcs s i) -> ~ busy p -> (forall tmp, p = Swap tmp -> fresh_word tmp) ->
  (p = Returned RLock -> runid s = pop_runid) -> p <> Returned RSetError ->
  lock_inv (mkL (runid s) (set_pc (pcs s) i p) (inits s)).
Proof.
  intros H Hi Hp Hsw Hl Hse.
  assert (Hb : forall j, busy (set_pc (pcs s) i p j) -> busy (pcs s j)).
  { intros j. destruct (decide (j = i)) as [->|Hj]; [by rewrite set_pc_eq|by rewrite set_pc_ne]. }
  split; simpl; intros *.
  - intros ?%Hb. by eapply li_busy.
  - intros ?%Hb ?%Hb. by eapply li_one.
  - intros E. destruct (li_held s H E) as [j Hj]. exists j. rewrite set_pc_ne; [done|]. by intros ->.
  - destruct (decide (i0 = i)) as [->|Hj]; [rewrite set_pc_eq; auto|rewrite set_pc_ne by done; apply (li_swap s H)].
  - destruct (decide (i0 = i)) as [->|Hj]; [rewrite set_pc_eq|rewrite set_pc_ne by done; apply (li_init s H)].
    intros E. destruct Hp. unfold busy. tauto.
  - destruct (decide (i0 = i)) as [->|Hj]; [rewrite set_pc_eq|rewrite set_pc_ne by done; apply (li_set s H)].
    intros E. destruct Hp. unfold busy. tauto.
  - apply (li_done s H).
  - apply (li_not_yet s H).
  - destruct (decide (i0 = i)) as [->|Hj]; [rewrite set_pc_eq; auto|rewrite set_pc_ne by done; apply (li_lock s H)].
  - destruct (decide (i0 = i)) as [->|Hj]; [by rewrite set_pc_eq|rewrite set_pc_ne by done; apply (li_no_set_error s H)].
Qed.

(** A step of the thread that initialises. *)
Lemma owner_inv s i word p n :
  lock_inv s -> busy (pcs s i) -> 
  (forall j, j <> i -> ~ busy (pcs s j)) ->
  ~ busy p -> (forall tmp, p <> Swap tmp) -> p <> Returned RLock -> p <> Returned RSetError ->
  (word = pop_runid /\ n = 1%nat \/ fresh_word word /\ n = 0%nat) ->
  (forall j, pcs s j <> Returned RLock) ->
  lock_inv (mkL word (set_pc (pcs s) i p) n).
Proof.
  intros H Hi Hother Hp Hsw Hl Hse Hw Hnl. pose proof busy_id_eq as Eb. unfold fresh_word in *.
  assert (Hb : forall j, ~ busy (set_pc (pcs s) i p j)).
  { intros j. destruct (decide (j = i)) as [->|Hj]; [by rewrite set_pc_eq|rewrite set_pc_ne by done; auto]. }
  split; simpl; intros *.
  - by intros ?%Hb.
  - by intros ?%Hb.
  - intros E. exfalso. lia.
  - destruct (decide (i0 = i)) as [->|Hj]; [rewrite set_pc_eq; by intros ?%Hsw|rewrite set_pc_ne by done; apply (li_swap s H)].
  - intros E. destruct (Hb i0). unfold busy. tauto.
  - intros E. destruct (Hb i0). unfold busy. tauto.
  - lia.
  - intros [? ?]. lia.
  - destruct (decide (i0 = i)) as [->|Hj]; [by rewrite set_pc_eq|rewrite set_pc_ne by done; by intros ?%Hnl].
  - destruct (decide (i0 = i)) as [->|Hj]; [by rewrite set_pc_eq|rewrite set_pc_ne by done; apply (li_no_set_error s H)].
Qed.

(** A step from initialising to initialising. *)
Lemma enter_inv s i p n :
  lock_inv s -> (forall j, j <> i -> ~ busy (pcs s j)) -> (forall j, pcs s j <> Returned RLock) ->
  (p = Init \/ p = Clear) /\ n = 0%nat \/ p = SetId /\ n = 1%nat ->
  lock_inv (mkL busy_id (set_pc (pcs s) i p) n).
Proof.
  intros H Hother Hnl Hp. pose proof busy_id_eq as Eb.
  assert (Hbp : busy p) by (unfold busy; tauto).
  assert (Hb : forall j, busy (set_pc (pcs s) i p j) -> j = i).
  { intros j. destruct (decide (j = i)) as [->|Hj]; [done|]. rewrite set_pc_ne by done. by intros ?%Hother. }
  split; simpl; intros *.
  - done.
  - by intros ->%Hb ->%Hb.
  - intros _. exists i. by rewrite set_pc_eq.
  - destruct (decide (i0 = i)) as [->|Hj]; [rewrite set_pc_eq|rewrite set_pc_ne by done; apply (li_swap s H)].
    intros ->. naive_solver.
  - intros E. assert (i0 = i) as -> by (apply Hb; unfold busy; tauto). rewrite set_pc_eq in E. naive_solver.
  - intros E. assert (i0 = i) as -> by (apply Hb; unfold busy; tauto). rewrite set_pc_eq in E. naive_solver.
  - lia.
  - intros [_ ?]. done.
  - destruct (decide (i0 = i)) as [->|Hj]; [rewrite set_pc_eq; naive_solver|rewrite set_pc_ne by done; by intros ?%Hnl].
  - destruct (decide (i0 = i)) as [->|Hj]; [rewrite set_pc_eq; naive_solver|rewrite set_pc_ne by done; apply (li_no_set_error s H)].
Qed.

Lemma step_inv s i ok : lock_inv s -> lock_inv (lock_step s i ok).
Proof.
  intros H. pose proof busy_id_eq as Eb. unfold lock_step.
  assert (Hnl : runid s <> pop_runid -> forall j, pcs s j <> Returned RLock).
  { intros E j Ej. by apply E, (li_lock s H j). }
  destruct (pcs s i) as [| |tmp| | | |r] eqn:Ei; [..|done].
  - case_match; apply goto_inv; rewrite ?Ei; try done; try (unfold busy; naive_solver). intros _. lia.
  - case_match; [|case_match]; apply goto_inv; rewrite ?Ei; try done; try (unfold busy; naive_solver).
    + intros _. lia.
    + intros tmp [= <-]. unfold fresh_word. lia.
  - pose proof (li_swap s H i tmp Ei) as Ht. case_match eqn:E.
    + apply Z.eqb_eq in E. subst tmp. apply enter_inv; [done| |apply Hnl, Ht|left; split; [by left|by apply (li_not_yet s H)]].
      intros j _ Hj%(li_busy s H). by apply Ht.
    + apply goto_inv; rewrite ?Ei; try done; unfold busy; naive_solver.
  - assert (Hb : busy (pcs s i)) by (rewrite Ei; by left). pose proof (li_busy s H i Hb) as Er.
    assert (Ho : forall j, j <> i -> ~ busy (pcs s j)) by (intros j Hj Hbj; by apply Hj, (li_one s H)).
    pose proof (li_init s H i (or_introl Ei)) as E0. rewrite Er, E0.
    destruct ok; apply enter_inv; auto; apply Hnl; lia.
  - assert (Hb : busy (pcs s i)) by (rewrite Ei; right; by left). pose proof (li_busy s H i Hb) as Er.
    apply owner_inv; try done; [| |right; split; [apply zero_fresh|apply (li_init s H i); by right]|apply Hnl; lia].
    + intros j Hj Hbj. by apply Hj, (li_one s H).
    + unfold busy. naive_solver.
  - assert (Hb : busy (pcs s i)) by (rewrite Ei; right; by right). pose proof (li_busy s H i Hb) as Er.
    rewrite Er, Z.eqb_refl. apply owner_inv; try done; [| |left; split; [done|by apply (li_set s H i)]|apply Hnl; lia].
    + intros j Hj Hbj. by apply Hj, (li_one s H).
    + unfold busy. naive_solver.
Qed.

Definition lreach (word : Z) (s : lstate) : Prop := rtc lstep (lock_start word) s.

Lemma reach_inv word s : fresh_word word -> lreach word s -> lock_inv s.
Proof.
  intros Hw Hr. pose proof (start_inv word Hw) as H. revert H. unfold lreach in Hr.
  induction Hr as [s|s s1 s2 (i & ok & ->) _ IH]; intros H; [done|]. by apply IH, step_inv.
Qed.

Lemma inits_le s : lock_inv s -> (inits s <= 1)%nat.
Proof.
  intros H. destruct (decide (runid s = pop_runid)) as [E|E]; [rewrite (li_done s H E); lia|].
  destruct (decide (runid s = busy_id)) as [Eb|Eb]; [|by rewrite (li_not_yet s H); [lia|]].
  destruct (li_held s H Eb) as [i [Hi|[Hi|Hi]]].
  - rewrite (li_init s H i); [lia|by left].
  - rewrite (li_init s H i); [lia|by right].
  - rewrite (li_set s H i); [lia|done].
Qed.

(** *** Progress *)

Definition returns (s : lstate) (i : nat) : Prop := exists s', rtc lstep s s' /\ pcs s' i = Returned RLock.

Lemma returns_step s i ok j : returns (lock_step s j ok) i -> returns s i.
Proof. intros (s' & Hs & Hr). exists s'. split; [|done]. eapply rtc_l; [|exact Hs]. by exists j, ok. Qed.

Lemma returns_done s i : lock_inv s -> runid s = pop_runid -> (forall r, pcs s i <> Returned r) -> returns s i.
Proof.
  intros H Er Hn.
  assert (Hloop : forall f n, f i = Loop -> returns (mkL pop_runid f n) i).
  { intros f n Hf. apply returns_step with true i. unfold lock_step. simpl. rewrite Hf, Z.eqb_refl.
    exists (mkL pop_runid (set_pc f i (Returned RLock)) n). split; [done|]. simpl. by rewrite set_pc_eq. }
  assert (Hnb : ~ busy (pcs s i)).
  { intros Hb%(li_busy s H). pose proof busy_id_eq. lia. }
  destruct (pcs s i) as [| |tmp| | | |r] eqn:Ei; try (destruct Hnb; unfold busy; tauto); [..|by destruct (Hn r)].
  - apply returns_step with true i. unfold lock_step. rewrite Ei, Er, Z.eqb_refl.
    eexists. split; [reflexivity|]. simpl. by rewrite set_pc_eq.
  - destruct s as [w f n]. simpl in *. subst w. by apply Hloop.
  - apply returns_step with true i. unfold lock_step. rewrite Ei, Er.
    destruct (li_swap s H i tmp Ei) as [Ht _]. rewrite (proj2 (Z.eqb_neq pop_runid tmp)) by congruence.
    apply Hloop. by rewrite set_pc_eq.
Qed.

(** The thread that initialises, when [init_lock] succeeds. *)
Lemma returns_owner s i j : lock_inv s -> pcs s j = Init \/ pcs s j = SetId ->
  (forall r, pcs s i <> Returned r) -> returns s i.
Proof.
  assert (Hset : forall s, lock_inv s -> pcs s j = SetId -> (forall r, pcs s i <> Returned r) -> returns s i).
  { intros s0 H Hj Hn. apply returns_step with true j. pose proof (step_inv s0 j true H) as H'.
    assert (Er : runid s0 = busy_id) by (apply (li_busy s0 H j); rewrite Hj; right; by right).
    revert H'. unfold lock_step. rewrite Hj, Er, Z.eqb_refl. intros H'. apply returns_done; [done|done|].
    intros r. simpl. destruct (decide (i = j)) as [->|Hij]; [by rewrite set_pc_eq|by rewrite set_pc_ne]. }
  intros H [Hj|Hj] Hn; [|by apply Hset]. apply returns_step with true j. pose proof (step_inv s j true H) as H'.
  revert H'. unfold lock_step. rewrite Hj. intros H'. apply Hset; [done|simpl; by rewrite set_pc_eq|].
  intros r. simpl. destruct (decide (i = j)) as [->|Hij]; [by rewrite set_pc_eq|by rewrite set_pc_ne].
Qed.

Lemma returns_fresh s i : lock_inv s -> fresh_word (runid s) -> (forall r, pcs s i <> Returned r) -> returns s i.
Proof.
  intros H Hf Hn.
  assert (Hloop : forall s, lock_inv s -> fresh_word (runid s) -> pcs s i = Loop -> returns s i).
  { intros s0 H0 [F1 F2] Hi. apply returns_step with true i. pose proof (step_inv s0 i true H0) as H1. revert H1.
    unfold lock_step. rewrite Hi, (proj2 (Z.eqb_neq _ _) F1), (proj2 (Z.eqb_neq _ _) F2). intros H1.
    apply returns_step with true i. pose proof (step_inv _ i true H1) as H2. revert H2. unfold lock_step. simpl.
    rewrite set_pc_eq, Z.eqb_refl. intros H2. eapply returns_owner; [exact H2|left; simpl; apply set_pc_eq|].
    intros r. simpl. by rewrite set_pc_eq. }
  assert (Hnb : ~ busy (pcs s i)).
  { intros Hb%(li_busy s H). by apply Hf. }
  destruct (pcs s i) as [| |tmp| | | |r] eqn:Ei; try (destruct Hnb; unfold busy; tauto); [| | |by destruct (Hn r)].
  - apply returns_step with true i. pose proof (step_inv s i true H) as H'. revert H'. unfold lock_step.
    rewrite Ei, (proj2 (Z.eqb_neq _ _) (proj1 Hf)). intros H'. apply Hloop; [done|done|]. simpl. apply set_pc_eq.
  - by apply Hloop.
  - apply returns_step with true i. pose proof (step_inv s i true H) as H'. revert H'. unfold lock_step.
    rewrite Ei. destruct (runid s =? tmp); intros H'.
    + eapply returns_owner; [exact H'|left; simpl; apply set_pc_eq|]. intros r. simpl. by rewrite set_pc_eq.
    + apply Hloop; [done|done|]. simpl. apply set_pc_eq.
Qed.

Lemma returns_all s i : lock_inv s -> (forall r, pcs s i <> Returned r) -> pcs s i <> Clear -> returns s i.
Proof.
  intros H Hn Hc. destruct (decide (runid s = pop_runid)) as [E|E]; [by apply returns_done|].
  destruct (decide (runid s = busy_id)) as [Eb|Eb]; [|by apply returns_fresh].
  destruct (li_held s H Eb) as [j [Hj|[Hj|Hj]]].
  - apply returns_owner with j; auto.
  - assert (Hij : i <> j) by (intros ->; done).
    apply returns_step with true j. pose proof (step_inv s j true H) as H'. revert H'. unfold lock_step. rewrite Hj.
    intros H'. apply returns_fresh; [done|apply zero_fresh|]. intros r. simpl. by rewrite set_pc_ne.
  - apply returns_owner with j; auto.
Qed.

End Protocol.

(** ** Runs of the pool *)

(** A lock in the pool: the identifier of the current run and what the word of the
    lock holds when the run begins or the lock is zeroed.  A run can end anywhere
    ([pmemobj_close] or a crash), and the word is not flushed: what the next run
    finds is what it was at some point of this one. *)
Inductive history : Z -> Z -> Prop :=
| history_first : history (next_run_id 0) 0
| history_restart r w s : history r w -> lreach r w s -> r + 2 < 2 ^ 64 -> history (next_run_id r) (runid s)
| history_zero r w : history r w -> history r 0.

Lemma next_run_id_eq r : 0 <= r -> r + 2 < 2 ^ 64 -> next_run_id r = r + 2.
Proof. intros H1 H2. unfold next_run_id. rewrite !u64_small by lia. by rewrite (proj2 (Z.eqb_neq _ _)) by lia. Qed.

Lemma runid_bound r w s : 2 <= r < 2 ^ 64 -> 0 <= w <= r - 2 -> lreach r w s -> 0 <= runid s <= r.
Proof.
  intros Hr Hw Hs. assert (H : 0 <= runid (lock_start w) <= r) by (simpl; lia). revert H. unfold lreach in Hs.
  induction Hs as [s|s s1 s2 (i & ok & ->) _ IH]; intros H; [done|]. apply IH. clear IH.
  assert (Eb : u64 (r - 1) = r - 1) by (apply u64_small; lia).
  unfold lock_step. destruct (pcs s i); simpl; repeat case_match; simpl; lia.
Qed.

Lemma history_bound r w : history r w -> 2 <= r < 2 ^ 64 /\ 0 <= w <= r - 2.
Proof.
  induction 1 as [|r w s _ [Hr Hw] Hs Hlt|r w _ [Hr Hw]]; [vm_compute; intuition congruence| |lia].
  rewrite next_run_id_eq by lia. pose proof (runid_bound r w s Hr Hw Hs). lia.
Qed.

Lemma history_fresh r w : history r w -> fresh_word r w.
Proof.
  intros [Hr Hw]%history_bound. unfold fresh_word. rewrite (u64_small (r - 1)) by lia. lia.
Qed.

(** ** Properties *)

(** C26: a lock in the pool is initialised at most once in a run of the pool, whatever
    the number of threads and the way they interleave, and whatever the lock looked
    like at the end of earlier runs: at most one thread is initialising it, a
    thread that has got the lock got it after the initialisation and nobody
    initialises it again, and the error "error setting lock runid" does not occur. *)
Theorem get_lock_once r w s :
  history r w -> lreach r w s ->
  (inits s <= 1)%nat /\
  (forall i j, busy (pcs s i) -> busy (pcs s j) -> i = j) /\
  (forall i, pcs s i = Returned RLock -> inits s = 1%nat /\ forall j, ~ busy (pcs s j)) /\
  (forall i, pcs s i <> Returned RSetError).
Proof.
  intros Hh Hs. pose proof (history_bound r w Hh) as [Hr _].
  assert (H1 : 0 < r < 2 ^ 64) by lia. assert (H2 : r <> 1) by lia.
  pose proof (reach_inv r H1 H2 w s (history_fresh r w Hh) Hs) as H. split_and!.
  - by apply (inits_le r).
  - apply (li_one r s H).
  - intros i Hi%(li_lock r s H). split; [by apply (li_done r s H)|]. intros j Hj%(li_busy r s H).
    rewrite (u64_small (r - 1)) in Hj by lia. lia.
  - apply (li_no_set_error r s H).
Qed.

(** No thread waits for a lock forever: from every reachable state, every thread
    that has not returned and is not about to report a failed initialisation can
    still get the lock. *)
Theorem get_lock_returns r w s i :
  history r w -> lreach r w s -> (forall res, pcs s i <> Returned res) -> pcs s i <> Clear ->
  exists s', rtc (lstep r) s s' /\ pcs s' i = Returned RLock.
Proof.
  intros Hh Hs Hn Hc. pose proof (history_bound r w Hh) as [Hr _].
  assert (H1 : 0 < r < 2 ^ 64) by lia. assert (H2 : r <> 1) by lia.
  apply (returns_all r H1 H2); [|done|done]. by apply (reach_inv r H1 H2 w s (history_fresh r w Hh)).
Qed.

Definition steps (r : Z) (l : list (nat * bool)) (s : lstate) : lstate :=
  foldl (fun s x => lock_step r s x.1 x.2) s l.

Lemma steps_reach r w l s : lreach r w s -> lreach r w (steps r l s).
Proof.
  revert s. induction l as [|[i ok] l IH]; intros s Hs; simpl; [done|]. apply IH.
  eapply rtc_r; [exact Hs|]. by exists i, ok.
Qed.

(** The second run of a pool that crashed in the first one while the lock was being
    initialised; two threads compete for the lock. *)
Lemma crashed_history : history 4 1.
Proof.
  apply (history_restart 2 0 (steps 2 [(0, true); (0, true); (0, true)]%nat (lock_start 0)));
    [apply history_first|apply steps_reach; constructor|lia].
Qed.

Definition contended : lstate :=
  steps 4 [(0, true); (1, true); (0, true); (1, true); (1, true); (0, true); (1, true); (1, true); (1, true)]%nat (lock_start 1).

Lemma get_lock_once_witness :
  pcs contended 1%nat = Returned RLock /\ pcs contended 0%nat = Loop /\ inits contended = 1%nat.
Proof.
  assert (E : pcs contended 1%nat = Returned RLock) by reflexivity.
  assert (Hc : lreach 4 1 contended) by (apply steps_reach; constructor).
  destruct (get_lock_once 4 1 contended crashed_history Hc) as (_ & _ & H & _).
  split; [exact E|]. split; [reflexivity|]. apply (H 1%nat E).
Defined.

Lemma get_lock_returns_witness :
  exists s, rtc (lstep 4) contended s /\ pcs s 0%nat = Returned RLock.
Proof.
  assert (Hc : lreach 4 1 contended) by (apply steps_reach; constructor).
  apply (get_lock_returns 4 1 contended 0%nat crashed_history Hc); [intros res|]; discriminate.
Defined.
