(* ===== verification/SyncLocks.v ===== *)
(** * The functions on locks in persistent memory: [nvml/src/libpmemobj/sync.c]

    [get_lock] as one thread runs it while no other thread uses the lock (how
    threads interleave in it is the subject of [Sync]), and the functions
    [pmemobj_mutex_*], [pmemobj_rwlock_*] and [pmemobj_cond_*] on top of it.  The
    locks of POSIX are a parameter.  A function that does not return, because its
    thread blocks or the process is aborted, is [None]. *)

From S2P Require Import Prelude Sync.

(** ** The interface of POSIX threads *)

Class Pthread := {
  pthread_mutex_t : Type;
  pthread_rwlock_t : Type;
  pthread_cond_t : Type;
  timespec : Type;
  pthread_mutex_init : pthread_mutex_t -> Z * pthread_mutex_t;
  pthread_mutex_lock : pthread_mutex_t -> option (Z * pthread_mutex_t);
  pthread_mutex_timedlock : pthread_mutex_t -> timespec -> option (Z * pthread_mutex_t);
  pthread_mutex_trylock : pthread_mutex_t -> Z * pthread_mutex_t;
  pthread_mutex_unlock : pthread_mutex_t -> Z * pthread_mutex_t;
  pthread_rwlock_init : pthread_rwlock_t -> Z * pthread_rwlock_t;
  pthread_rwlock_rdlock : pthread_rwlock_t -> option (Z * pthread_rwlock_t);
  pthread_rwlock_wrlock : pthread_rwlock_t -> option (Z * pthread_rwlock_t);
  pthread_rwlock_timedrdlock : pthread_rwlock_t -> timespec -> option (Z * pthread_rwlock_t);
  pthread_rwlock_timedwrlock : pthread_rwlock_t -> timespec -> option (Z * pthread_rwlock_t);
  pthread_rwlock_tryrdlock : pthread_rwlock_t -> Z * pthread_rwlock_t;
  pthread_rwlock_trywrlock : pthread_rwlock_t -> Z * pthread_rwlock_t;
  pthread_rwlock_unlock : pthread_rwlock_t -> Z * pthread_rwlock_t;
  pthread_cond_init : pthread_cond_t -> Z * pthread_cond_t;
  pthread_cond_broadcast : pthread_cond_t -> Z * pthread_cond_t;
  pthread_cond_signal : pthread_cond_t -> Z * pthread_cond_t;
  pthread_cond_timedwait : pthread_cond_t -> pthread_mutex_t -> timespec -> option (Z * pthread_cond_t * pthread_mutex_t);
  pthread_cond_wait : pthread_cond_t -> pthread_mutex_t -> option (Z * pthread_cond_t * pthread_mutex_t);
}.

(** What POSIX says of a mutex of the default kind that one thread uses. *)
Class PthreadMutex `{!Pthread} := {
  unlocked : pthread_mutex_t -> Prop;
  locked : pthread_mutex_t -> Prop;
  init_unlocked m m' : pthread_mutex_init m = (0, m') -> unlocked m';
  lock_unlocked m : unlocked m -> exists m', pthread_mutex_lock m = Some (0, m') /\ locked m';
  trylock_unlocked m : unlocked m -> exists m', pthread_mutex_trylock m = (0, m') /\ locked m';
  trylock_locked m : locked m -> pthread_mutex_trylock m = (EBUSY, m);
  unlock_locked m : locked m -> exists m', pthread_mutex_unlock m = (0, m') /\ unlocked m';
}.

(** ** [get_lock] *)

(** A lock in the pool: [PMEMmutex_internal], [PMEMrwlock_internal] and
    [PMEMcond_internal] of [sync.h]. *)
Record plock (L : Type) := mkLock { lock_runid : Z; lock_obj : L }.
Arguments mkLock {L}.
Arguments lock_runid {L}.
Arguments lock_obj {L}.

(** [__sync_bool_compare_and_swap] on the word of the lock. *)
Definition cas {L} (l : plock L) (old new : Z) : bool * plock L :=
  if lock_runid l =? old then (true, mkLock new (lock_obj l)) else (false, l).

(** The loop of [_get_lock]; the result is whether the lock is returned (or
    [NULL]), and the lock after it. *)
Fixpoint _get_lock {L} (fuel : nat) (pop_runid : Z) (init_lock : L -> Z * L) (l : plock L) : option (bool * plock L) :=
  match fuel with
  | O => None
  | S fuel =>
      let tmp_runid := lock_runid l in
      if tmp_runid =? pop_runid then Some (true, l)
      else if tmp_runid =? u64 (pop_runid - 1) then _get_lock fuel pop_runid init_lock l
      else
        let '(swapped, l) := cas l tmp_runid (u64 (pop_runid - 1)) in
        if negb swapped then _get_lock fuel pop_runid init_lock l
        else
          let '(err, obj) := init_lock (lock_obj l) in
          let l := mkLock (lock_runid l) obj in
          if negb (err =? 0) then Some (false, mkLock (Z.land (lock_runid l) 0) obj)
          else
            let '(swapped, l) := cas l (u64 (pop_runid - 1)) pop_runid in
            if negb swapped then Some (false, l)
            else _get_lock fuel pop_runid init_lock l
  end.

Definition get_lock {L} (pop_runid : Z) (init_lock : L -> Z * L) (l : plock L) : option (bool * plock L) :=
  if lock_runid l =? pop_runid then Some (true, l) else _get_lock 2 pop_runid init_lock l.

(** A function that gets the lock and applies [op] to it. *)
Definition on_lock {L} (pop_runid : Z) (init_lock : L -> Z * L) (l : plock L) (op : L -> option (Z * L)) : option (Z * plock L) :=
  '(got, l) ← get_lock pop_runid init_lock l;
  if got : bool
  then '(ret, obj) ← op (lock_obj l); Some (ret, mkLock (lock_runid l) obj)
  else Some (EINVAL, l).

Definition zero_lock {L} (l : plock L) : plock L := mkLock 0 (lock_obj l).

Section Locks.
Context `{!Pthread} (pop_runid : Z).

(** ** Mutexes *)

Definition PMEMmutex : Type := plock pthread_mutex_t.

Definition GET_MUTEX (l : PMEMmutex) (op : pthread_mutex_t -> option (Z * pthread_mutex_t)) : option (Z * PMEMmutex) :=
  on_lock pop_runid pthread_mutex_init l op.

Definition pmemobj_mutex_zero (l : PMEMmutex) : PMEMmutex := zero_lock l.

Definition pmemobj_mutex_lock (l : PMEMmutex) : option (Z * PMEMmutex) := GET_MUTEX l pthread_mutex_lock.

(** [util_mutex_unlock] of [sys_util.h], which aborts when it fails. *)
Definition util_mutex_unlock (m : pthread_mutex_t) : option pthread_mutex_t :=
  let '(tmp, m) := pthread_mutex_unlock m in if tmp =? 0 then Some m else None.

Definition assert_locked (m : pthread_mutex_t) : option (Z * pthread_mutex_t) :=
  let '(ret, m) := pthread_mutex_trylock m in
  if ret =? EBUSY then Some (0, m)
  else if ret =? 0 then m ← util_mutex_unlock m; Some (ENODEV, m)
  else Some (ret, m).

Definition pmemobj_mutex_assert_locked (l : PMEMmutex) : option (Z * PMEMmutex) := GET_MUTEX l assert_locked.

Definition pmemobj_mutex_timedlock (l : PMEMmutex) (abs_timeout : timespec) : option (Z * PMEMmutex) :=
  GET_MUTEX l (fun m => pthread_mutex_timedlock m abs_timeout).

Definition pmemobj_mutex_trylock (l : PMEMmutex) : option (Z * PMEMmutex) :=
  GET_MUTEX l (fun m => Some (pthread_mutex_trylock m)).

Definition pmemobj_mutex_unlock (l : PMEMmutex) : option (Z * PMEMmutex) :=
  GET_MUTEX l (fun m => Some (pthread_mutex_unlock m)).

(** The variants of [sync.h] that abort the process on an error. *)
Definition pmemobj_mutex_lock_nofail (l : PMEMmutex) : option PMEMmutex :=
  '(ret, l) ← pmemobj_mutex_lock l; if ret =? 0 then Some l else None.

Definition pmemobj_mutex_unlock_nofail (l : PMEMmutex) : option PMEMmutex :=
  '(ret, l) ← pmemobj_mutex_unlock l; if ret =? 0 then Some l else None.

(** ** Locks for readers and writers *)

Definition PMEMrwlock : Type := plock pthread_rwlock_t.

Definition GET_RWLOCK (l : PMEMrwlock) (op : pthread_rwlock_t -> option (Z * pthread_rwlock_t)) : option (Z * PMEMrwlock) :=
  on_lock pop_runid pthread_rwlock_init l op.

Definition pmemobj_rwlock_zero (l : PMEMrwlock) : PMEMrwlock := zero_lock l.

Definition pmemobj_rwlock_rdlock (l : PMEMrwlock) : option (Z * PMEMrwlock) := GET_RWLOCK l pthread_rwlock_rdlock.

Definition pmemobj_rwlock_wrlock (l : PMEMrwlock) : option (Z * PMEMrwlock) := GET_RWLOCK l pthread_rwlock_wrlock.

Definition pmemobj_rwlock_timedrdlock (l : PMEMrwlock) (abs_timeout : timespec) : option (Z * PMEMrwlock) :=
  GET_RWLOCK l (fun x => pthread_rwlock_timedrdlock x abs_timeout).

Definition pmemobj_rwlock_timedwrlock (l : PMEMrwlock) (abs_timeout : timespec) : option (Z * PMEMrwlock) :=
  GET_RWLOCK l (fun x => pthread_rwlock_timedwrlock x abs_timeout).

Definition pmemobj_rwlock_tryrdlock (l : PMEMrwlock) : option (Z * PMEMrwlock) :=
  GET_RWLOCK l (fun x => Some (pthread_rwlock_tryrdlock x)).

Definition pmemobj_rwlock_trywrlock (l : PMEMrwlock) : option (Z * PMEMrwlock) :=
  GET_RWLOCK l (fun x => Some (pthread_rwlock_trywrlock x)).

Definition pmemobj_rwlock_unlock (l : PMEMrwlock) : option (Z * PMEMrwlock) :=
  GET_RWLOCK l (fun x => Some (pthread_rwlock_unlock x)).

(** ** Condition variables *)

Definition PMEMcond : Type := plock pthread_cond_t.

Definition GET_COND (l : PMEMcond) (op : pthread_cond_t -> option (Z * pthread_cond_t)) : option (Z * PMEMcond) :=
  on_lock pop_runid pthread_cond_init l op.

Definition pmemobj_cond_zero (l : PMEMcond) : PMEMcond := zero_lock l.

Definition pmemobj_cond_broadcast (l : PMEMcond) : option (Z * PMEMcond) :=
  GET_COND l (fun x => Some (pthread_cond_broadcast x)).

Definition pmemobj_cond_signal (l : PMEMcond) : option (Z * PMEMcond) :=
  GET_COND l (fun x => Some (pthread_cond_signal x)).

(** The two functions that wait get both locks before they test either. *)
Definition on_cond (c : PMEMcond) (m : PMEMmutex)
  (op : pthread_cond_t -> pthread_mutex_t -> option (Z * pthread_cond_t * pthread_mutex_t)) : option (Z * PMEMcond * PMEMmutex) :=
  '(got_c, c) ← get_lock pop_runid pthread_cond_init c;
  '(got_m, m) ← get_lock pop_runid pthread_mutex_init m;
  if negb got_c || negb got_m then Some (EINVAL, c, m)
  else '(ret, c', m') ← op (lock_obj c) (lock_obj m);
       Some (ret, mkLock (lock_runid c) c', mkLock (lock_runid m) m').

Definition pmemobj_cond_timedwait (c : PMEMcond) (m : PMEMmutex) (abs_timeout : timespec) : option (Z * PMEMcond * PMEMmutex) :=
  on_cond c m (fun c m => pthread_cond_timedwait c m abs_timeout).

Definition pmemobj_cond_wait (c : PMEMcond) (m : PMEMmutex) : option (Z * PMEMcond * PMEMmutex) :=
  on_cond c m pthread_cond_wait.

End Locks.

(** ** What [get_lock] does *)

Lemma get_lock_ready {L} r (init : L -> Z * L) obj : get_lock r init (mkLock r obj) = Some (true, mkLock r obj).
Proof. unfold get_lock. simpl. by rewrite Z.eqb_refl. Qed.

Lemma get_lock_fresh {L} r w (init : L -> Z * L) obj :
  fresh_word r w ->
  get_lock r init (mkLock w obj) =
    let '(err, obj') := init obj in Some (if err =? 0 then (true, mkLock r obj') else (false, mkLock 0 obj')).
Proof.
  intros [H1 H2]. unfold get_lock. cbn [_get_lock lock_runid lock_obj cas].
  rewrite (proj2 (Z.eqb_neq _ _) H1), (proj2 (Z.eqb_neq _ _) H2). unfold cas. cbn [lock_runid lock_obj].
  rewrite Z.eqb_refl. cbn [negb lock_runid lock_obj]. destruct (init obj) as [err obj'].
  destruct (err =? 0); cbn [negb lock_runid lock_obj]; [|by rewrite Z.land_0_r].
  by rewrite !Z.eqb_refl.
Qed.

(** A word that says another thread of this run initialises the lock: alone, the
    thread would wait forever, however often it looks. *)
Lemma get_lock_waits {L} r fuel (init : L -> Z * L) obj :
  0 < r < 2 ^ 64 -> _get_lock fuel r init (mkLock (r - 1) obj) = None.
Proof.
  intros Hr. induction fuel as [|fuel IH]; [done|]. simpl. rewrite (u64_small (r - 1)) by lia.
  rewrite (proj2 (Z.eqb_neq _ _)) by lia. by rewrite Z.eqb_refl.
Qed.

Lemma on_lock_ready {L} r (init : L -> Z * L) obj op :
  on_lock r init (mkLock r obj) op = ('(ret, obj') ← op obj; Some (ret, mkLock r obj')).
Proof. unfold on_lock. by rewrite get_lock_ready. Qed.

Lemma on_lock_fresh {L} r w (init : L -> Z * L) obj op :
  fresh_word r w ->
  on_lock r init (mkLock w obj) op =
    let '(err, obj') := init obj in
    if err =? 0 then on_lock r init (mkLock r obj') op else Some (EINVAL, mkLock 0 obj').
Proof.
  intros Hw. unfold on_lock at 1. rewrite (get_lock_fresh r w init obj Hw). destruct (init obj) as [err obj'].
  destruct (err =? 0); [|done]. by rewrite on_lock_ready.
Qed.

(** Sequences of operations of one thread, with what they return. *)
Fixpoint run_ops {Op S} (step : Op -> S -> option (Z * S)) (ops : list Op) (s : S) : option (list Z * S) :=
  match ops with
  | [] => Some ([], s)
  | op :: ops => '(ret, s) ← step op s; '(rets, s) ← run_ops step ops s; Some (ret :: rets, s)
  end.

Lemma run_ops_ext {Op S} (f g : Op -> S -> option (Z * S)) ops s :
  (forall op s, f op s = g op s) -> run_ops f ops s = run_ops g ops s.
Proof.
  intros H. revert s. induction ops as [|op ops IH]; intros s; [done|]. simpl. rewrite H.
  destruct (g op s) as [[ret s']|]; simpl; [by rewrite IH|done].
Qed.

(** A lock that [get_lock] guards behaves as the lock itself, once initialised. *)
Section Guarded.
Context {L Op : Type} (r : Z) (init : L -> Z * L) (posix : Op -> L -> option (Z * L)).

Local Abbreviation pool := (fun op l => on_lock r init l (posix op)).
Local Abbreviation in_pool := (fun p : list Z * L => (p.1, mkLock r p.2)).

Lemma guarded_ready ops obj : run_ops pool ops (mkLock r obj) = in_pool <$> run_ops posix ops obj.
Proof.
  revert obj. induction ops as [|op ops IH]; intros obj; [done|]. cbn [run_ops].
  rewrite on_lock_ready. destruct (posix op obj) as [[ret obj']|]; simpl; [|done].
  rewrite IH. by destruct (run_ops posix ops obj') as [[rets obj'']|].
Qed.

Lemma guarded_fresh w ops obj obj0 :
  fresh_word r w -> init obj = (0, obj0) -> ops <> [] ->
  run_ops pool ops (mkLock w obj) = in_pool <$> run_ops posix ops obj0.
Proof.
  intros Hw Hi Hops. rewrite <-guarded_ready. destruct ops as [|op ops]; [done|]. cbn [run_ops].
  by rewrite (on_lock_fresh r w init obj _ Hw), Hi.
Qed.

Lemma guarded_error w op obj err obj' :
  fresh_word r w -> init obj = (err, obj') -> err <> 0 -> pool op (mkLock w obj) = Some (EINVAL, mkLock 0 obj').
Proof.
  intros Hw Hi He. cbn beta. rewrite (on_lock_fresh r w init obj _ Hw), Hi.
  by rewrite (proj2 (Z.eqb_neq _ _) He).
Qed.

End Guarded.

Section Properties.
Context `{!Pthread}.

Inductive mutex_op :=
| MLock
| MAssert
| MTimed (abs_timeout : timespec)
| MTry
| MUnlock.

Definition pool_mutex_op (r : Z) (op : mutex_op) : PMEMmutex -> option (Z * PMEMmutex) :=
  match op with
  | MLock => pmemobj_mutex_lock r
  | MAssert => pmemobj_mutex_assert_locked r
  | MTimed t => fun l => pmemobj_mutex_timedlock r l t
  | MTry => pmemobj_mutex_trylock r
  | MUnlock => pmemobj_mutex_unlock r
  end.

(** The POSIX counterparts. *)
Definition posix_mutex_op (op : mutex_op) (m : pthread_mutex_t) : option (Z * pthread_mutex_t) :=
  match op with
  | MLock => pthread_mutex_lock m
  | MAssert => assert_locked m
  | MTimed t => pthread_mutex_timedlock m t
  | MTry => Some (pthread_mutex_trylock m)
  | MUnlock => Some (pthread_mutex_unlock m)
  end.

Inductive rwlock_op :=
| RWRead
| RWWrite
| RWTimedRead (abs_timeout : timespec)
| RWTimedWrite (abs_timeout : timespec)
| RWTryRead
| RWTryWrite
| RWUnlock.

Definition pool_rwlock_op (r : Z) (op : rwlock_op) : PMEMrwlock -> option (Z * PMEMrwlock) :=
  match op with
  | RWRead => pmemobj_rwlock_rdlock r
  | RWWrite => pmemobj_rwlock_wrlock r
  | RWTimedRead t => fun l => pmemobj_rwlock_timedrdlock r l t
  | RWTimedWrite t => fun l => pmemobj_rwlock_timedwrlock r l t
  | RWTryRead => pmemobj_rwlock_tryrdlock r
  | RWTryWrite => pmemobj_rwlock_trywrlock r
  | RWUnlock => pmemobj_rwlock_unlock r
  end.

Definition posix_rwlock_op (op : rwlock_op) (x : pthread_rwlock_t) : option (Z * pthread_rwlock_t) :=
  match op with
  | RWRead => pthread_rwlock_rdlock x
  | RWWrite => pthread_rwlock_wrlock x
  | RWTimedRead t => pthread_rwlock_timedrdlock x t
  | RWTimedWrite t => pthread_rwlock_timedwrlock x t
  | RWTryRead => Some (pthread_rwlock_tryrdlock x)
  | RWTryWrite => Some (pthread_rwlock_trywrlock x)
  | RWUnlock => Some (pthread_rwlock_unlock x)
  end.

(** C27: a mutex or a lock for readers and writers in the pool behaves as its POSIX
    counterpart: in every run of the pool, whatever earlier runs left in the lock
    (also a crash with the lock held or half initialised), every sequence of
    operations returns what it returns on a POSIX lock that has just been
    initialised. *)
Theorem locks_posix r w m m0 x x0 (mops : list mutex_op) (rops : list rwlock_op) :
  history r w -> pthread_mutex_init m = (0, m0) -> pthread_rwlock_init x = (0, x0) -> mops <> [] -> rops <> [] ->
  run_ops (pool_mutex_op r) mops (mkLock w m) =
    (fun p => (p.1, mkLock r p.2)) <$> run_ops posix_mutex_op mops m0 /\
  run_ops (pool_rwlock_op r) rops (mkLock w x) =
    (fun p => (p.1, mkLock r p.2)) <$> run_ops posix_rwlock_op rops x0.
Proof.
  intros Hh%history_fresh Hm Hx Hmo Hro. split.
  - rewrite <-(guarded_fresh r pthread_mutex_init posix_mutex_op w mops m m0 Hh Hm Hmo).
    apply run_ops_ext. by intros [].
  - rewrite <-(guarded_fresh r pthread_rwlock_init posix_rwlock_op w rops x x0 Hh Hx Hro).
    apply run_ops_ext. by intros [].
Qed.

(** When POSIX cannot initialise the lock, every operation returns [EINVAL], does
    nothing else, and leaves a lock that the next operation initialises again. *)
Theorem locks_init_error r w m x (mop : mutex_op) (rop : rwlock_op) err err' m' x' :
  history r w -> pthread_mutex_init m = (err, m') -> err <> 0 -> pthread_rwlock_init x = (err', x') -> err' <> 0 ->
  pool_mutex_op r mop (mkLock w m) = Some (EINVAL, mkLock 0 m') /\
  pool_rwlock_op r rop (mkLock w x) = Some (EINVAL, mkLock 0 x') /\
  fresh_word r 0.
Proof.
  intros Hh Hm He Hx He'. pose proof (history_fresh r w Hh) as Hf. split_and!.
  - rewrite <-(guarded_error r pthread_mutex_init posix_mutex_op w mop m err m' Hf Hm He). by destruct mop.
  - rewrite <-(guarded_error r pthread_rwlock_init posix_rwlock_op w rop x err' x' Hf Hx He'). by destruct rop.
  - by apply history_fresh, history_zero with w.
Qed.

(** A thread that holds the mutex waits on a condition variable as on a POSIX one
    that has just been initialised; the wait is on the mutex it holds. *)
Lemma cond_wait_posix r w c c0 m :
  history r w -> pthread_cond_init c = (0, c0) ->
  pmemobj_cond_wait r (mkLock w c) (mkLock r m) =
    (fun '(ret, c', m') => (ret, mkLock r c', mkLock r m')) <$> pthread_cond_wait c0 m.
Proof.
  intros Hh%history_fresh Hc. unfold pmemobj_cond_wait, on_cond. rewrite (get_lock_fresh r w _ c Hh), Hc. simpl.
  rewrite get_lock_ready. simpl. by destruct (pthread_cond_wait c0 m) as [[[ret c'] m']|].
Qed.

Context `{!PthreadMutex}.

(** A mutex that was locked when the pool crashed can be locked in the next run:
    the first [pmemobj_mutex_lock] returns, [pmemobj_mutex_assert_locked] then sees
    it locked, another attempt fails with [EBUSY], and after
    [pmemobj_mutex_unlock] it is free again. *)
Theorem mutex_after_crash r w m :
  history r w -> (pthread_mutex_init m).1 = 0 ->
  exists l, run_ops (pool_mutex_op r) [MLock; MAssert; MTry; MUnlock; MAssert; MTry] (mkLock w m)
    = Some ([0; 0; EBUSY; 0; ENODEV; 0], l) /\ lock_runid l = r /\ locked (lock_obj l).
Proof.
  intros Hh%history_fresh Hi. destruct (pthread_mutex_init m) as [err m0] eqn:Em. simpl in Hi. subst err.
  assert (E : forall ops, ops <> [] -> run_ops (pool_mutex_op r) ops (mkLock w m) =
    (fun p => (p.1, mkLock r p.2)) <$> run_ops posix_mutex_op ops m0).
  { intros ops Hops. rewrite <-(guarded_fresh r pthread_mutex_init posix_mutex_op w ops m m0 Hh Em Hops).
    apply run_ops_ext. by intros []. }
  rewrite E by done. clear E. apply init_unlocked in Em.
  destruct (lock_unlocked m0 Em) as (m1 & E1 & L1). destruct (unlock_locked m1 L1) as (m2 & E2 & U2).
  destruct (trylock_unlocked m2 U2) as (m3 & E3 & L3). destruct (unlock_locked m3 L3) as (m4 & E4 & U4).
  destruct (trylock_unlocked m4 U4) as (m5 & E5 & L5).
  cbn [run_ops posix_mutex_op]. unfold assert_locked, util_mutex_unlock. simpl.
  rewrite E1. simpl. rewrite !(trylock_locked m1 L1). simpl. rewrite !(trylock_locked m1 L1). simpl.
  rewrite E2. simpl. rewrite E3. simpl. rewrite E4. simpl. rewrite E5. simpl. by eexists.
Qed.

End Properties.

(** ** A concrete POSIX: a mutex and a lock as counters of their holders *)

#[local] Instance counting : Pthread := {|
  pthread_mutex_t := Z;
  pthread_rwlock_t := Z;
  pthread_cond_t := unit;
  timespec := Z;
  pthread_mutex_init m := if m =? -2 then (11, m) else (0, 0);
  pthread_mutex_lock m := if m =? 0 then Some (0, 1) else None;
  pthread_mutex_timedlock m _ := Some (if m =? 0 then (0, 1) else (110, m));
  pthread_mutex_trylock m := if m =? 0 then (0, 1) else (EBUSY, m);
  pthread_mutex_unlock m := if m =? 0 then (1, m) else (0, 0);
  pthread_rwlock_init x := if x =? -2 then (11, x) else (0, 0);
  pthread_rwlock_rdlock x := if x =? -1 then None else Some (0, x + 1);
  pthread_rwlock_wrlock x := if x =? 0 then Some (0, -1) else None;
  pthread_rwlock_timedrdlock x _ := Some (if x =? -1 then (110, x) else (0, x + 1));
  pthread_rwlock_timedwrlock x _ := Some (if x =? 0 then (0, -1) else (110, x));
  pthread_rwlock_tryrdlock x := if x =? -1 then (EBUSY, x) else (0, x + 1);
  pthread_rwlock_trywrlock x := if x =? 0 then (0, -1) else (EBUSY, x);
  pthread_rwlock_unlock x := if x =? -1 then (0, 0) else (0, x - 1);
  pthread_cond_init _ := (0, tt);
  pthread_cond_broadcast _ := (0, tt);
  pthread_cond_signal _ := (0, tt);
  pthread_cond_timedwait _ m _ := Some (110, tt, m);
  pthread_cond_wait _ _ := None;
|}.

#[local] Instance counting_mutex : PthreadMutex.
Proof.
  refine {| unlocked := fun m : @pthread_mutex_t counting => m = 0;
            locked := fun m : @pthread_mutex_t counting => m = 1 |}; simpl; intros; repeat case_match; simplify_eq; eauto.
Defined.

(** The mutex and the lock are held when the pool crashes in its first run. *)
Lemma locks_posix_witness :
  run_ops (pool_mutex_op 4) [MTry; MAssert; MTimed 5; MUnlock] (mkLock 1 1) = Some ([0; 0; 110; 0], mkLock 4 0) /\
  run_ops (pool_rwlock_op 4) [RWTryWrite; RWTryRead; RWUnlock; RWRead] (mkLock 1 (-1)) = Some ([0; EBUSY; 0; 0], mkLock 4 1).
Proof.
  apply (@locks_posix counting 4 1 1 0 (-1) 0 [MTry; MAssert; @MTimed counting 5; MUnlock] [RWTryWrite; RWTryRead; RWUnlock; RWRead]);
    [apply crashed_history|reflexivity|reflexivity|discriminate|discriminate].
Defined.

Lemma locks_init_error_witness :
  pool_mutex_op 4 MTry (mkLock 1 (-2)) = Some (EINVAL, mkLock 0 (-2)) /\
  pool_rwlock_op 4 RWRead (mkLock 1 (-2)) = Some (EINVAL, mkLock 0 (-2)) /\ fresh_word 4 0.
Proof.
  apply (@locks_init_error counting 4 1 (-2) (-2) MTry RWRead 11 11 (-2) (-2));
    [apply crashed_history|reflexivity|discriminate|reflexivity|discriminate].
Defined.

Lemma mutex_after_crash_witness :
  exists l, run_ops (pool_mutex_op 4) [MLock; MAssert; MTry; MUnlock; MAssert; MTry] (mkLock 1 1)
    = Some ([0; 0; EBUSY; 0; ENODEV; 0], l) /\ lock_runid l = 4 /\ lock_obj l = 1.
Proof. apply (@mutex_after_crash counting counting_mutex 4 1 1); [apply crashed_history|reflexivity]. Defined.
