(* ===== verification/LaneInfo.v ===== *)
(** * The lanes a thread remembers: [nvml/src/libpmemobj/lane.c]

    A thread has a record for every pool it has used a lane of: the lane, and how
    deep its uses are nested.  The records are found through a hash table by the
    identifier of the pool, are linked in a list for the time when the thread ends,
    and the last one used is cached.  The file models the variables of one thread
    with the memory of its records, and shows that every record is in the table,
    in the list and in memory or in none of them, so that no pointer dangles; the
    hash table is the one of [Cuckoo]. *)

From stdpp Require Import gmap.
From S2P Require Import Prelude Cuckoo.

Definition UINT64_MAX : Z := 2 ^ 64 - 1.

(** [struct lane_info]; 0 is the null pointer. *)
Record lane_info := mkInfo {
  pop_uuid_lo : Z;
  lane_idx : Z;
  nest_count : Z;
  prev : Z;
  next : Z;
}.

Definition set_prev (p : Z) (i : lane_info) : lane_info := mkInfo (pop_uuid_lo i) (lane_idx i) (nest_count i) p (next i).
Definition set_next (p : Z) (i : lane_info) : lane_info := mkInfo (pop_uuid_lo i) (lane_idx i) (nest_count i) (prev i) p.

(** The variables of a thread and the records it has allocated. *)
Record tls := mkTls {
  Lane_info_ht : option cuckoo;
  Lane_info_records : Z;
  Lane_info_cache : Z;
  infos : gmap Z lane_info;
}.

(** A call returns, aborts the process ([FATAL]) or accesses memory that is not
    allocated or not part of an object ([Bad]). *)
Inductive outcome (A : Type) :=
| Ok (x : A)
| Fatal
| Bad.
Arguments Ok {A}.
Arguments Fatal {A}.
Arguments Bad {A}.

#[global] Instance outcome_bind : MBind outcome := fun A B f x =>
  match x with Ok x => f x | Fatal => Fatal | Bad => Bad end.

Definition access {A} (x : option A) : outcome A := match x with Some x => Ok x | None => Bad end.

(** What the allocator and the threads library answer during a call: the block for a
    record (0 when there is none), whether the table is allocated, the calls of
    [Zalloc] as in [Cuckoo], and the result of the [pthread] function. *)
Record answers := mkAnswers {
  a_record : Z;
  a_table : bool;
  a_zalloc : nat -> Z -> bool;
  a_pthread : Z;
}.

Section Code.
Context (env : answers).

(** The fields of the record at [p] are changed by [f]. *)
Definition update_record (p : Z) (f : lane_info -> lane_info) (t : tls) : outcome tls :=
  i ← access (infos t !! p);
  Ok (mkTls (Lane_info_ht t) (Lane_info_records t) (Lane_info_cache t) (<[p := f i]> (infos t))).

Definition free (p : Z) (t : tls) : outcome tls :=
  _ ← access (infos t !! p);
  Ok (mkTls (Lane_info_ht t) (Lane_info_records t) (Lane_info_cache t) (delete p (infos t))).

(** The loop of [lane_info_destroy], with the number of records as fuel. *)
Fixpoint free_list (fuel : nat) (head : Z) (t : tls) : outcome tls :=
  if head =? 0 then Ok t
  else match fuel with
  | O => Bad
  | S fuel =>
      i ← access (infos t !! head);
      t ← free head t;
      free_list fuel (next i) t
  end.

Definition lane_info_destroy (t : tls) : outcome tls :=
  match Lane_info_ht t with
  | None => Bad
  | Some _ =>
      t ← free_list (base.size (infos t)) (Lane_info_records t) t;
      Ok (mkTls None 0 0 (infos t))
  end.

Definition lane_info_create (t : tls) : outcome tls :=
  match cuckoo_new (a_zalloc env) (a_table env) 0 with
  | None => Fatal
  | Some c => Ok (mkTls (Some c) (Lane_info_records t) (Lane_info_cache t) (infos t))
  end.

Definition lane_info_boot (t : tls) : outcome tls :=
  t ← lane_info_create t; if a_pthread env =? 0 then Ok t else Fatal.

Definition lane_info_ht_boot (t : tls) : outcome tls :=
  t ← lane_info_create t; if a_pthread env =? 0 then Ok t else Fatal.

(** [lane_info_cleanup] for the pool [uuid_lo]. *)
Definition lane_info_cleanup (uuid_lo : Z) (t : tls) : outcome tls :=
  match Lane_info_ht t with
  | None => Bad
  | Some c =>
      '(info, c) ← access (cuckoo_remove c uuid_lo);
      let t := mkTls (Some c) (Lane_info_records t) (Lane_info_cache t) (infos t) in
      if info =? 0 then Ok t else
      i ← access (infos t !! info);
      t ← (if prev i =? 0 then Ok t else update_record (prev i) (set_next (next i)) t);
      t ← (if next i =? 0 then Ok t else update_record (next i) (set_prev (prev i)) t);
      let t := if Lane_info_cache t =? info then mkTls (Lane_info_ht t) (Lane_info_records t) 0 (infos t) else t in
      let t := if Lane_info_records t =? info then mkTls (Lane_info_ht t) (next i) (Lane_info_cache t) (infos t) else t in
      free info t
  end.

Definition set_cache (info : Z) (t : tls) : tls := mkTls (Lane_info_ht t) (Lane_info_records t) info (infos t).

(** The part of [get_lane_info_record] that makes a record. *)
Definition new_record (uuid_lo : Z) (c : cuckoo) (t : tls) : outcome (Z * tls) :=
  let info := a_record env in
  if info =? 0 then Fatal else
  let t := mkTls (Lane_info_ht t) (Lane_info_records t) (Lane_info_cache t)
             (<[info := mkInfo uuid_lo UINT64_MAX 0 0 (Lane_info_records t)]> (infos t)) in
  t ← (if Lane_info_records t =? 0 then Ok t else update_record (Lane_info_records t) (set_prev info) t);
  '(c, err, _) ← access (cuckoo_insert (a_zalloc env) c uuid_lo info 1);
  if negb (err =? 0) then Fatal
  else Ok (info, mkTls (Some c) info (Lane_info_cache t) (infos t)).

Definition get_lane_info_record (uuid_lo : Z) (t : tls) : outcome (Z * tls) :=
  hit ← (if Lane_info_cache t =? 0 then Ok false
         else i ← access (infos t !! Lane_info_cache t); Ok (pop_uuid_lo i =? uuid_lo));
  if hit : bool then Ok (Lane_info_cache t, t) else
  t ← (match Lane_info_ht t with None => lane_info_ht_boot t | Some _ => Ok t end);
  c ← access (Lane_info_ht t);
  info ← access (cuckoo_get c uuid_lo);
  '(info, t) ← (if info =? 0 then new_record uuid_lo c t else Ok (info, t));
  Ok (info, set_cache info t).

End Code.

(** ** The list of records *)

(** The records [l] between the records [p] and [n] of the list. *)
Fixpoint seg (m : gmap Z lane_info) (p : Z) (l : list Z) (n : Z) : Prop :=
  match l with
  | [] => True
  | x :: l' => exists i, m !! x = Some i /\ prev i = p /\ next i = default n (head l') /\ seg m x l' n
  end.

Lemma seg_insert_ne m p l n x i : x ∉ l -> seg m p l n -> seg (<[x := i]> m) p l n.
Proof.
  revert p. induction l as [|y l IH]; intros p Hx; [done|]. apply not_elem_of_cons in Hx as [Hxy Hx].
  intros (j & Hj & Hp & Hn & Hl). exists j. rewrite lookup_insert_ne by done. auto.
Qed.

Lemma seg_delete_ne m p l n x : x ∉ l -> seg m p l n -> seg (delete x m) p l n.
Proof.
  revert p. induction l as [|y l IH]; intros p Hx; [done|]. apply not_elem_of_cons in Hx as [Hxy Hx].
  intros (j & Hj & Hp & Hn & Hl). exists j. rewrite lookup_delete_ne by done. auto.
Qed.

Lemma seg_app m p l1 l2 n :
  seg m p (l1 ++ l2) n <-> seg m p l1 (default n (head l2)) /\ seg m (List.last l1 p) l2 n.
Proof.
  revert p. induction l1 as [|x l1 IH]; intros p; [simpl; tauto|].
  rewrite last_cons_default. cbn [seg app]. setoid_rewrite IH.
  assert (E : head (l1 ++ l2) = match head l1 with Some y => Some y | None => head l2 end) by by destruct l1.
  rewrite E. destruct l1; simpl; naive_solver.
Qed.

Lemma seg_lookup m p l n x : seg m p l n -> x ∈ l -> exists i, m !! x = Some i.
Proof.
  revert p. induction l as [|y l IH]; intros p; [by intros _ ?%elem_of_nil|].
  intros (i & Hi & _ & _ & Hl) [->|Hx]%elem_of_cons; [by exists i|by eapply IH].
Qed.

(** The first record gets another predecessor, the last one another successor. *)
Lemma seg_set_prev m p q x l n i :
  x ∉ l -> m !! x = Some i -> seg m p (x :: l) n -> seg (<[x := set_prev q i]> m) q (x :: l) n.
Proof.
  intros Hx Hi (j & Hj & _ & Hn & Hl). exists (set_prev q i). rewrite lookup_insert_eq.
  assert (j = i) as -> by congruence. split_and!; [done..|]. by apply seg_insert_ne.
Qed.

Lemma seg_set_next m p l x n n' i :
  x ∉ l -> m !! x = Some i -> seg m p (l ++ [x]) n -> seg (<[x := set_next n' i]> m) p (l ++ [x]) n'.
Proof.
  intros Hx Hi. rewrite !seg_app. simpl. intros [Hl (j & Hj & Hp & Hn & _)]. split; [by apply seg_insert_ne|].
  exists (set_next n' i). rewrite lookup_insert_eq. assert (j = i) as -> by congruence. by split_and!.
Qed.

(** ** The invariant *)

Definition uuid_of (m : gmap Z lane_info) (p : Z) : Z := default 0 (pop_uuid_lo <$> m !! p).
Definition slot_of (m : gmap Z lane_info) (p : Z) : cuckoo_slot := mkSlot (uuid_of m p) p.

(** [l] lists the records of the thread. *)
Record tls_ok (t : tls) (l : list Z) : Prop := {
  tok_nodup : NoDup l;
  tok_null : 0 ∉ l;
  tok_infos p : is_Some (infos t !! p) <-> p ∈ l;
  tok_linked : seg (infos t) 0 l 0;
  tok_records : Lane_info_records t = default 0 (head l);
  tok_cache : Lane_info_cache t = 0 \/ Lane_info_cache t ∈ l;
  tok_uuids : NoDup (uuid_of (infos t) <$> l);
  tok_ht : match Lane_info_ht t with
           | None => l = []
           | Some c => table_ok (size c) (tab c) /\ contents (tab c) ≡ₚ slot_of (infos t) <$> l
           end;
}.

(** What a record says, its links aside. *)
Definition data (m : gmap Z lane_info) (p : Z) : option (Z * Z * Z) :=
  (fun i => (pop_uuid_lo i, lane_idx i, nest_count i)) <$> m !! p.

Lemma data_insert m x i j :
  m !! x = Some i -> pop_uuid_lo j = pop_uuid_lo i -> lane_idx j = lane_idx i -> nest_count j = nest_count i ->
  forall p, data (<[x := j]> m) p = data m p.
Proof.
  intros Hi E1 E2 E3 p. unfold data. destruct (decide (p = x)) as [->|Hp].
  - rewrite lookup_insert_eq, Hi. simpl. congruence.
  - by rewrite lookup_insert_ne.
Qed.

Lemma data_uuid m m' p : data m' p = data m p -> uuid_of m' p = uuid_of m p.
Proof. unfold data, uuid_of. destruct (m' !! p), (m !! p); simpl; congruence. Qed.

Lemma data_some m m' p : data m' p = data m p -> is_Some (m' !! p) <-> is_Some (m !! p).
Proof. unfold data. intros H. by rewrite <-!(fmap_is_Some (fun i => (pop_uuid_lo i, lane_idx i, nest_count i))), H. Qed.

Lemma uuids_same m m' (l : list Z) : (forall p, p ∈ l -> data m' p = data m p) -> uuid_of m' <$> l = uuid_of m <$> l.
Proof. intros H. apply list_fmap_ext. intros k p Hp. apply data_uuid, H. by eapply list_elem_of_lookup_2. Qed.

Lemma slots_same m m' (l : list Z) : (forall p, p ∈ l -> data m' p = data m p) -> slot_of m' <$> l = slot_of m <$> l.
Proof.
  intros H. apply list_fmap_ext. intros k p Hp. unfold slot_of. f_equal.
  apply data_uuid, H. by eapply list_elem_of_lookup_2.
Qed.

Definition with_infos (t : tls) (m : gmap Z lane_info) : tls :=
  mkTls (Lane_info_ht t) (Lane_info_records t) (Lane_info_cache t) m.

(** ** Taking a record out of the list *)

Lemma unlink_prev t l1 x l2 i :
  NoDup (l1 ++ x :: l2) -> 0 ∉ l1 ++ x :: l2 -> seg (infos t) 0 (l1 ++ x :: l2) 0 -> infos t !! x = Some i ->
  exists m, (if prev i =? 0 then Ok t else update_record (prev i) (set_next (next i)) t) = Ok (with_infos t m) /\
    seg m 0 l1 (default 0 (head l2)) /\ seg m x l2 0 /\ m !! x = Some i /\ prev i = List.last l1 0 /\
    next i = default 0 (head l2) /\ forall p, data m p = data (infos t) p.
Proof.
  intros Hnd H0 Hs Hi. apply seg_app in Hs as [Hs1 (j & Hj & Hp & Hn & Hs2)].
  assert (j = i) as -> by congruence. rewrite Hp, Hn. simpl in Hs1.
  destruct l1 as [|y l1 _] using rev_ind; [exists (infos t); by destruct t|].
  rewrite last_app_default. simpl. destruct (seg_lookup _ _ _ _ y Hs1) as [k Hk]; [set_solver|].
  rewrite (proj2 (Z.eqb_neq y 0)) by set_solver. unfold update_record. rewrite Hk. simpl.
  apply NoDup_app in Hnd as ([_ [Hy _]]%NoDup_app & Hd & Hnd2). apply NoDup_cons in Hnd2 as [_ Hnd2].
  assert (Hyx : y <> x) by (intros ->; apply (Hd x); set_solver).
  eexists. split; [reflexivity|]. split_and!; try done.
  - apply seg_set_next with x; [|done|done]. intros Hin. by apply (Hy y Hin), list_elem_of_singleton.
  - apply seg_insert_ne; [|done]. intros Hin. apply (Hd y); set_solver.
  - by rewrite lookup_insert_ne.
  - by apply data_insert with k.
Qed.

Lemma unlink_next t l1 x l2 i :
  NoDup (l1 ++ x :: l2) -> 0 ∉ l1 ++ x :: l2 -> seg (infos t) 0 l1 (default 0 (head l2)) -> seg (infos t) x l2 0 ->
  infos t !! x = Some i -> next i = default 0 (head l2) -> prev i = List.last l1 0 ->
  exists m, (if next i =? 0 then Ok t else update_record (next i) (set_prev (prev i)) t) = Ok (with_infos t m) /\
    seg m 0 (l1 ++ l2) 0 /\ forall p, data m p = data (infos t) p.
Proof.
  intros Hnd H0 Hs1 Hs2 Hi Hn Hp. rewrite Hn, Hp.
  destruct l2 as [|z l2]; [exists (infos t); split; [by destruct t|]; by rewrite app_nil_r|]. cbn [head default from_option id] in *.
  rewrite (proj2 (Z.eqb_neq z 0)) by set_solver. unfold update_record.
  destruct (seg_lookup (infos t) x (z :: l2) 0 z Hs2) as [k Hk]; [set_solver|]. rewrite Hk. simpl.
  apply NoDup_app in Hnd as (_ & Hd & [Hxl [Hz _]%NoDup_cons]%NoDup_cons).
  eexists. split; [reflexivity|]. split; [|by apply data_insert with k]. apply seg_app. split.
  - apply seg_insert_ne; [|done]. intros Hin. apply (Hd z); set_solver.
  - by apply seg_set_prev with x.
Qed.

(** ** The hash table *)

(** What the table says of a pool. *)
Lemma table_value t l c uuid v :
  tls_ok t l -> Lane_info_ht t = Some c -> value_of c uuid v ->
  v <> 0 /\ v ∈ l /\ uuid_of (infos t) v = uuid \/ v = 0 /\ forall p, p ∈ l -> uuid_of (infos t) p <> uuid.
Proof.
  intros H Hc. pose proof (tok_ht t l H) as Ht. rewrite Hc in Ht. destruct Ht as [_ Hp]. intros [[Hv Hin]|[-> Hno]].
  - left. rewrite Hp in Hin. apply list_elem_of_fmap in Hin as (p & [= -> ->] & Hin). done.
  - right. split; [done|]. intros p Hin. apply (Hno (slot_of (infos t) p)). rewrite Hp. by apply list_elem_of_fmap_2.
Qed.

Lemma table_keys t l c : tls_ok t l -> Lane_info_ht t = Some c ->
  table_ok (size c) (tab c) /\ NoDup (s_key <$> contents (tab c)).
Proof.
  intros H Hc. pose proof (tok_ht t l H) as Ht. rewrite Hc in Ht. destruct Ht as [Hok Hp]. split; [done|].
  rewrite Hp, <-list_fmap_compose. apply (tok_uuids t l H).
Qed.

(** ** The operations *)

Lemma head_without (l1 l2 : list Z) x : x ∉ l1 ->
  (if default 0 (head (l1 ++ x :: l2)) =? x then default 0 (head l2) else default 0 (head (l1 ++ x :: l2))) =
  default 0 (head (l1 ++ l2)).
Proof. intros Hx. destruct l1 as [|y l1]; simpl; [by rewrite Z.eqb_refl|]. by rewrite (proj2 (Z.eqb_neq _ _)) by set_solver. Qed.

(** The run of [lane_info_cleanup] on a record of the thread. *)
Lemma cleanup_runs t l1 info l2 c c' uuid :
  tls_ok t (l1 ++ info :: l2) -> Lane_info_ht t = Some c -> cuckoo_remove c uuid = Some (info, c') ->
  exists m, lane_info_cleanup uuid t =
      Ok (mkTls (Some c') (default 0 (head (l1 ++ l2))) (if Lane_info_cache t =? info then 0 else Lane_info_cache t) (delete info m)) /\
    seg m 0 (l1 ++ l2) 0 /\ forall p, data m p = data (infos t) p.
Proof.
  intros [Hnd H0 Hin Hl Hrec _ _ _] Hc Hr. unfold lane_info_cleanup. rewrite Hc, Hr. cbn -[update_record free].
  assert (Hn0 : info <> 0) by set_solver. rewrite (proj2 (Z.eqb_neq _ _) Hn0).
  set (t0 := mkTls (Some c') (Lane_info_records t) (Lane_info_cache t) (infos t)).
  destruct (proj2 (Hin info)) as [i Hi]; [set_solver|]. rewrite Hi. cbn -[update_record free].
  destruct (unlink_prev t0 l1 info l2 i Hnd H0 Hl Hi) as (m1 & -> & S1 & S2 & Hi1 & Ep & En & D1). cbn -[update_record free].
  destruct (unlink_next (with_infos t0 m1) l1 info l2 i Hnd H0 S1 S2 Hi1 En Ep) as (m2 & -> & S3 & D2). cbn -[update_record free].
  assert (D : forall p, data m2 p = data (infos t) p) by (intros p; rewrite D2; apply D1).
  assert (is_Some (m2 !! info)) as [i2 Hi2] by (rewrite (data_some _ _ _ (D info)); eauto).
  exists m2. split; [|done]. rewrite <-(head_without l1 l2 info), <-Hrec, <-En.
  2:{ apply NoDup_app in Hnd as (_ & Hd & _). intros Hx. apply (Hd info); set_solver. }
  unfold free. destruct (Lane_info_cache t =? info); cbn -[Z.eqb];
    destruct (Lane_info_records t =? info); cbn -[Z.eqb]; by rewrite Hi2.
Qed.

(** Removing a record from memory and from the list. *)
Lemma remove_ok t l1 info l2 c c' m :
  tls_ok t (l1 ++ info :: l2) -> Lane_info_ht t = Some c -> table_ok (size c') (tab c') ->
  contents (tab c) ≡ₚ slot_of (infos t) info :: contents (tab c') ->
  seg m 0 (l1 ++ l2) 0 -> (forall p, data m p = data (infos t) p) ->
  tls_ok (mkTls (Some c') (default 0 (head (l1 ++ l2))) (if Lane_info_cache t =? info then 0 else Lane_info_cache t) (delete info m)) (l1 ++ l2).
Proof.
  intros [Hnd H0 Hin Hl Hrec Hca Huu Hht] Hc Hok Hp Hs D. rewrite Hc in Hht.
  rewrite <-Permutation_middle in Hnd, Huu. apply NoDup_cons in Hnd as [Hx Hnd]. simpl in Huu. apply NoDup_cons in Huu as [Hxu Huu].
  assert (D' : forall p, p ∈ l1 ++ l2 -> data (delete info m) p = data (infos t) p).
  { intros p Hin'. rewrite <-D. unfold data. rewrite lookup_delete_ne; [done|]. by intros <-. }
  split; simpl.
  - done.
  - set_solver.
  - intros p. rewrite lookup_delete_is_Some, (data_some _ _ _ (D p)), Hin. set_solver.
  - by apply seg_delete_ne.
  - done.
  - case_match eqn:E; [by left|]. apply Z.eqb_neq in E. set_solver.
  - by rewrite (uuids_same (infos t)).
  - split; [done|]. rewrite (slots_same (infos t)) by done. destruct Hht as [_ Hht]. rewrite Hp in Hht.
    rewrite <-Permutation_middle in Hht. by apply Permutation_cons_inv in Hht.
Qed.

Lemma cleanup_spec t l c uuid :
  tls_ok t l -> Lane_info_ht t = Some c ->
  exists t' l', lane_info_cleanup uuid t = Ok t' /\ tls_ok t' l' /\ Lane_info_ht t' <> None /\
    (forall p, p ∈ l' <-> p ∈ l /\ uuid_of (infos t) p <> uuid) /\
    (forall p, p ∈ l' -> data (infos t') p = data (infos t) p).
Proof.
  intros H Hc. destruct (table_keys t l c H Hc) as [Hok Hk].
  destruct (cuckoo_remove_spec c uuid Hok Hk) as (v & c' & Hr & Hv & Hok' & Hp).
  destruct (table_value t l c uuid v H Hc Hv) as [(Hv0 & Hin & Hu)|[-> Hno]].
  - rewrite (proj2 (Z.eqb_neq _ _) Hv0) in Hp. simpl in Hp. apply list_elem_of_split in Hin as (l1 & l2 & ->).
    destruct (cleanup_runs t l1 v l2 c c' uuid H Hc Hr) as (m & Hrun & Hs & D).
    eexists _, (l1 ++ l2). split; [exact Hrun|]. split_and!.
    + apply remove_ok with c; try done. unfold slot_of. by rewrite Hu.
    + done.
    + intros p. pose proof (tok_uuids _ _ H) as Huu. pose proof (tok_nodup _ _ H) as Hnd.
      rewrite <-Permutation_middle in Hnd, Huu. apply NoDup_cons in Hnd as [Hx _]. simpl in Huu. apply NoDup_cons in Huu as [Hxu _].
      rewrite Hu in Hxu. rewrite list_elem_of_fmap in Hxu. set_solver.
    + intros p Hin. rewrite <-D. unfold data. simpl. rewrite lookup_delete_ne; [done|]. intros <-.
      pose proof (tok_nodup _ _ H) as Hnd. rewrite <-Permutation_middle in Hnd. by apply NoDup_cons in Hnd as [? _].
  - exists (mkTls (Some c') (Lane_info_records t) (Lane_info_cache t) (infos t)), l. split_and!; try done.
    + unfold lane_info_cleanup. by rewrite Hc, Hr.
    + destruct H as [H1 H2 H3 H4 H5 H6 H7 H8]. split; try done. simpl. rewrite Hc in H8. split; [done|].
      simpl in Hp. rewrite <-Hp. apply H8.
    + naive_solver.
Qed.

(** A block that the allocator returns is not in use. *)
Definition fresh_answers (env : answers) (t : tls) : Prop :=
  infos t !! a_record env = None /\ bounded_memory (a_zalloc env).

(** Linking a new record in front of the list. *)
Lemma link_ok t l c c' uuid info m :
  tls_ok t l -> Lane_info_ht t = Some c -> info <> 0 -> info ∉ l ->
  (forall p, p ∈ l -> uuid_of (infos t) p <> uuid) ->
  table_ok (size c') (tab c') -> contents (tab c') ≡ₚ mkSlot uuid info :: contents (tab c) ->
  (forall p, p <> info -> data m p = data (infos t) p) -> m !! info = Some (mkInfo uuid UINT64_MAX 0 0 (default 0 (head l))) ->
  seg m info l 0 ->
  tls_ok (mkTls (Some c') info (Lane_info_cache t) m) (info :: l).
Proof.
  intros [Hnd H0 Hin Hl Hrec Hca Huu Hht] Hc Hn0 Hnl Hno Hok Hp D Hi Hs. rewrite Hc in Hht.
  assert (D' : forall p, p ∈ l -> data m p = data (infos t) p) by (intros p ?; apply D; by intros ->).
  assert (Eu : uuid_of m info = uuid) by (unfold uuid_of; by rewrite Hi).
  split; simpl.
  - by apply NoDup_cons.
  - set_solver.
  - intros p. rewrite elem_of_cons. destruct (decide (p = info)) as [->|E].
    + rewrite Hi. split; [by left|eauto].
    + rewrite (data_some _ _ _ (D p E)), Hin. naive_solver.
  - eexists. split_and!; [exact Hi|done..].
  - done.
  - set_solver.
  - rewrite Eu, (uuids_same (infos t)) by done. apply NoDup_cons. split; [|done]. rewrite list_elem_of_fmap. set_solver.
  - split; [done|]. rewrite Hp. unfold slot_of at 1. rewrite Eu. apply perm_skip. rewrite (slots_same (infos t)) by done. apply Hht.
Qed.

Lemma link_front t l info i :
  tls_ok t l -> info ∉ l -> info <> 0 -> infos t !! info = None -> prev i = 0 -> next i = default 0 (head l) ->
  let t1 := with_infos t (<[info := i]> (infos t)) in
  exists m, (if Lane_info_records t =? 0 then Ok t1 else update_record (Lane_info_records t) (set_prev info) t1) = Ok (with_infos t m) /\
    (forall p, p <> info -> data m p = data (infos t) p) /\ m !! info = Some i /\ seg m info l 0.
Proof.
  intros [Hnd H0 _ Hl Hrec _ _ _] Hnl Hn0 Hf Hp Hn. cbv zeta. rewrite Hrec. destruct l as [|x l]; simpl.
  - eexists. split_and!; [done| |by rewrite lookup_insert_eq|done]. intros p Hpi. unfold data. by rewrite lookup_insert_ne.
  - assert (Hx0 : x <> 0) by set_solver. assert (Hxi : info <> x) by set_solver.
    rewrite (proj2 (Z.eqb_neq x 0) Hx0). unfold update_record. destruct Hl as (j & Hj & Hpj & Hnj & Hl).
    simpl. rewrite lookup_insert_ne by done. rewrite Hj. simpl. eexists. apply NoDup_cons in Hnd as [Hx Hnd].
    split_and!; [done| | |].
    + intros p Hpi. rewrite (data_insert _ x j); [|by rewrite lookup_insert_ne|done..].
      unfold data. by rewrite lookup_insert_ne.
    + rewrite lookup_insert_ne by done. apply lookup_insert_eq.
    + exists (set_prev info j). rewrite lookup_insert_eq. split_and!; [done..|].
      apply seg_insert_ne; [done|]. apply seg_insert_ne; [set_solver|done].
Qed.

Lemma new_record_spec env t l c uuid :
  tls_ok t l -> Lane_info_ht t = Some c -> fresh_answers env t -> (forall p, p ∈ l -> uuid_of (infos t) p <> uuid) ->
  new_record env uuid c t = Fatal \/
  exists info t', new_record env uuid c t = Ok (info, t') /\ tls_ok t' (info :: l) /\ (info ∉ l) /\
    data (infos t') info = Some (uuid, UINT64_MAX, 0) /\ (forall p, p ∈ l -> data (infos t') p = data (infos t) p).
Proof.
  intros H Hc [Hf Hmem] Hno. unfold new_record. destruct (Z.eqb_spec (a_record env) 0) as [E0|E0]; [by left|].
  set (info := a_record env) in *. destruct (table_keys t l c H Hc) as [Hok Hk].
  assert (Hnl : info ∉ l) by (intros Hin; apply (tok_infos t l H) in Hin as [? ?]; congruence).
  destruct (link_front t l info (mkInfo uuid UINT64_MAX 0 0 (Lane_info_records t)) H Hnl E0 Hf eq_refl (tok_records t l H))
    as (m & Hm & D & Hi & Hs). rewrite (tok_records t l H) in Hi.
  cbn zeta. cbn [Lane_info_records]. unfold with_infos in Hm at 1 2. rewrite Hm. cbn -[cuckoo_insert].
  destruct (insert_loop_spec (a_zalloc env) Hmem MAX_GROWS c (mkSlot uuid info) 1 Hok E0) as (c' & err & k' & E & Hor).
  unfold cuckoo_insert. rewrite E. simpl. destruct Hor as [(-> & Hok' & Hp)|[He _]].
  - right. eexists _, _. split; [reflexivity|]. split; [|split_and!; [done| |]].
    + by apply link_ok with c uuid.
    + simpl. unfold data. by rewrite Hi.
    + intros p Hin. apply D. by intros ->.
  - left. by rewrite (proj2 (Z.eqb_neq _ _) He).
Qed.

Lemma create_spec env t :
  tls_ok t [] -> lane_info_create env t = Fatal \/
  exists c, lane_info_create env t = Ok (mkTls (Some c) (Lane_info_records t) (Lane_info_cache t) (infos t)) /\
    tls_ok (mkTls (Some c) (Lane_info_records t) (Lane_info_cache t) (infos t)) [].
Proof.
  intros [H1 H2 H3 H4 H5 H6 H7 _]. unfold lane_info_create, cuckoo_new.
  destruct (a_table env && _); [|by left]. right.
  eexists. split; [done|]. split; try done. simpl. split; [|done]. apply fresh_table_ok. unfold INITIAL_SIZE. lia.
Qed.

Lemma set_cache_ok t l info : tls_ok t l -> info ∈ l -> tls_ok (set_cache info t) l.
Proof. intros [H1 H2 H3 H4 H5 H6 H7 H8] Hin. split; try done. by right. Qed.

(** The table is made when the thread has none. *)
Lemma ht_boot_spec env t l :
  tls_ok t l ->
  match Lane_info_ht t with None => lane_info_ht_boot env t | Some _ => Ok t end = Fatal /\ l = [] \/
  exists t1 c, match Lane_info_ht t with None => lane_info_ht_boot env t | Some _ => Ok t end = Ok t1 /\
    Lane_info_ht t1 = Some c /\ tls_ok t1 l /\ infos t1 = infos t.
Proof.
  intros H. destruct (Lane_info_ht t) as [c|] eqn:Hc; [right; by exists t, c|].
  pose proof (tok_ht t l H) as Hl. rewrite Hc in Hl. subst l. unfold lane_info_ht_boot.
  destruct (create_spec env t H) as [->|(c & -> & H')]; [by left|]. simpl. case_match; [|by left].
  right. by eexists _, c.
Qed.

(** The lookup in the table, and the record made when there is none. *)
Lemma find_record_spec env t l c uuid :
  tls_ok t l -> Lane_info_ht t = Some c -> fresh_answers env t ->
  let run := info ← access (cuckoo_get c uuid); if info =? 0 then new_record env uuid c t else Ok (info, t) in
  run = Fatal /\ (forall p, p ∈ l -> uuid_of (infos t) p <> uuid) \/
  exists info t' l', run = Ok (info, t') /\ tls_ok t' l' /\ Lane_info_ht t' <> None /\ info ∈ l' /\
    (info ∈ l /\ l' = l /\ uuid_of (infos t) info = uuid \/
     (info ∉ l) /\ l' = info :: l /\ data (infos t') info = Some (uuid, UINT64_MAX, 0)) /\
    (forall p, p ∈ l -> data (infos t') p = data (infos t) p).
Proof.
  intros H Hc Hf run. destruct (table_keys t l c H Hc) as [Hok Hk].
  destruct (cuckoo_get_spec c uuid Hok Hk) as (v & Hg & Hv). unfold run. rewrite Hg. cbn -[new_record].
  destruct (table_value t l c uuid v H Hc Hv) as [(Hv0 & Hin & Hu)|[-> Hno]].
  - rewrite (proj2 (Z.eqb_neq _ _) Hv0). right. exists v, t, l. rewrite Hc. by split_and!; try (left; split_and!).
  - simpl. destruct (new_record_spec env t l c uuid H Hc Hf Hno) as [->|(info & t' & -> & H' & Hnl & Hd & D)]; [by left|].
    right. exists info, t', (info :: l). split_and!; [done|done| |set_solver|right; by split_and!|done].
    pose proof (tok_ht _ _ H') as Hht. intros E. by rewrite E in Hht.
Qed.

Lemma get_record_spec env t l uuid :
  tls_ok t l -> fresh_answers env t ->
  (get_lane_info_record env uuid t = Fatal /\ forall p, p ∈ l -> uuid_of (infos t) p <> uuid) \/
  exists info t' l', get_lane_info_record env uuid t = Ok (info, t') /\ tls_ok t' l' /\ Lane_info_ht t' <> None /\
    (info ∈ l /\ l' = l /\ uuid_of (infos t) info = uuid \/
     (info ∉ l) /\ l' = info :: l /\ data (infos t') info = Some (uuid, UINT64_MAX, 0)) /\
    (forall p, p ∈ l -> data (infos t') p = data (infos t) p).
Proof.
  intros H Hf. unfold get_lane_info_record.
  assert (exists hit, (if Lane_info_cache t =? 0 then Ok false
      else i ← access (infos t !! Lane_info_cache t); Ok (pop_uuid_lo i =? uuid)) = Ok hit /\
    (hit = true -> Lane_info_cache t ∈ l /\ uuid_of (infos t) (Lane_info_cache t) = uuid)) as (hit & -> & Hhit).
  { destruct (Z.eqb_spec (Lane_info_cache t) 0) as [E|E]; [by exists false|].
    destruct (tok_cache t l H) as [?|Hin]; [done|]. destruct (proj2 (tok_infos t l H _) Hin) as [i Hi]. rewrite Hi.
    eexists. split; [done|]. intros Hu%Z.eqb_eq. split; [done|]. unfold uuid_of. by rewrite Hi. }
  simpl. destruct hit.
  { destruct (Hhit eq_refl) as [Hin Hu]. right. exists (Lane_info_cache t), t, l. split_and!; try done; [|left; by split_and!].
    pose proof (tok_ht t l H) as Hht. intros E. rewrite E in Hht. subst l. by apply elem_of_nil in Hin. }
  destruct (ht_boot_spec env t l H) as [[-> ->]|(t1 & c & -> & Hc & H1 & Ei)].
  { left. split; [done|]. by intros p ?%elem_of_nil. }
  unfold fresh_answers in Hf. simpl. rewrite Hc. simpl. rewrite <-Ei in Hf |- *.
  destruct (find_record_spec env t1 l c uuid H1 Hc Hf) as [[E Hno]|(info & t' & l' & E & H' & Hht & Hin & Hor & D)].
  - left. split; [|done]. cbn -[new_record] in E. destruct (access (cuckoo_get c uuid)); [|done..]. cbn -[new_record] in *.
    by rewrite E.
  - right. exists info, (set_cache info t'), l'. split_and!; [|by apply set_cache_ok|done|done|done].
    destruct (access (cuckoo_get c uuid)); [|done..]. cbn -[new_record] in *. by rewrite E.
Qed.

(** [lane_info_destroy] frees every record once. *)
Lemma free_list_spec l p t fuel :
  NoDup l -> 0 ∉ l -> seg (infos t) p l 0 -> (length l <= fuel)%nat ->
  exists t', free_list fuel (default 0 (head l)) t = Ok t' /\
    forall x, infos t' !! x = if decide (x ∈ l) then None else infos t !! x.
Proof.
  revert p t fuel. induction l as [|x l IH]; intros p t fuel Hnd H0 Hs Hfuel.
  { exists t. split; [by destruct fuel|done]. }
  destruct fuel as [|fuel]; [simpl in Hfuel; lia|]. apply NoDup_cons in Hnd as [Hx Hnd].
  destruct Hs as (i & Hi & _ & Hn & Hs). cbn [head default from_option free_list].
  unfold id. rewrite (proj2 (Z.eqb_neq x 0)) by set_solver. rewrite Hi. cbn -[free]. unfold free. rewrite Hi. simpl. rewrite Hn.
  set (t1 := mkTls _ _ _ (delete x (infos t))).
  destruct (IH x t1 fuel) as (t' & -> & Ht'); [done|set_solver|by apply seg_delete_ne|simpl in Hfuel; lia|].
  exists t'. split; [done|]. intros y. rewrite Ht'. simpl. destruct (decide (y = x)) as [->|Hy].
  - rewrite lookup_delete_eq. rewrite (decide_True (P := x ∈ x :: l)) by set_solver. by case_decide.
  - rewrite lookup_delete_ne by done. destruct (decide (y ∈ l)).
    + rewrite decide_True; [done|set_solver].
    + rewrite decide_False; [done|set_solver].
Qed.

Lemma destroy_spec t l :
  tls_ok t l -> Lane_info_ht t <> None -> lane_info_destroy t = Ok (mkTls None 0 0 ∅).
Proof.
  intros H Hht. unfold lane_info_destroy. destruct (Lane_info_ht t) as [c|]; [|done].
  rewrite (tok_records t l H).
  destruct (free_list_spec l 0 t (base.size (infos t))) as (t' & -> & Ht'); [apply H..| |].
  - rewrite <-size_dom. pose proof (tok_nodup t l H) as Hnd.
    rewrite <-(size_list_to_set (C := gset Z) l Hnd). apply subseteq_size. intros p Hp%elem_of_list_to_set.
    by apply elem_of_dom, (tok_infos t l H).
  - simpl. do 2 f_equal. apply map_eq. intros x. rewrite Ht', lookup_empty. case_decide as E; [done|].
    apply eq_None_not_Some. by rewrite (tok_infos t l H).
Qed.

(** [lane_hold] and [lane_release] change what a record says, not its links. *)
Definition set_data (idx nest : Z) (i : lane_info) : lane_info := mkInfo (pop_uuid_lo i) idx nest (prev i) (next i).

Lemma seg_set_data m p l n x i idx nest : m !! x = Some i -> seg m p l n -> seg (<[x := set_data idx nest i]> m) p l n.
Proof.
  intros Hi. revert p. induction l as [|y l IH]; intros p; [done|]. intros (j & Hj & Hp & Hn & Hl).
  destruct (decide (y = x)) as [->|Hy].
  - assert (j = i) as -> by congruence. exists (set_data idx nest i). rewrite lookup_insert_eq. auto.
  - exists j. rewrite lookup_insert_ne by done. auto.
Qed.

Lemma set_data_spec t l p idx nest :
  tls_ok t l -> p ∈ l -> exists t', update_record p (set_data idx nest) t = Ok t' /\ tls_ok t' l.
Proof.
  intros [H1 H2 H3 H4 H5 H6 H7 H8] Hin. unfold update_record. destruct (proj2 (H3 p) Hin) as [i Hi]. rewrite Hi. simpl.
  assert (Hu : forall x, uuid_of (<[p := set_data idx nest i]> (infos t)) x = uuid_of (infos t) x).
  { intros x. unfold uuid_of. destruct (decide (x = p)) as [->|Hx]; [by rewrite lookup_insert_eq, Hi|by rewrite lookup_insert_ne]. }
  eexists. split; [done|]. split; simpl; try done.
  - intros x. rewrite <-H3, lookup_insert_is_Some'. destruct (decide (p = x)) as [<-|]; [rewrite Hi|]; naive_solver.
  - by apply seg_set_data.
  - erewrite list_fmap_ext; [exact H7|]. intros k x _. apply Hu.
  - destruct (Lane_info_ht t); [|done]. destruct H8 as [H8 H9]. split; [done|]. rewrite H9. apply Permutation_refl'.
    apply list_fmap_ext. intros k x _. unfold slot_of. by rewrite Hu.
Qed.

(** ** Reachable states of a thread *)

Inductive reached : tls -> Prop :=
| reached_start : reached (mkTls None 0 0 ∅)
| reached_boot env t' : lane_info_boot env (mkTls None 0 0 ∅) = Ok t' -> reached t'
| reached_get env uuid t info t' :
    reached t -> fresh_answers env t -> get_lane_info_record env uuid t = Ok (info, t') -> reached t'
| reached_use t p idx nest t' : reached t -> update_record p (set_data idx nest) t = Ok t' -> reached t'
| reached_cleanup t uuid t' : reached t -> lane_info_cleanup uuid t = Ok t' -> reached t'
| reached_destroy t t' : reached t -> lane_info_destroy t = Ok t' -> reached t'.

Lemma start_ok : tls_ok (mkTls None 0 0 ∅) [].
Proof. split; simpl; try done; try apply NoDup_nil_2; [by intros ?%elem_of_nil| |by left]. intros p. rewrite lookup_empty. set_solver. Qed.

Lemma reached_ok t : reached t -> exists l, tls_ok t l.
Proof.
  induction 1 as [|env t' E|env uuid t info t' _ [l H] Hf E|t p idx nest t' _ [l H] E|t uuid t' _ [l H] E|t t' _ [l H] E].
  - exists []. apply start_ok.
  - exists []. unfold lane_info_boot in E. destruct (create_spec env _ start_ok) as [F|(c & F & H)]; rewrite F in E; [done|].
    simpl in E. case_match; [|done]. by injection E as <-.
  - destruct (get_record_spec env t l uuid H Hf) as [[F _]|(info' & t1 & l' & F & H' & _)]; rewrite F in E; [done|].
    injection E as <- <-. by exists l'.
  - exists l. assert (Hin : p ∈ l).
    { apply (tok_infos t l H). unfold update_record in E. destruct (infos t !! p); [eauto|done]. }
    destruct (set_data_spec t l p idx nest H Hin) as (t1 & F & H'). rewrite F in E. by injection E as <-.
  - destruct (Lane_info_ht t) as [c|] eqn:Hc; [|unfold lane_info_cleanup in E; by rewrite Hc in E].
    destruct (cleanup_spec t l c uuid H Hc) as (t1 & l' & F & H' & _). rewrite F in E. injection E as <-. by exists l'.
  - exists []. destruct (Lane_info_ht t) as [c|] eqn:Hc; [|unfold lane_info_destroy in E; by rewrite Hc in E].
    rewrite (destroy_spec t l H) in E by congruence. injection E as <-. apply start_ok.
Qed.

(** Without a table there is nothing to find, and no call that uses the table. *)
Lemma no_table_spec t l uuid :
  tls_ok t l -> Lane_info_ht t = None ->
  infos t = ∅ /\ lane_info_cleanup uuid t = Bad /\ lane_info_destroy t = Bad.
Proof.
  intros H Hc. unfold lane_info_cleanup, lane_info_destroy. rewrite Hc. split_and!; [|done|done].
  pose proof (tok_ht t l H) as Hl. rewrite Hc in Hl. subst l. apply map_empty. intros p. apply eq_None_not_Some.
  rewrite (tok_infos t [] H). set_solver.
Qed.

Lemma data_none t l p : tls_ok t l -> p ∉ l -> data (infos t) p = None.
Proof.
  intros H Hp. unfold data. destruct (infos t !! p) eqn:E; [|done]. destruct Hp. apply (tok_infos t l H). by rewrite E.
Qed.

Lemma data_in t l p x : tls_ok t l -> data (infos t) p = Some x -> p ∈ l /\ uuid_of (infos t) p = x.1.1.
Proof.
  intros H. unfold data, uuid_of. destruct (infos t !! p) eqn:E; [|done]. intros [= <-]. split; [|done].
  apply (tok_infos t l H). by rewrite E.
Qed.

Lemma in_data t l p : tls_ok t l -> p ∈ l -> exists idx nest, data (infos t) p = Some (uuid_of (infos t) p, idx, nest).
Proof.
  intros H [i Hi]%(tok_infos t l H). unfold data, uuid_of. rewrite Hi. by exists (lane_idx i), (nest_count i).
Qed.

Lemma data_all t t' l : tls_ok t l -> tls_ok t' l -> (forall p, p ∈ l -> data (infos t') p = data (infos t) p) ->
  forall p, data (infos t') p = data (infos t) p.
Proof.
  intros H H' D p. destruct (decide (p ∈ l)) as [Hp|Hp]; [by apply D|]. by rewrite !(data_none _ l).
Qed.

Lemma uuid_inj t l p q : tls_ok t l -> p ∈ l -> q ∈ l -> uuid_of (infos t) p = uuid_of (infos t) q -> p = q.
Proof.
  intros H [a Ha]%list_elem_of_lookup [b Hb]%list_elem_of_lookup E. pose proof (tok_uuids t l H) as Hnd.
  assert (a = b) as ->; [|congruence].
  eapply NoDup_lookup; [exact Hnd| |]; rewrite list_lookup_fmap, ?Ha, ?Hb; simpl; by f_equal.
Qed.

(** ** Properties *)

(** C28: in every state a thread can reach, its records of lanes form a map from the
    pools: asking for the record of a pool returns the record of that pool when there
    is one and changes no record, or makes a new one, with no lane, at an address
    that was not in use, unless the process is aborted for want of memory; after it
    the thread has a table.  In a thread that has a table, closing a pool removes the
    record of that pool and no other, and ending the thread frees them all; no such
    call uses a record that has been freed or leaves the hash table.  A thread that
    has no table (it has used no lane, and was not there when the library was loaded,
    or its records have been destroyed) has no record either, and there closing a pool
    and destroying the records access memory through a null pointer: outside of the
    assertions, which a release build does not have, the code does not test for it. *)
Theorem lane_records_safe t env uuid :
  reached t -> fresh_answers env t ->
  (forall p idx nest, data (infos t) p = Some (uuid, idx, nest) ->
     exists t', get_lane_info_record env uuid t = Ok (p, t') /\ Lane_info_ht t' <> None /\
       forall q, data (infos t') q = data (infos t) q) /\
  ((forall p idx nest, data (infos t) p <> Some (uuid, idx, nest)) ->
     get_lane_info_record env uuid t = Fatal \/
     exists p t', get_lane_info_record env uuid t = Ok (p, t') /\ Lane_info_ht t' <> None /\ data (infos t) p = None /\
       forall q, data (infos t') q = if decide (q = p) then Some (uuid, UINT64_MAX, 0) else data (infos t) q) /\
  match Lane_info_ht t with
  | Some _ =>
      (exists t', lane_info_cleanup uuid t = Ok t' /\
         forall q, data (infos t') q = if decide (uuid_of (infos t) q = uuid) then None else data (infos t) q) /\
      lane_info_destroy t = Ok (mkTls None 0 0 ∅)
  | None => infos t = ∅ /\ lane_info_cleanup uuid t = Bad /\ lane_info_destroy t = Bad
  end.
Proof.
  intros [l H]%reached_ok Hf. split_and!.
  - intros p idx nest [Hin Hu]%(data_in t l); [|done]. simpl in Hu.
    destruct (get_record_spec env t l uuid H Hf) as [[_ Hno]|(info & t' & l' & F & H' & Hht & Hor & D)]; [by destruct (Hno p Hin)|].
    exists t'. destruct Hor as [(Hin' & -> & Hu')|(Hn & -> & Hd)].
    + assert (info = p) as <- by (apply (uuid_inj t l); congruence). split_and!; [done|done|]. by apply (data_all t t' l).
    + apply data_in with (l := info :: l) in Hd as [_ Hu']; [|done]. simpl in Hu'. destruct Hn.
      assert (info = p) as ->; [|done]. apply (uuid_inj t' (info :: l)); [done|set_solver..|].
      rewrite (data_uuid (infos t) (infos t') p) by auto. congruence.
  - intros Hno. destruct (get_record_spec env t l uuid H Hf) as [[F _]|(info & t' & l' & F & H' & Hht & Hor & D)]; [by left|].
    right. exists info, t'. destruct Hor as [(Hin & -> & Hu)|(Hn & -> & Hd)].
    + destruct (in_data t l info H Hin) as (idx & nest & E). rewrite Hu in E. by destruct (Hno info idx nest).
    + split_and!; [done|done|by apply (data_none t l)|]. intros q. case_decide as Eq; [by subst|].
      destruct (decide (q ∈ l)) as [Hq|Hq]; [by apply D|]. rewrite (data_none t l q H Hq).
      apply (data_none t' (info :: l) q H'). set_solver.
  - destruct (Lane_info_ht t) as [c|] eqn:Hc; [|by apply (no_table_spec t l)].
    split; [|by apply (destroy_spec t l H); rewrite Hc].
    destruct (cleanup_spec t l c uuid H Hc) as (t' & l' & F & H' & _ & Hl' & D). exists t'. split; [done|]. intros q.
    destruct (decide (q ∈ l')) as [Hq|Hq].
    + rewrite D, decide_False by (try done; by apply Hl'). done.
    + rewrite (data_none t' l') by done. case_decide as E; [done|]. symmetry. apply (data_none t l); [done|].
      intros Hin. apply Hq, Hl'. done.
Qed.

(** Two pools used, the first one closed. *)
Definition plenty (record : Z) : answers := mkAnswers record true small_memory 0.

Definition two_pools : tls :=
  match (lane_info_boot (plenty 0) (mkTls None 0 0 ∅) ≫= fun t => get_lane_info_record (plenty 100) 7 t) with
  | Ok (_, t) => match get_lane_info_record (plenty 200) 9 t with Ok (_, t) => t | _ => t end
  | _ => mkTls None 0 0 ∅
  end.

Lemma two_pools_reached : reached two_pools.
Proof.
  assert (Hm : bounded_memory small_memory) by (intros k bytes H; unfold small_memory; lia).
  eapply (reached_get (plenty 200) 9); [eapply (reached_get (plenty 100) 7); [eapply (reached_boot (plenty 0))| |]| |];
    [vm_compute; reflexivity| |vm_compute; reflexivity| |vm_compute; reflexivity]; (split; [vm_compute; reflexivity|exact Hm]).
Qed.

Lemma lane_records_safe_witness :
  (exists t', lane_info_cleanup 7 two_pools = Ok t' /\
     forall q, data (infos t') q = if decide (uuid_of (infos two_pools) q = 7) then None else data (infos two_pools) q) /\
  lane_info_destroy two_pools = Ok (mkTls None 0 0 ∅).
Proof.
  refine (proj2 (proj2 (lane_records_safe two_pools (plenty 300) 7 two_pools_reached _))).
  split; [vm_compute; reflexivity|]. intros k bytes H. unfold small_memory, plenty. simpl. unfold small_memory. lia.
Defined.
