(* ===== verification/Lanes.v ===== *)
(** * Lanes: [nvml/src/libpmemobj/lane.c]

    A lane is the part of the pool a thread keeps its logs in while it changes the
    pool.  The first part models how threads get and release lanes, as a transition
    system in which they interleave at their accesses to the shared words (the lock
    of every lane, the next lane to try first).  The second part is what happens to
    all lanes of a pool when it is opened: their construction, recovery and check.
    The operations of the sections are the function pointers of [Section_ops]; the
    theorems hold for any functions there, and say which of them are called, in which
    order, and what happens when one of them fails. *)

From stdpp Require Import relations.
From S2P Require Import Prelude LaneInfo Redo.

Definition LANE_JUMP : Z := 8.

(** ** Holding and releasing *)

(** One try of [get_lane]: the index is brought into range, the lock is taken or the
    index moves on.  Between the tries of the inner loop and of the outer one there
    is only [sched_yield]. *)
Definition get_lane_try (nlocks : Z) (locks : list Z) (index : Z) : bool * list Z * Z :=
  let index := index mod nlocks in
  match locks !! Z.to_nat index with
  | Some 0 => (true, <[Z.to_nat index := 1]> locks, index)
  | _ => (false, locks, u64 (index + 1))
  end.

(** [get_lane] when nobody else runs. *)
Fixpoint get_lane (fuel : nat) (nlocks : Z) (locks : list Z) (index : Z) : option (list Z * Z) :=
  match fuel with
  | O => None
  | S fuel =>
      let '(got, locks, index) := get_lane_try nlocks locks index in
      if got : bool then Some (locks, index) else get_lane fuel nlocks locks index
  end.

(** Where a thread is: outside of the functions, in the loop of [lane_hold] that
    gives it a first lane to try, or in [get_lane]. *)
Inductive lane_pc := Outside | First | Search.

#[global] Instance lane_pc_eq_dec : EqDecision lane_pc.
Proof. solve_decision. Defined.

(** The record of the pool ([LaneInfo]) and the place of a thread. *)
Record thread := mkThread { th_idx : Z; th_nest : Z; th_pc : lane_pc }.

Record lanes := mkLanes {
  next_lane_idx : Z;
  lane_locks : list Z;
  threads : nat -> thread;
  fatal : bool;   (* the process has been aborted *)
}.

Definition set_thread (f : nat -> thread) (i : nat) (t : thread) : nat -> thread :=
  fun j => if decide (j = i) then t else f j.

Section Hold.
Context (nlanes : Z).

(** The call of [lane_hold]. *)
Definition lane_hold (s : lanes) (i : nat) : lanes :=
  let t := threads s i in
  mkLanes (next_lane_idx s) (lane_locks s) (set_thread (threads s) i (mkThread (th_idx t) (th_nest t) First)) (fatal s).

(** A step of a thread in [lane_hold]. *)
Definition lane_hold_step (s : lanes) (i : nat) : lanes :=
  let t := threads s i in
  match th_pc t with
  | First =>
      if th_idx t =? UINT64_MAX
      then mkLanes (u32 (next_lane_idx s + LANE_JUMP)) (lane_locks s)
             (set_thread (threads s) i (mkThread (next_lane_idx s) (th_nest t) First)) (fatal s)
      else mkLanes (next_lane_idx s) (lane_locks s)
             (set_thread (threads s) i (mkThread (th_idx t) (u64 (th_nest t + 1)) (if th_nest t =? 0 then Search else Outside))) (fatal s)
  | Search =>
      let '(got, locks, idx) := get_lane_try nlanes (lane_locks s) (th_idx t) in
      mkLanes (next_lane_idx s) locks
        (set_thread (threads s) i (mkThread idx (th_nest t) (if got : bool then Outside else Search))) (fatal s)
  | Outside => s
  end.

Definition lane_release (s : lanes) (i : nat) : lanes :=
  let t := threads s i in
  let abort := mkLanes (next_lane_idx s) (lane_locks s) (threads s) true in
  if th_nest t =? 0 then abort
  else
    let nest := u64 (th_nest t - 1) in
    let t' := mkThread (th_idx t) nest Outside in
    if nest =? 0 then
      if bool_decide (lane_locks s !! Z.to_nat (th_idx t) = Some 1)
      then mkLanes (next_lane_idx s) (<[Z.to_nat (th_idx t) := 0]> (lane_locks s)) (set_thread (threads s) i t') (fatal s)
      else abort
    else mkLanes (next_lane_idx s) (lane_locks s) (set_thread (threads s) i t') (fatal s).

(** A thread outside of the functions calls [lane_hold], less than [2 ^ 64] times
    nested, or [lane_release], as often as [lane_hold]. *)
Inductive lanes_step (s : lanes) : lanes -> Prop :=
| step_hold i : th_pc (threads s i) = Outside -> th_nest (threads s i) + 1 < 2 ^ 64 -> lanes_step s (lane_hold s i)
| step_run i : lanes_step s (lane_hold_step s i)
| step_release i : th_pc (threads s i) = Outside -> th_nest (threads s i) <> 0 -> lanes_step s (lane_release s i).

(** After [lane_boot]; the records are as [get_lane_info_record] makes them. *)
Definition lanes_start : lanes :=
  mkLanes 0 (replicate (Z.to_nat nlanes) 0) (fun _ => mkThread UINT64_MAX 0 Outside) false.

Definition lanes_reach (s : lanes) : Prop := rtc lanes_step lanes_start s.

(** ** The invariant *)

(** The thread holds a lane. *)
Definition holds (t : thread) : Prop := th_nest t <> 0 /\ th_pc t <> Search.
#[global] Instance holds_dec t : Decision (holds t).
Proof. unfold holds. apply _. Defined.

Record lanes_inv (s : lanes) : Prop := {
  la_fatal : fatal s = false;
  la_next : 0 <= next_lane_idx s < 2 ^ 32;
  la_length : length (lane_locks s) = Z.to_nat nlanes;
  la_locks k x : lane_locks s !! k = Some x -> x = 0 \/ x = 1;
  la_nest i : 0 <= th_nest (threads s i) < 2 ^ 64;
  la_idx i : 0 <= th_idx (threads s i);
  la_first i : th_pc (threads s i) = First -> th_nest (threads s i) + 1 < 2 ^ 64;
  la_search i : th_pc (threads s i) = Search -> th_nest (threads s i) = 1;
  la_holds i : holds (threads s i) -> lane_locks s !! Z.to_nat (th_idx (threads s i)) = Some 1;
  la_excl i j : holds (threads s i) -> holds (threads s j) -> th_idx (threads s i) = th_idx (threads s j) -> i = j;
  la_held k : lane_locks s !! k = Some 1 -> exists i, holds (threads s i) /\ Z.to_nat (th_idx (threads s i)) = k;
}.

Context (Hn : 0 < nlanes < 2 ^ 32).

Lemma set_thread_eq f i t : set_thread f i t i = t.
Proof. unfold set_thread. by rewrite decide_True. Qed.
Lemma set_thread_ne f i t j : j <> i -> set_thread f i t j = f j.
Proof. intros H. unfold set_thread. by rewrite decide_False. Qed.

(** What a thread satisfies by itself. *)
Definition thread_ok (t : thread) : Prop :=
  0 <= th_nest t < 2 ^ 64 /\ 0 <= th_idx t /\ (th_pc t = First -> th_nest t + 1 < 2 ^ 64) /\
  (th_pc t = Search -> th_nest t = 1).

Lemma thread_inv s i : lanes_inv s -> thread_ok (threads s i).
Proof. intros H. split_and!; apply H. Qed.

(** One thread has changed, the others have not. *)
Ltac one_thread i j := destruct (decide (j = i)) as [->|?]; [rewrite ?set_thread_eq in *|rewrite ?(set_thread_ne _ i _ j) in * by done].

(** Which lanes are held stays as it is. *)
Lemma keep_inv s i t next :
  lanes_inv s -> thread_ok t -> 0 <= next < 2 ^ 32 -> (holds t <-> holds (threads s i)) ->
  (holds (threads s i) -> th_idx t = th_idx (threads s i)) ->
  lanes_inv (mkLanes next (lane_locks s) (set_thread (threads s) i t) (fatal s)).
Proof.
  intros H (T1 & T2 & T3 & T4) Hnext Hh Hidx. split; simpl; try done; try apply (la_fatal s H); try apply (la_next s H); try apply (la_length s H); try apply (la_locks s H).
  - intros j. one_thread i j; [done|apply H].
  - intros j. one_thread i j; [done|apply H].
  - intros j. one_thread i j; [done|apply H].
  - intros j. one_thread i j; [done|apply H].
  - intros j. one_thread i j; [|apply H]. intros Ht. rewrite Hidx by tauto. apply H. tauto.
  - intros j k. one_thread i j; one_thread i k; try done.
    + intros H1 H2. rewrite Hidx by tauto. apply H; tauto.
    + intros H1 H2. rewrite Hidx by tauto. apply H; tauto.
    + apply H.
  - intros k Hk. destruct (la_held s H k Hk) as (j & Hj & E). exists j. one_thread i j; [|done].
    rewrite Hidx by done. tauto.
Qed.

(** The thread takes the free lane [idx]. *)
Lemma take_inv s i t :
  lanes_inv s -> thread_ok t -> holds t -> ~ holds (threads s i) -> lane_locks s !! Z.to_nat (th_idx t) = Some 0 ->
  lanes_inv (mkLanes (next_lane_idx s) (<[Z.to_nat (th_idx t) := 1]> (lane_locks s)) (set_thread (threads s) i t) (fatal s)).
Proof.
  intros H (T1 & T2 & T3 & T4) Ht Hi Hl. pose proof (lookup_lt_Some _ _ _ Hl) as Hlt.
  assert (Hne : forall j, holds (threads s j) -> Z.to_nat (th_idx (threads s j)) <> Z.to_nat (th_idx t)).
  { intros j Hj%(la_holds s H) E. rewrite E in Hj. congruence. }
  split; simpl; try done; try apply (la_fatal s H); try apply (la_next s H); try apply (la_length s H); try apply (la_locks s H).
  - rewrite length_insert. apply (la_length s H).
  - intros k x [(<- & <- & _)|[_ Hk]]%list_lookup_insert_Some; [by right|by apply (la_locks s H k)].
  - intros j. one_thread i j; [done|apply H].
  - intros j. one_thread i j; [done|apply H].
  - intros j. one_thread i j; [done|apply H].
  - intros j. one_thread i j; [done|apply H].
  - intros j. one_thread i j; [intros _; by apply list_lookup_insert_eq|].
    intros Hj. rewrite list_lookup_insert_ne by (apply not_eq_sym, Hne, Hj). by apply (la_holds s H).
  - intros j k. one_thread i j; one_thread i k; try done; [| |apply H].
    + intros _ Hk E. by destruct (Hne k Hk); rewrite E.
    + intros Hj _ E. by destruct (Hne j Hj); rewrite E.
  - intros k [(<- & _ & _)|[Hk1 Hk]]%list_lookup_insert_Some; [exists i; by rewrite set_thread_eq|].
    destruct (la_held s H k Hk) as (j & Hj & E). exists j. one_thread i j; done.
Qed.

(** The thread gives its lane back. *)
Lemma give_inv s i t :
  lanes_inv s -> thread_ok t -> ~ holds t -> holds (threads s i) -> th_idx t = th_idx (threads s i) ->
  lanes_inv (mkLanes (next_lane_idx s) (<[Z.to_nat (th_idx t) := 0]> (lane_locks s)) (set_thread (threads s) i t) (fatal s)).
Proof.
  intros H (T1 & T2 & T3 & T4) Ht Hi Hidx. rewrite Hidx.
  assert (Hne : forall j, j <> i -> holds (threads s j) -> Z.to_nat (th_idx (threads s j)) <> Z.to_nat (th_idx (threads s i))).
  { intros j Hj Hh E. apply Hj, (la_excl s H); [done..|]. pose proof (la_idx s H i). pose proof (la_idx s H j). lia. }
  split; simpl; try done; try apply (la_fatal s H); try apply (la_next s H); try apply (la_length s H); try apply (la_locks s H).
  - rewrite length_insert. apply (la_length s H).
  - intros k x [(<- & <- & _)|[_ Hk]]%list_lookup_insert_Some; [by left|by apply (la_locks s H k)].
  - intros j. one_thread i j; [done|apply H].
  - intros j. one_thread i j; [done|apply H].
  - intros j. one_thread i j; [done|apply H].
  - intros j. one_thread i j; [done|apply H].
  - intros j. one_thread i j; [done|]. intros Hj. rewrite list_lookup_insert_ne by (apply not_eq_sym, Hne; done).
    by apply (la_holds s H).
  - intros j k. one_thread i j; one_thread i k; try done. apply H.
  - intros k [(_ & ? & _)|[Hk1 Hk]]%list_lookup_insert_Some; [done|].
    destruct (la_held s H k Hk) as (j & Hj & E). exists j. one_thread i j; [congruence|done].
Qed.

Ltac thread_case := unfold thread_ok; simpl; split_and!; try done; try lia.

Lemma hold_inv s i :
  lanes_inv s -> th_pc (threads s i) = Outside -> th_nest (threads s i) + 1 < 2 ^ 64 -> lanes_inv (lane_hold s i).
Proof.
  intros H Hpc Hnest. destruct (thread_inv s i H) as (T1 & T2 & _ & _). unfold lane_hold.
  apply keep_inv; simpl; [done|thread_case|apply (la_next s H)| |done]. unfold holds. simpl. rewrite Hpc. naive_solver.
Qed.

Lemma try_inv s i :
  lanes_inv s -> th_pc (threads s i) = Search -> lanes_inv (lane_hold_step s i).
Proof.
  intros H Hpc. destruct (thread_inv s i H) as (T1 & T2 & _ & T4). unfold lane_hold_step, get_lane_try. rewrite Hpc.
  set (idx := th_idx (threads s i) mod nlanes). assert (Hidx : 0 <= idx < nlanes) by (apply Z.mod_pos_bound; lia).
  assert (Hi : ~ holds (threads s i)) by (intros [_ ?]; done).
  assert (Hkeep : lanes_inv (mkLanes (next_lane_idx s) (lane_locks s)
            (set_thread (threads s) i (mkThread (u64 (idx + 1)) (th_nest (threads s i)) Search)) (fatal s))).
  { apply keep_inv; [done| |apply (la_next s H)|unfold holds; simpl; naive_solver|done].
    thread_case; [apply u64_range|by intros _; apply T4]. }
  destruct (lane_locks s !! Z.to_nat idx) as [[|x|x]|] eqn:El; [|done..].
  apply (take_inv s i (mkThread idx (th_nest (threads s i)) Outside)); [done| | |done|done].
  - thread_case.
  - split; simpl; [|done]. rewrite T4 by done. lia.
Qed.

Lemma hold_step_inv s i : lanes_inv s -> lanes_inv (lane_hold_step s i).
Proof.
  intros H. destruct (th_pc (threads s i)) eqn:Hpc; [unfold lane_hold_step; by rewrite Hpc| |by apply try_inv].
  destruct (thread_inv s i H) as (T1 & T2 & T3 & T4). specialize (T3 Hpc). unfold lane_hold_step. rewrite Hpc.
  destruct (Z.eqb_spec (th_idx (threads s i)) UINT64_MAX) as [E|E].
  - assert (Hi : ~ holds (threads s i)).
    { intros Hh%(la_holds s H)%lookup_lt_Some. rewrite (la_length s H) in Hh. rewrite E in Hh. unfold UINT64_MAX in *. lia. }
    apply keep_inv; [done| |apply u32_range| |done].
    + pose proof (la_next s H). thread_case.
    + unfold holds in *. simpl. rewrite Hpc in Hi. naive_solver.
  - apply keep_inv; [done| |apply (la_next s H)| |done]; rewrite u64_small by lia.
    + destruct (Z.eqb_spec (th_nest (threads s i)) 0) as [E0|E0]; thread_case.
    + unfold holds. rewrite Hpc. destruct (Z.eqb_spec (th_nest (threads s i)) 0) as [E0|E0]; simpl; split; try done.
      * by intros [_ ?].
      * by intros [? _].
      * intros _. split; [lia|done].
Qed.

Lemma release_inv s i :
  lanes_inv s -> th_pc (threads s i) = Outside -> th_nest (threads s i) <> 0 -> lanes_inv (lane_release s i).
Proof.
  intros H Hpc Hnest. destruct (thread_inv s i H) as (T1 & T2 & _ & _). unfold lane_release.
  assert (Hh : holds (threads s i)) by (split; [done|by rewrite Hpc]).
  rewrite (proj2 (Z.eqb_neq _ _) Hnest), (u64_small (th_nest (threads s i) - 1)) by lia.
  destruct (Z.eqb_spec (th_nest (threads s i) - 1) 0) as [E|E].
  - rewrite bool_decide_true by (by apply (la_holds s H)).
    apply (give_inv s i (mkThread (th_idx (threads s i)) (th_nest (threads s i) - 1) Outside)); [done| | |done|done].
    + thread_case.
    + unfold holds. simpl. naive_solver.
  - apply keep_inv; [done| |apply (la_next s H)| |done].
    + thread_case.
    + split; [done|]. intros _. by split.
Qed.

Lemma lanes_start_inv : lanes_inv lanes_start.
Proof.
  split; simpl; try done; try lia.
  - apply length_replicate.
  - intros k x [-> _]%lookup_replicate. by left.
  - by intros i [? _].
  - by intros i j [? _].
  - intros k [? _]%lookup_replicate. done.
Qed.

Lemma lanes_reach_inv s : lanes_reach s -> lanes_inv s.
Proof.
  unfold lanes_reach. intros Hr. pose proof lanes_start_inv as H. revert H.
  induction Hr as [s|s s1 s2 Hs _ IH]; intros H; [done|]. apply IH.
  destruct Hs; [by apply hold_inv|by apply hold_step_inv|by apply release_inv].
Qed.

(** ** Progress *)

(** When nobody else runs, [get_lane] finds a free lane within one round. *)
Lemma get_lane_finds fuel locks index k :
  length locks = Z.to_nat nlanes -> 0 <= k < nlanes -> locks !! Z.to_nat k = Some 0 ->
  (k - index) mod nlanes < Z.of_nat fuel ->
  exists idx, get_lane fuel nlanes locks index = Some (<[Z.to_nat idx := 1]> locks, idx) /\
    0 <= idx < nlanes /\ locks !! Z.to_nat idx = Some 0.
Proof.
  revert index. induction fuel as [|fuel IH]; intros index Hlen Hk Hl Hd.
  { pose proof (Z.mod_pos_bound (k - index) nlanes). lia. }
  cbn [get_lane]. unfold get_lane_try. set (idx := index mod nlanes).
  assert (Hidx : 0 <= idx < nlanes) by (apply Z.mod_pos_bound; lia).
  assert (Hnext : locks !! Z.to_nat idx <> Some 0 -> (k - u64 (idx + 1)) mod nlanes < Z.of_nat fuel).
  { intros Hne. assert (Hki : k <> idx) by (intros ->; done). rewrite u64_small by lia.
    assert (E : (k - index) mod nlanes = (k - idx) mod nlanes) by (unfold idx; by rewrite Zminus_mod_idemp_r).
    rewrite E in Hd. destruct (Z.lt_total k idx) as [Hlt|[?|Hlt]]; [|done|].
    - rewrite <-(Z_mod_plus_full (k - idx) 1), Z.mod_small in Hd by lia.
      rewrite <-(Z_mod_plus_full (k - (idx + 1)) 1), Z.mod_small by lia. lia.
    - rewrite Z.mod_small in Hd by lia. rewrite Z.mod_small by lia. lia. }
  destruct (lookup_lt_is_Some_2 locks (Z.to_nat idx)) as [x Hx]; [lia|]. rewrite Hx in *.
  destruct x as [|x|x]; [exists idx; done|apply IH; try done; apply Hnext; congruence..].
Qed.

(** A thread in [lane_hold] does what [get_lane] does. *)
Lemma search_runs fuel s i locks idx :
  th_pc (threads s i) = Search -> get_lane fuel nlanes (lane_locks s) (th_idx (threads s i)) = Some (locks, idx) ->
  exists n s', (n <= fuel)%nat /\ s' = Nat.iter n (fun s => lane_hold_step s i) s /\ rtc lanes_step s s' /\
    threads s' i = mkThread idx (th_nest (threads s i)) Outside /\ lane_locks s' = locks.
Proof.
  revert s. induction fuel as [|fuel IH]; intros s Hpc Hg; [done|]. cbn [get_lane] in Hg.
  destruct (get_lane_try nlanes (lane_locks s) (th_idx (threads s i))) as [[got locks1] idx1] eqn:Et.
  assert (E : lane_hold_step s i = mkLanes (next_lane_idx s) locks1
      (set_thread (threads s) i (mkThread idx1 (th_nest (threads s i)) (if got then Outside else Search))) (fatal s)).
  { unfold lane_hold_step. by rewrite Hpc, Et. }
  destruct got.
  - injection Hg as <- <-. exists 1%nat, (lane_hold_step s i). split_and!; [lia|done|apply rtc_once, step_run| |by rewrite E].
    rewrite E. simpl. apply set_thread_eq.
  - destruct (IH (lane_hold_step s i)) as (n & s' & Hn' & -> & Hr & Ht & Hl).
    + rewrite E. simpl. by rewrite set_thread_eq.
    + assert (lane_locks s = locks1) as Hsame.
      { unfold get_lane_try in Et. repeat case_match; simplify_eq; done. }
      rewrite E. simpl. by rewrite set_thread_eq.
    + exists (S n), (Nat.iter (S n) (fun s => lane_hold_step s i) s). rewrite Nat.iter_succ_r. split_and!; [lia|done| | |done].
      * eapply rtc_l; [apply step_run|exact Hr].
      * rewrite Ht. f_equal. rewrite E. simpl. by rewrite set_thread_eq.
Qed.

End Hold.

(** ** Opening the lanes of a pool *)

Definition MAX_LANE_SECTION : nat := 3.

(** The operations of a section ([struct section_operations]), on the state of the
    pool and the process.  The arguments are the kind of the section, the lane, and
    the address of the section in the pool. *)
Class SectionOps (St : Type) := {
  construct : nat -> Z -> Z -> St -> Z * St;
  sec_destruct : nat -> Z -> St -> St;
  check_section : nat -> Z -> St -> Z;
  recover : nat -> Z -> St -> Z * St;
  boot : nat -> St -> Z * St;
}.

Section Open.
Context {St : Type} `{!SectionOps St} (pop : PMEMobjpool).

Definition lane_get_layout (lane_idx : Z) : Z := addr pop + lanes_offset pop + sizeof_lane_layout pop * lane_idx.
(** [&layout->sections[i]] *)
Definition section_layout (i : nat) (lane_idx : Z) : Z := lane_get_layout lane_idx + LANE_SECTION_LEN * Z.of_nat i.

(** The loop of [lane_init] with [todo] sections to come; the error and the section
    it stops at. *)
Fixpoint init_loop (todo i : nat) (lane : Z) (st : St) : Z * nat * St :=
  match todo with
  | O => (0, i, st)
  | S todo =>
      let '(err, st) := construct i lane (section_layout i lane) st in
      if negb (err =? 0) then (err, i, st) else init_loop todo (S i) lane st
  end.

(** [for (i = i - 1; i >= 0; --i)] *)
Fixpoint undo_loop (i : nat) (lane : Z) (st : St) : St :=
  match i with O => st | S i => undo_loop i lane (sec_destruct i lane st) end.

Definition lane_init (lane : Z) (st : St) : Z * St :=
  let '(err, i, st) := init_loop MAX_LANE_SECTION 0 lane st in
  if negb (err =? 0) then (err, undo_loop i lane st) else (0, st).

Fixpoint destroy_loop (todo i : nat) (lane : Z) (st : St) : St :=
  match todo with O => st | S todo => destroy_loop todo (S i) lane (sec_destruct i lane st) end.

Definition lane_destroy (lane : Z) (st : St) : St := destroy_loop MAX_LANE_SECTION 0 lane st.

(** The pointers of [pop->lanes_desc], whether they are not [NULL]. *)
Record descriptor := mkDesc { d_lane : bool; d_next : Z; d_locks : bool }.

Fixpoint boot_loop (todo : nat) (i : Z) (st : St) : Z * Z * St :=
  match todo with
  | O => (0, i, st)
  | S todo =>
      let '(err, st) := lane_init i st in
      if negb (err =? 0) then (err, i, st) else boot_loop todo (i + 1) st
  end.

(** [for (; i >= 1; --i) lane_destroy(.., &lane[i - 1])] *)
Fixpoint unboot_loop (i : nat) (st : St) : St :=
  match i with O => st | S i => unboot_loop i (lane_destroy (Z.of_nat i) st) end.

(** [malloc] and [zalloc] tell whether the lanes and their locks are allocated. *)
Definition lane_boot (malloc zalloc : bool) (d : descriptor) (st : St) : Z * descriptor * St :=
  let err := 0 in
  if negb malloc then (ENOMEM, mkDesc false (d_next d) (d_locks d), st)
  else if negb zalloc then (err, mkDesc false 0 false, st)
  else
    let '(err, i, st) := boot_loop (Z.to_nat (nlanes pop)) 0 st in
    if negb (err =? 0) then (err, mkDesc false 0 false, unboot_loop (Z.to_nat i) st)
    else (0, mkDesc true 0 true, st).

Fixpoint cleanup_loop (todo : nat) (i : Z) (st : St) : St :=
  match todo with O => st | S todo => cleanup_loop todo (i + 1) (lane_destroy i st) end.

(** [lane_cleanup]; the record of the thread is removed by [LaneInfo].  The lanes are
    used without a test: there is no result when there are none ([NULL]), unless no
    lane is visited. *)
Definition lane_cleanup (d : descriptor) (st : St) : option (descriptor * St) :=
  if d_lane d || (nlanes pop =? 0)
  then Some (mkDesc false (d_next d) false, cleanup_loop (Z.to_nat (nlanes pop)) 0 st)
  else None.

Fixpoint recover_lanes (todo : nat) (i : nat) (j : Z) (st : St) : Z * St :=
  match todo with
  | O => (0, st)
  | S todo =>
      let '(err, st) := recover i (section_layout i j) st in
      if negb (err =? 0) then (err, st) else recover_lanes todo i (j + 1) st
  end.

Fixpoint recover_sections (todo i : nat) (st : St) : Z * St :=
  match todo with
  | O => (0, st)
  | S todo =>
      let '(err, st) := recover_lanes (Z.to_nat (nlanes pop)) i 0 st in
      if negb (err =? 0) then (err, st) else
      let '(err, st) := boot i st in
      if negb (err =? 0) then (err, st) else recover_sections todo (S i) st
  end.

Definition lane_recover_and_section_boot (st : St) : Z * St := recover_sections MAX_LANE_SECTION 0 st.

Fixpoint check_lanes (todo : nat) (i : nat) (j : Z) (st : St) : Z :=
  match todo with
  | O => 0
  | S todo =>
      let err := check_section i (section_layout i j) st in
      if negb (err =? 0) then err else check_lanes todo i (j + 1) st
  end.

Fixpoint check_sections (todo i : nat) (st : St) : Z :=
  match todo with
  | O => 0
  | S todo =>
      let err := check_lanes (Z.to_nat (nlanes pop)) i 0 st in
      if negb (err =? 0) then err else check_sections todo (S i) st
  end.

Definition lane_check (st : St) : Z := check_sections MAX_LANE_SECTION 0 st.

(** [pmemobj_boot] of [obj.c]. *)
Definition pmemobj_boot (malloc zalloc : bool) (d : descriptor) (st : St) : Z * descriptor * St :=
  let '(err, d, st) := lane_boot malloc zalloc d st in
  if negb (err =? 0) then (err, d, st) else
  let '(err, st) := lane_recover_and_section_boot st in (err, d, st).

(** ** What opening does *)

(** The calls of the operations of the sections. *)
Inductive section_call :=
| CConstruct (i : nat) (lane : Z)
| CDestruct (i : nat) (lane : Z)
| CRecover (i : nat) (lane : Z)
| CBoot (i : nat).

Definition do_call (c : section_call) (st : St) : Z * St :=
  match c with
  | CConstruct i lane => construct i lane (section_layout i lane) st
  | CDestruct i lane => (0, sec_destruct i lane st)
  | CRecover i lane => recover i (section_layout i lane) st
  | CBoot i => boot i st
  end.

(** The calls one after the other, whatever they return. *)
Definition run_calls (l : list section_call) (st : St) : St := foldl (fun st c => (do_call c st).2) st l.

(** The calls up to the first one that fails: its error (0 when there is none), the
    calls that have succeeded before, the state after the last one made. *)
Fixpoint until_error (l : list section_call) (st : St) : Z * list section_call * St :=
  match l with
  | [] => (0, [], st)
  | c :: l =>
      let '(err, st) := do_call c st in
      if negb (err =? 0) then (err, [], st)
      else let '(err, made, st) := until_error l st in (err, c :: made, st)
  end.

Definition sections : list nat := seq 0 MAX_LANE_SECTION.
Definition all_lanes : list Z := seqZ 0 (nlanes pop).

Definition construct_lane (lane : Z) : list section_call := (fun i => CConstruct i lane) <$> sections.
Definition destruct_lane (lane : Z) : list section_call := (fun i => CDestruct i lane) <$> sections.
Definition recover_section (i : nat) : list section_call := (CRecover i <$> all_lanes) ++ [CBoot i].

(** Every section of every lane, lane by lane. *)
Definition construct_calls : list section_call := all_lanes ≫= construct_lane.
Definition destruct_calls : list section_call := all_lanes ≫= destruct_lane.
(** Every section in every lane, and after that the section itself, section by section. *)
Definition recover_calls : list section_call := sections ≫= recover_section.

(** The call that takes back a construction. *)
Definition undo (c : section_call) : section_call := match c with CConstruct i lane => CDestruct i lane | c => c end.

Definition first_error (l : list Z) : Z := default 0 (snd <$> list_find (fun e => e <> 0) l).

Lemma run_calls_app l1 l2 st : run_calls (l1 ++ l2) st = run_calls l2 (run_calls l1 st).
Proof. apply foldl_app. Qed.

Lemma until_error_app l1 l2 st :
  until_error (l1 ++ l2) st =
  let '(err, made, st) := until_error l1 st in
  if err =? 0 then let '(err, more, st) := until_error l2 st in (err, made ++ more, st) else (err, made, st).
Proof.
  revert st. induction l1 as [|c l1 IH]; intros st; cbn [until_error app]; [by destruct (until_error l2 st) as [[??]?]|].
  destruct (do_call c st) as [e st1]. destruct (Z.eqb_spec e 0) as [->|He]; cbn [negb]; [|by rewrite (proj2 (Z.eqb_neq e 0))].
  rewrite IH. destruct (until_error l1 st1) as [[e1 made] st2]. destruct (e1 =? 0); [|done].
  by destruct (until_error l2 st2) as [[??]?].
Qed.

Lemma until_error_all l st : (until_error l st).1.1 = 0 -> (until_error l st).1.2 = l.
Proof.
  revert st. induction l as [|c l IH]; intros st; cbn [until_error]; [done|].
  destruct (do_call c st) as [e st1]. destruct (Z.eqb_spec e 0) as [->|He]; cbn [negb]; [|done].
  specialize (IH st1). destruct (until_error l st1) as [[e1 made] st2]. simpl in *. intros E. by rewrite IH.
Qed.

Lemma seqZ_next i todo : seqZ i (Z.of_nat (S todo)) = i :: seqZ (i + 1) (Z.of_nat todo).
Proof. rewrite seqZ_cons by lia. f_equal. f_equal; lia. Qed.

(** The loops are the calls of these lists. *)

Lemma init_loop_calls todo i lane st :
  let '(err, i', st') := init_loop todo i lane st in
  until_error ((fun i => CConstruct i lane) <$> seq i todo) st =
    (err, (fun i => CConstruct i lane) <$> seq i (i' - i), st') /\ (i <= i')%nat.
Proof.
  revert i st. induction todo as [|todo IH]; intros i st; cbn [init_loop]; [by rewrite Nat.sub_diag|].
  cbn [seq fmap list_fmap until_error do_call]. destruct (construct i lane (section_layout i lane) st) as [e st1].
  destruct (Z.eqb_spec e 0) as [->|He]; cbn [negb]; [|by rewrite Nat.sub_diag].
  specialize (IH (S i) st1). destruct (init_loop todo (S i) lane st1) as [[e1 i'] st2]. destruct IH as [IH Hi].
  change (list_fmap _ _ (fun i => CConstruct i lane) (seq (S i) todo)) with ((fun i => CConstruct i lane) <$> seq (S i) todo).
  rewrite IH. split; [|lia]. by replace (i' - i)%nat with (S (i' - S i)) by lia.
Qed.

Lemma undo_loop_calls i lane st :
  undo_loop i lane st = run_calls (reverse ((fun i => CDestruct i lane) <$> seq 0 i)) st.
Proof.
  revert st. induction i as [|i IH]; intros st; [done|]. cbn [undo_loop].
  by rewrite IH, seq_S, fmap_app, reverse_app.
Qed.

Lemma undo_constructs lane (l : list nat) : undo <$> ((fun i => CConstruct i lane) <$> l) = (fun i => CDestruct i lane) <$> l.
Proof. by rewrite <-list_fmap_compose. Qed.

(** A lane that cannot be constructed is taken back, the last section first. *)
Lemma lane_init_calls lane st :
  lane_init lane st =
  let '(err, made, st) := until_error (construct_lane lane) st in
  (err, if err =? 0 then st else run_calls (reverse (undo <$> made)) st).
Proof.
  unfold lane_init, construct_lane, sections. pose proof (init_loop_calls MAX_LANE_SECTION 0 lane st) as H.
  destruct (init_loop MAX_LANE_SECTION 0 lane st) as [[e i] st1]. destruct H as [-> _].
  destruct (Z.eqb_spec e 0) as [->|He]; cbn [negb]; [done|].
  by rewrite undo_loop_calls, undo_constructs, Nat.sub_0_r.
Qed.

Lemma lane_destroy_calls lane st : lane_destroy lane st = run_calls (destruct_lane lane) st.
Proof. reflexivity. Qed.

Lemma unboot_loop_calls i st : unboot_loop i st = run_calls (reverse (seqZ 0 (Z.of_nat i)) ≫= destruct_lane) st.
Proof.
  revert st. induction i as [|i IH]; intros st; [done|]. cbn [unboot_loop].
  rewrite IH, lane_destroy_calls, seqZ_S, reverse_app. cbn [reverse rev_append app mbind list_bind]. rewrite Z.add_0_l.
  by rewrite run_calls_app.
Qed.

Lemma cleanup_loop_calls todo i st :
  cleanup_loop todo i st = run_calls (seqZ i (Z.of_nat todo) ≫= destruct_lane) st.
Proof.
  revert i st. induction todo as [|todo IH]; intros i st; [done|]. cbn [cleanup_loop].
  rewrite IH, lane_destroy_calls, seqZ_next. cbn [mbind list_bind]. by rewrite run_calls_app.
Qed.

(** [lane_boot] stops at the lane [i'], whose sections that had been constructed are
    taken back already. *)
Lemma boot_loop_calls todo i st :
  let '(err, i', st') := boot_loop todo i st in
  exists made st1,
    until_error (seqZ i (Z.of_nat todo) ≫= construct_lane) st = (err, (seqZ i (i' - i) ≫= construct_lane) ++ made, st1) /\
    i <= i' /\ st' = run_calls (reverse (undo <$> made)) st1 /\ (err = 0 -> made = []).
Proof.
  revert i st. induction todo as [|todo IH]; intros i st; cbn [boot_loop].
  { exists [], st. rewrite Z.sub_diag. split_and!; [done|lia|done|done]. }
  rewrite lane_init_calls, seqZ_next. cbn [mbind list_bind]. change (list_bind _ _ ?f ?l) with (l ≫= f).
  rewrite until_error_app. pose proof (until_error_all (construct_lane i) st) as Hall.
  destruct (until_error (construct_lane i) st) as [[e made] st1]. simpl in Hall.
  destruct (Z.eqb_spec e 0) as [->|He]; cbn [negb].
  - rewrite Hall by done. specialize (IH (i + 1) st1). destruct (boot_loop todo (i + 1) st1) as [[e1 i'] st2].
    destruct IH as (made1 & st3 & E & Hi & -> & H0). exists made1, st3.
    rewrite E.
    rewrite (seqZ_cons i (i' - i)) by lia. cbn [mbind list_bind]. rewrite <-app_assoc, <-Z.add_1_r.
    replace (Z.pred (i' - i)) with (i' - (i + 1)) by lia. split_and!; [done|lia|done|done].
  - exists made, st1. rewrite Z.sub_diag. split_and!; [done|lia|done|done].
Qed.

Lemma undo_lane lane : undo <$> construct_lane lane = destruct_lane lane.
Proof. apply undo_constructs. Qed.

Lemma undo_lanes (l : list Z) : undo <$> (l ≫= construct_lane) = l ≫= destruct_lane.
Proof. induction l as [|lane l IH]; [done|]. cbn [mbind list_bind]. by rewrite fmap_app, undo_lane, <-IH. Qed.

(** [lane_boot] constructs everything, or stops at the first section that fails and
    takes back what it has constructed. *)
Lemma lane_boot_calls d st :
  0 <= nlanes pop ->
  let '(err, made, st1) := until_error construct_calls st in
  exists undone, Permutation undone (undo <$> made) /\
  lane_boot true true d st =
    if err =? 0 then (0, mkDesc true 0 true, st1) else (err, mkDesc false 0 false, run_calls undone st1).
Proof.
  intros Hn. unfold lane_boot. cbn [negb]. pose proof (boot_loop_calls (Z.to_nat (nlanes pop)) 0 st) as H.
  destruct (boot_loop (Z.to_nat (nlanes pop)) 0 st) as [[e i] st2]. destruct H as (made & st1 & E & Hi & -> & H0).
  rewrite Z2Nat.id in E by done. unfold construct_calls, all_lanes. rewrite E, Z.sub_0_r.
  exists (reverse (undo <$> made) ++ (reverse (seqZ 0 i) ≫= destruct_lane)). split.
  - rewrite fmap_app, undo_lanes, (reverse_Permutation (undo <$> made)), (reverse_Permutation (seqZ 0 i)).
    apply Permutation_app_comm.
  - destruct (Z.eqb_spec e 0) as [->|He]; cbn [negb]; [by rewrite H0|].
    by rewrite unboot_loop_calls, run_calls_app, Z2Nat.id.
Qed.

Lemma recover_lanes_calls todo i j st :
  recover_lanes todo i j st =
  let '(err, _, st) := until_error (CRecover i <$> seqZ j (Z.of_nat todo)) st in (err, st).
Proof.
  revert j st. induction todo as [|todo IH]; intros j st; [done|]. cbn [recover_lanes].
  rewrite seqZ_next. cbn [fmap list_fmap until_error do_call]. change (list_fmap _ _ ?f ?l) with (f <$> l).
  destruct (recover i (section_layout i j) st) as [e st1]. destruct (e =? 0); cbn [negb]; [|done].
  rewrite IH.
  by destruct (until_error _ st1) as [[??]?].
Qed.

Lemma recover_sections_calls todo i st :
  0 <= nlanes pop ->
  recover_sections todo i st =
  let '(err, _, st) := until_error (seq i todo ≫= recover_section) st in (err, st).
Proof.
  intros Hn. revert i st. induction todo as [|todo IH]; intros i st; [done|]. cbn [recover_sections seq mbind list_bind].
  change (list_bind _ _ ?f ?l) with (l ≫= f). rewrite recover_lanes_calls, Z2Nat.id by done.
  unfold recover_section at 1. rewrite <-app_assoc, until_error_app. fold all_lanes.
  destruct (until_error (CRecover i <$> all_lanes) st) as [[e made] st1]. destruct (Z.eqb_spec e 0) as [->|He]; cbn [negb]; [|done].
  cbn [app until_error do_call]. destruct (boot i st1) as [e1 st2]. destruct (e1 =? 0); cbn [negb]; [|done].
  rewrite IH. by destruct (until_error _ st2) as [[??]?].
Qed.

Lemma lane_recover_calls st :
  0 <= nlanes pop ->
  lane_recover_and_section_boot st = let '(err, _, st) := until_error recover_calls st in (err, st).
Proof. apply recover_sections_calls. Qed.

Lemma first_error_cons e l : first_error (e :: l) = if e =? 0 then first_error l else e.
Proof.
  unfold first_error. cbn [list_find]. destruct (Z.eqb_spec e 0) as [->|He].
  - rewrite decide_False by (intros []; done). by destruct (list_find _ l) as [[??]|].
  - by rewrite decide_True.
Qed.

Lemma first_error_app l1 l2 : first_error (l1 ++ l2) = if first_error l1 =? 0 then first_error l2 else first_error l1.
Proof.
  induction l1 as [|e l1 IH]; [done|]. cbn [app]. rewrite !first_error_cons, IH.
  destruct (Z.eqb_spec e 0) as [->|He]; [done|]. by rewrite (proj2 (Z.eqb_neq e 0)).
Qed.

Definition check_calls (st : St) : list Z :=
  sections ≫= fun i => (fun lane => check_section i (section_layout i lane) st) <$> all_lanes.

Lemma check_lanes_calls todo i j st :
  check_lanes todo i j st = first_error ((fun lane => check_section i (section_layout i lane) st) <$> seqZ j (Z.of_nat todo)).
Proof.
  revert j. induction todo as [|todo IH]; intros j; [done|]. cbn [check_lanes].
  rewrite seqZ_next. cbn [fmap list_fmap]. change (list_fmap _ _ ?f ?l) with (f <$> l).
  rewrite first_error_cons, IH. by destruct (_ =? 0).
Qed.

Lemma lane_check_calls st : 0 <= nlanes pop -> lane_check st = first_error (check_calls st).
Proof.
  intros Hn. unfold lane_check, check_calls, sections. generalize 0%nat as i. generalize MAX_LANE_SECTION as todo.
  induction todo as [|todo IH]; intros i; [done|]. cbn [check_sections seq mbind list_bind].
  change (list_bind _ _ ?f ?l) with (l ≫= f). rewrite first_error_app, check_lanes_calls, Z2Nat.id, IH by done.
  by destruct (_ =? 0).
Qed.

(** ** Properties of opening *)

(** C29: for any operations of the sections, opening the lanes of a pool
    ([pmemobj_boot]) makes exactly these calls of them.  Without memory for the lanes,
    none, and the result is [ENOMEM].  With memory for the lanes and their locks, all
    sections of all lanes are constructed, lane by lane, up to the first one that
    fails: then every section that had been constructed is destructed, once, no other
    one is, the error is returned and the pool has no lanes.  When none fails the pool
    has its lanes, and every section is recovered in all lanes and booted after that,
    before the next section is, up to the first call that fails, whose error is
    returned; the lanes stay constructed then.  Without memory for the locks nothing
    is constructed and the pool has no lanes, and the sections are recovered and booted
    all the same, with the success of that as the result.  Afterwards the check of the
    lanes ([lane_check]) returns the first error of the checks of all sections in all
    lanes, 0 when there is none, and closing ([lane_cleanup]) destructs every section
    of every lane when the pool has its lanes, and has no defined result when it has
    none. *)
Theorem lanes_opened malloc zalloc d st err d' st' :
  0 < nlanes pop ->
  pmemobj_boot malloc zalloc d st = (err, d', st') ->
  match malloc, zalloc with
  | false, _ => err = ENOMEM /\ d_lane d' = false /\ st' = st
  | true, false => d' = mkDesc false 0 false /\ (err, st') = let '(e, _, st1) := until_error recover_calls st in (e, st1)
  | true, true =>
      let '(e, made, st1) := until_error construct_calls st in
      if e =? 0
      then made = construct_calls /\ d' = mkDesc true 0 true /\
           (err, st') = let '(e, _, st2) := until_error recover_calls st1 in (e, st2)
      else err = e /\ d' = mkDesc false 0 false /\
           exists undone, Permutation undone (undo <$> made) /\ st' = run_calls undone st1
  end /\
  lane_check st' = first_error (check_calls st') /\
  lane_cleanup d' st' = if d_lane d' then Some (mkDesc false (d_next d') false, run_calls destruct_calls st') else None.
Proof.
  unfold pmemobj_boot. intros Hn Hb. split_and!; [|apply lane_check_calls; lia|].
  - destruct malloc; [|by injection Hb as <- <- <-]. destruct zalloc.
    + pose proof (lane_boot_calls d st ltac:(lia)) as H. pose proof (until_error_all construct_calls st) as Hall.
      destruct (until_error construct_calls st) as [[e made] st1]. destruct H as (undone & Hp & Hl). rewrite Hl in Hb.
      simpl in Hall. destruct (Z.eqb_spec e 0) as [->|He]; cbn [negb] in Hb.
      * cbn -[lane_recover_and_section_boot] in Hb. rewrite lane_recover_calls in Hb by lia.
        destruct (until_error recover_calls st1) as [[e2 m2] st2]. injection Hb as <- <- <-. by split_and!; [apply Hall|..].
      * cbn in Hb. rewrite (proj2 (Z.eqb_neq e 0)) in Hb by done. injection Hb as <- <- <-. split_and!; [done..|by exists undone].
    + cbn -[lane_recover_and_section_boot] in Hb. rewrite lane_recover_calls in Hb by lia.
      destruct (until_error recover_calls st) as [[e2 m2] st2]. by injection Hb as <- <- <-.
  - unfold lane_cleanup. rewrite (proj2 (Z.eqb_neq (nlanes pop) 0)), orb_false_r by lia. destruct (d_lane d'); [|done].
    by rewrite cleanup_loop_calls, Z2Nat.id by lia.
Qed.

End Open.

(** ** Properties of holding *)

(** C30: lanes are exclusive: however threads interleave in [lane_hold] and
    [lane_release], a thread that holds a lane has its lock, two threads never hold
    the same lane, and releasing never finds the lock taken away. *)
Theorem lanes_exclusive nlanes s :
  0 < nlanes < 2 ^ 32 -> lanes_reach nlanes s ->
  fatal s = false /\
  (forall i, holds (threads s i) -> 0 <= th_idx (threads s i) < nlanes /\ lane_locks s !! Z.to_nat (th_idx (threads s i)) = Some 1) /\
  (forall i j, holds (threads s i) -> holds (threads s j) -> th_idx (threads s i) = th_idx (threads s j) -> i = j).
Proof.
  intros Hn Hr. pose proof (lanes_reach_inv nlanes Hn s Hr) as H. split_and!.
  - apply (la_fatal nlanes s H).
  - intros i Hi. pose proof (la_holds nlanes s H i Hi) as Hl. split; [|done]. pose proof (la_idx nlanes s H i).
    apply lookup_lt_Some in Hl. rewrite (la_length nlanes s H) in Hl. lia.
  - apply (la_excl nlanes s H).
Qed.

(** A thread in [lane_hold] gets a lane when one is free: alone, it holds it
    after at most as many tries as there are lanes. *)
Theorem lane_found nlanes s i k :
  0 < nlanes < 2 ^ 32 -> lanes_reach nlanes s -> th_pc (threads s i) = Search -> lane_locks s !! k = Some 0 ->
  exists n, (n <= Z.to_nat nlanes)%nat /\
    let s' := Nat.iter n (fun s => lane_hold_step nlanes s i) s in
    th_pc (threads s' i) = Outside /\ holds (threads s' i).
Proof.
  intros Hn Hr Hpc Hk. pose proof (lanes_reach_inv nlanes Hn s Hr) as H. pose proof (lookup_lt_Some _ _ _ Hk) as Hlt.
  rewrite (la_length nlanes s H) in Hlt.
  destruct (get_lane_finds nlanes Hn (Z.to_nat nlanes) (lane_locks s) (th_idx (threads s i)) (Z.of_nat k)) as (idx & Hg & _).
  - apply (la_length nlanes s H).
  - lia.
  - by rewrite Nat2Z.id.
  - rewrite Z2Nat.id by lia. apply Z.mod_pos_bound. lia.
  - destruct (search_runs nlanes _ s i _ _ Hpc Hg) as (n & s' & Hle & -> & _ & Ht & _). exists n. split; [done|].
    cbv zeta. rewrite Ht. split; [done|]. split; simpl; [|done]. rewrite (la_search nlanes s H i Hpc). lia.
Qed.

(** ** Examples *)

(** Sections that remember the calls of their operations; the construction of the
    section at [t_fail] fails. *)
Record toy := mkToy { t_calls : list section_call; t_fail : Z }.

Definition remember (c : section_call) (st : toy) : toy := mkToy (t_calls st ++ [c]) (t_fail st).

#[local] Instance toy_ops : SectionOps toy := {|
  construct i l a st := if a =? t_fail st then (ENOMEM, st) else (0, remember (CConstruct i l) st);
  sec_destruct i l st := remember (CDestruct i l) st;
  check_section i a st := 0;
  recover i a st := (0, remember (CRecover i a) st);
  boot i st := (0, remember (CBoot i) st);
|}.

Definition toy_pool : PMEMobjpool := mkPool 0 4096 2 3072 16384 65536 64 77.

(** The construction of the second section of the second lane fails: what has been
    constructed is destructed. *)
Lemma lanes_opened_witness :
  let '(err, d, st) := pmemobj_boot toy_pool true true (mkDesc false 0 false) (mkToy [] (section_layout toy_pool 1 1)) in
  err = ENOMEM /\ d_lane d = false /\
  t_calls st = [CConstruct 0 0; CConstruct 1 0; CConstruct 2 0; CConstruct 0 1;
                CDestruct 0 1; CDestruct 0 0; CDestruct 1 0; CDestruct 2 0]%nat /\
  exists undone, Permutation undone [CDestruct 0 0; CDestruct 1 0; CDestruct 2 0; CDestruct 0 1]%nat.
Proof.
  destruct (lanes_opened toy_pool true true (mkDesc false 0 false) (mkToy [] (section_layout toy_pool 1 1))
    ENOMEM (mkDesc false 0 false) (pmemobj_boot toy_pool true true (mkDesc false 0 false) (mkToy [] (section_layout toy_pool 1 1))).2)
    as [(_ & _ & undone & Hp & _) _]; [reflexivity|vm_compute; reflexivity|].
  split; [reflexivity|]. split; [reflexivity|]. split; [vm_compute; reflexivity|]. exists undone. exact Hp.
Defined.

(** Two lanes, opened and closed. *)
Lemma lanes_closed :
  match lane_cleanup toy_pool (mkDesc true 0 true)
      (pmemobj_boot toy_pool true true (mkDesc false 0 false) (mkToy [] 0)).2 with
  | Some (d, st) => d_lane d = false /\ length (t_calls st) = 21%nat /\
      List.filter (fun c => match c with CBoot _ => true | _ => false end) (t_calls st) = [CBoot 0; CBoot 1; CBoot 2]%nat
  | None => False
  end.
Proof. vm_compute. done. Qed.


(** When the locks cannot be allocated, [lane_boot] says that it has succeeded,
    without lanes. *)
Lemma lane_boot_no_locks {St} `{!SectionOps St} pop d (st : St) :
  lane_boot pop true false d st = (0, mkDesc false 0 false, st).
Proof. reflexivity. Qed.

Inductive lane_act := AHold (i : nat) | ARun (i : nat) | ARelease (i : nat).

(** Threads 0 and 1 of a pool with two lanes, the first one nested. *)
Definition act (n : Z) (s : lanes) (a : lane_act) : lanes :=
  match a with AHold i => lane_hold s i | ARun i => lane_hold_step n s i | ARelease i => lane_release s i end.

Definition busy_lanes : lanes :=
  foldl (act 2) (lanes_start 2)
    [AHold 0; ARun 0; AHold 1; ARun 1; ARun 0; ARun 0; AHold 0; ARun 1; ARun 0; AHold 2; ARun 2; ARun 2; ARelease 0; ARun 1; ARun 2; ARun 1]%nat.

Lemma busy_lanes_reach : lanes_reach 2 busy_lanes.
Proof.
  unfold busy_lanes. cbn [foldl act].
  repeat (first [apply rtc_refl|eapply rtc_r; [|apply step_run]|eapply rtc_r; [|apply step_hold; [vm_compute; reflexivity|vm_compute; reflexivity]]
    |eapply rtc_r; [|apply step_release; [vm_compute; reflexivity|vm_compute; discriminate]]]).
Qed.

Lemma lanes_exclusive_witness :
  fatal busy_lanes = false /\ th_pc (threads busy_lanes 2%nat) = Search /\
  (forall i j, holds (threads busy_lanes i) -> holds (threads busy_lanes j) ->
     th_idx (threads busy_lanes i) = th_idx (threads busy_lanes j) -> i = j).
Proof.
  destruct (lanes_exclusive 2 busy_lanes) as (H1 & _ & H2); [lia|apply busy_lanes_reach|].
  split; [exact H1|]. split; [vm_compute; reflexivity|exact H2].
Defined.

(** Thread 0 gives its lane back, thread 2 looks for one. *)
Lemma lane_found_witness :
  exists n, (n <= 2)%nat /\
    let s' := Nat.iter n (fun s => lane_hold_step 2 s 2%nat) (lane_release busy_lanes 0%nat) in
    th_pc (threads s' 2%nat) = Outside /\ holds (threads s' 2%nat).
Proof.
  apply (lane_found 2 (lane_release busy_lanes 0%nat) 2 0); [lia| |vm_compute; reflexivity|vm_compute; reflexivity].
  eapply rtc_r; [apply busy_lanes_reach|]. apply step_release; [vm_compute; reflexivity|vm_compute; discriminate].
Defined.
