(* ===== verification/Plist.v ===== *)
(** * Atomic lists: [nvml/src/libpmemobj/list.c]

    Circular doubly-linked lists of persistent objects.  An element is named by its
    offset in the pool; its list entry is [pe_offset] bytes from there and has the
    object identifiers of the next and of the previous element, an identifier being
    two words, [pool_uuid_lo] and [off].  The head has the identifier of the first
    element, with offset 0 for an empty list.  An operation collects the words it
    changes in the redo log of its lane and lets the log store them at once.

    [mutex_lock] gives what [pmemobj_mutex_lock] returns for a lock, which depends on
    other threads.  [section] is the list section of the lane that is held, the
    offset [obj_offset] followed by the redo log.  The allocator is not modelled:
    [list_insert_new_link] is [list_insert_new] after the allocation,
    [list_remove_free_unlink] is [list_remove_free] before the object is freed, and
    [lane_list_recovery] returns the object that recovery frees. *)

From S2P Require Import Prelude Pmem Programs Redo.

Local Open Scope pmtest_scope.

(** Offsets of the words of [struct list_entry] and [struct list_head]. *)
Definition NEXT_OFF : Z := 8.
Definition PREV_OFF : Z := 24.
Definition sizeof_list_entry : Z := 32.
Definition POBJ_LIST_DEST_HEAD : Z := 1.

Definition next_word (entry_ptr : Z) : Z := entry_ptr + NEXT_OFF.
Definition prev_word (entry_ptr : Z) : Z := entry_ptr + PREV_OFF.
Definition next_uuid (entry_ptr : Z) : Z := entry_ptr.
Definition prev_uuid (entry_ptr : Z) : Z := entry_ptr + 16.
Definition first_word (head : Z) : Z := head + 8.
Definition first_uuid (head : Z) : Z := head.
Definition head_lock (head : Z) : Z := head + 16.

Record list_args_common := mkCommon { c_pe_offset : Z; c_obj_doffset : Z; c_entry_ptr : Z }.
Record list_args_insert := mkInsert { i_head : Z; i_dest : Z; i_dest_entry_ptr : Z; i_before : bool }.
Record list_args_remove := mkRemove { r_pe_offset : Z; r_obj_doffset : Z; r_head : Z; r_entry_ptr : Z }.

(** The calls on locks, in order. *)
Inductive lock_call := Lock (lock : Z) | Unlock (lock : Z).

Definition list_mutexes_lock (mutex_lock : Z -> Z) (head1 head2 : Z) : Z * list lock_call :=
  if (head2 =? 0) || (head1 =? head2) then (mutex_lock (head_lock head1), [Lock (head_lock head1)])
  else
    let '(lock1, lock2) :=
      if head_lock head1 <? head_lock head2 then (head_lock head1, head_lock head2)
      else (head_lock head2, head_lock head1) in
    let ret := mutex_lock lock1 in
    if negb (ret =? 0) then (ret, [Lock lock1])
    else
      let ret := mutex_lock lock2 in
      if negb (ret =? 0) then (ret, [Lock lock1; Lock lock2; Unlock lock1])
      else (0, [Lock lock1; Lock lock2]).

Section List.
Context (pop : PMEMobjpool) (mutex_lock : Z -> Z).

Definition list_get_dest (head dest pe_offset : Z) (before : bool) : prog Z :=
  if negb (dest =? 0) then ret dest
  else
    let! first := read (first_word head) in
    if (first =? 0) || (Z.b2z before =? POBJ_LIST_DEST_HEAD) then ret first
    else read (prev_word (off_to_ptr pop (u64 (first + pe_offset)))).

(** [oidp] is the address of the identifier. *)
Definition list_set_oid_redo_log (redo redo_index oidp obj_doffset : Z) (oidp_inited : bool) : prog Z :=
  check (OBJ_PTR_IS_VALID pop oidp);;
  let! uuid := read oidp in
  let! redo_index :=
    (if negb oidp_inited || negb (uuid =? uuid_lo pop) then
       check (negb oidp_inited || (uuid =? 0));;
       redo_log_store redo redo_index (OBJ_PTR_TO_OFF pop oidp) (uuid_lo pop);;
       ret (redo_index + 1)
     else ret redo_index) in
  redo_log_store redo redo_index (OBJ_PTR_TO_OFF pop (oidp + 8)) obj_doffset;;
  ret (redo_index + 1).

Definition list_update_head (redo redo_index head first_offset : Z) : prog Z :=
  redo_log_store redo redo_index (OBJ_PTR_TO_OFF pop (first_word head)) first_offset;;
  let! uuid := read (first_uuid head) in
  if uuid =? 0 then
    redo_log_store redo (redo_index + 1) (OBJ_PTR_TO_OFF pop (first_uuid head)) (uuid_lo pop);;
    ret (redo_index + 2)
  else ret (redo_index + 1).

Definition u64_add_offset (value off : Z) : prog Z :=
  if 0 <=? off then check (value <=? u64 (value + off));; ret (u64 (value + off))
  else check (u64 (value + off) <? value);; ret (u64 (value + off)).

Definition list_fill_entry_persist (entry_ptr next_offset prev_offset : Z) : prog unit :=
  store (next_uuid entry_ptr) (uuid_lo pop);;
  store (next_word entry_ptr) next_offset;;
  store (prev_uuid entry_ptr) (uuid_lo pop);;
  store (prev_word entry_ptr) prev_offset;;
  persist entry_ptr sizeof_list_entry.

Definition list_fill_entry_redo_log (redo redo_index : Z) (args : list_args_common)
    (next_offset prev_offset : Z) (set_uuid : bool) : prog Z :=
  check (negb (c_entry_ptr args =? 0));;
  check (negb (c_obj_doffset args =? 0));;
  (if set_uuid then
     store (next_uuid (c_entry_ptr args)) (uuid_lo pop);;
     store (prev_uuid (c_entry_ptr args)) (uuid_lo pop);;
     persist (c_entry_ptr args) sizeof_list_entry
   else
     let! n := read (next_uuid (c_entry_ptr args)) in
     check (n =? uuid_lo pop);;
     let! p := read (prev_uuid (c_entry_ptr args)) in
     check (p =? uuid_lo pop));;
  let! next_off_off := u64_add_offset (u64 (c_obj_doffset args + NEXT_OFF)) (c_pe_offset args) in
  let! prev_off_off := u64_add_offset (u64 (c_obj_doffset args + PREV_OFF)) (c_pe_offset args) in
  redo_log_store redo redo_index next_off_off next_offset;;
  redo_log_store redo (redo_index + 1) prev_off_off prev_offset;;
  ret (redo_index + 2).

Definition list_remove_single (redo redo_index : Z) (args : list_args_remove) : prog Z :=
  let! next_off := read (next_word (r_entry_ptr args)) in
  if next_off =? r_obj_doffset args then
    let! first := read (first_word (r_head args)) in
    check (first =? r_obj_doffset args);;
    let! prev_off := read (prev_word (r_entry_ptr args)) in
    check (prev_off =? r_obj_doffset args);;
    list_update_head redo redo_index (r_head args) 0
  else
    let! next_prev_off := u64_add_offset (u64 (next_off + PREV_OFF)) (r_pe_offset args) in
    let! prev_off := read (prev_word (r_entry_ptr args)) in
    let! prev_next_off := u64_add_offset (u64 (prev_off + NEXT_OFF)) (r_pe_offset args) in
    redo_log_store redo redo_index next_prev_off prev_off;;
    redo_log_store redo (redo_index + 1) prev_next_off next_off;;
    let! first := read (first_word (r_head args)) in
    if first =? r_obj_doffset args then list_update_head redo (redo_index + 2) (r_head args) next_off
    else ret (redo_index + 2).

(** The new index, and the offsets for the new entry. *)
Definition list_insert_before (redo redo_index : Z) (args : list_args_insert) (args_common : list_args_common)
  : prog (Z * Z * Z) :=
  let! prev_offset := read (prev_word (i_dest_entry_ptr args)) in
  let! dest_prev_off := u64_add_offset (u64 (i_dest args + PREV_OFF)) (c_pe_offset args_common) in
  let! dest_prev_next_off := u64_add_offset (u64 (prev_offset + NEXT_OFF)) (c_pe_offset args_common) in
  redo_log_store redo redo_index dest_prev_off (c_obj_doffset args_common);;
  redo_log_store redo (redo_index + 1) dest_prev_next_off (c_obj_doffset args_common);;
  ret (redo_index + 2, i_dest args, prev_offset).

Definition list_insert_after (redo redo_index : Z) (args : list_args_insert) (args_common : list_args_common)
  : prog (Z * Z * Z) :=
  let! next_offset := read (next_word (i_dest_entry_ptr args)) in
  let! dest_next_off := u64_add_offset (u64 (i_dest args + NEXT_OFF)) (c_pe_offset args_common) in
  let! dest_next_prev_off := u64_add_offset (u64 (next_offset + PREV_OFF)) (c_pe_offset args_common) in
  redo_log_store redo redo_index dest_next_off (c_obj_doffset args_common);;
  redo_log_store redo (redo_index + 1) dest_next_prev_off (c_obj_doffset args_common);;
  ret (redo_index + 2, next_offset, i_dest args).

Definition list_insert_user (redo redo_index : Z) (args : list_args_insert) (args_common : list_args_common)
  : prog (Z * Z * Z) :=
  if i_dest args =? 0 then
    let! first := read (first_word (i_head args)) in
    check (first =? 0);;
    let! redo_index := list_update_head redo redo_index (i_head args) (c_obj_doffset args_common) in
    ret (redo_index, c_obj_doffset args_common, c_obj_doffset args_common)
  else if i_before args then
    let! r := list_insert_before redo redo_index args args_common in
    let! first := read (first_word (i_head args)) in
    if i_dest args =? first then
      let! redo_index := list_update_head redo (r.1.1) (i_head args) (c_obj_doffset args_common) in
      ret (redo_index, r.1.2, r.2)
    else ret r
  else list_insert_after redo redo_index args args_common.

(** [section->redo]. *)
Definition section_redo (section : Z) : Z := section + 8.

(** [(ssize_t)x >= 0] for a [size_t]. *)
Definition ssize_nonneg (x : Z) : bool := x <? 2 ^ 63.

(** [list_insert_new] once [section->obj_offset] is the new object; [oidp] is 0
    for a null pointer. *)
Definition list_insert_new_link (section pe_offset user_head dest : Z) (before : bool) (oidp : Z) : prog unit :=
  let redo := section_redo section in
  let! obj_doffset := read section in
  check (ssize_nonneg pe_offset);;
  let! dest := list_get_dest user_head dest pe_offset before in
  let entry_ptr := off_to_ptr pop (u64 (obj_doffset + pe_offset)) in
  let args := mkInsert user_head dest (off_to_ptr pop (u64 (dest + pe_offset))) before in
  let args_common := mkCommon pe_offset obj_doffset entry_ptr in
  let! r := list_insert_user redo 0 args args_common in
  list_fill_entry_persist entry_ptr (r.1.2) (r.2);;
  let! redo_index :=
    (if negb (oidp =? 0) then
       if OBJ_PTR_IS_VALID pop oidp then list_set_oid_redo_log redo (r.1.1) oidp obj_doffset false
       else store (oidp + 8) obj_doffset;; store oidp (uuid_lo pop);; ret (r.1.1)
     else ret (r.1.1)) in
  redo_log_store_last redo redo_index (OBJ_PTR_TO_OFF pop section) 0;;
  redo_log_process pop redo REDO_NUM_ENTRIES.

Definition list_insert (section pe_offset head dest : Z) (before : bool) (oid : Z) : prog Z :=
  check (negb (head =? 0));;
  let lock := mutex_lock (head_lock head) in
  if negb (lock =? 0) then ret lock
  else
    let redo := section_redo section in
    let! dest := list_get_dest head dest pe_offset before in
    let args := mkInsert head dest (off_to_ptr pop (u64 (dest + pe_offset))) before in
    let args_common := mkCommon pe_offset oid (off_to_ptr pop (u64 (oid + pe_offset))) in
    let! r := list_insert_user redo 0 args args_common in
    let! redo_index := list_fill_entry_redo_log redo (r.1.1) args_common (r.1.2) (r.2) true in
    redo_log_set_last redo (redo_index - 1);;
    redo_log_process pop redo REDO_NUM_ENTRIES;;
    ret 0.

(** [list_remove_free] up to the call of [pfree] on [section->obj_offset]. *)
Definition list_remove_free_unlink (section pe_offset user_head oidp : Z) : prog unit :=
  let redo := section_redo section in
  let! obj_doffset := read (oidp + 8) in
  check (ssize_nonneg pe_offset);;
  let entry_ptr := off_to_ptr pop (u64 (obj_doffset + pe_offset)) in
  let! redo_index := list_remove_single redo 0 (mkRemove pe_offset obj_doffset user_head entry_ptr) in
  let! redo_index :=
    (if OBJ_PTR_IS_VALID pop oidp then list_set_oid_redo_log redo redo_index oidp 0 true
     else store (oidp + 8) 0;; ret redo_index) in
  redo_log_store_last redo redo_index (OBJ_PTR_TO_OFF pop section) obj_doffset;;
  redo_log_process pop redo REDO_NUM_ENTRIES.

Definition list_remove (section pe_offset head oid : Z) : prog Z :=
  check (negb (head =? 0));;
  let lock := mutex_lock (head_lock head) in
  if negb (lock =? 0) then ret lock
  else
    let redo := section_redo section in
    let entry_ptr := off_to_ptr pop (u64 (oid + pe_offset)) in
    let! redo_index := list_remove_single redo 0 (mkRemove pe_offset oid head entry_ptr) in
    let! redo_index := list_fill_entry_redo_log redo redo_index (mkCommon pe_offset oid entry_ptr) 0 0 false in
    redo_log_set_last redo (redo_index - 1);;
    redo_log_process pop redo REDO_NUM_ENTRIES;;
    ret 0.

Definition list_move (section pe_offset_old head_old pe_offset_new head_new dest : Z) (before : bool) (oid : Z)
  : prog Z :=
  check (negb (head_old =? 0));;
  check (negb (head_new =? 0));;
  let lock := (list_mutexes_lock mutex_lock head_new head_old).1 in
  if negb (lock =? 0) then ret lock
  else
    let redo := section_redo section in
    let finish redo_index :=
      (redo_log_set_last redo (redo_index - 1);; redo_log_process pop redo REDO_NUM_ENTRIES;; ret 0) in
    let! dest := list_get_dest head_new dest pe_offset_new before in
    let entry_ptr_old := off_to_ptr pop (u64 (oid + pe_offset_old)) in
    let entry_ptr_new := off_to_ptr pop (u64 (oid + pe_offset_new)) in
    let dest_entry_ptr := off_to_ptr pop (u64 (dest + pe_offset_new)) in
    let move :=
      check (ssize_nonneg pe_offset_old);;
      check (ssize_nonneg pe_offset_new);;
      let! redo_index := list_remove_single redo 0 (mkRemove pe_offset_old oid head_old entry_ptr_old) in
      let args_common := mkCommon pe_offset_new oid entry_ptr_new in
      let! r := list_insert_user redo redo_index (mkInsert head_new dest dest_entry_ptr before) args_common in
      let! redo_index := list_fill_entry_redo_log redo (r.1.1) args_common (r.1.2) (r.2)
        (negb (pe_offset_new =? pe_offset_old)) in
      finish redo_index in
    if head_old =? head_new then
      if dest =? oid then ret 0
      else
        let! dest_prev := read (prev_word dest_entry_ptr) in
        let! dest_next := read (next_word dest_entry_ptr) in
        let! first := read (first_word head_old) in
        if before && (dest_prev =? oid) then
          if negb (first =? dest) then ret 0
          else let! redo_index := list_update_head redo 0 head_old oid in finish redo_index
        else if negb before && (dest_next =? oid) then
          if negb (first =? oid) then ret 0
          else
            let! next := read (next_word entry_ptr_old) in
            let! redo_index := list_update_head redo 0 head_old next in finish redo_index
        else move
    else move.

Definition lane_list_recovery (section : Z) : prog (option Z) :=
  redo_log_recover pop (section_redo section) REDO_NUM_ENTRIES;;
  let! obj_offset := read section in
  ret (if negb (obj_offset =? 0) then Some obj_offset else None).

Definition lane_list_check (section : Z) (m : pmem) : option Z :=
  ret ← redo_log_check pop (section_redo section) REDO_NUM_ENTRIES m;
  if negb (ret =? 0) then Some ret
  else
    let obj_offset := pm_read m section in
    if negb (obj_offset =? 0) && negb (OBJ_OFF_FROM_HEAP pop obj_offset) then Some (-1) else Some 0.

End List.
