(* ===== verification/PlistLog.v ===== *)
(** * Programs that fill a redo log

    The functions of [list.c] store the entries of the redo log one by one, and in
    between some words of an element that is not yet on a list, which they make
    durable without the log.  [yields] is a Hoare triple for such programs: from a
    log with the entries [es] they return a value and leave the entries [es'].
    [commit_atomic] and [commit_done] say what the log makes of these entries and
    of the words stored without it. *)

From stdpp Require Import relations gmap.
From S2P Require Import Prelude Pmem Programs Redo RedoProofs.

Local Open Scope pmtest_scope.

(** The words of [W] over those of [f]. *)
Definition over (W : gmap Z Z) (f : Z -> Z) (x : Z) : Z := default (f x) (W !! x).

Section Logging.
Context (pop : PMEMobjpool) (redo : Z).

Local Abbreviation N := 63%nat.
Local Abbreviation log_area := (log_area redo N).
Local Abbreviation entry := (Z * Z)%type.

(** [ops], from [m] on, have stored the entries [es] and otherwise only words of
    [W]; with [d], these have their values in [W] and are durable. *)
Record logged (W : gmap Z Z) (m : pmem) (d : bool) (ops : list pm_op) (es : list entry) : Prop := {
  lg_store x v : Store x v ∈ ops -> log_area x \/ is_Some (W !! x);
  lg_even i v : (i < N)%nat -> Store (redo_offset redo (Z.of_nat i)) v ∈ ops -> even v;
  lg_at : log_at (pm_read (run ops m)) redo es;
  lg_len : (length es <= N)%nat;
  lg_set x v : d = true -> W !! x = Some v -> pm_read (run ops m) x = v /\ pm_durable (run ops m) x;
}.

Section Triples.
Context (W : gmap Z Z) (m : pmem).
Context (HW : forall x, is_Some (W !! x) -> ~ log_area x).

Definition yields {A} (d : bool) (es : list entry) (p : prog A) (x : A) (d' : bool) (es' : list entry) : Prop :=
  forall ops, logged W m d ops es ->
  exists ops', p (run ops m) = Some (x, ops') /\ logged W m d' (ops ++ ops') es'.

Lemma yields_bind {A B} (p : prog A) (f : A -> prog B) x y d d1 d2 es es1 es2 :
  yields d es p x d1 es1 -> yields d1 es1 (f x) y d2 es2 -> yields d es (bind p f) y d2 es2.
Proof using Type.
  intros Hp Hf ops H. destruct (Hp ops H) as (o1 & E1 & H1). destruct (Hf _ H1) as (o2 & E2 & H2).
  exists (o1 ++ o2). rewrite run_app in E2. split; [by eapply bind_Some|by rewrite app_assoc].
Qed.

Lemma yields_pure {A} (p : prog A) x d es :
  (forall ops, logged W m d ops es -> p (run ops m) = Some (x, [])) -> yields d es p x d es.
Proof using Type. intros Hp ops H. exists []. split; [by apply Hp|by rewrite app_nil_r]. Qed.

Lemma yields_ret {A} (x : A) d es : yields d es (ret x) x d es.
Proof using Type. by apply yields_pure. Qed.

Lemma yields_check b d es : b = true -> yields d es (check b) tt d es.
Proof using Type. intros ->. by apply yields_pure. Qed.

Lemma logged_read d ops es x :
  logged W m d ops es -> ~ log_area x -> W !! x = None -> pm_read (run ops m) x = pm_read m x.
Proof using Type.
  intros H Hx HWx. apply no_store_read. intros v Hv.
  destruct (lg_store _ _ _ _ _ H x v Hv) as [|[? ?]]; congruence.
Qed.

Lemma yields_read x d es : ~ log_area x -> W !! x = None -> yields d es (read x) (pm_read m x) d es.
Proof using Type.
  intros Hx HWx. apply yields_pure. intros ops H. unfold read. by rewrite (logged_read d ops es).
Qed.

(** Stores that leave the entries and the words of [W] alone. *)
Lemma logged_quiet d ops ops' es :
  logged W m d ops es ->
  (forall x v, Store x v ∈ ops' -> (exists i, (length es <= i < N)%nat /\
     (x = redo_offset redo (Z.of_nat i) /\ even v \/ x = redo_value redo (Z.of_nat i)))) ->
  logged W m d (ops ++ ops') es.
Proof using HW.
  intros H Hops.
  assert (Hns : forall x, (forall i, (length es <= i < N)%nat ->
      x <> redo_offset redo (Z.of_nat i) /\ x <> redo_value redo (Z.of_nat i)) -> no_store x ops').
  { intros x Hx v (i & Hi & Hor)%Hops. destruct (Hx i Hi). naive_solver. }
  assert (Ha : forall i x, (i < N)%nat -> x = redo_offset redo (Z.of_nat i) \/ x = redo_value redo (Z.of_nat i) ->
    log_area x).
  { intros i x Hi [->| ->]; [by apply off_word_area|by apply val_word_area]. }
  split; [| | |apply H|].
  - intros x v [Hv|Hv]%elem_of_app; [by eapply lg_store|left].
    destruct (Hops x v Hv) as (i & Hi & Hor). apply (Ha i); [lia|naive_solver].
  - intros i v Hi [Hv|Hv]%elem_of_app; [by eapply lg_even|].
    destruct (Hops _ v Hv) as (j & Hj & [[_ ?]|Hor]); [done|].
    unfold redo_offset, redo_value, sizeof_redo_log in Hor. lia.
  - intros i e He. pose proof (lookup_lt_Some _ _ _ He) as Hlt. rewrite run_app.
    rewrite !(no_store_read ops'); [by apply (lg_at _ _ _ _ _ H)|..];
      apply Hns; intros j Hj; unfold redo_offset, redo_value, sizeof_redo_log; lia.
  - intros x v Hd Hx. destruct (lg_set _ _ _ _ _ H x v Hd Hx) as [Hr Hdu]. rewrite run_app.
    assert (Hn : no_store x ops').
    { apply Hns. intros i Hi. assert (Hl : ~ log_area x) by (apply HW; by eexists).
      split; intros E; apply Hl, (Ha i); [lia|by left|lia|by right]. }
    split; [by rewrite (no_store_read ops')|by apply no_store_durable].
Qed.

Lemma yields_store off v d es :
  even off -> (length es < N)%nat ->
  yields d es (redo_log_store redo (Z.of_nat (length es)) off v) tt d (es ++ [(off, v)]).
Proof using HW.
  intros He Hlen ops H. set (i := length es) in *.
  exists [Store (redo_offset redo (Z.of_nat i)) off; Store (redo_value redo (Z.of_nat i)) v]. split.
  - unfold redo_log_store, bind, check. unfold even in He. rewrite He. simpl.
    rewrite (proj2 (Z.ltb_lt _ _)); [done|]. change REDO_NUM_ENTRIES with 63. lia.
  - assert (Hq : logged W m d (ops ++ [Store (redo_offset redo (Z.of_nat i)) off;
      Store (redo_value redo (Z.of_nat i)) v]) es).
    { apply logged_quiet; [done|]. intros x w Hx. exists i. split; [lia|].
      rewrite !elem_of_cons, elem_of_nil in Hx. naive_solver. }
    split; [apply Hq..| |rewrite length_app; simpl; lia|apply Hq].
    intros j e [Hj|[Hj1 Hj2]]%lookup_app_Some; [by apply (lg_at _ _ _ _ _ Hq)|].
    destruct (j - length es)%nat eqn:Ej; [|done]. injection Hj2 as <-.
    assert (j = i) as -> by (unfold i; lia). rewrite run_app. simpl. rewrite pm_read_store_eq.
    rewrite pm_read_store_ne by (unfold redo_offset, redo_value, sizeof_redo_log; lia).
    by rewrite pm_read_store_eq.
Qed.

(** Storing the words of [W]: [p] stores only them and leaves them durable. *)
Lemma yields_words (p : prog unit) ops' d es :
  (forall m', p m' = Some (tt, ops')) ->
  (forall x v, Store x v ∈ ops' -> is_Some (W !! x)) ->
  (forall x v m', W !! x = Some v -> pm_read (run ops' m') x = v /\ pm_durable (run ops' m') x) ->
  yields d es p tt true es.
Proof using HW.
  intros Hp Hs Hr ops H. exists ops'. split; [apply Hp|].
  assert (Hns : forall x, log_area x -> no_store x ops').
  { intros x Hx v Hv. by apply (HW x); [eapply Hs|]. }
  split.
  - intros x v [Hv|Hv]%elem_of_app; [by eapply lg_store|right; by eapply Hs].
  - intros i v Hi [Hv|Hv]%elem_of_app; [by eapply lg_even|].
    exfalso. by apply (Hns _ (off_word_area redo N i Hi) v).
  - intros i e He. pose proof (lookup_lt_Some _ _ _ He). pose proof (lg_len _ _ _ _ _ H).
    rewrite run_app, !(no_store_read ops'); [by apply (lg_at _ _ _ _ _ H)|..];
      apply Hns; [apply val_word_area|apply off_word_area]; lia.
  - apply H.
  - intros x v _ Hx. rewrite run_app. by apply Hr.
Qed.

End Triples.

Lemma logged_nil W m d : (d = true -> W = ∅) -> logged W m d [] [].
Proof.
  intros Hd. split; try done; try (intros *; rewrite elem_of_nil; done); [simpl; lia|].
  intros x v ->%Hd. by rewrite lookup_empty.
Qed.

(** ** Committing *)

Section Commit.
Context (W : gmap Z Z) (m : pmem) (ops pre : list pm_op) (es : list entry).
Context (Hm : no_flags redo N m) (Hok : Forall (entry_ok pop redo N) es).
Context (Hne : es <> []) (Hlen : (length es <= N)%nat).
Context (es0 : list entry) (Hlg : logged W m true ops es0).
Context (Hpre : prepares redo N pre (run ops m) es).

Lemma logged_no_flags : no_flags redo N (run ops m).
Proof using Hm Hlg. intros i v Hi [Hv|Hv]%run_cand; [by apply (Hm i)|by eapply lg_even]. Qed.

Lemma logged_cand k x v :
  ~ log_area x -> W !! x = None -> v ∈ cand (run (take k ops) m) x -> v ∈ cand m x.
Proof using Hlg.
  intros Hx HWx. apply no_store_cand, no_store_take. intros w Hw.
  destruct (lg_store _ _ _ _ _ Hlg x w Hw) as [|[? ?]]; congruence.
Qed.

Lemma commit_atomic k image :
  pm_crash (run (take k (ops ++ update_ops pop redo pre es)) m) image ->
  exists start f, pm_crash m start /\ recovers_to pop redo N image f /\
    ((forall x, ~ log_area x -> W !! x = None -> f x = start x) \/
     (forall x, ~ log_area x -> f x = apply pop es (over W start) x)).
Proof.
  set (pick g x := if decide (log_area x \/ is_Some (W !! x)) then c_durable (m x) else g x : Z).
  assert (Hpick : forall g x, ~ log_area x -> W !! x = None -> pick g x = g x).
  { intros g x Hx HWx. unfold pick. rewrite decide_False; [done|]. intros [|[? ?]]; congruence. }
  assert (Hcrash : forall g, (forall x, ~ log_area x -> W !! x = None -> g x ∈ cand m x) -> pm_crash m (pick g)).
  { intros g Hg x. unfold pick. case_decide as E; [left|]. apply Hg; [tauto|].
    destruct (W !! x); [|done]. destruct E. right. by eexists. }
  destruct (take_app_cases k ops (update_ops pop redo pre es)) as [->|[j ->]]; intros Hc.
  { exists (pick image), image. split_and!.
    - apply Hcrash. intros x Hx HWx. by apply (logged_cand k), Hc.
    - right. split; [|done]. intros i Hi. destruct (run_cand _ _ _ _ (Hc (redo_offset redo (Z.of_nat i)))) as [Hv|Hv].
      + by apply (Hm i).
      + apply elem_of_take in Hv as (n & Hn & _). eapply (lg_even _ _ _ _ _ Hlg i); [done|].
        by eapply list_elem_of_lookup_2.
    - left. intros x Hx HWx. by rewrite Hpick. }
  rewrite run_app in Hc.
  destruct (update_crash pop redo N pre (run ops m) es Hpre logged_no_flags Hok Hne Hlen j image Hc)
    as (start & Hs & Hr).
  assert (Hpk : pm_crash m (pick start)).
  { apply Hcrash. intros x Hx HWx. apply (logged_cand (length ops)); [done..|]. rewrite firstn_all. apply Hs. }
  destruct Hr as [Hr|Hr]; eexists (pick start), _; (split; [done|split; [exact Hr|]]).
  - left. intros x Hx HWx. by rewrite Hpick.
  - right. intros x Hx. unfold apply. f_equal. unfold over. destruct (W !! x) as [v|] eqn:E; simpl.
    + destruct (lg_set _ _ _ _ _ Hlg x v eq_refl E) as [<- Hd]. by apply durable_image.
    + by rewrite Hpick.
Qed.

Lemma commit_done :
  let m' := run (ops ++ update_ops pop redo pre es) m in
  (forall x, ~ log_area x -> pm_read m' x = apply pop es (over W (pm_read m)) x) /\
  (forall x, ~ log_area x -> target pop es x \/ is_Some (W !! x) \/ pm_durable m x -> pm_durable m' x) /\
  no_flags redo N m'.
Proof.
  destruct (update_done pop redo N pre (run ops m) es Hpre logged_no_flags Hok Hne Hlen) as (Hr & Hd & Hnf).
  cbv zeta. rewrite run_app. split_and!; [| |done].
  - intros x Hx. rewrite Hr by done. unfold apply. f_equal. unfold over.
    destruct (W !! x) as [v|] eqn:E; simpl; [by apply (lg_set _ _ _ _ _ Hlg)|].
    by eapply logged_read.
  - intros x Hlx Hx. destruct (decide (is_Some (new_value pop es x))) as [|Ht]; [by apply Hd|].
    apply no_store_durable; [by apply (update_no_store pop redo N pre (run ops m) es Hpre)|].
    destruct (W !! x) as [v|] eqn:E; [by apply (lg_set _ _ _ _ _ Hlg x v)|].
    destruct Hx as [|[[? ?]|Hx]]; [done..|]. apply no_store_durable; [|done]. intros v Hv.
    destruct (lg_store _ _ _ _ _ Hlg x v Hv) as [|[? ?]]; congruence.
Qed.

End Commit.

(** ** The two ways to end *)

Lemma logged_prepares_set_last W m ops es :
  logged W m true ops es -> prepares redo N [] (run ops m) es.
Proof.
  intros H. split; try (intros *; rewrite elem_of_nil; done); intros i e He; [intros _|];
    by apply (lg_at _ _ _ _ _ H).
Qed.

Lemma logged_prepares_store_last W m ops es e :
  logged W m true ops es -> (length es < N)%nat ->
  prepares redo N [Store (redo_value redo (Z.of_nat (length es))) (e.2)] (run ops m) (es ++ [e]).
Proof.
  intros H Hlt. pose proof (lg_at _ _ _ _ _ H) as Hat.
  split; try (intros *; rewrite list_elem_of_singleton; intros [= -> ->]).
  - apply val_word_area. lia.
  - intros i v Hi Hin%list_elem_of_singleton. exfalso. injection Hin as E _.
    unfold redo_offset, redo_value, sizeof_redo_log in E. lia.
  - intros i e' He Hi. rewrite length_app in Hi. simpl in Hi. rewrite lookup_app_l in He by lia. simpl.
    rewrite pm_read_store_ne by (unfold redo_offset, redo_value, sizeof_redo_log; lia). by apply Hat.
  - intros i e' [He|[Hi He]]%lookup_app_Some; simpl.
    + pose proof (lookup_lt_Some _ _ _ He).
      rewrite pm_read_store_ne by (unfold redo_value, sizeof_redo_log; lia). by apply Hat.
    + destruct (i - length es)%nat eqn:Ei; [|done]. injection He as ->.
      assert (i = length es) as -> by lia. by rewrite pm_read_store_eq.
Qed.

(** ** Atomic changes

    [p] returns [r] and turns a memory with [old] into one with [new]; it changes
    only words of [T], which are durable when it returns.  After a crash of [p] at
    any point, and any number of crashes of recovery, recovery succeeds and the
    memory has [old] or [new]; the other words are as a crash before [p] could have
    left them. *)
Definition atomic_change {A} (p : prog A) (r : A) (m : pmem) (T : Z -> Prop) (old new : (Z -> Z) -> Prop) : Prop :=
  (exists m', exec p m = Some (r, m') /\ new (pm_read m') /\ no_flags redo N m' /\
    (forall x, ~ log_area x -> ~ T x -> pm_read m' x = pm_read m x) /\
    (forall x, ~ log_area x -> T x \/ pm_durable m x -> pm_durable m' x)) /\
  (forall image image', crash_image p m image -> rtc (recovery_crash pop redo N) image image' ->
   exists ops, redo_log_check pop redo REDO_NUM_ENTRIES (pm_boot image') = Some 0 /\
    redo_log_recover pop redo REDO_NUM_ENTRIES (pm_boot image') = Some (tt, ops) /\
    let m' := run ops (pm_boot image') in
    (forall x, pm_durable m' x) /\ clean redo N (pm_read m') /\
    (old (pm_read m') \/ new (pm_read m')) /\
    (forall x, ~ log_area x -> ~ T x -> pm_read m' x ∈ cand m x)).

Lemma atomic_change_eq {A} (p q : prog A) r m T old new :
  p m = q m -> atomic_change q r m T old new -> atomic_change p r m T old new.
Proof. intros E. unfold atomic_change, exec, crash_image. by rewrite E. Qed.

(** [p] logs the entries [es] and commits them. *)
Definition finishes (W : gmap Z Z) (m : pmem) {A} (d : bool) (es : list entry) (p : prog A) (r : A)
    (es' : list entry) : Prop :=
  forall ops, logged W m d ops es -> exists ops' pre es0,
    p (run ops m) = Some (r, ops' ++ update_ops pop redo pre es') /\
    logged W m true (ops ++ ops') es0 /\ prepares redo N pre (run (ops ++ ops') m) es'.

Lemma finishes_bind W m {A B} (p : prog A) (f : A -> prog B) x y d d1 es es1 es2 :
  yields W m d es p x d1 es1 -> finishes W m d1 es1 (f x) y es2 -> finishes W m d es (bind p f) y es2.
Proof.
  intros Hp Hf ops H. destruct (Hp ops H) as (o1 & E1 & H1).
  destruct (Hf _ H1) as (o2 & pre & es0 & E2 & H2 & H3). exists (o1 ++ o2), pre, es0.
  rewrite run_app in E2. rewrite !(app_assoc ops). split; [|done]. rewrite <- app_assoc. by eapply bind_Some.
Qed.

Section Finish.
Context (W : gmap Z Z) (m : pmem) (Hm : no_flags redo N m).

Lemma finishes_set_last es i : es <> [] -> Forall (entry_ok pop redo N) es -> i = Z.of_nat (length es) ->
  finishes W m true es (redo_log_set_last redo (i - 1);; redo_log_process pop redo REDO_NUM_ENTRIES;; ret 0) 0 es.
Proof using Hm.
  intros Hne Hok -> ops H. pose proof (logged_prepares_set_last _ _ _ _ H) as Hpre.
  exists [], [], es. rewrite app_nil_r. split; [|done]. pose proof (lg_len _ _ _ _ _ H) as Hlen.
  destruct (exists_last Hne) as (es0 & e & ->). rewrite length_app in *. simpl in Hlen.
  assert (Hc : (redo_log_set_last redo (Z.of_nat (length es0));; redo_log_process pop redo (Z.of_nat N))
    (run [] (run ops m)) = Some (tt, persist_ops redo (es0 ++ [e]) ++ flag_ops redo (es0 ++ [e]) ++
      process_ops pop redo (es0 ++ [e]))).
  { apply commit_set_last_runs with (N := N); try done; try lia; [|by eapply logged_no_flags|].
    - unfold last_word. rewrite length_app, Nat.add_1_r. simpl. apply (lg_at _ _ _ _ _ H).
      by rewrite lookup_app_r, Nat.sub_diag.
    - change REDO_NUM_ENTRIES with 63. lia. }
  change (Z.of_nat N) with REDO_NUM_ENTRIES in Hc. simpl run in Hc. unfold update_ops. simpl app at 1.
  replace (Z.of_nat (length es0 + length [e]) - 1) with (Z.of_nat (length es0)) by (simpl; lia).
  unfold bind in Hc |- *. destruct (redo_log_set_last _ _ _) as [[[] o1]|]; [|done]. simpl in *.
  destruct (redo_log_process _ _ _ _) as [[[] o2]|]; [|done]. simpl in *. injection Hc as <-.
  by rewrite app_nil_r.
Qed.

Lemma finishes_store_last es i off v :
  Forall (entry_ok pop redo N) (es ++ [(off, v)]) -> i = Z.of_nat (length es) -> (length es < N)%nat ->
  finishes W m true es (redo_log_store_last redo i off v;; redo_log_process pop redo REDO_NUM_ENTRIES) tt
    (es ++ [(off, v)]).
Proof using Hm.
  intros Hok -> Hlen ops H. pose proof (logged_prepares_store_last _ _ _ _ (off, v) H Hlen) as Hpre.
  exists [], [Store (redo_value redo (Z.of_nat (length es))) v], es. rewrite app_nil_r.
  split; [|done]. apply (commit_store_last_runs pop redo N [] es (off, v)); try done.
  - by eapply logged_no_flags.
  - change REDO_NUM_ENTRIES with 63. lia.
Qed.

(** Committed entries are an atomic change. *)
Lemma finishes_atomic {A} (p : prog A) r d es T (old new : (Z -> Z) -> Prop) :
  finishes W m d [] p r es -> (d = true -> W = ∅) -> es <> [] -> Forall (entry_ok pop redo N) es -> (length es <= N)%nat ->
  (forall x, target pop es x \/ is_Some (W !! x) -> T x) ->
  (forall x, T x -> target pop es x \/ is_Some (W !! x) \/ pm_durable m x) ->
  (forall start f, pm_crash m start -> (forall x, ~ log_area x -> W !! x = None -> f x = start x) -> old f) ->
  (forall start f, pm_crash m start -> (forall x, ~ log_area x -> f x = apply pop es (over W start) x) -> new f) ->
  atomic_change p r m T old new.
Proof using Hm.
  intros Hp HWd Hne Hok Hlen HT HTd Hold Hnew.
  destruct (Hp [] (logged_nil W m d HWd)) as (ops & pre & es0 & E & H & Hpre). simpl in *.
  assert (Hkeep : forall start x, ~ T x -> apply pop es (over W start) x = start x).
  { intros start x Hx. rewrite apply_other by (intros Ht; by apply Hx, HT; left). unfold over.
    destruct (W !! x) eqn:EW; [|done]. destruct Hx. apply HT. right. by eexists. }
  split.
  - destruct (commit_done W m ops pre es Hm Hok Hne Hlen es0 H Hpre) as (Hr & Hd & Hnf).
    eexists. split; [unfold exec; by rewrite E|]. split_and!; [|done|..].
    + apply (Hnew (pm_read m)); [intros x; apply read_cand|done].
    + intros x Hx HTx. by rewrite Hr, Hkeep.
    + intros x Hx [HTx|Hdx]; apply Hd; auto.
  - intros image image' (r' & ops' & k & E' & Hc) Hrec. rewrite E in E'. injection E' as <- <-.
    destruct (commit_atomic W m ops pre es Hm Hok Hne Hlen es0 H Hpre k image Hc) as (start & f & Hs & Hf & Hor).
    destruct (recovers pop redo N image' f) as (o & H1 & H2 & H3 & H4 & H5); [by eapply recovers_to_steps|].
    exists o. cbv zeta. split_and!; try done.
    + destruct Hor as [Ho|Ho]; [left; apply (Hold start); [done|]|right; apply (Hnew start); [done|]];
        intros x Hx; [intros HWx|]; rewrite H3 by done; by apply Ho.
    + intros x Hx HTx. rewrite H3 by done. destruct Hor as [Ho|Ho]; [|rewrite Ho, Hkeep by done; apply Hs].
      rewrite Ho; [apply Hs|done|]. destruct (W !! x) eqn:EW; [|done]. destruct HTx. apply HT. right. by eexists.
Qed.

(** A program that does nothing. *)
Lemma noop_atomic {A} (p : prog A) r T (P : (Z -> Z) -> Prop) :
  p m = Some (r, []) -> (forall x, T x -> pm_durable m x) ->
  (forall start f, pm_crash m start -> (forall x, ~ log_area x -> f x = start x) -> P f) ->
  atomic_change p r m T P P.
Proof using Hm.
  intros Hp HT HP. split.
  - exists m. unfold exec. rewrite Hp. split_and!; try done; [|by intros x Hx [?%HT|]].
    apply (HP (pm_read m)); [intros x; apply read_cand|done].
  - intros image image' (r' & ops' & k & E & Hc) Hrec. rewrite Hp in E. injection E as <- <-.
    rewrite take_nil in Hc.
    destruct (recovers pop redo N image' image) as (o & H1 & H2 & H3 & H4 & H5).
    { eapply recovers_to_steps; [|exact Hrec]. right. split; [|done]. intros i Hi. apply (Hm i); [done|apply Hc]. }
    exists o. cbv zeta. split_and!; try done; [left; apply (HP image); [done|apply H3]|].
    intros x Hx _. rewrite H3 by done. apply Hc.
Qed.

End Finish.

End Logging.
