(* ===== verification/PlistRing.v ===== *)
(** * Rings of elements

    What a circular doubly-linked list is, apart from where its words are: [cyc]
    relates an element of a list to the one that follows it, the last one to the
    first; a memory is a [ring] when the links agree with it.  The lemmas say which
    links insertion and removal have to change. *)

From stdpp Require Import sets.
From S2P Require Import Prelude.

(** [a] is directly before [b]. *)
Definition adj (l : list Z) (a b : Z) : Prop := exists u v, l = u ++ a :: b :: v.

Definition cyc (os : list Z) (a b : Z) : Prop :=
  adj os a b \/ (last os = Some a /\ head os = Some b).

(** ** The operations on lists of elements *)

(** [oid] before or after [dest]. *)
Fixpoint place (os : list Z) (dest : Z) (before : bool) (oid : Z) : list Z :=
  match os with
  | [] => []
  | o :: os' =>
      if o =? dest then if before then oid :: o :: os' else o :: oid :: os'
      else o :: place os' dest before oid
  end.

(** With the destination 0, at the beginning or at the end. *)
Definition inserted (os : list Z) (dest : Z) (before : bool) (oid : Z) : list Z :=
  if dest =? 0 then if before then oid :: os else os ++ [oid] else place os dest before oid.

Definition removed (os : list Z) (oid : Z) : list Z := filter (fun o => o <> oid) os.

(** ** Adjacent elements *)

Lemma adj_nil a b : ~ adj [] a b.
Proof. intros ([|] & v & [=]). Qed.

Lemma adj_cons c l a b : adj (c :: l) a b <-> (c = a /\ head l = Some b) \/ adj l a b.
Proof.
  split.
  - intros ([|c' u] & v & [= -> ->]); [by left|right]. by exists u, v.
  - intros [[-> H]|(u & v & ->)]; [|by exists (c :: u), v].
    destruct l as [|b' l]; [done|]. injection H as ->. by exists [], l.
Qed.

Lemma adj_app l1 l2 a b :
  adj (l1 ++ l2) a b <-> adj l1 a b \/ adj l2 a b \/ (last l1 = Some a /\ head l2 = Some b).
Proof.
  induction l1 as [|c l1 IH]; simpl.
  { split; [tauto|]. intros [H|[H|[H _]]]; [by apply adj_nil in H|done|done]. }
  rewrite !adj_cons, IH. destruct l1 as [|c' l1]; simpl; [|tauto].
  split; [intros [[-> H]|[H|[H|[[=] _]]]]; auto|].
  intros [[[_ [=]]|H]|[H|[[= ->] H]]]; auto.
Qed.

Lemma adj_elem l a b : adj l a b -> a ∈ l /\ b ∈ l.
Proof. intros (u & v & ->). set_solver. Qed.

Lemma adj_ends l a b : NoDup l -> adj l a b -> last l <> Some a /\ head l <> Some b.
Proof.
  intros Hn (u & v & ->). rewrite NoDup_app in Hn. destruct Hn as (_ & Hu & Hn).
  apply NoDup_cons in Hn as [Ha Hn]. split.
  - rewrite last_app_cons. simpl. intros Hl. apply Ha.
    change (last (b :: v) = Some a) in Hl. by apply last_Some_elem_of.
  - destruct u as [|c u]; simpl; intros [= ->]; [set_solver|]. apply (Hu b); set_solver.
Qed.

Lemma cyc_rotate l1 l2 a b : cyc (l1 ++ l2) a b -> cyc (l2 ++ l1) a b.
Proof.
  destruct (decide (l1 = [])) as [->|H1]; [by rewrite app_nil_r|].
  destruct (decide (l2 = [])) as [->|H2]; [by rewrite app_nil_r|].
  unfold cyc. rewrite !adj_app.
  destruct (exists_last H1) as (u1 & z1 & ->), (exists_last H2) as (u2 & z2 & ->).
  rewrite !app_assoc, !last_snoc.
  destruct u1, u2; simpl in *; tauto.
Qed.

Lemma cyc_elem os a b : cyc os a b -> a ∈ os /\ b ∈ os.
Proof.
  intros [H|[H1 H2]]; [by apply adj_elem|].
  split; [by apply last_Some_elem_of|by apply head_Some_elem_of].
Qed.

(** Every element has neighbours. *)
Lemma cyc_around os o : o ∈ os -> exists n p, cyc os o n /\ cyc os p o.
Proof.
  intros (l1 & l2 & ->)%list_elem_of_split.
  assert (H : forall l, exists n p, cyc (o :: l) o n /\ cyc (o :: l) p o).
  { intros l. destruct (decide (l = [])) as [->|Hl].
    - exists o, o. split; by right.
    - destruct (exists_last Hl) as (u & z & ->). exists (default o (head (u ++ [z]))), z. split.
      + left. apply adj_cons. left. split; [done|]. by destruct u.
      + right. by rewrite app_comm_cons, last_snoc. }
  destruct (H (l2 ++ l1)) as (n & p & Hn & Hp). exists n, p.
  by split; apply (cyc_rotate (o :: l2) l1).
Qed.

Lemma elem_swap (c : Z) l1 l2 : c ∈ l2 ++ l1 -> c ∈ l1 ++ l2.
Proof. rewrite !elem_of_app. tauto. Qed.
Lemma elem_mid (c : Z) l1 o l2 : c ∈ l1 ++ l2 -> c ∈ l1 ++ o :: l2.
Proof. rewrite !elem_of_app, elem_of_cons. tauto. Qed.

(** ** Links in memory *)

Section Ring.
Context (nxt prv : Z -> Z).

Definition ring (f : Z -> Z) (os : list Z) : Prop :=
  forall a b, cyc os a b -> f (nxt a) = b /\ f (prv b) = a.

Lemma ring_rotate f l1 l2 : ring f (l1 ++ l2) -> ring f (l2 ++ l1).
Proof. intros H a b Hc. by apply H, cyc_rotate. Qed.

Lemma ring_closes f os h t : ring f os -> head os = Some h -> last os = Some t ->
  f (nxt t) = h /\ f (prv h) = t.
Proof. intros H Hh Ht. apply H. by right. Qed.

Lemma ring_single g o : g (nxt o) = o -> g (prv o) = o -> ring g [o].
Proof.
  intros H1 H2 a b [H|[[= <-] [= <-]]]; [|done].
  apply adj_cons in H as [[_ [=]]|H]. by apply adj_nil in H.
Qed.

(** The links that stay. *)
Definition links_kept (f g : Z -> Z) (os : list Z) (h t : Z) : Prop :=
  forall c, c ∈ os -> (c <> t -> g (nxt c) = f (nxt c)) /\ (c <> h -> g (prv c) = f (prv c)).

Lemma links_kept_adj f g os h t a b :
  NoDup os -> ring f os -> head os = Some h -> last os = Some t -> links_kept f g os h t ->
  adj os a b -> g (nxt a) = b /\ g (prv b) = a.
Proof.
  intros Hn Hr Hh Ht Hk Hab. destruct (adj_ends os a b Hn Hab) as [H1 H2].
  destruct (adj_elem _ _ _ Hab) as [Ha Hb]. destruct (Hr a b) as [E1 E2]; [by left|].
  split; [rewrite (proj1 (Hk a Ha)) by congruence|rewrite (proj2 (Hk b Hb)) by congruence]; done.
Qed.

Lemma ring_insert f g l1 l2 o h t :
  NoDup (l2 ++ l1) -> ring f (l1 ++ l2) -> head (l2 ++ l1) = Some h -> last (l2 ++ l1) = Some t ->
  links_kept f g (l2 ++ l1) h t ->
  g (nxt t) = o -> g (prv o) = t -> g (nxt o) = h -> g (prv h) = o ->
  ring g (l1 ++ o :: l2).
Proof.
  intros Hn Hr%ring_rotate Hh Ht Hk G1 G2 G3 G4.
  apply (ring_rotate g (o :: l2) l1), (ring_rotate g (l2 ++ l1) [o]).
  intros a b [H|[H1 H2]].
  - apply adj_app in H as [H|[H|[H1 H2]]].
    + by eapply links_kept_adj.
    + apply adj_cons in H as [[_ [=]]|H]. by apply adj_nil in H.
    + rewrite Ht in H1. injection H1 as <-. injection H2 as <-. done.
  - rewrite last_snoc in H1. injection H1 as <-.
    destruct (l2 ++ l1); [done|]. simpl in *. assert (h = b) as -> by congruence. done.
Qed.

Lemma ring_remove f g l1 l2 o h t :
  NoDup (o :: l2 ++ l1) -> ring f (l1 ++ o :: l2) ->
  head (l2 ++ l1) = Some h -> last (l2 ++ l1) = Some t ->
  links_kept f g (l2 ++ l1) h t -> g (nxt t) = h -> g (prv h) = t ->
  ring g (l1 ++ l2).
Proof.
  intros [_ Hn]%NoDup_cons Hr Hh Ht Hk G1 G2.
  apply (ring_rotate g l2 l1). apply ring_rotate in Hr.
  intros a b [H|[H1 H2]].
  - destruct (adj_ends _ a b Hn H) as [Ha Hb]. destruct (adj_elem _ _ _ H) as [Ha' Hb'].
    destruct (Hr a b) as [E1 E2]; [left; apply adj_cons; by right|].
    split; [rewrite (proj1 (Hk a Ha'))|rewrite (proj2 (Hk b Hb'))]; congruence.
  - rewrite Ht in H1. rewrite Hh in H2. injection H1 as <-. injection H2 as <-. done.
Qed.

(** The neighbours of an element that is not alone. *)
Lemma ring_around f l1 l2 o h t :
  ring f (l1 ++ o :: l2) -> head (l2 ++ l1) = Some h -> last (l2 ++ l1) = Some t ->
  f (nxt o) = h /\ f (prv o) = t.
Proof.
  intros Hr%ring_rotate Hh Ht. split; apply Hr.
  - left. apply adj_cons. left. done.
  - right. split; [|done]. by rewrite <- app_comm_cons, last_cons, Ht.
Qed.

End Ring.

(** ** Where an element goes *)

(** The destination that [list_get_dest] finds. *)
Definition resolved (os : list Z) (dest : Z) (before : bool) : Z :=
  if dest =? 0 then default 0 (if before then head os else last os) else dest.

Lemma resolved_at os dest before : dest <> 0 -> resolved os dest before = dest.
Proof. intros H. unfold resolved. by rewrite (proj2 (Z.eqb_neq dest 0)). Qed.

Lemma inserted_split os dest before oid :
  os <> [] -> dest = 0 \/ dest ∈ os ->
  exists l1 l2, os = l1 ++ l2 /\ inserted os dest before oid = l1 ++ oid :: l2 /\
    (if before then head l2 else last l1) = Some (resolved os dest before).
Proof.
  intros Hne Hd. unfold inserted, resolved. destruct (Z.eqb_spec dest 0) as [->|Hnz].
  - destruct before; [exists [], os|exists os, []; rewrite app_nil_r]; (split; [done|split; [done|]]).
    + by destruct os.
    + destruct (exists_last Hne) as (u & z & ->). by rewrite last_snoc.
  - destruct Hd as [|Hd]; [done|]. clear Hne. induction os as [|o os IH]; [by apply elem_of_nil in Hd|].
    simpl. destruct (Z.eqb_spec o dest) as [->|Ho].
    + destruct before; [by exists [], (dest :: os)|by exists [dest], os].
    + destruct IH as (l1 & l2 & -> & -> & H); [by apply elem_of_cons in Hd as [|]; [congruence|]|].
      exists (o :: l1), l2. split_and!; [done..|]. destruct before; [done|].
      rewrite last_cons. by rewrite H.
Qed.

Lemma removed_absent os oid : oid ∉ os -> removed os oid = os.
Proof.
  unfold removed. induction os as [|o os IH]; [done|]. intros [Ho Hin]%not_elem_of_cons.
  rewrite filter_cons_True by congruence. by rewrite IH.
Qed.

Lemma removed_split os oid :
  NoDup os -> oid ∈ os -> exists l1 l2, os = l1 ++ oid :: l2 /\ removed os oid = l1 ++ l2.
Proof.
  intros Hn (l1 & l2 & ->)%list_elem_of_split. exists l1, l2. split; [done|].
  apply NoDup_app in Hn as (_ & H1 & [H2 _]%NoDup_cons). unfold removed.
  rewrite filter_app, filter_cons_False by (intros H; by apply H).
  fold (removed l1 oid) (removed l2 oid). rewrite !removed_absent; [done..|].
  intros Hx. apply (H1 oid Hx). left.
Qed.

Lemma elem_of_inserted os dest before oid c : c ∈ inserted os dest before oid -> c ∈ oid :: os.
Proof.
  unfold inserted. destruct (dest =? 0); [destruct before; set_solver|].
  induction os as [|o os IH]; simpl; [set_solver|].
  destruct (o =? dest); [destruct before|]; set_solver.
Qed.

Lemma elem_of_removed os oid c : c ∈ removed os oid -> c <> oid /\ c ∈ os.
Proof. unfold removed. by rewrite list_elem_of_filter. Qed.

Lemma head_default (os : list Z) x : x ∈ os -> default 0 (head os) = x -> head os = Some x.
Proof. destruct os as [|o os]; [by intros ?%elem_of_nil|]. simpl. congruence. Qed.

(** ** Moving within a list *)

(** [d] is where the element goes, before or after it; 0 does not occur. *)
Definition moved (os : list Z) (d : Z) (before : bool) (oid : Z) : list Z :=
  if d =? oid then os else place (removed os oid) d before oid.

Lemma place_app l1 l2 d before oid : d ∉ l1 ->
  place (l1 ++ d :: l2) d before oid = l1 ++ (if before then oid :: d :: l2 else d :: oid :: l2).
Proof.
  induction l1 as [|c l1 IH]; simpl; [by rewrite Z.eqb_refl|]. intros [Hc Hin]%not_elem_of_cons.
  rewrite (proj2 (Z.eqb_neq c d)) by congruence. by rewrite IH.
Qed.

Lemma removed_mid l1 oid l2 : NoDup (l1 ++ oid :: l2) -> removed (l1 ++ oid :: l2) oid = l1 ++ l2.
Proof.
  intros Hn. destruct (removed_split _ oid Hn) as (u & v & E & ->); [set_solver|].
  assert (H : u = l1 /\ v = l2); [|by destruct H as [-> ->]].
  apply NoDup_app in Hn as (_ & H1 & [H2 _]%NoDup_cons).
  revert u E. clear -H1 H2. induction l1 as [|c l1 IH]; intros [|c' u] E; simpl in *.
  - by injection E.
  - injection E as <- ->. destruct H2. set_solver.
  - injection E as -> _. destruct (H1 oid); set_solver.
  - injection E as -> E. destruct (IH ltac:(set_solver) u E) as [-> ->]. done.
Qed.

(** The element is already where it should be, or the list only turns. *)
Lemma moved_before os d oid : NoDup os -> d <> oid -> cyc os oid d ->
  (head os <> Some d /\ moved os d true oid = os) \/
  (exists l, os = d :: l ++ [oid] /\ moved os d true oid = oid :: d :: l).
Proof.
  intros Hn Hne [Ha|[Hl Hh]]; unfold moved; rewrite (proj2 (Z.eqb_neq d oid)) by done.
  - left. split; [by apply (adj_ends _ oid d Hn Ha)|]. destruct Ha as (u & v & ->).
    rewrite removed_mid by done. rewrite place_app; [done|].
    apply NoDup_app in Hn as (_ & Hu & _). intros Hd. apply (Hu d Hd). set_solver.
  - right. destruct os as [|d' os]; [done|]. injection Hh as ->.
    destruct (decide (os = [])) as [->|Hos]; [simpl in Hl; congruence|].
    destruct (exists_last Hos) as (l & z & ->). rewrite app_comm_cons, last_snoc in Hl. injection Hl as ->.
    exists l. split; [done|]. rewrite app_comm_cons, removed_mid, app_nil_r by (by rewrite <- app_comm_cons).
    simpl. by rewrite Z.eqb_refl.
Qed.

Lemma moved_after os d oid : NoDup os -> d <> oid -> cyc os d oid ->
  (head os <> Some oid /\ moved os d false oid = os) \/
  (exists l, os = oid :: l ++ [d] /\ moved os d false oid = l ++ [d; oid]).
Proof.
  intros Hn Hne [Ha|[Hl Hh]]; unfold moved; rewrite (proj2 (Z.eqb_neq d oid)) by done.
  - left. split; [by apply (adj_ends _ d oid Hn Ha)|]. destruct Ha as (u & v & ->).
    rewrite (cons_middle d), app_assoc, removed_mid by (by rewrite <- app_assoc). rewrite <- !app_assoc. simpl.
    rewrite place_app; [done|].
    apply NoDup_app in Hn as (_ & Hu & _). intros Hd. apply (Hu d Hd). set_solver.
  - right. destruct os as [|o' os]; [done|]. injection Hh as ->.
    destruct (decide (os = [])) as [->|Hos]; [simpl in Hl; congruence|].
    destruct (exists_last Hos) as (l & z & ->). rewrite app_comm_cons, last_snoc in Hl. injection Hl as ->.
    exists l. split; [done|]. pose proof (removed_mid [] oid (l ++ [d]) Hn) as E. simpl in E. rewrite E.
    apply place_app. apply NoDup_cons in Hn as [_ Hn]. apply NoDup_app in Hn as (_ & Hd & _).
    intros Hin. apply (Hd d Hin). set_solver.
Qed.
