(* ===== verification/PlistProofs.v ===== *)
(** * Atomicity of the list operations

    The functions of [list.c] read the links around the place where they work and
    log the words they change; [remove_entries], [insert_entries] and
    [fill_entries] are what they log, as functions of the memory.  With the lemmas
    on rings these entries turn the representation of a list, [dlist], into that of
    the changed list, and the redo log makes the change atomic. *)

From stdpp Require Import relations gmap sets.
From S2P Require Import Prelude Pmem Programs Redo RedoProofs Plist PlistLog PlistRing.

Local Open Scope pmtest_scope.

(** ** Words *)

Lemma even_mod o : even o <-> o mod 2 = 0.
Proof. unfold even, REDO_FINISH_FLAG. change 1 with (Z.ones 1). by rewrite Z.land_ones by lia. Qed.

Lemma even_add o k : even o -> k mod 2 = 0 -> even (o + k).
Proof. rewrite !even_mod. intros H1 H2. by rewrite Z.add_mod, H1, H2 by lia. Qed.

(** [f] with one word changed. *)
Definition upd (f : Z -> Z) (w v : Z) (x : Z) : Z := if x =? w then v else f x.

Lemma upd_eq f w v : upd f w v w = v.
Proof. unfold upd. by rewrite Z.eqb_refl. Qed.
Lemma upd_ne f w v x : x <> w -> upd f w v x = f x.
Proof. intros H. unfold upd. by rewrite (proj2 (Z.eqb_neq _ _) H). Qed.

Lemma apply_cons pop e l f x :
  apply pop (e :: l) f x = apply pop l (upd f (off_to_ptr pop (e.1)) (e.2)) x.
Proof.
  unfold apply. induction l as [|e' l IH] using rev_ind.
  - unfold new_value, upd. simpl. by destruct (x =? _).
  - rewrite app_comm_cons, !new_value_snoc. by destruct (x =? _).
Qed.

Lemma apply_app pop l1 l2 f x : apply pop (l1 ++ l2) f x = apply pop l2 (apply pop l1 f) x.
Proof.
  unfold apply. induction l2 as [|e l2 IH] using rev_ind; [by rewrite app_nil_r|].
  rewrite app_assoc, !new_value_snoc. by destruct (x =? _).
Qed.

Lemma apply_ext pop l f g x : f x = g x -> apply pop l f x = apply pop l g x.
Proof. unfold apply. by intros ->. Qed.

(** Decides the equations between words. *)
Ltac eval_words :=
  repeat match goal with
  | |- context [?x =? ?y] =>
      first [rewrite (Z.eqb_refl x) | rewrite (proj2 (Z.eqb_neq x y)) by lia | rewrite (proj2 (Z.eqb_eq x y)) by lia]
  end.
Ltac unfold_words :=
  unfold next_word, prev_word, next_uuid, prev_uuid, first_word, first_uuid, NEXT_OFF, PREV_OFF,
    sizeof_list_entry in *.

Section Lists.
Context (pop : PMEMobjpool) (section : Z).

Local Abbreviation redo := (section_redo section).
Local Abbreviation N := 63%nat.
Local Abbreviation log_area := (log_area redo N).

(** The list entry of the element at [o]. *)
Definition ent (pe o : Z) : Z := addr pop + o + pe.

(** [n] bytes at [a] that the log does not use. *)
Definition off_log (a n : Z) : Prop := a + n <= redo \/ redo + 1008 <= a.

(** The entry of an element is in the pool, aligned, and not in the log. *)
Record entry_fits (pe o : Z) : Prop := {
  ef_addr : 0 < addr pop;
  ef_off : 0 < o /\ o + sizeof_list_entry <= 2 ^ 64;
  ef_ent : 0 <= o + pe /\ addr pop + o + pe + sizeof_list_entry <= 2 ^ 64;
  ef_even : even (o + pe);
  ef_next : redo_log_check_offset pop (o + pe + NEXT_OFF) = true;
  ef_prev : redo_log_check_offset pop (o + pe + PREV_OFF) = true;
  ef_log : off_log (ent pe o) sizeof_list_entry;
}.

Record head_fits (head : Z) : Prop := {
  hf_addr : 0 < addr pop <= head;
  hf_ptr : head + 16 <= 2 ^ 64;
  hf_even : even (head - addr pop);
  hf_uuid : redo_log_check_offset pop (head - addr pop) = true;
  hf_first : redo_log_check_offset pop (head - addr pop + 8) = true;
  hf_log : off_log head 16;
}.

Lemma off_log_word a n x : off_log a n -> a <= x < a + n -> ~ log_area x.
Proof. unfold off_log, RedoProofs.log_area, sizeof_redo_log. lia. Qed.

(** *** The entries *)

Definition head_entries (f : Z -> Z) (head v : Z) : list (Z * Z) :=
  (head - addr pop + 8, v) ::
  (if f (first_uuid head) =? 0 then [(head - addr pop, uuid_lo pop)] else []).

Definition remove_entries (f : Z -> Z) (pe head o : Z) : list (Z * Z) :=
  let n := f (next_word (ent pe o)) in
  let p := f (prev_word (ent pe o)) in
  if n =? o then head_entries f head 0
  else [(n + pe + PREV_OFF, p); (p + pe + NEXT_OFF, n)] ++
    (if f (first_word head) =? o then head_entries f head n else []).

Definition insert_entries (f : Z -> Z) (pe head dest : Z) (before : bool) (o : Z) : list (Z * Z) :=
  if dest =? 0 then head_entries f head o
  else if before then
    [(dest + pe + PREV_OFF, o); (f (prev_word (ent pe dest)) + pe + NEXT_OFF, o)] ++
    (if dest =? f (first_word head) then head_entries f head o else [])
  else [(dest + pe + NEXT_OFF, o); (f (next_word (ent pe dest)) + pe + PREV_OFF, o)].

(** The next and the previous element of the new one. *)
Definition insert_links (f : Z -> Z) (pe dest : Z) (before : bool) (o : Z) : Z * Z :=
  if dest =? 0 then (o, o)
  else if before then (dest, f (prev_word (ent pe dest)))
  else (f (next_word (ent pe dest)), dest).

Definition fill_entries (pe o n p : Z) : list (Z * Z) :=
  [(o + pe + NEXT_OFF, n); (o + pe + PREV_OFF, p)].

Lemma entry_ptr_eq pe o : entry_fits pe o -> off_to_ptr pop (u64 (o + pe)) = ent pe o.
Proof.
  intros [? [? ?] [? ?] _ _ _ _]. unfold off_to_ptr, ent, sizeof_list_entry in *.
  rewrite (u64_small (o + pe)), u64_small by lia. lia.
Qed.

Lemma word_ptr_eq pe o k : entry_fits pe o -> 0 <= k < 32 -> off_to_ptr pop (o + pe + k) = ent pe o + k.
Proof.
  intros [? [? ?] [? ?] _ _ _ _] Hk. unfold off_to_ptr, ent, sizeof_list_entry in *.
  rewrite u64_small by lia. lia.
Qed.

Lemma head_ptr_eq head k : head_fits head -> 0 <= k < 16 -> off_to_ptr pop (head - addr pop + k) = head + k.
Proof. intros [? ? _ _ _ _] Hk. unfold off_to_ptr. rewrite u64_small by lia. lia. Qed.

Lemma head_off_eq head k : head_fits head -> 0 <= k < 16 -> OBJ_PTR_TO_OFF pop (head + k) = head - addr pop + k.
Proof. intros [? ? _ _ _ _] Hk. unfold OBJ_PTR_TO_OFF. rewrite u64_small by lia. lia. Qed.

Lemma entry_word_ok pe o k v : entry_fits pe o -> k = NEXT_OFF \/ k = PREV_OFF ->
  entry_ok pop redo N (o + pe + k, v).
Proof.
  intros H Hk. unfold NEXT_OFF, PREV_OFF in Hk. split_and!; simpl.
  - apply even_add; [apply H|by destruct Hk as [->| ->]].
  - rewrite (word_ptr_eq pe o) by (done || lia). eapply off_log_word; [apply (ef_log _ _ H)|].
    unfold sizeof_list_entry. lia.
  - destruct Hk as [->| ->]; [apply (ef_next _ _ H)|apply (ef_prev _ _ H)].
Qed.

Lemma head_entries_ok f head v : head_fits head -> Forall (entry_ok pop redo N) (head_entries f head v).
Proof.
  intros H. unfold head_entries. apply Forall_cons_2; [split_and!; simpl|].
  - apply even_add; [apply H|done].
  - rewrite (head_ptr_eq head) by (done || lia). eapply off_log_word; [apply (hf_log _ H)|lia].
  - apply (hf_first _ H).
  - destruct (_ =? 0); [|done]. apply Forall_singleton. split_and!; simpl; [apply H| |apply H].
    rewrite <- (Z.add_0_r (_ - _)), (head_ptr_eq head) by (done || lia).
    eapply off_log_word; [apply (hf_log _ H)|lia].
Qed.

(** *** Running the functions *)

Section Run.
Context (W : gmap Z Z) (m : pmem).
Context (HW : forall x, is_Some (W !! x) -> ~ log_area x).

Local Abbreviation f := (pm_read m).
Local Abbreviation yields := (yields redo W m).

(** The entry can be read: none of its words is stored without the log. *)
Definition entry_quiet (pe o : Z) : Prop :=
  entry_fits pe o /\ forall k, 0 <= k < sizeof_list_entry -> W !! (ent pe o + k) = None.
Definition head_quiet (head : Z) : Prop :=
  head_fits head /\ forall k, 0 <= k < 16 -> W !! (head + k) = None.

Lemma yields_entry_read pe o k d es : entry_quiet pe o -> 0 <= k < sizeof_list_entry ->
  yields d es (read (ent pe o + k)) (f (ent pe o + k)) d es.
Proof using Type.
  intros [H Hq] Hk. apply yields_read; [|by apply Hq].
  eapply off_log_word; [apply (ef_log _ _ H)|lia].
Qed.

Lemma yields_head_read head k d es : head_quiet head -> 0 <= k < 16 ->
  yields d es (read (head + k)) (f (head + k)) d es.
Proof using Type.
  intros [H Hq] Hk. apply yields_read; [|by apply Hq]. eapply off_log_word; [apply (hf_log _ H)|lia].
Qed.

Lemma yields_head_uuid head d es : head_quiet head -> yields d es (read head) (f head) d es.
Proof using Type. intros H. pose proof (yields_head_read head 0 d es H). rewrite Z.add_0_r in *. auto with lia. Qed.

Lemma yields_add_offset pe o k d es : entry_fits pe o -> k = NEXT_OFF \/ k = PREV_OFF ->
  yields d es (u64_add_offset (u64 (o + k)) pe) (o + pe + k) d es.
Proof using Type.
  intros [? [? ?] [? ?] _ _ _ _] Hk. unfold NEXT_OFF, PREV_OFF, sizeof_list_entry in *.
  apply yields_pure. intros ops _. unfold u64_add_offset.
  rewrite (u64_small (o + k)), u64_small by lia.
  replace (o + k + pe) with (o + pe + k) by lia. unfold bind, check, ret.
  destruct (Z.leb_spec 0 pe); [rewrite (proj2 (Z.leb_le _ _)) by lia|rewrite (proj2 (Z.ltb_lt _ _)) by lia]; done.
Qed.

Lemma yields_entry_store pe o k v d es i : entry_fits pe o -> k = NEXT_OFF \/ k = PREV_OFF ->
  i = Z.of_nat (length es) -> (length es < N)%nat ->
  yields d es (redo_log_store redo i (o + pe + k) v) tt d (es ++ [(o + pe + k, v)]).
Proof using HW.
  intros H Hk -> Hlen. apply yields_store; [done| |done]. by apply (entry_word_ok pe o k v H Hk).
Qed.

Lemma yields_to {A} (p : prog A) x x' d d' es es1 es2 :
  yields d es p x d' es1 -> x = x' -> es1 = es2 -> yields d es p x' d' es2.
Proof using Type. by intros ? -> ->. Qed.

Lemma yields_update_head head v d es i :
  head_quiet head -> i = Z.of_nat (length es) -> (length es + 2 <= N)%nat ->
  yields d es (list_update_head pop redo i head v) (Z.of_nat (length (es ++ head_entries f head v))) d
    (es ++ head_entries f head v).
Proof using HW.
  intros Hh -> Hlen. pose proof (proj1 Hh) as Hf.
  pose proof (entry_ok_even _ _ _ _ (head_entries_ok f head v Hf)) as Hev.
  unfold list_update_head, head_entries, first_word, first_uuid in *. rewrite (head_off_eq head 8) by (done || lia).
  apply Forall_cons in Hev as [Hev1 Hev2].
  eapply yields_bind; [apply yields_store; [done|done|lia]|].
  eapply yields_bind; [by apply yields_head_uuid|].
  destruct (f head =? 0) eqn:E.
  - apply Forall_cons in Hev2 as [Hev2 _].
    replace (OBJ_PTR_TO_OFF pop head) with (head - addr pop)
      by (pose proof (head_off_eq head 0 Hf ltac:(lia)) as E0; rewrite Z.add_0_r in E0; lia).
    eapply yields_bind.
    + replace (Z.of_nat (length es) + 1) with (Z.of_nat (length (es ++ [(head - addr pop + 8, v)])))
        by (rewrite length_app; simpl; lia).
      apply yields_store; [done|done|rewrite length_app; simpl; lia].
    + eapply yields_to; [apply yields_ret| |by rewrite <- app_assoc]. rewrite length_app. simpl. lia.
  - eapply yields_to; [apply yields_ret| |done]. rewrite length_app. simpl. lia.
Qed.

(** Two entries one after the other. *)
Lemma yields_two_stores pe1 o1 k1 v1 pe2 o2 k2 v2 {A} (p : prog A) x d d' es es' i :
  entry_fits pe1 o1 -> k1 = NEXT_OFF \/ k1 = PREV_OFF -> entry_fits pe2 o2 -> k2 = NEXT_OFF \/ k2 = PREV_OFF ->
  i = Z.of_nat (length es) -> (length es + 2 <= N)%nat ->
  yields d (es ++ [(o1 + pe1 + k1, v1); (o2 + pe2 + k2, v2)]) p x d' es' ->
  yields d es (redo_log_store redo i (o1 + pe1 + k1) v1;;
    redo_log_store redo (i + 1) (o2 + pe2 + k2) v2;; p) x d' es'.
Proof using HW.
  intros H1 Hk1 H2 Hk2 -> Hlen Hp.
  eapply yields_bind; [apply yields_entry_store; (done || lia)|].
  eapply yields_bind; [apply yields_entry_store; try done; rewrite length_app; simpl; lia|].
  by rewrite <- app_assoc.
Qed.

Definition neighbours_fit (pe o : Z) : Prop :=
  entry_fits pe (f (next_word (ent pe o))) /\ entry_fits pe (f (prev_word (ent pe o))).

Lemma yields_remove_single pe head o d es i :
  entry_quiet pe o -> head_quiet head -> neighbours_fit pe o ->
  (f (next_word (ent pe o)) = o -> f (first_word head) = o /\ f (prev_word (ent pe o)) = o) ->
  i = Z.of_nat (length es) -> (length es + 4 <= N)%nat ->
  yields d es (list_remove_single pop redo i (mkRemove pe o head (ent pe o)))
    (Z.of_nat (length (es ++ remove_entries f pe head o))) d (es ++ remove_entries f pe head o).
Proof using HW.
  intros Hq Hh [Hn Hp] Halone -> Hlen. unfold list_remove_single, remove_entries. cbn [r_entry_ptr r_obj_doffset r_head r_pe_offset].
  assert (Hrn : yields d es (read (next_word (ent pe o))) (f (next_word (ent pe o))) d es) by (by apply yields_entry_read).
  assert (Hrp : yields d es (read (prev_word (ent pe o))) (f (prev_word (ent pe o))) d es) by (by apply yields_entry_read).
  assert (Hrh : forall es, yields d es (read (first_word head)) (f (first_word head)) d es)
    by (intros; apply yields_head_read; (done || lia)).
  eapply yields_bind; [exact Hrn|]. destruct (Z.eqb_spec (f (next_word (ent pe o))) o) as [E|E].
  - destruct (Halone E) as [E1 E2].
    eapply yields_bind; [exact (Hrh es)|]. eapply yields_bind; [apply yields_check; lia|].
    eapply yields_bind; [exact Hrp|]. eapply yields_bind; [apply yields_check; lia|].
    apply yields_update_head; (done || lia).
  - eapply yields_bind; [apply yields_add_offset; [done|by right]|].
    eapply yields_bind; [exact Hrp|].
    eapply yields_bind; [apply yields_add_offset; [done|by left]|].
    apply yields_two_stores; auto; [lia|]. eapply yields_bind; [apply Hrh|].
    destruct (f (first_word head) =? o).
    + rewrite (app_assoc es). apply yields_update_head; try done; rewrite length_app; simpl; lia.
    + rewrite app_nil_r. eapply yields_to; [apply yields_ret| |done]. rewrite length_app. simpl. lia.
Qed.

Definition get_dest (pe head dest : Z) (before : bool) : Z :=
  if negb (dest =? 0) then dest
  else if (f (first_word head) =? 0) || before then f (first_word head)
  else f (prev_word (ent pe (f (first_word head)))).

Lemma yields_get_dest pe head dest before d es :
  head_quiet head -> (f (first_word head) <> 0 -> entry_quiet pe (f (first_word head))) ->
  yields d es (list_get_dest pop head dest pe before) (get_dest pe head dest before) d es.
Proof using Type.
  intros Hh Hq. unfold list_get_dest, get_dest. destruct (dest =? 0); [|apply yields_ret].
  eapply yields_bind; [apply yields_head_read; (done || lia)|]. fold (first_word head).
  replace (Z.b2z before =? POBJ_LIST_DEST_HEAD) with before by by destruct before.
  destruct ((f (first_word head) =? 0) || before) eqn:E; [apply yields_ret|].
  assert (Hf : entry_quiet pe (f (first_word head))) by (apply Hq; lia).
  rewrite (entry_ptr_eq pe) by apply Hf. by apply yields_entry_read.
Qed.

Lemma yields_insert_user pe head dest before o ptr ptr' d es i :
  head_quiet head -> (dest = 0 -> f (first_word head) = 0) ->
  (dest <> 0 -> entry_quiet pe dest /\ neighbours_fit pe dest /\ ptr = ent pe dest) ->
  i = Z.of_nat (length es) -> (length es + 4 <= N)%nat ->
  yields d es (list_insert_user pop redo i (mkInsert head dest ptr before) (mkCommon pe o ptr'))
    (Z.of_nat (length (es ++ insert_entries f pe head dest before o)),
     (insert_links f pe dest before o).1, (insert_links f pe dest before o).2) d
    (es ++ insert_entries f pe head dest before o).
Proof using HW.
  intros Hh H0 Hd -> Hlen. unfold list_insert_user, insert_entries, insert_links.
  cbn [i_dest i_head i_before c_obj_doffset].
  assert (Hrh : forall es, yields d es (read (first_word head)) (f (first_word head)) d es)
    by (intros; apply yields_head_read; (done || lia)).
  destruct (Z.eqb_spec dest 0) as [E|E].
  - eapply yields_bind; [apply Hrh|]. eapply yields_bind; [apply yields_check; rewrite H0 by done; done|].
    eapply yields_bind; [apply yields_update_head; (done || lia)|]. apply yields_ret.
  - destruct (Hd E) as (Hq & [Hn Hp] & ->). pose proof (proj1 Hq) as Hf. destruct before.
    + eapply yields_bind.
      * unfold list_insert_before. cbn [i_dest i_dest_entry_ptr c_pe_offset c_obj_doffset].
        eapply yields_bind; [by apply yields_entry_read|]. fold (prev_word (ent pe dest)).
        eapply yields_bind; [apply yields_add_offset; [done|by right]|].
        eapply yields_bind; [apply yields_add_offset; [done|by left]|].
        apply yields_two_stores; auto; [lia|apply yields_ret].
      * cbn [fst snd]. eapply yields_bind; [apply Hrh|]. destruct (dest =? f (first_word head)).
        -- eapply yields_bind; [apply yields_update_head; try done; rewrite length_app; simpl; lia|].
           rewrite <- !(app_assoc es). apply yields_ret.
        -- rewrite app_nil_r. eapply yields_to; [apply yields_ret| |done].
           rewrite length_app. simpl. do 2 f_equal. lia.
    + unfold list_insert_after. cbn [i_dest i_dest_entry_ptr c_pe_offset c_obj_doffset].
      eapply yields_bind; [by apply yields_entry_read|]. fold (next_word (ent pe dest)).
      eapply yields_bind; [apply yields_add_offset; [done|by left]|].
      eapply yields_bind; [apply yields_add_offset; [done|by right]|].
      apply yields_two_stores; auto; [lia|]. eapply yields_to; [apply yields_ret| |done].
      rewrite length_app. simpl. do 2 f_equal. lia.
Qed.

(** What is needed of the identifiers of an entry that is filled through the log. *)
Definition uuid_ready (set_uuid : bool) (pe o : Z) : Prop :=
  if set_uuid then W = {[ next_uuid (ent pe o) := uuid_lo pop; prev_uuid (ent pe o) := uuid_lo pop ]}
  else entry_quiet pe o /\ f (next_uuid (ent pe o)) = uuid_lo pop /\ f (prev_uuid (ent pe o)) = uuid_lo pop.

Lemma yields_set_uuid pe o d es : uuid_ready true pe o ->
  yields d es (store (next_uuid (ent pe o)) (uuid_lo pop);; store (prev_uuid (ent pe o)) (uuid_lo pop);;
    persist (ent pe o) sizeof_list_entry) tt true es.
Proof using HW.
  intros HWe. eapply yields_words; [done|by intros m'| |]; rewrite HWe; unfold next_uuid, prev_uuid; simpl.
  - intros x v. rewrite !elem_of_cons, elem_of_nil. intros [H|[H|[H|[H|H]]]]; try done; injection H as -> ->.
    + rewrite lookup_insert_eq. by eexists.
    + rewrite lookup_insert_ne, lookup_singleton_eq by lia. by eexists.
  - intros x v m' Hx. rewrite pm_read_fence, pm_read_flush.
    assert (Hr : ent pe o <= x < ent pe o + sizeof_list_entry /\ (x = ent pe o \/ x = ent pe o + 16) /\ v = uuid_lo pop).
    { unfold sizeof_list_entry. apply lookup_insert_Some in Hx as [[<- <-]|[_ [<- <-]%lookup_singleton_Some]]; lia. }
    destruct Hr as (Hr & Hor & ->). split; [|by apply (persist_durable _ _ sizeof_list_entry)].
    destruct (decide (x = ent pe o + 16)) as [->|]; [by rewrite pm_read_store_eq|].
    destruct Hor as [->|]; [|done]. by rewrite pm_read_store_ne, pm_read_store_eq by lia.
Qed.

Lemma yields_fill pe o n p set_uuid d es i :
  entry_fits pe o -> uuid_ready set_uuid pe o -> i = Z.of_nat (length es) -> (length es + 2 <= N)%nat ->
  yields d es (list_fill_entry_redo_log pop redo i (mkCommon pe o (ent pe o)) n p set_uuid)
    (Z.of_nat (length (es ++ fill_entries pe o n p))) (set_uuid || d) (es ++ fill_entries pe o n p).
Proof using HW.
  intros Hf Hu -> Hlen. unfold list_fill_entry_redo_log, fill_entries.
  cbn [c_entry_ptr c_obj_doffset c_pe_offset].
  pose proof (ef_addr _ _ Hf). pose proof (ef_off _ _ Hf). pose proof (ef_ent _ _ Hf).
  eapply yields_bind; [apply yields_check; unfold ent; lia|].
  eapply yields_bind; [apply yields_check; lia|].
  eapply (yields_bind _ _ _ _ _ tt _ _ (set_uuid || d) _ _ es).
  - destruct set_uuid; [by apply yields_set_uuid|]. destruct Hu as (Hq & E1 & E2).
    eapply yields_bind; [rewrite <- (Z.add_0_r (next_uuid _)); by apply yields_entry_read|].
    eapply yields_bind; [apply yields_check; rewrite Z.add_0_r; unfold next_uuid in E1; lia|].
    eapply yields_bind; [by apply yields_entry_read|].
    apply yields_check. unfold prev_uuid in E2. lia.
  - eapply yields_bind; [apply yields_add_offset; [done|by left]|].
    eapply yields_bind; [apply yields_add_offset; [done|by right]|].
    apply yields_two_stores; auto. eapply yields_to; [apply yields_ret| |done].
    rewrite length_app. simpl. lia.
Qed.

End Run.

(** ** Lists in memory *)

Record dlist (f : Z -> Z) (pe hd : Z) (os : list Z) : Prop := {
  dl_first : f (first_word hd) = default 0 (head os);
  dl_ring : ring (fun o => next_word (ent pe o)) (fun o => prev_word (ent pe o)) f os;
  dl_uuid o : o ∈ os -> f (next_uuid (ent pe o)) = uuid_lo pop /\ f (prev_uuid (ent pe o)) = uuid_lo pop;
  dl_head : f (first_uuid hd) = uuid_lo pop \/ (os = [] /\ f (first_uuid hd) = 0);
}.

(** The head and the entries of the elements fit and do not overlap. *)
Record placed (pe hd : Z) (os : list Z) : Prop := {
  pl_head : head_fits hd;
  pl_ent o : o ∈ os -> entry_fits pe o;
  pl_nodup : NoDup os;
  pl_apart a b : a ∈ os -> b ∈ os -> a = b \/ a + sizeof_list_entry <= b \/ b + sizeof_list_entry <= a;
  pl_head_apart o : o ∈ os -> ent pe o + sizeof_list_entry <= hd \/ hd + 16 <= ent pe o;
}.

(** The words of an entry, and of a list. *)
Definition word_off (k : Z) : Prop := k = 0 \/ k = 8 \/ k = 16 \/ k = 24.
Definition entry_word (pe o x : Z) : Prop := word_off (x - ent pe o).
Definition list_word (pe hd : Z) (os : list Z) (x : Z) : Prop :=
  x = first_uuid hd \/ x = first_word hd \/ exists o, o ∈ os /\ entry_word pe o x.

Lemma list_word_uuid pe hd os : list_word pe hd os (first_uuid hd).
Proof. by left. Qed.
Lemma list_word_first pe hd os : list_word pe hd os (first_word hd).
Proof. right. by left. Qed.

Lemma list_word_entry pe hd os o k : o ∈ os -> word_off k -> list_word pe hd os (ent pe o + k).
Proof. intros Ho Hk. right. right. exists o. split; [done|]. unfold entry_word. by replace (_ - _) with k by lia. Qed.

Lemma list_word_log pe hd os x : placed pe hd os -> list_word pe hd os x -> ~ log_area x.
Proof.
  intros H. pose proof (hf_log _ (pl_head _ _ _ H)) as Hl.
  intros [->|[->|(o & Ho & Hx)]]; unfold first_uuid, first_word.
  - apply (off_log_word _ _ _ Hl). lia.
  - apply (off_log_word _ _ _ Hl). lia.
  - eapply off_log_word; [apply (ef_log _ _ (pl_ent _ _ _ H o Ho))|].
    unfold entry_word, word_off, sizeof_list_entry in *. lia.
Qed.

Lemma placed_sub pe hd os os' : placed pe hd os -> NoDup os' -> os' ⊆ os -> placed pe hd os'.
Proof. intros [] Hn Hs. split; auto. Qed.

(** A list depends on its words only. *)
Lemma dlist_ext f g pe hd os :
  (forall x, list_word pe hd os x -> g x = f x) -> dlist f pe hd os -> dlist g pe hd os.
Proof.
  intros H [H1 H2 H3 H4].
  assert (E : forall o k, o ∈ os -> word_off k -> g (ent pe o + k) = f (ent pe o + k)).
  { intros. by apply H, list_word_entry. }
  assert (Eu : g (first_uuid hd) = f (first_uuid hd)) by apply H, list_word_uuid.
  split; [|intros a b Hab| |by rewrite Eu].
  - rewrite <- H1. apply H, list_word_first.
  - destruct (cyc_elem _ _ _ Hab) as [Ha Hb]. destruct (H2 a b Hab) as [E1 E2].
    unfold next_word, prev_word, NEXT_OFF, PREV_OFF in *. rewrite !E by (done || (unfold word_off; lia)). done.
  - intros o Ho. destruct (H3 o Ho) as [E1 E2]. unfold next_uuid, prev_uuid in *.
    pose proof (E o 0 Ho) as E3. rewrite Z.add_0_r in E3.
    rewrite E, E3 by (done || (unfold word_off; lia)). done.
Qed.

(** What the entries of the head change. *)
Lemma apply_head_entries f g hd v x : head_fits hd ->
  apply pop (head_entries f hd v) g x =
  if x =? first_word hd then v
  else if (x =? first_uuid hd) && (f (first_uuid hd) =? 0) then uuid_lo pop else g x.
Proof.
  intros H. unfold head_entries. rewrite apply_cons. cbn [fst snd]. rewrite (head_ptr_eq hd) by (done || lia).
  unfold first_word, first_uuid. destruct (f hd =? 0) eqn:E.
  - rewrite apply_cons. cbn [fst snd].
    pose proof (head_ptr_eq hd 0 H ltac:(lia)) as E0. rewrite !Z.add_0_r in E0. rewrite E0.
    unfold apply, new_value, upd. simpl. rewrite andb_true_r.
    destruct (Z.eqb_spec x hd), (Z.eqb_spec x (hd + 8)); (done || lia).
  - rewrite andb_false_r. done.
Qed.

Lemma apply_two f pe1 o1 k1 v1 pe2 o2 k2 v2 x :
  entry_fits pe1 o1 -> 0 <= k1 < 32 -> entry_fits pe2 o2 -> 0 <= k2 < 32 ->
  apply pop [(o1 + pe1 + k1, v1); (o2 + pe2 + k2, v2)] f x =
  if x =? ent pe2 o2 + k2 then v2 else if x =? ent pe1 o1 + k1 then v1 else f x.
Proof.
  intros. rewrite !apply_cons. cbn [fst snd]. by rewrite !word_ptr_eq.
Qed.

(** The words after [o] has been put between [t] and [h]. *)
Definition spliced (f f0 : Z -> Z) (pe hd o h t : Z) (b : bool) (x : Z) : Z :=
  if x =? prev_word (ent pe o) then t else if x =? next_word (ent pe o) then h
  else if b && (x =? first_word hd) then o
  else if b && ((x =? first_uuid hd) && (f (first_uuid hd) =? 0)) then uuid_lo pop
  else if x =? next_word (ent pe t) then o else if x =? prev_word (ent pe h) then o else f0 x.

Lemma splice_ends (h t : Z) (l1 l2 : list Z) :
  head (l2 ++ l1) = Some h -> last (l2 ++ l1) = Some t -> h ∈ l1 ++ l2 /\ t ∈ l1 ++ l2.
Proof. intros Hh%head_Some_elem_of Ht%last_Some_elem_of. rewrite !elem_of_app in *. tauto. Qed.

Section Splice.
Context (f f0 : Z -> Z) (pe hd o h t : Z) (l1 l2 : list Z) (b : bool).
Context (Hpl : placed pe hd (o :: l1 ++ l2)) (Hdl : dlist f pe hd (l1 ++ l2)).
Context (Hh : head (l2 ++ l1) = Some h) (Ht : last (l2 ++ l1) = Some t).
Context (Hf0 : forall x, list_word pe hd (l1 ++ l2) x -> f0 x = f x).

Lemma splice_apart c : c ∈ l1 ++ l2 ->
  (c + 32 <= o \/ o + 32 <= c) /\ (c = h \/ c + 32 <= h \/ h + 32 <= c) /\
  (c = t \/ c + 32 <= t \/ t + 32 <= c) /\ (ent pe c + 32 <= hd \/ hd + 16 <= ent pe c).
Proof.
  intros Hc. destruct (splice_ends h t l1 l2 Hh Ht) as [Hh' Ht']. destruct Hpl as [_ _ Hn Ha Hha].
  unfold sizeof_list_entry in *. apply NoDup_cons in Hn as [Ho _]. split_and!.
  - destruct (Ha c o) as [->|]; [by right|left|done|done].
  - apply Ha; by right.
  - apply Ha; by right.
  - apply Hha. by right.
Qed.

Lemma splice_kept c k : c ∈ l1 ++ l2 -> word_off k -> f0 (ent pe c + k) = f (ent pe c + k).
Proof. intros. by apply Hf0, list_word_entry. Qed.

Lemma splice_links :
  links_kept (fun o => next_word (ent pe o)) (fun o => prev_word (ent pe o)) f
    (spliced f f0 pe hd o h t b) (l2 ++ l1) h t.
Proof.
  intros c Hc. assert (Hc' : c ∈ l1 ++ l2) by by apply elem_swap.
  pose proof (splice_apart c Hc') as (H1 & H2 & H3 & H4).
  pose proof (splice_kept c NEXT_OFF Hc') as E1. pose proof (splice_kept c PREV_OFF Hc') as E2.
  unfold spliced. unfold_words. unfold ent in *. split; intros Hne; eval_words; rewrite !andb_false_r; (apply E1 || apply E2); unfold word_off; lia.
Qed.

Lemma splice_uuid c : c ∈ l1 ++ l2 ->
  spliced f f0 pe hd o h t b (next_uuid (ent pe c)) = uuid_lo pop /\
  spliced f f0 pe hd o h t b (prev_uuid (ent pe c)) = uuid_lo pop.
Proof.
  intros Hc. pose proof (splice_apart c Hc) as (H1 & H2 & H3 & H4).
  destruct (dl_uuid _ _ _ _ Hdl c Hc) as [E1 E2].
  pose proof (splice_kept c 0 Hc) as E3. pose proof (splice_kept c 16 Hc) as E4.
  clear Hpl Hdl Hf0. unfold spliced. unfold_words. unfold ent in *. eval_words. rewrite ?andb_false_r, ?Z.add_0_r in *.
  by rewrite E3, E4 by (unfold word_off; lia).
Qed.

Lemma splice_dlist :
  f0 (next_uuid (ent pe o)) = uuid_lo pop -> f0 (prev_uuid (ent pe o)) = uuid_lo pop ->
  (b = true <-> l1 = []) -> dlist (spliced f f0 pe hd o h t b) pe hd (l1 ++ o :: l2).
Proof.
  intros U1 U2 Hb. destruct (splice_ends h t l1 l2 Hh Ht) as [Hh' Ht'].
  pose proof (splice_apart h Hh') as (A1 & _ & A2 & A3). pose proof (splice_apart t Ht') as (B1 & _ & _ & B3).
  assert (Ho : ent pe o + 32 <= hd \/ hd + 16 <= ent pe o) by (apply (pl_head_apart _ _ _ Hpl); left).
  split.
  - assert (E : f0 (first_word hd) = f (first_word hd)) by apply Hf0, list_word_first.
    rewrite (dl_first _ _ _ _ Hdl) in E. unfold spliced. unfold_words. unfold ent in *. eval_words.
    destruct b; simpl; [by rewrite (proj1 Hb)|]. rewrite E. destruct l1; [|done]. by discriminate (proj2 Hb eq_refl).
  - apply ring_insert with f h t; [|apply Hdl|done|done|apply splice_links|..];
      [|unfold spliced; unfold_words; unfold ent in *; eval_words; rewrite ?andb_false_r; done..].
    pose proof (pl_nodup _ _ _ Hpl) as [_ Hn]%NoDup_cons. by rewrite Permutation_app_comm.
  - intros c Hc. rewrite <- Permutation_middle in Hc. apply elem_of_cons in Hc as [->|Hc]; [|by apply splice_uuid].
    unfold spliced. unfold_words. unfold ent in *. eval_words. by rewrite !andb_false_r.
  - left. assert (E : f0 (first_uuid hd) = f (first_uuid hd)) by apply Hf0, list_word_uuid.
    destruct (dl_head _ _ _ _ Hdl) as [Hu|[Hnil _]]; [|destruct l1, l2; done].
    unfold spliced. unfold_words. unfold ent in *. eval_words. rewrite E, Hu, andb_false_r. by destruct (b && _).
Qed.

End Splice.

Lemma splice_dlist_empty f f0 pe hd o :
  placed pe hd [o] -> dlist f pe hd [] -> (forall x, list_word pe hd [] x -> f0 x = f x) ->
  f0 (next_uuid (ent pe o)) = uuid_lo pop -> f0 (prev_uuid (ent pe o)) = uuid_lo pop ->
  dlist (apply pop (head_entries f hd o ++ fill_entries pe o o o) f0) pe hd [o].
Proof.
  intros Hpl Hdl Hf0 U1 U2. pose proof (pl_head _ _ _ Hpl) as Hhd.
  assert (Hfit : entry_fits pe o) by (apply Hpl; left).
  assert (Ho : ent pe o + 32 <= hd \/ hd + 16 <= ent pe o) by (apply (pl_head_apart _ _ _ Hpl); left).
  assert (G : forall x, apply pop (head_entries f hd o ++ fill_entries pe o o o) f0 x =
    if x =? prev_word (ent pe o) then o else if x =? next_word (ent pe o) then o
    else apply pop (head_entries f hd o) f0 x).
  { intros x. rewrite apply_app. unfold fill_entries. rewrite apply_two; (done || (unfold NEXT_OFF, PREV_OFF; lia)). }
  eapply dlist_ext; [intros x _; apply G|].
  assert (E : f0 (first_uuid hd) = f (first_uuid hd)) by apply Hf0, list_word_uuid.
  split.
  - rewrite apply_head_entries by done. unfold_words. unfold ent in *. by eval_words.
  - apply ring_single; unfold_words; unfold ent in *; by eval_words.
  - intros c ->%list_elem_of_singleton. rewrite !apply_head_entries by done.
    unfold_words. unfold ent in *. by eval_words.
  - left. rewrite apply_head_entries by done. unfold_words. unfold ent in *. eval_words. simpl.
    destruct (Z.eqb_spec (f hd) 0); [done|]. rewrite E.
    by destruct (dl_head _ _ _ _ Hdl) as [|[_ ?]].
Qed.

(** The entries of an insertion splice. *)
Lemma insert_applied f f0 pe hd o h t before x :
  head_fits hd -> entry_fits pe o -> entry_fits pe h -> entry_fits pe t ->
  f (next_word (ent pe t)) = h -> f (prev_word (ent pe h)) = t ->
  let d := if before : bool then h else t in
  insert_links f pe d before o = (h, t) /\
  apply pop (insert_entries f pe hd d before o ++ fill_entries pe o h t) f0 x =
    spliced f f0 pe hd o h t (before && (h =? f (first_word hd))) x.
Proof.
  intros Hhd Ho Hh Ht En Ep d. pose proof (ef_off _ _ Hh). pose proof (ef_off _ _ Ht).
  assert (Hd : (d =? 0) = false) by (unfold d; destruct before; lia).
  assert (H8 : 0 <= NEXT_OFF < 32 /\ 0 <= PREV_OFF < 32) by (unfold NEXT_OFF, PREV_OFF; lia).
  unfold insert_links, insert_entries. rewrite Hd, apply_app. unfold fill_entries.
  rewrite apply_two by (done || lia). unfold spliced, d in *. fold (prev_word (ent pe o)) (next_word (ent pe o)).
  destruct before; cbn [andb].
  - split; [by rewrite Ep|]. destruct (x =? prev_word (ent pe o)); [done|].
    destruct (x =? next_word (ent pe o)); [done|]. rewrite Ep, apply_app.
    destruct (h =? f (first_word hd)); cbn [andb];
      [rewrite apply_head_entries by done|change (apply pop [] ?g x) with (g x)];
      by rewrite apply_two by (done || lia).
  - split; [by rewrite En|]. destruct (x =? prev_word (ent pe o)); [done|].
    destruct (x =? next_word (ent pe o)); [done|]. rewrite En, apply_two by (done || lia).
    fold (prev_word (ent pe h)) (next_word (ent pe t)).
    by destruct (x =? prev_word (ent pe h)), (x =? next_word (ent pe t)).
Qed.

Lemma insert_dlist f f0 pe hd os dest before o n p :
  placed pe hd (o :: os) -> dlist f pe hd os -> dest = 0 \/ dest ∈ os ->
  (forall x, list_word pe hd os x -> f0 x = f x) ->
  f0 (next_uuid (ent pe o)) = uuid_lo pop -> f0 (prev_uuid (ent pe o)) = uuid_lo pop ->
  insert_links f pe (resolved os dest before) before o = (n, p) ->
  dlist (apply pop (insert_entries f pe hd (resolved os dest before) before o ++ fill_entries pe o n p) f0)
    pe hd (inserted os dest before o).
Proof.
  intros Hpl Hdl Hd Hf0 U1 U2 Hl. destruct (decide (os = [])) as [->|Hne].
  { destruct Hd as [->|Hd]; [|by apply elem_of_nil in Hd].
    assert (Hr : resolved [] 0 before = 0) by by destruct before. rewrite Hr in *. injection Hl as <- <-.
    assert (Hi : inserted [] 0 before o = [o]) by by destruct before. rewrite Hi.
    by apply splice_dlist_empty. }
  destruct (inserted_split os dest before o Hne Hd) as (l1 & l2 & Eos & -> & Hr). subst os.
  assert (Hne' : l2 ++ l1 <> []) by (destruct l1, l2; done).
  destruct (exists_last Hne') as (u & t & Eu). assert (Ht : last (l2 ++ l1) = Some t) by by rewrite Eu, last_snoc.
  assert (Hh : exists h, head (l2 ++ l1) = Some h) by (destruct (l2 ++ l1); [done|by eexists]).
  destruct Hh as [h Hh]. destruct (splice_ends h t l1 l2 Hh Ht) as [Hh' Ht'].
  assert (Er : resolved (l1 ++ l2) dest before = if before then h else t).
  { destruct before; [|rewrite last_app, Hr in Ht]; [destruct l2; simpl in *|]; congruence. }
  destruct (ring_closes (fun o => next_word (ent pe o)) (fun o => prev_word (ent pe o)) f (l2 ++ l1) h t) as [En Ep]; [apply ring_rotate, Hdl|done..|].
  assert (Hin : forall c, c ∈ l1 ++ l2 -> entry_fits pe c) by (intros c Hc; apply Hpl; by right).
  rewrite Er in *.
  assert (Hfo : entry_fits pe o) by (apply Hpl; left). pose proof (pl_head _ _ _ Hpl) as Hhd.
  assert (Ha := fun x => insert_applied f f0 pe hd o h t before x Hhd Hfo (Hin h Hh') (Hin t Ht') En Ep).
  rewrite (proj1 (Ha 0)) in Hl. injection Hl as <- <-.
  eapply dlist_ext; [intros x _; apply Ha|].
  apply splice_dlist; try done. rewrite (dl_first _ _ _ _ Hdl).
  split; [intros [-> Hb]%andb_true_iff|intros ->; destruct before; [|done]].
  - apply Z.eqb_eq in Hb. destruct l1 as [|c l1]; [done|exfalso]. simpl in Hb. subst c.
    pose proof (pl_nodup _ _ _ Hpl) as [_ [H _]%NoDup_cons]%NoDup_cons. apply H.
    apply elem_of_app. right. destruct l2; [done|]. simpl in Hh. injection Hh as ->. left.
  - rewrite app_nil_r in Hh. simpl. rewrite Hh. simpl. lia.
Qed.

(** The words after the element between [t] and [h] has been taken out. *)
Definition unspliced (f f0 : Z -> Z) (pe hd h t : Z) (b : bool) (x : Z) : Z :=
  if b && (x =? first_word hd) then h
  else if b && ((x =? first_uuid hd) && (f (first_uuid hd) =? 0)) then uuid_lo pop
  else if x =? next_word (ent pe t) then h else if x =? prev_word (ent pe h) then t else f0 x.

Lemma remove_applied f f0 pe hd o h t x :
  head_fits hd -> entry_fits pe h -> entry_fits pe t -> h <> o ->
  f (next_word (ent pe o)) = h -> f (prev_word (ent pe o)) = t ->
  apply pop (remove_entries f pe hd o) f0 x = unspliced f f0 pe hd h t (f (first_word hd) =? o) x.
Proof.
  intros Hhd Hh Ht Hne En Ep. unfold remove_entries, unspliced. rewrite En, Ep, (proj2 (Z.eqb_neq h o) Hne), apply_app.
  assert (H8 : 0 <= NEXT_OFF < 32 /\ 0 <= PREV_OFF < 32) by (unfold NEXT_OFF, PREV_OFF; lia).
  destruct (f (first_word hd) =? o); cbn [andb];
    [rewrite apply_head_entries by done|change (apply pop [] ?g x) with (g x)];
    by rewrite apply_two by (done || lia).
Qed.

Section Unsplice.
Context (f f0 : Z -> Z) (pe hd o h t : Z) (l1 l2 : list Z).
Context (Hpl : placed pe hd (l1 ++ o :: l2)) (Hdl : dlist f pe hd (l1 ++ o :: l2)).
Context (Hh : head (l2 ++ l1) = Some h) (Ht : last (l2 ++ l1) = Some t).
Context (Hf0 : forall x, list_word pe hd (l1 ++ o :: l2) x -> f0 x = f x).

Lemma unsplice_placed : placed pe hd (o :: l1 ++ l2).
Proof.
  apply placed_sub with (l1 ++ o :: l2); [done| |].
  - rewrite Permutation_middle. apply Hpl.
  - intros x. by rewrite Permutation_middle.
Qed.

Lemma unsplice_kept c k : c ∈ l1 ++ l2 -> word_off k -> f0 (ent pe c + k) = f (ent pe c + k).
Proof. intros Hc Hk. apply Hf0, list_word_entry; [|done]. by apply elem_mid. Qed.

Lemma unsplice_links b :
  links_kept (fun o => next_word (ent pe o)) (fun o => prev_word (ent pe o)) f
    (unspliced f f0 pe hd h t b) (l2 ++ l1) h t.
Proof.
  intros c Hc. assert (Hc' : c ∈ l1 ++ l2) by by apply elem_swap.
  pose proof (splice_apart pe hd o h t l1 l2 unsplice_placed Hh Ht c Hc') as (H1 & H2 & H3 & H4).
  pose proof (unsplice_kept c NEXT_OFF Hc') as E1. pose proof (unsplice_kept c PREV_OFF Hc') as E2.
  unfold unspliced. unfold_words. unfold ent in *. split; intros Hne; eval_words; rewrite !andb_false_r; (apply E1 || apply E2); unfold word_off; lia.
Qed.

Lemma unsplice_dlist b : (b = true <-> l1 = []) -> dlist (unspliced f f0 pe hd h t b) pe hd (l1 ++ l2).
Proof.
  intros Hb. destruct (splice_ends h t l1 l2 Hh Ht) as [Hh' Ht'].
  assert (Hap := splice_apart pe hd o h t l1 l2 unsplice_placed Hh Ht).
  pose proof (Hap h Hh') as (_ & _ & A2 & A3). pose proof (Hap t Ht') as (_ & _ & _ & B3).
  pose proof (pl_nodup _ _ _ unsplice_placed) as Hn.
  split.
  - assert (E : f0 (first_word hd) = f (first_word hd)) by apply Hf0, list_word_first.
    rewrite (dl_first _ _ _ _ Hdl) in E. unfold unspliced. unfold_words. unfold ent in *. eval_words.
    destruct b; simpl.
    + rewrite (proj1 Hb), app_nil_r in * by done. simpl. by rewrite Hh.
    + rewrite E. destruct l1; [|done]. by discriminate (proj2 Hb eq_refl).
  - apply ring_remove with f o h t; [|apply Hdl|done|done|apply unsplice_links|..];
      [by rewrite (Permutation_app_comm l2)|unfold unspliced; unfold_words; unfold ent in *; eval_words; rewrite ?andb_false_r; done..].
  - intros c Hc. pose proof (Hap c Hc) as (H1 & H2 & H3 & H4).
    destruct (dl_uuid _ _ _ _ Hdl c) as [E1 E2]; [by apply elem_mid|].
    pose proof (unsplice_kept c 0 Hc) as E3. pose proof (unsplice_kept c 16 Hc) as E4.
    unfold unspliced. unfold_words. unfold ent in *. eval_words. rewrite ?andb_false_r, ?Z.add_0_r in *.
    by rewrite E3, E4 by (unfold word_off; lia).
  - left. assert (E : f0 (first_uuid hd) = f (first_uuid hd)) by apply Hf0, list_word_uuid.
    destruct (dl_head _ _ _ _ Hdl) as [Hu|[Hnil _]]; [|destruct l1; done].
    unfold unspliced. unfold_words. unfold ent in *. eval_words. rewrite E, Hu, andb_false_r. by destruct (b && _).
Qed.

End Unsplice.

(** The neighbours of an element. *)
Lemma ring_elem f pe hd os o : placed pe hd os -> dlist f pe hd os -> o ∈ os ->
  f (next_word (ent pe o)) ∈ os /\ f (prev_word (ent pe o)) ∈ os.
Proof.
  intros Hpl Hdl Ho. destruct (cyc_around os o Ho) as (n & p & Hn & Hp).
  destruct (dl_ring _ _ _ _ Hdl _ _ Hn) as [-> _]. destruct (dl_ring _ _ _ _ Hdl _ _ Hp) as [_ ->].
  split; [apply (cyc_elem _ _ _ Hn)|apply (cyc_elem _ _ _ Hp)].
Qed.

Lemma remove_dlist f f0 pe hd os o :
  placed pe hd os -> dlist f pe hd os -> o ∈ os -> (forall x, list_word pe hd os x -> f0 x = f x) ->
  dlist (apply pop (remove_entries f pe hd o) f0) pe hd (removed os o).
Proof.
  intros Hpl Hdl Ho Hf0. destruct (removed_split os o (pl_nodup _ _ _ Hpl) Ho) as (l1 & l2 & -> & ->).
  assert (Hin : forall c, c ∈ l1 ++ l2 -> entry_fits pe c).
  { intros c Hc. apply Hpl. by apply elem_mid. }
  destruct (decide (l2 ++ l1 = [])) as [[-> ->]%app_eq_nil|Hne].
  - destruct (dl_ring _ _ _ _ Hdl o o) as [En _]; [by right|]. unfold remove_entries.
    rewrite En, Z.eqb_refl. destruct (dl_head _ _ _ _ Hdl) as [Hu|[? _]]; [|done]. simpl in *.
    split; [| |by intros c ?%elem_of_nil|left]; rewrite ?apply_head_entries by apply Hpl.
    + by rewrite Z.eqb_refl.
    + intros a b [H|[[=] _]]. by apply adj_nil in H.
    + assert (E : f0 (first_uuid hd) = f (first_uuid hd)) by apply Hf0, list_word_uuid.
      unfold first_word, first_uuid in *. eval_words. rewrite E, Hu. by destruct (_ =? 0).
  - destruct (exists_last Hne) as (u & t & Eu). assert (Ht : last (l2 ++ l1) = Some t) by by rewrite Eu, last_snoc.
    assert (Hh : exists h, head (l2 ++ l1) = Some h) by (destruct (l2 ++ l1); [done|by eexists]).
    destruct Hh as [h Hh]. destruct (splice_ends h t l1 l2 Hh Ht) as [Hh' Ht'].
    destruct (ring_around (fun o => next_word (ent pe o)) (fun o => prev_word (ent pe o)) f l1 l2 o h t)
      as [En Ep]; [apply Hdl|done..|].
    assert (Hno : o ∉ l1 ++ l2).
    { pose proof (pl_nodup _ _ _ Hpl) as Hn. rewrite <- Permutation_middle in Hn. by apply NoDup_cons in Hn as [? _]. }
    eapply dlist_ext; [intros x _; apply remove_applied with (h := h) (t := t); auto; [apply Hpl|congruence]|].
    apply unsplice_dlist with o; try done. rewrite (dl_first _ _ _ _ Hdl).
    destruct l1 as [|c l1]; simpl; [by rewrite Z.eqb_refl|]. split; [|done].
    intros ->%Z.eqb_eq. destruct Hno. left.
Qed.

End Lists.
