(* ===== verification/PlistOps.v ===== *)
(** * The list operations are atomic

    Insertion, removal and moves turn the representation of a list into that of the
    list with the element inserted, removed or moved, and are atomic with respect
    to crashes; insertion of a new object and removal with freeing also hand the
    object over between the list and the lane, so that recovery frees it exactly
    when it is on no list. *)

From stdpp Require Import relations gmap sets.
From S2P Require Import Prelude Pmem Programs Redo RedoProofs Plist PlistLog PlistRing PlistProofs.

Local Open Scope pmtest_scope.

Section Ops.
Context (pop : PMEMobjpool) (mutex_lock : Z -> Z) (section : Z).

Local Abbreviation redo := (section_redo section).
Local Abbreviation N := 63%nat.
Local Abbreviation log_area := (log_area redo N).
Local Abbreviation ent := (ent pop).
Local Abbreviation placed := (placed pop section).
Local Abbreviation dlist := (dlist pop).
Local Abbreviation list_word := (list_word pop).
Local Abbreviation entry_fits := (entry_fits pop section).

(** ** Entries of the log *)

(** An entry for a word of the list. *)
Definition good_entry (pe hd : Z) (os : list Z) (e : Z * Z) : Prop :=
  entry_ok pop redo N e /\ list_word pe hd os (off_to_ptr pop (e.1)).

Lemma good_link pe hd os o k v : placed pe hd os -> o ∈ os -> k = NEXT_OFF \/ k = PREV_OFF ->
  good_entry pe hd os (o + pe + k, v).
Proof.
  intros Hpl Ho Hk. pose proof (pl_ent _ _ _ _ _ Hpl o Ho) as Hf.
  split; [by apply entry_word_ok|]. simpl. unfold NEXT_OFF, PREV_OFF in Hk.
  rewrite (word_ptr_eq pop section pe o k Hf) by lia. apply list_word_entry; [done|]. unfold word_off. lia.
Qed.

Lemma good_head f pe hd os v : placed pe hd os -> Forall (good_entry pe hd os) (head_entries pop f hd v).
Proof.
  intros Hpl. pose proof (pl_head _ _ _ _ _ Hpl) as Hf.
  pose proof (head_entries_ok pop section f hd v Hf) as Hok. unfold head_entries in *.
  apply Forall_cons in Hok as [H1 H2]. apply Forall_cons. split; [split; [done|]|].
  - simpl. rewrite (head_ptr_eq pop section) by (done || lia). apply list_word_first.
  - revert H2. destruct (_ =? 0); [|done]. intros [H2 _]%Forall_cons. apply Forall_singleton. split; [done|].
    simpl. pose proof (head_ptr_eq pop section hd 0 Hf ltac:(lia)) as E. rewrite !Z.add_0_r in E. rewrite E.
    apply list_word_uuid.
Qed.

Lemma good_fill pe hd os o n p : placed pe hd os -> o ∈ os -> Forall (good_entry pe hd os) (fill_entries pe o n p).
Proof. intros. repeat apply Forall_cons_2; [apply good_link; auto..|done]. Qed.

(** The neighbours of [o] are elements. *)
Definition neighbours_in (f : Z -> Z) (pe : Z) (os : list Z) (o : Z) : Prop :=
  f (next_word (ent pe o)) ∈ os /\ f (prev_word (ent pe o)) ∈ os.

Lemma good_insert f pe hd os d before o : placed pe hd os ->
  (d <> 0 -> d ∈ os /\ neighbours_in f pe os d) ->
  Forall (good_entry pe hd os) (insert_entries pop f pe hd d before o).
Proof.
  intros Hpl Hd. unfold insert_entries. destruct (Z.eqb_spec d 0) as [|Hne]; [by apply good_head|].
  destruct (Hd Hne) as (Hin & Hn & Hp). destruct before.
  - apply Forall_app. split; [repeat apply Forall_cons_2; [apply good_link; auto..|done]|].
    destruct (_ =? _); [by apply good_head|done].
  - repeat apply Forall_cons_2; [apply good_link; auto..|done].
Qed.

Lemma good_remove f pe hd os o : placed pe hd os -> neighbours_in f pe os o ->
  Forall (good_entry pe hd os) (remove_entries pop f pe hd o).
Proof.
  intros Hpl [Hn Hp]. unfold remove_entries. destruct (_ =? o); [by apply good_head|].
  apply Forall_app. split; [repeat apply Forall_cons_2; [apply good_link; auto..|done]|].
  destruct (_ =? o); [by apply good_head|done].
Qed.

Lemma good_ok pe hd os es : Forall (good_entry pe hd os) es -> Forall (entry_ok pop redo N) es.
Proof. rewrite !Forall_forall. intros H e He. by apply H. Qed.

Lemma good_target pe hd os es x : Forall (good_entry pe hd os) es -> target pop es x -> list_word pe hd os x.
Proof. intros Hg (e & He & ->)%target_spec. rewrite Forall_forall in Hg. by apply Hg. Qed.

Lemma insert_entries_length f pe hd d before o : (length (insert_entries pop f pe hd d before o) <= 4)%nat.
Proof.
  unfold insert_entries, head_entries.
  destruct (d =? 0), before; simpl; try destruct (d =? _); simpl; try destruct (_ =? 0); simpl; lia.
Qed.

Lemma remove_entries_length f pe hd o : (length (remove_entries pop f pe hd o) <= 4)%nat.
Proof.
  unfold remove_entries, head_entries.
  destruct (_ =? o); simpl; [|destruct (_ =? o); simpl]; try destruct (_ =? 0); simpl; lia.
Qed.

(** The destination, when the list is in memory. *)
Lemma get_dest_resolved m pe hd os dest before :
  dlist (pm_read m) pe hd os -> placed pe hd os -> get_dest pop m pe hd dest before = resolved os dest before.
Proof.
  intros Hdl Hpl. unfold get_dest, resolved. destruct (dest =? 0); [|done]. simpl.
  rewrite (dl_first _ _ _ _ _ Hdl). destruct os as [|o os]; [by destruct before|]. simpl.
  assert (Ho : 0 < o) by (apply (ef_off _ _ _ _ (pl_ent _ _ _ _ _ Hpl o ltac:(left)))).
  rewrite (proj2 (Z.eqb_neq o 0)) by lia. destruct before; [done|]. simpl.
  assert (Hl : last (o :: os) <> None) by (rewrite last_None; done).
  destruct (last (o :: os)) as [t|] eqn:E; [|done].
  destruct (dl_ring _ _ _ _ _ Hdl t o) as [_ ->]; [right; split; [exact E|done]|done].
Qed.

Lemma resolved_in os dest before : dest = 0 \/ dest ∈ os -> resolved os dest before <> 0 ->
  resolved os dest before ∈ os.
Proof.
  unfold resolved. destruct (Z.eqb_spec dest 0); [|by intros [|]].
  intros _ Hne. destruct before; [destruct (head os) eqn:E|destruct (last os) eqn:E]; simpl in *; try done.
  - by apply head_Some_elem_of.
  - by apply last_Some_elem_of.
Qed.

Lemma resolved_zero os dest before : (forall o, o ∈ os -> 0 < o) -> resolved os dest before = 0 -> os = [].
Proof.
  unfold resolved. intros Hpos. destruct (Z.eqb_spec dest 0) as [_|Hne]; [|done].
  destruct os as [|o os]; [done|]. intros E. exfalso. destruct before.
  - pose proof (Hpos o ltac:(left)). simpl in E. lia.
  - destruct (last (o :: os)) as [t|] eqn:El; [|by apply last_None in El].
    pose proof (Hpos t (last_Some_elem_of _ _ El)). simpl in E. lia.
Qed.

(** The list is in memory, durable, and the log of the lane is free. *)
Record stored (m : pmem) (pe hd : Z) (os : list Z) : Prop := {
  st_list : dlist (pm_read m) pe hd os;
  st_durable x : list_word pe hd os x -> pm_durable m x;
  st_log : no_flags redo N m;
}.

(** A crash does not change a stored list. *)
Lemma stored_start m pe hd os start x : stored m pe hd os -> pm_crash m start -> list_word pe hd os x ->
  start x = pm_read m x.
Proof. intros H Hs Hx. apply durable_image; [by apply (st_durable _ _ _ _ H)|done]. Qed.

Lemma stored_neighbours m pe hd os o : placed pe hd os -> stored m pe hd os -> o ∈ os ->
  neighbours_in (pm_read m) pe os o.
Proof. intros Hpl H Ho. by apply (ring_elem pop section) with hd; [|apply H|]. Qed.

(** ** Words that are stored without the log *)

Definition uuid_words (pe o : Z) : gmap Z Z :=
  {[ next_uuid (ent pe o) := uuid_lo pop; prev_uuid (ent pe o) := uuid_lo pop ]}.

Lemma uuid_words_none pe o x : x <> ent pe o -> x <> ent pe o + 16 -> uuid_words pe o !! x = None.
Proof.
  intros H1 H2. unfold uuid_words, next_uuid, prev_uuid.
  by rewrite lookup_insert_ne, lookup_singleton_ne.
Qed.

Lemma uuid_words_some pe o x : is_Some (uuid_words pe o !! x) <-> x = ent pe o \/ x = ent pe o + 16.
Proof.
  unfold uuid_words, next_uuid, prev_uuid. split.
  - intros [v Hv]. apply lookup_insert_Some in Hv as [[<- _]|[_ [<- _]%lookup_singleton_Some]]; auto.
  - intros [->| ->]; [rewrite lookup_insert_eq; by eexists|].
    rewrite lookup_insert_ne, lookup_singleton_eq by lia. by eexists.
Qed.

Lemma uuid_words_over pe o f :
  over (uuid_words pe o) f (next_uuid (ent pe o)) = uuid_lo pop /\
  over (uuid_words pe o) f (prev_uuid (ent pe o)) = uuid_lo pop.
Proof.
  unfold over, uuid_words, next_uuid, prev_uuid.
  rewrite lookup_insert_eq, lookup_insert_ne, lookup_singleton_eq by lia. done.
Qed.

(** Words of the elements of a list are none of those of another element. *)
Lemma placed_apart pe hd o os x : placed pe hd (o :: os) -> list_word pe hd os x -> ~ entry_word pop pe o x.
Proof.
  intros Hpl Hx. unfold entry_word, word_off.
  assert (Hh : ent pe o + 32 <= hd \/ hd + 16 <= ent pe o) by (apply (pl_head_apart _ _ _ _ _ Hpl); left).
  destruct Hx as [->|[->|(c & Hc & Hx)]]; [unfold first_uuid; lia|unfold first_word; lia|].
  pose proof (pl_nodup _ _ _ _ _ Hpl) as [Hn _]%NoDup_cons.
  destruct (pl_apart _ _ _ _ _ Hpl c o) as [->|Ha]; [by right|left|done|].
  unfold entry_word, word_off, PlistProofs.ent, sizeof_list_entry in *. lia.
Qed.

Lemma uuid_words_list pe hd o os x : placed pe hd (o :: os) -> list_word pe hd os x -> uuid_words pe o !! x = None.
Proof.
  intros Hpl Hx. pose proof (placed_apart _ _ _ _ _ Hpl Hx) as Hn. unfold entry_word, word_off in Hn.
  apply uuid_words_none; lia.
Qed.

Lemma uuid_words_quiet pe hd o os c : placed pe hd (o :: os) -> c ∈ os ->
  entry_quiet pop section (uuid_words pe o) pe c.
Proof.
  intros Hpl Hc. split; [apply (pl_ent _ _ _ _ _ Hpl); by right|]. intros k Hk.
  pose proof (pl_nodup _ _ _ _ _ Hpl) as [Hn _]%NoDup_cons.
  destruct (pl_apart _ _ _ _ _ Hpl c o) as [->|Ha]; [by right|left|done|].
  unfold sizeof_list_entry in *. apply uuid_words_none; unfold PlistProofs.ent; lia.
Qed.

Lemma uuid_words_head pe hd o os : placed pe hd (o :: os) -> head_quiet pop section (uuid_words pe o) hd.
Proof.
  intros Hpl. split; [apply Hpl|]. intros k Hk.
  pose proof (pl_head_apart _ _ _ _ _ Hpl o ltac:(left)) as Ha. unfold sizeof_list_entry in Ha.
  apply uuid_words_none; lia.
Qed.

Lemma uuid_words_log pe o x : entry_fits pe o -> is_Some (uuid_words pe o !! x) -> ~ log_area x.
Proof.
  intros Hf Hx%uuid_words_some. eapply off_log_word; [apply (ef_log _ _ _ _ Hf)|]. unfold sizeof_list_entry. lia.
Qed.

Lemma quiet_empty pe hd os o : placed pe hd os -> o ∈ os -> entry_quiet pop section ∅ pe o.
Proof. intros Hpl Ho. split; [by apply (pl_ent _ _ _ _ _ Hpl)|done]. Qed.
Lemma quiet_empty_head pe hd os : placed pe hd os -> head_quiet pop section ∅ hd.
Proof. intros Hpl. split; [apply Hpl|done]. Qed.

(** ** Insertion *)

Section Insert.
Context (m : pmem) (pe hd : Z) (os : list Z) (dest : Z) (before : bool) (oid : Z).
Context (Hpl : placed pe hd (oid :: os)) (Hst : stored m pe hd os) (Hd : dest = 0 \/ dest ∈ os).

Local Abbreviation d := (resolved os dest before).
Local Abbreviation f := (pm_read m).
Local Abbreviation links := (insert_links pop f pe d before oid).
Local Abbreviation ins := (insert_entries pop f pe hd d before oid).
Local Abbreviation fill := (fill_entries pe oid (links.1) (links.2)).

Lemma insert_placed : placed pe hd os.
Proof.
  apply placed_sub with (oid :: os); [done| |by right].
  by pose proof (pl_nodup _ _ _ _ _ Hpl) as [_ ?]%NoDup_cons.
Qed.

Lemma insert_pos o : o ∈ os -> 0 < o.
Proof. intros Ho. apply (ef_off _ _ _ _ (pl_ent _ _ _ _ _ insert_placed o Ho)). Qed.

Lemma insert_dest : d <> 0 -> d ∈ os /\ neighbours_in f pe os d.
Proof.
  intros Hne. assert (Hin : d ∈ os) by by apply resolved_in.
  split; [done|]. by apply stored_neighbours with hd; [apply insert_placed|..].
Qed.

Lemma insert_good : Forall (good_entry pe hd (oid :: os)) ins.
Proof.
  apply good_insert; [done|]. intros Hne. destruct (insert_dest Hne) as (H1 & H2 & H3).
  split; [|split]; by right.
Qed.

Lemma insert_first : d = 0 -> f (first_word hd) = 0.
Proof.
  intros E. rewrite (dl_first _ _ _ _ _ (st_list _ _ _ _ Hst)).
  by rewrite (resolved_zero os dest before insert_pos E).
Qed.

(** The insertion into the list, as [list_insert_user] logs it. *)
Lemma insert_user_yields W e i b es :
  (forall x, is_Some (W !! x) -> ~ log_area x) -> head_quiet pop section W hd ->
  (forall c, c ∈ os -> entry_quiet pop section W pe c) ->
  i = Z.of_nat (length es) -> (length es + 4 <= N)%nat ->
  yields redo W m b es (list_insert_user pop redo i (mkInsert hd d (off_to_ptr pop (u64 (d + pe))) before)
    (mkCommon pe oid e)) (Z.of_nat (length (es ++ ins)), links.1, links.2) b (es ++ ins).
Proof.
  intros HW Hh Hq -> Hlen. apply (yields_insert_user pop section W m HW pe hd d before oid _ _ b es);
    [done|apply insert_first| |done|done].
  intros Hne. destruct (insert_dest Hne) as (H1 & H2 & H3).
  split_and!; [by apply Hq|split; by apply (pl_ent _ _ _ _ _ insert_placed)|].
  apply (entry_ptr_eq pop section). by apply (pl_ent _ _ _ _ _ insert_placed).
Qed.

Lemma insert_get_dest_yields W b es :
  head_quiet pop section W hd -> (forall c, c ∈ os -> entry_quiet pop section W pe c) ->
  yields redo W m b es (list_get_dest pop hd dest pe before) d b es.
Proof.
  intros Hh Hq. rewrite <- (get_dest_resolved m pe hd os dest before (st_list _ _ _ _ Hst) insert_placed).
  apply yields_get_dest; [done|]. rewrite (dl_first _ _ _ _ _ (st_list _ _ _ _ Hst)).
  intros Hne. apply Hq. destruct os; [done|left].
Qed.

Lemma fill_target x : x = next_word (ent pe oid) \/ x = prev_word (ent pe oid) -> target pop (ins ++ fill) x.
Proof.
  assert (Hf : entry_fits pe oid) by (apply (pl_ent _ _ _ _ _ Hpl); left). intros Hx. apply target_spec.
  destruct Hx as [->| ->]; [exists (oid + pe + NEXT_OFF, links.1)|exists (oid + pe + PREV_OFF, links.2)];
    (split; [apply elem_of_app; right|]); simpl;
    try (rewrite (word_ptr_eq pop section) by (done || (unfold NEXT_OFF, PREV_OFF; lia)); done);
    [left|right; left].
Qed.

Lemma insert_new_list g start : pm_crash m start ->
  (forall x, ~ log_area x -> g x = apply pop (ins ++ fill) (over (uuid_words pe oid) start) x) ->
  dlist g pe hd (inserted os dest before oid).
Proof.
  intros Hs Hg. destruct (uuid_words_over pe oid start) as [U1 U2].
  eapply dlist_ext; [intros x Hx; apply Hg|].
  - apply (list_word_log pop section) with pe hd (oid :: os); [done|].
    destruct Hx as [|[|(c & Hc & Hx)]]; [by left|right; by left|right; right; exists c]. split; [|done].
    by apply elem_of_inserted in Hc.
  - apply (insert_dlist pop section) with (f := f); try done; [apply Hst| |by destruct links].
    intros x Hx. unfold over. rewrite (uuid_words_list pe hd oid os) by done. by apply (stored_start m pe hd os).
Qed.

End Insert.

Lemma insert_finishes m pe hd os dest before oid :
  mutex_lock (head_lock hd) = 0 -> placed pe hd (oid :: os) -> stored m pe hd os -> dest = 0 \/ dest ∈ os ->
  let d := resolved os dest before in
  let links := insert_links pop (pm_read m) pe d before oid in
  finishes pop redo (uuid_words pe oid) m false [] (list_insert pop mutex_lock section pe hd dest before oid) 0
    (insert_entries pop (pm_read m) pe hd d before oid ++ fill_entries pe oid (links.1) (links.2)).
Proof.
  intros Hlock Hpl Hst Hd d links. set (W := uuid_words pe oid).
  assert (Hf : entry_fits pe oid) by (apply (pl_ent _ _ _ _ _ Hpl); left).
  assert (HW : forall x, is_Some (W !! x) -> ~ log_area x) by (intros x; by apply uuid_words_log).
  assert (Hq : forall c, c ∈ os -> entry_quiet pop section W pe c) by (intros; by eapply uuid_words_quiet).
  assert (Hh : head_quiet pop section W hd) by by eapply uuid_words_head.
  pose proof (insert_good m pe hd os dest before oid Hpl Hst Hd) as Hgi.
  pose proof (good_fill pe hd (oid :: os) oid (links.1) (links.2) Hpl ltac:(left)) as Hgf.
  pose proof (insert_entries_length (pm_read m) pe hd d before oid) as Hlen.
  pose proof (hf_addr _ _ _ (pl_head _ _ _ _ _ Hpl)) as Ha.
  unfold list_insert. eapply finishes_bind; [apply yields_check; lia|]. cbv zeta. rewrite Hlock. cbn [Z.eqb negb].
  eapply finishes_bind; [by apply (insert_get_dest_yields m pe hd os dest before oid)|]. fold d.
  eapply finishes_bind; [apply (insert_user_yields m pe hd os dest before oid); try done; simpl; lia|].
  fold d links. cbn [fst snd app].
  eapply finishes_bind.
  { rewrite (entry_ptr_eq pop section) by done. apply yields_fill; try done. lia. }
  apply finishes_set_last; [apply Hst| | |done].
  - intros [_ [=]]%app_eq_nil.
  - apply (good_ok pe hd (oid :: os)), Forall_app. by split.
Qed.

(** C23: inserting an element is atomic: [list_insert] succeeds and the list has the
    element at the place asked for; after a crash at any point, and any number of
    crashes during recovery, the lane passes its check, recovery succeeds, and the
    list is the old one or the new one, its words durable and its links, both ways
    around, and identifiers consistent.  No word of another object changes. *)
Theorem list_insert_atomic m pe hd os dest before oid :
  mutex_lock (head_lock hd) = 0 -> placed pe hd (oid :: os) -> stored m pe hd os -> dest = 0 \/ dest ∈ os ->
  atomic_change pop redo (list_insert pop mutex_lock section pe hd dest before oid) 0 m
    (list_word pe hd (oid :: os)) (fun f => dlist f pe hd os)
    (fun f => dlist f pe hd (inserted os dest before oid)).
Proof.
  intros Hlock Hpl Hst Hd. pose proof (insert_finishes m pe hd os dest before oid Hlock Hpl Hst Hd) as Hfin.
  set (d := resolved os dest before) in *. set (links := insert_links pop (pm_read m) pe d before oid) in *.
  cbv zeta in Hfin. set (es := insert_entries _ _ _ _ _ _ _ ++ _) in *.
  assert (Hf : entry_fits pe oid) by (apply (pl_ent _ _ _ _ _ Hpl); left).
  assert (Hg : Forall (good_entry pe hd (oid :: os)) es).
  { apply Forall_app. split; [by apply insert_good|apply good_fill; [done|left]]. }
  eapply finishes_atomic; [apply Hst|exact Hfin|done|..].
  - intros [_ [=]]%app_eq_nil.
  - by eapply good_ok.
  - unfold es. rewrite length_app. pose proof (insert_entries_length (pm_read m) pe hd d before oid). simpl. lia.
  - intros x [Hx|Hx%uuid_words_some]; [by eapply good_target|]. right. right. exists oid. split; [left|].
    unfold entry_word, word_off. lia.
  - intros x [->|[->|(c & Hc & Hx)]]; [right; right; apply Hst..|].
    { apply list_word_uuid. } { apply list_word_first. }
    apply elem_of_cons in Hc as [->|Hc].
    + unfold entry_word, word_off in Hx. destruct (decide (x = ent pe oid \/ x = ent pe oid + 16)) as [Hu|Hu].
      * right. left. by apply uuid_words_some.
      * left. apply (fill_target m pe hd os dest before oid Hpl).
        unfold next_word, prev_word, NEXT_OFF, PREV_OFF. lia.
    + right. right. apply Hst. right. right. eauto.
  - intros start f Hs Hsame. eapply dlist_ext; [|apply (st_list _ _ _ _ Hst)]. intros x Hx.
    rewrite Hsame; [by apply (stored_start m pe hd os)| |by apply (uuid_words_list pe hd oid os)].
    apply (list_word_log pop section) with pe hd os; [by apply (insert_placed pe hd os oid)|done].
  - intros start f Hs Hnew. by apply (insert_new_list m pe hd os dest before oid Hpl Hst Hd f start).
Qed.

(** ** Removal *)

Section Remove.
Context (m : pmem) (pe hd : Z) (os : list Z) (oid : Z).
Context (Hpl : placed pe hd os) (Hst : stored m pe hd os) (Hin : oid ∈ os).

Local Abbreviation f := (pm_read m).
Local Abbreviation rem := (remove_entries pop f pe hd oid).

Lemma remove_placed : placed pe hd (oid :: removed os oid).
Proof.
  apply placed_sub with os; [done| |].
  - apply NoDup_cons. split; [intros [? _]%elem_of_removed; done|].
    apply NoDup_filter, (pl_nodup _ _ _ _ _ Hpl).
  - intros c [->|Hc]%elem_of_cons; [done|]. by apply elem_of_removed in Hc as [_ ?].
Qed.

Lemma remove_alone_list : f (next_word (ent pe oid)) = oid -> os = [oid].
Proof.
  intros E. pose proof (st_list _ _ _ _ Hst) as Hdl.
  destruct (removed_split os oid (pl_nodup _ _ _ _ _ Hpl) Hin) as (l1 & l2 & Eos & _).
  destruct (decide (l2 ++ l1 = [])) as [[-> ->]%app_eq_nil|Hne]; [done|exfalso].
  destruct (exists_last Hne) as (u & t & Eu).
  assert (Ht : last (l2 ++ l1) = Some t) by by rewrite Eu, last_snoc.
  assert (Hh : exists h, head (l2 ++ l1) = Some h) by (destruct (l2 ++ l1); [done|by eexists]).
  destruct Hh as [h Hh].
  destruct (ring_around (fun o => next_word (ent pe o)) (fun o => prev_word (ent pe o)) f l1 l2 oid h t) as [En _];
    [rewrite <- Eos; apply Hdl|done..|].
  pose proof (pl_nodup _ _ _ _ _ Hpl) as Hn. rewrite Eos, <- Permutation_middle in Hn.
  apply NoDup_cons in Hn as [Hn _]. apply Hn. rewrite <- E, En.
  by destruct (splice_ends h t l1 l2 Hh Ht).
Qed.

Lemma remove_alone : f (next_word (ent pe oid)) = oid -> f (first_word hd) = oid /\ f (prev_word (ent pe oid)) = oid.
Proof.
  intros Eos%remove_alone_list. pose proof (st_list _ _ _ _ Hst) as Hdl.
  rewrite (dl_first _ _ _ _ _ Hdl), Eos. split; [done|].
  apply (dl_ring _ _ _ _ _ Hdl oid oid). rewrite Eos. by right.
Qed.

Lemma remove_good : Forall (good_entry pe hd os) rem.
Proof. apply good_remove; [done|]. by apply stored_neighbours with hd. Qed.

Lemma remove_single_yields W d i :
  (forall x, is_Some (W !! x) -> ~ log_area x) -> head_quiet pop section W hd ->
  entry_quiet pop section W pe oid -> i = 0 ->
  yields redo W m d [] (list_remove_single pop redo i (mkRemove pe oid hd (off_to_ptr pop (u64 (oid + pe)))))
    (Z.of_nat (length rem)) d rem.
Proof.
  intros HW Hh Hq ->. rewrite (entry_ptr_eq pop section) by apply Hq.
  apply (yields_remove_single pop section W m HW pe hd oid d [] 0); [done|done| |apply remove_alone|done|simpl; lia].
  destruct (stored_neighbours m pe hd os oid Hpl Hst Hin). split; by apply (pl_ent _ _ _ _ _ Hpl).
Qed.

(** The list after the removal, whatever happens to the entry that is removed. *)
Lemma remove_new_list g start es : pm_crash m start ->
  (forall x, list_word pe hd (removed os oid) x -> g x = apply pop (rem ++ es) start x) ->
  (forall x, list_word pe hd (removed os oid) x -> ~ target pop es x) ->
  dlist g pe hd (removed os oid).
Proof.
  intros Hs Hg Hes. eapply dlist_ext; [intros x Hx; rewrite (Hg x Hx), apply_app, apply_other by auto; reflexivity|].
  apply (remove_dlist pop section) with (f := f); try done; [apply Hst|].
  intros x Hx. by apply (stored_start m pe hd os).
Qed.

Lemma removed_word x : list_word pe hd (removed os oid) x -> list_word pe hd os x.
Proof.
  intros [|[|(c & Hc & Hx)]]; [by left|right; by left|right; right; exists c].
  split; [by apply elem_of_removed in Hc as [_ ?]|done].
Qed.

Lemma fill_target_inv o n p x : entry_fits pe o -> target pop (fill_entries pe o n p) x -> entry_word pop pe o x.
Proof.
  intros Hf (e & He & ->)%target_spec. unfold fill_entries in He.
  rewrite !elem_of_cons, elem_of_nil in He. unfold entry_word, word_off, NEXT_OFF, PREV_OFF in *.
  destruct He as [->|[->|[]]]; simpl; rewrite (word_ptr_eq pop section) by (done || lia); lia.
Qed.

End Remove.

Lemma remove_finishes m pe hd os oid :
  mutex_lock (head_lock hd) = 0 -> placed pe hd os -> stored m pe hd os -> oid ∈ os ->
  finishes pop redo ∅ m true [] (list_remove pop mutex_lock section pe hd oid) 0
    (remove_entries pop (pm_read m) pe hd oid ++ fill_entries pe oid 0 0).
Proof.
  intros Hlock Hpl Hst Hin.
  assert (HW : forall x, is_Some ((∅ : gmap Z Z) !! x) -> ~ log_area x) by by intros x [? ?].
  pose proof (quiet_empty pe hd os oid Hpl Hin) as Hq. pose proof (quiet_empty_head pe hd os Hpl) as Hh.
  pose proof (hf_addr _ _ _ (pl_head _ _ _ _ _ Hpl)) as Ha.
  pose proof (remove_entries_length (pm_read m) pe hd oid) as Hlen.
  unfold list_remove. eapply finishes_bind; [apply yields_check; lia|]. cbv zeta. rewrite Hlock. cbn [Z.eqb negb].
  eapply finishes_bind; [by apply (remove_single_yields m pe hd os oid)|].
  eapply finishes_bind.
  { rewrite (entry_ptr_eq pop section) by apply Hq. apply yields_fill; [done|apply Hq| |done|lia].
    split; [done|]. by apply (dl_uuid _ _ _ _ _ (st_list _ _ _ _ Hst)). }
  apply finishes_set_last; [apply Hst| | |done].
  - intros [_ [=]]%app_eq_nil.
  - apply (good_ok pe hd os), Forall_app. split; [by apply remove_good|by apply good_fill].
Qed.

(** C24: removing an element is atomic: [list_remove] succeeds and the list is the
    one without the element, in the same order; after a crash at any point, and any
    number of crashes during recovery, it is the old one or the new one. *)
Theorem list_remove_atomic m pe hd os oid :
  mutex_lock (head_lock hd) = 0 -> placed pe hd os -> stored m pe hd os -> oid ∈ os ->
  atomic_change pop redo (list_remove pop mutex_lock section pe hd oid) 0 m (list_word pe hd os)
    (fun f => dlist f pe hd os) (fun f => dlist f pe hd (removed os oid)).
Proof.
  intros Hlock Hpl Hst Hin.
  assert (Hf : entry_fits pe oid) by by apply (pl_ent _ _ _ _ _ Hpl).
  assert (Hg : Forall (good_entry pe hd os) (remove_entries pop (pm_read m) pe hd oid ++ fill_entries pe oid 0 0)).
  { apply Forall_app. split; [by apply remove_good|by apply good_fill]. }
  eapply finishes_atomic; [apply Hst|by apply remove_finishes with os|done|..].
  - intros [_ [=]]%app_eq_nil.
  - by eapply good_ok.
  - rewrite length_app. pose proof (remove_entries_length (pm_read m) pe hd oid). simpl. lia.
  - intros x [Hx|[? ?]]; [by eapply good_target|done].
  - intros x Hx. right. right. by apply Hst.
  - intros start f Hs Hsame. eapply dlist_ext; [|apply (st_list _ _ _ _ Hst)]. intros x Hx.
    rewrite Hsame; [by apply (stored_start m pe hd os)| |done]. by apply (list_word_log pop section) with pe hd os.
  - intros start f Hs Hnew. eapply remove_new_list; [done..| |].
    + intros x Hx. rewrite Hnew; [done|]. apply (list_word_log pop section) with pe hd os; [done|].
      by eapply removed_word.
    + intros x Hx Ht. eapply placed_apart; [by apply remove_placed|done|]. by eapply fill_target_inv.
Qed.

End Ops.
