(* ===== verification/PlistMove.v ===== *)
(** * Moving elements

    [list_move] takes an element from one list and puts it on another one, or at
    another place of the same list.  It computes the words for the insertion before
    the removal has taken effect; the cases where the two would interfere are those
    that the code treats separately. *)

From stdpp Require Import relations gmap sets.
From S2P Require Import Prelude Pmem Programs Redo RedoProofs Plist PlistLog PlistRing PlistProofs PlistOps.

Local Open Scope pmtest_scope.

Section Move.
Context (pop : PMEMobjpool) (mutex_lock : Z -> Z) (section : Z).

Local Abbreviation redo := (section_redo section).
Local Abbreviation N := 63%nat.
Local Abbreviation log_area := (log_area redo N).
Local Abbreviation ent := (ent pop).
Local Abbreviation placed := (placed pop section).
Local Abbreviation dlist := (dlist pop).
Local Abbreviation list_word := (list_word pop).
Local Abbreviation entry_fits := (entry_fits pop section).
Local Abbreviation stored := (stored pop section).

(** ** Turning a list: only the head changes *)

Lemma turn_dlist f f0 pe hd l1 l2 v :
  placed pe hd (l1 ++ l2) -> dlist f pe hd (l1 ++ l2) -> head (l2 ++ l1) = Some v ->
  (forall x, list_word pe hd (l1 ++ l2) x -> f0 x = f x) ->
  dlist (apply pop (head_entries pop f hd v) f0) pe hd (l2 ++ l1).
Proof.
  intros Hpl Hdl Hv Hf0. pose proof (pl_head _ _ _ _ _ Hpl) as Hhd.
  assert (G : forall c k, c ∈ l1 ++ l2 -> word_off k ->
    apply pop (head_entries pop f hd v) f0 (ent pe c + k) = f (ent pe c + k)).
  { intros c k Hc Hk. pose proof (pl_head_apart _ _ _ _ _ Hpl c Hc) as Ha.
    rewrite (apply_head_entries pop section) by done. unfold first_word, first_uuid, sizeof_list_entry, word_off in *.
    rewrite !(proj2 (Z.eqb_neq _ _)) by lia. simpl. by apply Hf0, list_word_entry. }
  assert (Hw : word_off 0 /\ word_off 8 /\ word_off 16 /\ word_off 24) by (unfold word_off; lia).
  destruct Hw as (W0 & W8 & W16 & W24). split.
  - rewrite (apply_head_entries pop section), Z.eqb_refl by done. by rewrite Hv.
  - intros a b Hab%cyc_rotate. destruct (cyc_elem _ _ _ Hab) as [Ha Hb].
    unfold next_word, prev_word, NEXT_OFF, PREV_OFF. rewrite !G by done.
    by apply (dl_ring _ _ _ _ _ Hdl).
  - intros c Hc%elem_swap. pose proof (G c 0 Hc W0) as E. rewrite Z.add_0_r in E.
    unfold next_uuid, prev_uuid. rewrite G, E by done. by apply (dl_uuid _ _ _ _ _ Hdl).
  - left. rewrite (apply_head_entries pop section) by done. unfold first_word, first_uuid.
    rewrite (proj2 (Z.eqb_neq hd (hd + 8))), Z.eqb_refl by lia. simpl.
    destruct (Z.eqb_spec (f hd) 0); [done|]. rewrite (Hf0 hd) by apply (list_word_uuid pop pe hd).
    destruct (dl_head _ _ _ _ _ Hdl) as [Hu|[Hnil _]]; [done|]. destruct l1, l2; done.
Qed.

(** The entries of an insertion depend on the links around its place. *)
Lemma insert_entries_ext f g pe hd d (before : bool) o :
  d <> 0 -> (before = true -> g (prev_word (ent pe d)) = f (prev_word (ent pe d)) /\
      (d =? g (first_word hd)) = (d =? f (first_word hd))) ->
  (before = false -> g (next_word (ent pe d)) = f (next_word (ent pe d))) ->
  g (first_uuid hd) = f (first_uuid hd) ->
  insert_entries pop g pe hd d before o = insert_entries pop f pe hd d before o /\
  insert_links pop g pe d before o = insert_links pop f pe d before o.
Proof.
  intros Hd H1 H2 Hu. unfold insert_entries, insert_links, head_entries. rewrite (proj2 (Z.eqb_neq d 0)), Hu by done.
  destruct before; [destruct H1 as [-> ->]|rewrite H2]; done.
Qed.

(** ** Within a list *)

Section Same.
Context (m : pmem) (pe hd : Z) (os : list Z) (dest : Z) (before : bool) (oid : Z).
Context (Hpe : 0 <= pe < 2 ^ 63) (Hlock : mutex_lock (head_lock hd) = 0).
Context (Hpl : placed pe hd os) (Hst : stored m pe hd os) (Hin : oid ∈ os) (Hd : dest = 0 \/ dest ∈ os).

Local Abbreviation f := (pm_read m).
Local Abbreviation d := (resolved os dest before).
Local Abbreviation p := (list_move pop mutex_lock section pe hd pe hd dest before oid).
Local Abbreviation atomic := (fun os' => atomic_change pop redo p 0 m (list_word pe hd os)
  (fun f => dlist f pe hd os) (fun f => dlist f pe hd os')).

Lemma same_pos o : o ∈ os -> 0 < o.
Proof. intros Ho. apply (ef_off _ _ _ _ (pl_ent _ _ _ _ _ Hpl o Ho)). Qed.

Lemma same_dest : d ∈ os.
Proof.
  apply resolved_in; [done|]. intros E. pose proof (resolved_zero os dest before same_pos E) as E'.
  rewrite E' in Hin. by apply elem_of_nil in Hin.
Qed.

Lemma same_old start g : pm_crash m start -> (forall x, ~ log_area x -> g x = start x) -> dlist g pe hd os.
Proof.
  intros Hs Hg. eapply dlist_ext; [|apply (st_list _ _ _ _ _ _ Hst)]. intros x Hx.
  rewrite Hg; [by apply (stored_start pop section m pe hd os)|]. by apply (list_word_log pop section) with pe hd os.
Qed.

(** The program after the lock, the destination and the links around it. *)
Definition same_rest : prog Z :=
  let finish redo_index :=
    (redo_log_set_last redo (redo_index - 1);; redo_log_process pop redo REDO_NUM_ENTRIES;; ret 0) in
  let ptr o := off_to_ptr pop (u64 (o + pe)) in
  if before && (f (prev_word (ptr d)) =? oid) then
    if negb (f (first_word hd) =? d) then ret 0
    else let! redo_index := list_update_head pop redo 0 hd oid in finish redo_index
  else if negb before && (f (next_word (ptr d)) =? oid) then
    if negb (f (first_word hd) =? oid) then ret 0
    else let! next := read (next_word (ptr oid)) in
         let! redo_index := list_update_head pop redo 0 hd next in finish redo_index
  else
    let! redo_index := list_remove_single pop redo 0 (mkRemove pe oid hd (ptr oid)) in
    let! r := list_insert_user pop redo redo_index (mkInsert hd d (ptr d) before) (mkCommon pe oid (ptr oid)) in
    let! redo_index := list_fill_entry_redo_log pop redo (r.1.1) (mkCommon pe oid (ptr oid)) (r.1.2) (r.2) false in
    finish redo_index.

Lemma get_dest_run : list_get_dest pop hd dest pe before m = Some (d, []).
Proof.
  rewrite <- (get_dest_resolved pop section m pe hd os dest before (st_list _ _ _ _ _ _ Hst) Hpl).
  unfold list_get_dest, get_dest. destruct (dest =? 0) eqn:E; [|done]. cbn [negb].
  rewrite bind_pure with (x := f (first_word hd)) by done.
  replace (Z.b2z before =? POBJ_LIST_DEST_HEAD) with before by by destruct before.
  destruct ((f (first_word hd) =? 0) || before) eqn:Eb; [done|]. unfold read.
  rewrite (dl_first _ _ _ _ _ (st_list _ _ _ _ _ _ Hst)) in *.
  destruct os as [|o os']; [done|]. simpl. rewrite (entry_ptr_eq pop section); [done|].
  apply (pl_ent _ _ _ _ _ Hpl). left.
Qed.

Lemma same_run : p m = if d =? oid then Some (0, []) else same_rest m.
Proof.
  pose proof (hf_addr _ _ _ (pl_head _ _ _ _ _ Hpl)) as Ha. unfold list_move.
  rewrite bind_pure with (x := tt) by (unfold check; by rewrite (proj2 (Z.eqb_neq hd 0)) by lia).
  rewrite bind_pure with (x := tt) by (unfold check; by rewrite (proj2 (Z.eqb_neq hd 0)) by lia).
  unfold list_mutexes_lock. rewrite Z.eqb_refl, orb_true_r. cbn [fst]. cbv zeta. rewrite Hlock. cbn [Z.eqb negb].
  rewrite bind_pure with (x := d) by apply get_dest_run. destruct (d =? oid); [done|].
  do 3 (erewrite bind_pure by done). unfold same_rest. cbv zeta.
  destruct (before && _); [done|]. destruct (negb before && _); [done|].
  do 2 (rewrite bind_pure with (x := tt) by (unfold check, ssize_nonneg; by rewrite (proj2 (Z.ltb_lt pe _)) by lia)).
  by rewrite Z.eqb_refl.
Qed.

Lemma same_noop (q : prog Z) : p m = q m -> q m = Some (0, []) -> atomic os.
Proof.
  intros E Hq. eapply atomic_change_eq; [exact E|].
  apply noop_atomic; [apply Hst|done|apply (st_durable _ _ _ _ _ _ Hst)|]. intros start g. apply same_old.
Qed.

(** The commit of entries for words of the list. *)
Lemma same_commit (q : prog Z) es os' :
  p m = q m -> finishes pop redo ∅ m true [] q 0 es -> es <> [] -> (length es <= N)%nat ->
  Forall (good_entry pop section pe hd os) es ->
  (forall x, list_word pe hd os' x -> list_word pe hd os x) ->
  (forall start, pm_crash m start -> dlist (apply pop es start) pe hd os') -> atomic os'.
Proof.
  intros E Hq Hne Hlen Hg Hw Hnew. eapply atomic_change_eq; [exact E|].
  eapply finishes_atomic; [apply Hst|exact Hq|done|done|by eapply good_ok|done|..].
  - intros x [Hx|[? ?]]; [by eapply good_target|done].
  - intros x Hx. right. right. by apply (st_durable _ _ _ _ _ _ Hst).
  - intros start g Hs Hg'. apply (same_old start g Hs). intros x Hx. by apply Hg'.
  - intros start g Hs Hg'. eapply dlist_ext; [|by apply (Hnew start)]. intros x Hx%Hw. rewrite Hg'; [done|].
    by apply (list_word_log pop section) with pe hd os.
Qed.

Lemma same_agree start x : pm_crash m start -> list_word pe hd os x -> start x = f x.
Proof. apply (stored_start pop section m pe hd os). done. Qed.

(** Only the head changes. *)
Lemma same_turn (q : prog Z) l1 l2 v :
  p m = q m -> os = l1 ++ l2 -> head (l2 ++ l1) = Some v ->
  q m = (let! redo_index := list_update_head pop redo 0 hd v in
    redo_log_set_last redo (redo_index - 1);; redo_log_process pop redo REDO_NUM_ENTRIES;; ret 0) m ->
  atomic (l2 ++ l1).
Proof.
  intros E Eos Hv Hq. assert (HW : forall x, is_Some ((∅ : gmap Z Z) !! x) -> ~ log_area x) by by intros x [? ?].
  pose proof (good_head pop section f pe hd os v Hpl) as Hg.
  rewrite Hq in E. eapply same_commit with (es := head_entries pop f hd v); [exact E| |done| |done| |].
  - eapply finishes_bind.
    + apply (yields_update_head pop section ∅ m HW hd v true [] 0); [|done|simpl; lia].
      by apply (quiet_empty_head pop section pe hd os).
    + apply finishes_set_last; [apply Hst|done|by eapply good_ok|done].
  - unfold head_entries. destruct (_ =? 0); simpl; lia.
  - rewrite Eos. intros x [|[|(c & Hc & Hx)]]; [by left|right; by left|right; right; exists c].
    split; [by apply elem_swap|done].
  - intros start Hs. apply turn_dlist; rewrite <- ?Eos; try done; [apply Hst|].
    intros x Hx. by apply same_agree.
Qed.

Lemma same_ptr o : o ∈ os -> off_to_ptr pop (u64 (o + pe)) = ent pe o.
Proof. intros Ho. apply (entry_ptr_eq pop section). by apply (pl_ent _ _ _ _ _ Hpl). Qed.

Lemma same_before : d <> oid -> before = true -> f (prev_word (ent pe d)) = oid -> atomic (moved os d true oid).
Proof.
  intros Hne Hb Hp. pose proof same_run as Hrun. rewrite (proj2 (Z.eqb_neq d oid)) in Hrun by done.
  unfold same_rest in Hrun. cbv zeta in Hrun. rewrite (same_ptr d same_dest), Hp, Z.eqb_refl, andb_true_r in Hrun.
  assert (Hc : cyc os oid d).
  { destruct (cyc_around os d same_dest) as (n & q & _ & Hq).
    destruct (dl_ring _ _ _ _ _ (st_list _ _ _ _ _ _ Hst) q d Hq) as [_ Eq]. by rewrite <- Hp, Eq. }
  pose proof (dl_first _ _ _ _ _ (st_list _ _ _ _ _ _ Hst)) as Hfirst. pose proof same_dest as Hd'.
  match type of Hrun with _ = (if before then ?q else _) m =>
    assert (Hq : p m = q m) by (rewrite Hrun; by rewrite Hb); clear Hrun; rename Hq into Hrun end.
  destruct (moved_before os d oid (pl_nodup _ _ _ _ _ Hpl) Hne Hc) as [[Hh ->]|(l & Eos & ->)].
  - eapply same_noop; [exact Hrun|]. rewrite (proj2 (Z.eqb_neq _ _)); [done|]. rewrite Hfirst. intros E. apply Hh.
    by apply head_default.
  - eapply (same_turn _ (d :: l) [oid] oid); [exact Hrun|exact Eos|done|].
    rewrite Hfirst, (f_equal (fun l => default 0 (head l)) Eos : default 0 (head os) = d). by rewrite Z.eqb_refl.
Qed.

Lemma same_after : d <> oid -> before = false -> f (next_word (ent pe d)) = oid -> atomic (moved os d false oid).
Proof.
  intros Hne Hb Hp. pose proof same_run as Hrun. rewrite (proj2 (Z.eqb_neq d oid)) in Hrun by done.
  unfold same_rest in Hrun. cbv zeta in Hrun.
  rewrite (same_ptr d same_dest), (same_ptr oid Hin), Hp, Z.eqb_refl, andb_true_r in Hrun.
  pose proof (st_list _ _ _ _ _ _ Hst) as Hdl.
  assert (Hc : cyc os d oid).
  { destruct (cyc_around os d same_dest) as (n & q & Hn & _).
    destruct (dl_ring _ _ _ _ _ Hdl d n Hn) as [Eq _]. by rewrite <- Hp, Eq. }
  pose proof (dl_first _ _ _ _ _ Hdl) as Hfirst. pose proof same_dest as Hd'.
  match type of Hrun with _ = (if _ then _ else if negb before then ?q else _) m =>
    assert (Hq : p m = q m) by (rewrite Hrun; by rewrite Hb); clear Hrun; rename Hq into Hrun end.
  destruct (moved_after os d oid (pl_nodup _ _ _ _ _ Hpl) Hne Hc) as [[Hh ->]|(l & Eos & ->)].
  - eapply same_noop; [exact Hrun|]. rewrite (proj2 (Z.eqb_neq _ _)); [done|]. rewrite Hfirst. intros E. apply Hh.
    by apply head_default.
  - assert (Hv : head ((l ++ [d]) ++ [oid]) = Some (f (next_word (ent pe oid)))).
    { destruct (cyc_around os oid Hin) as (n & q & Hn & _). destruct (dl_ring _ _ _ _ _ Hdl oid n Hn) as [-> _].
      destruct Hn as [Hn|[Hl _]].
      - rewrite Eos in Hn. apply adj_cons in Hn as [[_ <-]|Hn]; [by destruct l|].
        apply adj_elem in Hn as [Hn _]. pose proof (pl_nodup _ _ _ _ _ Hpl) as Hnd. rewrite Eos in Hnd.
        by apply NoDup_cons in Hnd as [? _].
      - rewrite Eos, app_comm_cons, last_snoc in Hl. congruence. }
    replace (l ++ [d; oid]) with ((l ++ [d]) ++ [oid]) by by rewrite <- app_assoc.
    eapply (same_turn _ [oid] (l ++ [d])); [exact Hrun|exact Eos|exact Hv|].
    rewrite Hfirst, (f_equal (fun l => default 0 (head l)) Eos : default 0 (head os) = oid), Z.eqb_refl.
    cbn [negb]. rewrite bind_pure with (x := f (next_word (ent pe oid))); done.
Qed.

(** *** The other cases *)

Section Apart.
Context (Hne : d <> oid).
Context (Hfar1 : before = true -> f (prev_word (ent pe d)) <> oid).
Context (Hfar2 : before = false -> f (next_word (ent pe d)) <> oid).

Local Abbreviation h := (f (next_word (ent pe oid))).
Local Abbreviation t := (f (prev_word (ent pe oid))).
Local Abbreviation rem := (remove_entries pop f pe hd oid).

Lemma apart_ends : h ∈ os /\ t ∈ os /\ h <> oid /\ t <> oid /\ f (next_word (ent pe t)) = oid /\ f (prev_word (ent pe h)) = oid.
Proof.
  pose proof (st_list _ _ _ _ _ _ Hst) as Hdl. destruct (stored_neighbours pop section m pe hd os oid Hpl Hst Hin) as [Hh Ht].
  destruct (cyc_around os oid Hin) as (n & q & Hn & Hq).
  destruct (dl_ring _ _ _ _ _ Hdl _ _ Hn) as [En En']. destruct (dl_ring _ _ _ _ _ Hdl _ _ Hq) as [Eq Eq'].
  assert (Hh' : h <> oid).
  { intros E%(remove_alone_list pop section m pe hd os oid Hpl Hst Hin). pose proof same_dest as Hd'.
    assert (Hx : d ∈ [oid]) by by rewrite <- E. by apply list_elem_of_singleton in Hx. }
  split_and!; [done|done|done| |by rewrite Eq'|by rewrite En].
  rewrite Eq'. intros Eqo. rewrite Eqo in Eq. done.
Qed.

Lemma apart_unspliced g x : apply pop rem g x = unspliced pop f g pe hd h t (f (first_word hd) =? oid) x.
Proof.
  destruct apart_ends as (Hh & Ht & Hho & _ & _). apply (remove_applied pop section); try done; [apply Hpl|..];
    by apply (pl_ent _ _ _ _ _ Hpl).
Qed.

(** Words that the removal does not change. *)
Lemma apart_kept g c k : c ∈ os -> word_off k -> (k = NEXT_OFF -> c <> t) -> (k = PREV_OFF -> c <> h) ->
  apply pop rem g (ent pe c + k) = g (ent pe c + k).
Proof.
  intros Hc Hk Hn Hp. rewrite apart_unspliced. destruct apart_ends as (Hh & Ht & _).
  pose proof (pl_apart _ _ _ _ _ Hpl c h Hc Hh) as A1. pose proof (pl_apart _ _ _ _ _ Hpl c t Hc Ht) as A2.
  pose proof (pl_head_apart _ _ _ _ _ Hpl c Hc) as A3. unfold unspliced. generalize (f (first_word hd) =? oid) as b. intros b.
  unfold first_word, first_uuid, next_word, prev_word, word_off, NEXT_OFF, PREV_OFF, sizeof_list_entry, PlistProofs.ent in *.
  rewrite !(proj2 (Z.eqb_neq (_ + k) _)) by lia. by destruct b.
Qed.

Lemma apart_entries :
  insert_entries pop (apply pop rem f) pe hd d before oid = insert_entries pop f pe hd d before oid /\
  insert_links pop (apply pop rem f) pe d before oid = insert_links pop f pe d before oid.
Proof.
  pose proof (st_list _ _ _ _ _ _ Hst) as Hdl. destruct apart_ends as (Hh & Ht & Hho & Hto & Et & Eh).
  assert (Hw : word_off NEXT_OFF /\ word_off PREV_OFF) by (unfold word_off, NEXT_OFF, PREV_OFF; lia).
  apply insert_entries_ext; [pose proof (same_pos d same_dest); lia|intros Hb; split|intros Hb|].
  - apply apart_kept; [apply same_dest|apply Hw|done|]. intros _ E. apply (Hfar1 Hb). by rewrite E, Eh.
  - rewrite apart_unspliced. unfold unspliced. rewrite Z.eqb_refl, andb_true_r.
    destruct (Z.eqb_spec (f (first_word hd)) oid) as [E|E].
    + rewrite E, (proj2 (Z.eqb_neq d oid) Hne). apply Z.eqb_neq. intros E'. apply (Hfar1 Hb). by rewrite E', Eh.
    + pose proof (pl_head_apart _ _ _ _ _ Hpl h Hh). pose proof (pl_head_apart _ _ _ _ _ Hpl t Ht).
      unfold_words. by eval_words.
  - apply apart_kept; [apply same_dest|apply Hw| |done]. intros _ E. apply (Hfar2 Hb). by rewrite E, Et.
  - rewrite apart_unspliced. unfold unspliced. generalize (f (first_word hd) =? oid) as b. intros b.
    pose proof (pl_head_apart _ _ _ _ _ Hpl h Hh). pose proof (pl_head_apart _ _ _ _ _ Hpl t Ht).
    unfold_words. eval_words. rewrite andb_false_r.
    destruct (dl_head _ _ _ _ _ Hdl) as [Hu|[Hnil _]].
    + unfold first_uuid in Hu. rewrite Hu. by destruct (b && _).
    + rewrite Hnil in Hin. by apply elem_of_nil in Hin.
Qed.

Local Abbreviation ins := (insert_entries pop f pe hd d before oid).
Local Abbreviation links := (insert_links pop f pe d before oid).
Local Abbreviation fill := (fill_entries pe oid (links.1) (links.2)).

Lemma apart_good : Forall (good_entry pop section pe hd os) (rem ++ ins ++ fill).
Proof.
  rewrite !Forall_app. split_and!.
  - by apply remove_good.
  - apply good_insert; [done|]. intros _. split; [apply same_dest|].
    by apply (stored_neighbours pop section m pe hd os d Hpl Hst), same_dest.
  - by apply good_fill.
Qed.

Lemma apart_length : (length (rem ++ ins ++ fill) <= N)%nat.
Proof.
  rewrite !length_app. pose proof (remove_entries_length pop f pe hd oid).
  pose proof (insert_entries_length pop f pe hd d before oid). simpl. lia.
Qed.

Lemma apart_finishes : p m = same_rest m /\ finishes pop redo ∅ m true [] same_rest 0 (rem ++ ins ++ fill).
Proof.
  assert (HW : forall x, is_Some ((∅ : gmap Z Z) !! x) -> ~ log_area x) by by intros x [? ?].
  pose proof (quiet_empty_head pop section pe hd os Hpl) as Hh.
  pose proof (remove_entries_length pop f pe hd oid). pose proof (insert_entries_length pop f pe hd d before oid).
  pose proof (same_pos d same_dest) as Hd0. pose proof apart_good as Hg.
  split; [by rewrite same_run, (proj2 (Z.eqb_neq d oid) Hne)|].
  unfold same_rest. cbv zeta. rewrite (same_ptr d same_dest).
  assert (E1 : before && (f (prev_word (ent pe d)) =? oid) = false).
  { apply andb_false_iff. destruct before eqn:Eb; [right; by apply Z.eqb_neq, Hfar1|by left]. }
  assert (E2 : negb before && (f (next_word (ent pe d)) =? oid) = false).
  { apply andb_false_iff. destruct before eqn:Eb; [by left|right; by apply Z.eqb_neq, Hfar2]. }
  rewrite E1, E2. eapply finishes_bind.
  { apply (remove_single_yields pop section m pe hd os oid); try done. by apply (quiet_empty pop section pe hd os). }
  eapply finishes_bind.
  { apply (yields_insert_user pop section ∅ m HW pe hd d before oid); [done|lia| |done|lia]. intros _.
    split_and!; [apply (quiet_empty pop section pe hd os); [done|apply same_dest]| |done].
    destruct (stored_neighbours pop section m pe hd os d Hpl Hst same_dest). split; by apply (pl_ent _ _ _ _ _ Hpl). }
  cbn [fst snd]. eapply finishes_bind.
  { rewrite (same_ptr oid Hin). apply yields_fill; [done|by apply (pl_ent _ _ _ _ _ Hpl)| |done|rewrite length_app; lia].
    split; [by apply (quiet_empty pop section pe hd os)|]. by apply (dl_uuid _ _ _ _ _ (st_list _ _ _ _ _ _ Hst)). }
  rewrite <- app_assoc. apply finishes_set_last; [apply Hst| |by eapply good_ok|done].
  intros [_ [_ [=]]%app_eq_nil]%app_eq_nil.
Qed.

Lemma apart_new start : pm_crash m start -> dlist (apply pop (rem ++ ins ++ fill) start) pe hd (moved os d before oid).
Proof.
  intros Hs. destruct apart_entries as [Ei El]. pose proof (same_pos d same_dest) as Hd0.
  assert (Hdz : (d =? 0) = false) by lia.
  assert (Hr : resolved (removed os oid) d before = d) by (apply resolved_at; lia).
  assert (Hm : moved os d before oid = inserted (removed os oid) d before oid).
  { unfold moved, inserted. by rewrite (proj2 (Z.eqb_neq d oid) Hne), Hdz. }
  assert (Hoid : forall k, k = 0 \/ k = 16 -> apply pop rem start (ent pe oid + k) = uuid_lo pop).
  { intros k Hk. rewrite apart_kept by (done || (unfold word_off, NEXT_OFF, PREV_OFF; lia)).
    rewrite (same_agree start) by (done || (apply list_word_entry; [done|unfold word_off; lia])).
    destruct (dl_uuid _ _ _ _ _ (st_list _ _ _ _ _ _ Hst) oid Hin) as [U1 U2].
    unfold next_uuid, prev_uuid in *. destruct Hk as [->| ->]; [by rewrite Z.add_0_r|done]. }
  rewrite Hm. eapply dlist_ext; [intros x _; rewrite apply_app; reflexivity|].
  rewrite <- Ei, <- El. rewrite <- Hr at 1 2 3.
  apply (insert_dlist pop section) with (f := apply pop rem f); rewrite ?Hr; try done.
  - by apply (remove_placed pop section pe hd os oid).
  - apply (remove_dlist pop section) with (f := f); try done. apply Hst.
  - right. unfold removed. apply list_elem_of_filter. split; [done|apply same_dest].
  - intros x Hx. apply apply_ext. apply same_agree; [done|]. by eapply removed_word.
  - unfold next_uuid. rewrite <- (Z.add_0_r (ent pe oid)). apply Hoid. lia.
  - apply Hoid. lia.
  - by destruct (insert_links pop (apply pop rem f) pe d before oid).
Qed.

Lemma same_apart : atomic (moved os d before oid).
Proof.
  destruct apart_finishes as [E Hfin]. eapply same_commit; [exact E|exact Hfin| |apply apart_length|apply apart_good| |].
  - intros [_ [_ [=]]%app_eq_nil]%app_eq_nil.
  - intros x [|[|(c & Hc & Hx)]]; [by left|right; by left|right; right; exists c]. split; [|done].
    unfold moved in Hc. destruct (d =? oid); [done|].
    assert (Hc' : c ∈ inserted (removed os oid) d before oid).
    { unfold inserted. pose proof (same_pos d same_dest). by rewrite (proj2 (Z.eqb_neq d 0)) by lia. }
    apply elem_of_inserted, elem_of_cons in Hc' as [->|Hc']; [done|]. by apply elem_of_removed in Hc' as [_ ?].
  - apply apart_new.
Qed.

End Apart.

End Same.

(** Moving an element within its list is atomic, wherever it goes: when it is
    already there nothing is written, when the list only turns the head is the only
    change, and otherwise removal and insertion happen together although the
    insertion is computed from the links before the removal. *)
Theorem list_move_same_atomic m pe hd os dest before oid :
  0 <= pe < 2 ^ 63 -> mutex_lock (head_lock hd) = 0 -> placed pe hd os -> stored m pe hd os ->
  oid ∈ os -> dest = 0 \/ dest ∈ os ->
  atomic_change pop redo (list_move pop mutex_lock section pe hd pe hd dest before oid) 0 m (list_word pe hd os)
    (fun f => dlist f pe hd os) (fun f => dlist f pe hd (moved os (resolved os dest before) before oid)).
Proof.
  intros Hpe Hlock Hpl Hst Hin Hd. set (d := resolved os dest before).
  destruct (decide (d = oid)) as [E|Hne].
  - replace (moved os d before oid) with os by (unfold moved; by rewrite (proj2 (Z.eqb_eq d oid) E)).
    apply same_noop with (q := fun _ => Some (0, [])); try done.
    rewrite (same_run m pe hd os dest before oid) by done. fold d. by rewrite (proj2 (Z.eqb_eq d oid) E).
  - destruct (decide (before = true /\ pm_read m (prev_word (ent pe d)) = oid)) as [[Hb E]|H1].
    { replace (moved os d before oid) with (moved os d true oid) by by rewrite Hb. by apply same_before. }
    destruct (decide (before = false /\ pm_read m (next_word (ent pe d)) = oid)) as [[Hb E]|H2].
    { replace (moved os d before oid) with (moved os d false oid) by by rewrite Hb. by apply same_after. }
    apply same_apart; tauto.
Qed.

End Move.
