(* ===== verification/PlistMove2.v ===== *)
(** * Moving an element to another list

    The element may use the same entry on both lists or have one for each; in the
    second case the identifiers of the new entry are stored before the log is
    committed. *)

From stdpp Require Import relations gmap sets.
From S2P Require Import Prelude Pmem Programs Redo RedoProofs Plist PlistLog PlistRing PlistProofs PlistOps.

Local Open Scope pmtest_scope.

Section Move2.
Context (pop : PMEMobjpool) (mutex_lock : Z -> Z) (section : Z).

Local Abbreviation redo := (section_redo section).
Local Abbreviation N := 63%nat.
Local Abbreviation log_area := (log_area redo N).
Local Abbreviation ent := (ent pop).
Local Abbreviation placed := (placed pop section).
Local Abbreviation dlist := (dlist pop).
Local Abbreviation list_word := (list_word pop).
Local Abbreviation stored := (stored pop section).

Definition ranges_apart (a n b k : Z) : Prop := a + n <= b \/ b + k <= a.

(** The lists share nothing but possibly the entry of [oid]. *)
Record lists_apart (pe1 hd1 : Z) (os1 : list Z) (pe2 hd2 : Z) (os2 : list Z) (oid : Z) : Prop := {
  la_heads : ranges_apart hd1 16 hd2 16;
  la_entries a b : a ∈ os1 -> b ∈ oid :: os2 ->
    (pe1 = pe2 /\ a = oid /\ b = oid) \/ ranges_apart (ent pe1 a) sizeof_list_entry (ent pe2 b) sizeof_list_entry;
  la_head1 b : b ∈ oid :: os2 -> ranges_apart (ent pe2 b) sizeof_list_entry hd1 16;
  la_head2 a : a ∈ os1 -> ranges_apart (ent pe1 a) sizeof_list_entry hd2 16;
}.

Section Two.
Context (m : pmem) (pe1 hd1 : Z) (os1 : list Z) (pe2 hd2 : Z) (os2 : list Z) (dest : Z) (before : bool) (oid : Z).
Context (Hpe1 : 0 <= pe1 < 2 ^ 63) (Hpe2 : 0 <= pe2 < 2 ^ 63).
Context (Hlock : (list_mutexes_lock mutex_lock hd2 hd1).1 = 0).
Context (Hpl1 : placed pe1 hd1 os1) (Hst1 : stored m pe1 hd1 os1) (Hin : oid ∈ os1).
Context (Hpl2 : placed pe2 hd2 (oid :: os2)) (Hst2 : stored m pe2 hd2 os2) (Hd : dest = 0 \/ dest ∈ os2).
Context (Hla : lists_apart pe1 hd1 os1 pe2 hd2 os2 oid).

Local Abbreviation f := (pm_read m).
Local Abbreviation d := (resolved os2 dest before).
Local Abbreviation W := (if pe2 =? pe1 then ∅ else uuid_words pop pe2 oid).
Local Abbreviation rem := (remove_entries pop f pe1 hd1 oid).
Local Abbreviation links := (insert_links pop f pe2 d before oid).
Local Abbreviation ins := (insert_entries pop f pe2 hd2 d before oid).
Local Abbreviation fill := (fill_entries pe2 oid (links.1) (links.2)).

(** *** Words of one list are not words of the other *)

Lemma two_words os x : os ⊆ os1 -> list_word pe1 hd1 os x -> list_word pe2 hd2 (oid :: os2) x ->
  pe1 = pe2 /\ oid ∈ os /\ entry_word pop pe2 oid x.
Proof.
  intros Hsub Hx1 Hx2. destruct Hla as [H1 H2 H3 H4].
  unfold ranges_apart, sizeof_list_entry in *.
  destruct Hx1 as [->|[->|(a & Ha & Hx1)]], Hx2 as [E|[E|(b & Hb & Hx2)]];
    unfold first_uuid, first_word in *; try (exfalso; lia).
  1,2: exfalso; specialize (H3 b Hb); unfold entry_word, word_off in Hx2; lia.
  1,2: exfalso; specialize (H4 a (Hsub a Ha)); unfold entry_word, word_off in Hx1; lia.
  destruct (H2 a b (Hsub a Ha) Hb) as [(-> & -> & ->)|Hap]; [done|].
  exfalso. unfold entry_word, word_off in *. lia.
Qed.

Lemma two_removed x : list_word pe1 hd1 (removed os1 oid) x -> list_word pe2 hd2 (oid :: os2) x -> False.
Proof.
  intros Hx1 Hx2. destruct (two_words (removed os1 oid) x) as (_ & Hin' & _); try done.
  - intros c Hc. by apply elem_of_removed in Hc as [_ ?].
  - by apply elem_of_removed in Hin' as [? _].
Qed.

Lemma two_os2 x : list_word pe1 hd1 os1 x -> list_word pe2 hd2 os2 x -> False.
Proof.
  intros Hx1 Hx2. destruct (two_words os1 x) as (_ & _ & Hw); [done|done| |].
  - destruct Hx2 as [|[|(c & Hc & Hx)]]; [by left|right; by left|right; right; exists c]. split; [by right|done].
  - by apply (placed_apart pop section pe2 hd2 oid os2 x Hpl2 Hx2).
Qed.

(** *** The words stored without the log *)

Lemma two_W x : is_Some (W !! x) -> pe2 <> pe1 /\ (x = ent pe2 oid \/ x = ent pe2 oid + 16).
Proof. destruct (Z.eqb_spec pe2 pe1); [by intros [? ?]|]. by intros Hx%uuid_words_some. Qed.

Lemma two_W_none x : (pe2 <> pe1 -> x <> ent pe2 oid /\ x <> ent pe2 oid + 16) -> W !! x = None.
Proof. intros Hx. destruct (W !! x) eqn:E; [|done]. destruct (two_W x) as [Hne Hor]; [by eexists|].
  destruct (Hx Hne) as [H1 H2]. by destruct Hor. Qed.

Lemma two_HW x : is_Some (W !! x) -> ~ log_area x.
Proof.
  intros [_ Hx]%two_W. eapply (off_log_word section); [apply (ef_log _ _ _ _ (pl_ent _ _ _ _ _ Hpl2 oid ltac:(left)))|].
  unfold sizeof_list_entry. lia.
Qed.

Lemma two_quiet1 : entry_quiet pop section W pe1 oid.
Proof.
  split; [by apply (pl_ent _ _ _ _ _ Hpl1)|]. intros k Hk. apply two_W_none. intros Hne.
  destruct (la_entries _ _ _ _ _ _ _ Hla oid oid Hin ltac:(left)) as [[? _]|Ha]; [congruence|].
  unfold ranges_apart, sizeof_list_entry in *. lia.
Qed.

Lemma two_head1 : head_quiet pop section W hd1.
Proof.
  split; [apply Hpl1|]. intros k Hk. apply two_W_none. intros Hne.
  pose proof (la_head1 _ _ _ _ _ _ _ Hla oid ltac:(left)). unfold ranges_apart, sizeof_list_entry in *. lia.
Qed.

Lemma two_quiet2 c : c ∈ os2 -> entry_quiet pop section W pe2 c.
Proof.
  intros Hc. destruct (uuid_words_quiet pop section pe2 hd2 oid os2 c Hpl2 Hc) as [Hf Hq].
  split; [done|]. intros k Hk. destruct (pe2 =? pe1); [done|]. by apply Hq.
Qed.

Lemma two_head2 : head_quiet pop section W hd2.
Proof.
  destruct (uuid_words_head pop section pe2 hd2 oid os2 Hpl2) as [Hf Hq].
  split; [done|]. intros k Hk. destruct (pe2 =? pe1); [done|]. by apply Hq.
Qed.

Lemma two_list1 x : list_word pe1 hd1 os1 x -> W !! x = None.
Proof.
  intros Hx. apply two_W_none. intros Hne.
  assert (Hnw : ~ entry_word pop pe2 oid x).
  { intros Hw. destruct (two_words os1 x) as (? & _); [done|done| |congruence].
    right. right. exists oid. split; [left|done]. }
  unfold entry_word, word_off in Hnw. lia.
Qed.

Lemma two_list2 x : list_word pe2 hd2 os2 x -> W !! x = None.
Proof.
  intros Hx. apply two_W_none. intros _. pose proof (placed_apart pop section _ _ _ _ _ Hpl2 Hx) as Hn.
  unfold entry_word, word_off in Hn. lia.
Qed.

(** *** The run *)

Lemma two_uuid_ready : uuid_ready pop section W m (negb (pe2 =? pe1)) pe2 oid.
Proof.
  destruct (Z.eqb_spec pe2 pe1) as [E|E]; simpl; [|done].
  split; [split; [apply (pl_ent _ _ _ _ _ Hpl2); left|done]|]. rewrite E.
  by apply (dl_uuid _ _ _ _ _ (st_list _ _ _ _ _ _ Hst1)).
Qed.

Lemma two_good1 : Forall (good_entry pop section pe1 hd1 os1) rem.
Proof. by apply remove_good. Qed.

Lemma two_good2 : Forall (good_entry pop section pe2 hd2 (oid :: os2)) (ins ++ fill).
Proof. apply Forall_app. split; [by apply insert_good|apply good_fill; [done|left]]. Qed.

Lemma two_length : (length rem <= 4)%nat /\ (length ins <= 4)%nat.
Proof. split; [apply remove_entries_length|apply insert_entries_length]. Qed.

Lemma two_finishes :
  finishes pop redo W m (pe2 =? pe1) [] (list_move pop mutex_lock section pe1 hd1 pe2 hd2 dest before oid) 0
    (rem ++ ins ++ fill).
Proof.
  destruct two_length as [Hl1 Hl2].
  pose proof (hf_addr _ _ _ (pl_head _ _ _ _ _ Hpl1)) as Ha1. pose proof (hf_addr _ _ _ (pl_head _ _ _ _ _ Hpl2)) as Ha2.
  assert (Hhd : (hd1 =? hd2) = false).
  { apply Z.eqb_neq. pose proof (la_heads _ _ _ _ _ _ _ Hla). unfold ranges_apart in *. lia. }
  assert (Hf2 : entry_fits pop section pe2 oid) by (apply (pl_ent _ _ _ _ _ Hpl2); left).
  unfold list_move. eapply finishes_bind; [apply yields_check; lia|]. eapply finishes_bind; [apply yields_check; lia|].
  cbv zeta. rewrite Hlock, Hhd. cbn [Z.eqb negb].
  eapply finishes_bind.
  { apply (insert_get_dest_yields pop section m pe2 hd2 os2 dest before oid); try done; [apply two_head2|apply two_quiet2]. }
  eapply finishes_bind; [apply yields_check; unfold ssize_nonneg; lia|].
  eapply finishes_bind; [apply yields_check; unfold ssize_nonneg; lia|].
  eapply finishes_bind.
  { apply (remove_single_yields pop section m pe1 hd1 os1 oid); try done; [apply two_HW|apply two_head1|apply two_quiet1]. }
  eapply finishes_bind.
  { apply (insert_user_yields pop section m pe2 hd2 os2 dest before oid); try done;
      [apply two_HW|apply two_head2|apply two_quiet2|lia]. }
  cbn [fst snd]. eapply finishes_bind.
  { rewrite (entry_ptr_eq pop section) by done.
    apply yields_fill; [apply two_HW|done|apply two_uuid_ready|done|rewrite length_app; lia]. }
  replace (negb (pe2 =? pe1) || (pe2 =? pe1)) with true by by destruct (pe2 =? pe1).
  rewrite <- app_assoc. apply finishes_set_last; [apply Hst1| | |done].
  - intros [_ [_ [=]]%app_eq_nil]%app_eq_nil.
  - apply Forall_app. split; eapply good_ok; [apply two_good1|apply two_good2].
Qed.

(** *** The lists afterwards *)

Local Abbreviation es := (rem ++ ins ++ fill).

Lemma two_over1 start x : pm_crash m start -> list_word pe1 hd1 os1 x -> over W start x = f x.
Proof.
  intros Hs Hx. unfold over. rewrite (two_list1 x Hx). simpl. by apply (stored_start pop section m pe1 hd1 os1).
Qed.

Lemma two_new1 start : pm_crash m start -> dlist (apply pop es (over W start)) pe1 hd1 (removed os1 oid).
Proof.
  intros Hs. eapply dlist_ext.
  - intros x Hx. rewrite apply_app, apply_other; [reflexivity|]. intros Ht.
    apply (two_removed x Hx). eapply good_target; [apply two_good2|done].
  - apply (remove_dlist pop section) with (f := f); try done; [apply Hst1|]. intros x. by apply two_over1.
Qed.

(** The removal changes links and heads only. *)
Lemma two_rem_uuid g k : k = 0 \/ k = 16 -> apply pop rem g (ent pe2 oid + k) = g (ent pe2 oid + k).
Proof.
  intros Hk. apply apply_other. intros (e & He & E)%target_spec.
  destruct (stored_neighbours pop section m pe1 hd1 os1 oid Hpl1 Hst1 Hin) as [Hn Hp].
  pose proof (pl_head _ _ _ _ _ Hpl1) as Hh1. pose proof (la_head1 _ _ _ _ _ _ _ Hla oid ltac:(left)) as A1.
  assert (Hhe : forall v, e ∈ head_entries pop f hd1 v -> hd1 <= off_to_ptr pop (e.1) < hd1 + 16).
  { intros v Hv. unfold head_entries in Hv.
    assert (Hor : e.1 = hd1 - addr pop + 8 \/ e.1 = hd1 - addr pop + 0).
    { apply elem_of_cons in Hv as [->|Hv]; [by left|right].
      destruct (_ =? 0); [apply list_elem_of_singleton in Hv as ->; simpl; lia|by apply elem_of_nil in Hv]. }
    destruct Hor as [-> | ->]; rewrite (head_ptr_eq pop section) by (done || lia); lia. }
  assert (Hl : forall c kk v, c ∈ os1 -> kk = NEXT_OFF \/ kk = PREV_OFF -> e = (c + pe1 + kk, v) -> False).
  { intros c kk v Hc Hkk ->. simpl in E. unfold NEXT_OFF, PREV_OFF in Hkk.
    rewrite (word_ptr_eq pop section) in E by ((by apply (pl_ent _ _ _ _ _ Hpl1)) || lia).
    destruct (la_entries _ _ _ _ _ _ _ Hla c oid Hc ltac:(left)) as [(-> & -> & _)|Hap]; [lia|].
    unfold ranges_apart, sizeof_list_entry in *. lia. }
  unfold ranges_apart, sizeof_list_entry in A1. unfold remove_entries in He.
  destruct (_ =? oid); [specialize (Hhe _ He); lia|]. apply elem_of_app in He as [He|He].
  - rewrite !elem_of_cons, elem_of_nil in He. destruct He as [He|[He|[]]]; 
      [exact (Hl _ PREV_OFF _ Hn (or_intror eq_refl) He)|exact (Hl _ NEXT_OFF _ Hp (or_introl eq_refl) He)].
  - destruct (_ =? oid); [specialize (Hhe _ He); lia|by apply elem_of_nil in He].
Qed.

Lemma two_uuid start k : pm_crash m start -> k = 0 \/ k = 16 ->
  apply pop rem (over W start) (ent pe2 oid + k) = uuid_lo pop.
Proof.
  intros Hs Hk. rewrite two_rem_uuid by done.
  destruct (Z.eqb_spec pe2 pe1) as [E|E].
  - rewrite <- (Z.eqb_eq pe2 pe1) in E. pose proof (two_over1 start (ent pe1 oid + k) Hs) as Ho. rewrite E in Ho.
    apply Z.eqb_eq in E. rewrite E, Ho by (apply list_word_entry; [done|unfold word_off; lia]).
    destruct (dl_uuid _ _ _ _ _ (st_list _ _ _ _ _ _ Hst1) oid Hin) as [U1 U2]. unfold next_uuid, prev_uuid in *.
    destruct Hk as [->| ->]; [by rewrite Z.add_0_r|done].
  - destruct (uuid_words_over pop pe2 oid start) as [U1 U2]. unfold next_uuid, prev_uuid in *.
    destruct Hk as [->| ->]; [by rewrite Z.add_0_r|done].
Qed.

Lemma two_new2 start : pm_crash m start -> dlist (apply pop es (over W start)) pe2 hd2 (inserted os2 dest before oid).
Proof.
  intros Hs. eapply dlist_ext; [intros x _; rewrite apply_app; reflexivity|].
  apply (insert_dlist pop section) with (f := f); try done; [apply Hst2| | | |by destruct links].
  - intros x Hx. rewrite apply_other.
    + unfold over. rewrite (two_list2 x Hx). by apply (stored_start pop section m pe2 hd2 os2).
    + intros Ht. apply (two_os2 x); [|done]. eapply good_target; [apply two_good1|done].
  - unfold next_uuid. rewrite <- (Z.add_0_r (ent pe2 oid)). apply two_uuid; [done|lia].
  - apply two_uuid; [done|lia].
Qed.

Lemma two_durable x : list_word pe1 hd1 os1 x \/ list_word pe2 hd2 (oid :: os2) x ->
  target pop es x \/ is_Some (W !! x) \/ pm_durable m x.
Proof.
  intros [Hx|Hx]; [right; right; by apply (st_durable _ _ _ _ _ _ Hst1)|].
  destruct Hx as [->|[->|(c & Hc & Hx)]];
    [right; right; apply (st_durable _ _ _ _ _ _ Hst2), list_word_uuid|
     right; right; apply (st_durable _ _ _ _ _ _ Hst2), list_word_first|].
  apply elem_of_cons in Hc as [->|Hc]; [|right; right; apply (st_durable _ _ _ _ _ _ Hst2); right; right; eauto].
  destruct (decide (x = ent pe2 oid \/ x = ent pe2 oid + 16)) as [Hu|Hu].
  - right. destruct (Z.eqb_spec pe2 pe1) as [E|E]; [right|left; by apply uuid_words_some].
    apply (st_durable _ _ _ _ _ _ Hst1). right. right. exists oid. by rewrite <- E.
  - left. assert (Ht : target pop (ins ++ fill) x).
    { apply (fill_target pop section m pe2 hd2 os2 dest before oid Hpl2).
      unfold entry_word, word_off, next_word, prev_word, NEXT_OFF, PREV_OFF in *. lia. }
    apply target_spec in Ht as (e & He & ->). apply target_spec. exists e. split; [|done]. apply elem_of_app. by right.
Qed.

End Two.

(** C25: moving an element to another list is atomic on both lists at once: at no
    crash is the element on both of them or on none. *)
Theorem list_move_atomic m pe1 hd1 os1 pe2 hd2 os2 dest before oid :
  0 <= pe1 < 2 ^ 63 -> 0 <= pe2 < 2 ^ 63 -> (list_mutexes_lock mutex_lock hd2 hd1).1 = 0 ->
  placed pe1 hd1 os1 -> stored m pe1 hd1 os1 -> oid ∈ os1 ->
  placed pe2 hd2 (oid :: os2) -> stored m pe2 hd2 os2 -> dest = 0 \/ dest ∈ os2 ->
  lists_apart pe1 hd1 os1 pe2 hd2 os2 oid ->
  atomic_change pop redo (list_move pop mutex_lock section pe1 hd1 pe2 hd2 dest before oid) 0 m
    (fun x => list_word pe1 hd1 os1 x \/ list_word pe2 hd2 (oid :: os2) x)
    (fun f => dlist f pe1 hd1 os1 /\ dlist f pe2 hd2 os2)
    (fun f => dlist f pe1 hd1 (removed os1 oid) /\ dlist f pe2 hd2 (inserted os2 dest before oid)).
Proof.
  intros Hpe1 Hpe2 Hlock Hpl1 Hst1 Hin Hpl2 Hst2 Hd Hla.
  pose proof (two_good1 m pe1 hd1 os1 oid Hpl1 Hst1 Hin) as Hg1.
  pose proof (two_good2 m pe2 hd2 os2 dest before oid Hpl2 Hst2 Hd) as Hg2.
  pose proof (two_length m pe1 hd1 pe2 hd2 os2 dest before oid) as [Hl1 Hl2].
  eapply finishes_atomic; [apply Hst1|by apply (two_finishes m pe1 hd1 os1 pe2 hd2 os2)| |..].
  - intros E. by rewrite E.
  - intros [_ [_ [=]]%app_eq_nil]%app_eq_nil.
  - apply Forall_app. split; by eapply good_ok.
  - rewrite !length_app. simpl. lia.
  - intros x [(e & [He|He]%elem_of_app & ->)%target_spec|[_ Hx]%(two_W pe1 pe2 oid)].
    + left. rewrite Forall_forall in Hg1. by apply Hg1.
    + right. rewrite Forall_forall in Hg2. by apply Hg2.
    + right. right. right. exists oid. split; [left|]. unfold entry_word, word_off. lia.
  - intros x Hx. by apply (two_durable m pe1 hd1 os1 pe2 hd2 os2).
  - intros start f Hs Hsame. split.
    + eapply dlist_ext; [|apply (st_list _ _ _ _ _ _ Hst1)]. intros x Hx.
      rewrite Hsame; [by apply (stored_start pop section m pe1 hd1 os1)| |eapply two_list1; eassumption].
      by apply (list_word_log pop section) with pe1 hd1 os1.
    + eapply dlist_ext; [|apply (st_list _ _ _ _ _ _ Hst2)]. intros x Hx.
      rewrite Hsame; [by apply (stored_start pop section m pe2 hd2 os2)| |eapply two_list2; eassumption].
      apply (list_word_log pop section) with pe2 hd2 os2; [by apply (insert_placed pop section pe2 hd2 os2 oid)|done].
  - intros start f Hs Hnew. split.
    + eapply dlist_ext; [|by apply (two_new1 m pe1 hd1 os1 pe2 hd2 os2 dest before oid)]. intros x Hx. rewrite Hnew; [done|].
      apply (list_word_log pop section) with pe1 hd1 os1; [done|]. by eapply removed_word.
    + eapply dlist_ext; [|by apply (two_new2 m pe1 hd1 os1 pe2 hd2 os2 dest before oid)]. intros x Hx. rewrite Hnew; [done|].
      apply (list_word_log pop section) with pe2 hd2 (oid :: os2); [done|].
      destruct Hx as [|[|(c & Hc & Hx)]]; [by left|right; by left|right; right; exists c].
      split; [by apply elem_of_inserted in Hc|done].
Qed.

End Move2.
