(* ===== verification/PlistAlloc.v ===== *)
(** * Lists and allocation

    An object that is allocated for a list, or removed to be freed, is never lost:
    the offset of the object is in the lane as long as it is on no list, the redo
    log changes the list and the lane at once, and recovery frees the object whose
    offset it finds in the lane. *)

From stdpp Require Import relations gmap sets.
From S2P Require Import Prelude Pmem Programs Redo RedoProofs Plist PlistLog PlistRing PlistProofs PlistOps.

Local Open Scope pmtest_scope.

Section Alloc.
Context (pop : PMEMobjpool) (section : Z).

Local Abbreviation redo := (section_redo section).
Local Abbreviation N := 63%nat.
Local Abbreviation log_area := (log_area redo N).
Local Abbreviation ent := (ent pop).
Local Abbreviation placed := (placed pop section).
Local Abbreviation dlist := (dlist pop).
Local Abbreviation list_word := (list_word pop).
Local Abbreviation entry_fits := (entry_fits pop section).
Local Abbreviation head_fits := (head_fits pop section).
Local Abbreviation stored := (stored pop section).

(** The lane section is in the pool. *)
Record section_fits : Prop := {
  sf_addr : 0 < addr pop <= section;
  sf_ptr : section + 8 <= 2 ^ 64;
  sf_even : even (section - addr pop);
  sf_valid : redo_log_check_offset pop (section - addr pop) = true;
}.

(** An identifier in the pool, apart from the list and the lane; 0 for none. *)
Record oid_fits (pe hd : Z) (os : list Z) (oidp : Z) : Prop := {
  of_fits : oidp <> 0 -> head_fits oidp;
  of_head : oidp <> 0 -> hd + 16 <= oidp \/ oidp + 16 <= hd;
  of_section : oidp <> 0 -> section + 8 <= oidp \/ oidp + 16 <= section;
  of_entry o : oidp <> 0 -> o ∈ os -> ent pe o + sizeof_list_entry <= oidp \/ oidp + 16 <= ent pe o;
}.

(** The lane section is apart from the list. *)
Definition section_apart (pe hd : Z) (os : list Z) : Prop :=
  (section + 8 <= hd \/ hd + 16 <= section) /\
  forall o, o ∈ os -> section + 8 <= ent pe o \/ ent pe o + sizeof_list_entry <= section.

Lemma section_ptr : section_fits -> OBJ_PTR_TO_OFF pop section = section - addr pop /\
  off_to_ptr pop (section - addr pop) = section.
Proof.
  intros [? ? _ _]. unfold OBJ_PTR_TO_OFF, off_to_ptr. rewrite !u64_small by lia. split; [done|lia].
Qed.

Lemma section_not_log : ~ log_area section.
Proof. unfold RedoProofs.log_area, section_redo. lia. Qed.

Lemma section_entry_ok v : section_fits -> entry_ok pop redo N (section - addr pop, v).
Proof.
  intros H. split_and!; simpl; [apply H| |apply H]. rewrite (proj2 (section_ptr H)). apply section_not_log.
Qed.

Lemma section_not_list pe hd os : section_apart pe hd os -> ~ list_word pe hd os section.
Proof.
  intros [Hh Ho] [E|[E|(o & Hin & Hx)]]; unfold first_uuid, first_word in *; [lia|lia|].
  specialize (Ho o Hin). unfold entry_word, word_off, sizeof_list_entry in *. lia.
Qed.

Lemma oid_not_list pe hd os oidp x : oid_fits pe hd os oidp -> oidp <> 0 -> list_word pe hd os x ->
  x <> oidp /\ x <> oidp + 8.
Proof.
  intros [_ H1 _ H2] Hne [->|[->|(o & Ho & Hx)]]; unfold first_uuid, first_word; [specialize (H1 Hne); lia..|].
  specialize (H2 o Hne Ho). unfold entry_word, word_off, sizeof_list_entry in *. lia.
Qed.

(** ** The identifier *)

Definition oid_entries (f : Z -> Z) (oidp v : Z) (inited : bool) : list (Z * Z) :=
  (if negb inited || negb (f oidp =? uuid_lo pop) then [(oidp - addr pop, uuid_lo pop)] else []) ++
  [(oidp - addr pop + 8, v)].

Lemma oid_entries_ok f oidp v inited : head_fits oidp -> Forall (entry_ok pop redo N) (oid_entries f oidp v inited).
Proof.
  intros H. pose proof (head_entries_ok pop section (fun _ => 0) oidp v H) as [H1 [H2 _]%Forall_cons]%Forall_cons.
  unfold oid_entries. destruct (_ || _); simpl; auto.
Qed.

Lemma oid_entries_length f oidp v inited : (length (oid_entries f oidp v inited) <= 2)%nat.
Proof. unfold oid_entries. destruct (_ || _); simpl; lia. Qed.

Lemma apply_oid f g oidp v inited x : head_fits oidp ->
  apply pop (oid_entries f oidp v inited) g x =
  if x =? oidp + 8 then v
  else if (x =? oidp) && (negb inited || negb (f oidp =? uuid_lo pop)) then uuid_lo pop else g x.
Proof.
  intros H. unfold oid_entries. rewrite apply_app.
  pose proof (head_ptr_eq pop section oidp 0 H ltac:(lia)) as E0. rewrite !Z.add_0_r in E0.
  pose proof (head_ptr_eq pop section oidp 8 H ltac:(lia)) as E8.
  rewrite apply_cons. cbn [fst snd]. rewrite E8. unfold apply at 1, new_value, upd. simpl.
  destruct (x =? oidp + 8); [done|]. destruct (_ || _); simpl; rewrite ?andb_true_r, ?andb_false_r; [|done].
  rewrite apply_cons. cbn [fst snd]. rewrite E0. unfold apply, new_value, upd. simpl. done.
Qed.

Lemma oid_target f oidp v inited x : head_fits oidp ->
  target pop (oid_entries f oidp v inited) x -> x = oidp \/ x = oidp + 8.
Proof.
  intros H (e & He & ->)%target_spec. unfold oid_entries in He.
  pose proof (head_ptr_eq pop section oidp 0 H ltac:(lia)) as E0. rewrite !Z.add_0_r in E0.
  pose proof (head_ptr_eq pop section oidp 8 H ltac:(lia)) as E8.
  apply elem_of_app in He as [He| ->%list_elem_of_singleton]; [|by right].
  destruct (_ || _); [apply list_elem_of_singleton in He as ->; by left|by apply elem_of_nil in He].
Qed.

Section Run.
Context (W : gmap Z Z) (m : pmem).
Context (HW : forall x, is_Some (W !! x) -> ~ log_area x).

Lemma yields_set_oid oidp v (inited : bool) b es i :
  head_quiet pop section W oidp -> (inited = true -> pm_read m oidp = uuid_lo pop \/ pm_read m oidp = 0) ->
  i = Z.of_nat (length es) -> (length es + 2 <= N)%nat ->
  yields redo W m b es (list_set_oid_redo_log pop redo i oidp v inited)
    (Z.of_nat (length (es ++ oid_entries (pm_read m) oidp v inited))) b
    (es ++ oid_entries (pm_read m) oidp v inited).
Proof using HW.
  intros Hq Hu -> Hlen. pose proof (proj1 Hq) as Hf.
  pose proof (entry_ok_even _ _ _ _ (oid_entries_ok (pm_read m) oidp v inited Hf)) as Hev.
  pose proof (head_off_eq pop section oidp 0 Hf ltac:(lia)) as E0. rewrite !Z.add_0_r in E0.
  unfold list_set_oid_redo_log, oid_entries in *. rewrite (head_off_eq pop section) by (done || lia).
  apply Forall_app in Hev as [Hev1 [Hev2 _]%Forall_cons].
  eapply yields_bind.
  { apply yields_check. unfold OBJ_PTR_IS_VALID. rewrite E0. apply (hf_uuid _ _ _ Hf). }
  eapply yields_bind; [by apply (yields_head_uuid pop section)|]. rewrite E0.
  destruct (negb inited || negb (pm_read m oidp =? uuid_lo pop)) eqn:E.
  - eapply yields_bind.
    { eapply yields_bind; [apply yields_check|].
      - destruct inited; [|done]. destruct (Hu eq_refl) as [Hu'|Hu']; [by rewrite Hu', Z.eqb_refl in E|].
        by rewrite Hu'.
      - eapply yields_bind; [apply yields_store; [done|by apply Forall_cons in Hev1 as [? _]|lia]|apply yields_ret]. }
    eapply yields_bind.
    { replace (Z.of_nat (length es) + 1) with (Z.of_nat (length (es ++ [(oidp - addr pop, uuid_lo pop)])))
        by (rewrite length_app; simpl; lia).
      apply yields_store; [done|done|rewrite length_app; simpl; lia]. }
    rewrite <- app_assoc. eapply yields_to; [apply yields_ret| |done]. rewrite length_app. simpl. lia.
  - eapply yields_bind; [apply yields_ret|]. eapply yields_bind; [apply yields_store; [done|done|lia]|].
    eapply yields_to; [apply yields_ret| |done]. rewrite length_app. simpl. lia.
Qed.

End Run.

(** ** The words of a new entry *)

Definition entry_words (pe o n p : Z) : gmap Z Z :=
  {[ next_uuid (ent pe o) := uuid_lo pop; next_word (ent pe o) := n;
     prev_uuid (ent pe o) := uuid_lo pop; prev_word (ent pe o) := p ]}.

Lemma entry_words_lookup pe o n p x :
  entry_words pe o n p !! x =
  if x =? prev_word (ent pe o) then Some p else if x =? next_word (ent pe o) then Some n
  else uuid_words pop pe o !! x.
Proof.
  unfold entry_words, uuid_words, next_uuid, prev_uuid, next_word, prev_word, NEXT_OFF, PREV_OFF.
  destruct (Z.eqb_spec x (ent pe o + 24)) as [->|H1]; [by rewrite !lookup_insert_ne, lookup_singleton_eq by lia|].
  destruct (Z.eqb_spec x (ent pe o + 8)) as [->|H2]; [by rewrite lookup_insert_ne, lookup_insert_eq by lia|].
  destruct (decide (x = ent pe o)) as [->|H3]; [by rewrite !lookup_insert_eq|].
  rewrite !(lookup_insert_ne _ _ x), (lookup_insert_ne _ (ent pe o) x) by lia.
  destruct (decide (x = ent pe o + 16)) as [->|H4]; [by rewrite lookup_insert_eq, lookup_singleton_eq|].
  by rewrite lookup_insert_ne, !lookup_singleton_ne by lia.
Qed.

Lemma entry_words_some pe o n p x : is_Some (entry_words pe o n p !! x) <-> entry_word pop pe o x.
Proof.
  rewrite entry_words_lookup. unfold next_word, prev_word, NEXT_OFF, PREV_OFF, entry_word, word_off.
  destruct (Z.eqb_spec x (ent pe o + 24)); [split; [lia|by eexists]|].
  destruct (Z.eqb_spec x (ent pe o + 8)); [split; [lia|by eexists]|]. rewrite uuid_words_some. lia.
Qed.

Lemma entry_words_none pe o n p x : ~ entry_word pop pe o x -> entry_words pe o n p !! x = None.
Proof. rewrite <- (entry_words_some pe o n p). by intros ?%eq_None_not_Some. Qed.

Lemma entry_words_over pe o n p f x :
  over (entry_words pe o n p) f x =
  if x =? prev_word (ent pe o) then p else if x =? next_word (ent pe o) then n else over (uuid_words pop pe o) f x.
Proof. unfold over. rewrite entry_words_lookup. by destruct (x =? prev_word (ent pe o)), (x =? next_word (ent pe o)). Qed.

Lemma yields_fill_persist m pe o n p b es : entry_fits pe o ->
  yields redo (entry_words pe o n p) m b es (list_fill_entry_persist pop (ent pe o) n p) tt true es.
Proof.
  intros Hf.
  assert (HW : forall x, is_Some (entry_words pe o n p !! x) -> ~ log_area x).
  { intros x Hx%entry_words_some. eapply off_log_word; [apply (ef_log _ _ _ _ Hf)|].
    unfold entry_word, word_off, sizeof_list_entry in *. lia. }
  eapply yields_words; [done|by intros m'| |]; simpl; unfold next_uuid, next_word, prev_uuid, prev_word, NEXT_OFF, PREV_OFF.
  - intros x v. rewrite !elem_of_cons, elem_of_nil, entry_words_some. unfold entry_word, word_off.
    intros [H|[H|[H|[H|[H|[H|H]]]]]]; try done; injection H; lia.
  - intros x v m' Hx. assert (He : entry_word pop pe o x) by (apply (entry_words_some pe o n p); by eexists).
    split; [|apply (persist_durable _ _ sizeof_list_entry); unfold entry_word, word_off, sizeof_list_entry in *; lia].
    rewrite pm_read_fence, pm_read_flush. rewrite entry_words_lookup in Hx.
    unfold next_word, prev_word, NEXT_OFF, PREV_OFF in Hx. unfold entry_word, word_off in He.
    destruct (Z.eqb_spec x (ent pe o + 24)) as [->|H1]; [injection Hx as ->; by rewrite pm_read_store_eq|].
    rewrite pm_read_store_ne by done.
    destruct (Z.eqb_spec x (ent pe o + 8)) as [->|H2].
    { injection Hx as ->. by rewrite pm_read_store_ne, pm_read_store_eq by lia. }
    destruct (uuid_words_over pop pe o (fun _ => 0)) as [U1 U2]. unfold over, next_uuid, prev_uuid in U1, U2.
    destruct (decide (x = ent pe o + 16)) as [->|H3].
    { rewrite Hx in U2. simpl in U2. by rewrite pm_read_store_eq. }
    assert (x = ent pe o) as -> by lia. rewrite Hx in U1. simpl in U1.
    by rewrite !pm_read_store_ne, pm_read_store_eq by lia.
Qed.

(** ** Inserting a new object *)

Section InsertNew.
Context (m : pmem) (pe hd : Z) (os : list Z) (dest : Z) (before : bool) (o oidp : Z).
Context (Hpe : 0 <= pe < 2 ^ 63) (Hpl : placed pe hd (o :: os)) (Hst : stored m pe hd os) (Hd : dest = 0 \/ dest ∈ os).
Context (Hsf : section_fits) (Hsa : section_apart pe hd (o :: os)).
Context (Hobj : pm_read m section = o) (Hobjd : pm_durable m section).
Context (Hof : oid_fits pe hd (o :: os) oidp).

Local Abbreviation f := (pm_read m).
Local Abbreviation d := (resolved os dest before).
Local Abbreviation links := (insert_links pop f pe d before o).
Local Abbreviation W := (entry_words pe o (links.1) (links.2)).
Local Abbreviation ins := (insert_entries pop f pe hd d before o).
Local Abbreviation oide := (if negb (oidp =? 0) then oid_entries f oidp o false else []).
Local Abbreviation es := (ins ++ oide ++ [(section - addr pop, 0)]).

Lemma new_fits : entry_fits pe o.
Proof. apply (pl_ent _ _ _ _ _ Hpl). left. Qed.

Lemma new_HW x : is_Some (W !! x) -> ~ log_area x.
Proof.
  intros Hx%entry_words_some. eapply off_log_word; [apply (ef_log _ _ _ _ new_fits)|].
  unfold entry_word, word_off, sizeof_list_entry in *. lia.
Qed.

Lemma new_quiet c : c ∈ os -> entry_quiet pop section W pe c.
Proof.
  intros Hc. split; [apply (pl_ent _ _ _ _ _ Hpl); by right|]. intros k Hk. apply entry_words_none.
  pose proof (pl_nodup _ _ _ _ _ Hpl) as [Hn _]%NoDup_cons.
  destruct (pl_apart _ _ _ _ _ Hpl c o) as [->|Ha]; [by right|left|done|].
  unfold entry_word, word_off, sizeof_list_entry, PlistProofs.ent in *. lia.
Qed.

Lemma new_head : head_quiet pop section W hd.
Proof.
  split; [apply Hpl|]. intros k Hk. apply entry_words_none.
  pose proof (pl_head_apart _ _ _ _ _ Hpl o ltac:(left)). unfold entry_word, word_off, sizeof_list_entry in *. lia.
Qed.

Lemma new_section : W !! section = None.
Proof.
  apply entry_words_none. pose proof (proj2 Hsa o ltac:(left)). unfold entry_word, word_off, sizeof_list_entry in *. lia.
Qed.

Lemma new_oid : oidp <> 0 -> head_quiet pop section W oidp.
Proof.
  intros Hne. split; [by apply (of_fits _ _ _ _ Hof)|]. intros k Hk. apply entry_words_none.
  pose proof (of_entry _ _ _ _ Hof o Hne ltac:(left)). unfold entry_word, word_off, sizeof_list_entry in *. lia.
Qed.

Lemma new_list x : list_word pe hd os x -> W !! x = None.
Proof. intros Hx. by apply entry_words_none, (placed_apart pop section pe hd o os). Qed.

Lemma new_good : Forall (good_entry pop section pe hd os) ins.
Proof.
  apply good_insert; [by apply (insert_placed pop section pe hd os o)|].
  by apply (insert_dest pop section m pe hd os dest before o).
Qed.

Lemma new_ok : Forall (entry_ok pop redo N) es.
Proof.
  rewrite !Forall_app. split_and!; [by eapply good_ok, new_good| |].
  - destruct (Z.eqb_spec oidp 0) as [|Hne]; [done|]. apply oid_entries_ok. by apply (of_fits _ _ _ _ Hof).
  - apply Forall_singleton. by apply section_entry_ok.
Qed.

Lemma new_lengths : (length ins <= 4)%nat /\ (length oide <= 2)%nat.
Proof.
  split; [apply insert_entries_length|]. destruct (_ =? 0); cbn [negb]; [simpl; lia|apply oid_entries_length].
Qed.

Lemma new_finishes :
  finishes pop redo W m false [] (list_insert_new_link pop section pe hd dest before oidp) tt es.
Proof.
  destruct new_lengths as [Hl1 Hl2]. pose proof (hf_addr _ _ _ (pl_head _ _ _ _ _ Hpl)) as Ha.
  unfold list_insert_new_link. cbv zeta.
  eapply finishes_bind; [apply yields_read; [apply section_not_log|apply new_section]|]. rewrite Hobj.
  eapply finishes_bind; [apply yields_check; unfold ssize_nonneg; lia|].
  eapply finishes_bind.
  { apply (insert_get_dest_yields pop section m pe hd os dest before o); try done; [apply new_head|apply new_quiet]. }
  eapply finishes_bind.
  { apply (insert_user_yields pop section m pe hd os dest before o); try done;
      [apply new_HW|apply new_head|apply new_quiet|simpl; lia]. }
  cbn [fst snd app]. rewrite (entry_ptr_eq pop section) by apply new_fits.
  eapply finishes_bind; [apply yields_fill_persist, new_fits|].
  eapply (finishes_bind _ _ _ _ _ _ (Z.of_nat (length (ins ++ oide))) _ _ true _ (ins ++ oide)).
  - destruct (Z.eqb_spec oidp 0) as [E|Hne]; cbn [negb].
    + rewrite app_nil_r. apply yields_ret.
    + pose proof (of_fits _ _ _ _ Hof Hne) as Hfo. pose proof (head_off_eq pop section oidp 0 Hfo ltac:(lia)) as E0.
      rewrite !Z.add_0_r in E0. unfold OBJ_PTR_IS_VALID. rewrite E0.
      replace (OBJ_OFF_IS_VALID pop (oidp - addr pop)) with true by (symmetry; apply (hf_uuid _ _ _ Hfo)).
      apply yields_set_oid; [apply new_HW|by apply new_oid|done|done|lia].
  - rewrite (proj1 (section_ptr Hsf)), app_assoc. apply finishes_store_last; [apply Hst| |done|rewrite length_app; lia].
    rewrite <- app_assoc. apply new_ok.
Qed.

(** The insertion through the log and the entry stored without it make the same
    list as an insertion of an entry that is filled through the log. *)
Lemma new_same start x : list_word pe hd (o :: os) x ->
  apply pop es (over W start) x =
  apply pop (ins ++ fill_entries pe o (links.1) (links.2)) (over (uuid_words pop pe o) start) x.
Proof.
  intros Hx. rewrite (apply_app pop ins), (apply_other pop (oide ++ _)), (apply_app pop ins).
  - unfold fill_entries. rewrite (apply_two pop section) by (apply new_fits || (unfold NEXT_OFF, PREV_OFF; lia)).
    fold (prev_word (ent pe o)) (next_word (ent pe o)).
    assert (Hno : entry_word pop pe o x -> ~ target pop ins x).
    { intros Hw Ht. apply (placed_apart pop section pe hd o os x Hpl); [|done].
      eapply good_target; [apply new_good|done]. }
    pose proof (entry_words_over pe o (links.1) (links.2) start x) as Ho.
    assert (Hn : entry_word pop pe o (next_word (ent pe o)) /\ entry_word pop pe o (prev_word (ent pe o))).
    { unfold entry_word, word_off, next_word, prev_word, NEXT_OFF, PREV_OFF. lia. }
    revert Ho. destruct (Z.eqb_spec x (prev_word (ent pe o))) as [->|].
    { intros Ho. rewrite apply_other; [done|]. apply Hno, Hn. }
    destruct (Z.eqb_spec x (next_word (ent pe o))) as [->|].
    { intros Ho. rewrite apply_other; [done|]. apply Hno, Hn. }
    by apply apply_ext.
  - intros (e & [He| ->%list_elem_of_singleton]%elem_of_app & ->)%target_spec.
    + destruct (Z.eqb_spec oidp 0) as [|Hne]; [by apply elem_of_nil in He|]. cbn [negb] in He.
      destruct (oid_not_list _ _ _ _ _ Hof Hne Hx) as [H1 H2].
      destruct (oid_target f oidp o false (off_to_ptr pop (e.1))); [by apply (of_fits _ _ _ _ Hof)| |done|done].
      apply target_spec. by exists e.
    + apply (section_not_list pe hd (o :: os) Hsa). simpl in Hx. by rewrite (proj2 (section_ptr Hsf)) in Hx.
Qed.

Lemma new_section_value start : apply pop es (over W start) section = 0.
Proof.
  rewrite !apply_app, apply_cons. cbn [fst snd]. rewrite (proj2 (section_ptr Hsf)).
  unfold apply at 1, new_value, upd. simpl. by rewrite Z.eqb_refl.
Qed.

Lemma new_oid_value start : oidp <> 0 ->
  apply pop es (over W start) oidp = uuid_lo pop /\ apply pop es (over W start) (oidp + 8) = o.
Proof.
  intros Hne. pose proof (of_section _ _ _ _ Hof Hne) as Hs. pose proof (of_fits _ _ _ _ Hof Hne) as Hfo.
  rewrite (proj2 (Z.eqb_neq oidp 0) Hne). cbn [negb].
  assert (H : forall x, x <> section -> apply pop (ins ++ oid_entries f oidp o false ++ [(section - addr pop, 0)]) (over W start) x =
    apply pop (oid_entries f oidp o false) (apply pop ins (over W start)) x).
  { intros x Hx. rewrite !apply_app, apply_cons. cbn [fst snd]. rewrite (proj2 (section_ptr Hsf)).
    unfold apply at 1, new_value, upd. simpl. by rewrite (proj2 (Z.eqb_neq x section) Hx). }
  rewrite !H, !apply_oid by (done || lia). rewrite (proj2 (Z.eqb_neq oidp (oidp + 8))), !Z.eqb_refl by lia. done.
Qed.

(** The words an insertion changes. *)
Definition new_words (x : Z) : Prop :=
  list_word pe hd (o :: os) x \/ x = section \/ (oidp <> 0 /\ (x = oidp \/ x = oidp + 8)).

Lemma new_targets x : target pop es x \/ is_Some (W !! x) -> new_words x.
Proof.
  intros [(e & He & ->)%target_spec|Hx%entry_words_some].
  - apply elem_of_app in He as [He|[He| ->%list_elem_of_singleton]%elem_of_app].
    + left. assert (Hg : Forall (good_entry pop section pe hd (o :: os)) ins) by by apply insert_good.
      rewrite Forall_forall in Hg. by apply Hg.
    + right. right. destruct (Z.eqb_spec oidp 0) as [|Hne]; [by apply elem_of_nil in He|]. cbn [negb] in He.
      split; [done|]. apply (oid_target f oidp o false); [by apply (of_fits _ _ _ _ Hof)|].
      apply target_spec. by exists e.
    + right. left. apply (section_ptr Hsf).
  - left. right. right. exists o. split; [left|done].
Qed.

Lemma new_durable x : new_words x -> target pop es x \/ is_Some (W !! x) \/ pm_durable m x.
Proof.
  intros [Hx|[->|[Hne Hx]]]; [|right; by right|].
  - destruct Hx as [->|[->|(c & Hc & Hx)]];
      [right; right; apply (st_durable _ _ _ _ _ _ Hst), list_word_uuid|
       right; right; apply (st_durable _ _ _ _ _ _ Hst), list_word_first|].
    apply elem_of_cons in Hc as [->|Hc]; [right; left; by apply entry_words_some|].
    right. right. apply (st_durable _ _ _ _ _ _ Hst). right. right. eauto.
  - left. pose proof (of_fits _ _ _ _ Hof Hne) as Hfo. rewrite (proj2 (Z.eqb_neq oidp 0) Hne). cbn [negb].
    pose proof (head_ptr_eq pop section oidp 0 Hfo ltac:(lia)) as E0. rewrite !Z.add_0_r in E0.
    pose proof (head_ptr_eq pop section oidp 8 Hfo ltac:(lia)) as E8.
    apply target_spec. destruct Hx as [->| ->];
      [exists (oidp - addr pop, uuid_lo pop)|exists (oidp - addr pop + 8, o)]; (split; [|done]);
      apply elem_of_app; right; apply elem_of_app; left; unfold oid_entries; cbn [negb orb app]; [left|right; left].
Qed.

Lemma new_atomic :
  atomic_change pop redo (list_insert_new_link pop section pe hd dest before oidp) tt m new_words
    (fun g => g section = o /\ dlist g pe hd os)
    (fun g => (g section = 0 /\ dlist g pe hd (inserted os dest before o)) /\
      (oidp <> 0 -> g oidp = uuid_lo pop /\ g (oidp + 8) = o)).
Proof.
  eapply finishes_atomic; [apply Hst|apply new_finishes|done| |apply new_ok| |apply new_targets|apply new_durable|..].
  - intros [_ [_ [=]]%app_eq_nil]%app_eq_nil.
  - rewrite !length_app. pose proof new_lengths. simpl. lia.
  - intros start g Hs Hsame. split.
    + rewrite Hsame; [|apply section_not_log|apply new_section]. by rewrite (durable_image m section start).
    + eapply dlist_ext; [|apply (st_list _ _ _ _ _ _ Hst)]. intros x Hx.
      rewrite Hsame; [by apply (stored_start pop section m pe hd os)| |by apply new_list].
      apply (list_word_log pop section) with pe hd os; [by apply (insert_placed pop section pe hd os o)|done].
  - intros start g Hs Hnew. split; [split|].
    + rewrite Hnew by apply section_not_log. apply new_section_value.
    + eapply dlist_ext; [|by apply (insert_new_list pop section m pe hd os dest before o Hpl Hst Hd _ start Hs)].
      intros x Hx. assert (Hx' : list_word pe hd (o :: os) x).
      { destruct Hx as [|[|(c & Hc & Hx)]]; [by left|right; by left|right; right; exists c].
        split; [by apply elem_of_inserted in Hc|done]. }
      rewrite Hnew; [by apply new_same|]. by apply (list_word_log pop section) with pe hd (o :: os).
    + intros Hne. pose proof (of_fits _ _ _ _ Hof Hne) as Hfo. destruct (new_oid_value start Hne) as [E1 E2].
      rewrite !Hnew by (eapply off_log_word; [apply (hf_log _ _ _ Hfo)|lia]). done.
Qed.

End InsertNew.

(** ** Recovery of the lane *)

Lemma lane_recovery_runs m ops :
  redo_log_recover pop redo REDO_NUM_ENTRIES m = Some (tt, ops) ->
  let v := pm_read (run ops m) section in
  lane_list_recovery pop section m = Some (if negb (v =? 0) then Some v else None, ops).
Proof.
  intros H. unfold lane_list_recovery, bind. rewrite H. simpl. by rewrite app_nil_r.
Qed.

Lemma lane_check_clean m : clean redo N (pm_read m) ->
  pm_read m section = 0 \/ OBJ_OFF_FROM_HEAP pop (pm_read m section) = true ->
  lane_list_check pop section m = Some 0.
Proof.
  intros Hc Hv. unfold lane_list_check. change REDO_NUM_ENTRIES with (Z.of_nat N). rewrite check_clean by done. simpl.
  destruct Hv as [->| ->]; [done|]. by rewrite andb_false_r.
Qed.

(** After a crash of [p], the recovery of the lane frees [o] when the list is [os],
    and nothing when it is [os']. *)
Definition recovers_lane {A} (p : prog A) (m : pmem) (pe hd : Z) (os os' : list Z) (o : Z) : Prop :=
  forall image image', crash_image p m image -> rtc (recovery_crash pop redo N) image image' ->
  exists r ops, lane_list_recovery pop section (pm_boot image') = Some (r, ops) /\
    let m' := run ops (pm_boot image') in
    lane_list_check pop section m' = Some 0 /\ (forall x, pm_durable m' x) /\
    ((r = Some o /\ dlist (pm_read m') pe hd os) \/ (r = None /\ dlist (pm_read m') pe hd os')).

Lemma atomic_recovers_lane {A} (p : prog A) r m T pe hd os os' o (old new : (Z -> Z) -> Prop) :
  o <> 0 -> OBJ_OFF_FROM_HEAP pop o = true ->
  atomic_change pop redo p r m T old new ->
  (forall g, old g \/ new g -> (g section = o /\ dlist g pe hd os) \/ (g section = 0 /\ dlist g pe hd os')) ->
  recovers_lane p m pe hd os os' o.
Proof.
  intros Hne Hh [_ Ha] Hg image image' Hc Hr. destruct (Ha image image' Hc Hr) as (ops & _ & H2 & H3 & H4 & H5 & _).
  apply lane_recovery_runs in H2. eexists _, ops. split; [exact H2|]. cbv zeta.
  destruct (Hg _ H5) as [[E Hl]|[E Hl]]; rewrite E.
  - rewrite (proj2 (Z.eqb_neq o 0) Hne). split_and!; [|done|by left]. apply lane_check_clean; [done|right; by rewrite E].
  - split_and!; [|done|by right]. apply lane_check_clean; [done|by left].
Qed.

(** Inserting a new object never loses it: the object, which the allocation has
    put into the lane, is on the list and out of the lane when the insertion
    returns, and an identifier in the pool names it; after a crash at any point, and
    any number of crashes during recovery, either the list is the old one and the
    recovery of the lane frees the object, or the list has the object and recovery
    frees nothing. *)
Theorem list_insert_new_safe m pe hd os dest before o oidp :
  0 <= pe < 2 ^ 63 -> placed pe hd (o :: os) -> stored m pe hd os -> dest = 0 \/ dest ∈ os ->
  section_fits -> section_apart pe hd (o :: os) -> pm_read m section = o -> pm_durable m section ->
  OBJ_OFF_FROM_HEAP pop o = true -> oid_fits pe hd (o :: os) oidp ->
  let p := list_insert_new_link pop section pe hd dest before oidp in
  (exists m', exec p m = Some (tt, m') /\ stored m' pe hd (inserted os dest before o) /\ pm_read m' section = 0 /\
    (oidp <> 0 -> pm_read m' oidp = uuid_lo pop /\ pm_read m' (oidp + 8) = o)) /\
  recovers_lane p m pe hd os (inserted os dest before o) o.
Proof.
  intros Hpe Hpl Hst Hd Hsf Hsa Hobj Hobjd Hheap Hof p.
  pose proof (new_atomic m pe hd os dest before o oidp Hpe Hpl Hst Hd Hsf Hsa Hobj Hobjd Hof) as Ha.
  split.
  - destruct Ha as [(m' & E & [[Hs Hl] Ho] & Hnf & _ & Hdu) _]. exists m'. split_and!; try done. split; [done| |done].
    intros x Hx. assert (Hx' : list_word pe hd (o :: os) x).
    { destruct Hx as [|[|(c & Hc & Hx)]]; [by left|right; by left|right; right; exists c].
      split; [by apply elem_of_inserted in Hc|done]. }
    apply Hdu; [by apply (list_word_log pop section) with pe hd (o :: os)|]. left. by left.
  - eapply atomic_recovers_lane; [|done|exact Ha|tauto].
    pose proof (ef_off _ _ _ _ (new_fits pe hd os o Hpl)). lia.
Qed.

(** ** Removing and freeing an object *)

Section RemoveFree.
Context (m : pmem) (pe hd : Z) (os : list Z) (o oidp : Z).
Context (Hpe : 0 <= pe < 2 ^ 63) (Hpl : placed pe hd os) (Hst : stored m pe hd os) (Hin : o ∈ os).
Context (Hsf : section_fits) (Hsa : section_apart pe hd os).
Context (Hobj : pm_read m section = 0) (Hobjd : pm_durable m section).
Context (Hne : oidp <> 0) (Hof : oid_fits pe hd os oidp) (Hoff : pm_read m (oidp + 8) = o).
Context (Huuid : pm_read m oidp = uuid_lo pop \/ pm_read m oidp = 0) (Hod : pm_durable m oidp).

Local Abbreviation f := (pm_read m).
Local Abbreviation rem := (remove_entries pop f pe hd o).
Local Abbreviation tail := (oid_entries f oidp 0 true ++ [(section - addr pop, o)]).

Lemma free_ok : Forall (entry_ok pop redo N) (rem ++ tail).
Proof.
  rewrite !Forall_app. split_and!; [by eapply good_ok, remove_good| |].
  - apply oid_entries_ok. by apply (of_fits _ _ _ _ Hof).
  - apply Forall_singleton. by apply section_entry_ok.
Qed.

Lemma free_lengths : (length rem <= 4)%nat /\ (length (oid_entries f oidp 0 true) <= 2)%nat.
Proof. split; [apply remove_entries_length|apply oid_entries_length]. Qed.

Lemma free_finishes :
  finishes pop redo ∅ m true [] (list_remove_free_unlink pop section pe hd oidp) tt (rem ++ tail).
Proof.
  destruct free_lengths as [Hl1 Hl2]. pose proof (of_fits _ _ _ _ Hof Hne) as Hfo.
  assert (HW : forall x, is_Some ((∅ : gmap Z Z) !! x) -> ~ log_area x) by by intros x [? ?].
  assert (Hq : head_quiet pop section ∅ oidp) by done.
  unfold list_remove_free_unlink. cbv zeta.
  eapply finishes_bind; [apply (yields_head_read pop section ∅ m oidp 8); [done|lia]|]. rewrite Hoff.
  eapply finishes_bind; [apply yields_check; unfold ssize_nonneg; lia|].
  eapply finishes_bind.
  { apply (remove_single_yields pop section m pe hd os o); try done;
      [by apply (quiet_empty_head pop section pe hd os)|by apply (quiet_empty pop section pe hd os)]. }
  eapply finishes_bind.
  { pose proof (head_off_eq pop section oidp 0 Hfo ltac:(lia)) as E0.
    rewrite !Z.add_0_r in E0. unfold OBJ_PTR_IS_VALID. rewrite E0.
    replace (OBJ_OFF_IS_VALID pop (oidp - addr pop)) with true by (symmetry; apply (hf_uuid _ _ _ Hfo)).
    apply yields_set_oid; [done|done|done|done|lia]. }
  rewrite (proj1 (section_ptr Hsf)), app_assoc. apply finishes_store_last; [apply Hst| |done|rewrite length_app; lia].
  rewrite <- app_assoc. apply free_ok.
Qed.

Lemma free_tail_target x : target pop tail x -> x = oidp \/ x = oidp + 8 \/ x = section.
Proof.
  intros (e & [He| ->%list_elem_of_singleton]%elem_of_app & ->)%target_spec.
  - assert (Ht : target pop (oid_entries f oidp 0 true) (off_to_ptr pop (e.1))) by (apply target_spec; by exists e).
    apply oid_target in Ht; [tauto|by apply (of_fits _ _ _ _ Hof)].
  - right. right. apply (section_ptr Hsf).
Qed.

Lemma free_list_word x : list_word pe hd (removed os o) x -> ~ target pop tail x.
Proof.
  intros Hx%removed_word Ht. destruct (oid_not_list _ _ _ _ _ Hof Hne Hx) as [H1 H2].
  apply free_tail_target in Ht as [|[|E]]; [done|done|]. subst x. by apply (section_not_list pe hd os Hsa).
Qed.

Lemma free_values start :
  apply pop (rem ++ tail) start section = o /\ apply pop (rem ++ tail) start (oidp + 8) = 0.
Proof.
  pose proof (of_section _ _ _ _ Hof Hne) as Hs. pose proof (of_fits _ _ _ _ Hof Hne) as Hfo.
  assert (H : forall x, apply pop (rem ++ tail) start x =
    if x =? section then o else apply pop (oid_entries f oidp 0 true) (apply pop rem start) x).
  { intros x. rewrite !apply_app, apply_cons. cbn [fst snd]. by rewrite (proj2 (section_ptr Hsf)). }
  rewrite !H, (apply_oid f _ oidp _ _ (oidp + 8) Hfo), !Z.eqb_refl.
  by rewrite (proj2 (Z.eqb_neq (oidp + 8) section)) by lia.
Qed.

Lemma free_atomic :
  atomic_change pop redo (list_remove_free_unlink pop section pe hd oidp) tt m
    (fun x => list_word pe hd os x \/ x = section \/ x = oidp \/ x = oidp + 8)
    (fun g => g section = 0 /\ dlist g pe hd os)
    (fun g => (g section = o /\ dlist g pe hd (removed os o)) /\ g (oidp + 8) = 0).
Proof.
  pose proof (of_fits _ _ _ _ Hof Hne) as Hfo. destruct free_lengths as [Hl1 Hl2].
  assert (Hg : Forall (good_entry pop section pe hd os) rem) by by apply remove_good.
  eapply finishes_atomic; [apply Hst|apply free_finishes|done| |apply free_ok|..].
  - intros [_ [_ [=]]%app_eq_nil]%app_eq_nil.
  - rewrite !length_app. simpl. lia.
  - intros x [Ht|[? ?]]; [|done]. destruct (decide (target pop rem x)) as [Hr|Hr]; [left; by eapply good_target|].
    assert (Ht' : target pop tail x).
    { apply target_spec in Ht as (e & He & ->). apply elem_of_app in He as [He|He]; apply target_spec; [|by exists e].
      destruct Hr. apply target_spec. by exists e. }
    apply free_tail_target in Ht'. tauto.
  - intros x [Hx|[->|[->| ->]]]; [right; right; by apply (st_durable _ _ _ _ _ _ Hst)|right; by right|right; by right|left].
    apply target_spec. exists (oidp - addr pop + 8, 0). simpl.
    rewrite (head_ptr_eq pop section) by (done || lia). split; [|done]. unfold oid_entries. rewrite !elem_of_app.
    right. left. right. by apply list_elem_of_singleton.
  - intros start g Hs Hsame. split.
    + rewrite Hsame; [by rewrite (durable_image m section start)|apply section_not_log|done].
    + eapply dlist_ext; [|apply (st_list _ _ _ _ _ _ Hst)]. intros x Hx.
      rewrite Hsame; [by apply (stored_start pop section m pe hd os)| |done].
      by apply (list_word_log pop section) with pe hd os.
  - intros start g Hs Hnew. destruct (free_values start) as [E1 E2]. split_and!.
    + rewrite Hnew by apply section_not_log. exact E1.
    + eapply (remove_new_list pop section m pe hd os o Hpl Hst Hin g start tail Hs); [|apply free_list_word].
      intros x Hx. rewrite Hnew; [done|]. apply (list_word_log pop section) with pe hd os; [done|]. by eapply removed_word.
    + rewrite Hnew; [exact E2|]. eapply off_log_word; [apply (hf_log _ _ _ Hfo)|lia].
Qed.

End RemoveFree.

(** Removing an object to free it never loses it and never frees it while it is
    on the list: when the removal returns, the object is off the list and in the
    lane, where [pfree] takes it from, and the identifier is null; after a crash at
    any point, and any number of crashes during recovery, either the list still has
    the object and the recovery of the lane frees nothing, or the list is without
    it and recovery frees it. *)
Theorem list_remove_free_safe m pe hd os o oidp :
  0 <= pe < 2 ^ 63 -> placed pe hd os -> stored m pe hd os -> o ∈ os ->
  section_fits -> section_apart pe hd os -> pm_read m section = 0 -> pm_durable m section ->
  OBJ_OFF_FROM_HEAP pop o = true -> oidp <> 0 -> oid_fits pe hd os oidp -> pm_read m (oidp + 8) = o ->
  pm_read m oidp = uuid_lo pop \/ pm_read m oidp = 0 -> pm_durable m oidp ->
  let p := list_remove_free_unlink pop section pe hd oidp in
  (exists m', exec p m = Some (tt, m') /\ stored m' pe hd (removed os o) /\ pm_read m' section = o /\
    pm_read m' (oidp + 8) = 0) /\
  recovers_lane p m pe hd (removed os o) os o.
Proof.
  intros Hpe Hpl Hst Hin Hsf Hsa Hobj Hobjd Hheap Hne Hof Hoff Huuid Hod p.
  pose proof (free_atomic m pe hd os o oidp Hpe Hpl Hst Hin Hsf Hsa Hobj Hobjd Hne Hof Hoff Huuid Hod) as Ha. split.
  - destruct Ha as [(m' & E & [[Hs Hl] Ho] & Hnf & _ & Hdu) _]. exists m'. split_and!; try done. split; [done| |done].
    intros x Hx%removed_word. apply Hdu; [by apply (list_word_log pop section) with pe hd os|]. left. by left.
  - eapply atomic_recovers_lane; [|done|exact Ha|tauto].
    pose proof (ef_off _ _ _ _ (pl_ent _ _ _ _ _ Hpl o Hin)). lia.
Qed.

End Alloc.
