(* ===== verification/PlistExamples.v ===== *)
(** * Lists in a concrete pool

    A pool with two lists, on which the theorems about the list operations are
    applied and the operations are run. *)

From stdpp Require Import relations gmap sets.
From S2P Require Import Prelude Pmem Programs Redo RedoProofs Plist PlistLog PlistRing PlistProofs PlistOps.
From S2P Require Import PlistMove PlistMove2 PlistAlloc.

(** The list [A; B] with its head at [H1], the list [C] with its head at [H2], all
    with their entries 16 bytes into the object; [D] is on no list. *)
Definition ex_section : Z := 2 ^ 32 + 8192.
Definition exA : Z := 16448.
Definition exB : Z := 16512.
Definition exC : Z := 16576.
Definition exD : Z := 16640.
Definition exH1 : Z := 2 ^ 32 + 20000.
Definition exH2 : Z := 2 ^ 32 + 20064.
Definition exP : Z := 2 ^ 32 + 20128.
Definition ex_lock (_ : Z) : Z := 0.

Definition ex_entry (o n p : Z) : list (Z * Z) :=
  let e := 2 ^ 32 + o + 16 in [(e, 77); (e + 8, n); (e + 16, 77); (e + 24, p)].
Definition ex_words : list (Z * Z) :=
  ex_entry exA exB exB ++ ex_entry exB exA exA ++ ex_entry exC exC exC ++
  [(exH1, 77); (exH1 + 8, exA); (exH2, 77); (exH2 + 8, exC); (exP, 77); (exP + 8, exB)].

Fixpoint assoc (l : list (Z * Z)) (x : Z) : Z :=
  match l with [] => 0 | (k, v) :: l' => if x =? k then v else assoc l' x end.

Lemma assoc_none l x : Forall (fun e => e.1 <> x) l -> assoc l x = 0.
Proof.
  induction 1 as [|[k v] l Hk Hl IH]; [done|]. simpl in *. by rewrite (proj2 (Z.eqb_neq x k)) by lia.
Qed.

(** The memory, with [obj] in the lane. *)
Definition ex_m (obj : Z) : pmem := pm_boot (assoc ((ex_section, obj) :: ex_words)).

Lemma ex_no_flags obj : no_flags (section_redo ex_section) 63 (ex_m obj).
Proof.
  intros i v Hi Hv. apply list_elem_of_singleton in Hv as ->.
  change (even (assoc ((ex_section, obj) :: ex_words) (redo_offset (section_redo ex_section) (Z.of_nat i)))).
  rewrite assoc_none; [reflexivity|].
  repeat apply Forall_cons_2; [..|apply Forall_nil_2]; simpl; unfold redo_offset, section_redo, ex_section, sizeof_redo_log,
    exA, exB, exC, exD, exH1, exH2, exP; lia.
Qed.

Ltac closed := first [reflexivity | vm_compute; intuition congruence | split; vm_compute; intuition congruence].

Lemma ex_entry_fits o : o ∈ [exA; exB; exC; exD] -> entry_fits sample_pool ex_section 16 o.
Proof.
  intros Ho. rewrite !elem_of_cons, elem_of_nil in Ho.
  destruct Ho as [->|[->|[->|[->|[]]]]]; split; closed.
Qed.

Lemma ex_head_fits h : h ∈ [exH1; exH2; exP] -> head_fits sample_pool ex_section h.
Proof.
  intros Hh. rewrite !elem_of_cons, elem_of_nil in Hh. destruct Hh as [->|[->|[->|[]]]]; split; closed.
Qed.

Lemma ex_placed h os : h ∈ [exH1; exH2] -> NoDup os -> (forall o, o ∈ os -> o ∈ [exA; exB; exC; exD]) ->
  placed sample_pool ex_section 16 h os.
Proof.
  intros Hh Hn Hos. split; [apply ex_head_fits; set_solver|auto using ex_entry_fits|done|..].
  - intros a b Ha%Hos Hb%Hos. rewrite !elem_of_cons, elem_of_nil in Ha, Hb.
    unfold exA, exB, exC, exD, sizeof_list_entry in *. lia.
  - intros o Ho%Hos. rewrite !elem_of_cons, elem_of_nil in Ho. rewrite !elem_of_cons, elem_of_nil in Hh.
    unfold ent, exA, exB, exC, exD, exH1, exH2, sizeof_list_entry, sample_pool in *. simpl addr. lia.
Qed.

Lemma ex_dlist1 obj : dlist sample_pool (pm_read (ex_m obj)) 16 exH1 [exA; exB].
Proof.
  split; [reflexivity| | |left; reflexivity].
  - intros a b Hab. assert (E : (a = exA /\ b = exB) \/ (a = exB /\ b = exA)).
    { destruct Hab as [Hab|[[= <-] [= <-]]]; [left|by right].
      apply adj_cons in Hab as [[<- [= <-]]|Hab]; [done|].
      apply adj_cons in Hab as [[_ [=]]|Hab]. by apply adj_nil in Hab. }
    destruct E as [[-> ->]|[-> ->]]; split; reflexivity.
  - intros o Ho. rewrite !elem_of_cons, elem_of_nil in Ho. destruct Ho as [->|[->|[]]]; split; reflexivity.
Qed.

Lemma ex_dlist2 obj : dlist sample_pool (pm_read (ex_m obj)) 16 exH2 [exC].
Proof.
  split; [reflexivity| | |left; reflexivity].
  - apply ring_single; reflexivity.
  - intros o Ho. apply list_elem_of_singleton in Ho as ->. split; reflexivity.
Qed.

Lemma ex_stored1 obj : stored sample_pool ex_section (ex_m obj) 16 exH1 [exA; exB].
Proof. split; [apply ex_dlist1|done|apply ex_no_flags]. Qed.
Lemma ex_stored2 obj : stored sample_pool ex_section (ex_m obj) 16 exH2 [exC].
Proof. split; [apply ex_dlist2|done|apply ex_no_flags]. Qed.

Lemma ex_placed1 : placed sample_pool ex_section 16 exH1 [exA; exB].
Proof. apply ex_placed; [set_solver|by apply (bool_decide_unpack _); vm_compute|set_solver]. Qed.
Lemma ex_placed1D : placed sample_pool ex_section 16 exH1 [exD; exA; exB].
Proof. apply ex_placed; [set_solver|by apply (bool_decide_unpack _); vm_compute|set_solver]. Qed.
Lemma ex_placed2B : placed sample_pool ex_section 16 exH2 [exB; exC].
Proof. apply ex_placed; [set_solver|by apply (bool_decide_unpack _); vm_compute|set_solver]. Qed.

(** ** Applications of the theorems *)

Lemma list_insert_atomic_witness :
  atomic_change sample_pool (section_redo ex_section)
    (list_insert sample_pool ex_lock ex_section 16 exH1 exB true exD) 0 (ex_m 0)
    (list_word sample_pool 16 exH1 [exD; exA; exB])
    (fun f => dlist sample_pool f 16 exH1 [exA; exB]) (fun f => dlist sample_pool f 16 exH1 [exA; exD; exB]).
Proof.
  apply (list_insert_atomic sample_pool ex_lock ex_section (ex_m 0) 16 exH1 [exA; exB] exB true exD).
  - reflexivity.
  - apply ex_placed1D.
  - apply ex_stored1.
  - right. right. left.
Defined.

Lemma list_remove_atomic_witness :
  atomic_change sample_pool (section_redo ex_section)
    (list_remove sample_pool ex_lock ex_section 16 exH1 exA) 0 (ex_m 0) (list_word sample_pool 16 exH1 [exA; exB])
    (fun f => dlist sample_pool f 16 exH1 [exA; exB]) (fun f => dlist sample_pool f 16 exH1 [exB]).
Proof.
  apply (list_remove_atomic sample_pool ex_lock ex_section (ex_m 0) 16 exH1 [exA; exB] exA).
  - reflexivity.
  - apply ex_placed1.
  - apply ex_stored1.
  - left.
Defined.

Lemma list_move_same_atomic_witness :
  atomic_change sample_pool (section_redo ex_section)
    (list_move sample_pool ex_lock ex_section 16 exH1 16 exH1 0 true exB) 0 (ex_m 0)
    (list_word sample_pool 16 exH1 [exA; exB])
    (fun f => dlist sample_pool f 16 exH1 [exA; exB]) (fun f => dlist sample_pool f 16 exH1 [exB; exA]).
Proof.
  apply (list_move_same_atomic sample_pool ex_lock ex_section (ex_m 0) 16 exH1 [exA; exB] 0 true exB).
  - lia.
  - reflexivity.
  - apply ex_placed1.
  - apply ex_stored1.
  - right. left.
  - left. reflexivity.
Defined.

Lemma ex_apart : lists_apart sample_pool 16 exH1 [exA; exB] 16 exH2 [exC] exB.
Proof.
  split.
  - left. vm_compute. congruence.
  - intros a b Ha Hb. rewrite !elem_of_cons, elem_of_nil in Ha. rewrite !elem_of_cons, elem_of_nil in Hb.
    unfold ranges_apart, ent, exA, exB, exC, sizeof_list_entry in *. lia.
  - intros b Hb. rewrite !elem_of_cons, elem_of_nil in Hb.
    unfold ranges_apart, ent, exB, exC, exH1, sizeof_list_entry, sample_pool in *. simpl addr. lia.
  - intros a Ha. rewrite !elem_of_cons, elem_of_nil in Ha.
    unfold ranges_apart, ent, exA, exB, exH2, sizeof_list_entry, sample_pool in *. simpl addr. lia.
Qed.

Lemma list_move_atomic_witness :
  atomic_change sample_pool (section_redo ex_section)
    (list_move sample_pool ex_lock ex_section 16 exH1 16 exH2 0 false exB) 0 (ex_m 0)
    (fun x => list_word sample_pool 16 exH1 [exA; exB] x \/ list_word sample_pool 16 exH2 [exB; exC] x)
    (fun f => dlist sample_pool f 16 exH1 [exA; exB] /\ dlist sample_pool f 16 exH2 [exC])
    (fun f => dlist sample_pool f 16 exH1 [exA] /\ dlist sample_pool f 16 exH2 [exC; exB]).
Proof.
  apply (list_move_atomic sample_pool ex_lock ex_section (ex_m 0) 16 exH1 [exA; exB] 16 exH2 [exC] 0 false exB).
  - lia.
  - lia.
  - reflexivity.
  - apply ex_placed1.
  - apply ex_stored1.
  - right. left.
  - apply ex_placed2B.
  - apply ex_stored2.
  - left. reflexivity.
  - apply ex_apart.
Defined.

Lemma ex_section_fits : section_fits sample_pool ex_section.
Proof. split; closed. Qed.

Lemma ex_section_apart os : (forall o, o ∈ os -> o ∈ [exA; exB; exC; exD]) -> section_apart sample_pool ex_section 16 exH1 os.
Proof.
  intros Hos. split; [left; vm_compute; congruence|]. intros o Ho%Hos. rewrite !elem_of_cons, elem_of_nil in Ho.
  unfold ent, exA, exB, exC, exD, ex_section, sizeof_list_entry, sample_pool in *. simpl addr. lia.
Qed.

Lemma ex_oid_fits os : (forall o, o ∈ os -> o ∈ [exA; exB; exC; exD]) -> oid_fits sample_pool ex_section 16 exH1 os exP.
Proof.
  intros Hos. split; intros.
  - apply ex_head_fits. set_solver.
  - left. vm_compute. congruence.
  - left. vm_compute. congruence.
  - rename select (_ ∈ os) into Ho. apply Hos in Ho. rewrite !elem_of_cons, elem_of_nil in Ho.
    unfold ent, exA, exB, exC, exD, exP, sizeof_list_entry, sample_pool in *. simpl addr. lia.
Qed.

Lemma list_insert_new_safe_witness :
  let p := list_insert_new_link sample_pool ex_section 16 exH1 0 false exP in
  (exists m', exec p (ex_m exD) = Some (tt, m') /\
    stored sample_pool ex_section m' 16 exH1 [exA; exB; exD] /\ pm_read m' ex_section = 0 /\
    (exP <> 0 -> pm_read m' exP = 77 /\ pm_read m' (exP + 8) = exD)) /\
  recovers_lane sample_pool ex_section p (ex_m exD) 16 exH1 [exA; exB] [exA; exB; exD] exD.
Proof.
  apply (list_insert_new_safe sample_pool ex_section (ex_m exD) 16 exH1 [exA; exB] 0 false exD exP).
  - lia.
  - apply ex_placed1D.
  - apply ex_stored1.
  - left. reflexivity.
  - apply ex_section_fits.
  - apply ex_section_apart. set_solver.
  - reflexivity.
  - reflexivity.
  - reflexivity.
  - apply ex_oid_fits. set_solver.
Defined.

Lemma list_remove_free_safe_witness :
  let p := list_remove_free_unlink sample_pool ex_section 16 exH1 exP in
  (exists m', exec p (ex_m 0) = Some (tt, m') /\
    stored sample_pool ex_section m' 16 exH1 [exA] /\ pm_read m' ex_section = exB /\ pm_read m' (exP + 8) = 0) /\
  recovers_lane sample_pool ex_section p (ex_m 0) 16 exH1 [exA] [exA; exB] exB.
Proof.
  apply (list_remove_free_safe sample_pool ex_section (ex_m 0) 16 exH1 [exA; exB] exB exP).
  - lia.
  - apply ex_placed1.
  - apply ex_stored1.
  - right. left.
  - apply ex_section_fits.
  - apply ex_section_apart. set_solver.
  - reflexivity.
  - reflexivity.
  - reflexivity.
  - discriminate.
  - apply ex_oid_fits. set_solver.
  - reflexivity.
  - left. reflexivity.
  - reflexivity.
Defined.

(** ** Locks *)

(** Two heads are locked in ascending order, whichever way they are given, and when
    a lock cannot be taken no other one is kept. *)
Lemma list_mutexes_lock_order mutex_lock h1 h2 :
  h1 <> h2 -> h1 <> 0 -> h2 <> 0 ->
  let lo := head_lock (Z.min h1 h2) in
  let hi := head_lock (Z.max h1 h2) in
  list_mutexes_lock mutex_lock h1 h2 =
  if negb (mutex_lock lo =? 0) then (mutex_lock lo, [Lock lo])
  else if negb (mutex_lock hi =? 0) then (mutex_lock hi, [Lock lo; Lock hi; Unlock lo])
  else (0, [Lock lo; Lock hi]).
Proof.
  intros H12 H1 H2 lo hi. unfold list_mutexes_lock, lo, hi, head_lock.
  rewrite (proj2 (Z.eqb_neq h2 0)), (proj2 (Z.eqb_neq h1 h2)) by done. simpl.
  destruct (Z.ltb_spec (h1 + 16) (h2 + 16)).
  - by rewrite (Z.min_l h1 h2), (Z.max_r h1 h2) by lia.
  - by rewrite (Z.min_r h1 h2), (Z.max_l h1 h2) by lia.
Qed.
