(* ===== verification/Btt.v ===== *)
(** * Block translation tables: [nvml/src/libpmemblk/btt.c]

    Atomic writes of single blocks to a namespace (a file).  An external block
    number is looked up in the map of its arena, which gives the internal block
    that holds the data; a write goes to a free block, which a flog entry of the
    writing lane then exchanges with the old one.

    The namespace is the array of its bytes, reached through the callbacks of
    [btt.h]; an access to an offset for which [io_error] holds fails.  An operation
    works on the run-time state of its arena (or of the whole table), and returns
    its result or an [errno] together with the writes it made, in order, from
    which the proofs derive what a crash can leave behind.  Integers have the
    widths of the source: an offset into the data area is computed in 32 bits, as
    there.  Locks and the waiting for concurrent readers are not modelled beyond
    what one thread sees of them: a wait that would never end is an error. *)

From S2P Require Import Prelude Util.

Definition BTT_ALIGNMENT : Z := 4096.
Definition sizeof_btt_info : Z := 4096.
Definition BTTINFO_FLAG_ERROR : Z := 1.
Definition BTTINFO_FLAG_ERROR_MASK : Z := 1.
Definition BTTINFO_MAJOR_VERSION : Z := 1.
Definition BTTINFO_MINOR_VERSION : Z := 1.
Definition BTT_FLOG_PAIR_ALIGN : Z := 64.
Definition sizeof_btt_flog : Z := 16.
Definition BTT_MAP_ENTRY_SIZE : Z := 4.
Definition BTT_MAP_ENTRY_ERROR : Z := 0x40000000.
Definition BTT_MAP_ENTRY_ZERO : Z := 0x80000000.
Definition BTT_MAP_ENTRY_NORMAL : Z := 0xC0000000.
Definition BTT_MAP_ENTRY_LBA_MASK : Z := 0x3fffffff.
Definition BTT_MIN_SIZE : Z := 2 ^ 20 * 16.
Definition BTT_MAX_ARENA : Z := 2 ^ 39.
Definition BTT_MIN_LBA_SIZE : Z := 512.
Definition BTT_INTERNAL_LBA_ALIGNMENT : Z := 256.
Definition BTT_DEFAULT_NFREE : Z := 256.


(** ** Data *)

Record btt_flog := mkFlog { f_lba : Z; f_old_map : Z; f_new_map : Z; f_seq : Z }.
Definition Zflog : btt_flog := mkFlog 0 0 0 0.

(** [entries] as a pair, [next] as a boolean. *)
Record flog_runtime := mkRuntime { flog : btt_flog; entries : Z * Z; next : bool }.

Record arena := mkArena {
  flags : Z; external_nlba : Z; arena_lbasize : Z; internal_nlba : Z;
  startoff : Z; dataoff : Z; mapoff : Z; flogoff : Z; nextoff : Z;
  flogs : list flog_runtime; rtt : list Z;
}.
Definition Zarena : arena := mkArena 0 0 0 0 0 0 0 0 0 [] [].

Definition set_flags (v : Z) (a : arena) : arena :=
  mkArena v (external_nlba a) (arena_lbasize a) (internal_nlba a) (startoff a) (dataoff a) (mapoff a)
    (flogoff a) (nextoff a) (flogs a) (rtt a).
Definition set_flogs (v : list flog_runtime) (a : arena) : arena :=
  mkArena (flags a) (external_nlba a) (arena_lbasize a) (internal_nlba a) (startoff a) (dataoff a)
    (mapoff a) (flogoff a) (nextoff a) v (rtt a).
Definition set_rtt (v : list Z) (a : arena) : arena :=
  mkArena (flags a) (external_nlba a) (arena_lbasize a) (internal_nlba a) (startoff a) (dataoff a)
    (mapoff a) (flogoff a) (nextoff a) (flogs a) v.

Record btt := mkBtt {
  nlane : Z; laidout : bool; uuid : list Z; parent_uuid : list Z; rawsize : Z; lbasize : Z;
  nfree : Z; nlba : Z; narena : Z; arenas : list arena;
}.

(** ** The namespace *)

Definition media : Type := Z -> Z.

(** A write, or the zeroing of a range. *)
Inductive nsop := W (off : Z) (bs : list Z) | Zero (off n : Z).

Definition op_off (o : nsop) : Z := match o with W off _ => off | Zero off _ => off end.
Definition op_len (o : nsop) : Z := match o with W _ bs => Z.of_nat (length bs) | Zero _ n => n end.

Definition apply (m : media) (o : nsop) : media := fun x =>
  match o with
  | W off bs =>
      if (off <=? x) && (x <? off + Z.of_nat (length bs)) then default 0 (bs !! Z.to_nat (x - off)) else m x
  | Zero off n => if (off <=? x) && (x <? off + n) then 0 else m x
  end.
Definition applies (m : media) (ops : list nsop) : media := foldl apply m ops.

Definition get (m : media) (off n : Z) : list Z :=
  (fun i => m (off + Z.of_nat i)) <$> seq 0 (Z.to_nat n).

(** ** Programs *)

(** A run on a namespace and a state [S]: an [errno] or a result, the new state
    and the operations on the namespace. *)
Definition io (S A : Type) : Type := media -> S -> (Z + A) * S * list nsop.

Section Io.
Context {S : Type}.

Definition ret {A} (x : A) : io S A := fun _ s => (inr x, s, []).
Definition fail {A} (errno : Z) : io S A := fun _ s => (inl errno, s, []).
Definition bind {A B} (p : io S A) (q : A -> io S B) : io S B := fun m s =>
  let '(r, s1, ops1) := p m s in
  match r with
  | inl e => (inl e, s1, ops1)
  | inr x => let '(r2, s2, ops2) := q x (applies m ops1) s1 in (r2, s2, ops1 ++ ops2)
  end.
(** [p], and on an error the handler. *)
Definition catch {A} (p : io S A) (h : Z -> io S A) : io S A := fun m s =>
  let '(r, s1, ops1) := p m s in
  match r with
  | inl e => let '(r2, s2, ops2) := h e (applies m ops1) s1 in (r2, s2, ops1 ++ ops2)
  | inr x => (inr x, s1, ops1)
  end.
Definition state : io S S := fun _ s => (inr s, s, []).
Definition modify (f : S -> S) : io S unit := fun _ s => (inr tt, f s, []).
(** A value the code obtains by an index that it does not check. *)
Definition checked {A} (x : option A) : io S A := match x with Some y => ret y | None => fail (-1) end.

End Io.

Declare Scope btt_scope.
Delimit Scope btt_scope with btt.
Notation "x <- p ;; q" := (bind p (fun x => q)) (at level 100, p at next level, right associativity) : btt_scope.
Notation "p ;;; q" := (bind p (fun _ => q)) (at level 100, right associativity) : btt_scope.
Open Scope btt_scope.

(** ** Entries *)

Definition Nseq (seq : Z) : Z :=
  match Z.land seq 3 with 0 => 0 | 1 => 2 | 2 => 3 | _ => 1 end.

(** [~BTT_MAP_ENTRY_LBA_MASK], as a [uint32_t]. *)
Definition entry_flags (map_entry : Z) : Z := Z.land map_entry (u32 (Z.lnot BTT_MAP_ENTRY_LBA_MASK)).

Definition map_entry_is_zero (e : Z) : bool := entry_flags e =? BTT_MAP_ENTRY_ZERO.
Definition map_entry_is_error (e : Z) : bool := entry_flags e =? BTT_MAP_ENTRY_ERROR.
Definition map_entry_is_initial (e : Z) : bool := entry_flags e =? 0.
Definition map_entry_is_zero_or_initial (e : Z) : bool :=
  (entry_flags e =? 0) || (entry_flags e =? BTT_MAP_ENTRY_ZERO).

(** The entry that is valid, with the index of the other one. *)
Definition btt_flog_get_valid (f0 f1 : btt_flog) : option (bool * btt_flog) :=
  if f_seq f0 =? f_seq f1 then None
  else if f_seq f0 =? 0 then Some (false, f1)
  else if f_seq f1 =? 0 then Some (true, f0)
  else if Nseq (f_seq f0) =? f_seq f1 then Some (false, f1)
  else Some (true, f0).

Definition flog_of_bytes (bs : list Z) : btt_flog :=
  mkFlog (le_value (take 4 bs)) (le_value (take 4 (drop 4 bs)))
    (le_value (take 4 (drop 8 bs))) (le_value (take 4 (drop 12 bs))).
Definition bytes_of_flog (f : btt_flog) : list Z :=
  le_bytes 4 (f_lba f) ++ le_bytes 4 (f_old_map f) ++ le_bytes 4 (f_new_map f) ++ le_bytes 4 (f_seq f).

(** The 32-bit words of a block of bytes, for the checksum. *)
Fixpoint words_of (n : nat) (bs : list Z) : list Z :=
  match n with O => [] | S n' => le_value (take 4 bs) :: words_of n' (drop 4 bs) end.
Definition bytes_of (ws : list Z) : list Z := mjoin (le_bytes 4 <$> ws).

(** Offsets in [struct btt_info]. *)
Definition info_flags : nat := 48.
Definition info_infooff : nat := 112.
Definition info_checksum : nat := 4088.

Definition info_field (info : list Z) (off n : nat) : Z := le_value (take n (drop off info)).
Definition info_set (info : list Z) (off n : nat) (v : Z) : list Z :=
  take off info ++ le_bytes n v ++ drop (off + n) info.
(** [util_checksum(&info, sizeof(info), &info.checksum, 1)]. *)
Definition info_sum (info : list Z) : list Z :=
  bytes_of (util_checksum (words_of 1024 info) (info_checksum / 4) true).2.

(** The callbacks of [struct ns_callback] and the environment: the offsets at which
    I/O fails and the [errno] it leaves, the length [nsmap] maps of a request (or
    an [errno]), whether a new namespace is zeroed, whether allocations succeed,
    and what [util_uuid_generate] produces. *)
Class ns_callback := {
  io_error : Z -> bool;
  ns_errno : Z;
  nsmap_len : Z -> Z -> Z + Z;
  ns_is_zeroed : bool;
  malloc : bool;
  uuid_generate : Z + list Z;
}.

Section Btt.
Context `{ns_callback}.

Definition nsread {S} (off n : Z) : io S (list Z) := fun m s =>
  if io_error off then (inl ns_errno, s, []) else (inr (get m off n), s, []).
Definition nswrite {S} (bs : list Z) (off : Z) : io S unit := fun _ s =>
  if io_error off then (inl ns_errno, s, []) else (inr tt, s, [W off bs]).
Definition nszero {S} (n off : Z) : io S unit := fun _ s =>
  if io_error off then (inl ns_errno, s, []) else (inr tt, s, [Zero off n]).

(** ** One arena *)

Section Arena.
(** The fields of [struct btt] that the operations on an arena read. *)
Context (bttp : btt).

Definition invalid_lba (lba : Z) : bool := nlba bttp <=? lba.

(** [arenap->mapoff + BTT_MAP_ENTRY_SIZE * lba]. *)
Definition map_entry_off (a : arena) (lba : Z) : Z := u64 (mapoff a + u32 (BTT_MAP_ENTRY_SIZE * lba)).

Definition read_flog_pair (lane flog_off : Z) : io arena flog_runtime :=
  let ents := (flog_off, u64 (flog_off + sizeof_btt_flog)) in
  if nfree bttp <=? lane then fail EINVAL
  else if flog_off =? 0 then fail EINVAL
  else
    bs <- nsread flog_off (2 * sizeof_btt_flog);;
    let f0 := flog_of_bytes (take 16 bs) in
    let f1 := flog_of_bytes (drop 16 bs) in
    if invalid_lba (f_lba f0) then fail EINVAL
    else if invalid_lba (f_lba f1) then fail EINVAL
    else
      match btt_flog_get_valid f0 f1 with
      | None =>
          modify (fun a => set_flags (Z.lor (flags a) BTTINFO_FLAG_ERROR) a);;;
          ret (mkRuntime Zflog ents false)
      | Some (nxt, cur) =>
          let rt := mkRuntime cur ents nxt in
          if f_old_map cur =? f_new_map cur then ret rt
          else
            a <- state;;
            eb <- nsread (map_entry_off a (f_lba cur)) 4;;
            let entry := le_value eb in
            let entry := if map_entry_is_initial entry then Z.lor (f_lba cur) BTT_MAP_ENTRY_NORMAL else entry in
            if negb (f_new_map cur =? entry) && (f_old_map cur =? entry) then
              nswrite (le_bytes 4 (f_new_map cur)) (map_entry_off a (f_lba cur));;; ret rt
            else ret rt
      end.

Definition flog_update (lane lba old_map new_map : Z) : io arena unit :=
  a <- state;;
  rt <- checked (flogs a !! Z.to_nat lane);;
  let new_flog := mkFlog lba old_map new_map (Nseq (f_seq (flog rt))) in
  let new_flog_off := if next rt then (entries rt).2 else (entries rt).1 in
  nswrite (take 8 (bytes_of_flog new_flog)) new_flog_off;;;
  nswrite (drop 8 (bytes_of_flog new_flog)) (u64 (new_flog_off + 8));;;
  modify (fun a => set_flogs
    (<[Z.to_nat lane := mkRuntime new_flog (entries rt) (negb (next rt))]> (flogs a)) a).

Definition arena_setf (setf : Z) : io arena unit :=
  modify (fun a => set_flags (Z.lor (flags a) setf) a);;;
  if laidout bttp then
    a <- state;;
    info <- nsread (startoff a) sizeof_btt_info;;
    let infooff := info_field info info_infooff 8 in
    let info := info_set info info_flags 4 (Z.lor (info_field info info_flags 4) setf) in
    let info := info_sum info in
    nswrite info (startoff a);;;
    nswrite info (u64 (startoff a + infooff))
  else ret tt.

Definition set_arena_error : io arena unit := arena_setf BTTINFO_FLAG_ERROR.

(** The loop of [read_flogs]: [n] more pairs, from [flog_off]. *)
Fixpoint read_flog_pairs (n : nat) (lane flog_off : Z) : io arena (list flog_runtime) :=
  match n with
  | O => ret []
  | S n' =>
      rt <- catch (read_flog_pair lane flog_off) (fun e => set_arena_error;;; fail e);;
      rts <- read_flog_pairs n' lane (u64 (flog_off + roundup64 (2 * sizeof_btt_flog) BTT_FLOG_PAIR_ALIGN));;
      ret (rt :: rts)
  end.

Definition read_flogs (lane : Z) : io arena unit :=
  if malloc then
    a <- state;;
    rts <- read_flog_pairs (Z.to_nat (nfree bttp)) lane (flogoff a);;
    modify (set_flogs rts)
  else fail ENOMEM.

Definition build_rtt : io arena unit :=
  if malloc then modify (set_rtt (replicate (Z.to_nat (nfree bttp)) BTT_MAP_ENTRY_ERROR)) else fail ENOMEM.

Definition read_arena (lane arena_off : Z) : io arena unit :=
  info <- nsread arena_off sizeof_btt_info;;
  let f off n := info_field info off n in
  modify (fun _ => mkArena (f info_flags 4) (f 60 4) (f 64 4) (f 68 4) arena_off
    (u64 (arena_off + f 88 8)) (u64 (arena_off + f 96 8)) (u64 (arena_off + f 104 8))
    (u64 (arena_off + f 80 8)) [] [])%nat;;;
  read_flogs lane;;;
  build_rtt;;;
  if malloc then ret tt else fail ENOMEM.

(** ** Reading *)

Definition set_rtt_at (lane v : Z) : io arena unit :=
  modify (fun a => set_rtt (<[Z.to_nat lane := v]> (rtt a)) a).

(** The loop of [btt_read]: the entry to read through, or [None] for a block of
    zeros. *)
Fixpoint read_loop (fuel : nat) (lane off entry : Z) : io arena (option Z) :=
  match fuel with
  | O => fail (-2)
  | S fuel' =>
      if map_entry_is_error entry then fail EIO
      else if map_entry_is_zero_or_initial entry then ret None
      else
        set_rtt_at lane entry;;;
        lb <- catch (nsread off 4) (fun e => set_rtt_at lane BTT_MAP_ENTRY_ERROR;;; fail e);;
        let latest_entry := le_value lb in
        if entry =? latest_entry then ret (Some entry) else read_loop fuel' lane off latest_entry
  end.

(** [arenap->dataoff + (entry & BTT_MAP_ENTRY_LBA_MASK) * arenap->internal_lbasize]:
    the product is one of two [uint32_t]. *)
Definition data_block_off (a : arena) (entry : Z) : Z :=
  u64 (dataoff a + u32 (Z.land entry BTT_MAP_ENTRY_LBA_MASK * arena_lbasize a)).

(** [btt_read] once the arena is known. *)
Definition read_block (fuel : nat) (lane premap_lba : Z) : io arena (list Z) :=
  a <- state;;
  eb <- nsread (map_entry_off a premap_lba) 4;;
  e <- read_loop fuel lane (map_entry_off a premap_lba) (le_value eb);;
  match e with
  | None => ret (replicate (Z.to_nat (lbasize bttp)) 0)
  | Some entry =>
      bs <- catch (nsread (data_block_off a entry) (lbasize bttp))
              (fun e => set_rtt_at lane BTT_MAP_ENTRY_ERROR;;; fail e);;
      set_rtt_at lane BTT_MAP_ENTRY_ERROR;;;
      ret bs
  end.

(** ** Writing *)

(** The entry read under the map lock; the lock itself is not modelled. *)
Definition map_lock (premap_lba : Z) : io arena Z :=
  a <- state;;
  eb <- nsread (map_entry_off a premap_lba) 4;;
  ret (if map_entry_is_initial (le_value eb) then Z.lor premap_lba BTT_MAP_ENTRY_NORMAL else le_value eb).

Definition map_unlock (entry premap_lba : Z) : io arena unit :=
  a <- state;; nswrite (le_bytes 4 entry) (map_entry_off a premap_lba).

(** [btt_write] once the arena is known. *)
Definition write_block (lane premap_lba : Z) (buf : list Z) : io arena unit :=
  a <- state;;
  if negb (Z.land (flags a) BTTINFO_FLAG_ERROR_MASK =? 0) then fail EIO else
  rt <- checked (flogs a !! Z.to_nat lane);;
  let free_entry := Z.lor (Z.land (f_old_map (flog rt)) BTT_MAP_ENTRY_LBA_MASK) BTT_MAP_ENTRY_NORMAL in
  if existsb (fun e => e =? free_entry) (take (Z.to_nat (nlane bttp)) (rtt a)) then fail (-2) else
  nswrite buf (data_block_off a free_entry);;;
  old_entry <- map_lock premap_lba;;
  flog_update lane premap_lba old_entry free_entry;;;
  catch (map_unlock free_entry premap_lba)
    (fun _ => catch set_arena_error (fun _ => ret tt);;; fail EIO).

(** [map_entry_setf] once the arena is known. *)
Definition setf_block (premap_lba setf : Z) : io arena unit :=
  a <- state;;
  if negb (Z.land (flags a) BTTINFO_FLAG_ERROR_MASK =? 0) then fail EIO else
  old_entry <- map_lock premap_lba;;
  if (setf =? BTT_MAP_ENTRY_ZERO) && map_entry_is_zero_or_initial old_entry then ret tt
  else map_unlock (Z.lor (Z.land old_entry BTT_MAP_ENTRY_LBA_MASK) setf) premap_lba.

End Arena.
End Btt.
