(* ===== verification/BttMedia.v ===== *)
(** * Block translation tables: words on the namespace and crashes

    What the proofs about [btt.c] use of the namespace: reads of words and of flog
    entries after writes, and the images a crash can leave.  A write that a crash
    interrupts may have reached the namespace in any part of its range, but the
    bytes of one aligned word of eight bytes are written together. *)

From S2P Require Import Prelude Util Btt.

(** ** Reads and writes *)

Definition rd (m : media) (off : Z) : Z := le_value (get m off 4).
Definition fl (m : media) (off : Z) : btt_flog := flog_of_bytes (get m off 16).

(** The two namespaces agree on a range. *)
Definition agree (m m' : media) (off n : Z) : Prop := forall x, off <= x < off + n -> m x = m' x.

Definition is_bytes (bs : list Z) : Prop := Forall (fun v => 0 <= v < 256) bs.
Definition bytes (m : media) : Prop := forall x, 0 <= m x < 256.
Definition op_bytes (o : nsop) : Prop := match o with W _ bs => is_bytes bs | Zero _ _ => True end.

Lemma agree_refl m off n : agree m m off n.
Proof. done. Qed.

Lemma agree_trans m m' m'' off n : agree m m' off n -> agree m' m'' off n -> agree m m'' off n.
Proof. intros H1 H2 x Hx. by rewrite H1, H2. Qed.

Lemma agree_sub m m' off n off' n' :
  agree m m' off n -> off <= off' -> off' + n' <= off + n -> agree m m' off' n'.
Proof. intros H H1 H2 x Hx. apply H. lia. Qed.

Lemma agree_apply m o off n :
  off + n <= op_off o \/ op_off o + op_len o <= off -> agree m (apply m o) off n.
Proof.
  intros H x Hx. destruct o as [o bs|o k]; simpl in *.
  - destruct (Z.leb_spec o x), (Z.ltb_spec x (o + Z.of_nat (length bs))); simpl; done || lia.
  - destruct (Z.leb_spec o x), (Z.ltb_spec x (o + k)); simpl; done || lia.
Qed.

Lemma get_ext m m' off n : agree m m' off n -> get m off n = get m' off n.
Proof.
  intros H. unfold get. apply list_fmap_ext. intros i x Hx. apply lookup_seq in Hx as [-> Hi]. apply H. lia.
Qed.

Lemma rd_ext m m' off : agree m m' off 4 -> rd m off = rd m' off.
Proof. intros H. unfold rd. by rewrite (get_ext m m'). Qed.

Lemma fl_ext m m' off : agree m m' off 16 -> fl m off = fl m' off.
Proof. intros H. unfold fl. by rewrite (get_ext m m'). Qed.

Lemma get_length m off n : 0 <= n -> length (get m off n) = Z.to_nat n.
Proof. intros H. unfold get. by rewrite length_fmap, length_seq. Qed.

Lemma get_lookup m off n i : (i < Z.to_nat n)%nat -> get m off n !! i = Some (m (off + Z.of_nat i)).
Proof. intros H. unfold get. rewrite list_lookup_fmap, lookup_seq_lt by lia. done. Qed.

Lemma get_written m off bs : get (apply m (W off bs)) off (Z.of_nat (length bs)) = bs.
Proof.
  apply list_eq. intros i. destruct (decide (i < length bs)%nat) as [Hi|Hi].
  - rewrite get_lookup by lia. simpl. destruct (lookup_lt_is_Some_2 bs i Hi) as [v Hv].
    rewrite (proj2 (Z.leb_le _ _)), (proj2 (Z.ltb_lt _ _)) by lia. simpl.
    replace (Z.to_nat _) with i by lia. by rewrite Hv.
  - rewrite !lookup_ge_None_2; [done|lia|]. rewrite get_length by lia. lia.
Qed.

Lemma take_get m off n k : Z.of_nat k <= n -> take k (get m off n) = get m off (Z.of_nat k).
Proof.
  intros H. apply list_eq. intros i. destruct (decide (i < k)%nat).
  - rewrite lookup_take_lt, !get_lookup by lia. done.
  - rewrite !lookup_ge_None_2; [done|rewrite get_length; lia|rewrite length_take; lia].
Qed.

Lemma drop_get m off n k : Z.of_nat k <= n -> drop k (get m off n) = get m (off + Z.of_nat k) (n - Z.of_nat k).
Proof.
  intros H. apply list_eq. intros i. rewrite lookup_drop. destruct (decide (i < Z.to_nat (n - Z.of_nat k))%nat).
  - rewrite !get_lookup by lia. f_equal. f_equal. lia.
  - rewrite !lookup_ge_None_2; [done|rewrite get_length; lia|rewrite get_length; lia].
Qed.

(** An entry is read word by word. *)
Lemma fl_words m off : fl m off = mkFlog (rd m off) (rd m (off + 4)) (rd m (off + 8)) (rd m (off + 12)).
Proof. unfold fl, flog_of_bytes. rewrite !drop_get, !take_get by lia. done. Qed.

Lemma le_value_range bs : is_bytes bs -> 0 <= le_value bs < 2 ^ (8 * Z.of_nat (length bs)).
Proof.
  induction 1 as [|v bs Hv _ IH]; [done|]. cbn [le_value length].
  replace (8 * Z.of_nat (S (length bs))) with (8 + 8 * Z.of_nat (length bs)) by lia.
  rewrite Z.pow_add_r by lia. change (2 ^ 8) with 256. lia.
Qed.

Lemma le_bytes_bytes n v : is_bytes (le_bytes n v).
Proof.
  revert v. induction n as [|n IH]; intros v; constructor; [|apply IH]. apply Z.mod_pos_bound. lia.
Qed.

Lemma get_bytes m off n : bytes m -> is_bytes (get m off n).
Proof. intros H. apply Forall_forall. intros v Hv. apply list_elem_of_fmap in Hv as (i & -> & _). apply H. Qed.

Lemma rd_range m off : bytes m -> 0 <= rd m off < 2 ^ 32.
Proof. intros H. pose proof (le_value_range (get m off 4) (get_bytes m off 4 H)) as Hr. by rewrite get_length in Hr. Qed.

Lemma bytes_apply m o : bytes m -> op_bytes o -> bytes (apply m o).
Proof.
  intros Hm Ho x. destruct o as [off bs|off n]; simpl; [|destruct (_ && _); [lia|apply Hm]].
  destruct (_ && _); [|apply Hm]. destruct (bs !! Z.to_nat (x - off)) as [v|] eqn:E; simpl; [|lia].
  by apply (proj1 (Forall_lookup _ _) Ho _ _ E).
Qed.

(** A word that was written. *)
Lemma rd_written m off v : 0 <= v < 2 ^ 32 -> rd (apply m (W off (le_bytes 4 v))) off = v.
Proof.
  intros H. unfold rd. pose proof (get_written m off (le_bytes 4 v)) as E. rewrite le_bytes_length in E.
  change (Z.of_nat 4) with 4 in E. rewrite E, le_value_bytes. change (8 * Z.of_nat 4) with 32. by rewrite Z.mod_small.
Qed.

(** Two words written together. *)
Lemma rd_written2 m off v w :
  0 <= v < 2 ^ 32 -> 0 <= w < 2 ^ 32 ->
  let m' := apply m (W off (le_bytes 4 v ++ le_bytes 4 w)) in rd m' off = v /\ rd m' (off + 4) = w.
Proof.
  intros Hv Hw m'. assert (E : get m' off 8 = le_bytes 4 v ++ le_bytes 4 w).
  { rewrite <- (get_written m off (le_bytes 4 v ++ le_bytes 4 w)). by rewrite length_app, !le_bytes_length. }
  assert (E1 : get m' off 4 = take 4 (get m' off 8)) by (by rewrite take_get by lia).
  assert (E2 : get m' (off + 4) 4 = drop 4 (get m' off 8)) by (by rewrite drop_get by lia).
  unfold rd. rewrite E1, E2, E.
  rewrite take_app_length', drop_app_length' by (by rewrite le_bytes_length).
  rewrite !le_value_bytes. change (8 * Z.of_nat 4) with 32. by rewrite !Z.mod_small.
Qed.

(** ** Crashes *)

(** [m'] may be found after a crash during [o]. *)
Definition torn (m : media) (o : nsop) (m' : media) : Prop :=
  forall w, agree m' m (8 * w) 8 \/ agree m' (apply m o) (8 * w) 8.

Fixpoint crash_image (ops : list nsop) (m m' : media) : Prop :=
  match ops with
  | [] => forall x, m' x = m x
  | o :: ops' => torn m o m' \/ crash_image ops' (apply m o) m'
  end.

Lemma torn_cases m o m' x : torn m o m' -> m' x = m x \/ m' x = apply m o x.
Proof.
  intros H. pose proof (Z.div_mod x 8 ltac:(lia)). pose proof (Z.mod_pos_bound x 8 ltac:(lia)).
  destruct (H (x / 8)) as [E|E]; [left|right]; apply E; lia.
Qed.

Lemma torn_outside m o m' off n :
  torn m o m' -> off + n <= op_off o \/ op_off o + op_len o <= off -> agree m m' off n.
Proof.
  intros Ht Ho x Hx. destruct (torn_cases m o m' x Ht) as [->| ->]; [done|].
  by apply (agree_apply m o off n).
Qed.

Lemma torn_bytes m o m' : torn m o m' -> bytes m -> op_bytes o -> bytes m'.
Proof.
  intros Ht Hm Ho x. pose proof (bytes_apply m o Hm Ho x). pose proof (Hm x).
  destruct (torn_cases m o m' x Ht) as [->| ->]; done.
Qed.

(** A write within one aligned word of eight bytes is atomic. *)
Lemma torn_word m o m' :
  torn m o m' -> op_off o / 8 * 8 + 8 >= op_off o + op_len o ->
  (forall x, m' x = m x) \/ (forall x, m' x = apply m o x).
Proof.
  intros Ht Hw. set (w := op_off o / 8).
  assert (Hout : forall x, ~ 8 * w <= x < 8 * w + 8 -> m' x = m x /\ apply m o x = m x).
  { intros x Hx. pose proof (Z.div_mod (op_off o) 8 ltac:(lia)). pose proof (Z.mod_pos_bound (op_off o) 8 ltac:(lia)).
    assert (x + 1 <= op_off o \/ op_off o + op_len o <= x) by lia.
    split; symmetry; [apply (torn_outside m o m' x 1)|apply (agree_apply m o x 1)]; done || lia. }
  destruct (Ht w) as [E|E]; [left|right]; intros x; (destruct (decide (8 * w <= x < 8 * w + 8)) as [Hx|Hx];
    [by apply E|]); destruct (Hout x Hx); congruence.
Qed.
