(* ===== verification/BttProofs.v ===== *)
(** * Block translation tables: writes are atomic

    The invariant of an arena of [btt.c] on the namespace, and what a crash in the
    middle of a write leaves of it.  Every internal block has exactly one owner:
    the external block whose map entry names it, or the lane whose flog entry
    holds it as free.  A write exchanges the blocks of an external block and of a
    lane in four steps, of which the last two make the exchange: after the second
    word of the flog entry the exchange is pending, and the map entry completes
    it, either in the write itself or when the arena is read again. *)

From S2P Require Import Prelude Util Btt BttMedia.

(** ** Entries *)

(** The block of an entry. *)
Definition tgt (e : Z) : Z := Z.land e BTT_MAP_ENTRY_LBA_MASK.
(** An entry of the map, with the default for one never written. *)
Definition eff (e l : Z) : Z := if map_entry_is_initial e then Z.lor l BTT_MAP_ENTRY_NORMAL else e.

Lemma tgt_mod e : tgt e = e mod 2 ^ 30.
Proof. unfold tgt. change BTT_MAP_ENTRY_LBA_MASK with (Z.ones 30). by rewrite Z.land_ones. Qed.

Lemma tgt_range e : 0 <= tgt e < 2 ^ 30.
Proof. rewrite tgt_mod. apply Z.mod_pos_bound. lia. Qed.

Lemma lor_flags t f : 0 <= t < 2 ^ 30 -> Z.lor t (Z.shiftl f 30) = t + f * 2 ^ 30.
Proof.
  intros H. rewrite <- (Z.shiftl_mul_pow2 f) by lia. rewrite <- Z.add_nocarry_lor; [done|].
  apply Z.bits_inj'. intros n Hn. rewrite Z.land_spec, Z.bits_0. destruct (decide (n < 30)).
  - by rewrite (Z.shiftl_spec_low f), andb_false_r.
  - destruct (decide (t = 0)) as [->|]; [by rewrite Z.bits_0|].
    rewrite (Z.bits_above_log2 t); [done|lia|]. assert (Z.log2 t < 30) by (apply Z.log2_lt_pow2; lia). lia.
Qed.

Lemma entry_flags_div e : entry_flags e = (e / 2 ^ 30) mod 4 * 2 ^ 30.
Proof.
  unfold entry_flags. change (u32 (Z.lnot BTT_MAP_ENTRY_LBA_MASK)) with (Z.shiftl (Z.ones 2) 30).
  change 4 with (2 ^ 2). rewrite <- Z.land_ones, <- Z.shiftr_div_pow2, <- Z.shiftl_mul_pow2 by lia.
  apply Z.bits_inj'. intros n Hn. rewrite Z.land_spec. destruct (decide (n < 30)).
  - by rewrite !Z.shiftl_spec_low, andb_false_r.
  - rewrite !Z.shiftl_spec, Z.land_spec, Z.shiftr_spec by lia. f_equal; f_equal; lia.
Qed.

(** An entry with given flags. *)
Lemma flag_entry t f :
  0 <= t < 2 ^ 30 -> 0 <= f < 4 -> let e := Z.lor t (Z.shiftl f 30) in
  tgt e = t /\ entry_flags e = Z.shiftl f 30 /\ 0 <= e < 2 ^ 32.
Proof.
  intros H Hf e. unfold e. rewrite lor_flags, tgt_mod, entry_flags_div, Z.shiftl_mul_pow2 by done.
  rewrite Z_mod_plus_full, Z.div_add, (Z.div_small t), !Z.mod_small by lia. split_and!; [done|done|lia..].
Qed.

Lemma normal_entry t :
  0 <= t < 2 ^ 30 -> let e := Z.lor t BTT_MAP_ENTRY_NORMAL in
  tgt e = t /\ entry_flags e = BTT_MAP_ENTRY_NORMAL /\ 0 <= e < 2 ^ 32.
Proof. intros H. by apply (flag_entry t 3). Qed.

Lemma eff_normal e l : entry_flags e = BTT_MAP_ENTRY_NORMAL -> eff e l = e.
Proof. intros H. unfold eff, map_entry_is_initial. by rewrite H. Qed.

Lemma eff_range e l : 0 <= e < 2 ^ 32 -> 0 <= l < 2 ^ 30 -> 0 <= eff e l < 2 ^ 32.
Proof. intros He Hl. unfold eff. destruct (map_entry_is_initial e); [|done]. apply (normal_entry l Hl). Qed.

(** ** The invariant *)

Section Arena.
Context (b : btt).

Record geom (a : arena) : Prop := {
  g_lb : 0 < lbasize b <= arena_lbasize a;
  g_32 : internal_nlba a * arena_lbasize a <= 2 ^ 32;
  g_n : internal_nlba a = external_nlba a + nfree b;
  g_free : 0 < nfree b;
  g_ext : 0 < external_nlba a <= nlba b;
  g_30 : internal_nlba a <= 2 ^ 30;
  g_start : 0 <= startoff a;
  g_data : startoff a + sizeof_btt_info <= dataoff a;
  g_map : dataoff a + internal_nlba a * arena_lbasize a <= mapoff a;
  g_flog : mapoff a + 4 * external_nlba a <= flogoff a;
  g_end : flogoff a + 64 * nfree b < 2 ^ 64;
  g_map8 : mapoff a mod 8 = 0;
  g_flog8 : flogoff a mod 8 = 0;
}.

Definition mapw (m : media) (a : arena) (l : Z) : Z := rd m (mapoff a + 4 * l).
Definition fo (a : arena) (i : nat) : Z := flogoff a + 64 * Z.of_nat i.
Definition valid (m : media) (a : arena) (i : nat) : option (bool * btt_flog) :=
  btt_flog_get_valid (fl m (fo a i)) (fl m (fo a i + 16)).
Definition cur (m : media) (a : arena) (i : nat) : btt_flog :=
  match valid m a i with Some (_, f) => f | None => Zflog end.
Definition nxt (m : media) (a : arena) (i : nat) : bool :=
  match valid m a i with Some (n, _) => n | None => false end.

Definition pair_ok (m : media) (a : arena) (i : nat) : Prop :=
  0 <= f_lba (fl m (fo a i)) < external_nlba a /\
  0 <= f_lba (fl m (fo a i + 16)) < external_nlba a /\
  valid m a i = Some (nxt m a i, cur m a i) /\ 1 <= f_seq (cur m a i) <= 3.

(** The free block of lane [i]; [pend] is the lane with a pending exchange. *)
Definition freeblk (m : media) (a : arena) (pend : option nat) (i : nat) : Z :=
  tgt (if decide (pend = Some i) then f_new_map (cur m a i) else f_old_map (cur m a i)).

(** The internal block of owner [k]: an external block, or after those a lane. *)
Definition place (m : media) (a : arena) (pend : option nat) (k : Z) : Z :=
  if k <? external_nlba a then tgt (eff (mapw m a k) k)
  else freeblk m a pend (Z.to_nat (k - external_nlba a)).

(** The entry of lane [j] is written, its map entry is not. *)
Definition pending (m : media) (a : arena) (j : nat) : Prop :=
  Z.of_nat j < nfree b /\
  f_old_map (cur m a j) = eff (mapw m a (f_lba (cur m a j))) (f_lba (cur m a j)) /\
  entry_flags (f_new_map (cur m a j)) = BTT_MAP_ENTRY_NORMAL.

Record ok (m : media) (a : arena) (pend : option nat) : Prop := {
  ok_bytes : bytes m;
  ok_pair : forall i, Z.of_nat i < nfree b -> pair_ok m a i;
  ok_inj : forall k k', 0 <= k < internal_nlba a -> 0 <= k' < internal_nlba a ->
    place m a pend k = place m a pend k' -> k = k';
  ok_range : forall k, 0 <= k < internal_nlba a -> place m a pend k < internal_nlba a;
  ok_pend : forall j, pend = Some j -> pending m a j;
}.

(** ** What a block reads as *)

Definition blkoff (a : arena) (t : Z) : Z := dataoff a + t * arena_lbasize a.
Definition block (m : media) (a : arena) (t : Z) : list Z := get m (blkoff a t) (lbasize b).

(** [None] for a block marked as bad. *)
Definition content (m : media) (a : arena) (l : Z) : option (list Z) :=
  if map_entry_is_error (mapw m a l) then None
  else if map_entry_is_zero_or_initial (mapw m a l) then Some (replicate (Z.to_nat (lbasize b)) 0)
  else Some (block m a (tgt (mapw m a l))).

(** As [content], once a pending exchange is completed. *)
Definition contentP (m : media) (a : arena) (pend : option nat) (l : Z) : option (list Z) :=
  match pend with
  | Some j => if f_lba (cur m a j) =? l then Some (block m a (tgt (f_new_map (cur m a j)))) else content m a l
  | None => content m a l
  end.

(** ** Offsets *)

Lemma map_entry_off_eq a l : geom a -> 0 <= l < external_nlba a -> map_entry_off a l = mapoff a + 4 * l.
Proof.
  intros G Hl. destruct G. unfold map_entry_off, BTT_MAP_ENTRY_SIZE, sizeof_btt_info in *.
  pose proof (Z.mul_nonneg_nonneg (internal_nlba a) (arena_lbasize a)).
  rewrite u32_small, u64_small by lia. done.
Qed.

Lemma block_in a t : geom a -> 0 <= t < internal_nlba a ->
  dataoff a <= blkoff a t /\ blkoff a t + arena_lbasize a <= mapoff a /\ t * arena_lbasize a + arena_lbasize a <= 2 ^ 32.
Proof.
  intros G Ht. destruct G. unfold blkoff.
  pose proof (Z.mul_le_mono_nonneg_r (t + 1) (internal_nlba a) (arena_lbasize a)).
  pose proof (Z.mul_nonneg_nonneg t (arena_lbasize a)). lia.
Qed.

Lemma data_block_off_eq a e : geom a -> tgt e < internal_nlba a -> data_block_off a e = blkoff a (tgt e).
Proof.
  intros G Ht. pose proof (tgt_range e). destruct (block_in a (tgt e) G) as (H1 & H2 & H3); [lia|].
  unfold data_block_off, blkoff in *. fold (tgt e). destruct G. unfold sizeof_btt_info in *.
  pose proof (Z.mul_nonneg_nonneg (tgt e) (arena_lbasize a)). rewrite u32_small, u64_small by lia. done.
Qed.

Lemma blocks_apart a t t' : geom a -> 0 <= t -> 0 <= t' -> t <> t' ->
  blkoff a t + lbasize b <= blkoff a t' \/ blkoff a t' + lbasize b <= blkoff a t.
Proof.
  intros G Ht Ht' Hne. destruct G. unfold blkoff.
  pose proof (Z.mul_le_mono_nonneg_r (t + 1) t' (arena_lbasize a)).
  pose proof (Z.mul_le_mono_nonneg_r (t' + 1) t (arena_lbasize a)). lia.
Qed.

(** ** Changes that keep the invariant *)

(** The map and the flog are on the range from [mapoff] on. *)
Definition meta (a : arena) : Z := flogoff a + 64 * nfree b - mapoff a.

Lemma mapw_agree m m' a l : geom a -> agree m m' (mapoff a) (meta a) -> 0 <= l < external_nlba a ->
  mapw m' a l = mapw m a l.
Proof.
  intros G H Hl. symmetry. apply rd_ext. destruct G. eapply agree_sub; [exact H|lia|unfold meta; lia].
Qed.

Lemma valid_agree m m' a i : agree m m' (fo a i) 32 -> valid m' a i = valid m a i.
Proof.
  intros H. unfold valid. rewrite (fl_ext m m' (fo a i)), (fl_ext m m' (fo a i + 16)); [done|..];
    (eapply agree_sub; [exact H|lia|lia]).
Qed.

Lemma cur_agree m m' a i : agree m m' (fo a i) 32 -> cur m' a i = cur m a i /\ nxt m' a i = nxt m a i.
Proof. intros H. unfold cur, nxt. by rewrite (valid_agree m m'). Qed.

Lemma pair_agree m m' a i : agree m m' (fo a i) 32 -> pair_ok m a i -> pair_ok m' a i.
Proof.
  intros H (H1 & H2 & H3 & H4). destruct (cur_agree m m' a i H) as [Ec En]. unfold pair_ok.
  rewrite Ec, En, (valid_agree m m') by done.
  rewrite <- (fl_ext m m' (fo a i)), <- (fl_ext m m' (fo a i + 16)); [done|..];
    (eapply agree_sub; [exact H|lia|lia]).
Qed.

Lemma lane_agree m m' a i : geom a -> agree m m' (mapoff a) (meta a) -> Z.of_nat i < nfree b ->
  agree m m' (fo a i) 32.
Proof. intros G H Hi. destruct G. eapply agree_sub; [exact H|unfold fo; lia|unfold fo, meta; lia]. Qed.

Lemma cur_lba m a i : pair_ok m a i -> 0 <= f_lba (cur m a i) < external_nlba a.
Proof.
  intros (L0 & L1 & Hv & _). unfold valid, btt_flog_get_valid in Hv. revert Hv.
  repeat case_match; intros [= _ <-]; done.
Qed.

(** The invariant depends on the map entries and on the current flog entries. *)
Lemma ok_same m m' a p :
  geom a -> ok m a p -> bytes m' ->
  (forall l, 0 <= l < external_nlba a -> mapw m' a l = mapw m a l) ->
  (forall i, Z.of_nat i < nfree b -> cur m' a i = cur m a i /\ pair_ok m' a i) -> ok m' a p.
Proof.
  intros G K Hb Hm Hc.
  assert (Hp : forall k, 0 <= k < internal_nlba a -> place m' a p k = place m a p k).
  { intros k Hk. unfold place, freeblk. destruct (Z.ltb_spec k (external_nlba a)); [by rewrite Hm by lia|].
    destruct (Hc (Z.to_nat (k - external_nlba a))) as [-> _]; [|done]. destruct G. lia. }
  split.
  - done.
  - intros i Hi. by apply Hc.
  - intros k k' Hk Hk'. rewrite !Hp by done. by apply (ok_inj _ _ _ K).
  - intros k Hk. rewrite Hp by done. by apply (ok_range _ _ _ K).
  - intros j Hj. destruct (ok_pend _ _ _ K j Hj) as (H1 & H2 & H3). unfold pending.
    destruct (Hc j H1) as [-> _]. rewrite Hm by (by apply cur_lba, (ok_pair _ _ _ K)). done.
Qed.

Lemma ok_agree m m' a p : geom a -> agree m m' (mapoff a) (meta a) -> bytes m' -> ok m a p -> ok m' a p.
Proof.
  intros G H Hb K. apply (ok_same m); [done..| |].
  - intros l Hl. by apply mapw_agree.
  - intros i Hi. pose proof (lane_agree m m' a i G H Hi) as Hl. split; [by apply cur_agree|].
    by eapply pair_agree, (ok_pair _ _ _ K).
Qed.

(** ** Flog pairs *)

Lemma get_valid_act f0 f1 n f : btt_flog_get_valid f0 f1 = Some (n, f) -> f = if n then f0 else f1.
Proof. unfold btt_flog_get_valid. repeat case_match; intros ?; by simplify_eq. Qed.

(** The fields of the other entry are free as long as its sequence number stays. *)
Lemma get_valid_other f0 f1 g0 g1 n f :
  btt_flog_get_valid f0 f1 = Some (n, f) -> f_seq g0 = f_seq f0 -> f_seq g1 = f_seq f1 ->
  btt_flog_get_valid g0 g1 = Some (n, if n then g0 else g1).
Proof. unfold btt_flog_get_valid. intros H -> ->. revert H. repeat case_match; intros ?; by simplify_eq. Qed.

Lemma Nseq_cycle s : 1 <= s <= 3 -> 1 <= Nseq s <= 3 /\ Nseq s <> s /\ Nseq (Nseq s) <> s.
Proof. intros H. assert (s = 1 \/ s = 2 \/ s = 3) as [->|[->| ->]] by lia; cbv; split_and!; congruence. Qed.

(** The successor of the current sequence number makes the other entry current. *)
Lemma get_valid_next f g (n : bool) :
  1 <= f_seq f <= 3 -> f_seq g = Nseq (f_seq f) ->
  btt_flog_get_valid (if n then f else g) (if n then g else f) = Some (negb n, g).
Proof.
  intros Hf Hg. destruct (Nseq_cycle (f_seq f) Hf) as (H1 & H2 & H3). unfold btt_flog_get_valid.
  destruct n; rewrite Hg; repeat case_match; simplify_eq; try done; exfalso;
    repeat match goal with H : (_ =? _) = true |- _ => apply Z.eqb_eq in H
      | H : (_ =? _) = false |- _ => apply Z.eqb_neq in H end; congruence || lia.
Qed.

(** The half of the pair that the next write goes to, and the other. *)
Definition inact (m : media) (a : arena) (i : nat) : Z := if nxt m a i then fo a i + 16 else fo a i.
Definition act (m : media) (a : arena) (i : nat) : Z := if nxt m a i then fo a i else fo a i + 16.

Lemma cur_act m a i : pair_ok m a i -> cur m a i = fl m (act m a i).
Proof. intros (_ & _ & Hv & _). apply get_valid_act in Hv. rewrite Hv. unfold act. by destruct (nxt m a i). Qed.

(** The namespaces differ at most in the inactive half of the pair of lane [i]. *)
Definition outside (m m' : media) (a : arena) (i : nat) : Prop :=
  forall off n, off + n <= inact m a i \/ inact m a i + 16 <= off -> agree m m' off n.

Lemma outside_mapw m m' a i l : geom a -> Z.of_nat i < nfree b -> outside m m' a i -> 0 <= l < external_nlba a ->
  mapw m' a l = mapw m a l.
Proof.
  intros G Hi H Hl. symmetry. apply rd_ext, H. destruct G. unfold inact, fo. destruct (nxt m a i); lia.
Qed.

Lemma outside_lane m m' a i j : geom a -> i <> j -> outside m m' a i -> agree m m' (fo a j) 32.
Proof. intros G Hij H. apply H. unfold inact, fo. destruct (nxt m a i); lia. Qed.

(** The pair of lane [i] after a change of its inactive half. *)
Lemma outside_pair m m' a i : outside m m' a i ->
  fl m' (fo a i) = (if nxt m a i then fl m (act m a i) else fl m' (inact m a i)) /\
  fl m' (fo a i + 16) = (if nxt m a i then fl m' (inact m a i) else fl m (act m a i)).
Proof.
  intros H. unfold outside, inact, act in *.
  destruct (nxt m a i); (split; [|]); try done; symmetry; apply fl_ext, H; lia.
Qed.

(** ** The steps of a write *)

(** The first word of the new entry: the pair is as before. *)
Lemma ok_inactive m m' a p i :
  geom a -> ok m a p -> bytes m' -> Z.of_nat i < nfree b -> outside m m' a i ->
  0 <= f_lba (fl m' (inact m a i)) < external_nlba a ->
  f_seq (fl m' (inact m a i)) = f_seq (fl m (inact m a i)) ->
  ok m' a p /\ cur m' a i = cur m a i /\ nxt m' a i = nxt m a i.
Proof.
  intros G K Hb Hi Ho Hl Hs. pose proof (ok_pair _ _ _ K i Hi) as Hp. pose proof (cur_act m a i Hp) as Ea.
  pose proof (cur_lba m a i Hp) as Hcl. destruct Hp as (L0 & L1 & Hv & Hq).
  destruct (outside_pair m m' a i Ho) as [E0 E1].
  assert (Hv' : valid m' a i = Some (nxt m a i, cur m a i)).
  { unfold valid in *. rewrite (get_valid_other _ _ (fl m' (fo a i)) (fl m' (fo a i + 16)) _ _ Hv).
    - rewrite E0, E1. rewrite Ea. by destruct (nxt m a i).
    - rewrite E0. unfold inact, act in *. by destruct (nxt m a i).
    - rewrite E1. unfold inact, act in *. by destruct (nxt m a i). }
  assert (Hc : cur m' a i = cur m a i) by (unfold cur at 1; by rewrite Hv').
  assert (Hn : nxt m' a i = nxt m a i) by (unfold nxt at 1; by rewrite Hv').
  split; [|done]. apply (ok_same m); [done..| |].
  - intros l Hl'. by apply (outside_mapw m m' a i).
  - intros j Hj. destruct (decide (i = j)) as [<-|Hij].
    + split; [done|]. unfold pair_ok. rewrite Hc, Hn, Hv', E0, E1. rewrite Ea in Hcl.
      destruct (nxt m a i); split_and!; done || lia.
    + pose proof (outside_lane m m' a i j G Hij Ho) as Hag. split; [by apply cur_agree|].
      by eapply pair_agree, (ok_pair _ _ _ K).
Qed.

(** The second word makes the new entry the current one: the exchange is pending. *)
Lemma ok_flip m m' a i l :
  geom a -> ok m a None -> bytes m' -> Z.of_nat i < nfree b -> 0 <= l < external_nlba a -> outside m m' a i ->
  fl m' (inact m a i) = mkFlog l (eff (mapw m a l) l) (Z.lor (freeblk m a None i) BTT_MAP_ENTRY_NORMAL)
    (Nseq (f_seq (cur m a i))) ->
  ok m' a (Some i) /\ cur m' a i = fl m' (inact m a i) /\ nxt m' a i = negb (nxt m a i).
Proof.
  intros G K Hb Hi Hl Ho Hf. pose proof (ok_pair _ _ _ K i Hi) as Hp. pose proof (cur_act m a i Hp) as Ea.
  pose proof (cur_lba m a i Hp) as Hcl. destruct Hp as (L0 & L1 & Hv & Hq).
  destruct (outside_pair m m' a i Ho) as [E0 E1].
  destruct (normal_entry (freeblk m a None i) (tgt_range _)) as (Nt & Nf & Nr).
  assert (Hv' : valid m' a i = Some (negb (nxt m a i), fl m' (inact m a i))).
  { unfold valid. rewrite E0, E1, <- Ea. apply get_valid_next; [done|]. by rewrite Hf. }
  assert (Hc : cur m' a i = fl m' (inact m a i)) by (unfold cur at 1; by rewrite Hv').
  assert (Hn : nxt m' a i = negb (nxt m a i)) by (unfold nxt at 1; by rewrite Hv').
  assert (Hm : forall l, 0 <= l < external_nlba a -> mapw m' a l = mapw m a l)
    by (intros; by apply (outside_mapw m m' a i)).
  assert (Hj : forall j, i <> j -> cur m' a j = cur m a j).
  { intros j Hij. by apply cur_agree, (outside_lane m m' a i j). }
  assert (Hpl : forall k, 0 <= k < internal_nlba a -> place m' a (Some i) k = place m a None k).
  { intros k Hk. unfold place. destruct (Z.ltb_spec k (external_nlba a)); [by rewrite Hm by lia|].
    set (j := Z.to_nat _). destruct (decide (i = j)) as [<-|Hij].
    - unfold freeblk at 1. rewrite decide_True, Hc, Hf by done. simpl. by rewrite Nt.
    - unfold freeblk. rewrite !decide_False by congruence. by rewrite Hj. }
  split; [|done]. split.
  - done.
  - intros j Hjn. destruct (decide (i = j)) as [<-|Hij].
    + unfold pair_ok. rewrite Hc, Hn, Hv', E0, E1, Hf, <- Ea. simpl. pose proof (Nseq_cycle _ Hq).
      destruct (nxt m a i); split_and!; try done; simpl; lia.
    + eapply pair_agree; [by apply (outside_lane m m' a i j)|]. by apply (ok_pair _ _ _ K).
  - intros k k' Hk Hk'. rewrite !Hpl by done. by apply (ok_inj _ _ _ K).
  - intros k Hk. rewrite Hpl by done. by apply (ok_range _ _ _ K).
  - intros j [= <-]. unfold pending. rewrite Hc, Hf. simpl. rewrite Hm by done. done.
Qed.

Lemma place_lane m a p i : place m a p (external_nlba a + Z.of_nat i) = freeblk m a p i.
Proof. unfold place. rewrite (proj2 (Z.ltb_ge _ _)) by lia. f_equal. lia. Qed.

Lemma place_lba m a p l : l < external_nlba a -> place m a p l = tgt (eff (mapw m a l) l).
Proof. intros H. unfold place. by rewrite (proj2 (Z.ltb_lt _ _)) by lia. Qed.

Definition swp (x y k : Z) : Z := if k =? x then y else if k =? y then x else k.

Lemma swp_inj x y k k' : swp x y k = swp x y k' -> k = k'.
Proof. unfold swp. repeat case_match; rewrite ?Z.eqb_eq, ?Z.eqb_neq in *; lia. Qed.

Lemma swp_range n x y k : 0 <= x < n -> 0 <= y < n -> 0 <= k < n -> 0 <= swp x y k < n.
Proof. unfold swp. repeat case_match; lia. Qed.

Lemma fl_range m off : bytes m -> 0 <= f_new_map (fl m off) < 2 ^ 32.
Proof. intros H. rewrite fl_words. by apply rd_range. Qed.

(** The write of the map entry of the pending exchange of lane [j]. *)
Definition finish (m : media) (a : arena) (j : nat) : nsop :=
  W (mapoff a + 4 * f_lba (cur m a j)) (le_bytes 4 (f_new_map (cur m a j))).

Lemma finish_mapw m a j l : bytes m -> pair_ok m a j ->
  mapw (apply m (finish m a j)) a l =
  if l =? f_lba (cur m a j) then f_new_map (cur m a j) else mapw m a l.
Proof.
  intros Hb Hp. unfold mapw, finish. destruct (Z.eqb_spec l (f_lba (cur m a j))) as [->|Hne].
  - apply rd_written. rewrite (cur_act m a j Hp). by apply fl_range.
  - symmetry. apply rd_ext, agree_apply. cbn [op_off op_len]. rewrite le_bytes_length. lia.
Qed.

Lemma finish_lane m a j i : geom a -> pair_ok m a j -> agree m (apply m (finish m a j)) (fo a i) 32.
Proof.
  intros G Hp. pose proof (cur_lba m a j Hp). apply agree_apply. unfold finish. cbn [op_off op_len].
  rewrite le_bytes_length. destruct G. unfold fo. lia.
Qed.

(** It exchanges the blocks of the external block and of the lane. *)
Lemma ok_complete m a j : geom a -> ok m a (Some j) -> ok (apply m (finish m a j)) a None.
Proof.
  intros G K. destruct (ok_pend _ _ _ K j eq_refl) as (Hj & Hold & Hnew).
  pose proof (ok_pair _ _ _ K j Hj) as Hp. pose proof (cur_lba m a j Hp) as Hl.
  pose proof (ok_bytes _ _ _ K) as Hb. set (m' := apply m (finish m a j)).
  set (x := f_lba (cur m a j)) in *. set (y := external_nlba a + Z.of_nat j).
  assert (Hc : forall i, cur m' a i = cur m a i) by (intros i; by apply cur_agree, finish_lane).
  assert (Hpl : forall k, 0 <= k < internal_nlba a -> place m' a None k = place m a (Some j) (swp x y k)).
  { intros k Hk. unfold swp. destruct (Z.eqb_spec k x) as [->|Hkx].
    - rewrite place_lba by lia. unfold y. rewrite place_lane. unfold freeblk. rewrite decide_True by done.
      unfold m'. rewrite finish_mapw by done. fold x. by rewrite Z.eqb_refl, eff_normal.
    - destruct (Z.eqb_spec k y) as [->|Hky].
      + unfold y. rewrite place_lane, place_lba by lia. unfold freeblk.
        rewrite decide_False, Hc by done. by rewrite Hold.
      + unfold place. destruct (Z.ltb_spec k (external_nlba a)).
        * unfold m'. rewrite finish_mapw by done. fold x. by rewrite (proj2 (Z.eqb_neq _ _)).
        * unfold freeblk. rewrite !decide_False, Hc by (done || intros [= E]; unfold y in *; lia). done. }
  assert (Hx : 0 <= x < internal_nlba a) by (destruct G; lia).
  assert (Hy : 0 <= y < internal_nlba a) by (unfold y; destruct G; lia).
  split.
  - apply bytes_apply; [done|apply le_bytes_bytes].
  - intros i Hi. eapply pair_agree; [by apply finish_lane|]. by apply (ok_pair _ _ _ K).
  - intros k k' Hk Hk'. rewrite !Hpl by done. intros E. apply (swp_inj x y).
    by apply (ok_inj _ _ _ K); [apply swp_range..|].
  - intros k Hk. rewrite Hpl by done. by apply (ok_range _ _ _ K), swp_range.
  - done.
Qed.

(** ** Contents *)

Lemma content_same m m' a l :
  mapw m' a l = mapw m a l ->
  (map_entry_is_zero_or_initial (mapw m a l) = false ->
   agree m m' (blkoff a (tgt (mapw m a l))) (lbasize b)) ->
  content m' a l = content m a l.
Proof.
  intros E H. unfold content. rewrite E. repeat case_match; try done. unfold block. by rewrite (get_ext m m') by auto.
Qed.

(** The block of an entry that is neither zero nor initial. *)
Lemma normal_place m a p l : l < external_nlba a -> map_entry_is_zero_or_initial (mapw m a l) = false ->
  place m a p l = tgt (mapw m a l).
Proof.
  intros Hl H. rewrite place_lba by done. unfold eff, map_entry_is_initial, map_entry_is_zero_or_initial in *.
  by destruct (entry_flags (mapw m a l) =? 0).
Qed.

Lemma place_range m a p k : ok m a p -> 0 <= k < internal_nlba a -> 0 <= place m a p k < internal_nlba a.
Proof.
  intros K Hk. split; [|by apply (ok_range _ _ _ K)]. unfold place, freeblk. case_match; apply tgt_range.
Qed.

(** A change of the block of one lane alone changes no content. *)
Lemma content_free m m' a p i l :
  geom a -> ok m a p -> Z.of_nat i < nfree b -> 0 <= l < external_nlba a -> mapw m' a l = mapw m a l ->
  (forall off n, off + n <= blkoff a (freeblk m a p i) \/ blkoff a (freeblk m a p i) + lbasize b <= off ->
    off + n <= mapoff a -> agree m m' off n) ->
  content m' a l = content m a l.
Proof.
  intros G K Hi Hl E H. apply content_same; [done|]. intros Hz. rewrite <- (normal_place m a p l) by (done || lia).
  assert (Hli : 0 <= l < internal_nlba a) by (destruct G; lia).
  assert (Hii : 0 <= external_nlba a + Z.of_nat i < internal_nlba a) by (destruct G; lia).
  pose proof (place_range m a p l K Hli) as Hr. pose proof (place_range m a p _ K Hii) as Hr'.
  rewrite place_lane in Hr'. destruct (block_in a _ G Hr) as (_ & H2 & _). apply H; [|destruct G; lia].
  apply blocks_apart; [done|lia|lia|]. rewrite <- place_lane. intros Ep.
  apply (ok_inj _ _ _ K) in Ep; [lia|done..].
Qed.

Lemma block_agree m m' a t : geom a -> 0 <= t < internal_nlba a ->
  agree m m' (dataoff a) (mapoff a - dataoff a) -> block m' a t = block m a t.
Proof.
  intros G Ht H. destruct (block_in a t G Ht) as (H1 & H2 & _). unfold block. symmetry. apply get_ext.
  destruct G. eapply agree_sub; [exact H|lia..].
Qed.

(** A change beyond the data area. *)
Lemma content_meta m m' a p l :
  geom a -> ok m a p -> 0 <= l < external_nlba a -> mapw m' a l = mapw m a l ->
  agree m m' (dataoff a) (mapoff a - dataoff a) -> content m' a l = content m a l.
Proof.
  intros G K Hl E H. apply content_same; [done|]. intros Hz. rewrite <- (normal_place m a p l) by (done || lia).
  assert (Hli : 0 <= l < internal_nlba a) by (destruct G; lia).
  destruct (block_in a _ G (place_range m a p l K Hli)) as (H1 & H2 & _).
  destruct G. eapply agree_sub; [exact H|lia..].
Qed.

Lemma finish_data m a j : pair_ok m a j ->
  forall off n, off + n <= mapoff a -> agree m (apply m (finish m a j)) off n.
Proof. intros Hp off n H. pose proof (cur_lba m a j Hp). apply agree_apply. unfold finish. simpl. lia. Qed.

(** The map entry completes what was pending. *)
Lemma content_complete m a j l : geom a -> ok m a (Some j) -> 0 <= l < external_nlba a ->
  content (apply m (finish m a j)) a l = contentP m a (Some j) l.
Proof.
  intros G K Hl. destruct (ok_pend _ _ _ K j eq_refl) as (Hj & _ & Hnew).
  pose proof (ok_pair _ _ _ K j Hj) as Hp. pose proof (ok_bytes _ _ _ K) as Hb.
  assert (Hd : agree m (apply m (finish m a j)) (dataoff a) (mapoff a - dataoff a)) by (apply finish_data; [done|lia]).
  pose proof (finish_mapw m a j l Hb Hp) as Em. simpl. destruct (Z.eqb_spec (f_lba (cur m a j)) l) as [E|E].
  - rewrite <- E, Z.eqb_refl in Em. unfold content. rewrite <- E, Em.
    unfold map_entry_is_error, map_entry_is_zero_or_initial. rewrite Hnew. simpl. f_equal.
    apply block_agree; [done| |done].
    assert (Hjj : 0 <= external_nlba a + Z.of_nat j < internal_nlba a) by (destruct G; lia).
    pose proof (place_range m a (Some j) _ K Hjj) as Hr. rewrite place_lane in Hr. unfold freeblk in Hr.
    by rewrite decide_True in Hr.
  - rewrite (proj2 (Z.eqb_neq l _)) in Em by congruence. by apply (content_meta m _ a (Some j)).
Qed.

End Arena.
