(* ===== verification/BttAtomic.v ===== *)
(** * Block translation tables: the operations on an arena

    The runs of [btt_write], [btt_read], [map_entry_setf] and [read_arena] of
    [btt.c] on an arena that satisfies the invariant, without I/O errors: a write
    that a crash interrupts at any point, and a recovery that crashes interrupt any
    number of times, leave the block either as it was or as it was to be, and every
    other block as it was. *)

From S2P Require Import Prelude Util Btt BttMedia BttProofs.

Lemma bind_ok {S A B} (p : io S A) (q : A -> io S B) m s x s1 ops1 :
  p m s = (inr x, s1, ops1) ->
  bind p q m s = let '(r, s2, ops2) := q x (applies m ops1) s1 in (r, s2, ops1 ++ ops2).
Proof. intros E. unfold bind. by rewrite E. Qed.

Section Runs.
Context `{ns_callback} (Hio : forall x, io_error x = false) (Hmalloc : malloc = true).
Context (b : btt).

Lemma nsread_ok {S} off n m (s : S) : nsread off n m s = (inr (get m off n), s, []).
Proof using Hio. unfold nsread. by rewrite Hio. Qed.

Lemma nswrite_ok {S} bs off m (s : S) : nswrite bs off m s = (inr tt, s, [W off bs]).
Proof using Hio. unfold nswrite. by rewrite Hio. Qed.

(** The run-time entry of lane [i]. *)
Definition rt (m : media) (a : arena) (i : nat) : flog_runtime :=
  mkRuntime (cur m a i) (fo a i, fo a i + 16) (nxt m a i).

(** The arena as the info block at [off] describes it. *)
Definition boot (m : media) (off : Z) : arena :=
  let f o n := info_field (get m off sizeof_btt_info) o n in
  mkArena (f info_flags 4%nat) (f 60%nat 4%nat) (f 64%nat 4%nat) (f 68%nat 4%nat) off
    (u64 (off + f 88%nat 8%nat)) (u64 (off + f 96%nat 8%nat)) (u64 (off + f 104%nat 8%nat))
    (u64 (off + f 80%nat 8%nat)) [] [].

Record consistent (m : media) (a : arena) : Prop := {
  c_geom : geom b a;
  c_ok : ok b m a None;
  c_flogs : flogs a = rt m a <$> seq 0 (Z.to_nat (nfree b));
  c_rtt : rtt a = replicate (Z.to_nat (nfree b)) BTT_MAP_ENTRY_ERROR;
  c_flags : Z.land (flags a) BTTINFO_FLAG_ERROR_MASK = 0;
  c_info : boot m (startoff a) = set_flogs [] (set_rtt [] a);
}.

(** The namespace holds the arena [a] with the contents [C]; a pending exchange is
    counted as made. *)
Record holds (a : arena) (C : Z -> option (list Z)) (m : media) (p : option nat) : Prop := {
  h_ok : ok b m a p;
  h_info : boot m (startoff a) = set_flogs [] (set_rtt [] a);
  h_content : forall l, 0 <= l < external_nlba a -> contentP b m a p l = C l;
}.

Lemma boot_agree m m' off : agree m m' off sizeof_btt_info -> boot m' off = boot m off.
Proof. intros E. unfold boot. by rewrite (get_ext m m'). Qed.

Lemma contentP_ext m m' a p l : (forall x, m' x = m x) -> contentP b m' a p l = contentP b m a p l.
Proof.
  intros E. assert (Ha : forall off n, agree m m' off n) by (intros off n x _; by rewrite E).
  assert (Hc : content b m' a l = content b m a l) by (apply content_same; [symmetry; by apply rd_ext|done]).
  destruct p as [j|]; simpl; [|done]. destruct (cur_agree m m' a j (Ha _ _)) as [-> _]. case_match; [|done].
  unfold block. by rewrite (get_ext m m').
Qed.

Lemma holds_ext a C m m' p : geom b a -> (forall x, m' x = m x) -> holds a C m p -> holds a C m' p.
Proof.
  intros G E [K I Hc]. assert (Ha : forall off n, agree m m' off n) by (intros off n x _; by rewrite E).
  split.
  - apply (ok_agree b m); [done..| |done]. intros x. rewrite E. apply (ok_bytes _ _ _ _ K).
  - by rewrite (boot_agree m m').
  - intros l Hl. rewrite (contentP_ext m m') by done. auto.
Qed.

Lemma consistent_holds m a : consistent m a -> holds a (content b m a) m None.
Proof. intros []. by split. Qed.

(** ** The namespace during a write *)

Section Write.
Set Default Proof Using "Type*".
Context (m : media) (a : arena) (i : nat) (l : Z) (buf : list Z).
Context (Hc : consistent m a) (Hi : Z.of_nat i < nfree b) (Hl : 0 <= l < external_nlba a).
Context (Hlen : Z.of_nat (length buf) = lbasize b) (Hbuf : is_bytes buf).

Definition new_entry : Z := Z.lor (freeblk m a None i) BTT_MAP_ENTRY_NORMAL.
Definition old_entry : Z := eff (mapw m a l) l.
Definition new_seq : Z := Nseq (f_seq (cur m a i)).

Definition op1 : nsop := W (blkoff a (freeblk m a None i)) buf.
Definition op2 : nsop := W (inact m a i) (le_bytes 4 l ++ le_bytes 4 old_entry).
Definition op3 : nsop := W (inact m a i + 8) (le_bytes 4 new_entry ++ le_bytes 4 new_seq).
Definition op4 : nsop := W (mapoff a + 4 * l) (le_bytes 4 new_entry).
Definition m1 : media := apply m op1.
Definition m2 : media := apply m1 op2.
Definition m3 : media := apply m2 op3.
Definition m4 : media := apply m3 op4.

(** The contents after the write. *)
Definition written (k : Z) : option (list Z) := if l =? k then Some buf else content b m a k.

Lemma free_range : 0 <= freeblk m a None i < internal_nlba a.
Proof.
  rewrite <- place_lane. eapply place_range; [apply (c_ok _ _ Hc)|]. destruct (c_geom _ _ Hc). lia.
Qed.

Lemma new_entry_facts :
  tgt new_entry = freeblk m a None i /\ entry_flags new_entry = BTT_MAP_ENTRY_NORMAL /\ 0 <= new_entry < 2 ^ 32.
Proof using Type. apply normal_entry, tgt_range. Qed.

(** Any part of the data, on a block nobody reads. *)
Lemma holds_data m' :
  bytes m' ->
  (forall off n, off + n <= op_off op1 \/ op_off op1 + op_len op1 <= off -> agree m m' off n) ->
  holds a (content b m a) m' None.
Proof.
  intros Hb Ha. pose proof (c_geom _ _ Hc) as G. pose proof (c_ok _ _ Hc) as K.
  cbn [op1 op_off op_len] in Ha. rewrite Hlen in Ha. destruct (block_in b a _ G free_range) as (H1 & H2 & _).
  assert (Hm : agree m m' (mapoff a) (meta b a)) by (apply Ha; destruct G; lia).
  split.
  - by apply (ok_agree b m).
  - rewrite (boot_agree m m'); [apply (c_info _ _ Hc)|]. apply Ha. destruct G. lia.
  - intros k Hk. simpl. eapply content_free; [done|done|done|done| |auto].
    by apply (mapw_agree b m m').
Qed.

Lemma holds_m1 : holds a (content b m a) m1 None.
Proof.
  apply holds_data; [apply bytes_apply; [apply (c_ok _ _ Hc)|done]|]. intros. by apply agree_apply.
Qed.

Lemma half_in : mapoff a + 4 * external_nlba a <= inact m a i /\ inact m a i mod 8 = 0 /\ inact m a i + 16 < 2 ^ 64.
Proof.
  destruct (c_geom _ _ Hc). unfold inact, fo.
  assert (Hm : forall k, (flogoff a + 8 * k) mod 8 = 0).
  { intros k. rewrite Z.mul_comm, Z_mod_plus_full. done. }
  pose proof (Hm (8 * Z.of_nat i)). pose proof (Hm (8 * Z.of_nat i + 2)).
  destruct (nxt m a i); split_and!; try lia.
  - rewrite <- H1. f_equal. lia.
  - rewrite <- H0. f_equal. lia.
Qed.

(** The write of the data changes neither the map nor the flog. *)
Lemma m1_meta : agree m m1 (mapoff a) (meta b a).
Proof.
  pose proof (c_geom _ _ Hc) as G. destruct (block_in b a _ G free_range) as (H1 & H2 & _).
  apply agree_apply. cbn [op1 op_off op_len]. rewrite Hlen. destruct G. lia.
Qed.

Lemma m1_lane : cur m1 a i = cur m a i /\ nxt m1 a i = nxt m a i.
Proof. apply cur_agree, (lane_agree b); [apply (c_geom _ _ Hc)|apply m1_meta|done]. Qed.

Lemma m1_inact : inact m1 a i = inact m a i.
Proof. unfold inact. by rewrite (proj2 m1_lane). Qed.

Lemma old_range : 0 <= old_entry < 2 ^ 32.
Proof.
  apply eff_range; [apply rd_range, (c_ok _ _ Hc)|]. destruct (c_geom _ _ Hc). lia.
Qed.

Lemma m2_outside : outside m1 m2 a i.
Proof.
  intros off n Ho. rewrite m1_inact in Ho. apply agree_apply. cbn [op2 op_off op_len].
  rewrite length_app, !le_bytes_length. lia.
Qed.

Lemma m2_words :
  rd m2 (inact m a i) = l /\ rd m2 (inact m a i + 4) = old_entry /\
  rd m2 (inact m a i + 8) = rd m1 (inact m a i + 8) /\ rd m2 (inact m a i + 12) = rd m1 (inact m a i + 12).
Proof.
  destruct (rd_written2 m1 (inact m a i) l old_entry) as [E1 E2]; [destruct (c_geom _ _ Hc); lia|apply old_range|].
  split_and!; [done|done|..]; symmetry; apply rd_ext, agree_apply; cbn [op2 op_off op_len];
    rewrite length_app, !le_bytes_length; lia.
Qed.

Lemma holds_m2 : holds a (content b m a) m2 None /\ cur m2 a i = cur m a i /\ nxt m2 a i = nxt m a i.
Proof.
  destruct holds_m1 as [K1 I1 C1]. pose proof (c_geom _ _ Hc) as G. destruct m2_words as (W1 & W2 & W3 & W4).
  destruct half_in as (Hh & _ & _). destruct m1_lane as [Ec En].
  destruct (ok_inactive b m1 m2 a None i) as (K2 & E1 & E2); try done.
  - apply bytes_apply; [apply K1|]. apply Forall_app. split; apply le_bytes_bytes.
  - apply m2_outside.
  - rewrite m1_inact, fl_words, W1. done.
  - rewrite m1_inact, !fl_words. simpl. by rewrite W4.
  - rewrite E1, E2, Ec, En. split; [|done]. split; [done| |].
    + rewrite (boot_agree m1 m2); [done|]. apply m2_outside. rewrite m1_inact. destruct G. unfold sizeof_btt_info in *.
      pose proof (Z.mul_nonneg_nonneg (internal_nlba a) (arena_lbasize a)). lia.
    + intros k Hk. rewrite <- C1 by done. simpl. eapply content_meta; [done|apply K1|done| |].
      * apply (outside_mapw b m1 m2 a i); [done|done|apply m2_outside|done].
      * apply m2_outside. rewrite m1_inact. destruct G. lia.
Qed.

Lemma m2_inact : inact m2 a i = inact m a i.
Proof. unfold inact. by rewrite (proj2 (proj2 holds_m2)). Qed.

Lemma m3_outside : outside m2 m3 a i.
Proof.
  intros off n Ho. rewrite m2_inact in Ho. apply agree_apply. cbn [op3 op_off op_len].
  rewrite length_app, !le_bytes_length. lia.
Qed.

Lemma m3_entry : fl m3 (inact m a i) = mkFlog l old_entry new_entry new_seq.
Proof.
  destruct m2_words as (W1 & W2 & _ & _). destruct new_entry_facts as (_ & _ & Hn).
  pose proof (ok_pair _ _ _ _ (c_ok _ _ Hc) i Hi) as (_ & _ & _ & Hq). pose proof (Nseq_cycle _ Hq).
  destruct (rd_written2 m2 (inact m a i + 8) new_entry new_seq) as [E1 E2]; [done|unfold new_seq; lia|].
  rewrite fl_words. rewrite <- W1 at 1. rewrite <- W2 at 1. f_equal; [| |done|].
  - symmetry. apply rd_ext, agree_apply. cbn [op3 op_off op_len]. lia.
  - symmetry. apply rd_ext, agree_apply. cbn [op3 op_off op_len]. lia.
  - rewrite <- E2. f_equal. lia.
Qed.

Lemma m2_mapw k : 0 <= k < external_nlba a -> mapw m2 a k = mapw m a k.
Proof.
  intros Hk. pose proof (c_geom _ _ Hc) as G.
  rewrite (outside_mapw b m1 m2 a i); [|done|done|apply m2_outside|done].
  by apply (mapw_agree b m m1); [|apply m1_meta|].
Qed.

Lemma m2_free : freeblk m2 a None i = freeblk m a None i.
Proof. unfold freeblk. by rewrite (proj1 (proj2 holds_m2)). Qed.

(** The data that was written is still there. *)
Lemma m3_block : block b m3 a (freeblk m a None i) = buf.
Proof.
  pose proof (c_geom _ _ Hc) as G. destruct (block_in b a _ G free_range) as (H1 & H2 & _).
  destruct half_in as (Hh & _ & _). unfold block.
  rewrite <- (get_ext m1 m3), <- Hlen; [apply get_written|].
  assert (Hb : blkoff a (freeblk m a None i) + lbasize b <= inact m a i) by (destruct G; lia).
  eapply agree_trans; [apply m2_outside|apply m3_outside]; rewrite ?m1_inact, ?m2_inact; by left.
Qed.

(** The entry is active and the exchange pending. *)
Lemma holds_m3 :
  holds a written m3 (Some i) /\ cur m3 a i = mkFlog l old_entry new_entry new_seq /\ nxt m3 a i = negb (nxt m a i).
Proof.
  destruct holds_m2 as ([K2 I2 C2] & Ec & En). pose proof (c_geom _ _ Hc) as G. destruct half_in as (Hh & _ & _).
  destruct new_entry_facts as (Hnt & _ & _).
  destruct (ok_flip b m2 m3 a i l) as (K3 & E1 & E2); try done.
  - apply bytes_apply; [apply K2|]. apply Forall_app. split; apply le_bytes_bytes.
  - apply m3_outside.
  - rewrite m2_inact, m2_free, Ec, m2_mapw by done. apply m3_entry.
  - rewrite m2_inact, m3_entry in E1. rewrite En in E2. split; [|done]. split; [done| |].
    + rewrite (boot_agree m2 m3); [done|]. apply m3_outside. rewrite m2_inact. destruct G. unfold sizeof_btt_info in *.
      pose proof (Z.mul_nonneg_nonneg (internal_nlba a) (arena_lbasize a)). lia.
    + intros k Hk. simpl. rewrite E1. simpl. unfold written. case_match; [by rewrite Hnt, m3_block|].
      rewrite <- C2 by done. simpl. eapply content_meta; [done|apply K2|done| |].
      * apply (outside_mapw b m2 m3 a i); [done|done|apply m3_outside|done].
      * apply m3_outside. rewrite m2_inact. destruct G. lia.
Qed.

Lemma op4_finish : op4 = finish m3 a i.
Proof. unfold finish. by rewrite (proj1 (proj2 holds_m3)). Qed.

End Write.

(** ** Completing an exchange *)

Lemma holds_finish a C m j : geom b a -> holds a C m (Some j) -> holds a C (apply m (finish m a j)) None.
Proof.
  intros G [K I Hc]. destruct (ok_pend _ _ _ _ K j eq_refl) as (Hj & _). pose proof (ok_pair _ _ _ _ K j Hj) as Hp.
  split.
  - by apply ok_complete.
  - rewrite (boot_agree m); [done|]. apply finish_data; [done|]. destruct G. unfold sizeof_btt_info in *.
    pose proof (Z.mul_nonneg_nonneg (internal_nlba a) (arena_lbasize a)). lia.
  - intros l Hl. simpl. rewrite content_complete by done. auto.
Qed.

(** A map entry is within one aligned word. *)
Lemma entry_in_word a l : geom b a -> (mapoff a + 4 * l) / 8 * 8 + 8 >= mapoff a + 4 * l + Z.of_nat 4.
Proof.
  intros G. destruct G. pose proof (Z.div_mod (mapoff a + 4 * l) 8 ltac:(lia)).
  pose proof (Z.div_mod (mapoff a) 8 ltac:(lia)).
  assert (E : mapoff a + 4 * l = 4 * (2 * (mapoff a / 8) + l)) by lia.
  pose proof (Z.mul_mod_distr_l (2 * (mapoff a / 8) + l) 2 4 ltac:(lia) ltac:(lia)) as Em.
  change (4 * 2) with 8 in Em. rewrite <- E in Em.
  pose proof (Z.mod_pos_bound (2 * (mapoff a / 8) + l) 2 ltac:(lia)). lia.
Qed.

(** It is written at once. *)
Lemma finish_torn m a j m' : geom b a -> torn m (finish m a j) m' ->
  (forall x, m' x = m x) \/ (forall x, m' x = apply m (finish m a j) x).
Proof.
  intros G Ht. apply torn_word in Ht; [done|]. unfold finish. cbn [op_off op_len]. rewrite le_bytes_length.
  by apply entry_in_word.
Qed.

(** ** Crashes during a write *)

Definition write_ops (m : media) (a : arena) (i : nat) (l : Z) (buf : list Z) : list nsop :=
  [op1 m a i buf; op2 m a i l; op3 m a i; op4 m a i l].

Lemma word_torn m o m' : torn m o m' -> op_off o mod 8 = 0 -> op_len o = 8 ->
  (forall x, m' x = m x) \/ (forall x, m' x = apply m o x).
Proof.
  intros Ht Ho Hl. apply torn_word in Ht; [done|]. pose proof (Z.div_mod (op_off o) 8 ltac:(lia)). lia.
Qed.

Lemma write_crash m a i l buf m' :
  consistent m a -> Z.of_nat i < nfree b -> 0 <= l < external_nlba a ->
  Z.of_nat (length buf) = lbasize b -> is_bytes buf ->
  crash_image (write_ops m a i l buf) m m' ->
  exists p, holds a (content b m a) m' p \/ holds a (written m a l buf) m' p.
Proof.
  intros Hc Hi Hl Hlen Hbuf Hcr. pose proof (c_geom _ _ Hc) as G.
  pose proof (holds_m1 m a i l buf Hc Hi Hl Hlen Hbuf) as H1.
  pose proof (holds_m2 m a i l buf Hc Hi Hl Hlen Hbuf) as [H2 _].
  pose proof (holds_m3 m a i l buf Hc Hi Hl Hlen Hbuf) as [H3 _].
  pose proof (op4_finish m a i l buf Hc Hi Hl Hlen Hbuf) as E4.
  destruct (half_in m a i l buf Hc Hi Hl Hlen Hbuf) as (_ & Ha & _).
  pose proof (holds_finish a _ _ i G H3) as H4. rewrite <- E4 in H4.
  destruct Hcr as [Ht|[Ht|[Ht|[Ht|Ht]]]].
  - exists None. left. apply (holds_data m a i l buf Hc Hi Hl Hlen Hbuf).
    + eapply torn_bytes; [exact Ht|apply (c_ok _ _ Hc)|done].
    + intros off n Ho. by eapply torn_outside.
  - exists None. left. apply word_torn in Ht as [E|E]; [by eapply holds_ext|by eapply holds_ext|done|].
    cbn [op2 op_len]. by rewrite length_app, !le_bytes_length.
  - apply word_torn in Ht as [E|E].
    + exists None. left. by eapply holds_ext.
    + exists (Some i). right. by eapply holds_ext.
    + cbn [op3 op_off]. rewrite <- Ha. rewrite <- (Z_mod_plus_full (inact m a i) 1 8). f_equal.
    + cbn [op3 op_len]. by rewrite length_app, !le_bytes_length.
  - rewrite E4 in Ht. apply finish_torn in Ht as [E|E]; [| |done].
    + exists (Some i). right. by eapply holds_ext.
    + exists None. right. rewrite <- E4 in E. by eapply holds_ext.
  - exists None. right. by eapply holds_ext.
Qed.

(** ** Reading an arena *)

Lemma not_pending m a p i : geom b a -> ok b m a p -> Z.of_nat i < nfree b -> p <> Some i ->
  f_old_map (cur m a i) <> eff (mapw m a (f_lba (cur m a i))) (f_lba (cur m a i)).
Proof.
  intros G K Hi Hp E. pose proof (cur_lba m a i (ok_pair _ _ _ _ K i Hi)) as Hl.
  assert (Epl : place m a p (f_lba (cur m a i)) = place m a p (external_nlba a + Z.of_nat i)).
  { rewrite place_lba, place_lane by lia. unfold freeblk. rewrite decide_False by done. by rewrite E. }
  apply (ok_inj _ _ _ _ K) in Epl; destruct G; lia.
Qed.

Lemma pending_differs m a i : geom b a -> ok b m a (Some i) -> f_old_map (cur m a i) <> f_new_map (cur m a i).
Proof.
  intros G K E. destruct (ok_pend _ _ _ _ K i eq_refl) as (Hi & Ho & _).
  pose proof (cur_lba m a i (ok_pair _ _ _ _ K i Hi)) as Hl.
  assert (Epl : place m a (Some i) (f_lba (cur m a i)) = place m a (Some i) (external_nlba a + Z.of_nat i)).
  { rewrite place_lba, place_lane by lia. unfold freeblk. rewrite decide_True by done. by rewrite <- Ho, E. }
  apply (ok_inj _ _ _ _ K) in Epl; destruct G; lia.
Qed.

(** The writes that complete a pending exchange. *)
Definition finishes (m : media) (a : arena) (p : option nat) : list nsop :=
  match p with Some j => [finish m a j] | None => [] end.

Lemma pair_run m a s lane p i :
  geom b a -> ok b m a p -> lane < nfree b -> Z.of_nat i < nfree b -> mapoff s = mapoff a ->
  read_flog_pair b lane (fo a i) m s =
  (inr (rt m a i), s, if decide (p = Some i) then [finish m a i] else []).
Proof using Hio.
  intros G K Hlane Hi Hs. pose proof (ok_pair _ _ _ _ K i Hi) as Hp. pose proof (cur_lba m a i Hp) as Hcl.
  destruct Hp as (L0 & L1 & Hv & _).
  assert (Hmo : map_entry_off s (f_lba (cur m a i)) = mapoff a + 4 * f_lba (cur m a i)).
  { rewrite <- (map_entry_off_eq b a) by done. unfold map_entry_off. by rewrite Hs. }
  assert (Hf : 0 < fo a i /\ u64 (fo a i + 16) = fo a i + 16).
  { destruct G. unfold sizeof_btt_info, fo in *. pose proof (Z.mul_nonneg_nonneg (internal_nlba a) (arena_lbasize a)).
    split; [|apply u64_small]; lia. }
  unfold read_flog_pair. rewrite (proj2 (Z.leb_gt _ _)), (proj2 (Z.eqb_neq (fo a i) 0)) by lia.
  rewrite (bind_ok _ _ _ _ _ _ _ (nsread_ok _ _ _ _)). cbn [applies foldl].
  rewrite take_get, drop_get by (unfold sizeof_btt_flog; lia). cbv zeta.
  change (flog_of_bytes (get m (fo a i) (Z.of_nat 16))) with (fl m (fo a i)).
  change (flog_of_bytes (get m (fo a i + Z.of_nat 16) (2 * sizeof_btt_flog - Z.of_nat 16))) with (fl m (fo a i + 16)).
  unfold invalid_lba. rewrite !(proj2 (Z.leb_gt _ _)) by (destruct G; lia).
  unfold valid in Hv. rewrite Hv. unfold sizeof_btt_flog. rewrite (proj2 Hf). fold (rt m a i).
  destruct (Z.eqb_spec (f_old_map (cur m a i)) (f_new_map (cur m a i))) as [E|E].
  { destruct (decide (p = Some i)) as [->|]; [|done]. by destruct (pending_differs m a i G K). }
  unfold bind, state. rewrite Hmo, nsread_ok. cbn -[Z.add Z.mul finish]. fold (rd m (mapoff a + 4 * f_lba (cur m a i))).
  fold (mapw m a (f_lba (cur m a i))). fold (eff (mapw m a (f_lba (cur m a i))) (f_lba (cur m a i))).
  destruct (decide (p = Some i)) as [->|Hne].
  - destruct (ok_pend _ _ _ _ K i eq_refl) as (_ & Ho & _). rewrite <- Ho, Z.eqb_refl.
    rewrite (proj2 (Z.eqb_neq _ _)) by congruence. cbn [negb andb]. rewrite nswrite_ok. done.
  - rewrite (proj2 (Z.eqb_neq (f_old_map _) _)) by by apply (not_pending m a p). by rewrite andb_false_r.
Qed.

Lemma fo_next a i : geom b a -> Z.of_nat i < nfree b ->
  u64 (fo a i + roundup64 (2 * sizeof_btt_flog) BTT_FLOG_PAIR_ALIGN) = fo a (S i).
Proof.
  intros G Hi. change (roundup64 _ _) with 64. destruct G. unfold fo, sizeof_btt_info in *.
  pose proof (Z.mul_nonneg_nonneg (internal_nlba a) (arena_lbasize a)). rewrite u64_small; lia.
Qed.

Lemma rt_finish m a j i : geom b a -> pair_ok m a j -> rt (apply m (finish m a j)) a i = rt m a i.
Proof.
  intros G Hp. unfold rt. by destruct (cur_agree _ _ a i (finish_lane b m a j i G Hp)) as [-> ->].
Qed.

(** All pairs from lane [i] on; at most one exchange is pending. *)
Lemma pairs_run a s lane n : forall i m p,
  geom b a -> ok b m a p -> lane < nfree b -> mapoff s = mapoff a ->
  Z.of_nat (i + n) = nfree b -> (forall j, p = Some j -> (i <= j)%nat) ->
  read_flog_pairs b n lane (fo a i) m s = (inr (rt m a <$> seq i n), s, finishes m a p).
Proof using Hio.
  induction n as [|n IH]; intros i m p G K Hlane Hs Hn Hp.
  { destruct p as [j|]; [|done]. pose proof (Hp j eq_refl). destruct (ok_pend _ _ _ _ K j eq_refl). lia. }
  cbn [read_flog_pairs]. unfold catch. unfold bind at 1.
  rewrite (pair_run m a s lane p i) by (done || lia). rewrite fo_next by (done || lia).
  destruct (decide (p = Some i)) as [->|Hne].
  - pose proof (ok_pair _ _ _ _ K i ltac:(lia)) as Hpi. pose proof (ok_complete b m a i G K) as K'.
    unfold bind. cbn [applies foldl]. rewrite (IH (S i) _ None) by (done || lia).
    cbn [finishes app seq fmap list_fmap ret]. do 3 f_equal. f_equal.
    apply list_fmap_ext. intros k x _. by apply rt_finish.
  - unfold bind. cbn [applies foldl]. rewrite (IH (S i) m p); [|done|done|done|done|lia|].
    + cbn [ret seq fmap list_fmap]. by rewrite app_nil_r.
    + intros j Hj. pose proof (Hp j Hj). destruct (decide (i = j)) as [<-|]; [done|lia].
Qed.

(** The run-time state of the arena that is read. *)
Definition opened (m : media) (a : arena) : arena :=
  set_rtt (replicate (Z.to_nat (nfree b)) BTT_MAP_ENTRY_ERROR)
    (set_flogs (rt m a <$> seq 0 (Z.to_nat (nfree b))) a).

Lemma arena_run a C m p s lane :
  geom b a -> holds a C m p -> lane < nfree b ->
  read_arena b lane (startoff a) m s = (inr tt, opened m a, finishes m a p).
Proof using Hio Hmalloc.
  intros G [K I _] Hlane. unfold read_arena. rewrite (bind_ok _ _ _ _ _ _ _ (nsread_ok _ _ _ _)).
  cbn [applies foldl]. unfold bind at 1. unfold modify at 1. cbv zeta.
  fold (boot m (startoff a)). rewrite I. unfold read_flogs, build_rtt. rewrite Hmalloc.
  cbn [applies foldl app]. unfold bind, state.
  change (flogoff (set_flogs [] (set_rtt [] a))) with (flogoff a). replace (flogoff a) with (fo a 0) by (unfold fo; lia).
  cbn [applies foldl app]. rewrite (pairs_run a _ lane _ 0 m p); try done.
  - cbn. by rewrite !app_nil_r.
  - destruct G. lia.
  - intros j _. lia.
Qed.

Lemma opened_consistent a C m p : geom b a -> Z.land (flags a) BTTINFO_FLAG_ERROR_MASK = 0 ->
  holds a C m p -> let m' := applies m (finishes m a p) in
  consistent m' (opened m a) /\ forall l, 0 <= l < external_nlba a -> content b m' (opened m a) l = C l.
Proof.
  intros G Hf Hh m'. assert (Hh' : holds a C m' None).
  { destruct p as [j|]; [|done]. by apply holds_finish. }
  assert (Hr : forall i, rt m' a i = rt m a i).
  { intros i. destruct p as [j|]; [|done]. apply rt_finish; [done|].
    destruct Hh as [K _ _]. by apply (ok_pair _ _ _ _ K), (ok_pend _ _ _ _ K j). }
  destruct Hh' as [K I Hc]. split; [|done]. split; try done.
  - split; apply G.
  - split; apply K.
  - simpl. apply list_fmap_ext. intros k x _. symmetry. apply Hr.
Qed.

(** Any number of attempts to read the arena that crashes cut short, and one that
    ends. *)
Inductive restarts (lane off : Z) : media -> media -> arena -> Prop :=
  | restart_done m a ops :
      read_arena b lane off m Zarena = (inr tt, a, ops) -> restarts lane off m (applies m ops) a
  | restart_crash m r a1 ops m1 m2 a :
      read_arena b lane off m Zarena = (r, a1, ops) -> crash_image ops m m1 ->
      restarts lane off m1 m2 a -> restarts lane off m m2 a.

Lemma restarts_holds lane a C m m2 a2 p :
  geom b a -> Z.land (flags a) BTTINFO_FLAG_ERROR_MASK = 0 -> lane < nfree b -> holds a C m p ->
  restarts lane (startoff a) m m2 a2 ->
  consistent m2 a2 /\ external_nlba a2 = external_nlba a /\
  forall l, 0 <= l < external_nlba a -> content b m2 a2 l = C l.
Proof using Hio Hmalloc.
  intros G Hf Hlane Hh Hr. revert p Hh. induction Hr as [m a2 ops E|m r a1 ops m1 m2 a2 E Hcr Hr IH]; intros p Hh;
    rewrite (arena_run a C m p) in E by done.
  - injection E as <- <-. by destruct (opened_consistent a C m p G Hf Hh).
  - injection E as <- <- <-. destruct p as [j|]; simpl in Hcr; [|apply (IH None); by eapply holds_ext].
    pose proof (holds_finish a C m j G Hh) as Hh'. pose proof (h_ok _ _ _ _ Hh) as K.
    destruct Hcr as [Ht|E]; [|by apply (IH None), (holds_ext a C (apply m (finish m a j)))].
    apply (finish_torn m a j) in Ht as [E|E]; [| |done].
    + by apply (IH (Some j)), (holds_ext a C m).
    + by apply (IH None), (holds_ext a C (apply m (finish m a j))).
Qed.

(** The arena at [startoff a] can be read from [m], and however often crashes cut
    this short it is in the end consistent and has the contents [C]. *)
Definition recovers (lane : Z) (a : arena) (m : media) (C : Z -> option (list Z)) : Prop :=
  (exists a1 ops, read_arena b lane (startoff a) m Zarena = (inr tt, a1, ops)) /\
  forall m2 a2, restarts lane (startoff a) m m2 a2 ->
    consistent m2 a2 /\ external_nlba a2 = external_nlba a /\
    forall l, 0 <= l < external_nlba a -> content b m2 a2 l = C l.

Lemma holds_recovers lane a C m p :
  geom b a -> Z.land (flags a) BTTINFO_FLAG_ERROR_MASK = 0 -> lane < nfree b -> holds a C m p ->
  recovers lane a m C.
Proof using Hio Hmalloc.
  intros G Hf Hlane Hh. split; [eexists _, _; by apply (arena_run a C m p)|].
  intros m2 a2 Hr. by apply (restarts_holds lane a C m m2 a2 p).
Qed.

End Runs.
