(* ===== verification/BttRuns.v ===== *)
(** * Block translation tables: reads, writes and flags of blocks

    The operations of [btt.c] on the blocks of an arena, proved against the
    invariant: what each returns, what it leaves, and what a crash in it leaves. *)

From S2P Require Import Prelude Util Btt BttMedia BttProofs BttAtomic.

Section Blocks.
Context `{ns_callback} (Hio : forall x, io_error x = false) (Hmalloc : malloc = true).
Context (b : btt).

(** ** Writing *)

Definition write_rt (m : media) (a : arena) (i : nat) (l : Z) : flog_runtime :=
  mkRuntime (mkFlog l (old_entry m a l) (new_entry m a i) (new_seq m a i)) (fo a i, fo a i + 16) (negb (nxt m a i)).

Definition write_arena_state (m : media) (a : arena) (i : nat) (l : Z) : arena :=
  set_flogs (<[i := write_rt m a i l]> (flogs a)) a.

Lemma flogs_lookup m a i : consistent b m a -> Z.of_nat i < nfree b -> flogs a !! i = Some (rt m a i).
Proof.
  intros Hc Hi. rewrite (c_flogs _ _ _ Hc), list_lookup_fmap, lookup_seq_lt by lia. done.
Qed.

Lemma free_entry_eq m a i : Z.lor (Z.land (f_old_map (cur m a i)) BTT_MAP_ENTRY_LBA_MASK) BTT_MAP_ENTRY_NORMAL
  = new_entry m a i.
Proof. done. Qed.

(** No reader holds a free block. *)
Lemma rtt_free m a i n : consistent b m a ->
  existsb (fun e => e =? new_entry m a i) (take n (rtt a)) = false.
Proof.
  intros Hc. rewrite (c_rtt _ _ _ Hc), take_replicate. destruct (new_entry_facts m a i) as (_ & Hf & _).
  induction (n `min` _)%nat as [|k IH]; [done|]. cbn [replicate existsb]. rewrite IH, orb_false_r.
  apply Z.eqb_neq. intros E. rewrite <- E in Hf. by vm_compute in Hf.
Qed.

Lemma map_lock_run m m' a l : geom b a -> 0 <= l < external_nlba a -> mapw m' a l = mapw m a l ->
  map_lock l m' a = (inr (old_entry m a l), a, []).
Proof using Hio.
  intros G Hl E. unfold map_lock, bind, state. rewrite (nsread_ok Hio), (map_entry_off_eq b) by done.
  cbn -[Z.add Z.mul]. fold (rd m' (mapoff a + 4 * l)). fold (mapw m' a l). by rewrite E.
Qed.

Lemma write_block_run m a i l buf :
  consistent b m a -> Z.of_nat i < nfree b -> 0 <= l < external_nlba a ->
  Z.of_nat (length buf) = lbasize b -> is_bytes buf ->
  write_block b (Z.of_nat i) l buf m a = (inr tt, write_arena_state m a i l, write_ops m a i l buf).
Proof using Hio Hmalloc.
  intros Hc Hi Hl Hlen Hbuf. pose proof (c_geom _ _ _ Hc) as G.
  destruct (half_in b m a i l buf Hc Hi Hl Hlen Hbuf) as (_ & _ & Hh).
  destruct (new_entry_facts m a i) as (Ht & _ & _).
  pose proof (free_range b m a i l buf Hc Hi Hl Hlen Hbuf) as Hfr.
  unfold write_block. unfold bind at 1, state at 1. rewrite (c_flags _ _ _ Hc). cbn [Z.eqb negb].
  unfold bind at 1. rewrite Nat2Z.id, (flogs_lookup m a i Hc Hi). cbn [checked ret applies foldl app].
  cbn [rt flog]. rewrite free_entry_eq, (rtt_free m) by done.
  assert (Hd : data_block_off a (new_entry m a i) = blkoff a (freeblk m a None i)).
  { rewrite <- Ht. apply (data_block_off_eq b); [done|]. rewrite Ht. lia. }
  unfold bind at 1. rewrite (nswrite_ok Hio). rewrite Hd.
  fold (op1 m a i buf). unfold bind at 1. cbn [applies foldl].
  rewrite (map_lock_run m _ a l G Hl); cycle 1.
  { by apply (mapw_agree b m); [|apply (m1_meta b m a i l buf)|]. }
  unfold bind at 1, flog_update. unfold bind at 1, state at 1.
  unfold bind at 1. rewrite Nat2Z.id, (flogs_lookup m a i Hc Hi). cbn [checked ret applies foldl app].
  unfold bind at 1. rewrite (nswrite_ok Hio). unfold bind at 1. rewrite (nswrite_ok Hio). cbn [rt next entries fst snd flog].
  fold (inact m a i). unfold catch, map_unlock, modify, bind, state.
  assert (Hmo : forall v, map_entry_off (set_flogs v a) l = mapoff a + 4 * l) by (intros; by apply (map_entry_off_eq b a l)).
  rewrite Hmo. cbn [applies foldl].
  rewrite (nswrite_ok Hio), u64_small.
  - done.
  - unfold inact, fo in *. destruct G. unfold sizeof_btt_info in *.
    pose proof (Z.mul_nonneg_nonneg (internal_nlba a) (arena_lbasize a)). destruct (nxt m a i); lia.
Qed.

(** The run-time flog agrees with the namespace again. *)
Lemma write_flogs m a i l buf :
  consistent b m a -> Z.of_nat i < nfree b -> 0 <= l < external_nlba a ->
  Z.of_nat (length buf) = lbasize b -> is_bytes buf ->
  <[i := write_rt m a i l]> (flogs a) = rt (m4 m a i l buf) a <$> seq 0 (Z.to_nat (nfree b)).
Proof.
  intros Hc Hi Hl Hlen Hbuf. pose proof (c_geom _ _ _ Hc) as G.
  destruct (holds_m3 b m a i l buf Hc Hi Hl Hlen Hbuf) as (H3 & E3 & N3).
  pose proof (op4_finish b m a i l buf Hc Hi Hl Hlen Hbuf) as E4.
  assert (Hp : pair_ok (m3 m a i l buf) a i) by apply (ok_pair _ _ _ _ (h_ok _ _ _ _ _ H3)), Hi.
  assert (Hr : forall j, rt (m4 m a i l buf) a j = rt (m3 m a i l buf) a j).
  { intros j. unfold m4. rewrite E4. by apply (rt_finish b). }
  apply list_eq. intros j. destruct (decide (Z.of_nat j < nfree b)) as [Hj|Hj]; cycle 1.
  { rewrite !lookup_ge_None_2; [done|rewrite length_fmap, length_seq; lia|].
    rewrite length_insert, (c_flogs _ _ _ Hc), length_fmap, length_seq. lia. }
  rewrite (list_lookup_fmap _ (seq _ _)), lookup_seq_lt by lia. cbn [fmap option_fmap option_map plus]. rewrite Hr.
  destruct (decide (i = j)) as [<-|Hij].
  - rewrite list_lookup_insert_eq by (rewrite (c_flogs _ _ _ Hc), length_fmap, length_seq; lia).
    unfold rt, write_rt. by rewrite E3, N3.
  - rewrite list_lookup_insert_ne, (flogs_lookup m) by done. unfold rt.
    assert (Ha : agree m (m3 m a i l buf) (fo a j) 32).
    { eapply agree_trans; [|eapply agree_trans].
      - apply (lane_agree b m _ a j G (m1_meta b m a i l buf Hc Hi Hl Hlen Hbuf) Hj).
      - by apply (outside_lane b _ _ a i j G Hij), (m2_outside b).
      - by apply (outside_lane b _ _ a i j G Hij), (m3_outside b). }
    by destruct (cur_agree _ _ a j Ha) as [-> ->].
Qed.

Lemma write_consistent m a i l buf :
  consistent b m a -> Z.of_nat i < nfree b -> 0 <= l < external_nlba a ->
  Z.of_nat (length buf) = lbasize b -> is_bytes buf ->
  consistent b (m4 m a i l buf) (write_arena_state m a i l) /\
  forall k, 0 <= k < external_nlba a -> content b (m4 m a i l buf) a k = written b m a l buf k.
Proof.
  intros Hc Hi Hl Hlen Hbuf. pose proof (c_geom _ _ _ Hc) as G.
  destruct (holds_m3 b m a i l buf Hc Hi Hl Hlen Hbuf) as (H3 & _).
  pose proof (holds_finish b a _ _ i G H3) as H4. rewrite <- (op4_finish b m a i l buf) in H4 by done.
  fold (m4 m a i l buf) in H4. destruct H4 as [K I Hct]. split; [|done]. split.
  - split; apply G.
  - split; apply K.
  - exact (write_flogs m a i l buf Hc Hi Hl Hlen Hbuf).
  - exact (c_rtt _ _ _ Hc).
  - exact (c_flags _ _ _ Hc).
  - exact I.
Qed.

(** ** Reading *)

Lemma rtt_restored a lane e n : rtt a = replicate n BTT_MAP_ENTRY_ERROR ->
  set_rtt (<[lane := BTT_MAP_ENTRY_ERROR]> (<[lane := e]> (rtt a))) a = a.
Proof.
  intros E. rewrite list_insert_insert_eq, list_insert_id'; [by destruct a|].
  rewrite E, length_replicate. intros Hl. by apply lookup_replicate_2.
Qed.

Lemma read_block_run m a l fuel lane : consistent b m a -> 0 <= l < external_nlba a ->
  read_block b (S fuel) lane l m a =
  (match content b m a l with Some bs => inr bs | None => inl EIO end, a, []).
Proof using Hio.
  intros Hc Hl. pose proof (c_geom _ _ _ Hc) as G. pose proof (c_ok _ _ _ Hc) as K. unfold read_block.
  unfold bind at 1, state at 1. cbn [applies foldl app]. rewrite (map_entry_off_eq b) by done.
  unfold bind at 1. rewrite (nsread_ok Hio). cbn [applies foldl app]. fold (rd m (mapoff a + 4 * l)).
  fold (mapw m a l). unfold bind at 1. cbn [read_loop]. unfold content.
  destruct (map_entry_is_error (mapw m a l)); [done|].
  destruct (map_entry_is_zero_or_initial (mapw m a l)) eqn:Hz; [done|].
  unfold bind at 1, set_rtt_at at 1, modify at 1. unfold bind at 1, catch at 1. rewrite (nsread_ok Hio).
  cbn [applies foldl app]. fold (rd m (mapoff a + 4 * l)). fold (mapw m a l). rewrite Z.eqb_refl. cbn [ret app].
  assert (Hr : tgt (mapw m a l) < internal_nlba a).
  { rewrite <- (normal_place m a None l) by (done || lia). apply (ok_range _ _ _ _ K). destruct G. lia. }
  rewrite (data_block_off_eq b) by done. unfold bind at 1, catch. rewrite (nsread_ok Hio).
  unfold bind, set_rtt_at, modify, ret. cbn [applies foldl app]. do 3 f_equal.
  by apply (rtt_restored a _ _ (Z.to_nat (nfree b))), (c_rtt _ _ _ Hc).
Qed.

(** ** Marking blocks *)

(** The map entry of [l] is replaced by [e], which names the same block. *)
Definition setf_op (a : arena) (l e : Z) : nsop := W (mapoff a + 4 * l) (le_bytes 4 e).

Lemma setf_mapw m a l e k : 0 <= e < 2 ^ 32 ->
  mapw (apply m (setf_op a l e)) a k = if l =? k then e else mapw m a k.
Proof.
  intros He. unfold mapw, setf_op. destruct (Z.eqb_spec l k) as [->|Hne]; [by apply rd_written|].
  symmetry. apply rd_ext, agree_apply. cbn [op_off op_len]. rewrite le_bytes_length. lia.
Qed.

Lemma setf_holds m a l t f :
  consistent b m a -> 0 <= l < external_nlba a -> t = tgt (eff (mapw m a l) l) -> f = 1 \/ f = 2 ->
  holds b a (fun k => if l =? k then (if f =? 2 then Some (replicate (Z.to_nat (lbasize b)) 0) else None)
                      else content b m a k)
    (apply m (setf_op a l (Z.lor t (Z.shiftl f 30)))) None.
Proof.
  intros Hc Hl Ht Hf. pose proof (c_geom _ _ _ Hc) as G. pose proof (c_ok _ _ _ Hc) as K.
  destruct (flag_entry t f) as (E1 & E2 & E3); [subst t; apply tgt_range|lia|].
  set (e := Z.lor t (Z.shiftl f 30)) in *. set (m' := apply m (setf_op a l e)).
  assert (Ho : forall off n, off + n <= mapoff a + 4 * l \/ mapoff a + 4 * l + 4 <= off -> agree m m' off n).
  { intros off n Hn. apply agree_apply. unfold setf_op. cbn [op_off op_len]. by rewrite le_bytes_length. }
  assert (Hlane : forall i, agree m m' (fo a i) 32) by (intros i; apply Ho; destruct G; unfold fo; lia).
  assert (Hini : eff e l = e).
  { unfold eff, map_entry_is_initial. rewrite E2. by destruct Hf as [->| ->]. }
  assert (Hpl : forall k, place m' a None k = place m a None k).
  { intros k. unfold place, freeblk. destruct (cur_agree m m' a (Z.to_nat (k - external_nlba a)) (Hlane _)) as [-> _].
    unfold m'. rewrite setf_mapw by done. destruct (Z.eqb_spec l k) as [<-|]; [|done]. by rewrite Hini, E1, Ht. }
  assert (Hdata : agree m m' (dataoff a) (mapoff a - dataoff a)) by (apply Ho; lia).
  split.
  - split.
    + apply bytes_apply; [apply K|apply le_bytes_bytes].
    + intros i Hi. by eapply pair_agree, (ok_pair _ _ _ _ K).
    + intros k k'. rewrite !Hpl. apply K.
    + intros k. rewrite Hpl. apply K.
    + done.
  - rewrite (boot_agree m m'); [apply (c_info _ _ _ Hc)|]. apply Ho. destruct G. unfold sizeof_btt_info in *.
    pose proof (Z.mul_nonneg_nonneg (internal_nlba a) (arena_lbasize a)). lia.
  - intros k Hk. simpl. pose proof (setf_mapw m a l e k E3) as Em. destruct (Z.eqb_spec l k) as [<-|Hne].
    + unfold content, map_entry_is_error, map_entry_is_zero_or_initial. fold m' in Em. rewrite Em, E2.
      by destruct Hf as [->| ->].
    + by apply (content_meta b m m' a None).
Qed.

Lemma setf_block_run m a l f :
  consistent b m a -> 0 <= l < external_nlba a -> f = 1 \/ f = 2 ->
  exists ops, setf_block l (Z.shiftl f 30) m a = (inr tt, a, ops) /\
    ((ops = [] /\ f = 2 /\ map_entry_is_zero_or_initial (mapw m a l) = true) \/
     ops = [setf_op a l (Z.lor (tgt (eff (mapw m a l) l)) (Z.shiftl f 30))]).
Proof using Hio.
  intros Hc Hl Hf. pose proof (c_geom _ _ _ Hc) as G. unfold setf_block.
  unfold bind at 1, state at 1. cbn [applies foldl app]. rewrite (c_flags _ _ _ Hc). cbn [Z.eqb negb].
  unfold bind at 1. rewrite (map_lock_run m m a l G Hl eq_refl). cbn [applies foldl app].
  destruct ((Z.shiftl f 30 =? BTT_MAP_ENTRY_ZERO) && map_entry_is_zero_or_initial (old_entry m a l)) eqn:E.
  - exists []. split; [done|]. left. apply andb_true_iff in E as [E1 E2].
    destruct Hf as [->| ->]; [done|]. split_and!; [done..|]. unfold old_entry, eff in E2.
    destruct (map_entry_is_initial (mapw m a l)) eqn:Ei; [|done].
    unfold map_entry_is_zero_or_initial, map_entry_is_initial in *. by rewrite Ei.
  - eexists. split; [|by right]. unfold map_unlock, bind, state. rewrite (nswrite_ok Hio), (map_entry_off_eq b) by done.
    done.
Qed.

Lemma holds_consistent m m' a C : consistent b m a -> holds b a C m' None ->
  (forall i, rt m' a i = rt m a i) -> consistent b m' a.
Proof.
  intros [G K Hf Hr Hfl Hi] [K' I' _] E. split; try done. rewrite Hf. apply list_fmap_ext. intros k x _. by rewrite E.
Qed.

Lemma setf_rt m a l e i : geom b a -> 0 <= l < external_nlba a -> rt (apply m (setf_op a l e)) a i = rt m a i.
Proof.
  intros G Hl. unfold rt. destruct (cur_agree m (apply m (setf_op a l e)) a i) as [-> ->]; [|done].
  apply agree_apply. unfold setf_op. cbn [op_off op_len]. rewrite le_bytes_length. destruct G. unfold fo. lia.
Qed.

Lemma setf_torn m a l e m' : geom b a -> torn m (setf_op a l e) m' ->
  (forall x, m' x = m x) \/ (forall x, m' x = apply m (setf_op a l e) x).
Proof.
  intros G Ht. apply torn_word in Ht; [done|]. unfold setf_op. cbn [op_off op_len]. rewrite le_bytes_length.
  by apply (entry_in_word b).
Qed.

End Blocks.

(** C10: [btt_write] is atomic.  On a consistent arena, a write of a block by any
    lane succeeds, leaves the arena consistent, with the new data in that block
    and every other block as it was.  If it is cut short by a crash at any point
    (the writes to the namespace being torn at aligned words of eight bytes), and
    the reading of the arena afterwards by any number of further crashes, the
    arena can be read, and is then consistent, with every block as it was before
    the write, or every block as after it. *)
Theorem btt_write_atomic `{ns_callback} b m a i l buf lane :
  (forall x, io_error x = false) -> malloc = true ->
  consistent b m a -> Z.of_nat i < nfree b -> lane < nfree b -> 0 <= l < external_nlba a ->
  Z.of_nat (length buf) = lbasize b -> is_bytes buf ->
  let new k := if l =? k then Some buf else content b m a k in
  exists a' ops,
    write_block b (Z.of_nat i) l buf m a = (inr tt, a', ops) /\
    consistent b (applies m ops) a' /\
    (forall k, 0 <= k < external_nlba a -> content b (applies m ops) a' k = new k) /\
    forall m1, crash_image ops m m1 ->
      recovers b lane a m1 (content b m a) \/ recovers b lane a m1 new.
Proof.
  intros Hio Hmalloc Hc Hi Hlane Hl Hlen Hbuf new. pose proof (c_geom _ _ _ Hc) as G.
  destruct (write_consistent b m a i l buf Hc Hi Hl Hlen Hbuf) as [Hc' Hnew].
  exists (write_arena_state m a i l), (write_ops m a i l buf). split_and!; [by apply write_block_run|done|done|].
  intros m1 Hcr. destruct (write_crash b m a i l buf m1 Hc Hi Hl Hlen Hbuf Hcr) as [p [Hh|Hh]]; [left|right].
  all: by eapply (holds_recovers Hio Hmalloc), Hh; [|apply (c_flags _ _ _ Hc)|].
Qed.

(** [btt_read] returns the content of the block: its data, zeros for a block
    never written or marked as zero, and EIO for one marked as bad.  It changes
    nothing, and one round of its loop is enough when nobody else writes. *)
Theorem btt_read_content `{ns_callback} b m a l fuel lane :
  (forall x, io_error x = false) -> consistent b m a -> 0 <= l < external_nlba a ->
  read_block b (S fuel) lane l m a =
  (match content b m a l with Some bs => inr bs | None => inl EIO end, a, []).
Proof. intros Hio Hc Hl. by apply read_block_run. Qed.

(** [btt_set_zero] and [btt_set_error] are atomic: the block then reads as
    zeros, or fails; all else is unchanged; and after a crash all is as before or
    as after. *)
Theorem btt_setf_atomic `{ns_callback} b m a l f lane :
  (forall x, io_error x = false) -> malloc = true ->
  consistent b m a -> lane < nfree b -> 0 <= l < external_nlba a ->
  f = BTT_MAP_ENTRY_ZERO \/ f = BTT_MAP_ENTRY_ERROR ->
  let new k := if l =? k then (if f =? BTT_MAP_ENTRY_ZERO then Some (replicate (Z.to_nat (lbasize b)) 0) else None)
               else content b m a k in
  exists ops,
    setf_block l f m a = (inr tt, a, ops) /\
    consistent b (applies m ops) a /\
    (forall k, 0 <= k < external_nlba a -> content b (applies m ops) a k = new k) /\
    forall m1, crash_image ops m m1 ->
      recovers b lane a m1 (content b m a) \/ recovers b lane a m1 new.
Proof.
  intros Hio Hmalloc Hc Hlane Hl Hf new. pose proof (c_geom _ _ _ Hc) as G. pose proof (c_flags _ _ _ Hc) as Hfl.
  assert (exists g, f = Z.shiftl g 30 /\ (g = 1 \/ g = 2)) as (g & -> & Hg)
    by (destruct Hf as [->| ->]; [exists 2|exists 1]; auto).
  assert (Eg : (Z.shiftl g 30 =? BTT_MAP_ENTRY_ZERO) = (g =? 2)) by (by destruct Hg as [->| ->]).
  unfold new. rewrite Eg. pose proof (consistent_holds b m a Hc) as Hh.
  destruct (setf_block_run Hio b m a l g Hc Hl Hg) as (ops & E & [(-> & -> & Ez)| ->]); eexists; (split; [exact E|]).
  - split_and!; [done| |].
    + intros k Hk. destruct (Z.eqb_spec l k) as [<-|]; [|done]. cbn [applies foldl]. unfold content. rewrite Ez.
      unfold map_entry_is_error, map_entry_is_zero_or_initial in *.
      destruct (entry_flags (mapw m a l) =? 0) eqn:E0; [apply Z.eqb_eq in E0; by rewrite E0|].
      apply Z.eqb_eq in Ez. by rewrite Ez.
    + intros m1 Em. left. eapply (holds_recovers Hio Hmalloc); [done..|]. by eapply holds_ext.
  - pose proof (setf_holds b m a l _ g Hc Hl eq_refl Hg) as Hn. split_and!.
    + eapply (holds_consistent b m); [done|exact Hn|]. intros i. by apply (setf_rt b).
    + apply (h_content _ _ _ _ _ Hn).
    + intros m1 [Ht|Em]; [apply (setf_torn b) in Ht as [Em|Em]; [left| |done]|];
        try right; eapply (holds_recovers Hio Hmalloc); try done; by eapply holds_ext.
Qed.
