(* ===== verification/BttTable.v ===== *)
(** * Block translation tables: layout, opening and the entry points

    The part of [nvml/src/libpmemblk/btt.c] above the single arena: the sizes and
    offsets of a new layout and the writing of it, the reading of an existing one,
    the operations [btt_init], [btt_read], [btt_write], [btt_set_zero],
    [btt_set_error] and [btt_check].  The loops over arenas carry fuel; an arena is
    at least [BTT_MIN_SIZE] bytes and all but the last are [BTT_MAX_ARENA], so
    [layout_fuel] is enough. *)

From S2P Require Import Prelude Util Btt.

(** ** Sizes and offsets *)

Definition roundup32 (x y : Z) : Z := u32 (u32 (x + (y - 1)) / y * y).

(** 0 for a size that overflows. *)
Definition internal_lbasize (external_lbasize : Z) : Z :=
  let l := if external_lbasize <? BTT_MIN_LBA_SIZE then BTT_MIN_LBA_SIZE else external_lbasize in
  let l := roundup32 l BTT_INTERNAL_LBA_ALIGNMENT in
  if l <? BTT_INTERNAL_LBA_ALIGNMENT then 0 else l.

Definition btt_flog_size (nfree : Z) : Z :=
  roundup64 (u64 (nfree * roundup64 (2 * sizeof_btt_flog) BTT_FLOG_PAIR_ALIGN)) BTT_ALIGNMENT.

(** [external_nlba * BTT_MAP_ENTRY_SIZE] is a product of 32 bits. *)
Definition btt_map_size (external_nlba : Z) : Z :=
  roundup64 (u32 (external_nlba * BTT_MAP_ENTRY_SIZE)) BTT_ALIGNMENT.

Definition btt_arena_datasize (arena_size nfree : Z) : Z :=
  u64 (arena_size - 2 * sizeof_btt_info - btt_flog_size nfree).

Record btt_info := mkInfo {
  i_external_lbasize : Z; i_external_nlba : Z; i_internal_lbasize : Z; i_internal_nlba : Z;
  i_nfree : Z; i_infosize : Z;
  i_nextoff : Z; i_dataoff : Z; i_mapoff : Z; i_flogoff : Z; i_infooff : Z;
}.

(** [None] when there are too few blocks; the offsets are still zero. *)
Definition btt_info_set_params (external_lbasize internal_lbasize nfree arena_size : Z) : option btt_info :=
  let arena_data_size := btt_arena_datasize arena_size nfree in
  let internal_nlba := u64 (arena_data_size - BTT_ALIGNMENT) / u32 (internal_lbasize + BTT_MAP_ENTRY_SIZE) in
  if internal_nlba <? u32 (2 * nfree) then None
  else Some (mkInfo external_lbasize (u32 (u32 internal_nlba - nfree)) internal_lbasize (u32 internal_nlba)
               nfree sizeof_btt_info 0 0 0 0 0).

Definition btt_info_set_offs (info : btt_info) (arena_size space_left : Z) : btt_info :=
  let nextoff := if BTT_MIN_SIZE <=? space_left then arena_size else 0 in
  let infooff := u64 (arena_size - sizeof_btt_info) in
  let flogoff := u64 (infooff - btt_flog_size (i_nfree info)) in
  let mapoff := u64 (flogoff - btt_map_size (i_external_nlba info)) in
  mkInfo (i_external_lbasize info) (i_external_nlba info) (i_internal_lbasize info) (i_internal_nlba info)
    (i_nfree info) (i_infosize info) nextoff (i_infosize info) mapoff flogoff infooff.

Definition btt_info_set (external_lbasize nfree arena_size space_left : Z) : option btt_info :=
  let internal_lba_size := internal_lbasize external_lbasize in
  if internal_lba_size =? 0 then None
  else info ← btt_info_set_params external_lbasize internal_lba_size nfree arena_size;
       Some (btt_info_set_offs info arena_size space_left).

(** The signature, [BTT_ARENA_INFO] and two zeros. *)
Definition Sig : list Z := [66; 84; 84; 95; 65; 82; 69; 78; 65; 95; 73; 78; 70; 79; 0; 0].

(** The info block, before its checksum is inserted. *)
Definition bytes_of_info (uuid parent_uuid : list Z) (i : btt_info) : list Z :=
  Sig ++ uuid ++ parent_uuid ++ le_bytes 4 0 ++ le_bytes 2 BTTINFO_MAJOR_VERSION ++ le_bytes 2 BTTINFO_MINOR_VERSION
  ++ le_bytes 4 (i_external_lbasize i) ++ le_bytes 4 (i_external_nlba i)
  ++ le_bytes 4 (i_internal_lbasize i) ++ le_bytes 4 (i_internal_nlba i)
  ++ le_bytes 4 (i_nfree i) ++ le_bytes 4 (i_infosize i)
  ++ le_bytes 8 (i_nextoff i) ++ le_bytes 8 (i_dataoff i) ++ le_bytes 8 (i_mapoff i)
  ++ le_bytes 8 (i_flogoff i) ++ le_bytes 8 (i_infooff i) ++ replicate 3968 0 ++ replicate 8 0.

Definition set_laidout (v : bool) (l : list arena) (b : btt) : btt :=
  mkBtt (nlane b) v (uuid b) (parent_uuid b) (rawsize b) (lbasize b) (nfree b) (nlba b) (narena b) l.
Definition set_uuid (v : list Z) (b : btt) : btt :=
  mkBtt (nlane b) (laidout b) v (parent_uuid b) (rawsize b) (lbasize b) (nfree b) (nlba b) (narena b) (arenas b).
Definition set_narena (v : Z) (b : btt) : btt :=
  mkBtt (nlane b) (laidout b) (uuid b) (parent_uuid b) (rawsize b) (lbasize b) (nfree b) (nlba b) v (arenas b).
Definition set_nlba (v : Z) (b : btt) : btt :=
  mkBtt (nlane b) (laidout b) (uuid b) (parent_uuid b) (rawsize b) (lbasize b) (nfree b) v (narena b) (arenas b).
Definition set_nfree (v : Z) (b : btt) : btt :=
  mkBtt (nlane b) (laidout b) (uuid b) (parent_uuid b) (rawsize b) (lbasize b) v (nlba b) (narena b) (arenas b).
Definition set_nlane (v : Z) (b : btt) : btt :=
  mkBtt v (laidout b) (uuid b) (parent_uuid b) (rawsize b) (lbasize b) (nfree b) (nlba b) (narena b) (arenas b).
Definition set_arenas (v : list arena) (b : btt) : btt :=
  mkBtt (nlane b) (laidout b) (uuid b) (parent_uuid b) (rawsize b) (lbasize b) (nfree b) (nlba b) (narena b) v.

Definition layout_fuel (rawsize : Z) : nat := S (Z.to_nat (rawsize / BTT_MAX_ARENA)).

Section Table.
Context `{ns_callback}.

(** ** Reading the arenas *)

(** An arena operation on a zeroed [struct arena]. *)
Definition new_arena (p : io arena unit) : io btt arena := fun m b =>
  let '(r, a, ops) := p m Zarena in
  (match r with inl e => inl e | inr _ => inr a end, b, ops).

Fixpoint read_arenas_loop (n : nat) (lane arena_off : Z) : io btt (list arena) :=
  match n with
  | O => ret []
  | S n' =>
      b <- state;;
      a <- new_arena (read_arena b lane arena_off);;
      l <- read_arenas_loop n' lane (nextoff a);;
      ret (a :: l)
  end.

Definition read_arenas (lane narena : Z) : io btt unit :=
  if malloc then
    l <- catch (read_arenas_loop (Z.to_nat narena) lane 0) (fun e => modify (set_arenas []);;; fail e);;
    modify (set_laidout true l)
  else fail ENOMEM.

(** ** Writing a layout *)

(** The initial flog: the pairs from [i] on, [n] of them. *)
Fixpoint write_flog (n : nat) (i flog_entry_off next_free_lba : Z) : io btt unit :=
  match n with
  | O => ret tt
  | S n' =>
      let map := Z.lor next_free_lba BTT_MAP_ENTRY_ZERO in
      nswrite (bytes_of_flog (mkFlog i map map 1)) flog_entry_off;;;
      let off := u64 (flog_entry_off + sizeof_btt_flog) in
      nswrite (bytes_of_flog Zflog) off;;;
      write_flog n' (i + 1) (roundup64 (u64 (off + sizeof_btt_flog)) BTT_FLOG_PAIR_ALIGN) (u32 (next_free_lba + 1))
  end.

(** The rest of the loop body of [write_layout], after the parameters are set. *)
Definition write_arena (info : btt_info) (arena_off : Z) : io btt unit :=
  b <- state;;
  (if ns_is_zeroed then ret tt else nszero (btt_map_size (i_external_nlba info)) (i_mapoff info));;;
  write_flog (Z.to_nat (nfree b)) 0 (u64 (arena_off + i_flogoff info)) (i_external_nlba info);;;
  let bytes := info_sum (bytes_of_info (uuid b) (parent_uuid b) info) in
  nswrite bytes arena_off;;;
  nswrite bytes (u64 (arena_off + i_infooff info)).

(** The loop of [write_layout]; the result is the total number of blocks. *)
Fixpoint layout_loop (fuel : nat) (write : bool) (internal_lba_size rawsize arena_off total_nlba : Z) : io btt Z :=
  if rawsize <? BTT_MIN_SIZE then ret total_nlba
  else match fuel with
  | O => fail (-2)
  | S fuel' =>
      let arena_rawsize := if BTT_MAX_ARENA <? rawsize then BTT_MAX_ARENA else rawsize in
      let rawsize := rawsize - arena_rawsize in
      b <- state;;
      match btt_info_set_params (lbasize b) internal_lba_size (nfree b) arena_rawsize with
      | None => fail EINVAL
      | Some info =>
          let total_nlba := u64 (total_nlba + i_external_nlba info) in
          if write then
            let info := btt_info_set_offs info arena_rawsize rawsize in
            write_arena info arena_off;;;
            layout_loop fuel' write internal_lba_size rawsize (u64 (arena_off + i_nextoff info)) total_nlba
          else layout_loop fuel' write internal_lba_size rawsize arena_off total_nlba
      end
  end.

Definition write_layout (lane : Z) (write : bool) : io btt unit :=
  (if write then match uuid_generate with inl e => fail e | inr u => modify (set_uuid u) end else ret tt);;;
  b <- state;;
  let n := rawsize b / BTT_MAX_ARENA in
  let n := if BTT_MIN_SIZE <=? rawsize b mod BTT_MAX_ARENA then n + 1 else n in
  modify (set_narena (u32 n));;;
  let internal_lba_size := internal_lbasize (lbasize b) in
  if internal_lba_size =? 0 then fail EINVAL else
  total <- layout_loop (layout_fuel (rawsize b)) write internal_lba_size (rawsize b) 0 0;;
  modify (set_nlba total);;;
  if write then read_arenas lane (u32 n) else ret tt.

(** ** Opening *)

(** Whether the info block is valid. *)
Definition read_info (b : btt) (info : list Z) : bool :=
  if decide (take 16 info = Sig) then
    if decide (take 16 (drop 32 info) = parent_uuid b) then
      (util_checksum (words_of 1024 info) (info_checksum / 4) false).1 && negb (info_field info 52 2 =? 0)
    else false
  else false.

(** The loop of [read_layout]: [None] if some info block is not valid, else the
    number of arenas, the total number of blocks and the smallest [nfree]. *)
Fixpoint read_layout_loop (fuel : nat) (rawsize arena_off narena total_nlba smallest_nfree : Z)
  : io btt (option (Z * Z * Z)) :=
  if rawsize <? BTT_MIN_SIZE then ret (Some (narena, total_nlba, smallest_nfree))
  else match fuel with
  | O => fail (-2)
  | S fuel' =>
      let narena := narena + 1 in
      info <- nsread arena_off sizeof_btt_info;;
      b <- state;;
      if negb (read_info b info) then ret None
      else if negb (info_field info 56 4 =? lbasize b) then fail EINVAL
      else if info_field info 72 4 =? 0 then fail EINVAL
      else if info_field info 60 4 =? 0 then fail EINVAL
      else
        let nextoff := info_field info 80 8 in
        if negb (nextoff =? 0) && negb (nextoff =? BTT_MAX_ARENA) then fail EINVAL
        else
          let smallest_nfree := Z.min (info_field info 72 4) smallest_nfree in
          let total_nlba := u64 (total_nlba + info_field info 60 4) in
          if nextoff =? 0 then ret (Some (narena, total_nlba, smallest_nfree))
          else if rawsize <? nextoff then fail EINVAL
          else read_layout_loop fuel' (rawsize - nextoff) (u64 (arena_off + nextoff)) narena total_nlba smallest_nfree
  end.

Definition read_layout (lane : Z) : io btt unit :=
  modify (set_nfree BTT_DEFAULT_NFREE);;;
  b <- state;;
  r <- read_layout_loop (layout_fuel (rawsize b)) (rawsize b) 0 0 0 (2 ^ 32 - 1);;
  match r with
  | None => write_layout lane false
  | Some (n, total_nlba, smallest_nfree) =>
      modify (set_narena n);;;
      modify (set_nlba total_nlba);;;
      (if smallest_nfree <? BTT_DEFAULT_NFREE then modify (set_nfree smallest_nfree) else ret tt);;;
      read_arenas lane n
  end.

(** The handle is the state the run ends in. *)
Definition btt_init (size lbasz : Z) (parent : list Z) (maxlane : Z) : io btt unit :=
  if size <? BTT_MIN_SIZE then fail EINVAL
  else if malloc then
    modify (fun _ => mkBtt 0 false (replicate 16 0) parent size lbasz 0 0 0 []);;;
    read_layout 0;;;
    modify (fun b => set_nlane
      (if negb (maxlane =? 0) && (maxlane <? nfree b) then maxlane else nfree b) b)
  else fail ENOMEM.

(** ** The entry points *)

Fixpoint find_arena (l : list arena) (i : nat) (lba : Z) : option (nat * Z) :=
  match l with
  | [] => None
  | a :: l' => if lba <? external_nlba a then Some (i, lba) else find_arena l' (S i) (lba - external_nlba a)
  end.

(** The arena and the block number in it; the code asserts that there is one. *)
Definition lba_to_arena_lba (lba : Z) : io btt (nat * Z) :=
  b <- state;; r <- checked (find_arena (arenas b) 0 lba);; ret (r.1, u32 r.2).

(** An operation on arena [i] of the table. *)
Definition on_arena {A} (i : nat) (p : btt -> io arena A) : io btt A := fun m b =>
  match arenas b !! i with
  | None => (inl (-1), b, [])
  | Some a =>
      let '(r, a', ops) := p b m a in (r, set_arenas (<[i := a']> (arenas b)) b, ops)
  end.

Definition zero_block (b : btt) : list Z := replicate (Z.to_nat (lbasize b)) 0.

Definition btt_read (fuel : nat) (lane lba : Z) : io btt (list Z) :=
  b <- state;;
  if invalid_lba b lba then fail EINVAL
  else if negb (laidout b) then ret (zero_block b)
  else r <- lba_to_arena_lba lba;; on_arena r.1 (fun b => read_block b fuel lane r.2).

(** The layout is written on first use. *)
Definition ensure_layout (lane : Z) : io btt unit :=
  b <- state;; if laidout b then ret tt else write_layout lane true.

Definition btt_write (lane lba : Z) (buf : list Z) : io btt unit :=
  b <- state;;
  if invalid_lba b lba then fail EINVAL else
  ensure_layout lane;;;
  r <- lba_to_arena_lba lba;; on_arena r.1 (fun b => write_block b lane r.2 buf).

Definition map_entry_setf (lane lba setf : Z) : io btt unit :=
  b <- state;;
  if invalid_lba b lba then fail EINVAL
  else if negb (laidout b) && (setf =? BTT_MAP_ENTRY_ZERO) then ret tt
  else
    ensure_layout lane;;;
    r <- lba_to_arena_lba lba;; on_arena r.1 (fun b => setf_block r.2 setf).

Definition btt_set_zero (lane lba : Z) : io btt unit := map_entry_setf lane lba BTT_MAP_ENTRY_ZERO.
Definition btt_set_error (lane lba : Z) : io btt unit := map_entry_setf lane lba BTT_MAP_ENTRY_ERROR.

(** ** The consistency check *)

(** Note a block in the bitmap: the bitmap, and false if it was there before. *)
Definition mark (bitmap : list Z) (entry : Z) : io arena (list Z * bool) :=
  seen <- checked (util_isset bitmap entry);;
  if seen then ret (bitmap, false)
  else bm <- checked (util_setbit bitmap entry);; ret (bm, true).

(** The loop over the map, from entry [i] at [map_entry_off]; [remaining] bytes
    of the last mapping, which began at [base], are left. *)
Fixpoint check_map (n : nat) (i map_entry_off base next_index remaining : Z) (bitmap : list Z) (consistent : bool)
  : io arena (list Z * bool) :=
  match n with
  | O => ret (bitmap, consistent)
  | S n' =>
      a <- state;;
      mp <- (if remaining =? 0 then
               match nsmap_len (u64 ((external_nlba a - i) * 4)) map_entry_off with
               | inl e => fail e
               | inr mlen => ret (mlen, map_entry_off, 0)
               end
             else ret (remaining, base, next_index));;
      let '(remaining, base, next_index) := mp in
      if remaining <? 4 then fail (-1) else
      m <- (fun m a => (inr m, a, []));;
      let entry := le_value (get m (base + 4 * next_index) 4) in
      let entry := if map_entry_is_initial entry then i else Z.land entry BTT_MAP_ENTRY_LBA_MASK in
      if internal_nlba a <=? entry then fail EINVAL else
      r <- mark bitmap entry;;
      check_map n' (i + 1) (u64 (map_entry_off + 4)) base (next_index + 1) (remaining - 4) r.1 (consistent && r.2)
  end.

Fixpoint check_flogs (rts : list flog_runtime) (bitmap : list Z) (consistent : bool) : io arena (list Z * bool) :=
  match rts with
  | [] => ret (bitmap, consistent)
  | rt :: rts' =>
      r <- mark bitmap (Z.land (f_old_map (flog rt)) BTT_MAP_ENTRY_LBA_MASK);;
      check_flogs rts' r.1 (consistent && r.2)
  end.

Fixpoint check_all (n : nat) (i : Z) (bitmap : list Z) (consistent : bool) : io arena bool :=
  match n with
  | O => ret consistent
  | S n' =>
      set <- checked (util_isset bitmap i);;
      check_all n' (i + 1) bitmap (consistent && set)
  end.

Definition check_arena (b : btt) : io arena bool :=
  a <- state;;
  if malloc then
    let bitmap := replicate (Z.to_nat (u32 (internal_nlba a + 7) / 8)) 0 in
    r <- check_map (Z.to_nat (external_nlba a)) 0 (mapoff a) 0 0 0 bitmap true;;
    r <- check_flogs (take (Z.to_nat (nfree b)) (flogs a)) r.1 r.2;;
    check_all (Z.to_nat (internal_nlba a)) 0 r.1 r.2
  else fail ENOMEM.

Fixpoint check_arenas (n i : nat) (consistent : bool) : io btt bool :=
  match n with
  | O => ret consistent
  | S n' => c <- on_arena i check_arena;; check_arenas n' (S i) (consistent && c)
  end.

Definition btt_check : io btt bool :=
  b <- state;; if laidout b then check_arenas (Z.to_nat (narena b)) 0 true else ret true.

End Table.
