(* ===== verification/BttCheck.v ===== *)
(** * Block translation tables: the consistency check

    [check_arena] of [btt.c] marks the block of every map entry and of every lane in
    a bitmap and looks for duplicates and for blocks not marked.  It decides exactly
    whether every internal block has one owner. *)

From S2P Require Import Prelude Util Btt BttMedia BttProofs BttTable.

(** ** The bitmap *)

(** The bitmap has the bits of the blocks in [s] among the first [n] set. *)
Record bitmap_of (n : Z) (bm : list Z) (s : list Z) : Prop := {
  bm_bytes : is_bytes bm;
  bm_bits : forall e, 0 <= e < n -> util_isset bm e = Some (bool_decide (e ∈ s));
}.

Lemma setbit_bytes bm e bm' : is_bytes bm -> util_setbit bm e = Some bm' -> is_bytes bm'.
Proof.
  intros Hb E. unfold util_setbit in E. destruct (bm !! Z.to_nat (e / 8)) as [v|]; [|done]. injection E as <-.
  apply Forall_insert; [done|]. apply Z.mod_pos_bound. lia.
Qed.

Lemma bitmap_zero n : 0 <= n < 2 ^ 30 -> bitmap_of n (replicate (Z.to_nat (u32 (n + 7) / 8)) 0) [].
Proof.
  intros Hn. split; [apply Forall_replicate; lia|]. intros e He. unfold util_isset. rewrite u32_small by lia.
  rewrite lookup_replicate_2.
  - done.
  - pose proof (Z.div_le_mono (e + 8) (n + 7) 8 ltac:(lia) ltac:(lia)) as Hd.
    replace (e + 8) with (e + 1 * 8) in Hd by lia. rewrite Z.div_add in Hd by lia.
    pose proof (Z.div_pos e 8 ltac:(lia) ltac:(lia)). lia.
Qed.

Lemma mark_run n bm s e m a : bitmap_of n bm s -> 0 <= e < n ->
  exists bm', mark bm e m a = (inr (bm', negb (bool_decide (e ∈ s))), a, []) /\ bitmap_of n bm' (e :: s).
Proof.
  intros [Hb Hs] He. unfold mark, bind. rewrite Hs by done. cbn [checked ret]. case_bool_decide as Hin.
  - exists bm. split; [done|]. split; [done|]. intros e' He'. rewrite Hs by done. f_equal. apply bool_decide_ext.
    rewrite elem_of_cons. split; [by right|]. by intros [->|].
  - destruct (util_setbit bm e) as [bm'|] eqn:E; cycle 1.
    { pose proof (Hs e He) as Hi. unfold util_setbit, util_isset in *. by destruct (bm !! Z.to_nat (e / 8)). }
    exists bm'. split; [done|]. split; [by eapply setbit_bytes|]. intros e' He'.
    rewrite (util_setbit_isset bm e e' bm') by (done || lia). destruct (Z.eqb_spec e' e) as [->|Hne].
    + symmetry. f_equal. apply bool_decide_eq_true. left.
    + rewrite Hs by done. f_equal. apply bool_decide_ext. rewrite elem_of_cons. split; [by right|]. by intros [|].
Qed.

(** No duplicates among [es], and none of them in [s]. *)
Fixpoint distinct (s es : list Z) : bool :=
  match es with [] => true | e :: es' => negb (bool_decide (e ∈ s)) && distinct (e :: s) es' end.

Lemma distinct_spec es : forall s, distinct s es = true <-> NoDup es /\ forall e, e ∈ es -> e ∉ s.
Proof.
  induction es as [|e es IH]; intros s; simpl.
  - split; [|done]. intros _. split; [constructor|]. intros e He. by apply elem_of_nil in He.
  - rewrite andb_true_iff, negb_true_iff, bool_decide_eq_false, IH, NoDup_cons. split.
    + intros (H1 & H2 & H3). split_and!; [|done|].
      * intros Hin. apply (H3 e Hin). left.
      * intros e' Hin. apply elem_of_cons in Hin as [->|Hin]; [done|]. intros Hs. apply (H3 e' Hin). by right.
    + intros ((H1 & H2) & H3). split_and!; [apply H3; left|done|]. intros e' Hin Hs.
      apply elem_of_cons in Hs as [->|Hs]; [done|]. apply (H3 e'); [by right|done].
Qed.

Lemma distinct_app s es es' : distinct s (es ++ es') = distinct s es && distinct (reverse es ++ s) es'.
Proof.
  revert s. induction es as [|e es IH]; intros s; [done|]. cbn [distinct app]. rewrite IH, reverse_cons, <- app_assoc.
  by rewrite andb_assoc.
Qed.

(** ** The three loops *)

Section Check.
Context `{ns_callback} (Hmap : forall len off, nsmap_len len off = inr len).

(** The block of external block [l]. *)
Definition entry_block (m : media) (a : arena) (l : Z) : Z :=
  if map_entry_is_initial (mapw m a l) then l else tgt (mapw m a l).

Definition entry_blocks (m : media) (a : arena) (i : Z) (n : nat) : list Z :=
  (fun k => entry_block m a (i + Z.of_nat k)) <$> seq 0 n.

Lemma entry_blocks_S m a i n : entry_blocks m a i (S n) = entry_block m a i :: entry_blocks m a (i + 1) n.
Proof.
  unfold entry_blocks. cbn [seq fmap list_fmap]. rewrite Z.add_0_r. f_equal. rewrite <- fmap_S_seq, <- list_fmap_compose.
  apply list_fmap_ext. intros k x _. simpl. f_equal. lia.
Qed.

Lemma check_map_run m a n : forall i base next_index remaining bm s c,
  Z.of_nat n = external_nlba a - i -> external_nlba a < 2 ^ 30 -> 0 <= i -> 0 <= mapoff a ->
  mapoff a + 4 * external_nlba a < 2 ^ 64 ->
  (remaining = 0 \/ remaining = 4 * Z.of_nat n /\ base + 4 * next_index = mapoff a + 4 * i) ->
  bitmap_of (internal_nlba a) bm s -> Forall (fun e => 0 <= e < internal_nlba a) (entry_blocks m a i n) ->
  exists bm', check_map n i (mapoff a + 4 * i) base next_index remaining bm c m a
    = (inr (bm', c && distinct s (entry_blocks m a i n)), a, []) /\
    bitmap_of (internal_nlba a) bm' (reverse (entry_blocks m a i n) ++ s).
Proof using Hmap.
  induction n as [|n IH]; intros i base next_index remaining bm s c Hn He Hi Hm0 Hm Hrem Hbm Hall.
  { exists bm. by rewrite andb_true_r. }
  rewrite entry_blocks_S in *. apply Forall_cons in Hall as [Hb Hall]. cbn [check_map].
  destruct (mark_run _ bm s (entry_block m a i) m a Hbm Hb) as (bm1 & E1 & Hbm1).
  assert (exists base' ni', base' + 4 * ni' = mapoff a + 4 * i /\
    (if remaining =? 0 then
       match nsmap_len (u64 ((external_nlba a - i) * 4)) (mapoff a + 4 * i) with
       | inl e => fail e
       | inr mlen => ret (mlen, mapoff a + 4 * i, 0)
       end
     else ret (remaining, base, next_index)) m a = (inr (4 * Z.of_nat (S n), base', ni') : Z + Z * Z * Z, a, [])) as (base' & ni' & Eb & E).
  { destruct Hrem as [->|[-> Hbase]].
    - exists (mapoff a + 4 * i), 0. split; [lia|]. rewrite Hmap, u64_small by lia. cbn [Z.eqb]. unfold ret. do 5 f_equal. lia.
    - exists base, next_index. split; [done|]. by rewrite (proj2 (Z.eqb_neq _ 0)) by lia. }
  unfold bind at 1, state at 1. cbn [applies foldl app]. unfold bind at 1. rewrite E. cbn [applies foldl app].
  rewrite (proj2 (Z.ltb_ge _ 4)) by lia. unfold bind at 1. rewrite Eb. fold (rd m (mapoff a + 4 * i)).
  fold (mapw m a i). fold (tgt (mapw m a i)). fold (entry_block m a i). cbn [applies foldl app].
  rewrite (proj2 (Z.leb_gt _ _)) by lia. unfold bind. rewrite E1. cbn [applies foldl app fst snd].
  replace (u64 (mapoff a + 4 * i + 4)) with (mapoff a + 4 * (i + 1)) by (rewrite u64_small; lia).
  destruct (IH (i + 1) base' (ni' + 1) (4 * Z.of_nat (S n) - 4) bm1 (entry_block m a i :: s)
    (c && negb (bool_decide (entry_block m a i ∈ s)))) as (bm' & E' & Hbm'); try (done || lia).
  exists bm'. rewrite E'. split; [by rewrite <- andb_assoc|]. by rewrite reverse_cons, <- app_assoc.
Qed.

Lemma check_flogs_run m a rts : forall bm s c,
  let es := (fun r => tgt (f_old_map (flog r))) <$> rts in
  bitmap_of (internal_nlba a) bm s -> Forall (fun e => 0 <= e < internal_nlba a) es ->
  exists bm', check_flogs rts bm c m a = (inr (bm', c && distinct s es), a, []) /\
    bitmap_of (internal_nlba a) bm' (reverse es ++ s).
Proof.
  induction rts as [|r rts IH]; intros bm s c es Hbm Hall.
  { exists bm. by rewrite andb_true_r. }
  apply Forall_cons in Hall as [Hb Hall]. destruct (mark_run _ bm s _ m a Hbm Hb) as (bm1 & E1 & Hbm1).
  cbn [check_flogs]. fold (tgt (f_old_map (flog r))). unfold bind. rewrite E1. cbn [applies foldl app fst snd].
  destruct (IH bm1 (tgt (f_old_map (flog r)) :: s) (c && negb (bool_decide (tgt (f_old_map (flog r)) ∈ s))) Hbm1 Hall)
    as (bm' & E' & Hbm').
  exists bm'. rewrite E'. unfold es. rewrite fmap_cons. split; [cbn [distinct]; by rewrite <- andb_assoc|].
  by rewrite reverse_cons, <- app_assoc.
Qed.

Lemma check_all_run m a bm s n : forall i c, bitmap_of (internal_nlba a) bm s -> 0 <= i ->
  i + Z.of_nat n <= internal_nlba a ->
  check_all n i bm c m a = (inr (c && forallb (fun e => bool_decide (e ∈ s)) (seqZ i (Z.of_nat n))), a, []).
Proof.
  induction n as [|n IH]; intros i c Hbm Hi Hn; [by rewrite andb_true_r|].
  cbn [check_all]. unfold bind. rewrite (bm_bits _ _ _ Hbm) by lia. cbn [checked ret applies foldl app].
  rewrite IH by (done || lia). rewrite (seqZ_cons i) by lia. cbn [forallb]. rewrite andb_assoc.
  by replace (Z.pred (Z.of_nat (S n))) with (Z.of_nat n) by lia.
Qed.

End Check.

(** The blocks of all owners: of the map, and of the lanes. *)
Definition owners (b : btt) (m : media) (a : arena) : list Z :=
  entry_blocks m a 0 (Z.to_nat (external_nlba a))
  ++ ((fun r => tgt (f_old_map (flog r))) <$> take (Z.to_nat (nfree b)) (flogs a)).

(** As many blocks as numbers: distinct ones are all of them. *)
Lemma distinct_all (n : Z) es : 0 <= n -> Z.of_nat (length es) = n -> Forall (fun e => 0 <= e < n) es ->
  NoDup es -> forall e, 0 <= e < n -> e ∈ es.
Proof.
  intros Hn Hlen Hall Hnd e He.
  assert (Hp : es ≡ₚ seqZ 0 n).
  { apply submseteq_length_Permutation; [|rewrite length_seqZ; lia]. apply NoDup_submseteq; [done|].
    intros x Hx. apply elem_of_seqZ. pose proof (proj1 (Forall_forall _ _) Hall x Hx) as Hr. simpl in Hr. lia. }
  rewrite Hp. apply elem_of_seqZ. lia.
Qed.

(** [check_arena] decides the invariant.  If every map entry and every flog
    entry names a block of the arena, it returns 1 exactly when no two external
    blocks or lanes share a block, and 0 otherwise; it changes nothing. *)
Theorem check_arena_exact `{ns_callback} b m a :
  malloc = true -> (forall len off, nsmap_len len off = inr len) ->
  0 <= external_nlba a -> internal_nlba a = external_nlba a + nfree b -> 0 <= nfree b -> internal_nlba a < 2 ^ 30 ->
  Z.of_nat (length (flogs a)) = nfree b -> 0 <= mapoff a -> mapoff a + 4 * external_nlba a < 2 ^ 64 ->
  Forall (fun e => 0 <= e < internal_nlba a) (owners b m a) ->
  exists c, check_arena b m a = (inr c, a, []) /\ (c = true <-> NoDup (owners b m a)).
Proof.
  intros Hmalloc Hmap He Hn Hf H30 Hlen Hm0 Hm Hall. pose proof Hall as Hall'.
  unfold owners in Hall. apply Forall_app in Hall as [Ha1 Ha2].
  unfold check_arena. unfold bind at 1, state at 1. rewrite Hmalloc. cbn [applies foldl app].
  destruct (check_map_run Hmap m a (Z.to_nat (external_nlba a)) 0 0 0 0
    (replicate (Z.to_nat (u32 (internal_nlba a + 7) / 8)) 0) [] true) as (bm1 & E1 & B1);
    [lia..|by left|apply bitmap_zero; lia|done|].
  rewrite Z.add_0_r in E1. unfold bind at 1. rewrite E1. cbn [applies foldl app fst snd].
  destruct (check_flogs_run m a _ bm1 _ (true && distinct [] (entry_blocks m a 0 (Z.to_nat (external_nlba a)))) B1 Ha2)
    as (bm2 & E2 & B2).
  unfold bind. rewrite E2. cbn [applies foldl app fst snd]. rewrite (check_all_run m a bm2 _ _ _ _ B2) by lia.
  eexists. split; [reflexivity|]. rewrite <- !andb_assoc. rewrite (andb_assoc (distinct _ _)), <- distinct_app.
  fold (owners b m a). cbn [andb]. rewrite andb_true_iff, distinct_spec. split.
  - intros [[Hd _] _]. done.
  - intros Hd. split; [split; [done|]; intros e _ Hin; by apply elem_of_nil in Hin|].
    apply forallb_forall. intros e Hin. apply list_elem_of_In, elem_of_seqZ in Hin. apply bool_decide_eq_true.
    assert (Hin' : e ∈ owners b m a).
    { apply (distinct_all (internal_nlba a)); [lia| |done|done|lia]. unfold owners, entry_blocks.
      rewrite length_app, !length_fmap, length_seq, length_take. lia. }
    unfold owners in Hin'. rewrite app_nil_r. apply elem_of_app. rewrite !elem_of_reverse. apply elem_of_app in Hin'. tauto.
Qed.

(** An out-of-range block of a lane is not caught: the bitmap is accessed beyond
    its end. *)
Lemma check_flogs_overrun m a r rts bm c :
  (length bm <= Z.to_nat (tgt (f_old_map (flog r)) / 8))%nat ->
  check_flogs (r :: rts) bm c m a = (inl (-1), a, []).
Proof.
  intros Hl. cbn [check_flogs]. fold (tgt (f_old_map (flog r))). unfold bind, mark, util_isset.
  unfold bind. by rewrite lookup_ge_None_2.
Qed.

Definition small_arena (old : Z) : arena :=
  mkArena 0 2 512 3 0 4096 8192 12288 0 [mkRuntime (mkFlog 0 old old 1) (12288, 12304) true] [].

Lemma check_arena_exact_witness :
  let ns := Build_ns_callback (fun _ => false) 5 (fun len _ => inr len) true true (inr []) in
  let b := mkBtt 1 true [] [] (2 ^ 24) 512 1 2 1 [] in
  (exists c, @check_arena ns b (fun _ => 0) (small_arena 2) = (inr c, small_arena 2, []) /\
    (c = true <-> NoDup [0; 1; 2])) /\
  exists c, @check_arena ns b (fun _ => 0) (small_arena 1) = (inr c, small_arena 1, []) /\
    (c = true <-> NoDup [0; 1; 1]).
Proof.
  intros ns b. split.
  - apply (@check_arena_exact ns b (fun _ => 0) (small_arena 2)); try (vm_compute; done).
    apply Forall_forall. intros e He. vm_compute in He.
    repeat (apply elem_of_cons in He as [->|He]; [vm_compute; done|]). by apply elem_of_nil in He.
  - apply (@check_arena_exact ns b (fun _ => 0) (small_arena 1)); try (vm_compute; done).
    apply Forall_forall. intros e He. vm_compute in He.
    repeat (apply elem_of_cons in He as [->|He]; [vm_compute; done|]). by apply elem_of_nil in He.
Defined.
