(* ===== verification/BttLayout.v ===== *)
(** * Block translation tables: sizes and a new layout

    The arithmetic of [btt_info_set] of [btt.c], which its assertions state, and
    the arena that [write_layout] makes. *)

From S2P Require Import Prelude Util Btt BttMedia BttProofs BttAtomic BttTable.

(** ** Rounding *)

Lemma roundup64_mult x y : 0 < y -> 0 <= x -> x + y <= 2 ^ 64 ->
  exists k, roundup64 x y = y * k /\ x <= y * k < x + y.
Proof.
  intros Hy Hx Hs. unfold roundup64. rewrite (u64_small (x + _)) by lia. exists ((x + (y - 1)) / y).
  pose proof (Z.div_mod (x + (y - 1)) y ltac:(lia)). pose proof (Z.mod_pos_bound (x + (y - 1)) y ltac:(lia)).
  rewrite u64_small by lia. lia.
Qed.

Lemma flog_size_spec nfree : 0 < nfree <= 2 ^ 16 ->
  exists k, btt_flog_size nfree = 4096 * k /\ 64 * nfree <= 4096 * k < 64 * nfree + 4096.
Proof.
  intros H. unfold btt_flog_size. change (roundup64 (2 * sizeof_btt_flog) BTT_FLOG_PAIR_ALIGN) with 64.
  rewrite u64_small by lia. destruct (roundup64_mult (nfree * 64) BTT_ALIGNMENT) as (k & E & Hk);
    [unfold BTT_ALIGNMENT; lia..|]. exists k. unfold BTT_ALIGNMENT in *. lia.
Qed.

Lemma map_size_spec n : 0 <= n < 2 ^ 30 ->
  exists k, btt_map_size n = 4096 * k /\ 4 * n <= 4096 * k < 4 * n + 4096.
Proof.
  intros H. unfold btt_map_size, BTT_MAP_ENTRY_SIZE. rewrite u32_small by lia.
  destruct (roundup64_mult (n * 4) BTT_ALIGNMENT) as (k & E & Hk); [unfold BTT_ALIGNMENT; lia..|].
  exists k. unfold BTT_ALIGNMENT in *. lia.
Qed.

Lemma internal_lbasize_spec l : 0 <= l < 2 ^ 32 -> internal_lbasize l <> 0 ->
  l <= internal_lbasize l /\ 512 <= internal_lbasize l <= 2 ^ 32 - 256.
Proof.
  intros Hl. unfold internal_lbasize, roundup32, BTT_MIN_LBA_SIZE, BTT_INTERNAL_LBA_ALIGNMENT.
  set (l' := if l <? 512 then 512 else l). assert (Hl' : l <= l' /\ 512 <= l' < 2 ^ 32) by (unfold l'; case_match; lia).
  clearbody l'. destruct (decide (l' + 255 < 2 ^ 32)).
  - rewrite (u32_small (l' + (256 - 1))) by lia. pose proof (Z.div_mod (l' + (256 - 1)) 256 ltac:(lia)).
    pose proof (Z.mod_pos_bound (l' + (256 - 1)) 256 ltac:(lia)). rewrite u32_small by lia. case_match; lia.
  - assert (E : u32 (l' + (256 - 1)) = l' + 255 - 2 ^ 32).
    { unfold u32. symmetry. apply (Z.mod_unique _ _ 1); lia. }
    rewrite E, Z.div_small by lia. by vm_compute.
Qed.

(** ** The regions of an arena *)

(** The regions follow each other and fill the arena: info block, data, map, flog,
    backup info block.  Blocks have numbers of thirty bits. *)
Record info_ok (nfree size : Z) (i : btt_info) : Prop := {
  io_nfree : i_nfree i = nfree;
  io_n : i_internal_nlba i = i_external_nlba i + nfree;
  io_ext : nfree <= i_external_nlba i;
  io_30 : i_internal_nlba i < 2 ^ 30;
  io_dataoff : i_dataoff i = sizeof_btt_info;
  io_data : i_dataoff i + i_internal_nlba i * i_internal_lbasize i <= i_mapoff i;
  io_map : i_mapoff i + btt_map_size (i_external_nlba i) = i_flogoff i /\ 4 * i_external_nlba i <= btt_map_size (i_external_nlba i);
  io_flog : i_flogoff i + btt_flog_size nfree = i_infooff i /\ 64 * nfree <= btt_flog_size nfree;
  io_end : i_infooff i + sizeof_btt_info = size;
  io_align : size mod 4096 = 0 -> i_mapoff i mod 4096 = 0 /\ i_flogoff i mod 4096 = 0;
}.

Lemma set_params_spec lb ilb nfree size i :
  0 < nfree <= 2 ^ 16 -> 512 <= ilb <= 2 ^ 32 - 256 -> BTT_MIN_SIZE <= size <= BTT_MAX_ARENA ->
  btt_info_set_params lb ilb nfree size = Some i ->
  let data := size - 2 * sizeof_btt_info - btt_flog_size nfree in
  btt_arena_datasize size nfree = data /\ i_external_lbasize i = lb /\ i_internal_lbasize i = ilb /\
  i_nfree i = nfree /\ i_infosize i = sizeof_btt_info /\
  i_internal_nlba i = i_external_nlba i + nfree /\ nfree <= i_external_nlba i /\ i_internal_nlba i < 2 ^ 30 /\
  i_internal_nlba i * (ilb + 4) <= data - 4096.
Proof.
  intros Hn Hilb Hs. destruct (flog_size_spec nfree Hn) as (k & Ek & Hk).
  unfold btt_info_set_params, btt_arena_datasize, BTT_MIN_SIZE, BTT_MAX_ARENA, sizeof_btt_info, BTT_ALIGNMENT,
    BTT_MAP_ENTRY_SIZE in *. rewrite Ek.
  rewrite !(u64_small (size - 2 * 4096 - 4096 * k)), u64_small, !u32_small by lia.
  set (d := size - 2 * 4096 - 4096 * k). set (n := (d - 4096) / (ilb + 4)).
  assert (Hnl : n * (ilb + 4) <= d - 4096) by (rewrite Z.mul_comm; apply Z.mul_div_le; lia).
  assert (H0 : 0 <= n) by (apply Z.div_pos; lia).
  assert (Hn30 : n < 2 ^ 30) by (apply Z.div_lt_upper_bound; lia).
  destruct (Z.ltb_spec n (2 * nfree)) as [|Hge]; [done|]. intros [= <-]. simpl.
  rewrite !(u32_small n), u32_small by lia. split_and!; lia.
Qed.

Lemma set_offs_spec lb ilb nfree size left i :
  0 < nfree <= 2 ^ 16 -> 512 <= ilb <= 2 ^ 32 - 256 -> BTT_MIN_SIZE <= size <= BTT_MAX_ARENA ->
  btt_info_set_params lb ilb nfree size = Some i -> info_ok nfree size (btt_info_set_offs i size left).
Proof.
  intros Hn Hilb Hs E. destruct (set_params_spec lb ilb nfree size i Hn Hilb Hs E)
    as (_ & _ & Ei & En & Es & H1 & H2 & H3 & H4).
  destruct (flog_size_spec nfree Hn) as (k & Ek & Hk).
  destruct (map_size_spec (i_external_nlba i)) as (k' & Ek' & Hk'); [lia|].
  unfold BTT_MIN_SIZE, BTT_MAX_ARENA, sizeof_btt_info in *. rewrite Z.mul_add_distr_l in H4.
  pose proof (Z.mul_nonneg_nonneg (i_internal_nlba i) ilb).
  assert (E1 : i_infooff (btt_info_set_offs i size left) = size - 4096) by (simpl; apply u64_small; lia).
  assert (E2 : i_flogoff (btt_info_set_offs i size left) = size - 4096 - 4096 * k).
  { simpl in *. rewrite E1, En, Ek. apply u64_small. lia. }
  assert (E3 : i_mapoff (btt_info_set_offs i size left) = size - 4096 - 4096 * k - 4096 * k').
  { simpl in *. rewrite E2, Ek'. apply u64_small. lia. }
  split; rewrite ?E1, ?E2, ?E3; unfold sizeof_btt_info; simpl; rewrite ?Es, ?Ei, ?Ek, ?Ek'; try lia.
  intros Hal. apply Z.mod_divide in Hal as [q ->]; [|lia].
  split; apply Z.mod_divide; try lia; [exists (q - 1 - k - k')|exists (q - 1 - k)]; lia.
Qed.

(** C21: the sizes of a layout.  For an arena between the limits and at most 65536
    free blocks, [btt_info_set] either finds too few blocks or an overflow of the
    block size, or the regions of the arena are consecutive and fill it, the map
    has an entry for every external block and the flog a pair for every lane,
    blocks have thirty-bit numbers and at least half of them are external; none
    of the subtractions wraps, and the two assertions of the code hold. *)
Theorem btt_info_set_bounds lb nfree size left i :
  0 <= lb < 2 ^ 32 -> 0 < nfree <= 2 ^ 16 -> BTT_MIN_SIZE <= size <= BTT_MAX_ARENA ->
  btt_info_set lb nfree size left = Some i ->
  info_ok nfree size i /\ lb <= i_internal_lbasize i /\
  i_internal_nlba i <= (btt_arena_datasize size nfree - btt_map_size (i_external_nlba i)) / i_internal_lbasize i /\
  btt_arena_datasize size nfree - btt_map_size (i_external_nlba i) = i_mapoff i - i_dataoff i.
Proof.
  intros Hlb Hn Hs. unfold btt_info_set. destruct (Z.eqb_spec (internal_lbasize lb) 0) as [|Hne]; [done|].
  destruct (internal_lbasize_spec lb Hlb Hne) as [Hge Hilb].
  destruct (btt_info_set_params lb (internal_lbasize lb) nfree size) as [i0|] eqn:E; [|done]. intros [= <-].
  pose proof (set_offs_spec _ _ _ _ left _ Hn Hilb Hs E) as Hok.
  destruct (set_params_spec _ _ _ _ _ Hn Hilb Hs E) as (Ed & _ & Ei & _).
  destruct Hok as [O1 O2 O3 O4 O5 O6 O7 O8 O9 O10].
  assert (Eq : btt_arena_datasize size nfree - btt_map_size (i_external_nlba i0)
    = i_mapoff (btt_info_set_offs i0 size left) - i_dataoff (btt_info_set_offs i0 size left)).
  { rewrite Ed, O5. unfold sizeof_btt_info in *. simpl i_external_nlba in *. lia. }
  split_and!; [done|simpl; lia| |done].
  simpl i_external_nlba. simpl i_internal_lbasize in *. rewrite Ei in *. rewrite Eq.
  apply Z.div_le_lower_bound; [lia|]. rewrite Z.mul_comm. lia.
Qed.

Lemma btt_info_set_bounds_witness :
  exists i, btt_info_set 4096 256 (2 ^ 25) 0 = Some i /\ info_ok 256 (2 ^ 25) i.
Proof.
  eexists. split; [vm_compute; reflexivity|].
  apply (btt_info_set_bounds 4096 256 (2 ^ 25) 0);
    [lia|lia|unfold BTT_MIN_SIZE, BTT_MAX_ARENA; lia|vm_compute; reflexivity].
Defined.

(** ** The loops over arenas end *)

(** The fuel does not run out. *)
Definition halts {S A} (p : io S A) : Prop := forall m s, (p m s).1.1 <> inl (-2).

Lemma halts_bind {S A B} (p : io S A) (q : A -> io S B) : halts p -> (forall x, halts (q x)) -> halts (bind p q).
Proof.
  intros Hp Hq m s. unfold bind. specialize (Hp m s). destruct (p m s) as [[[e|x] s1] ops1]; [by simpl in *; congruence|].
  specialize (Hq x (applies m ops1) s1). by destruct (q x (applies m ops1) s1) as [[r s2] ops2].
Qed.

Section Halting.
Context `{ns_callback} (Hns : ns_errno <> -2).

Lemma halts_nswrite {S} bs off : halts (S := S) (nswrite bs off).
Proof using Hns. intros m s. unfold nswrite. case_match; simpl; congruence. Qed.

Lemma halts_nsread {S} off n : halts (S := S) (nsread off n).
Proof using Hns. intros m s. unfold nsread. case_match; simpl; congruence. Qed.

Lemma halts_write_flog n : forall i off lba, halts (write_flog n i off lba).
Proof using Hns.
  induction n as [|n IH]; intros i off lba; [done|]. cbn [write_flog].
  apply halts_bind; [apply halts_nswrite|]. intros _. apply halts_bind; [apply halts_nswrite|]. intros _. apply IH.
Qed.

Lemma halts_write_arena info off : halts (write_arena info off).
Proof using Hns.
  apply halts_bind; [done|]. intros b. apply halts_bind.
  { case_match; [done|]. intros m s. unfold nszero. case_match; simpl; congruence. }
  intros _. apply halts_bind; [apply halts_write_flog|]. intros _.
  apply halts_bind; [apply halts_nswrite|]. intros _. apply halts_nswrite.
Qed.

Lemma arenas_left size : BTT_MIN_SIZE <= size ->
  let left := size - (if BTT_MAX_ARENA <? size then BTT_MAX_ARENA else size) in
  0 <= left /\ (left < BTT_MIN_SIZE \/ left / BTT_MAX_ARENA = size / BTT_MAX_ARENA - 1).
Proof using Type.
  intros Hs. destruct (Z.ltb_spec BTT_MAX_ARENA size); cbv zeta; [|unfold BTT_MIN_SIZE; split; lia].
  split; [lia|]. right. replace (size - BTT_MAX_ARENA) with (size + (-1) * BTT_MAX_ARENA) by lia.
  rewrite Z.div_add by done. lia.
Qed.

Lemma layout_loop_halts fuel : forall write ilb size off total,
  0 <= size -> size / BTT_MAX_ARENA < Z.of_nat fuel -> halts (layout_loop fuel write ilb size off total).
Proof using Hns.
  induction fuel as [|fuel IH]; intros write ilb size off total H0 Hf.
  { pose proof (Z.div_pos size BTT_MAX_ARENA). unfold BTT_MAX_ARENA in *. lia. }
  cbn [layout_loop]. destruct (Z.ltb_spec size BTT_MIN_SIZE) as [|Hs]; [done|].
  destruct (arenas_left size Hs) as [Hl0 Hl]. cbv zeta. set (left := size - _) in *.
  assert (Hrec : forall o t, halts (layout_loop fuel write ilb left o t)).
  { intros o t. destruct Hl as [Hl|Hl]; [|apply IH; lia].
    assert (E : (left <? BTT_MIN_SIZE) = true) by (by apply Z.ltb_lt). destruct fuel; cbn [layout_loop]; by rewrite E. }
  apply halts_bind; [done|]. intros b. destruct (btt_info_set_params _ _ _ _); [|done]. destruct write; [|apply Hrec].
  apply halts_bind; [apply halts_write_arena|]. intros _. apply Hrec.
Qed.

Lemma read_layout_loop_halts fuel : forall size off n total smallest,
  0 <= size -> size / BTT_MAX_ARENA < Z.of_nat fuel -> halts (read_layout_loop fuel size off n total smallest).
Proof using Hns.
  induction fuel as [|fuel IH]; intros size off n total smallest H0 Hf.
  { pose proof (Z.div_pos size BTT_MAX_ARENA). unfold BTT_MAX_ARENA in *. lia. }
  cbn [read_layout_loop]. case_match; [done|]. apply halts_bind; [apply halts_nsread|]. intros info.
  apply halts_bind; [done|]. intros b. do 4 (case_match; [done|]). cbv zeta.
  destruct (Z.eqb_spec (info_field info 80 8) 0) as [|Hne]; [done|].
  destruct (Z.eqb_spec (info_field info 80 8) BTT_MAX_ARENA) as [E|]; [|done]. cbn [negb andb].
  rewrite E. case_match; [done|]. apply IH; [lia|].
  replace (size - BTT_MAX_ARENA) with (size + (-1) * BTT_MAX_ARENA) by lia. rewrite Z.div_add by done. lia.
Qed.

End Halting.
