(* ===== verification/BttFresh.v ===== *)
(** * Block translation tables: a new layout satisfies the invariant

    [write_layout] of [btt.c], on a namespace of one arena: what it writes can be
    read back, every block reads as zeros, and every internal block has its one
    owner, so that the theorems on reads and writes apply. *)

From S2P Require Import Prelude Util Btt BttMedia BttProofs BttAtomic BttTable BttLayout.

(** ** Encodings *)

Lemma le_bytes_value bs : is_bytes bs -> le_bytes (length bs) (le_value bs) = bs.
Proof.
  induction 1 as [|v bs Hv _ IH]; [done|]. cbn [le_bytes le_value length].
  rewrite (Z.mul_comm 256), Z_mod_plus_full, Z.div_add, (Z.div_small v), Z.mod_small by lia. f_equal. done.
Qed.

Lemma flog_of_bytes_of f :
  0 <= f_lba f < 2 ^ 32 -> 0 <= f_old_map f < 2 ^ 32 -> 0 <= f_new_map f < 2 ^ 32 -> 0 <= f_seq f < 2 ^ 32 ->
  flog_of_bytes (bytes_of_flog f) = f.
Proof.
  intros H1 H2 H3 H4. unfold flog_of_bytes, bytes_of_flog.
  assert (Hd : forall v r, drop 4 (le_bytes 4 v ++ r) = r) by (intros; by apply drop_app_length').
  assert (Ht : forall v r, take 4 (le_bytes 4 v ++ r) = le_bytes 4 v) by (intros; by apply take_app_length').
  change 12%nat with (4 + (4 + 4))%nat. change 8%nat with (4 + 4)%nat. rewrite <- !drop_drop, !Hd, !Ht.
  rewrite (take_ge (le_bytes 4 (f_seq f))) by (by rewrite le_bytes_length).
  rewrite !le_value_bytes. change (8 * Z.of_nat 4) with 32. rewrite !Z.mod_small by done. by destruct f.
Qed.

Lemma bytes_of_flog_length f : length (bytes_of_flog f) = 16%nat.
Proof. done. Qed.

Lemma bytes_of_flog_bytes f : is_bytes (bytes_of_flog f).
Proof. repeat (apply Forall_app; split); apply le_bytes_bytes. Qed.

Lemma bytes_of_cons w ws : bytes_of (w :: ws) = le_bytes 4 w ++ bytes_of ws.
Proof. done. Qed.

Lemma bytes_words n bs : is_bytes bs -> length bs = (4 * n)%nat -> bytes_of (words_of n bs) = bs.
Proof.
  revert bs. induction n as [|n IH]; intros bs Hb Hl; [by destruct bs|].
  cbn [words_of]. rewrite bytes_of_cons, IH; [|by apply Forall_drop|rewrite length_drop; lia].
  pose proof (le_bytes_value (take 4 bs) (Forall_take _ _ _ Hb)) as E.
  rewrite length_take_le in E by lia. rewrite E. apply take_drop.
Qed.

Lemma take_bytes_of c k ws x : (c <= k)%nat ->
  take (4 * c) (bytes_of (<[k := x]> ws)) = take (4 * c) (bytes_of ws).
Proof.
  revert c ws. induction k as [|k IH]; intros c [|w ws] Hc; try done.
  { by replace c with O by lia. }
  destruct c as [|c]; [done|]. change (<[S k := x]> (w :: ws)) with (w :: <[k := x]> ws).
  rewrite !bytes_of_cons. replace (4 * S c)%nat with (4 + 4 * c)%nat by lia.
  rewrite !(take_app_add' (le_bytes 4 w)) by done. f_equal. apply IH. lia.
Qed.

(** The checksum changes only the last eight bytes. *)
Lemma info_sum_take info : is_bytes info -> length info = 4096%nat -> take 4088 (info_sum info) = take 4088 info.
Proof.
  intros Hb Hl. unfold info_sum, util_checksum. cbn [snd].
  change 4088%nat with (4 * 1022)%nat at 1. change (info_checksum / 4)%nat with 1022%nat.
  rewrite !take_bytes_of by lia. by rewrite bytes_words.
Qed.

Lemma words_of_length n bs : length (words_of n bs) = n.
Proof. revert bs. induction n as [|n IH]; intros bs; simpl; [done|]. by rewrite IH. Qed.

Lemma bytes_of_length ws : length (bytes_of ws) = (4 * length ws)%nat.
Proof.
  induction ws as [|w ws IH]; [done|]. rewrite bytes_of_cons.
  rewrite length_app, le_bytes_length. simpl length in *. lia.
Qed.

Lemma bytes_of_bytes ws : is_bytes (bytes_of ws).
Proof.
  induction ws as [|w ws IH]; [by apply Forall_nil|]. rewrite bytes_of_cons.
  apply Forall_app. split; [apply le_bytes_bytes|done].
Qed.

Lemma info_sum_length info : length (info_sum info) = 4096%nat.
Proof. unfold info_sum, util_checksum. cbn [snd]. by rewrite bytes_of_length, !length_insert, words_of_length. Qed.

Lemma info_field_sum info off n : is_bytes info -> length info = 4096%nat -> (off + n <= 4088)%nat ->
  info_field (info_sum info) off n = info_field info off n.
Proof.
  intros Hb Hl Ho. unfold info_field. f_equal.
  assert (E : forall l : list Z, take n (drop off l) = take n (drop off (take 4088 l))).
  { intros l. rewrite skipn_firstn_comm, take_take. by rewrite Nat.min_l by lia. }
  rewrite (E (info_sum info)), (E info). by rewrite info_sum_take.
Qed.

(** A field behind others. *)
Lemma field_skip (l r : list Z) off n : (length l <= off)%nat ->
  info_field (l ++ r) off n = info_field r (off - length l) n.
Proof. intros Hl. unfold info_field. by rewrite drop_app_ge. Qed.

Lemma field_head v n (r : list Z) : 0 <= v < 2 ^ (8 * Z.of_nat n) -> info_field (le_bytes n v ++ r) 0 n = v.
Proof.
  intros Hv. unfold info_field. rewrite drop_0, take_app_length' by (by rewrite le_bytes_length).
  rewrite le_value_bytes. by apply Z.mod_small.
Qed.

Ltac field_tac :=
  repeat (rewrite field_skip by (rewrite ?le_bytes_length; simpl; lia); rewrite ?le_bytes_length; simpl Nat.sub);
  apply field_head; simpl; lia.

(** The fields of an info block that fit their widths. *)
Record info_range (i : btt_info) : Prop := {
  ir_ext : 0 <= i_external_nlba i < 2 ^ 32;
  ir_lb : 0 <= i_internal_lbasize i < 2 ^ 32;
  ir_int : 0 <= i_internal_nlba i < 2 ^ 32;
  ir_next : 0 <= i_nextoff i < 2 ^ 64;
  ir_data : 0 <= i_dataoff i < 2 ^ 64;
  ir_map : 0 <= i_mapoff i < 2 ^ 64;
  ir_flog : 0 <= i_flogoff i < 2 ^ 64;
}.

Lemma info_fields u pu i : length u = 16%nat -> length pu = 16%nat -> info_range i ->
  let f := info_field (bytes_of_info u pu i) in
  f info_flags 4%nat = 0 /\ f 60%nat 4%nat = i_external_nlba i /\ f 64%nat 4%nat = i_internal_lbasize i /\
  f 68%nat 4%nat = i_internal_nlba i /\ f 80%nat 8%nat = i_nextoff i /\ f 88%nat 8%nat = i_dataoff i /\
  f 96%nat 8%nat = i_mapoff i /\ f 104%nat 8%nat = i_flogoff i.
Proof.
  intros Hu Hp []. unfold bytes_of_info, info_flags. cbv zeta.
  assert (Hs : forall r off n, (48 <= off)%nat -> info_field (Sig ++ u ++ pu ++ r) off n = info_field r (off - 48) n).
  { intros r off n Ho. rewrite !field_skip by (rewrite ?Hu, ?Hp; simpl; lia). rewrite Hu, Hp. f_equal. simpl. lia. }
  rewrite !Hs by lia. simpl Nat.sub. split_and!; field_tac.
Qed.

Lemma bytes_of_info_length u pu i : length u = 16%nat -> length pu = 16%nat -> length (bytes_of_info u pu i) = 4096%nat.
Proof. intros Hu Hp. unfold bytes_of_info. rewrite !length_app, !le_bytes_length, !length_replicate, Hu, Hp. done. Qed.

Lemma bytes_of_info_bytes u pu i : is_bytes u -> is_bytes pu -> is_bytes (bytes_of_info u pu i).
Proof.
  intros Hu Hp. assert (Hz : forall n, is_bytes (replicate n 0)) by (intros n; apply Forall_replicate; lia).
  unfold bytes_of_info. repeat (apply Forall_app; split); try apply le_bytes_bytes; try apply Hz; try done.
  unfold Sig. repeat constructor; lia.
Qed.

(** ** The initial flog *)

Definition flog_map (ext : Z) (j : nat) : Z := Z.lor (ext + Z.of_nat j) BTT_MAP_ENTRY_ZERO.
Definition flog_init (ext : Z) (j : nat) : btt_flog := mkFlog (Z.of_nat j) (flog_map ext j) (flog_map ext j) 1.

(** The writes of the pairs [i], [i + 1], ... *)
Fixpoint flog_ops (ext off : Z) (n i : nat) : list nsop :=
  match n with
  | O => []
  | S n' =>
      W (off + 64 * Z.of_nat i) (bytes_of_flog (flog_init ext i))
      :: W (off + 64 * Z.of_nat i + 16) (bytes_of_flog Zflog) :: flog_ops ext off n' (S i)
  end.

Lemma fl_written m off f :
  0 <= f_lba f < 2 ^ 32 -> 0 <= f_old_map f < 2 ^ 32 -> 0 <= f_new_map f < 2 ^ 32 -> 0 <= f_seq f < 2 ^ 32 ->
  fl (apply m (W off (bytes_of_flog f))) off = f.
Proof.
  intros. unfold fl. pose proof (get_written m off (bytes_of_flog f)) as E.
  rewrite bytes_of_flog_length in E. change (Z.of_nat 16) with 16 in E. rewrite E. by apply flog_of_bytes_of.
Qed.

Lemma flog_ops_spec ext off n : forall i m,
  0 <= ext -> ext + Z.of_nat (i + n) <= 2 ^ 30 -> bytes m ->
  let m' := applies m (flog_ops ext off n i) in
  bytes m' /\
  (forall o k, o + k <= off + 64 * Z.of_nat i \/ off + 64 * Z.of_nat (i + n) <= o -> agree m m' o k) /\
  forall j, (i <= j < i + n)%nat ->
    fl m' (off + 64 * Z.of_nat j) = flog_init ext j /\ fl m' (off + 64 * Z.of_nat j + 16) = Zflog.
Proof.
  induction n as [|n IH]; intros i m He Hi Hb; [split_and!; [done|done|lia]|]. cbn [flog_ops applies foldl].
  set (m1 := apply (apply m _) _). fold (applies m1 (flog_ops ext off n (S i))).
  assert (Hb1 : bytes m1) by (repeat apply bytes_apply; [done|apply bytes_of_flog_bytes..]).
  assert (Ho1 : forall o k, o + k <= off + 64 * Z.of_nat i \/ off + 64 * Z.of_nat i + 32 <= o -> agree m m1 o k).
  { intros o k Hok. eapply agree_trans; apply agree_apply; cbn [op_off op_len]; rewrite bytes_of_flog_length; lia. }
  destruct (IH (S i) m1 He ltac:(lia) Hb1) as (Hb' & Ho & Hf). split_and!.
  - done.
  - intros o k Hok. eapply agree_trans; [apply Ho1; lia|apply Ho; lia].
  - intros j Hj. destruct (decide (j = i)) as [->|]; [|apply Hf; lia].
    destruct (flag_entry (ext + Z.of_nat i) 2) as (_ & _ & Hr); [lia..|].
    assert (Hx : forall o, o + 16 <= off + 64 * Z.of_nat (S i) ->
      fl (applies m1 (flog_ops ext off n (S i))) o = fl m1 o) by (intros; symmetry; apply fl_ext, Ho; lia).
    rewrite !Hx by lia. split.
    + unfold m1. rewrite <- (fl_ext (apply m (W (off + 64 * Z.of_nat i) (bytes_of_flog (flog_init ext i))))).
      * apply fl_written; simpl; try lia; exact Hr.
      * apply agree_apply. cbn [op_off]. lia.
    + unfold m1. apply fl_written; simpl; lia.
Qed.

(** ** The arena *)

Definition fresh_arena (i : btt_info) : arena :=
  mkArena 0 (i_external_nlba i) (i_internal_lbasize i) (i_internal_nlba i) 0 (i_dataoff i) (i_mapoff i)
    (i_flogoff i) (i_nextoff i) [] [].

Definition info_ops (i : btt_info) (info : list Z) : list nsop := [W 0 info; W (i_infooff i) info].

Section Arena.
Context (b : btt) (i : btt_info) (u : list Z).
Context (Hi : info_ok (nfree b) (rawsize b) i) (Hn : 0 < nfree b) (Hsize : BTT_MIN_SIZE <= rawsize b <= BTT_MAX_ARENA).
Context (Hlb : 0 < lbasize b <= i_internal_lbasize i) (Hlb32 : i_internal_lbasize i < 2 ^ 32).
Context (H32 : i_internal_nlba i * i_internal_lbasize i <= 2 ^ 32) (Hal : rawsize b mod 4096 = 0).
Context (Hnext : i_nextoff i = 0) (Hnlba : nlba b = i_external_nlba i).
Context (Hu : length u = 16%nat) (Hub : is_bytes u).
Context (Hp : length (parent_uuid b) = 16%nat) (Hpb : is_bytes (parent_uuid b)).
Set Default Proof Using "All".

Definition fresh_info : list Z := info_sum (bytes_of_info u (parent_uuid b) i).
Definition fresh_ops : list nsop :=
  flog_ops (i_external_nlba i) (i_flogoff i) (Z.to_nat (nfree b)) 0 ++ info_ops i fresh_info.

Lemma fresh_geom : geom b (fresh_arena i).
Proof.
  destruct Hi as [O1 O2 O3 O4 O5 O6 [O7 O7'] [O8 O8'] O9 O10]. destruct (O10 Hal) as [A1 A2].
  assert (Hm8 : forall x, x mod 4096 = 0 -> x mod 8 = 0).
  { intros x Hx. apply Z.mod_divide in Hx as [q ->]; [|lia]. apply Z.mod_divide; [lia|]. exists (q * 512). lia. }
  unfold BTT_MIN_SIZE, BTT_MAX_ARENA, sizeof_btt_info in *.
  split; simpl; unfold sizeof_btt_info; try lia; by apply Hm8.
Qed.

Lemma fresh_range : info_range i.
Proof.
  destruct Hi as [O1 O2 O3 O4 O5 O6 [O7 O7'] [O8 O8'] O9 O10]. unfold BTT_MIN_SIZE, BTT_MAX_ARENA, sizeof_btt_info in *.
  pose proof (Z.mul_nonneg_nonneg (i_internal_nlba i) (i_internal_lbasize i)). split; lia.
Qed.

Section Media.
Context (m : media) (Hb : bytes m).
Context (Hz : forall x, i_mapoff i <= x < i_flogoff i -> m x = 0).

Definition fresh_media : media := applies m fresh_ops.

(** What the flog and the map read as. *)
Lemma fresh_words :
  bytes fresh_media /\
  (forall l, 0 <= l < i_external_nlba i -> mapw fresh_media (fresh_arena i) l = 0) /\
  (forall j, Z.of_nat j < nfree b ->
    fl fresh_media (fo (fresh_arena i) j) = flog_init (i_external_nlba i) j /\
    fl fresh_media (fo (fresh_arena i) j + 16) = Zflog) /\
  get fresh_media 0 sizeof_btt_info = fresh_info.
Proof.
  pose proof fresh_geom as []. pose proof Hi as [O1 O2 O3 O4 O5 O6 [O7 O7'] [O8 O8'] O9 _]. simpl in *.
  unfold fresh_media, fresh_ops, applies. rewrite foldl_app. fold (applies m (flog_ops (i_external_nlba i) (i_flogoff i) (Z.to_nat (nfree b)) 0)).
  destruct (flog_ops_spec (i_external_nlba i) (i_flogoff i) (Z.to_nat (nfree b)) 0 m) as (Hb' & Ho & Hf); [lia|lia|done|].
  set (m1 := applies m _) in *. simpl foldl. set (m2 := apply m1 (W 0 fresh_info)). set (m3 := apply m2 _).
  assert (Hib : is_bytes fresh_info) by apply bytes_of_bytes.
  assert (Hlen : Z.of_nat (length fresh_info) = sizeof_btt_info) by (unfold fresh_info; by rewrite info_sum_length).
  assert (Hout : forall o k, sizeof_btt_info <= o -> o + k <= i_infooff i -> agree m1 m3 o k).
  { intros o k H1 H2. eapply agree_trans; apply agree_apply; cbn [op_off op_len]; rewrite Hlen; lia. }
  unfold sizeof_btt_info in *. pose proof (Z.mul_nonneg_nonneg (i_internal_nlba i) (i_internal_lbasize i)). split_and!.
  - by repeat apply bytes_apply.
  - intros l Hl. unfold mapw, rd. simpl mapoff.
    rewrite <- (get_ext m m3); [|eapply agree_trans; [apply Ho|apply Hout]; lia].
    replace (get m _ 4) with [0; 0; 0; 0]; [done|]. unfold get. simpl. rewrite !Hz by lia. done.
  - intros j Hj. destruct (Hf j ltac:(lia)) as [F1 F2]. unfold fo. simpl flogoff. rewrite <- F1, <- F2.
    split; symmetry; apply fl_ext, Hout; lia.
  - rewrite <- (get_ext m2 m3); [|apply agree_apply; cbn [op_off]; lia]. rewrite <- Hlen. apply get_written.
Qed.

Lemma fresh_boot : boot fresh_media 0 = fresh_arena i.
Proof.
  destruct fresh_words as (_ & _ & _ & E). pose proof fresh_range as R.
  destruct (info_fields u (parent_uuid b) i Hu Hp R) as (F1 & F2 & F3 & F4 & F5 & F6 & F7 & F8).
  unfold boot. rewrite E. unfold fresh_info.
  rewrite !info_field_sum by (try (by apply bytes_of_info_length); try (by apply bytes_of_info_bytes); unfold info_flags; lia).
  rewrite F1, F2, F3, F4, F5, F6, F7, F8. destruct R. rewrite !Z.add_0_l, !u64_small by lia. done.
Qed.

Lemma fresh_valid j : Z.of_nat j < nfree b ->
  valid fresh_media (fresh_arena i) j = Some (true, flog_init (i_external_nlba i) j).
Proof. intros Hj. destruct fresh_words as (_ & _ & Hf & _). destruct (Hf j Hj) as [E0 E1]. unfold valid. by rewrite E0, E1. Qed.

(** Owner [k] has block [k]. *)
Lemma fresh_place k : 0 <= k < i_internal_nlba i -> place fresh_media (fresh_arena i) None k = k.
Proof.
  intros Hk. pose proof fresh_geom as []. simpl in *. unfold place. simpl external_nlba.
  destruct fresh_words as (_ & Hm & _ & _). destruct (Z.ltb_spec k (i_external_nlba i)).
  - rewrite Hm by lia. apply (normal_entry k). lia.
  - unfold freeblk, cur. rewrite fresh_valid by lia. rewrite decide_False by done.
    destruct (flag_entry k 2) as [E _]; [lia..|]. rewrite <- E at 2. simpl. unfold flog_map. do 2 f_equal. lia.
Qed.

Lemma fresh_holds :
  holds b (fresh_arena i) (fun _ => Some (replicate (Z.to_nat (lbasize b)) 0)) fresh_media None.
Proof.
  pose proof fresh_geom as []. destruct fresh_words as (Hb' & Hm & Hf & _). simpl in *. split.
  - split.
    + done.
    + intros j Hj. destruct (Hf j Hj) as [E0 E1]. pose proof Hi as [_ _ O3 _ _ _ _ _ _ _].
      unfold pair_ok, cur, nxt. rewrite fresh_valid, E0, E1 by done. simpl. split_and!; done || lia.
    + intros k k' Hk Hk'. by rewrite !fresh_place.
    + intros k Hk. rewrite fresh_place by done. apply Hk.
    + done.
  - apply fresh_boot.
  - intros l Hl. simpl in *. unfold content. by rewrite Hm.
Qed.

End Media.
End Arena.

Section Fresh.
Context `{ns_callback} (Hio : forall x, io_error x = false) (Hmalloc : malloc = true).

Lemma write_flog_run ext off n : forall i m b,
  0 <= ext -> ext + Z.of_nat (i + n) <= 2 ^ 30 -> off mod 64 = 0 -> 0 <= off -> off + 64 * Z.of_nat (S (i + n)) < 2 ^ 64 ->
  write_flog n (Z.of_nat i) (off + 64 * Z.of_nat i) (ext + Z.of_nat i) m b = (inr tt, b, flog_ops ext off n i).
Proof using Hio.
  induction n as [|n IH]; intros i m b He Hi Ha H0 Hn; [done|]. cbn [write_flog flog_ops].
  unfold bind at 1. rewrite (nswrite_ok Hio). unfold bind at 1. rewrite (nswrite_ok Hio).
  unfold sizeof_btt_flog, BTT_FLOG_PAIR_ALIGN. rewrite (u64_small (off + 64 * Z.of_nat i + 16)) by lia.
  rewrite (u64_small (off + 64 * Z.of_nat i + 16 + 16)) by lia.
  destruct (roundup64_mult (off + 64 * Z.of_nat i + 16 + 16) 64) as (k & Ek & Hk); [lia..|].
  apply Z.mod_divide in Ha as [q Hq]; [|lia].
  replace (roundup64 _ 64) with (off + 64 * Z.of_nat (S i)) by lia.
  replace (Z.of_nat i + 1) with (Z.of_nat (S i)) by lia.
  replace (u32 (ext + Z.of_nat i + 1)) with (ext + Z.of_nat (S i)) by (rewrite u32_small; lia).
  rewrite IH by (done || lia || (by rewrite Hq, Z_mod_mult)). done.
Qed.

(** ** Writing the layout *)

Definition zero_ops (i : btt_info) : list nsop :=
  if ns_is_zeroed then [] else [Zero (i_mapoff i) (btt_map_size (i_external_nlba i))].

(** The map is zero before the flog is written. *)
Lemma zero_ops_spec b i m : info_ok (nfree b) (rawsize b) i -> bytes m -> (ns_is_zeroed = true -> forall x, m x = 0) ->
  let mz := applies m (zero_ops i) in bytes mz /\ forall x, i_mapoff i <= x < i_flogoff i -> mz x = 0.
Proof using Type.
  intros [_ _ _ _ _ _ [O7 _] _ _ _] Hb Hz. unfold zero_ops. destruct ns_is_zeroed; simpl.
  - split; [done|]. intros x _. by apply Hz.
  - split; [by apply (bytes_apply m (Zero _ _))|]. intros x Hx.
    by rewrite (proj2 (Z.leb_le _ _)), (proj2 (Z.ltb_lt _ _)) by lia.
Qed.

Lemma write_arena_run b i m :
  info_ok (nfree b) (rawsize b) i -> 0 < nfree b -> BTT_MIN_SIZE <= rawsize b <= BTT_MAX_ARENA ->
  rawsize b mod 4096 = 0 -> 0 <= i_internal_lbasize i ->
  write_arena i 0 m b = (inr tt, b, zero_ops i ++ fresh_ops b i (uuid b)).
Proof using Hio.
  intros Hi Hn Hs Ha Hlb. destruct Hi as [O1 O2 O3 O4 O5 O6 [O7 O7'] [O8 O8'] O9 O10]. destruct (O10 Ha) as [_ A2].
  unfold BTT_MIN_SIZE, BTT_MAX_ARENA, sizeof_btt_info in *.
  pose proof (Z.mul_nonneg_nonneg (i_internal_nlba i) (i_internal_lbasize i)).
  assert (A64 : i_flogoff i mod 64 = 0).
  { apply Z.mod_divide in A2 as [q Hq]; [|lia]. apply Z.mod_divide; [lia|]. exists (q * 64). lia. }
  unfold write_arena. unfold bind at 1, state at 1. cbn [applies foldl app]. unfold bind at 1.
  replace ((if ns_is_zeroed then ret tt else nszero (btt_map_size (i_external_nlba i)) (i_mapoff i)) m b)
    with (inr tt : Z + unit, b, zero_ops i)
    by (unfold zero_ops, nszero, ret; destruct ns_is_zeroed; [done|by rewrite Hio]).
  unfold bind at 1. rewrite Z.add_0_l, u64_small by lia.
  pose proof (write_flog_run (i_external_nlba i) (i_flogoff i) (Z.to_nat (nfree b)) 0) as Hw.
  rewrite !Z.add_0_r in Hw. change (Z.of_nat 0) with 0 in Hw. rewrite (Hw (applies m (zero_ops i)) b) by (done || lia).
  unfold bind. rewrite !(nswrite_ok Hio). rewrite Z.add_0_l, u64_small by lia. done.
Qed.

(** One arena: the loop runs once. *)
Lemma layout_loop_run b i0 m fuel ilb :
  0 < nfree b <= 2 ^ 16 -> 512 <= ilb <= 2 ^ 32 - 256 -> BTT_MIN_SIZE <= rawsize b <= BTT_MAX_ARENA -> rawsize b mod 4096 = 0 ->
  btt_info_set_params (lbasize b) ilb (nfree b) (rawsize b) = Some i0 ->
  let i := btt_info_set_offs i0 (rawsize b) 0 in
  layout_loop (S fuel) true ilb (rawsize b) 0 0 m b = (inr (i_external_nlba i), b, zero_ops i ++ fresh_ops b i (uuid b)).
Proof using Hio.
  intros Hn Hilb Hs Ha E i. pose proof (set_offs_spec _ _ _ _ 0 _ Hn Hilb Hs E) as Hi. fold i in Hi.
  destruct (set_params_spec _ _ _ _ _ Hn Hilb Hs E) as (_ & _ & Eilb & _).
  cbn [layout_loop]. rewrite (proj2 (Z.ltb_ge (rawsize b) _)), (proj2 (Z.ltb_ge BTT_MAX_ARENA _)) by lia.
  rewrite Z.sub_diag. unfold bind at 1, state at 1. cbn [applies foldl app]. rewrite E. fold i.
  unfold bind. rewrite (write_arena_run b i) by (done || lia || (unfold i; simpl; lia)).
  destruct fuel; cbn [layout_loop]; (change (0 <? BTT_MIN_SIZE) with true; cbn [ret]; rewrite app_nil_r;
    rewrite Z.add_0_l, u64_small; [done|destruct Hi; simpl in *; lia]).
Qed.

Lemma one_arena size : BTT_MIN_SIZE <= size <= BTT_MAX_ARENA ->
  u32 (if BTT_MIN_SIZE <=? size mod BTT_MAX_ARENA then size / BTT_MAX_ARENA + 1 else size / BTT_MAX_ARENA) = 1.
Proof using Type.
  intros Hs. destruct (decide (size = BTT_MAX_ARENA)) as [->|]; [done|].
  rewrite Z.mod_small, Z.div_small by (unfold BTT_MIN_SIZE in *; lia). by rewrite (proj2 (Z.leb_le _ _)) by lia.
Qed.

(** The layout is written and the arena read back. *)
Lemma write_layout_run b m u lane i0 a' :
  let ilb := internal_lbasize (lbasize b) in
  let i := btt_info_set_offs i0 (rawsize b) 0 in
  let b1 := set_narena 1 (set_uuid u b) in
  let b2 := set_nlba (i_external_nlba i) b1 in
  uuid_generate = inr u -> 0 < nfree b <= 2 ^ 16 -> 512 <= ilb <= 2 ^ 32 - 256 ->
  BTT_MIN_SIZE <= rawsize b <= BTT_MAX_ARENA -> rawsize b mod 4096 = 0 ->
  btt_info_set_params (lbasize b) ilb (nfree b) (rawsize b) = Some i0 ->
  read_arena b2 lane 0 (applies m (zero_ops i ++ fresh_ops b1 i u)) Zarena = (inr tt, a', []) ->
  write_layout lane true m b = (inr tt, set_laidout true [a'] b2, zero_ops i ++ fresh_ops b1 i u).
Proof using Hio Hmalloc.
  intros ilb i b1 b2 Hu Hn Hilb Hs Ha Ep Hr. unfold write_layout. unfold bind at 1. rewrite Hu.
  unfold modify at 1. unfold bind at 1, state at 1. unfold bind at 1, modify at 1. cbn [applies foldl app].
  change (rawsize (set_uuid u b)) with (rawsize b). rewrite (one_arena _ Hs).
  change (internal_lbasize (lbasize (set_uuid u b))) with ilb. rewrite (proj2 (Z.eqb_neq ilb 0)) by lia.
  unfold bind at 1, layout_fuel.
  rewrite (layout_loop_run b1 i0 _ _ _ Hn Hilb Hs Ha Ep : layout_loop _ true ilb (rawsize b) 0 0 _ b1 = _).
  change (btt_info_set_offs i0 (rawsize b1) 0) with i. change (uuid b1) with u. set (ops := zero_ops i ++ fresh_ops b1 i u) in *.
  unfold bind at 1, modify at 1. unfold read_arenas. rewrite Hmalloc. change (Z.to_nat 1) with 1%nat.
  cbn [read_arenas_loop]. unfold bind, catch, state, new_arena, modify. change (applies (applies m ops) []) with (applies m ops).
  change (set_nlba (i_external_nlba i) b1) with b2. cbn [applies foldl]. fold (applies m ops). rewrite Hr. cbn.
  by rewrite !app_nil_r.
Qed.

End Fresh.

(** C15: the first write to a new namespace of one arena lays it out: a namespace
    whose size is a multiple of 4096 and within the bounds of an arena, and whose
    blocks need at most 4 GB of data, when the callbacks and the allocation succeed.
    [write_layout] succeeds, with one consistent arena that has the number of
    blocks computed for it, and every block reads as zeros. *)
Theorem btt_layout_fresh `{ns_callback} b m lane u i :
  (forall x, io_error x = false) -> malloc = true -> uuid_generate = inr u ->
  length u = 16%nat -> is_bytes u -> length (parent_uuid b) = 16%nat -> is_bytes (parent_uuid b) ->
  bytes m -> (ns_is_zeroed = true -> forall x, m x = 0) ->
  0 < nfree b <= 2 ^ 16 -> lane < nfree b -> 0 < lbasize b < 2 ^ 32 ->
  BTT_MIN_SIZE <= rawsize b <= BTT_MAX_ARENA -> rawsize b mod 4096 = 0 ->
  btt_info_set (lbasize b) (nfree b) (rawsize b) 0 = Some i ->
  i_internal_nlba i * i_internal_lbasize i <= 2 ^ 32 ->
  exists b' a ops,
    write_layout lane true m b = (inr tt, b', ops) /\
    laidout b' = true /\ arenas b' = [a] /\ nlba b' = i_external_nlba i /\ external_nlba a = i_external_nlba i /\
    consistent b' (applies m ops) a /\
    forall l, 0 <= l < nlba b' -> content b' (applies m ops) a l = Some (replicate (Z.to_nat (lbasize b)) 0).
Proof.
  intros Hio Hmalloc Hu Hul Hub Hpl Hpb Hb Hz Hn Hlane Hlb Hs Ha Ei H32. unfold btt_info_set in Ei.
  destruct (Z.eqb_spec (internal_lbasize (lbasize b)) 0) as [|Hne]; [done|].
  destruct (internal_lbasize_spec (lbasize b) ltac:(lia) Hne) as [Hge Hilb]. set (ilb := internal_lbasize (lbasize b)) in *.
  destruct (btt_info_set_params (lbasize b) ilb (nfree b) (rawsize b)) as [i0|] eqn:Ep; [|done]. injection Ei as <-.
  set (i := btt_info_set_offs i0 (rawsize b) 0) in *.
  pose proof (set_offs_spec _ _ _ _ 0 _ Hn Hilb Hs Ep) as Hi. fold i in Hi.
  destruct (set_params_spec _ _ _ _ _ Hn Hilb Hs Ep) as (_ & _ & Eilb & _).
  assert (Eib : i_internal_lbasize i = ilb) by done.
  set (b1 := set_narena 1 (set_uuid u b)). set (b2 := set_nlba (i_external_nlba i) b1).
  destruct (zero_ops_spec b i m Hi Hb Hz) as [Hbz Hzz].
  pose proof (fresh_geom b2 i u Hi ltac:(simpl; lia) Hs ltac:(simpl; lia) ltac:(lia) H32 Ha eq_refl eq_refl Hul Hub Hpl Hpb) as G.
  pose proof (fresh_holds b2 i u Hi ltac:(simpl; lia) Hs ltac:(simpl; lia) ltac:(lia) H32 Ha eq_refl eq_refl Hul Hub Hpl Hpb
    _ Hbz Hzz) as Hh.
  exists (set_laidout true [opened b2 (fresh_media b2 i u (applies m (zero_ops i))) (fresh_arena i)] b2),
    (opened b2 (fresh_media b2 i u (applies m (zero_ops i))) (fresh_arena i)), (zero_ops i ++ fresh_ops b1 i u).
  assert (Eapp : applies m (zero_ops i ++ fresh_ops b1 i u) = fresh_media b2 i u (applies m (zero_ops i)))
    by (unfold applies; by rewrite foldl_app).
  destruct (opened_consistent b2 (fresh_arena i) _ _ None G eq_refl Hh) as [Hc Hct]. rewrite Eapp. split_and!; try done.
  - apply (write_layout_run Hio Hmalloc b m u lane i0); try done. fold i. fold b1. fold b2. rewrite Eapp.
    exact (arena_run Hio Hmalloc b2 (fresh_arena i) _ _ None Zarena lane G Hh Hlane).
  - destruct Hc as [C1 C2 C3 C4 C5 C6]. split; [split; apply C1|split; apply C2|done..].
Qed.
