(* ===== verification/BttExamples.v ===== *)
(** * Block translation tables: examples and hazards

    A concrete table, on which the theorems apply, and runs of [btt.c] that show
    where it goes wrong: data areas beyond 4 GB, the map of arenas after the first,
    and readers that leave the read tracking table marked. *)

From S2P Require Import Prelude Util Btt BttMedia BttProofs BttAtomic BttRuns BttTable BttLayout BttFresh.

(** A namespace that never fails. *)
Definition good_ns (zeroed : bool) : ns_callback := {|
  io_error _ := false; ns_errno := EIO; nsmap_len len _ := inr len; ns_is_zeroed := zeroed; malloc := true;
  uuid_generate := inr (replicate 16 7);
|}.

Definition ex_table (size lbasz free : Z) : btt :=
  mkBtt free false (replicate 16 0) (replicate 16 9) size lbasz free 0 0 [].

(** ** A data area beyond 4 GB *)

(** The 32-bit product in [data_block_off] drops the upper bits: block numbers that
    differ by [2 ^ 23] blocks of 512 bytes share their place. *)
Lemma data_block_alias a e e' :
  arena_lbasize a = 512 -> tgt e' = tgt e + 2 ^ 23 -> data_block_off a e' = data_block_off a e.
Proof.
  intros Hl E. unfold data_block_off. fold (tgt e) (tgt e'). rewrite Hl, E. do 2 f_equal. unfold u32.
  replace ((tgt e + 2 ^ 23) * 512) with (tgt e * 512 + 1 * 2 ^ 32) by lia. apply Z_mod_plus_full.
Qed.

(** Three writes to different blocks of a table of 8 GB, then a read of the first. *)
Definition alias_run `{ns_callback} : io btt (list Z) :=
  write_layout 0 false;;;
  btt_write 0 0 (replicate 8 1);;; btt_write 1 8258518 (replicate 8 2);;; btt_write 1 5 (replicate 8 3);;;
  btt_read 2 0 0.

(** Beyond 4 GB of data, writes destroy other blocks.  [btt_read] and
    [btt_write] multiply the block number by the block size in 32 bits; on a new
    table of 8 GB, after three writes to three different blocks, all successful,
    the first block reads as the data of the third. *)
Theorem btt_write_clobbers :
  let '(r, b, _) := @alias_run (good_ns true) (fun _ => 0) (ex_table (2 ^ 33) 8 2) in
  nlba b = 16647126 /\ r = inr (replicate 8 3).
Proof. vm_compute. done. Qed.

(** ** The maps of further arenas *)

Definition zero_ranges (ops : list nsop) : list (Z * Z) :=
  omap (fun o => match o with Zero off n => Some (off, n) | W _ _ => None end) ops.

(** The offset of [nszero] lacks that of the arena: with two arenas, the second
    range, meant for the map of the arena at [2 ^ 39], is in the first one. *)
Lemma second_map_not_zeroed :
  zero_ranges (@layout_loop (good_ns false) 2 true 512 (2 ^ 39 + 2 ^ 24) 0 0 (fun _ => 0)
    (ex_table (2 ^ 39 + 2 ^ 24) 512 2)).2 = [(545494130688, 4261675008); (16637952, 131072)].
Proof. vm_compute. reflexivity. Qed.

(** ** The read tracking table *)

(** A reader whose block was rewritten and then marked as zero, between its two
    looks at the map, returns with its entry in the table. *)
Lemma read_leaves_entry `{ns_callback} m a fuel lane off entry :
  (forall x, io_error x = false) ->
  map_entry_is_error entry = false -> map_entry_is_zero_or_initial entry = false ->
  map_entry_is_zero (rd m off) = true ->
  read_loop (S (S fuel)) lane off entry m a =
  (inr None, set_rtt (<[Z.to_nat lane := entry]> (rtt a)) a, []).
Proof.
  intros Hio He Hz Hm. cbn [read_loop]. rewrite He, Hz. unfold bind at 1, set_rtt_at at 1, modify at 1.
  cbn [applies foldl app]. unfold bind, catch. rewrite (nsread_ok Hio). fold (rd m off). cbn [applies foldl app].
  destruct (Z.eqb_spec entry (rd m off)) as [->|]; unfold map_entry_is_zero, map_entry_is_error, map_entry_is_zero_or_initial in *.
  { by rewrite Hm, orb_true_r in Hz. }
  apply Z.eqb_eq in Hm. by rewrite Hm.
Qed.

(** A write to that block then waits without end. *)
Lemma write_waits `{ns_callback} b m a i k l buf rt0 :
  Z.land (flags a) BTTINFO_FLAG_ERROR_MASK = 0 -> flogs a !! i = Some rt0 ->
  (k < Z.to_nat (nlane b))%nat ->
  rtt a !! k = Some (Z.lor (Z.land (f_old_map (flog rt0)) BTT_MAP_ENTRY_LBA_MASK) BTT_MAP_ENTRY_NORMAL) ->
  write_block b (Z.of_nat i) l buf m a = (inl (-2), a, []).
Proof.
  intros Hf Hi Hk Hr. unfold write_block. unfold bind at 1, state at 1. rewrite Hf. cbn [Z.eqb negb applies foldl app].
  unfold bind at 1. rewrite Nat2Z.id, Hi. cbn [checked ret applies foldl app].
  replace (existsb _ _) with true; [done|]. symmetry. apply existsb_exists. eexists. split; [|apply Z.eqb_refl].
  apply list_elem_of_In, list_elem_of_lookup. exists k. by rewrite lookup_take_lt.
Qed.

(** ** A table of 16 MB *)

Definition ex_info : btt_info :=
  match btt_info_set 512 256 (2 ^ 24) 0 with Some i => i | None => mkInfo 0 0 0 0 0 0 0 0 0 0 0 end.
Definition ex_b : btt := set_nlba (i_external_nlba ex_info) (ex_table (2 ^ 24) 512 256).
Definition ex_m : media := fresh_media ex_b ex_info (replicate 16 7) (fun _ => 0).
Definition ex_a : arena := opened ex_b ex_m (fresh_arena ex_info).

Lemma ex_consistent :
  consistent ex_b ex_m ex_a /\
  forall l, 0 <= l < external_nlba (fresh_arena ex_info) ->
    content ex_b ex_m ex_a l = Some (replicate (Z.to_nat (lbasize ex_b)) 0).
Proof.
  assert (Hi : info_ok 256 (2 ^ 24) ex_info).
  { apply (set_offs_spec 512 512 256 (2 ^ 24) 0); [lia|lia|unfold BTT_MIN_SIZE, BTT_MAX_ARENA; lia|]. by vm_compute. }
  assert (Hb : forall v n, 0 <= v < 256 -> is_bytes (replicate n v)) by (intros; by apply Forall_replicate).
  assert (Hs : BTT_MIN_SIZE <= 2 ^ 24 <= BTT_MAX_ARENA) by (unfold BTT_MIN_SIZE, BTT_MAX_ARENA; lia).
  assert (Hl : i_internal_lbasize ex_info = 512) by (by vm_compute).
  assert (Hn : i_internal_nlba ex_info * i_internal_lbasize ex_info <= 2 ^ 32) by (by vm_compute).
  pose proof (fresh_geom ex_b ex_info (replicate 16 7) Hi ltac:(by vm_compute) Hs ltac:(rewrite Hl; by vm_compute)
    ltac:(by rewrite Hl) Hn eq_refl ltac:(by vm_compute) eq_refl eq_refl (Hb 7 16%nat ltac:(lia)) eq_refl (Hb 9 16%nat ltac:(lia))) as G.
  pose proof (fresh_holds ex_b ex_info (replicate 16 7) Hi ltac:(by vm_compute) Hs ltac:(rewrite Hl; by vm_compute)
    ltac:(by rewrite Hl) Hn eq_refl ltac:(by vm_compute) eq_refl eq_refl (Hb 7 16%nat ltac:(lia)) eq_refl (Hb 9 16%nat ltac:(lia))
    (fun _ => 0) ltac:(intros x; lia) ltac:(done)) as Hh.
  exact (conj (proj1 (opened_consistent ex_b (fresh_arena ex_info) _ _ None G eq_refl Hh))
    (proj2 (opened_consistent ex_b (fresh_arena ex_info) _ _ None G eq_refl Hh))).
Qed.

Lemma ex_five : 0 <= 5 < external_nlba (fresh_arena ex_info).
Proof. vm_compute. done. Qed.

Lemma btt_write_atomic_witness :
  exists a' ops, @write_block (good_ns true) ex_b 3 5 (replicate 512 1) ex_m ex_a = (inr tt, a', ops) /\
    content ex_b (applies ex_m ops) a' 5 = Some (replicate 512 1).
Proof.
  destruct (@btt_write_atomic (good_ns true) ex_b ex_m ex_a 3 5 (replicate 512 1) 0) as (a' & ops & E & _ & Hn & _).
  - done.
  - done.
  - exact (proj1 ex_consistent).
  - vm_compute. done.
  - vm_compute. done.
  - exact ex_five.
  - vm_compute. done.
  - apply Forall_replicate. lia.
  - exists a', ops. split; [exact E|]. exact (eq_trans (Hn 5 ex_five) eq_refl).
Defined.

Lemma btt_read_content_witness :
  @read_block (good_ns true) ex_b 1 0 5 ex_m ex_a = (inr (replicate 512 0), ex_a, []).
Proof.
  rewrite (@btt_read_content (good_ns true) ex_b ex_m ex_a 5 0 0 (fun _ => eq_refl) (proj1 ex_consistent) ex_five).
  rewrite (proj2 ex_consistent 5 ex_five). reflexivity.
Defined.

Lemma btt_setf_atomic_witness :
  exists ops, @setf_block (good_ns true) 5 BTT_MAP_ENTRY_ERROR ex_m ex_a = (inr tt, ex_a, ops) /\
    content ex_b (applies ex_m ops) ex_a 5 = None.
Proof.
  destruct (@btt_setf_atomic (good_ns true) ex_b ex_m ex_a 5 BTT_MAP_ENTRY_ERROR 0) as (ops & E & _ & Hn & _).
  - done.
  - done.
  - exact (proj1 ex_consistent).
  - vm_compute. done.
  - exact ex_five.
  - by right.
  - exists ops. split; [exact E|]. exact (eq_trans (Hn 5 ex_five) eq_refl).
Defined.

Lemma btt_layout_fresh_witness :
  exists b' a ops, @write_layout (good_ns false) 0 true (fun _ => 255) (ex_table (2 ^ 24) 512 256) = (inr tt, b', ops) /\
    arenas b' = [a] /\ nlba b' = i_external_nlba ex_info /\ consistent b' (applies (fun _ => 255) ops) a.
Proof.
  destruct (@btt_layout_fresh (good_ns false) (ex_table (2 ^ 24) 512 256) (fun _ => 255) 0 (replicate 16 7) ex_info)
    as (b' & a & ops & E & _ & Ha & Hn & _ & Hc & _).
  - done.
  - done.
  - done.
  - done.
  - apply Forall_replicate. lia.
  - done.
  - apply Forall_replicate. lia.
  - intros x. lia.
  - done.
  - vm_compute. done.
  - vm_compute. done.
  - vm_compute. done.
  - vm_compute. done.
  - vm_compute. done.
  - vm_compute. done.
  - vm_compute. done.
  - exists b', a, ops. split; [exact E|]. split; [exact Ha|]. split; [exact Hn|exact Hc].
Defined.
